(* ===== verification/_CoqProject ===== *)
-Q . S2P
Prelude.v
Text.v
F64.v
Json.v
Fraction.v
Describe.v
Pane.v
Panes.v
State.v
PaneTable.v
Tree.v
Tabs.v
Workspace.v
Model.v
Ops.v
OpsFacts.v
Commands.v
CommandFacts.v
ArrangeFacts.v
Desk.v
Saved.v
SavedFacts.v
Layout.v
Service.v
Host.v
HostFacts.v
HostLaws.v
PaneTheorems.v
LayoutTheorems.v
CommandTheorems.v
PeerLog.v
PeerFacts.v
PeerMerge.v
PeerEntry.v
PeerTheorems.v
Pipe.v
PipeParse.v
PipeWalk.v
PipeCheck.v
PipeFacts.v
PipeWalkFacts.v
PipeRevise.v
PipeText.v
PipeTheorems.v
Runs.v
RunEngine.v
RunFacts.v
RunSteps.v
RunRequests.v
RunDoc.v
RunTheorems.v
Schedule.v
ScheduleFacts.v
Schedules.v
ScheduleKeeps.v
ScheduleFire.v
ScheduleTheorems.v
Utf8.v
Lines.v
Patch.v
PatchTheorems.v
Diffs.v
Graph.v
GraphTheorems.v
Log.v
Commit.v
Frame.v
Manifest.v
Intake.v
IntakeTheorems.v
Pair.v
Replica.v
ReplicaFacts.v
ReplicaTheorems.v
Stacks.v
Tasks.v
TaskTheorems.v
Messages.v
MessageTheorems.v
Delivery.v
