(* ===== verification/Prelude.v ===== *)
(** * Kanna's Rust core: a verification library

    Kanna is a terminal multiplexer: a daemon keeps panes (terminals, agents, files) in windows
    and in workspaces of tasks, runs pipelines of agents, sends prompts on schedules, shows diffs,
    logs and serial ports, builds in a guest, and trusts other machines by a signed log they
    share.  This library models the parts of the Rust code under [src/crates] that
    carry its own logic, as executable definitions, and proves what makes them correct.

    ** The parts and how they interact

    - [kanna-mux], the layout.  [Panes] is the table of panes, [Model] the tree of windows, tab
      bars, split trees, workspaces and docks they are in.  The daemon's core sends a layout
      requests ([serve] of layout.rs) through the trait [LayoutHost], which [Model] implements;
      the commands of a user ([move], [arrange], [resize], ...) reach it the same way.  A layout
      and a table are saved as JSON and read back.
    - [kanna-pipe], the pipelines.  A text is parsed to stages and arrows, checked (loops end,
      stages are reached, references are answered before they are read, the worst case is
      within the budget), and revised while it runs.  A run takes, after each stage, the first
      arrow that is eligible.
    - [kanna-daemon], the runs.  The daemon keeps the live runs of pipelines: on a tick it begins
      the next stage of a run in a terminal it asks the core for, sees that an agent reported or
      a command ended, and takes the next arrow with [kanna-pipe]; the terminals it opens and
      the agents it ends answer later, between other ticks, requests and reports.
    - [kanna-daemon], the schedules.  A schedule has a rule (an interval, or minutes of days), and
      when it is due its text is left in the mailbox of its target; they and their firings are
      rows of the database.
    - [kanna-daemon], the tasks.  A task waits for others, is built on their branches, is marked
      ready and goes stale, and hears what happens to them; its record is shared with the
      user's other machines, each with a replica of the Shelf, and one of them may start it.
    - [kanna-net], the peer log.  Entries that add and revoke keys name their parents; a machine
      merges what it is sent, and what it trusts is a view of its log.  A machine gets its first
      log by pairing with a code.
    - What is shown.  [kanna-diff] reads what [git diff] prints, [kanna-log] what [git log] prints
      and shapes it to a graph, and [kanna-daemon] splits the bytes of a serial port into lines.
    - [kanna-guest].  A host and a guest exchange frames: the manifest of a folder one way, the
      files, folders and links that a build made the other way, into an intake.

    ** The files

    Shared: [Prelude] (errors, outcomes with panics, a state and error monad, list and option
    lemmas, the tactics and hint databases), [Text] (Rust strings as UTF-8 bytes), [F64]
    (binary64 on [spec_float]), [Json] (serde_json's values and accessors; the class [World] has
    the code that is not under [src/]).

    The layout, [crates/kanna-mux/src]: [Fraction] (fraction.rs), [Describe] (describe of
    model.rs), [Pane] and [Panes] (pane.rs), [State] (state.rs), [Tree] (the split trees of
    model.rs), [Tabs] (tabs.rs), [Workspace] (workspace.rs), [Model], [Ops], [Commands] and
    [Host] (model.rs: state and queries, building blocks, commands, the [LayoutHost]
    implementation), [Desk] (desk.rs), [Saved] (saved.rs), [Layout] (layout.rs).  A Rust struct is
    a record with the same fields, shortened by a prefix; a method of [&mut self] is a function
    from the state to the state, in [res] or [act] where it can refuse or panic.  [Service]
    states what a layout promises as the class [LayoutLaws] and proves [serve] against it;
    [HostLaws] discharges it for [Model] and composes them over sequences of requests.
    [PaneTable], [OpsFacts], [CommandFacts], [ArrangeFacts], [SavedFacts] and [HostFacts] hold
    the components' lemmas, [PaneTheorems], [LayoutTheorems] and [CommandTheorems] the properties,
    the last also runs of the definitions where the code does not do what it means to.

    The peer log, [crates/kanna-net/src]: [PeerLog] (log.rs, and the canonical JSON, digests and
    hexadecimal of lib.rs), [PeerFacts] (ancestors and views as relations), [PeerMerge] (the
    invariant, authorization, the rounds of a merge, and logs that were given the same
    entries), [PeerEntry] (a machine's own entries, and runs of merges) and [PeerTheorems]; [Pair]
    (pair.rs: offers, parties and the handover of a log).

    Pipelines, [crates/kanna-pipe/src]: [Pipe] (lib.rs), [PipeParse] (parse.rs), [PipeWalk]
    (walk.rs), [PipeCheck] (check.rs), [PipeRevise] (revise.rs), with [PipeFacts],
    [PipeWalkFacts] and [PipeText] for their lemmas and [PipeTheorems].

    Runs, [crates/kanna-daemon/src/runs.rs]: [Runs] (a run's [Doc], [decide], [over_budget] and
    the texts), [RunEngine] (the handlers of the struct [Runs] over an explicit state: the live
    runs, the saved stages, the callbacks that are pending, the effects asked for), [RunFacts]
    (the invariant, and rules for what a handler does to the runs and to what is pending),
    [RunSteps] and [RunRequests] (each handler keeps it), [RunDoc] and [RunTheorems], where
    [handle] is one event, [run_step] a step and [reached] what steps lead to.

    Schedules, [crates/kanna-daemon/src/schedule.rs], with their tables in db.rs: [Schedule] (dates,
    zones, rules, parsing and printing, and the calendar against counting days),
    [ScheduleFacts] (rules and the next time of one), [Schedules] (the rows and
    the handlers), [ScheduleKeeps] (the invariant), [ScheduleFire] (firing) and
    [ScheduleTheorems].

    Tasks, [crates/kanna-daemon/src]: [Replica] (replica.rs: clocks, operations, records, the
    transactions, and who may start a task), [ReplicaFacts] (orders, the wire, what a record is the
    latest of) and [ReplicaTheorems] (machines that send each other operations and grants);
    [Stacks] (stacks.rs: what git is asked, what was seen and what follows from it), [Tasks]
    (task_events.rs, and of tasks.rs the entries and rows, saving, marking, settling, events,
    references and waiting) and [TaskTheorems].  [Messages] (messages.rs: who a message is from, its
    envelope, the WebSocket to codex's app-server; and turn.rs of [kanna-detect]) and
    [MessageTheorems]; [Delivery] (of tasks.rs, how messages wait and are handed over).

    What is shown: [Utf8] (Rust's UTF-8 of bytes), [Lines] (serial/lines.rs), [Patch]
    (kanna-diff/src/patch.rs) with [PatchTheorems], [Diffs] (kanna-diff/src/lib.rs),
    [Graph] (kanna-log/src/graph.rs) with [GraphTheorems], [Log] and [Commit]
    (kanna-log/src/lib.rs).

    The guest, [crates/kanna-guest/src]: [Frame] (frame.rs), [Manifest] (manifest.rs), [Intake]
    (intake.rs, over the kernel's calls on folders) and [IntakeTheorems].

    ** What the theorems show

    - Layout: every layout that requests and saved states reach is well formed, with each pane
      in one place and each id used once ([reachable_wf]); placing adds just the pane, removing
      takes just it, a move or an arrangement loses and doubles nothing except where the
      theorem says so, a closed task takes just its panes; reading any JSON as a layout never
      panics and never gives a broken layout.
    - Panes: ids of panes and terminals are never given twice, also after a saved table is
      read.
    - Pipelines: a checked pipeline's runs end, within a bound; the walk's worst case is the cost
      of the dearest run; a checked budget is kept; the search for loops and for stages out of
      reach is exact; a stage that is read runs before its reader; an arrow printed and parsed
      is the same arrow.
    - Peer log: merging ends without a panic and keeps the invariant that every event is signed
      and was allowed by its past; logs converge; a revoked key never returns; a trusted machine
      can always revoke; who may connect is exactly who should.  Two machines with one code pair,
      and the second has the first's log ([pairing_agrees]); what it opens has the key's tag and
      trusts both ([opened_sound]); a code allows three attempts ([offer_limits]).
    - Runs: in whatever order ticks, requests and answers come, every run is where steps of its
      pipeline lead, within its [max]es and its budget ([runs_follow_pipeline],
      [runs_are_bounded]); a visit is concluded once, with its own end ([conclusions_are_own]);
      the engine panics only where a deadline is too far ([engine_never_panics]); what is saved
      of a run reads back.

    - Schedules: the rows keep their invariant over every request, tick and start
      ([schedules_invariant]); a tick fires exactly the schedules that are due, once, and sets each
      to its next time ([fire_exact]), which is the first that its rule means ([next_exact]); a
      rule printed and parsed is the same rule; the calendar is the Gregorian one.
    - The replicated Shelf: in whatever order operations come, late, lost or twice, machines that
      have seen the same have the same records ([same_vector_same_records]), and two that pull
      from each other until nothing comes agree ([synced_agree]); where no machine takes a task from
      an owner that is away, two never start the same one ([one_machine_starts]); a machine that
      starts again has what it had ([restart_keeps]).
    - Tasks: what is settled is what follows from what was seen ([settle_exact]), and once it is, the
      same look makes no more of it ([settled_stays]); no task is stale and ready at once, whatever
      is asked ([stale_is_not_ready]); the search for a cycle of waits ends and is exact, and an
      edit closes none ([waits_for_exact], [edit_closes_no_cycle]); a task that is saved reads back
      ([saved_task_reads_back]).
    - Messages: no text closes its envelope ([envelope_sealed]); what is received of a server's frames,
      wherever they are cut, is what the frames say ([receive_exact]); a turn has ended exactly from
      when it is due ([turn_due_exact]); of the messages that wait, in whatever order agents report
      and posts are answered, none is lost and none is taken twice as long as none that is posted
      goes to another pane meanwhile ([messages_are_accounted]).
    - What is shown: lines are those of the whole stream, however it is cut ([splitter_exact]), and
      what is escaped reads back; what git writes of changed files reads back, with the paths that
      it quotes ([diff_reads_back]), and any text that parses is numbered soundly; a diff and a log show what git counts and gives; only what nothing else
      builds on is folded ([shape_folds]).
    - Guest: frames read back in a row; exactly the manifests with plain paths decode
      ([decode_safe]); what is captured is what is listed and there, and decodes where no path
      leads over a captured link ([captured_travels]); whatever a guest returns stays in its folder,
      over any chain of links ([intake_confined]), comes to its place whole or not at all, and
      replaces something only where it may ([finish_exact]).  The laws of [Disk] speak of real
      folders only, so each step has to refuse to open a link.

    ** Conventions

    Arithmetic overflow of a machine integer is a panic ([Panic], [Crash], or [None] in an
    [option]-valued step), as in a build with overflow checks; but the local clock of [Schedule],
    whose instants come from any [f64], wraps around as in the build for release; counters that only grow by one are
    unbounded [N].  An index out of bounds and [unwrap] of nothing are panics too.  Loops that are
    not structural have fuel: [ancestors] the number of edges of the log, [add_loop] the number
    of additions, [settle_log] the number of pending entries, [visit] the number of names,
    [reachable_from] the number of arrows, [walk] the number of names times the sum of the
    arrows' [max]es; that each fuel is enough is proved ([ancestors_spec], [add_loop_spec], [settle_log_spec], [visit_total],
    [reachable_from_spec], [walk_total]), so no theorem holds for want of fuel.  The same holds of the
    spine, the sides and the folds of a graph ([spine_of_spec], [side_of_exact]), of [main_go]
    ([in_main_exact]), of [escape_go] and [cut], whose fuel is the length of their input, of
    [stale_rounds], which has a round per task and one more ([settle_spec]), and of [waits_for_go],
    which has a step per wait and two more ([waits_for_spec]); [receive_go] has one per byte that is
    left and one more ([receive_go_came]).

    Code that is not under [src/] is a parameter: the clock, the splitting of a
    command line and the JSON text of the daemon ([World]), SHA-256, signatures and JSON bytes ([Crypto], with [CryptoLaws]), SPAKE2, HKDF and HMAC ([Pake]), and
    the order in which a [HashSet] is visited ([HashOrder]); for the runs, two regular
    expressions and SQLite's [json_patch] ([RunWorld]), and what a handler finds outside ([Env]:
    the clock, panes, files, git and the command lines that tasks.rs writes); the time zone, the
    lower case of Unicode, the mailbox and the clock for schedules ([Zone], [Lowercase], [Mailbox],
    [Outside]); the text of JSON in the database ([JsonText]), git for the stacks ([Repos]), and for the
    tasks which project a repo is of, the branch in a worktree, panes by name, [json_patch], how each
    save ends and the clocks ([TaskWorld]); sockets and the clock for messages ([MessageWorld]), and for their
    delivery the panes, their agents and where a message goes ([MailEnv]); git and the disk for diffs and logs ([Git], [LogWorld]); JSON bytes, SHA-256 and the
    kernel's calls on folders for the guest ([JsonBytes], where a fractional number is kept by its text, and [Disk], with their laws), each with an
    instance that keeps its laws.

    ** What is not modelled

    The mux's core and the layout's owner (futures over sockets and files), the keeper of the
    ptys, the rest of the daemon's tasks (how they are made, started, moved and closed) and
    of its database, the network node, the
    guest's supervisor and its network, the command line, the bindings to Ghostty, tree-sitter
    and Swift, and the small tools over files and HTTP: mostly effects.  Of the runs, the restart
    ([Runs::open]) and the listings are left out, a save never fails, and an answer to a read of
    the screen comes before the visit's terminal is closed and another opens.  Of the serial
    ports, the regular expressions that find a line's level; of the intake, the records that are
    read and written beside it.  Of the replicated Shelf, what a grant deletes of the task's
    row in its transaction; of the tasks, how a task is described in a reply, the worktrees that are
    made of several bases, and the threads that look; of the messages, the file that names
    Claude's socket and what is written in kanna.db and the task's log when one is taken.  What
    would come next: the restart of the runs, how tasks are made and started, and the mux's core. *)

From Stdlib Require Export Permutation.
From stdpp Require Export prelude gmap strings pretty list.

#[global] Set Default Goal Selector "!".

(** ** Errors and outcomes

    [KmuxError] is [crates/kanna-mux/src/error.rs].  A Rust [Result<A, KmuxError>]
    that may also panic (an [unwrap] on [None], an index out of bounds) is [res A]. *)

Record KmuxError := mkError { err_code : string; err_message : string }.

Inductive res (A : Type) : Type :=
| Ok (a : A)
| Err (e : KmuxError)
| Panic.
Arguments Ok {A} a.
Arguments Err {A} e.
Arguments Panic {A}.

Definition res_bind {A B} (r : res A) (k : A -> res B) : res B :=
  match r with Ok a => k a | Err e => Err e | Panic => Panic end.

Definition ok_or {A} (o : option A) (e : KmuxError) : res A :=
  match o with Some a => Ok a | None => Err e end.

Definition unwrap {A} (o : option A) : res A :=
  match o with Some a => Ok a | None => Panic end.

Definition res_ok {A} (r : res A) : option A :=
  match r with Ok a => Some a | _ => None end.

(** The same with errors of any type: a value, an error, or a panic.  [res] is the one of
    [KmuxError]; the crates that do not use it have errors of their own. *)
Inductive outcome (E A : Type) : Type :=
| Good (a : A)
| Bad (e : E)
| Crash.
Arguments Good {E A} a.
Arguments Bad {E A} e.
Arguments Crash {E A}.

Definition outcome_bind {E A B} (r : outcome E A) (k : A -> outcome E B) : outcome E B :=
  match r with Good a => k a | Bad e => Bad e | Crash => Crash end.
Definition good_or {E A} (o : option A) (e : E) : outcome E A :=
  match o with Some a => Good a | None => Bad e end.

(** Stateful fallible code, [&mut self] methods that return a [Result]: the state
    after an error is the state the method left behind, as in Rust. *)
Definition act (S A : Type) : Type := S -> res A * S.

Definition act_ret {S A} (a : A) : act S A := fun s => (Ok a, s).
Definition act_bind {S A B} (m : act S A) (k : A -> act S B) : act S B :=
  fun s => match m s with
           | (Ok a, s') => k a s'
           | (Err e, s') => (Err e, s')
           | (Panic, s') => (Panic, s')
           end.
Definition act_fail {S A} (e : KmuxError) : act S A := fun s => (Err e, s).
Definition act_gets {S A} (f : S -> A) : act S A := fun s => (Ok (f s), s).
Definition act_modify {S} (f : S -> S) : act S unit := fun s => (Ok tt, f s).
Definition act_lift {S A} (r : res A) : act S A := fun s => (r, s).
(** A mutation that panics where it cannot be done. *)
Definition act_update {S} (f : S -> option S) : act S unit :=
  fun s => match f s with Some s' => (Ok tt, s') | None => (Panic, s) end.

Declare Scope kanna_scope.
Delimit Scope kanna_scope with kanna.
Notation "'let?' x := r 'in' k" := (res_bind r (fun x => k))
  (at level 10, x name, r at level 100, k at level 200) : kanna_scope.
Notation "'let?' ' p := r 'in' k" := (res_bind r (fun p => k))
  (at level 10, p strict pattern, r at level 100, k at level 200) : kanna_scope.
Notation "'let!' x := m 'in' k" := (act_bind m (fun x => k))
  (at level 10, x name, m at level 100, k at level 200) : kanna_scope.
Notation "'let!' ' p := m 'in' k" := (act_bind m (fun p => k))
  (at level 10, p strict pattern, m at level 100, k at level 200) : kanna_scope.
Notation "'let*' x := r 'in' k" := (outcome_bind r (fun x => k))
  (at level 10, x name, r at level 100, k at level 200) : kanna_scope.
Notation "'let*' ' p := r 'in' k" := (outcome_bind r (fun p => k))
  (at level 10, p strict pattern, r at level 100, k at level 200) : kanna_scope.
Notation "m ;;; k" := (act_bind m (fun _ => k))
  (at level 100, right associativity) : kanna_scope.
Open Scope kanna_scope.
Open Scope string_scope.
Open Scope list_scope.

(** What else stateful code is made of: a query that panics where it has no answer, a
    change with a result, one that may panic. *)
Definition act_get {S A} (f : S -> option A) : act S A :=
  fun s => match f s with Some a => (Ok a, s) | None => (Panic, s) end.
Definition act_state {S A} (f : S -> A * S) : act S A :=
  fun s => let '(a, s') := f s in (Ok a, s').
Definition act_opt {S A} (f : S -> option (A * S)) : act S A :=
  fun s => match f s with Some (a, s') => (Ok a, s') | None => (Panic, s) end.

(** ** Reasoning about stateful code

    [runs P E m Q s]: from the state [s] the code [m] ends with a result and a state that
    satisfy [Q], or with an error and a state that satisfies [E]; [P] is what a panic
    needs, [False] where the code is to have none. *)
Definition runs {S A} (P : Prop) (E : S -> Prop) (m : act S A) (Q : A -> S -> Prop) (s : S) : Prop :=
  match m s with
  | (Ok a, s') => Q a s'
  | (Err _, s') => E s'
  | (Panic, _) => P
  end.

Section Runs.
Context {S A B : Type}.
Implicit Types (P : Prop) (E : S -> Prop) (s : S).

Lemma runs_mono P P' E E' (m : act S A) (Q Q' : A -> S -> Prop) s :
  runs P E m Q s -> (P -> P') -> (forall s', E s' -> E' s') -> (forall a s', Q a s' -> Q' a s') ->
  runs P' E' m Q' s.
Proof. unfold runs. destruct (m s) as [[]]; auto. Qed.

Lemma runs_weaken P E (m : act S A) (Q Q' : A -> S -> Prop) s :
  runs P E m Q s -> (forall a s', Q a s' -> Q' a s') -> runs P E m Q' s.
Proof. intros H HQ. by eapply runs_mono. Qed.

Lemma runs_bind P E (m : act S A) (k : A -> act S B) (Q : B -> S -> Prop) s :
  runs P E m (fun a => runs P E (k a) Q) s -> runs P E (act_bind m k) Q s.
Proof. unfold runs, act_bind. by destruct (m s) as [[]]. Qed.

Lemma runs_ret P E (a : A) (Q : A -> S -> Prop) s : Q a s -> runs P E (act_ret a) Q s.
Proof. done. Qed.
Lemma runs_fail P E e (Q : A -> S -> Prop) s : E s -> runs P E (act_fail e) Q s.
Proof. done. Qed.
Lemma runs_gets P E (f : S -> A) (Q : A -> S -> Prop) s : Q (f s) s -> runs P E (act_gets f) Q s.
Proof. done. Qed.
Lemma runs_modify P E (f : S -> S) (Q : unit -> S -> Prop) s : Q tt (f s) -> runs P E (act_modify f) Q s.
Proof. done. Qed.
Lemma runs_state P E (f : S -> A * S) (Q : A -> S -> Prop) s :
  (forall a s', f s = (a, s') -> Q a s') -> runs P E (act_state f) Q s.
Proof. unfold runs, act_state. destruct (f s) as [a s']. auto. Qed.
Lemma runs_lift P E (r : res A) (Q : A -> S -> Prop) s :
  (forall a, r = Ok a -> Q a s) -> (forall e, r = Err e -> E s) -> (r = Panic -> P) ->
  runs P E (act_lift r) Q s.
Proof. unfold runs, act_lift. destruct r; eauto. Qed.
Lemma runs_lift_ok_or P E (o : option A) e (Q : A -> S -> Prop) s :
  E s -> (forall a, o = Some a -> Q a s) -> runs P E (act_lift (ok_or o e)) Q s.
Proof. unfold runs, act_lift, ok_or. destruct o; auto. Qed.
Lemma runs_update P E (f : S -> option S) (Q : unit -> S -> Prop) s s' :
  f s = Some s' -> Q tt s' -> runs P E (act_update f) Q s.
Proof. unfold runs, act_update. by intros ->. Qed.
Lemma runs_get P E (f : S -> option A) (Q : A -> S -> Prop) s a :
  f s = Some a -> Q a s -> runs P E (act_get f) Q s.
Proof. unfold runs, act_get. by intros ->. Qed.
Lemma runs_opt P E (f : S -> option (A * S)) (Q : A -> S -> Prop) s a s' :
  f s = Some (a, s') -> Q a s' -> runs P E (act_opt f) Q s.
Proof. unfold runs, act_opt. by intros ->. Qed.

(** Where a panic is allowed, the code need only be followed as far as it goes. *)
Lemma runs_update_any E (f : S -> option S) (Q : unit -> S -> Prop) s :
  (forall s', f s = Some s' -> Q tt s') -> runs True E (act_update f) Q s.
Proof. unfold runs, act_update. destruct (f s); auto. Qed.
Lemma runs_get_any E (f : S -> option A) (Q : A -> S -> Prop) s :
  (forall a, f s = Some a -> Q a s) -> runs True E (act_get f) Q s.
Proof. unfold runs, act_get. destruct (f s); auto. Qed.
Lemma runs_opt_any E (f : S -> option (A * S)) (Q : A -> S -> Prop) s :
  (forall a s', f s = Some (a, s') -> Q a s') -> runs True E (act_opt f) Q s.
Proof. unfold runs, act_opt. destruct (f s) as [[]|]; auto. Qed.

(** From a [runs] to an actual run. *)
Lemma runs_elim P E (m : act S A) (Q : A -> S -> Prop) s r s' :
  runs P E m Q s -> m s = (r, s') ->
  match r with Ok a => Q a s' | Err _ => E s' | Panic => P end.
Proof. unfold runs. intros H Hm. rewrite Hm in H. by destruct r. Qed.
End Runs.

(** ** Reasoning about fallible code

    [yields r Q]: [r] does not panic, and where it is a value [Q] holds of it. *)

Definition yields {A} (r : res A) (Q : A -> Prop) : Prop :=
  match r with Ok a => Q a | Err _ => True | Panic => False end.

Lemma yields_bind {A B} (r : res A) (k : A -> res B) (Q : B -> Prop) :
  yields r (fun a => yields (k a) Q) -> yields (res_bind r k) Q.
Proof. by destruct r. Qed.

Lemma yields_mono {A} (r : res A) (P Q : A -> Prop) : yields r P -> (forall a, P a -> Q a) -> yields r Q.
Proof. destruct r; simpl; auto. Qed.

Lemma yields_ok_or {A} (o : option A) e (Q : A -> Prop) : (forall a, o = Some a -> Q a) -> yields (ok_or o e) Q.
Proof. destruct o; simpl; auto. Qed.

Lemma yields_Ok {A} (r : res A) (Q : A -> Prop) a : yields r Q -> r = Ok a -> Q a.
Proof. by intros H ->. Qed.

Lemma yields_total {A} (r : res A) (Q : A -> Prop) : yields r Q -> r ≠ Panic.
Proof. by destruct r. Qed.

(** ** Lists, as the source's iterators use them *)

(** [iter().position(p)] *)
Fixpoint position {A} (p : A -> bool) (l : list A) : option nat :=
  match l with
  | [] => None
  | x :: l => if p x then Some 0 else S <$> position p l
  end.

(** [iter().find_map(f)] *)
Fixpoint find_map {A B} (f : A -> option B) (l : list A) : option B :=
  match l with
  | [] => None
  | x :: l => match f x with Some b => Some b | None => find_map f l end
  end.

(** [iter().enumerate().find_map(f)], counting from [i]. *)
Fixpoint find_map_from {A B} (f : nat -> A -> option B) (i : nat) (l : list A) : option B :=
  match l with
  | [] => None
  | x :: l => match f i x with Some b => Some b | None => find_map_from f (S i) l end
  end.

(** [Vec::insert]; the caller checks [i <= len]. *)
Definition vec_insert {A} (i : nat) (x : A) (l : list A) : list A :=
  take i l ++ x :: drop i l.

(** [Vec::retain] *)
Definition retain {A} (p : A -> bool) (l : list A) : list A := List.filter p l.

Definition contains `{EqDecision A} (l : list A) (x : A) : bool := bool_decide (x ∈ l).

(** A traversal that stops at the first error, [collect::<Result<Vec<_>, _>>()]. *)
Fixpoint res_mapM {A B} (f : A -> res B) (l : list A) : res (list B) :=
  match l with
  | [] => Ok []
  | x :: l => let? y := f x in let? ys := res_mapM f l in Ok (y :: ys)
  end.

Section Lists.
Context {A B : Type}.
Implicit Types (l : list A) (p : A -> bool).

Lemma position_Some p l i :
  position p l = Some i -> exists x, l !! i = Some x /\ p x = true.
Proof.
  revert i. induction l as [|x l IH]; intros i; simpl; [done|].
  destruct (p x) eqn:Hp.
  - intros [= <-]. by exists x.
  - intros (j & Hj & ->)%fmap_Some. by apply IH in Hj.
Qed.

Lemma position_lt p l i : position p l = Some i -> i < length l.
Proof. intros (x & Hx & _)%position_Some. by eapply lookup_lt_Some. Qed.

Lemma position_None p l : position p l = None <-> Forall (fun x => p x = false) l.
Proof.
  induction l as [|x l IH]; simpl; [done|].
  rewrite Forall_cons. destruct (p x); [naive_solver|].
  rewrite <-IH. destruct (position p l); naive_solver.
Qed.

Lemma position_is_Some p l x : x ∈ l -> p x = true -> is_Some (position p l).
Proof.
  intros Hx Hp. destruct (position p l) eqn:E; [by eexists|].
  apply position_None in E. rewrite Forall_forall in E.
  specialize (E x Hx). congruence.
Qed.

Lemma position_first p l i j x :
  position p l = Some i -> l !! j = Some x -> p x = true -> i <= j.
Proof.
  revert i j. induction l as [|y l IH]; intros i j; simpl; [done|].
  destruct (p y) eqn:Hp; [intros [= <-]; lia|].
  intros (k & Hk & ->)%fmap_Some. destruct j as [|j]; simpl.
  - intros [= ->]. congruence.
  - intros Hj Hx. specialize (IH k j Hk Hj Hx). lia.
Qed.

Lemma find_map_Some (f : A -> option B) l b :
  find_map f l = Some b -> exists x, x ∈ l /\ f x = Some b.
Proof.
  induction l as [|x l IH]; simpl; [done|].
  destruct (f x) eqn:E.
  - intros [= ->]. exists x. split; [left | done].
  - intros H%IH. destruct H as (y & Hy & Hf). exists y. split; [by right | done].
Qed.

Lemma find_map_None (f : A -> option B) l :
  find_map f l = None <-> forall x, x ∈ l -> f x = None.
Proof.
  induction l as [|x l IH]; simpl.
  - split; [|done]. intros _ x Hx. by apply elem_of_nil in Hx.
  - destruct (f x) eqn:E.
    + split; [done|]. intros H. specialize (H x). rewrite E in H. by discriminate H; left.
    + rewrite IH. split.
      * intros H y [->|Hy]%elem_of_cons; auto.
      * intros H y Hy. apply H. by right.
Qed.

Lemma find_map_from_Some (f : nat -> A -> option B) i l b :
  find_map_from f i l = Some b -> exists j x, l !! j = Some x /\ f (i + j) x = Some b.
Proof.
  revert i. induction l as [|x l IH]; intros i; simpl; [done|].
  destruct (f i x) eqn:E.
  - intros [= ->]. exists 0, x. by rewrite Nat.add_0_r.
  - intros (j & y & Hy & Hf)%IH. exists (S j), y. split; [done|]. by rewrite Nat.add_succ_r.
Qed.

Lemma find_map_from_None (f : nat -> A -> option B) i l :
  find_map_from f i l = None -> forall j x, l !! j = Some x -> f (i + j) x = None.
Proof.
  revert i. induction l as [|x l IH]; intros i; simpl; [by intros _ ?|].
  destruct (f i x) eqn:E; [done|]. intros H [|j] y; simpl.
  - intros [= ->]. by rewrite Nat.add_0_r.
  - intros Hy. rewrite Nat.add_succ_r. by apply (IH (S i)).
Qed.

Lemma contains_true `{EqDecision A} l x : contains l x = true <-> x ∈ l.
Proof. apply bool_decide_eq_true. Qed.
Lemma contains_false `{EqDecision A} l x : contains l x = false <-> x ∉ l.
Proof. apply bool_decide_eq_false. Qed.

Lemma elem_of_retain p l x : x ∈ retain p l <-> p x = true /\ x ∈ l.
Proof. unfold retain. rewrite !list_elem_of_In, filter_In. tauto. Qed.

Lemma NoDup_retain p l : NoDup l -> NoDup (retain p l).
Proof.
  induction 1 as [|x l Hx H IH]; unfold retain in *; simpl; [constructor|].
  destruct (p x); [|done]. constructor; [|done]. rewrite (elem_of_retain p l x). tauto.
Qed.

Lemma retain_all p l : Forall (fun x => p x = true) l -> retain p l = l.
Proof. induction 1 as [|x l Hx H IH]; simpl; [done|]. unfold retain in *. simpl. by rewrite Hx, IH. Qed.

Lemma retain_none p l : Forall (fun x => p x = false) l -> retain p l = [].
Proof. induction 1 as [|x l Hx _ IH]; simpl; [done|]. unfold retain in *. simpl. by rewrite Hx, IH. Qed.

Lemma retain_app p l k : retain p (l ++ k) = retain p l ++ retain p k.
Proof. apply List.filter_app. Qed.

Lemma retain_ext p q l : (forall x, x ∈ l -> p x = q x) -> retain p l = retain q l.
Proof. intros Hpq. apply List.filter_ext_in. intros x Hx. by apply Hpq, list_elem_of_In. Qed.

Lemma retain_comm p q l : retain p (retain q l) = retain q (retain p l).
Proof.
  unfold retain. induction l as [|x l IH]; [done|]. simpl. destruct (q x) eqn:Eq, (p x) eqn:Ep; simpl; rewrite ?Eq, ?Ep; simpl; by rewrite ?IH.
Qed.

Lemma length_retain_le p l : length (retain p l) <= length l.
Proof. unfold retain. induction l as [|x l IH]; simpl; [done|]. destruct (p x); simpl; lia. Qed.

Lemma retain_full p l : length (retain p l) = length l -> retain p l = l.
Proof.
  induction l as [|x l IH]; [done|]. pose proof (length_retain_le p l) as Hle. unfold retain in *. simpl. destruct (p x); simpl; [|lia].
  intros [= E]. f_equal. by apply IH.
Qed.

Lemma retain_sublist p l : retain p l `sublist_of` l.
Proof. unfold retain. induction l as [|x l IH]; simpl; [done|]. destruct (p x); by constructor. Qed.

Lemma elem_of_rev l x : x ∈ rev l <-> x ∈ l.
Proof. by rewrite !list_elem_of_In, <- in_rev. Qed.

Lemma Forall_retain (P : A -> Prop) p l : Forall P l -> Forall P (retain p l).
Proof. rewrite !Forall_forall. intros HP x [_ Hx]%elem_of_retain. by apply HP. Qed.

Lemma NoDup_under l k : NoDup k -> l ⊆+ k -> NoDup l.
Proof. intros H [r E]%submseteq_Permutation. rewrite E in H. by apply NoDup_app in H as [? _]. Qed.

Lemma split_lookup l i x :
  l !! i = Some x -> l = take i l ++ x :: drop (S i) l.
Proof. intros H. symmetry. by apply take_drop_middle. Qed.

Lemma insert_split l i x y :
  l !! i = Some x -> <[i := y]> l = take i l ++ y :: drop (S i) l.
Proof. intros H. apply insert_take_drop. by eapply lookup_lt_Some. Qed.

(** Inserting just before or just after the replaced element [y] at index [i]. *)
Lemma vec_insert_replaced l i (b : bool) x y z :
  l !! i = Some z ->
  vec_insert (i + if b then 1 else 0) x (<[i := y]> l) =
  take i l ++ (if b then [y; x] else [x; y]) ++ drop (S i) l.
Proof.
  intros H. assert (length (take i l) = i) as Hlen.
  { apply length_take_le. apply lookup_lt_Some in H. lia. }
  rewrite (insert_split _ _ _ y H). unfold vec_insert. destruct b.
  - rewrite take_app_ge, drop_app_ge by lia. rewrite Hlen.
    replace (i + 1 - i) with 1 by lia. simpl. by rewrite drop_0, <- (assoc_L (++)).
  - rewrite Nat.add_0_r, take_app_le, drop_app_ge by lia. rewrite Hlen, Nat.sub_diag, drop_0.
    rewrite take_take, Nat.min_id. done.
Qed.

Lemma delete_split l i : delete i l = take i l ++ drop (S i) l.
Proof. apply delete_take_drop. Qed.
End Lists.

(** ** Tactics and hints *)

Create HintDb kanna.

(** Opens every existential and conjunction among the hypotheses. *)
Ltac deex :=
  repeat match goal with
         | H : exists _, _ |- _ => destruct H
         | H : _ /\ _ |- _ => destruct H
         end.

(** Splits on the scrutinee of the first match in the goal, keeping its equation. *)
Ltac split_match :=
  match goal with
  | |- context [match ?x with _ => _ end] => destruct x eqn:?; simplify_eq/=
  end.

(** Runs stateful code by one sequencing step. *)
Ltac runs_step :=
  lazymatch goal with
  | |- runs _ _ (act_bind _ _) _ _ => apply runs_bind
  | |- runs _ _ (act_ret _) _ _ => apply runs_ret
  | |- runs _ _ (act_fail _) _ _ => apply runs_fail
  | |- runs _ _ (act_gets _) _ _ => apply runs_gets
  | |- runs _ _ (act_modify _) _ _ => apply runs_modify
  end; cbv beta.
Ltac runs_steps := repeat runs_step.
