(* ===== verification/Text.v ===== *)
(** * Rust strings

    A Rust [String] is its UTF-8 bytes, a Rocq [string].  Operations the source does on
    ASCII patterns work on the bytes; operations on [char]s ([trim], [is_control],
    [is_whitespace]) decode the bytes to code points first. *)

From S2P Require Import Prelude.
From Stdlib Require Import Ascii.

(** The double quote, which cannot be written inside a string literal here. *)
Definition dq : string := String (ascii_of_nat 34) EmptyString.

(** [format!("{:?}")]-free quoting: the source writes [\"{x}\"]. *)
Definition in_quotes (s : string) : string := dq +:+ s +:+ dq.

(** ** Code points *)

Definition cont (a : ascii) : N := (N_of_ascii a - 128)%N.

(** [str::chars]: the code points of UTF-8 text (a Rust [str] is always valid UTF-8;
    a truncated sequence, which cannot occur, decodes to U+FFFD). *)
Fixpoint chars (s : string) : list N :=
  match s with
  | EmptyString => []
  | String a r =>
    let x := N_of_ascii a in
    if (x <? 128)%N then x :: chars r
    else if (x <? 224)%N then
      match r with
      | String b r' => ((x - 192) * 64 + cont b)%N :: chars r'
      | _ => [65533%N]
      end
    else if (x <? 240)%N then
      match r with
      | String b (String c r') => ((x - 224) * 4096 + cont b * 64 + cont c)%N :: chars r'
      | _ => [65533%N]
      end
    else
      match r with
      | String b (String c (String d r')) =>
        ((x - 240) * 262144 + cont b * 4096 + cont c * 64 + cont d)%N :: chars r'
      | _ => [65533%N]
      end
  end.

(** [char::encode_utf8] *)
Definition encode_char (c : N) : string :=
  let b n := ascii_of_N n in
  (if c <? 128 then String (b c) EmptyString
   else if c <? 2048 then
     String (b (192 + c / 64)) (String (b (128 + c mod 64)) EmptyString)
   else if c <? 65536 then
     String (b (224 + c / 4096))
       (String (b (128 + (c / 64) mod 64)) (String (b (128 + c mod 64)) EmptyString))
   else
     String (b (240 + c / 262144)) (String (b (128 + (c / 4096) mod 64))
       (String (b (128 + (c / 64) mod 64)) (String (b (128 + c mod 64)) EmptyString))))%N.

Fixpoint of_chars (cs : list N) : string :=
  match cs with [] => EmptyString | c :: cs => encode_char c +:+ of_chars cs end.

(** [char::is_whitespace]: the White_Space property. *)
Definition is_whitespace (c : N) : bool :=
  ((9 <=? c) && (c <=? 13) || (c =? 32) || (c =? 133) || (c =? 160) || (c =? 5760)
   || (8192 <=? c) && (c <=? 8202) || (c =? 8232) || (c =? 8233) || (c =? 8239)
   || (c =? 8287) || (c =? 12288))%N.

(** [char::is_control]: general category Cc. *)
Definition is_control (c : N) : bool :=
  ((c <=? 31) || (127 <=? c) && (c <=? 159))%N.

Fixpoint drop_while {A} (p : A -> bool) (l : list A) : list A :=
  match l with [] => [] | x :: l' => if p x then drop_while p l' else l end.

Fixpoint take_while {A} (p : A -> bool) (l : list A) : list A :=
  match l with [] => [] | x :: l' => if p x then x :: take_while p l' else [] end.

Definition trim_start_chars (p : N -> bool) (s : string) : string :=
  of_chars (drop_while p (chars s)).
Definition trim_end_chars (p : N -> bool) (s : string) : string :=
  of_chars (rev (drop_while p (rev (chars s)))).
(** [str::trim_matches] with a [char] predicate. *)
Definition trim_matches (p : N -> bool) (s : string) : string :=
  of_chars (rev (drop_while p (rev (drop_while p (chars s))))).

Definition str_trim : string -> string := trim_matches is_whitespace.
Definition str_trim_start : string -> string := trim_start_chars is_whitespace.
Definition str_trim_end : string -> string := trim_end_chars is_whitespace.

(** ** Bytes *)

(** [str::strip_prefix] *)
Fixpoint strip_prefix (p s : string) : option string :=
  match p, s with
  | EmptyString, _ => Some s
  | String a p, String b s => if decide (a = b) then strip_prefix p s else None
  | _, _ => None
  end.

Definition starts_with (p s : string) : bool := bool_decide (is_Some (strip_prefix p s)).

Definition strip_suffix (p s : string) : option string :=
  String.rev <$> strip_prefix (String.rev p) (String.rev s).

Definition ends_with (p s : string) : bool := bool_decide (is_Some (strip_suffix p s)).

(** Splits at the first occurrence of [p]: [str::split_once], and [str::find] as the
    length of the first part. *)
Fixpoint split_once (p s : string) : option (string * string) :=
  match strip_prefix p s with
  | Some rest => Some (EmptyString, rest)
  | None =>
    match s with
    | EmptyString => None
    | String a s' => (fun '(x, y) => (String a x, y)) <$> split_once p s'
    end
  end.

(** [str::contains] with a string pattern. *)
Definition str_contains (p s : string) : bool := bool_decide (is_Some (split_once p s)).

(** [str::split] on bytes that satisfy [p]; always at least one part. *)
Fixpoint split_bytes (p : ascii -> bool) (s : string) : list string :=
  match s with
  | EmptyString => [EmptyString]
  | String a s' =>
    if p a then EmptyString :: split_bytes p s'
    else match split_bytes p s' with
         | [] => [String a EmptyString]
         | part :: parts => String a part :: parts
         end
  end.

Definition split_on (a : ascii) : string -> list string :=
  split_bytes (fun b => bool_decide (a = b)).

(** [rsplit(c).next()], the part after the last [c]. *)
Definition last_part (a : ascii) (s : string) : string :=
  default s (last (split_on a s)).

(** [slice::join] *)
Fixpoint join (sep : string) (l : list string) : string :=
  match l with
  | [] => EmptyString
  | [x] => x
  | x :: l => x +:+ sep +:+ join sep l
  end.

Definition str_is_empty (s : string) : bool := bool_decide (s = "").

Fixpoint string_bytes (s : string) : list ascii :=
  match s with EmptyString => [] | String a s => a :: string_bytes s end.

Definition is_digit (a : ascii) : bool :=
  let n := N_of_ascii a in ((48 <=? n) && (n <=? 57))%N.

Definition digit_value (a : ascii) : N := (N_of_ascii a - 48)%N.

(** ** Decimal numbers *)

Fixpoint parse_digits (acc : N) (s : string) : option N :=
  match s with
  | EmptyString => Some acc
  | String a s => if is_digit a then parse_digits (acc * 10 + digit_value a)%N s else None
  end.

(** [uN::from_str]: an optional [+], at least one digit, and no overflow past [max]. *)
Definition parse_uint (max : N) (s : string) : option N :=
  let body := default s (strip_prefix "+" s) in
  match body with
  | EmptyString => None
  | _ => n ← parse_digits 0 body; if (n <=? max)%N then Some n else None
  end.

Definition usize_max : N := (2 ^ 64 - 1)%N.
Definition u32_max : N := (2 ^ 32 - 1)%N.
Definition parse_usize : string -> option N := parse_uint usize_max.
Definition parse_u32 : string -> option N := parse_uint u32_max.

(** [Ord for str]: the order of the bytes. *)
Fixpoint string_le (a b : string) : bool :=
  match a, b with
  | EmptyString, _ => true
  | String _ _, EmptyString => false
  | String x a, String y b =>
    let i := Ascii.nat_of_ascii x in
    let j := Ascii.nat_of_ascii y in
    (i <? j)%nat || ((i =? j)%nat && string_le a b)
  end.

(** The keys of a [BTreeMap] of strings, in their order. *)
Fixpoint insert_string (x : string) (l : list string) : list string :=
  match l with
  | [] => [x]
  | y :: l => if string_le x y then x :: y :: l else y :: insert_string x l
  end.
Definition sort_strings (l : list string) : list string := foldr insert_string [] l.
Definition sorted_keys {A} (m : gmap string A) : list string := sort_strings (map fst (map_to_list m)).

(** ** Lemmas *)

Lemma insert_string_perm x l : insert_string x l ≡ₚ x :: l.
Proof. induction l as [|y l IH]; simpl; [done|]. destruct (string_le x y); [done|]. rewrite IH. constructor. Qed.

Lemma sort_strings_perm l : sort_strings l ≡ₚ l.
Proof. induction l as [|x l IH]; simpl; [done|]. by rewrite insert_string_perm, IH. Qed.

Lemma elem_of_sorted_keys {A} (m : gmap string A) k : k ∈ sorted_keys m <-> is_Some (m !! k).
Proof.
  unfold sorted_keys. rewrite sort_strings_perm, list_elem_of_In, in_map_iff. split.
  - intros ([k' v] & <- & Hin%list_elem_of_In%elem_of_map_to_list). by exists v.
  - intros [v Hv]. exists (k, v). split; [done|]. by apply list_elem_of_In, elem_of_map_to_list.
Qed.

Lemma NoDup_sorted_keys {A} (m : gmap string A) : NoDup (sorted_keys m).
Proof. unfold sorted_keys. rewrite sort_strings_perm. apply (NoDup_fst_map_to_list m). Qed.

Lemma string_app_assoc (s t u : string) : s +:+ (t +:+ u) = (s +:+ t) +:+ u.
Proof. induction s as [|a s IH]; [done|]. change (String a (s +:+ (t +:+ u)) = String a ((s +:+ t) +:+ u)). by rewrite IH. Qed.

Lemma strip_prefix_app p s : strip_prefix p (p +:+ s) = Some s.
Proof. induction p as [|a p IH]; simpl; [done|]. by rewrite decide_True. Qed.

Lemma strip_prefix_Some p s r : strip_prefix p s = Some r -> s = p +:+ r.
Proof.
  revert s. induction p as [|a p IH]; intros s; simpl.
  - by intros [= ->].
  - destruct s as [|b s]; [done|]. case_decide; [|done]. subst.
    intros ->%IH. done.
Qed.

Lemma string_app_inj_l (p s t : string) : p +:+ s = p +:+ t -> s = t.
Proof. apply inj, _. Qed.

Lemma pretty_digit_char d :
  (d < 10)%N -> is_digit (pretty_N_char d) = true /\ digit_value (pretty_N_char d) = d.
Proof.
  intros Hd.
  assert (d = 0 ∨ d = 1 ∨ d = 2 ∨ d = 3 ∨ d = 4 ∨ d = 5 ∨ d = 6 ∨ d = 7 ∨ d = 8 ∨ d = 9)%N
    by lia. naive_solver.
Qed.

Lemma parse_pretty_go x s :
  exists k, forall a, parse_digits a (pretty_N_go x s) = parse_digits (a * 10 ^ k + x)%N s.
Proof.
  revert s. induction (N.lt_wf_0 x) as [x _ IH]; intros s.
  assert (x = 0 ∨ 0 < x)%N as [->|Hx] by lia.
  - exists 0%N. intros a. rewrite pretty_N_go_0. f_equal; lia.
  - rewrite pretty_N_go_step by done.
    destruct (IH (x `div` 10)%N) with (s := String (pretty_N_char (x `mod` 10)) s)
      as [k Hk]; [by apply N.div_lt|].
    exists (N.succ k). intros a. rewrite Hk.
    destruct (pretty_digit_char (x `mod` 10)) as [Hd Hv]; [by apply N.mod_lt|].
    simpl. rewrite Hd, Hv. f_equal.
    rewrite N.pow_succ_r'. pose proof (N.div_mod x 10). lia.
Qed.

Lemma pretty_N_head (n : N) : exists a s, pretty n = String a s /\ is_digit a = true.
Proof.
  unfold pretty, pretty_N. case_decide as Hn; [by eexists _, _|].
  assert (Hgo : forall x s, (0 < x)%N ->
    exists a s', pretty_N_go x s = String a s' /\ is_digit a = true).
  { intros x. induction (N.lt_wf_0 x) as [x _ IH]; intros s Hx.
    rewrite pretty_N_go_step by done.
    destruct (N.eq_0_gt_0_cases (x `div` 10)) as [->|Hd].
    - rewrite pretty_N_go_0. eexists _, _. split; [done|].
      by apply pretty_digit_char, N.mod_lt.
    - apply IH; [by apply N.div_lt | done]. }
  apply Hgo. lia.
Qed.

Lemma parse_digits_pretty (n : N) : parse_digits 0 (pretty n) = Some n.
Proof.
  unfold pretty, pretty_N. case_decide as Hn; [by subst|].
  destruct (parse_pretty_go n "") as [k ->]. simpl. f_equal; lia.
Qed.

(** Printing a number and parsing it back gives the number. *)
Lemma parse_uint_pretty (max n : N) : (n <= max)%N -> parse_uint max (pretty n) = Some n.
Proof.
  intros Hn. unfold parse_uint.
  destruct (pretty_N_head n) as (a & s & Ha & Hd).
  assert (strip_prefix "+" (pretty n) = None) as ->.
  { rewrite Ha. simpl. case_decide as E; [|done]. by rewrite <- E in Hd. }
  simpl. rewrite Ha, <- Ha, parse_digits_pretty. simpl.
  by apply N.leb_le in Hn as ->.
Qed.

(** * Paths: what the source uses of Rust's [std::path] on Unix

    A path is its text.  [components] leaves out empty parts and [.], but for a [.] the path
    begins with. *)

Inductive Component := RootDir | CurDir | ParentDir | Normal (s : string).
#[export] Instance Component_eq_dec : EqDecision Component.
Proof. solve_decision. Defined.

Definition part_component (s : string) : option Component :=
  if str_is_empty s then None else if bool_decide (s = ".") then None else if bool_decide (s = "..") then Some ParentDir else Some (Normal s).

Definition components (p : string) : list Component :=
  match split_on "/"%char p with
  | [] => []
  | first :: rest =>
    (if starts_with "/" p then [RootDir] else if bool_decide (first = ".") then [CurDir] else option_list (part_component first))
    ++ omap part_component rest
  end.

Definition path_file_name (p : string) : option string :=
  match last (components p) with Some (Normal s) => Some s | _ => None end.

(** Without the last component, and without what is left out before it *)
Definition left_out (s : string) : bool := bool_decide (part_component s = None).
Definition path_parent (p : string) : option string :=
  match split_on "/"%char p with
  | [] => None
  | first :: rest =>
    match drop_while left_out (rev rest) with
    | _ :: before =>
      match rev (drop_while left_out before) with
      | [] => Some (if str_is_empty first then "/" else first)
      | kept => Some (join "/" (first :: kept))
      end
    | [] => if str_is_empty first then None else Some ""
    end
  end.

(** [Path::is_absolute] *)
Definition is_absolute (p : string) : bool := starts_with "/" p.

Example path_parents :
  map path_parent ["/r/.git"; "/.git"; "/r//.git/"; ".git"; "./x"; "a/."; "/"; ""] = [Some "/r"; Some "/"; Some "/r"; Some ""; Some "."; Some ""; None; None].
Proof. reflexivity. Qed.
Example path_components : components "./a//./b/../c/" = [CurDir; Normal "a"; Normal "b"; ParentDir; Normal "c"].
Proof. reflexivity. Qed.
