(* ===== verification/F64.v ===== *)
(** * [f64]: IEEE binary64 numbers

    The sizes of panes are [f64]s.  They are modelled exactly: [spec_float] with a 53-bit
    significand and exponent bound 1024 is binary64, and the arithmetic below rounds to
    nearest even as Rust's does.  The definitions compute. *)

From S2P Require Import Prelude.
From Stdlib Require Import ZArith SpecFloat.

Definition f64 : Type := spec_float.

#[export] Instance f64_eq_dec : EqDecision f64.
Proof. solve_decision. Defined.

Definition fadd : f64 -> f64 -> f64 := SFadd 53 1024.
Definition fsub : f64 -> f64 -> f64 := SFsub 53 1024.
Definition fmul : f64 -> f64 -> f64 := SFmul 53 1024.
Definition fdiv : f64 -> f64 -> f64 := SFdiv 53 1024.
Definition fneg : f64 -> f64 := SFopp.
Definition fabs : f64 -> f64 := SFabs.
(** The comparisons; each is [false] when an operand is NaN. *)
Definition flt : f64 -> f64 -> bool := SFltb.
Definition fle : f64 -> f64 -> bool := SFleb.
Definition feq : f64 -> f64 -> bool := SFeqb.

Definition is_finite (x : f64) : bool :=
  match x with S754_zero _ | S754_finite _ _ _ => true | _ => false end.

(** [z as f64], rounding to nearest even. *)
Definition f_of_Z (z : Z) : f64 := binary_normalize 53 1024 z 0 false.
Definition f_of_N (n : N) : f64 := f_of_Z (Z.of_N n).
Definition f_of_nat (n : nat) : f64 := f_of_Z (Z.of_nat n).

Definition f0 : f64 := S754_zero false.
Definition f1 : f64 := f_of_Z 1.
Definition f_inf : f64 := S754_infinity false.
Definition f_nan : f64 := S754_nan.

(** The binary64 number nearest to [m * 10^e]: a decimal literal, or decimal text. *)
Definition f_dec (m : Z) (e : Z) : f64 :=
  if (0 <=? e)%Z then f_of_Z (m * 10 ^ e)
  else match m with
       | Z0 => f0
       | Zpos p => fdiv (S754_finite false p 0) (S754_finite false (Z.to_pos (10 ^ (- e))) 0)
       | Zneg p => fdiv (S754_finite true p 0) (S754_finite false (Z.to_pos (10 ^ (- e))) 0)
       end.

(** [2f64.powi(k)] for the exponents the source uses, [-1000 <= k <= 1000], where the power
    is a normal binary64 number. *)
Definition f_pow2 (k : Z) : f64 :=
  if (0 <=? k)%Z then f_of_Z (2 ^ k) else fdiv f1 (f_of_Z (2 ^ (- k))).

(** The integer part, toward zero; [None] for an infinity or NaN. *)
Definition f_trunc_Z (x : f64) : option Z :=
  match x with
  | S754_zero _ => Some 0%Z
  | S754_finite s m e =>
    let a := if (0 <=? e)%Z then (Z.pos m * 2 ^ e)%Z else (Z.pos m / 2 ^ (- e))%Z in
    Some (if s then - a else a)%Z
  | _ => None
  end.

(** [f64::round]: to the nearest integer, halves away from zero. *)
Definition f_round (x : f64) : f64 :=
  match x with
  | S754_finite s m e =>
    if (0 <=? e)%Z then x
    else
      let q := ((Z.pos m + 2 ^ (- e - 1)) / 2 ^ (- e))%Z in
      binary_normalize 53 1024 (if s then - q else q)%Z 0 s
  | _ => x
  end.

(** [f64::trunc] and [f64::fract]. *)
Definition f_trunc (x : f64) : f64 :=
  match x with
  | S754_finite s _ _ =>
    match f_trunc_Z x with Some z => binary_normalize 53 1024 z 0 s | None => x end
  | _ => x
  end.
Definition f_fract (x : f64) : f64 := fsub x (f_trunc x).

(** [x as iN] and [x as uN]: saturating, NaN is zero. *)
Definition f_cast (lo hi : Z) (x : f64) : Z :=
  match x with
  | S754_nan => 0
  | S754_infinity s => if s then lo else hi
  | _ => match f_trunc_Z x with Some z => Z.max lo (Z.min hi z) | None => 0 end
  end%Z.

Definition as_i64 : f64 -> Z := f_cast (- 2 ^ 63) (2 ^ 63 - 1).
Definition as_usize (x : f64) : N := Z.to_N (f_cast 0 (2 ^ 64 - 1) x).
Definition as_u32 (x : f64) : N := Z.to_N (f_cast 0 (2 ^ 32 - 1) x).

(** [iter().sum::<f64>()]: Rust folds from [-0.0]. *)
Definition f_sum (l : list f64) : f64 := foldl fadd (S754_zero true) l.

(** ** Sanity: the constants are the doubles the compiler would use. *)
Example f_half : f_dec 5 (-1) = S754_finite false 4503599627370496 (-53).
Proof. reflexivity. Qed.
Example f_two_fifths :
  fdiv (f_of_Z 2) (f_of_Z 5) = S754_finite false 7205759403792794 (-54).
Proof. reflexivity. Qed.
Example f_round_half : f_round (f_dec 25 (-1)) = f_of_Z 3 /\ f_round (f_dec (-25) (-1)) = f_of_Z (-3).
Proof. split; reflexivity. Qed.

(** ** Integers below [2^53] are exact *)

Lemma digits2_pos_bounds p :
  (2 ^ (Z.pos (digits2_pos p) - 1) <= Z.pos p < 2 ^ Z.pos (digits2_pos p))%Z.
Proof.
  induction p as [p IH|p IH|]; simpl digits2_pos; [..|done];
    rewrite Pos2Z.inj_succ; set (D := Z.pos (digits2_pos p)) in *;
    replace (Z.succ D - 1)%Z with D by lia;
    rewrite Z.pow_succ_r by lia;
    assert (2 ^ D = 2 * 2 ^ (D - 1))%Z
      by (rewrite <- Z.pow_succ_r by lia; f_equal; lia);
    lia.
Qed.

Lemma digits2_pos_unique p d :
  (0 < d)%Z -> (2 ^ (d - 1) <= Z.pos p < 2 ^ d)%Z -> Z.pos (digits2_pos p) = d.
Proof.
  intros Hd Hp. pose proof (digits2_pos_bounds p) as Hb.
  destruct (Z.lt_trichotomy (Z.pos (digits2_pos p)) d) as [H|[H|H]]; [|done|]; exfalso.
  - assert (2 ^ Z.pos (digits2_pos p) <= 2 ^ (d - 1))%Z by (apply Z.pow_le_mono_r; lia). lia.
  - assert (2 ^ d <= 2 ^ (Z.pos (digits2_pos p) - 1))%Z by (apply Z.pow_le_mono_r; lia). lia.
Qed.

Lemma digits2_pos_le p k : (0 <= k)%Z -> (Z.pos p < 2 ^ k)%Z -> (Z.pos (digits2_pos p) <= k)%Z.
Proof.
  intros Hk Hp. pose proof (digits2_pos_bounds p) as Hb.
  destruct (Z.le_gt_cases (Z.pos (digits2_pos p)) k); [done|].
  assert (2 ^ k <= 2 ^ (Z.pos (digits2_pos p) - 1))%Z by (apply Z.pow_le_mono_r; lia). lia.
Qed.

Lemma iter_xO_val p k : Z.pos (Pos.iter xO p k) = (Z.pos p * 2 ^ Z.pos k)%Z.
Proof.
  induction k as [|k IH] using Pos.peano_ind; simpl Pos.iter.
  - change (2 ^ 1)%Z with 2%Z. lia.
  - rewrite Pos.iter_succ, Pos2Z.inj_xO, IH, Pos2Z.inj_succ, Z.pow_succ_r by lia. lia.
Qed.

Lemma round_aux_exact s m e :
  digits2_pos m = 53%positive -> (-1074 <= e <= 971)%Z ->
  binary_round_aux 53 1024 s (Z.pos m) e loc_Exact = S754_finite s m e.
Proof.
  intros Hm He. unfold binary_round_aux, shr_fexp. simpl Zdigits2. rewrite Hm.
  assert (fexp 53 1024 (53 + e) - e = 0)%Z as Hz
    by (unfold fexp, emin; lia).
  rewrite Hz. simpl. rewrite Hm, Hz. simpl.
  by replace (e <=? 1024 - 53)%Z with true by (symmetry; apply Z.leb_le; lia).
Qed.

(** A positive integer below [2^53] as a double: its bits shifted up to 53 of them. *)
Lemma f_of_pos_exact s p :
  (Z.pos p < 2 ^ 53)%Z ->
  exists m e, binary_normalize 53 1024 (if s : bool then Z.neg p else Z.pos p) 0 s = S754_finite s m e
    /\ e = (Z.pos (digits2_pos p) - 53)%Z /\ (-52 <= e <= 0)%Z
    /\ Z.pos m = (Z.pos p * 2 ^ (- e))%Z.
Proof.
  intros Hp. pose proof (digits2_pos_le p 53 ltac:(lia) Hp) as HD.
  pose proof (digits2_pos_bounds p) as Hb.
  set (D := Z.pos (digits2_pos p)) in *.
  assert (binary_round 53 1024 s p 0 =
    binary_normalize 53 1024 (if s then Z.neg p else Z.pos p) 0 s) as <- by (by destruct s).
  unfold binary_round, shl_align.
  assert (fexp 53 1024 (D + 0) - 0 = D - 53)%Z as Hf by (unfold fexp, emin; lia).
  fold D. rewrite Hf.
  assert (Hdig : forall m, Z.pos m = (Z.pos p * 2 ^ (53 - D))%Z -> digits2_pos m = 53%positive).
  { intros m Hm. apply Pos2Z.inj. apply digits2_pos_unique; [lia|]. rewrite Hm.
    assert (2 ^ (53 - 1) = 2 ^ (D - 1) * 2 ^ (53 - D))%Z as ->
      by (rewrite <- Z.pow_add_r by lia; f_equal; lia).
    assert (2 ^ 53 = 2 ^ D * 2 ^ (53 - D))%Z as ->
      by (rewrite <- Z.pow_add_r by lia; f_equal; lia).
    assert (0 < 2 ^ (53 - D))%Z by (apply Z.pow_pos_nonneg; lia).
    split; [apply Z.mul_le_mono_nonneg_r | apply Z.mul_lt_mono_pos_r]; lia. }
  destruct (D - 53)%Z as [|d|d] eqn:E; [| lia |].
  - exists p, 0%Z. split_and!; try lia. apply round_aux_exact; [|lia].
    apply Hdig. replace (53 - D)%Z with 0%Z by lia. lia.
  - replace (fexp 53 1024 (D + 0)) with (Z.neg d) by lia.
    exists (Pos.iter xO p d), (Z.neg d).
    split_and!; try lia.
    + apply round_aux_exact; [|lia]. apply Hdig. rewrite iter_xO_val. do 2 f_equal. lia.
    + rewrite iter_xO_val. do 2 f_equal.
Qed.

Lemma f_trunc_Z_of_pos p : (Z.pos p < 2 ^ 53)%Z -> f_trunc_Z (f_of_Z (Z.pos p)) = Some (Z.pos p).
Proof.
  intros Hp. destruct (f_of_pos_exact false p Hp) as (m & e & Hf & _ & He & Hm).
  unfold f_of_Z. rewrite Hf. simpl. f_equal. destruct (Z.leb_spec 0 e).
  - replace e with 0%Z in * by lia. lia.
  - rewrite Hm. apply Z.div_mul. apply Z.pow_nonzero; lia.
Qed.

Lemma as_i64_of_Z z : (0 <= z < 2 ^ 53)%Z -> as_i64 (f_of_Z z) = z.
Proof.
  intros Hz. destruct z as [|p|p]; [done| |lia].
  unfold as_i64, f_cast. rewrite f_trunc_Z_of_pos by lia.
  destruct (f_of_pos_exact false p) as (m & e & Hf & _); [lia|].
  unfold f_of_Z. simpl in Hf. simpl. rewrite Hf. lia.
Qed.

Lemma f_round_of_Z z : (0 <= z < 2 ^ 53)%Z -> f_round (f_of_Z z) = f_of_Z z.
Proof.
  intros Hz. destruct z as [|p|p]; [done| |lia].
  destruct (f_of_pos_exact false p) as (m & e & Hf & _ & He & Hm); [lia|].
  unfold f_of_Z in *. rewrite Hf. unfold f_round. destruct (Z.leb_spec 0 e); [done|].
  assert ((Z.pos m + 2 ^ (- e - 1)) / 2 ^ (- e) = Z.pos p)%Z as ->; [|exact Hf].
  rewrite Hm. rewrite Z.add_comm, Z.div_add by (apply Z.pow_nonzero; lia).
  rewrite Z.div_small; [lia|]. split; [apply Z.pow_nonneg; lia|].
  apply Z.pow_lt_mono_r; lia.
Qed.

Lemma feq_of_Z_refl z : (0 <= z < 2 ^ 53)%Z -> feq (f_of_Z z) (f_of_Z z) = true.
Proof.
  intros Hz. destruct z as [|p|p]; [done| |lia].
  destruct (f_of_pos_exact false p) as (m & e & Hf & _); [lia|].
  unfold f_of_Z in *. rewrite Hf. unfold feq, SFeqb, SFcompare.
  rewrite Z.compare_refl. by rewrite (Pos.compare_cont_refl m Eq).
Qed.

Lemma flt_of_pos p q : (Z.pos p < Z.pos q < 2 ^ 53)%Z -> flt (f_of_Z (Z.pos p)) (f_of_Z (Z.pos q)) = true.
Proof.
  intros Hpq.
  destruct (f_of_pos_exact false p) as (m & e & Hf & He & Heb & Hm); [lia|].
  destruct (f_of_pos_exact false q) as (m' & e' & Hf' & He' & Heb' & Hm'); [lia|].
  unfold f_of_Z in *. rewrite Hf, Hf'. unfold flt, SFltb, SFcompare.
  pose proof (digits2_pos_bounds p). pose proof (digits2_pos_bounds q).
  assert (e <= e')%Z.
  { subst. destruct (Z.le_gt_cases (Z.pos (digits2_pos p)) (Z.pos (digits2_pos q))); [lia|].
    assert (2 ^ Z.pos (digits2_pos q) <= 2 ^ (Z.pos (digits2_pos p) - 1))%Z
      by (apply Z.pow_le_mono_r; lia). lia. }
  destruct (Z.compare_spec e e') as [Heq|Hlt|Hgt]; [|done|lia].
  assert (Z.pos m < Z.pos m')%Z.
  { rewrite Hm, Hm', Heq. apply Z.mul_lt_mono_pos_r; [|lia]. apply Z.pow_pos_nonneg; lia. }
  change (Pos.compare_cont Eq m m') with (Pos.compare m m').
  by replace (Pos.compare m m') with Lt by (symmetry; apply Pos.compare_lt_iff; lia).
Qed.

Lemma flt_of_Z a b : (0 <= a < b)%Z -> (b < 2 ^ 53)%Z -> flt (f_of_Z a) (f_of_Z b) = true.
Proof.
  intros Ha Hb. destruct b as [|q|q]; [lia| |lia].
  destruct a as [|p|p]; [|apply flt_of_pos; lia|lia].
  destruct (f_of_pos_exact false q) as (m & e & Hf & _); [lia|].
  unfold f_of_Z in *. by rewrite Hf.
Qed.

Lemma fabs_of_Z z : (0 <= z < 2 ^ 53)%Z -> fabs (f_of_Z z) = f_of_Z z.
Proof.
  intros Hz. destruct z as [|p|p]; [done| |lia].
  destruct (f_of_pos_exact false p) as (m & e & Hf & _); [lia|].
  unfold f_of_Z in *. by rewrite Hf.
Qed.

(** Simplification leaves numbers alone; evaluation is for [vm_compute]. *)
#[global] Arguments fadd : simpl never.
#[global] Arguments fsub : simpl never.
#[global] Arguments fmul : simpl never.
#[global] Arguments fdiv : simpl never.
#[global] Arguments flt : simpl never.
#[global] Arguments fle : simpl never.
#[global] Arguments feq : simpl never.
#[global] Arguments f_of_Z : simpl never.
#[global] Arguments f_dec : simpl never.
#[global] Arguments f_round : simpl never.
#[global] Arguments f_sum : simpl never.
