(* ===== verification/Json.v ===== *)
(** * JSON values: [serde_json::Value] and [crates/kanna-mux/src/json.rs]

    An object keeps its fields in insertion order ([serde_json] is built with
    [preserve_order] in the daemon), so it is an association list whose keys are distinct
    when it is built with [map_insert]. *)

From S2P Require Import Prelude Text F64.

Inductive JsonNumber :=
| PosInt (n : N)
| NegInt (z : Z)
| Float (f : f64).

Inductive Value :=
| JNull
| JBool (b : bool)
| JNumber (n : JsonNumber)
| JString (s : string)
| JArray (items : list Value)
| JObject (fields : list (string * Value)).

Abbreviation Map := (list (string * Value)).

(** ** What the source uses of [serde_json] *)

Fixpoint map_get (m : Map) (key : string) : option Value :=
  match m with
  | [] => None
  | (k, v) :: m => if decide (k = key) then Some v else map_get m key
  end.

(** [Map::insert]: replaces in place, or appends. *)
Fixpoint map_insert (m : Map) (key : string) (v : Value) : Map :=
  match m with
  | [] => [(key, v)]
  | (k, w) :: m => if decide (k = key) then (k, v) :: m else (k, w) :: map_insert m key v
  end.

Definition get (value : Value) (key : string) : option Value :=
  match value with JObject m => map_get m key | _ => None end.

Definition as_str (value : Value) : option string :=
  match value with JString s => Some s | _ => None end.
Definition as_bool (value : Value) : option bool :=
  match value with JBool b => Some b | _ => None end.
Definition as_array (value : Value) : option (list Value) :=
  match value with JArray l => Some l | _ => None end.
Definition as_u64 (value : Value) : option N :=
  match value with JNumber (PosInt n) => Some n | _ => None end.
Definition number_as_f64 (n : JsonNumber) : f64 :=
  match n with PosInt n => f_of_N n | NegInt z => f_of_Z z | Float f => f end.
Definition as_f64 (value : Value) : option f64 :=
  match value with JNumber n => Some (number_as_f64 n) | _ => None end.
Definition is_null (value : Value) : bool :=
  match value with JNull => true | _ => false end.
Definition is_object (value : Value) : bool :=
  match value with JObject _ => true | _ => false end.
(** [value == Some(&Value::Bool(true))] *)
Definition is_bool_true (value : option Value) : bool :=
  match value with Some (JBool b) => b | _ => false end.

(** [Value::from(i64)] and [Value::from(usize)] *)
Definition from_i64 (z : Z) : Value :=
  JNumber (if (0 <=? z)%Z then PosInt (Z.to_N z) else NegInt z).
Definition from_usize (n : N) : Value := JNumber (PosInt n).
(** [serde_json::Number::from_f64]: only a finite number is a JSON number. *)
Definition from_f64 (f : f64) : option JsonNumber :=
  if is_finite f then Some (Float f) else None.

(** [json!({ .. })] and the [reply] helper of model.rs build an object from fields. *)
Definition obj (fields : list (string * Value)) : Value := JObject fields.

(** ** What the code takes from outside: the time in whole seconds, [shlex::split], and
    [serde_json::to_string] *)
Class World := {
  now : f64;
  shlex_split : string -> option (list string);
  json_text : Value -> string }.

(** ** json.rs *)

Definition num (value : f64) : Value :=
  if feq (f_round value) value && flt (fabs value) (f_dec 1 15)
  then from_i64 (as_i64 value)
  else match from_f64 value with Some n => JNumber n | None => JNull end.

Definition opt (value : option string) : Value :=
  match value with Some v => JString v | None => JNull end.

Fixpoint normalized (value : Value) : Value :=
  match value with
  | JNumber n => num (number_as_f64 n)
  | JArray items => JArray (map normalized items)
  | JObject fields => JObject (map (fun '(k, v) => (k, normalized v)) fields)
  | other => other
  end.

Definition encode `{World} (value : Value) : string := json_text (normalized value).

Fixpoint same (a b : Value) : bool :=
  match a, b with
  | JNumber x, JNumber y => feq (number_as_f64 x) (number_as_f64 y)
  | JArray x, JArray y =>
    (fix go x y :=
       match x, y with
       | [], [] => true
       | v :: x, w :: y => same v w && go x y
       | _, _ => false
       end) x y
  | JObject x, JObject y =>
    bool_decide (length x = length y) &&
    (fix go (x : Map) :=
       match x with
       | [] => true
       | (k, v) :: x =>
         match map_get y k with Some w => same v w | None => false end && go x
       end) x
  | JNull, JNull => true
  | JBool x, JBool y => Bool.eqb x y
  | JString x, JString y => bool_decide (x = y)
  | _, _ => false
  end.

Definition string_of (value : Value) (key : string) : option string :=
  v ← get value key; as_str v.

Definition is_true (value : Value) (key : string) : bool := is_bool_true (get value key).

Definition trim_char (c : N) : bool :=
  is_whitespace c &&
  negb (bool_decide (c ∈ [10; 13; 11; 12; 133; 8232; 8233]%N)).

Definition trim (text : string) : string := trim_matches trim_char text.

(** ** Lemmas *)

Lemma map_get_insert m k v : map_get (map_insert m k v) k = Some v.
Proof.
  induction m as [|[k' v'] m IH]; simpl; [by rewrite decide_True|].
  case_decide as E; simpl; [by rewrite decide_True | by rewrite decide_False].
Qed.

Lemma map_get_insert_ne m k k' v : k ≠ k' -> map_get (map_insert m k v) k' = map_get m k'.
Proof.
  intros Hne. induction m as [|[k'' v'] m IH]; simpl; [by rewrite decide_False|].
  repeat (case_decide; simpl); congruence.
Qed.

#[export] Hint Rewrite map_get_insert : kanna.

Example num_whole : num (f_of_Z 3) = JNumber (PosInt 3) /\ num (f_dec 5 (-1)) = JNumber (Float (f_dec 5 (-1))).
Proof. split; reflexivity. Qed.
Example trim_keeps_newlines : trim "  a b
 " = "a b
".
Proof. reflexivity. Qed.

Lemma num_of_N n : (n < 10 ^ 15)%N -> num (f_of_N n) = JNumber (PosInt n).
Proof.
  intros Hn. unfold num, f_of_N.
  assert (0 <= Z.of_N n < 10 ^ 15)%Z as Hz by lia.
  assert (10 ^ 15 < 2 ^ 53)%Z as Hb by done.
  rewrite f_round_of_Z, feq_of_Z_refl, fabs_of_Z by lia.
  change (f_dec 1 15) with (f_of_Z (10 ^ 15)). rewrite flt_of_Z by lia. simpl.
  rewrite as_i64_of_Z by lia. unfold from_i64.
  replace (0 <=? Z.of_N n)%Z with true by (symmetry; apply Z.leb_le; lia).
  by rewrite N2Z.id.
Qed.
