(* ===== verification/Fraction.v ===== *)
(** * Sizes as fractions: [crates/kanna-mux/src/fraction.rs]

    A size is a JSON number, ["2/3"], ["40%"], or decimal or hexadecimal float text;
    [fraction_format] prints one as the nearest simple fraction. *)

From S2P Require Import Prelude Text F64 Json.
From Stdlib Require Import Ascii ZArith.

(** ** [str::parse::<f64>] *)

Fixpoint span_digits (s : string) : string * string :=
  match s with
  | String a s' =>
    if is_digit a then let '(d, r) := span_digits s' in (String a d, r) else (EmptyString, s)
  | EmptyString => (EmptyString, EmptyString)
  end.

Fixpoint digits_value (acc : Z) (s : string) : Z :=
  match s with
  | EmptyString => acc
  | String a s => digits_value (acc * 10 + Z.of_N (digit_value a)) s
  end.

Definition ascii_lower (a : ascii) : ascii :=
  let n := N_of_ascii a in
  if ((65 <=? n) && (n <=? 90))%N then ascii_of_N (n + 32) else a.
Fixpoint string_lower (s : string) : string :=
  match s with EmptyString => EmptyString | String a s => String (ascii_lower a) (string_lower s) end.

(** The sign of a number and what follows it. *)
Definition split_sign (s : string) : bool * string :=
  match s with
  | String "-" r => (true, r)
  | String "+" r => (false, r)
  | _ => (false, s)
  end.

(** The double nearest to [m * 10^e] for any [e]: far beyond the range the answer is
    known without computing the power. *)
Definition decimal_f64 (m e : Z) (digits : Z) : f64 :=
  if (m =? 0)%Z then f0
  else if (310 <? e + digits)%Z then f_inf
  else if (e + digits <? -330)%Z then f0
  else f_dec m e.

Definition parse_exponent (s : string) : option Z :=
  match s with
  | EmptyString => Some 0%Z
  | String a r =>
    if bool_decide (a ∈ ["e"; "E"]%char) then
      let '(neg, ds) := split_sign r in
      let '(d, rest) := span_digits ds in
      if negb (str_is_empty d) && str_is_empty rest
      then let z := digits_value 0 d in Some (if neg then - z else z)%Z
      else None
    else None
  end.

Definition parse_decimal (s : string) : option f64 :=
  let '(whole, r1) := span_digits s in
  let '(frac, r2) := match r1 with
                     | String "." r => span_digits r
                     | _ => (EmptyString, r1)
                     end in
  if str_is_empty whole && str_is_empty frac then None
  else
    e ← parse_exponent r2;
    Some (decimal_f64 (digits_value (digits_value 0 whole) frac)
                      (e - Z.of_nat (String.length frac))
                      (Z.of_nat (String.length whole + String.length frac))).

Definition parse_f64 (s : string) : option f64 :=
  let '(neg, body) := split_sign s in
  let signed := fun x => if neg : bool then fneg x else x in
  let lower := string_lower body in
  if bool_decide (lower ∈ ["inf"; "infinity"]) then Some (signed f_inf)
  else if bool_decide (lower = "nan") then Some f_nan
  else signed <$> parse_decimal body.

(** ** fraction.rs *)

(** [char::to_digit(16)] *)
Definition hex_digit (a : ascii) : option N :=
  let n := N_of_ascii a in
  (if (48 <=? n) && (n <=? 57) then Some (n - 48)
   else if (97 <=? n) && (n <=? 102) then Some (n - 87)
   else if (65 <=? n) && (n <=? 70) then Some (n - 55)
   else None)%N.

(** The mantissa loop: [i] counts the digits read, [mantissa] is a [u128] that stops
    growing once its top byte is in use. *)
Fixpoint hex_mantissa (whole_len i : nat) (mantissa : N) (shift : Z) (digits : list ascii) : option (N * Z) :=
  match digits with
  | [] => Some (mantissa, shift)
  | c :: digits =>
    digit ← hex_digit c;
    if (N.shiftr mantissa 120 =? 0)%N
    then hex_mantissa whole_len (S i) (N.lor (N.shiftl mantissa 4) digit)
           (if bool_decide (whole_len <= i)%nat then shift - 4 else shift)%Z digits
    else hex_mantissa whole_len (S i) mantissa
           (if bool_decide (i < whole_len)%nat then shift + 4 else shift)%Z digits
  end.

Definition i64_sat (z : Z) : Z := Z.max (- 2 ^ 63) (Z.min (2 ^ 63 - 1) z).

Fixpoint hex_magnitude (n : Z) (s : string) : Z :=
  match s with
  | EmptyString => n
  | String b s => hex_magnitude (i64_sat (i64_sat (n * 10) + Z.of_N (digit_value b))) s
  end.

(** [while power > 1000 { value *= 2^1000; power -= 1000 }], and the loop the other way;
    the fuel is the number of turns ([hex_up_enough], [hex_down_enough]). *)
Fixpoint hex_up (fuel : nat) (value : f64) (power : Z) : f64 * Z :=
  match fuel with
  | 0 => (value, power)
  | S fuel => if (1000 <? power)%Z then hex_up fuel (fmul value (f_pow2 1000)) (power - 1000)
              else (value, power)
  end.
Fixpoint hex_down (fuel : nat) (value : f64) (power : Z) : f64 * Z :=
  match fuel with
  | 0 => (value, power)
  | S fuel => if (power <? -1000)%Z then hex_down fuel (fmul value (f_pow2 (-1000))) (power + 1000)
              else (value, power)
  end.
Definition hex_turns (power : Z) : nat := Z.to_nat (Z.abs power / 1000).

Definition hex_scale (value : f64) (power : Z) : f64 :=
  if feq value f0 then value
  else
    let '(value, power) := hex_up (hex_turns power) value power in
    let '(value, power) := hex_down (hex_turns power) value power in
    fmul value (f_pow2 power).

Definition hex_exponent (exponent : option string) : option Z :=
  match exponent with
  | None => Some 0%Z
  | Some exponent =>
    let unsigned := match exponent with
                    | String "+" r | String "-" r => r
                    | _ => exponent
                    end in
    if str_is_empty unsigned || negb (forallb is_digit (string_bytes unsigned)) then None
    else let magnitude := hex_magnitude 0 unsigned in
         Some (if starts_with "-" exponent then - magnitude else magnitude)%Z
  end.

Definition hex (text : string) : option f64 :=
  if str_is_empty text then None
  else
    let '(negative, rest) := split_sign text in
    rest ← match strip_prefix "0x" rest with Some r => Some r | None => strip_prefix "0X" rest end;
    let '(digits, exponent) :=
      match split_bytes (fun a => bool_decide (a ∈ ["p"; "P"]%char)) rest with
      | first :: _ :: _ => (first, strip_prefix first rest ≫= fun r => Some (String.substring 1 (String.length r) r))
      | _ => (rest, None)
      end in
    let '(whole, fraction) := default (digits, "") (split_once "." digits) in
    if str_is_empty whole && str_is_empty fraction then None
    else
      '(mantissa, shift) ← hex_mantissa (String.length whole) 0 0 0
                             (string_bytes whole ++ string_bytes fraction);
      power ← hex_exponent exponent;
      let value := hex_scale (f_of_N mantissa) (i64_sat (power + shift)) in
      Some (if negative : bool then fneg value else value).

Definition number (text : string) : option f64 :=
  match hex text with Some x => Some x | None => parse_f64 text end.

Definition fraction_parse (value : Value) : option f64 :=
  match as_f64 value with
  | Some number => Some number
  | None =>
    s ← as_str value;
    let text := trim s in
    match strip_suffix "%" text with
    | Some percent => n ← number percent; Some (fdiv n (f_of_Z 100))
    | None =>
      match split_on "/" text with
      | [a; b] =>
        match number a, number b with
        | Some n, Some d => if feq d f0 then None else Some (fdiv n d)
        | _, _ => None
        end
      | [_] => number text
      | _ => None
      end
    end
  end.

Definition f_0_004 : f64 := f_dec 4 (-3).

Definition fraction_format (value : f64) : string :=
  if flt (fabs (fsub value f1)) (f_dec 1 (-6)) then "1"
  else
    match find_map (fun d =>
      let n := f_round (fmul value (f_of_Z d)) in
      if flt f0 n && flt (fabs (fsub value (fdiv n (f_of_Z d)))) f_0_004
      then Some (pretty (as_i64 n) +:+ "/" +:+ pretty d)
      else None) [2; 3; 4; 5; 6; 7; 8]%Z
    with
    | Some text => text
    | None => pretty (as_i64 (f_round (fmul value (f_of_Z 100)))) +:+ "%"
    end.

(** ** Facts *)

(** The source's own test cases. *)
Definition parse_text (s : string) : option f64 := fraction_parse (JString s).

Example hex_floats :
  map parse_text ["0x1p-1"; "0x.8"; "0x1."; "-0x1p+3"; "0x1P-1"; "0x1.8p1"; "+0X10"; "0x1p-1080"]
  = [Some (f_dec 5 (-1)); Some (f_dec 5 (-1)); Some f1; Some (f_of_Z (-8)); Some (f_dec 5 (-1));
     Some (f_of_Z 3); Some (f_of_Z 16); Some f0].
Proof. vm_compute. reflexivity. Qed.
Example hex_floats_far :
  map parse_text ["0x1p99999"; "0xffffffffffffffffffffp0"; "0x1p-2/0x1p-1"; "0x8p-4%"]
  = [Some f_inf; Some (f_dec 12089258196146292 8); Some (f_dec 5 (-1)); Some (f_dec 5 (-3))].
Proof. vm_compute. reflexivity. Qed.
Example hex_refused :
  map parse_text ["0x"; "0x1p"; "0xg"; "0x."; "0x1p1.5"; "0x1_0"; "0x1p+"; "0x1 p1"]
  = replicate 8 None.
Proof. vm_compute. reflexivity. Qed.

(** The loops of [hex] end within [hex_turns]: the exponent left is in range for [powi]. *)
Lemma hex_up_enough fuel value power :
  (power <= 1000 * Z.of_nat (S fuel))%Z ->
  (snd (hex_up fuel value power) <= 1000)%Z /\
  (0 <= power -> 0 <= snd (hex_up fuel value power))%Z /\
  (power < 0 -> snd (hex_up fuel value power) = power)%Z.
Proof.
  revert value power. induction fuel as [|fuel IH]; intros value power Hp; simpl; [lia|].
  destruct (Z.ltb_spec 1000 power); simpl; [|lia].
  destruct (IH (fmul value (f_pow2 1000)) (power - 1000)%Z) as (H1 & H2 & H3); [lia|]. lia.
Qed.

Lemma hex_down_enough fuel value power :
  (- 1000 * Z.of_nat (S fuel) <= power <= 1000)%Z ->
  (- 1000 <= snd (hex_down fuel value power) <= 1000)%Z.
Proof.
  revert value power. induction fuel as [|fuel IH]; intros value power Hp; simpl; [lia|].
  destruct (Z.ltb_spec power (-1000)); simpl; [|lia]. apply IH. lia.
Qed.

Lemma hex_turns_enough power :
  (power <= 1000 * Z.of_nat (S (hex_turns power)) /\ - 1000 * Z.of_nat (S (hex_turns power)) <= power)%Z.
Proof.
  unfold hex_turns. rewrite Nat2Z.inj_succ, Z2Nat.id by (apply Z.div_pos; lia).
  pose proof (Z.mul_succ_div_gt (Z.abs power) 1000 ltac:(lia)). lia.
Qed.

Definition z_range (lo : Z) (n : nat) : list Z := (fun i => lo + Z.of_nat i)%Z <$> seq 0 n.

Lemma elem_of_z_range lo n z : (lo <= z < lo + Z.of_nat n)%Z -> z ∈ z_range lo n.
Proof.
  intros Hz. apply list_elem_of_fmap. exists (Z.to_nat (z - lo)). split; [lia|].
  apply elem_of_seq. lia.
Qed.

Definition simple_fractions_ok : bool :=
  forallb (fun d => forallb (fun n =>
    let x := fdiv (f_of_Z n) (f_of_Z d) in
    implb (n <? d)%Z (bool_decide (parse_text (fraction_format x) = Some x)))
    (z_range 1 7)) (z_range 2 7).

Lemma simple_fractions_checked : simple_fractions_ok = true.
Proof. vm_compute. reflexivity. Qed.

(** A proper fraction with a denominator up to 8, written as a fraction, reads back as the
    same [f64], bit for bit. *)
Theorem fraction_roundtrip (n d : Z) :
  (2 <= d <= 8)%Z -> (1 <= n < d)%Z ->
  parse_text (fraction_format (fdiv (f_of_Z n) (f_of_Z d))) = Some (fdiv (f_of_Z n) (f_of_Z d)).
Proof.
  intros Hd Hn. pose proof simple_fractions_checked as H.
  unfold simple_fractions_ok in H. rewrite forallb_forall in H.
  specialize (H d). rewrite <- list_elem_of_In in H.
  specialize (H (elem_of_z_range 2 7 d ltac:(lia))).
  rewrite forallb_forall in H. specialize (H n). rewrite <- list_elem_of_In in H.
  specialize (H (elem_of_z_range 1 7 n ltac:(lia))). cbv zeta in H.
  assert ((n <? d)%Z = true) as E by (apply Z.ltb_lt; lia). rewrite E in H.
  by apply bool_decide_eq_true in H.
Qed.

Lemma fraction_roundtrip_witness :
  fraction_format (fdiv (f_of_Z 2) (f_of_Z 3)) = "2/3" /\
  parse_text (fraction_format (fdiv (f_of_Z 2) (f_of_Z 3))) = Some (fdiv (f_of_Z 2) (f_of_Z 3)).
Proof. split; [vm_compute; reflexivity|]. apply (fraction_roundtrip 2 3); lia. Defined.
