(* ===== verification/Describe.v ===== *)
(** * JSON values in error messages: [describe] of [crates/kanna-mux/src/model.rs]

    An error quotes a value the way Swift's debug description prints it.  Rust's own float
    formatting, which [swift_double] starts from, is the shortest decimal that reads back as
    the same binary64 number. *)

From S2P Require Import Prelude Text F64 Json Fraction.
From Stdlib Require Import SpecFloat.

(** ** Rust's shortest decimals *)

(** [floor (num / den / 10^q)] *)
Definition scaled_floor (num den q : Z) : Z :=
  (if 0 <=? q then num / (den * 10 ^ q) else (num * 10 ^ (- q)) / den)%Z.

(** The decimal exponent of [num / den], searched upward from a lower bound. *)
Fixpoint dec_exponent (fuel : nat) (num den k : Z) : Z :=
  match fuel with
  | 0 => k
  | S fuel => if (0 <? scaled_floor num den (k + 1))%Z then dec_exponent fuel num den (k + 1) else k
  end.

(** The shortest digits [d] and exponent [q] with [d * 10^q] reading back as [x > 0]: of the
    two neighbours with [n] digits, the one that reads back, the nearer one first. *)
Fixpoint shortest_from (fuel : nat) (x : f64) (num den k n : Z) : Z * Z :=
  let q := (k - n + 1)%Z in
  let d := scaled_floor num den q in
  match fuel with
  | 0 => (d, q)
  | S fuel =>
    let half := (scaled_floor (2 * num) den q - 2 * d)%Z in
    let near := if (0 <? half)%Z then (d + 1)%Z else d in
    let far := if (0 <? half)%Z then d else (d + 1)%Z in
    if feq (f_dec near q) x then (near, q)
    else if feq (f_dec far q) x then (far, q)
    else shortest_from fuel x num den k (n + 1)%Z
  end.

Fixpoint strip_zeros (fuel : nat) (d q : Z) : Z * Z :=
  match fuel with
  | 0 => (d, q)
  | S fuel => if ((0 <? d) && (d mod 10 =? 0))%Z then strip_zeros fuel (d / 10) (q + 1) else (d, q)
  end.

Definition shortest (m : positive) (e : Z) : Z * Z :=
  let num := if (0 <=? e)%Z then (Z.pos m * 2 ^ e)%Z else Z.pos m in
  let den := if (0 <=? e)%Z then 1%Z else (2 ^ (- e))%Z in
  let low := ((Z.log2 (Z.pos m) + e) * 30103 / 100000 - 2)%Z in
  let k := dec_exponent 5 num den low in
  let '(d, q) := shortest_from 17 (S754_finite false m e) num den k 1 in
  strip_zeros 17 d q.

Definition z_text (z : Z) : string := pretty (Z.to_N z).

Fixpoint zeros (n : nat) : string := match n with 0 => "" | S n => "0" +:+ zeros n end.

(** [{:?}] of a positive number printed without an exponent. *)
Definition plain_digits (d q : Z) : string :=
  let text := z_text d in
  let len := String.length text in
  if (0 <=? q)%Z then text +:+ zeros (Z.to_nat q) +:+ ".0"
  else
    let point := (Z.of_nat len + q)%Z in
    if (0 <? point)%Z then
      String.substring 0 (Z.to_nat point) text +:+ "." +:+
      String.substring (Z.to_nat point) (len - Z.to_nat point) text
    else "0." +:+ zeros (Z.to_nat (- point)) +:+ text.

(** The mantissa of [{:e}] and its exponent. *)
Definition lower_exp (d q : Z) : string * Z :=
  let text := z_text d in
  let len := String.length text in
  let mantissa := if decide (len = 1) then text
                  else String.substring 0 1 text +:+ "." +:+ String.substring 1 (len - 1) text in
  (mantissa, (q + Z.of_nat len - 1)%Z).

(** ** swift_double, swift_quoted, describe *)

Definition two_53 : f64 := f_of_Z 9007199254740992.
Definition f_1e_4 : f64 := f_dec 1 (-4).

Definition swift_double (value : f64) : string :=
  match value with
  | S754_nan => "NaN"
  | S754_infinity s => if s then "-inf" else "inf"
  | S754_zero s => if s then "-0.0" else "0.0"
  | S754_finite s m e =>
    let sign := if s then "-" else "" in
    let size := fabs value in
    let '(d, q) := shortest m e in
    if fle f_1e_4 size && fle size two_53 then sign +:+ plain_digits d q
    else
      let '(mantissa, exponent) := lower_exp d q in
      let digits := z_text (Z.abs exponent) in
      let padded := if decide (String.length digits < 2) then "0" +:+ digits else digits in
      sign +:+ mantissa +:+ "e" +:+ (if (exponent <? 0)%Z then "-" else "+") +:+ padded
  end.

Definition upper_hex_digit (n : N) : string :=
  default "" (["0"; "1"; "2"; "3"; "4"; "5"; "6"; "7"; "8"; "9"; "A"; "B"; "C"; "D"; "E"; "F"] !! N.to_nat n).

(** [{:X}] of an ASCII control character. *)
Definition upper_hex (c : N) : string :=
  if (c <? 16)%N then upper_hex_digit c else upper_hex_digit (c / 16) +:+ upper_hex_digit (c mod 16).

Definition swift_char (c : N) : string :=
  if decide (c = 34)%N then "\" +:+ dq
  else if decide (c = 39)%N then "\'"
  else if decide (c = 92)%N then "\\"
  else if decide (c = 10)%N then "\n"
  else if decide (c = 13)%N then "\r"
  else if decide (c = 9)%N then "\t"
  else if decide (c = 0)%N then "\0"
  else if (c <? 32)%N || (c =? 127)%N then "\u{" +:+ upper_hex c +:+ "}"
  else encode_char c.

Definition swift_quoted (text : string) : string :=
  in_quotes (foldr (fun c out => swift_char c +:+ out) "" (chars text)).

Fixpoint describe (value : Value) : string :=
  match value with
  | JNull => "null"
  | JBool b => "bool(" +:+ (if b then "true" else "false") +:+ ")"
  | JNumber n => "number(" +:+ swift_double (number_as_f64 n) +:+ ")"
  | JString s => "string(" +:+ swift_quoted s +:+ ")"
  | JArray items => "array([" +:+ join ", " (map (fun item => "KmuxCore.JSON." +:+ describe item) items) +:+ "])"
  | JObject [] => "object([:])"
  | JObject fields =>
    "object([" +:+ join ", " (map (fun '(key, item) => swift_quoted key +:+ ": KmuxCore.JSON." +:+ describe item) fields) +:+ "])"
  end.

(** [fraction] of model.rs *)
Definition fraction (value : Value) : res f64 :=
  ok_or (fraction_parse value) (mkError "bad_request" (in_quotes (describe value) +:+ " is not a fraction")).

(** The cases of [values_are_described_as_swift_prints_them]. *)
Example describe_100 : describe (JNumber (PosInt 100)) = "number(100.0)".
Proof. vm_compute. done. Qed.
Example describe_1e20 : describe (JNumber (Float (f_dec (-1) 20))) = "number(-1e+20)".
Proof. vm_compute. done. Qed.
Example describe_small : describe (JNumber (Float (f_dec (-1) (-5)))) = "number(-1e-05)".
Proof. vm_compute. done. Qed.
Example describe_95e14 : describe (JNumber (Float (f_dec 95 14))) = "number(9.5e+15)".
Proof. vm_compute. done. Qed.
Example describe_two53 : describe (JNumber (Float two_53)) = "number(9007199254740992.0)".
Proof. vm_compute. done. Qed.
Example describe_125e9 : describe (JNumber (Float (f_dec 125 (-9)))) = "number(1.25e-07)".
Proof. vm_compute. done. Qed.
Example describe_1e_4 : describe (JNumber (Float (f_dec 1 (-4)))) = "number(0.0001)".
Proof. vm_compute. done. Qed.
Example describe_third : describe (JNumber (Float (fdiv f1 (f_of_Z 3)))) = "number(0.3333333333333333)".
Proof. vm_compute. done. Qed.
Example describe_nested :
  describe (JArray [JArray [JNull]; JObject [("k", JString "v")]; JNumber (PosInt 1); JBool false]) =
  "array([KmuxCore.JSON.array([KmuxCore.JSON.null]), KmuxCore.JSON.object([" +:+ in_quotes "k" +:+
  ": KmuxCore.JSON.string(" +:+ in_quotes "v" +:+ ")]), KmuxCore.JSON.number(1.0), KmuxCore.JSON.bool(false)])".
Proof. vm_compute. done. Qed.
