(* ===== verification/Pane.v ===== *)
(** * Panes: [crates/kanna-mux/src/pane.rs]

    [Pane] is what the daemon knows of one pane, [Panes] the table of all of them with the
    counters that number new ones. *)

From S2P Require Import Prelude Text F64 Json.
From Stdlib Require Import Ascii.

(** ** Kinds and states *)

Inductive PaneType := Term | Web | Ios | Md | Code | Diff | Log | Serial.

#[export] Instance PaneType_eq_dec : EqDecision PaneType.
Proof. solve_decision. Defined.

Definition pane_types : list PaneType := [Term; Web; Ios; Md; Code; Diff; Log; Serial].

Definition type_as_str (t : PaneType) : string :=
  match t with
  | Term => "term" | Web => "web" | Ios => "ios" | Md => "md"
  | Code => "code" | Diff => "diff" | Log => "log" | Serial => "serial"
  end.

Definition type_parse (name : string) : option PaneType :=
  List.find (fun t => bool_decide (type_as_str t = name)) pane_types.

Inductive PaneState := Starting | Running | Exited | Failed.

#[export] Instance PaneState_eq_dec : EqDecision PaneState.
Proof. solve_decision. Defined.

Definition state_as_str (s : PaneState) : string :=
  match s with
  | Starting => "starting" | Running => "running" | Exited => "exited" | Failed => "failed"
  end.

Definition state_parse (name : string) : option PaneState :=
  List.find (fun s => bool_decide (state_as_str s = name)) [Starting; Running; Exited; Failed].

(** ** Comments, tours and their marks *)

Record History := mkHistory { back : list string; forward : list string }.

Record Comment := mkComment {
  com_path : string; com_first : N; com_last : N; com_text : string }.

Definition comment_to_json (c : Comment) : Value :=
  obj [("path", JString (com_path c)); ("first", num (f_of_N (com_first c)));
       ("last", num (f_of_N (com_last c))); ("text", JString (com_text c))].

Definition comment_from_json (value : Value) : option Comment :=
  let line key := v ← get value key; l ← as_u64 v; if (0 <? l)%N then Some l else None in
  first ← line "first";
  last ← line "last";
  path ← string_of value "path";
  text ← string_of value "text";
  Some (mkComment path first (N.max last first) text).

Record Stop := mkStop {
  stop_path : string; stop_first : N; stop_last : N; stop_text : string;
  stop_doc : bool; stop_thread : option string }.

Definition opt_field (key : string) (v : option Value) : Map :=
  match v with Some v => [(key, v)] | None => [] end.

Definition stop_to_json (s : Stop) : Value :=
  obj ([("path", JString (stop_path s)); ("first", num (f_of_N (stop_first s)));
        ("last", num (f_of_N (stop_last s))); ("text", JString (stop_text s))]
       ++ (if stop_doc s then [("doc", JBool true)] else [])
       ++ opt_field "thread" (JString <$> stop_thread s)).

Definition stop_from_json (value : Value) : option Stop :=
  comment ← comment_from_json value;
  Some (mkStop (com_path comment) (com_first comment) (com_last comment) (com_text comment)
          (default false (get value "doc" ≫= as_bool)) (string_of value "thread")).

Definition stop_comment (s : Stop) : Comment :=
  mkComment (stop_path s) (stop_first s) (stop_last s) (stop_text s).

Record Tour := mkTour { tour_stops : list Stop; tour_at : N }.

Definition tour_to_json (t : Tour) : Value :=
  obj [("stops", JArray (map stop_to_json (tour_stops t)));
       ("at", num (fadd (f_of_N (tour_at t)) f1))].

Definition tour_from_json (value : Value) : option Tour :=
  items ← get value "stops" ≫= as_array;
  let stops := omap stop_from_json items in
  let at_ := (N.max (default 1 (get value "at" ≫= as_u64)) 1 - 1)%N in
  match stops with
  | [] => None
  | _ => Some (mkTour stops (N.min at_ (N.of_nat (length stops) - 1)))
  end.

Record StopMark := mkStopMark {
  mark_owner : string; mark_at : N; mark_of : N; mark_thread : option string }.

Definition mark_to_json (m : StopMark) : Value :=
  obj ([("owner", JString (mark_owner m)); ("at", num (fadd (f_of_N (mark_at m)) f1));
        ("of", num (f_of_N (mark_of m)))]
       ++ opt_field "thread" (JString <$> mark_thread m)).

Definition mark_from_json (value : Value) : option StopMark :=
  a ← get value "at" ≫= as_u64;
  if (0 <? a)%N then
    let at_ := (a - 1)%N in
    of_ ← get value "of" ≫= as_u64;
    owner ← string_of value "owner";
    Some (mkStopMark owner at_ (N.max of_ (at_ + 1)) (string_of value "thread"))
  else None.

(** ** A pane *)

Record Pane := mkPane {
  pane_id : string;
  pane_name : option string;
  pane_kind : PaneType;
  pane_state : PaneState;
  pane_exit_code : option Z;
  pane_error : option string;
  pane_command : option string;
  pane_cwd : option string;
  pane_opened_in : option string;
  pane_url : option string;
  pane_title : option string;
  pane_app : option string;
  pane_device : option string;
  pane_path : option string;
  pane_line : option N;
  pane_comment : option Comment;
  pane_tour : option Tour;
  pane_stop : option StopMark;
  pane_git_args : option (list string);
  pane_view : option string;
  pane_agent : option string;
  pane_markup : bool;
  pane_diff_base : option string;
  pane_baud : option N;
  pane_line_ending : option string;
  pane_history : option History;
  pane_session : option string;
  pane_pid : option Z;
  pane_status : option string;
  pane_hung_up : bool;
  pane_terminal : option string }.

Definition pane_new (id : string) (name : option string) (kind : PaneType) : Pane :=
  mkPane id name kind Starting None None None None None None None None None None None None
    None None None None None false None None None None None None None false None.

(** The one field [Panes] itself changes. *)
Definition set_pane_terminal (p : Pane) (t : option string) : Pane :=
  mkPane (pane_id p) (pane_name p) (pane_kind p) (pane_state p) (pane_exit_code p)
    (pane_error p) (pane_command p) (pane_cwd p) (pane_opened_in p) (pane_url p)
    (pane_title p) (pane_app p) (pane_device p) (pane_path p) (pane_line p) (pane_comment p)
    (pane_tour p) (pane_stop p) (pane_git_args p) (pane_view p) (pane_agent p)
    (pane_markup p) (pane_diff_base p) (pane_baud p) (pane_line_ending p) (pane_history p)
    (pane_session p) (pane_pid p) (pane_status p) (pane_hung_up p) t.

Definition status (p : Pane) : option string :=
  match pane_kind p, pane_state p with
  | Term, Exited => Some "exited"
  | Term, _ => pane_status p
  | _, _ => None
  end.

(** [shlex::split] is a third-party function; [program] takes it as an argument. *)
Definition program (shlex_split : string -> option (list string)) (p : Pane) : option string :=
  command ← pane_command p;
  words ← shlex_split command;
  first ← (if bool_decide (words !! 1 = Some "--codex-remote") then words !! 3 else words !! 0);
  let name := last_part "/" first in
  if str_is_empty name then None else Some name.

Definition label (p : Pane) : string :=
  match pane_name p with
  | Some name => name +:+ " (" +:+ pane_id p +:+ ")"
  | None => pane_id p
  end.

Definition non_empty (s : string) : option string := if str_is_empty s then None else Some s.

(** [str::trim_end_matches('/')] *)
Fixpoint drop_slashes (s : string) : string :=
  match s with String "/" s => drop_slashes s | _ => s end.
Definition trim_end_slashes (s : string) : string := String.rev (drop_slashes (String.rev s)).

Definition file_name (path : string) : option string :=
  non_empty (last_part "/" (trim_end_slashes path)).

(** [split(pattern).next()], the part before the first match. *)
Definition first_part (p : ascii -> bool) (s : string) : string := default "" (head (split_bytes p s)).
Definition one_of (cs : list ascii) (a : ascii) : bool := bool_decide (a ∈ cs).

Definition host (url : string) : option string :=
  match split_once "://" url with
  | None => file_name url
  | Some (_, rest) =>
    let authority := first_part (one_of ["/"; "?"; "#"]%char) rest in
    let authority := last_part "@" authority in
    let host := match strip_prefix "[" authority with
                | Some v6 => first_part (one_of ["]"]%char) v6
                | None => first_part (one_of [":"]%char) authority
                end in
    if str_is_empty host then file_name (first_part (one_of ["?"; "#"]%char) rest)
    else Some host
  end.

(** [str::trim_start_matches("cu.")] *)
Fixpoint drop_cu (fuel : nat) (s : string) : string :=
  match fuel, strip_prefix "cu." s with S fuel, Some r => drop_cu fuel r | _, _ => s end.

Definition non_blank (s : string) : option string :=
  if str_is_empty (str_trim s) then None else Some s.

Definition or_else {A} (o : option A) (d : option A) : option A :=
  match o with Some x => Some x | None => d end.

Definition tab_name (p : Pane) : option string :=
  let name :=
    match pane_name p, pane_kind p with
    | Some name, _ => Some name
    | None, (Md | Code) => pane_path p ≫= file_name
    | None, Web => or_else (pane_title p ≫= non_blank) (pane_url p ≫= host)
    | None, (Diff | Log) => Some (join " " (type_as_str (pane_kind p) :: default [] (pane_git_args p)))
    | None, Serial =>
      or_else (pane_title p ≫= non_blank)
        ((fun n => drop_cu (String.length n) n) <$> (pane_path p ≫= file_name))
    | None, (Term | Ios) => None
    end in
  n ← name;
  non_empty (str_trim (of_chars (List.filter (fun c => negb (is_control c)) (chars n)))).

Definition diff_args (args : option (list string)) : Value :=
  JArray (map JString (default [] args)).

Definition read_diff_args (value : option Value) : res (option (list string)) :=
  let bad := mkError "bad_request" "args must be a list of strings" in
  match value with
  | None | Some JNull => Ok None
  | Some (JArray items) =>
    let? l := res_mapM (fun item => ok_or (as_str item) bad) items in Ok (Some l)
  | Some _ => Err bad
  end.

Definition read_view (value : option Value) : res (option string) :=
  let bad := mkError "bad_request" "view must be unified or split" in
  match value with
  | None | Some JNull => Ok None
  | Some (JString view) =>
    if bool_decide (view ∈ ["unified"; "split"]) then Ok (Some view) else Err bad
  | Some _ => Err bad
  end.

Definition line_endings : list string := ["lf"; "crlf"; "cr"].

Definition serial_fields (p : Pane) : Map :=
  [("path", opt (pane_path p)); ("device", opt (pane_device p)); ("title", opt (pane_title p));
   ("baud", num (f_of_N (default 115200%N (pane_baud p))));
   ("lineEnding", JString (default "lf" (pane_line_ending p)))].

Definition read_baud (value : option Value) : res (option N) :=
  let bad := mkError "bad_request"
               "baud must be a whole number of bits a second, from 50 to 20000000" in
  match value with
  | None | Some JNull => Ok None
  | Some value =>
    match as_f64 value with
    | Some n =>
      if fle (f_of_Z 50) n && fle n (f_of_Z 20000000) && feq (f_fract n) f0
      then Ok (Some (as_u32 n)) else Err bad
    | None => Err bad
    end
  end.

Definition read_line_ending (value : option Value) : res (option string) :=
  let bad := mkError "bad_request" "lineEnding must be lf, crlf or cr" in
  match value with
  | None | Some JNull => Ok None
  | Some (JString ending) => if contains line_endings ending then Ok (Some ending) else Err bad
  | Some _ => Err bad
  end.

Definition flag (key : string) (b : bool) : Map := if b then [(key, JBool true)] else [].

Definition pane_summary (p : Pane) : Value :=
  let tour_stop := opt_field "tour" (mark_to_json <$> pane_stop p) in
  let fields :=
    [("id", JString (pane_id p)); ("name", opt (pane_name p));
     ("type", JString (type_as_str (pane_kind p))); ("state", JString (state_as_str (pane_state p)))]
    ++ match pane_kind p with
       | Term =>
         [("terminal", opt (pane_terminal p)); ("cmd", opt (pane_command p)); ("cwd", opt (pane_cwd p))]
         ++ opt_field "pid" ((fun pid => num (f_of_Z pid)) <$> pane_pid p)
       | Web =>
         [("url", opt (pane_url p)); ("history", JBool (bool_decide (is_Some (pane_history p))))]
         ++ flag "markup" (pane_markup p) ++ opt_field "agent" (JString <$> pane_agent p)
       | Ios => [("app", opt (pane_app p)); ("device", opt (pane_device p))]
       | Md =>
         [("path", opt (pane_path p)); ("agent", opt (pane_agent p))]
         ++ flag "markup" (pane_markup p) ++ opt_field "diff" (JString <$> pane_diff_base p)
       | Code =>
         [("path", opt (pane_path p))]
         ++ opt_field "line" ((fun l => num (f_of_N l)) <$> pane_line p)
         ++ opt_field "comment" (comment_to_json <$> pane_comment p)
       | Diff =>
         [("path", opt (pane_path p)); ("args", diff_args (pane_git_args p));
          ("view", JString (default "unified" (pane_view p)))]
       | Log => [("path", opt (pane_path p)); ("args", diff_args (pane_git_args p))]
       | Serial => serial_fields p
       end ++ tour_stop in
  let fields :=
    match pane_tour p with
    | Some tour =>
      map_insert fields "tour"
        (obj [("at", num (fadd (f_of_N (tour_at tour)) f1));
              ("of", num (f_of_nat (length (tour_stops tour))))])
    | None => fields
    end in
  obj (fields ++ opt_field "exitCode" ((fun c => num (f_of_Z c)) <$> pane_exit_code p)
       ++ opt_field "status" (JString <$> status p)
       ++ opt_field "error" (JString <$> pane_error p)).
