(* ===== verification/Panes.v ===== *)
(** * The table of panes: [Panes] of [crates/kanna-mux/src/pane.rs] *)

From S2P Require Import Prelude Text F64 Json Pane.

Record Panes := mkPanes {
  panes_map : gmap string Pane;
  panes_order : list string;
  panes_counter : N;
  panes_terminals : N;
  panes_ptys : N;
  panes_content : bool;
  panes_numbers : gmap string N }.

Definition panes_default : Panes := mkPanes ∅ [] 0 0 0 false ∅.

Definition content_prefixes : list string :=
  ["term"; "file"; "page"; "ios"; "diff"; "log"; "serial"].

Definition content_prefix (kind : PaneType) : string :=
  match kind with
  | Term => "term"
  | Md | Code => "file"
  | Web => "page"
  | Ios => "ios"
  | Diff => "diff"
  | Log => "log"
  | Serial => "serial"
  end.

Definition content_number (id : string) : option (string * N) :=
  '(prefix, n) ← split_once "-" id;
  prefix ← List.find (fun p => bool_decide (p = prefix)) content_prefixes;
  n ← parse_usize n;
  if (0 <? n)%N && bool_decide (prefix +:+ "-" +:+ pretty n = id) then Some (prefix, n) else None.

(** [terminal_number] and [pty_number] differ only in the prefix. *)
Definition numbered (prefix id : string) : option N :=
  rest ← strip_prefix prefix id;
  n ← parse_usize rest;
  if (0 <? n)%N && (n <? 1000000000)%N && bool_decide (prefix +:+ pretty n = id)
  then Some n else None.
Definition terminal_number (id : string) : option N := numbered "term-" id.
Definition pty_number (id : string) : option N := numbered "pty-" id.

Definition panes_get (ps : Panes) (id : string) : option Pane := panes_map ps !! id.

Definition panes_iter (ps : Panes) : list Pane := omap (fun id => panes_map ps !! id) (panes_order ps).

Definition panes_pane (ps : Panes) (reference : string) : option Pane :=
  match panes_map ps !! reference with
  | Some p => Some p
  | None => List.find (fun p => bool_decide (pane_name p = Some reference)) (panes_iter ps)
  end.

Definition panes_need (ps : Panes) (reference : option string) : res Pane :=
  let? reference := ok_or reference (mkError "bad_request" "missing pane") in
  ok_or (panes_pane ps reference)
    (mkError "not_found" ("no pane " +:+ in_quotes reference)).

Definition panes_display (ps : Panes) (id : string) : string :=
  default id (p ← panes_map ps !! id; pane_name p).

Definition panes_is_empty (ps : Panes) : bool := bool_decide (panes_order ps = []).

Definition use_content_ids (ps : Panes) : Panes :=
  mkPanes (panes_map ps) (panes_order ps) (panes_counter ps) (panes_terminals ps)
    (panes_ptys ps) true (panes_numbers ps).

Definition number_of (ps : Panes) (prefix : string) : N := default 0%N (panes_numbers ps !! prefix).

Definition next_id (ps : Panes) (kind : PaneType) : string :=
  match panes_content ps, kind with
  | false, _ => "p" +:+ pretty (panes_counter ps + 1)%N
  | true, Term => "term-" +:+ pretty (panes_terminals ps + 1)%N
  | true, kind => content_prefix kind +:+ "-" +:+ pretty (number_of ps (content_prefix kind) + 1)%N
  end.

(** [make]: the new pane's ID, and the table with it.  [entry(id).or_insert(pane)] keeps
    a pane that already has the ID. *)
Definition make (ps : Panes) (kind : PaneType) (name : option string) : string * Panes :=
  let id := next_id ps kind in
  let pane := pane_new id name kind in
  let map' := match panes_map ps !! id with
              | Some _ => panes_map ps
              | None => <[id := pane]> (panes_map ps)
              end in
  let order := panes_order ps ++ [id] in
  (id,
   match panes_content ps, kind with
   | false, _ =>
     mkPanes map' order (panes_counter ps + 1) (panes_terminals ps) (panes_ptys ps)
       (panes_content ps) (panes_numbers ps)
   | true, Term =>
     mkPanes map' order (panes_counter ps) (panes_terminals ps + 1) (panes_ptys ps)
       (panes_content ps) (panes_numbers ps)
   | true, kind =>
     mkPanes map' order (panes_counter ps) (panes_terminals ps) (panes_ptys ps)
       (panes_content ps)
       (<[content_prefix kind := (number_of ps (content_prefix kind) + 1)%N]> (panes_numbers ps))
   end).

Definition forget (ps : Panes) (id : string) : option Pane * Panes :=
  (panes_map ps !! id,
   mkPanes (delete id (panes_map ps)) (retain (fun p => negb (bool_decide (p = id))) (panes_order ps))
     (panes_counter ps) (panes_terminals ps) (panes_ptys ps) (panes_content ps) (panes_numbers ps)).

Definition new_terminal (ps : Panes) (id : string) : option string * Panes :=
  match panes_map ps !! id with
  | Some pane =>
    if decide (pane_kind pane = Term) then
      let ptys := (panes_ptys ps + 1)%N in
      let terminal := "pty-" +:+ pretty ptys in
      (Some terminal,
       mkPanes (<[id := set_pane_terminal pane (Some terminal)]> (panes_map ps)) (panes_order ps)
         (panes_counter ps) (panes_terminals ps) ptys (panes_content ps) (panes_numbers ps))
    else (None, ps)
  | None => (None, ps)
  end.

(** [entry(prefix).or_insert(0)], raised to at least [n]. *)
Definition raise_number (numbers : gmap string N) (prefix : string) (n : N) : gmap string N :=
  <[prefix := N.max (default 0%N (numbers !! prefix)) n]> numbers.

Definition note_numbers (ps : Panes) (numbers : gmap string N) : Panes :=
  mkPanes (panes_map ps) (panes_order ps) (panes_counter ps) (panes_terminals ps)
    (panes_ptys ps) (panes_content ps)
    (map_fold (fun prefix n acc =>
       if contains ["file"; "page"; "ios"; "diff"; "log"; "serial"] prefix
       then raise_number acc prefix n else acc) (panes_numbers ps) numbers).

Definition max_of (l : list N) : N := foldr N.max 0%N l.

Definition note_content (acc : N * gmap string N) (found : string * N) : N * gmap string N :=
  let '(terminals, numbers) := acc in
  let '(prefix, n) := found in
  if decide (prefix = "term") then (N.max terminals n, numbers)
  else (terminals, raise_number numbers prefix n).

Definition panes_install (ps : Panes) (panes : list Pane) (counter terminals ptys : N) : Panes :=
  let '(terminals', numbers) :=
    foldl note_content (panes_terminals ps, panes_numbers ps)
      (omap (fun p => content_number (pane_id p)) panes) in
  let used := max_of (omap (fun p => t ← pane_terminal p; terminal_number t) panes) in
  let running := max_of (omap (fun p => t ← pane_terminal p; pty_number t) panes) in
  mkPanes (foldl (fun m p => <[pane_id p := p]> m) ∅ panes) (map pane_id panes)
    (N.max (panes_counter ps) counter)
    (N.max (N.max terminals' terminals) used)
    (N.max (N.max (panes_ptys ps) ptys) running)
    (panes_content ps) numbers.

(** ** The invariant

    The order lists each pane of the table once, a pane is filed under its own ID, and the
    counters are past every ID in use, so [next_id] is new. *)

Record panes_wf (ps : Panes) : Prop := {
  wf_order : NoDup (panes_order ps);
  wf_dom : forall id, id ∈ panes_order ps <-> is_Some (panes_map ps !! id);
  wf_key : forall id p, panes_map ps !! id = Some p -> pane_id p = id }.

Record panes_fresh (ps : Panes) : Prop := {
  fresh_counter : forall n, (panes_counter ps < n)%N -> panes_map ps !! ("p" +:+ pretty n) = None;
  fresh_terminals : forall n, (panes_terminals ps < n)%N ->
    panes_map ps !! ("term-" +:+ pretty n) = None;
  fresh_numbers : forall kind n, kind ≠ Term -> (number_of ps (content_prefix kind) < n)%N ->
    panes_map ps !! (content_prefix kind +:+ "-" +:+ pretty n) = None }.

(** Two IDs of the forms the table hands out are equal only for the same form and number. *)
Lemma p_id_ne prefix (n m : N) :
  prefix ∈ content_prefixes -> "p" +:+ pretty n ≠ prefix +:+ "-" +:+ pretty m.
Proof.
  intros Hp E. destruct (pretty_N_head n) as (a & s & Hs & Ha). rewrite Hs in E.
  unfold content_prefixes in Hp. set_unfold in Hp.
  destruct Hp as [->|[->|[->|[->|[->|[->|[->|[]]]]]]]]; try discriminate E.
  injection E as -> _. done.
Qed.

Lemma dash_id_inj p q (n m : N) :
  p ∈ content_prefixes -> q ∈ content_prefixes ->
  p +:+ "-" +:+ pretty n = q +:+ "-" +:+ pretty m -> p = q /\ n = m.
Proof.
  unfold content_prefixes. intros Hp Hq E. set_unfold in Hp. set_unfold in Hq.
  destruct Hp as [->|[->|[->|[->|[->|[->|[->|[]]]]]]]];
    destruct Hq as [->|[->|[->|[->|[->|[->|[->|[]]]]]]]]; try discriminate E;
    (split; [done|]; apply (inj pretty); by repeat (injection E as E)).
Qed.

Lemma content_prefix_in kind : content_prefix kind ∈ content_prefixes.
Proof. destruct kind; by apply (bool_decide_unpack _). Qed.

Lemma content_prefix_term kind : content_prefix kind = "term" -> kind = Term.
Proof. by destruct kind. Qed.

(** [next_id] names no pane of the table. *)
Lemma next_id_fresh ps kind : panes_fresh ps -> panes_map ps !! next_id ps kind = None.
Proof.
  intros [H1 H2 H3]. unfold next_id. destruct (panes_content ps); [|apply H1; lia].
  destruct kind; try (apply H2; lia); apply H3; try done; lia.
Qed.

(** Adding a new ID to the table and to the end of its order keeps the table consistent. *)
Lemma panes_wf_add ps ps' id p :
  panes_wf ps -> panes_map ps !! id = None -> pane_id p = id ->
  panes_map ps' = <[id := p]> (panes_map ps) -> panes_order ps' = panes_order ps ++ [id] ->
  panes_wf ps'.
Proof.
  intros [Ho Hd Hk] Hid Hp Hm Hord. split; rewrite ?Hm, ?Hord.
  - apply NoDup_app. split_and!; [done| |apply NoDup_singleton].
    intros x Hx ->%list_elem_of_singleton. apply Hd in Hx. rewrite Hid in Hx. by destruct Hx.
  - intros x. rewrite elem_of_app, list_elem_of_singleton, Hd, lookup_insert.
    case_decide as E; naive_solver.
  - intros x q. rewrite lookup_insert. case_decide as E; naive_solver.
Qed.

(** Every ID below a counter is taken or gone for good: raising counters and dropping
    panes keeps the table fresh. *)
Lemma make_fresh ps kind name : panes_fresh ps -> panes_fresh (snd (make ps kind name)).
Proof.
  intros Hf. pose proof (next_id_fresh ps kind Hf) as Hid. destruct Hf as [H1 H2 H3].
  unfold make. rewrite Hid. unfold next_id in *.
  destruct (panes_content ps); [|simpl; split; simpl].
  2: { intros n Hn. rewrite lookup_insert_ne; [apply H1; lia|].
       intros E%string_app_inj_l%(inj pretty). lia. }
  2: { intros n Hn. rewrite lookup_insert_ne; [by apply H2|].
       apply (p_id_ne "term"). by apply (bool_decide_unpack _). }
  2: { intros k n Hk Hn. rewrite lookup_insert_ne; [by apply H3|].
       apply p_id_ne, content_prefix_in. }
  destruct (decide (kind = Term)) as [->|Hkind].
  - split; simpl.
    + intros n Hn. rewrite lookup_insert_ne; [by apply H1|]. apply not_eq_sym.
      apply (p_id_ne "term"). by apply (bool_decide_unpack _).
    + intros n Hn. rewrite lookup_insert_ne; [apply H2; lia|].
      intros E%string_app_inj_l%(inj pretty). lia.
    + intros k n Hk Hn. rewrite lookup_insert_ne; [by apply H3|]. intros E.
      apply (dash_id_inj "term") in E as [E _]; [|by apply (bool_decide_unpack _)|apply content_prefix_in].
      by apply Hk, content_prefix_term.
  - set (id := content_prefix kind +:+ "-" +:+ pretty (number_of ps (content_prefix kind) + 1)%N).
    assert (panes_fresh (mkPanes (<[id := pane_new id name kind]> (panes_map ps)) (panes_order ps ++ [id])
      (panes_counter ps) (panes_terminals ps) (panes_ptys ps) true
      (<[content_prefix kind := (number_of ps (content_prefix kind) + 1)%N]> (panes_numbers ps)))).
    2: { by destruct kind. }
    assert (Hin := content_prefix_in kind).
    split; simpl.
    + intros n Hn. rewrite lookup_insert_ne; [by apply H1|]. apply not_eq_sym. by apply p_id_ne.
    + intros n Hn. rewrite lookup_insert_ne; [by apply H2|]. intros E.
      apply (dash_id_inj _ "term") in E as [E _]; [|done|by apply (bool_decide_unpack _)].
      by apply Hkind, content_prefix_term.
    + intros k n Hk Hn. rewrite lookup_insert_ne.
      { apply H3; [done|]. unfold number_of in *; simpl in *.
        rewrite lookup_insert in Hn. case_decide as E; simpl in Hn; [|done]. rewrite <- E; lia. }
      intros E. apply dash_id_inj in E as [E E2]; [|done|apply content_prefix_in].
      unfold number_of in *; simpl in *. rewrite E, lookup_insert_eq in Hn. simpl in Hn.
      rewrite E in E2. lia.
Qed.

(** [make] on a fresh table files the new pane, and nothing else. *)
Lemma make_files ps kind name :
  panes_fresh ps ->
  panes_map (snd (make ps kind name)) = <[next_id ps kind := pane_new (next_id ps kind) name kind]> (panes_map ps) /\
  panes_order (snd (make ps kind name)) = panes_order ps ++ [next_id ps kind].
Proof.
  intros Hf. pose proof (next_id_fresh ps kind Hf) as Hid. unfold make. rewrite Hid. by destruct (panes_content ps), kind.
Qed.

Lemma make_wf ps kind name : panes_wf ps -> panes_fresh ps -> panes_wf (snd (make ps kind name)).
Proof.
  intros Hwf Hf. destruct (make_files ps kind name Hf) as [Hm Ho].
  by apply (panes_wf_add ps _ (next_id ps kind) (pane_new (next_id ps kind) name kind)); [|apply next_id_fresh|..].
Qed.

Lemma forget_wf ps id : panes_wf ps -> panes_wf (snd (forget ps id)).
Proof.
  intros [Ho Hd Hk]. split; simpl.
  - by apply NoDup_retain.
  - intros x. rewrite elem_of_retain, Hd, lookup_delete.
    rewrite negb_true_iff, bool_decide_eq_false. case_decide; naive_solver.
  - intros x p. rewrite lookup_delete. case_decide; [done|]. apply Hk.
Qed.

Lemma forget_fresh ps id : panes_fresh ps -> panes_fresh (snd (forget ps id)).
Proof.
  intros [H1 H2 H3].
  split; simpl; intros; rewrite lookup_delete; case_decide; auto.
Qed.
