(* ===== verification/State.v ===== *)
(** * Saved panes: [crates/kanna-mux/src/state.rs]

    A pane as a JSON record and back, and the reading of a saved state's table of panes,
    with every way it is refused. *)

From S2P Require Import Prelude Text F64 Json Pane Panes.
From Stdlib Require Import Ascii.

Definition STATE_VERSION : N := 2.

Definition bad_state (message : string) : KmuxError := mkError "bad_request" ("bad state: " +:+ message).

(** [quoted] of state.rs: a value as JSON text in an error. *)
Definition quoted_json `{World} (value : option Value) : string := encode (default JNull value).

Definition number_in (id prefix : string) : option N := numbered prefix id.

(** [whole]: a whole number from 0 to a billion. *)
Definition whole (value : option Value) : option N :=
  v ← value;
  n ← as_f64 v;
  if feq (f_round n) n && fle f0 n && flt n (f_dec 1 9) then Some (as_usize n) else None.

(** ** One pane *)

Definition kind_fields (p : Pane) : Map :=
  match pane_kind p with
  | Term => [("terminal", opt (pane_terminal p)); ("cmd", opt (pane_command p));
             ("cwd", opt (pane_cwd p)); ("session", opt (pane_session p))]
  | Web => [("url", opt (pane_url p)); ("history", JBool (bool_decide (is_Some (pane_history p))))]
           ++ opt_field "title" (JString <$> pane_title p) ++ flag "markup" (pane_markup p)
           ++ opt_field "agent" (JString <$> pane_agent p)
  | Md => [("path", opt (pane_path p))] ++ flag "markup" (pane_markup p)
          ++ opt_field "diff" (JString <$> pane_diff_base p) ++ opt_field "agent" (JString <$> pane_agent p)
  | Code => [("path", opt (pane_path p))] ++ opt_field "line" ((fun l => num (f_of_N l)) <$> pane_line p)
            ++ opt_field "comment" (comment_to_json <$> pane_comment p)
  | Diff => [("path", opt (pane_path p)); ("args", diff_args (pane_git_args p));
             ("view", JString (default "unified" (pane_view p)))]
  | Log => [("path", opt (pane_path p)); ("args", diff_args (pane_git_args p))]
  | Ios => [("app", opt (pane_app p)); ("device", opt (pane_device p))]
  | Serial => serial_fields p
  end.

(** The tour of a pane, or the stop it is, under the one key. *)
Definition tour_field (p : Pane) : option Value :=
  or_else (mark_to_json <$> pane_stop p) (tour_to_json <$> pane_tour p).

Definition pane_record (p : Pane) : Map :=
  [("id", JString (pane_id p)); ("name", opt (pane_name p)); ("type", JString (type_as_str (pane_kind p)))]
  ++ kind_fields p ++ opt_field "tour" (tour_field p).

Definition export_panes (panes : Panes) : Value := JArray (map (fun p => JObject (pane_record p)) (panes_iter panes)).

Definition history_default : History := mkHistory [] [].

Definition read_record (item : Value) (id : string) (kind : PaneType) : Pane :=
  let field key := string_of item key in
  let when (k : PaneType) {A} (v : option A) : option A := if decide (kind = k) then v else None in
  let path := match kind with Md | Code | Diff | Log | Serial => field "path" | _ => None end in
  let device := match kind with Ios | Serial => field "device" | _ => None end in
  let title := match kind with Web | Serial => field "title" | _ => None end in
  let agent := match kind with Web | Md => field "agent" | _ => None end in
  let markup := match kind with Web | Md => is_true item "markup" | _ => false end in
  let history := match kind with
                 | Web => if is_true item "history" then Some history_default else None
                 | Md | Code => Some history_default
                 | _ => None
                 end in
  let args := match kind with Diff | Log => mjoin (res_ok (read_diff_args (get item "args"))) | _ => None end in
  let stop := match kind with Code | Md => v ← get item "tour"; mark_from_json v | _ => None end in
  mkPane id (string_of item "name") kind Starting None None
    (when Term (field "cmd")) (when Term (field "cwd")) None
    (when Web (field "url")) title (when Ios (field "app")) device path
    (when Code (v ← get item "line"; l ← as_u64 v; if (0 <? l)%N then Some l else None))
    (when Code (v ← get item "comment"; comment_from_json v))
    (when Term (v ← get item "tour"; tour_from_json v))
    stop args
    (when Diff (mjoin (res_ok (read_view (get item "view")))))
    agent markup
    (when Md (field "diff"))
    (when Serial (mjoin (res_ok (read_baud (get item "baud")))))
    (when Serial (mjoin (res_ok (read_line_ending (get item "lineEnding")))))
    history
    (when Term (field "session")) None None false
    (when Term (field "terminal")).

(** ** The table of panes *)

(** The field a saved pane of a kind must have. *)
Definition needed_field (kind : PaneType) : option string :=
  match kind with
  | Web => Some "url"
  | Md | Code | Diff | Log | Serial => Some "path"
  | Ios => Some "app"
  | Term => None
  end.

(** What the loop of [import_versions] carries. *)
Record Imported := mkImported {
  im_panes : list Pane;
  im_ids : list string;
  im_names : list string;
  im_counter : N }.

Section StateReading.
Context `{World}.

Definition bad_pane (item : Value) : KmuxError := bad_state ("pane " +:+ quoted_json (get item "id")).

Definition import_name (item : Value) (names : list string) : res (list string) :=
  match string_of item "name" with
  | Some name =>
    if str_is_empty name || contains names name
    then Err (bad_state ("pane name " +:+ quoted_json (Some (JString name)) +:+ " is used twice"))
    else Ok (names ++ [name])
  | None => Ok names
  end.

Definition import_pane (st : Imported) (item : Value) : res Imported :=
  let? id := ok_or (if is_object item then string_of item "id" else None) (bad_pane item) in
  let? kind := ok_or (t ← string_of item "type"; type_parse t)
    (bad_state ("pane " +:+ id +:+ " has unknown type " +:+ quoted_json (get item "type"))) in
  let? n := match number_in id "p" with
            | Some n => Ok n
            | None => match number_in id (content_prefix kind +:+ "-") with
                      | Some _ => Ok 0%N
                      | None => Err (bad_pane item)
                      end
            end in
  if contains (im_ids st) id then Err (bad_pane item)
  else
    let? names := import_name item (im_names st) in
    let missing := match needed_field kind with
                   | Some needed => match string_of item needed with
                                    | Some v => if str_is_empty v then Some needed else None
                                    | None => Some needed
                                    end
                   | None => None
                   end in
    match missing with
    | Some needed => Err (bad_state (type_as_str kind +:+ " pane " +:+ id +:+ " has no " +:+ needed))
    | None =>
      Ok (mkImported (im_panes st ++ [read_record item id kind]) (im_ids st ++ [id]) names
            (N.max (im_counter st) n))
    end.

Fixpoint import_all (items : list Value) (st : Imported) : res Imported :=
  match items with
  | [] => Ok st
  | item :: items => let? st := import_pane st item in import_all items st
  end.

Definition version_is (state : Value) (v : N) : bool :=
  match (x ← get state "version"; as_f64 x) with Some n => feq n (f_of_N v) | None => false end.

Definition import_versions (state : Value) (versions : list N) (reader : string) : res (list Pane * N) :=
  if negb (is_object state) then Err (bad_state "not an object")
  else if negb (existsb (version_is state) versions) then
    Err (mkError "bad_request" ("unsupported state version " +:+ quoted_json (get state "version") +:+
      " (" +:+ reader +:+ " " +:+ join " and " (map pretty versions) +:+ ")"))
  else
    match (v ← get state "panes"; as_array v), (v ← get state "windows"; as_array v) with
    | Some saved, Some _ =>
      let counter := default 0%N (whole (c ← get state "counters"; get c "pane")) in
      let? st := import_all saved (mkImported [] [] [] counter) in
      Ok (im_panes st, im_counter st)
    | _, _ => Err (bad_state "needs panes and windows")
    end.

Definition import_panes (state : Value) : res (list Pane * N) := import_versions state [1%N] "this kmux reads".

Definition ascii_lowercase (a : ascii) : bool := let n := nat_of_ascii a in (97 <=? n)%nat && (n <=? 122)%nat.

(** An id of the form [prefix-N]. *)
Definition split_id (id : string) : option string :=
  '(prefix, n) ← split_once "-" id;
  if negb (str_is_empty prefix) && forallb ascii_lowercase (String.list_ascii_of_string prefix) then
    k ← parse_usize n; if (0 <? k)%N then Some prefix else None
  else None.

Definition count_content (counters : gmap string N) (item : Value) : res (gmap string N) :=
  match string_of item "id", (t ← string_of item "type"; type_parse t) with
  | Some id, Some kind =>
    match split_id id with
    | None => Err (bad_pane item)
    | Some prefix =>
      let kind_prefix := content_prefix kind in
      match number_in id (kind_prefix +:+ "-") with
      | Some n =>
        if decide (prefix = kind_prefix) then
          Ok (<[kind_prefix := N.max (default 0%N (counters !! kind_prefix)) n]> counters)
        else Err (bad_state ("pane " +:+ id +:+ " is a " +:+ type_as_str kind +:+ " pane, so its ID is " +:+
                             kind_prefix +:+ "-N"))
      | None => Err (bad_state ("pane " +:+ id +:+ " is a " +:+ type_as_str kind +:+ " pane, so its ID is " +:+
                                kind_prefix +:+ "-N"))
      end
    end
  | _, _ => Ok counters
  end.

Fixpoint count_all (counters : gmap string N) (items : list Value) : res (gmap string N) :=
  match items with
  | [] => Ok counters
  | item :: items => let? counters := count_content counters item in count_all counters items
  end.

Definition import_content (state : Value) : res (list Pane * gmap string N) :=
  if negb (is_object state) then Err (bad_state "not an object")
  else if negb (version_is state STATE_VERSION) then
    Err (mkError "bad_request" ("unsupported state version " +:+ quoted_json (get state "version") +:+
      " (this kmux reads 1 and " +:+ pretty STATE_VERSION +:+ ")"))
  else
    let saved := get state "counters" in
    let counters := foldl (fun m prefix => <[prefix := default 0%N (whole (c ← saved; get c prefix))]> m)
                      ∅ content_prefixes in
    let? counters := count_all counters (default [] (v ← get state "panes"; as_array v)) in
    let? '(panes, _) := import_versions state [STATE_VERSION] "this kmux reads" in
    Ok (panes, counters).
End StateReading.

(** ** Upgrading a version 1 state: its ids get their kind's prefix *)

Definition upgrade_kinds (state : Value) : gmap string string :=
  foldl (fun m p =>
    match string_of p "id", (t ← string_of p "type"; type_parse t) with
    | Some id, Some kind => <[id := content_prefix kind]> m
    | _, _ => m
    end) ∅ (default [] (v ← get state "panes"; as_array v)).

Definition upgrade_id (kinds : gmap string string) (text : string) : string :=
  let renamed prefix to := (fun n => to +:+ "-" +:+ pretty n) <$> number_in text prefix in
  default text
    match text with
    | String "p" _ => kind ← kinds !! text; renamed "p" kind
    | String "t" _ => renamed "t" "tab"
    | String "w" _ => renamed "w" "win"
    | String "s" _ => renamed "s" "ws"
    | _ => None
    end.

Definition id_keys : list string := ["id"; "active"; "focused"; "zoomed"; "workspace"; "pane"; "lastFocus"].

Fixpoint upgrade_walk (kinds : gmap string string) (value : Value) (key : option string) : Value :=
  match value with
  | JString text =>
    if match key with Some k => contains id_keys k | None => false end
    then JString (upgrade_id kinds text) else value
  | JArray items => JArray (map (fun item => upgrade_walk kinds item key) items)
  | JObject fields => JObject (map (fun '(k, item) => (k, upgrade_walk kinds item (Some k))) fields)
  | _ => value
  end.

Definition upgrade_state (state : Value) : Value :=
  if negb (version_is state 1) then state
  else
    let count key := default JNull (c ← get state "counters"; get c key) in
    let pane := count "pane" in
    match upgrade_walk (upgrade_kinds state) state None with
    | JObject fields =>
      JObject (map_insert (map_insert fields "version" (num (f_of_N STATE_VERSION))) "counters"
        (obj [("term", pane); ("page", pane); ("file", pane); ("ios", pane); ("diff", pane); ("log", pane);
              ("serial", pane); ("tab", count "tab"); ("window", count "window"); ("workspace", count "workspace")]))
    | other => other
    end.
