(* ===== verification/PaneTable.v ===== *)
(** * The table of panes over its life: [Panes] of [crates/kanna-mux/src/pane.rs], read back
    by [crates/kanna-mux/src/state.rs]

    The operations that change the table as one step relation, with the states that
    [import_versions] accepts among them, and the invariant every table they reach has. *)

From S2P Require Import Prelude Text F64 Json Pane Panes State.

(** ** What an imported list of panes is *)

(** An ID that [import_versions] accepts for a pane of a kind: [pN], or the kind's prefix and
    a number. *)
Definition id_form (counter : N) (kind : PaneType) (id : string) : Prop :=
  (exists n, id = "p" +:+ pretty n /\ (n <= counter)%N) \/
  (exists n, id = content_prefix kind +:+ "-" +:+ pretty n /\ (0 < n < 1000000000)%N).

Record imported (counter : N) (panes : list Pane) : Prop := {
  imp_ids : NoDup (map pane_id panes);
  imp_names : NoDup (omap pane_name panes);
  imp_named : "" ∉ omap pane_name panes;
  imp_forms : Forall (fun p => id_form counter (pane_kind p) (pane_id p)) panes }.

Lemma numbered_Some prefix id n :
  numbered prefix id = Some n -> id = prefix +:+ pretty n /\ (0 < n < 1000000000)%N.
Proof.
  unfold numbered. intros (rest & _ & (k & _ & E)%bind_Some)%bind_Some.
  destruct (0 <? k)%N eqn:H1, (k <? 1000000000)%N eqn:H2; simpl in E; try done.
  case_bool_decide; simplify_eq. apply N.ltb_lt in H1, H2. done.
Qed.

Lemma numbered_name prefix n : (0 < n < 1000000000)%N -> numbered prefix (prefix +:+ pretty n) = Some n.
Proof.
  intros Hn. unfold numbered. rewrite strip_prefix_app. simpl. unfold parse_usize.
  rewrite parse_uint_pretty by (unfold usize_max; lia). simpl. rewrite bool_decide_eq_true_2 by done.
  rewrite (proj2 (N.ltb_lt 0 n)), (proj2 (N.ltb_lt n 1000000000)) by lia. done.
Qed.

Lemma content_number_name prefix n :
  prefix ∈ content_prefixes -> (0 < n < 1000000000)%N -> content_number (prefix +:+ "-" +:+ pretty n) = Some (prefix, n).
Proof.
  intros Hp Hn. unfold content_number.
  assert (split_once "-" (prefix +:+ "-" +:+ pretty n) = Some (prefix, pretty n)) as ->.
  { unfold content_prefixes in Hp. set_unfold in Hp.
    destruct Hp as [->|[->|[->|[->|[->|[->|[->|[]]]]]]]]; cbn; by destruct (pretty n). }
  cbn [mbind option_bind]. assert (List.find (fun p => bool_decide (p = prefix)) content_prefixes = Some prefix) as ->.
  { unfold content_prefixes in Hp. set_unfold in Hp. by destruct Hp as [->|[->|[->|[->|[->|[->|[->|[]]]]]]]]. }
  simpl. unfold parse_usize. rewrite parse_uint_pretty by (unfold usize_max; lia). simpl.
  rewrite (proj2 (N.ltb_lt 0 n)) by lia. by rewrite bool_decide_eq_true_2.
Qed.

Section Importing.
Context `{World}.

Lemma id_form_mono c c' kind id : (c <= c')%N -> id_form c kind id -> id_form c' kind id.
Proof. intros Hc [(n & -> & ?)|(n & -> & ?)]; [left|right]; exists n; split; auto; lia. Qed.

Definition import_state (st : Imported) : Prop :=
  imported (im_counter st) (im_panes st) /\ im_ids st = map pane_id (im_panes st) /\
  im_names st = omap pane_name (im_panes st).

Lemma import_name_spec item names names' :
  import_name item names = Ok names' ->
  names' = names ++ option_list (string_of item "name") /\
  forall x, string_of item "name" = Some x -> x ≠ "" /\ x ∉ names.
Proof.
  unfold import_name. destruct (string_of item "name") as [x|]; simpl; [|by intros [= <-]; rewrite app_nil_r].
  destruct (str_is_empty x || contains names x) eqn:E; [done|]. intros [= <-]. split; [done|].
  intros y [= <-]. apply orb_false_iff in E as [E1 E2]. unfold str_is_empty in E1.
  apply bool_decide_eq_false in E1. split; [done|]. by apply contains_false.
Qed.

Lemma read_record_pane item id kind :
  let p := read_record item id kind in pane_id p = id /\ pane_kind p = kind /\ pane_name p = string_of item "name".
Proof. done. Qed.

(** The ID's number, as the loop reads it. *)
Lemma import_number item id kind n c :
  match number_in id "p" with
  | Some n => Ok n
  | None => match number_in id (content_prefix kind +:+ "-") with Some _ => Ok 0%N | None => Err (bad_pane item) end
  end = Ok n -> id_form (N.max c n) kind id.
Proof.
  unfold number_in. destruct (numbered "p" id) as [k|] eqn:Ep.
  - intros [= <-]. apply numbered_Some in Ep as [-> _]. left. exists k. split; [done|lia].
  - destruct (numbered (content_prefix kind +:+ "-") id) as [k|] eqn:Ec; [|discriminate]. intros [= <-]. apply numbered_Some in Ec as [-> ?].
    right. exists k. by rewrite string_app_assoc.
Qed.

Lemma import_pane_spec st item st' : import_state st -> import_pane st item = Ok st' -> import_state st'.
Proof.
  intros ([Hi Hn He Hf] & Eids & Enames). unfold import_pane.
  destruct (ok_or _ _) as [id| |] eqn:Eid; simpl; try done. destruct (ok_or (_ ≫= _) _) as [kind| |] eqn:Ek; simpl; try done.
  destruct (match number_in id "p" with Some n => _ | None => _ end) as [n| |] eqn:En; simpl; try done.
  destruct (contains (im_ids st) id) eqn:Ec; [done|]. apply contains_false in Ec.
  destruct (import_name item (im_names st)) as [names| |] eqn:Enm; simpl; try done.
  apply import_name_spec in Enm as [-> Hnew]. destruct (match needed_field kind with Some _ => _ | None => _ end); [done|].
  intros [= <-]. destruct (read_record_pane item id kind) as (Hpi & Hpk & Hpn).
  unfold import_state; simpl. rewrite map_app, omap_app. cbn [map omap list_omap]. rewrite Hpi, Hpn, Eids, Enames in *.
  set (names := omap pane_name (im_panes st)) in *.
  split_and!; [|done|by destruct (string_of item "name")]. split.
  - rewrite map_app. cbn [map]. rewrite Hpi. apply NoDup_app. split_and!; [done| |apply NoDup_singleton].
    by intros x Hx ->%list_elem_of_singleton.
  - rewrite omap_app. cbn [omap list_omap]. rewrite Hpn. fold names.
    destruct (string_of item "name") as [x|]; [|by rewrite app_nil_r]. apply NoDup_app. split_and!; [done| |apply NoDup_singleton].
    intros y Hy ->%list_elem_of_singleton. by destruct (Hnew x eq_refl).
  - rewrite omap_app. cbn [omap list_omap]. rewrite Hpn. fold names. rewrite elem_of_app.
    intros [?|Hx]; [done|]. destruct (string_of item "name") as [x|]; [|by apply elem_of_nil in Hx].
    apply list_elem_of_singleton in Hx as <-. by destruct (Hnew "" eq_refl).
  - apply Forall_app. split; [|apply Forall_singleton].
    + eapply Forall_impl; [done|]. intros p. apply id_form_mono. lia.
    + rewrite Hpi, Hpk. by eapply import_number.
Qed.

Lemma import_all_spec items st st' : import_state st -> import_all items st = Ok st' -> import_state st'.
Proof.
  revert st. induction items as [|item items IH]; simpl; intros st Hst; [by intros [= <-]|].
  destruct (import_pane st item) as [st1| |] eqn:E; simpl; try done. apply IH. by eapply import_pane_spec.
Qed.

(** What [import_versions] accepts: distinct IDs of the forms the table hands out, names that
    are not empty and not used twice, and a counter past every [pN]. *)
Lemma import_versions_spec state versions reader panes counter :
  import_versions state versions reader = Ok (panes, counter) -> imported counter panes.
Proof.
  unfold import_versions. destruct (negb _); [done|]. destruct (negb _); [done|].
  destruct (_ ≫= as_array) as [saved|]; [|done]. destruct (_ ≫= as_array); [|done].
  destruct (import_all _ _) as [st| |] eqn:E; simpl; try done. intros [= <- <-].
  apply import_all_spec in E; [by apply E|]. split_and!; [|done..].
  split; simpl; try apply NoDup_nil_2; [set_solver|constructor].
Qed.
End Importing.

(** ** Installing them *)

(** The counters the installed panes' IDs raise: [covered] by what [note_content] folds. *)
Definition covered (acc : N * gmap string N) (found : string * N) : Prop :=
  (found.2 <= if decide (found.1 = "term") then acc.1 else default 0%N (acc.2 !! found.1))%N.

Lemma note_content_covers acc found : covered (note_content acc found) found.
Proof.
  destruct acc as [t nums], found as [prefix n]. unfold covered, note_content, raise_number. simpl.
  case_decide; simpl; [lia|]. rewrite lookup_insert_eq. simpl. lia.
Qed.

Lemma note_content_mono acc found x : covered acc x -> covered (note_content acc found) x.
Proof.
  destruct acc as [t nums], found as [prefix n], x as [q k]. unfold covered, note_content, raise_number. simpl.
  destruct (decide (prefix = "term")), (decide (q = "term")); simpl; intros; try lia.
  rewrite lookup_insert. case_decide; subst; simpl; lia.
Qed.

Lemma note_all_covers l acc x : covered acc x \/ x ∈ l -> covered (foldl note_content acc l) x.
Proof.
  revert acc. induction l as [|y l IH]; simpl; intros acc Hx; [destruct Hx as [?|?%elem_of_nil]; done|].
  apply IH. destruct Hx as [?|[->|?]%elem_of_cons]; [left; by apply note_content_mono|left; apply note_content_covers|by right].
Qed.

Lemma filed_lookup panes (m : gmap string Pane) id p :
  NoDup (map pane_id panes) ->
  foldl (fun m p => <[pane_id p := p]> m) m panes !! id = Some p ->
  (p ∈ panes /\ pane_id p = id) \/ (m !! id = Some p /\ id ∉ map pane_id panes).
Proof.
  revert m. induction panes as [|q panes IH]; simpl; intros m Hnd Hl; [right; split; [done|set_solver]|].
  apply NoDup_cons in Hnd as [Hq Hnd]. destruct (IH _ Hnd Hl) as [[? ?]|[Hm Hn]]; [left; split; [by right|done]|].
  rewrite lookup_insert in Hm. case_decide; simplify_eq; [left; split; [by left|done]|].
  right. split; [done|]. set_solver.
Qed.

Lemma filed_is_Some panes (m : gmap string Pane) id :
  is_Some (m !! id) \/ id ∈ map pane_id panes -> is_Some (foldl (fun m p => <[pane_id p := p]> m) m panes !! id).
Proof.
  revert m. induction panes as [|q panes IH]; simpl; intros m Hid; [destruct Hid as [?|?%elem_of_nil]; done|].
  apply IH. rewrite lookup_insert. destruct Hid as [?|[->|?]%elem_of_cons]; [left; by case_decide|left; by rewrite decide_True|by right].
Qed.

(** The terminals panes run in: a counter is past every number that is read, those below 10^9. *)
Definition past (prefix : string) (counter : N) (panes : gmap string Pane) : Prop :=
  forall id p n, panes !! id = Some p -> pane_terminal p = Some (prefix +:+ pretty n) ->
    (0 < n < 1000000000)%N -> (n <= counter)%N.
Definition ptys_past (ps : Panes) : Prop := past "pty-" (panes_ptys ps) (panes_map ps).
Definition terms_past (ps : Panes) : Prop := past "term-" (panes_terminals ps) (panes_map ps).

Record table_ok (ps : Panes) : Prop := {
  ok_wf : panes_wf ps;
  ok_fresh : panes_fresh ps;
  ok_ptys : ptys_past ps;
  ok_terms : terms_past ps }.

Lemma max_of_le l x : x ∈ l -> (x <= max_of l)%N.
Proof. induction l as [|y l IH]; [by intros ?%elem_of_nil|]. intros [->|?%IH]%elem_of_cons; simpl; lia. Qed.

Lemma install_wf ps panes counter terminals ptys :
  NoDup (map pane_id panes) -> panes_wf (panes_install ps panes counter terminals ptys).
Proof.
  intros Hnd. unfold panes_install. destruct (foldl _ _ _) as [t nums]. split; simpl; [done|..].
  - intros id. split; [intros ?; apply filed_is_Some; by right|]. intros [p Hp].
    destruct (filed_lookup _ _ _ _ Hnd Hp) as [[Hin <-]|[Hm _]]; [|by rewrite lookup_empty in Hm]. by apply list_elem_of_In, in_map, list_elem_of_In.
  - intros id p Hp. destruct (filed_lookup _ _ _ _ Hnd Hp) as [[Hin <-]|[Hm _]]; [done|by rewrite lookup_empty in Hm].
Qed.

(** An installed list has its panes' numbers below the counters, so that the next ID is new;
    the table it replaces does not matter. *)
Lemma install_fresh ps panes counter terminals ptys :
  imported counter panes -> panes_fresh (panes_install ps panes counter terminals ptys).
Proof.
  intros [Hnd _ _ Hf]. unfold panes_install.
  set (found := omap (fun p => content_number (pane_id p)) panes).
  pose proof (fun x => note_all_covers found (panes_terminals ps, panes_numbers ps) x) as Hcov.
  destruct (foldl note_content _ found) as [t nums].
  assert (forall id p, foldl (fun m p => <[pane_id p := p]> m) (∅ : gmap string Pane) panes !! id = Some p ->
            id_form counter (pane_kind p) id) as Hform.
  { intros id p Hp. destruct (filed_lookup _ _ _ _ Hnd Hp) as [[Hin <-]|[Hm _]]; [|by rewrite lookup_empty in Hm].
    rewrite Forall_forall in Hf. by apply Hf. }
  assert (forall prefix n p, prefix ∈ content_prefixes ->
            foldl (fun m p => <[pane_id p := p]> m) (∅ : gmap string Pane) panes !! (prefix +:+ "-" +:+ pretty n) = Some p ->
            covered (t, nums) (prefix, n)) as Hdash.
  { intros prefix n p Hpre Hp. destruct (filed_lookup _ _ _ _ Hnd Hp) as [[Hin Hid]|[Hm _]]; [|by rewrite lookup_empty in Hm].
    destruct (Hform _ _ Hp) as [(k & E & _)|(k & E & Hk)]; [by apply eq_sym, p_id_ne in E|].
    apply dash_id_inj in E as [-> <-]; [|done|apply content_prefix_in]. apply Hcov. right.
    apply list_elem_of_omap. exists p. split; [done|]. rewrite Hid. by apply content_number_name. }
  split; simpl; intros.
  - destruct (_ !! _) as [p|] eqn:Hp; [exfalso|done]. destruct (Hform _ _ Hp) as [(k & E & ?)|(k & E & _)].
    + apply string_app_inj_l, (inj pretty) in E. lia.
    + revert E. apply p_id_ne, content_prefix_in.
  - destruct (_ !! _) as [p|] eqn:Hp; [exfalso|done]. apply (Hdash "term") in Hp; [|by apply (bool_decide_unpack _)].
    unfold covered in Hp. simpl in Hp. lia.
  - destruct (_ !! _) as [p|] eqn:Hp; [exfalso|done]. apply Hdash in Hp; [|apply content_prefix_in].
    unfold covered in Hp. simpl in Hp. rewrite decide_False in Hp by (by intros ?%content_prefix_term).
    unfold number_of in *. simpl in *. lia.
Qed.

Lemma filed_past prefix panes :
  NoDup (map pane_id panes) ->
  past prefix (max_of (omap (fun p => t ← pane_terminal p; numbered prefix t) panes)) (foldl (fun m p => <[pane_id p := p]> m) ∅ panes).
Proof.
  intros Hnd id p n Hp Ht Hn. destruct (filed_lookup _ _ _ _ Hnd Hp) as [[Hin _]|[Hm _]]; [|by rewrite lookup_empty in Hm].
  apply max_of_le, list_elem_of_omap. exists p. split; [done|]. rewrite Ht. simpl. by apply numbered_name.
Qed.

Lemma past_mono prefix c c' panes : past prefix c panes -> (c <= c')%N -> past prefix c' panes.
Proof. intros Hp Hc id p n Hi Ht Hn. specialize (Hp id p n Hi Ht Hn). lia. Qed.

Lemma install_ptys ps panes counter terminals ptys :
  NoDup (map pane_id panes) -> ptys_past (panes_install ps panes counter terminals ptys).
Proof.
  intros Hnd. unfold ptys_past, panes_install. destruct (foldl _ _ _) as [t nums]. simpl.
  eapply past_mono; [by apply filed_past|]. unfold pty_number. lia.
Qed.

Lemma install_terms ps panes counter terminals ptys :
  NoDup (map pane_id panes) -> terms_past (panes_install ps panes counter terminals ptys).
Proof.
  intros Hnd. unfold terms_past, panes_install. destruct (foldl _ _ _) as [t nums]. simpl.
  eapply past_mono; [by apply filed_past|]. unfold terminal_number. lia.
Qed.

(** ** Steps *)

(** Raised counters only make more IDs new. *)
Lemma note_numbers_raises l (nums : gmap string N) q :
  (default 0 (nums !! q) <=
   default 0 (map_fold (fun prefix n acc =>
     if contains ["file"; "page"; "ios"; "diff"; "log"; "serial"] prefix then raise_number acc prefix n else acc) nums l !! q))%N.
Proof.
  revert q. apply (map_fold_weak_ind (fun acc _ => forall q, default 0 (nums !! q) <= default 0 (acc !! q))%N); [done|].
  intros prefix n m acc _ IH q. destruct (contains _ prefix); [|apply IH]. unfold raise_number.
  rewrite lookup_insert. case_decide; subst; simpl; [specialize (IH q); lia|apply IH].
Qed.

Lemma note_numbers_ok ps numbers : table_ok ps -> table_ok (note_numbers ps numbers).
Proof.
  intros [[Ho Hd Hk] [H1 H2 H3] Hp Ht]. split; [by split|..|done|done]. split; [done..|]. simpl. intros kind n Hkind Hn. apply H3; [done|].
  unfold number_of in *. simpl in Hn.
  pose proof (note_numbers_raises numbers (panes_numbers ps) (content_prefix kind)). lia.
Qed.

Lemma new_terminal_ok ps id : table_ok ps -> table_ok (snd (new_terminal ps id)).
Proof.
  intros [[Ho Hd Hk] [H1 H2 H3] Hp Htm]. unfold new_terminal. destruct (panes_map ps !! id) as [p|] eqn:E; [|by split].
  destruct (decide (pane_kind p = Term)); [|by split]. assert (forall x, panes_map ps !! x = None ->
    <[id:=set_pane_terminal p (Some ("pty-" +:+ pretty (panes_ptys ps + 1)%N))]> (panes_map ps) !! x = None) as Hnone.
  { intros x Hx. rewrite lookup_insert. case_decide; [|done]. congruence. }
  split; [split|split|..]; simpl; auto.
  - intros x. rewrite Hd, lookup_insert. case_decide; subst; [|done]. rewrite E. split; eauto.
  - intros x q. rewrite lookup_insert. case_decide; subst; [|apply Hk]. intros [= <-]. simpl. by apply Hk.
  - intros x q n. simpl. rewrite lookup_insert. case_decide; subst.
    + intros [= <-]. simpl. intros [= E']. apply string_app_inj_l, (inj pretty) in E'. lia.
    + intros Hq Ht Hn. specialize (Hp x q n Hq Ht Hn). lia.
  - intros x q n. simpl. rewrite lookup_insert. case_decide; subst; [by intros [= <-]|apply Htm].
Qed.

Lemma make_ok ps kind name : table_ok ps -> table_ok (snd (make ps kind name)).
Proof.
  intros [Hwf Hf Hp Ht]. destruct (make_files ps kind name Hf) as [Hm _].
  assert (forall prefix c, past prefix c (panes_map ps) -> past prefix c (panes_map (snd (make ps kind name)))) as Hnew.
  { intros prefix c Hc x q n. rewrite Hm, lookup_insert. case_decide; subst; [|apply Hc]. by intros [= <-]. }
  assert (panes_ptys (snd (make ps kind name)) = panes_ptys ps /\ (panes_terminals ps <= panes_terminals (snd (make ps kind name)))%N) as [E Hle].
  { unfold make. destruct (panes_content ps), kind; simpl; split; done || lia. }
  split; [by apply make_wf|by apply make_fresh|unfold ptys_past; rewrite E; by apply Hnew|]. eapply past_mono; [by apply Hnew|done].
Qed.

Lemma forget_ok ps id : table_ok ps -> table_ok (snd (forget ps id)).
Proof.
  intros [Hwf Hf Hp Ht]. split; [by apply forget_wf|by apply forget_fresh|..]; intros x q n; simpl;
    (rewrite lookup_delete; case_decide; [done|]); [apply Hp|apply Ht].
Qed.

Lemma panes_default_ok : table_ok panes_default.
Proof.
  split; [split|split|..]; simpl; try done; [apply NoDup_nil_2|].
  intros id. rewrite lookup_empty. split; [by intros ?%elem_of_nil|by intros []].
Qed.

Create HintDb table.
#[export] Hint Resolve make_ok forget_ok new_terminal_ok note_numbers_ok panes_default_ok install_wf install_fresh
  install_ptys install_terms imp_ids : table.

(** What changes the table: the operations of [Panes], and the install of a state that
    [import_versions] reads. *)
Inductive table_step `{World} (ps : Panes) : Panes -> Prop :=
| table_make kind name : table_step ps (snd (make ps kind name))
| table_forget id : table_step ps (snd (forget ps id))
| table_terminal id : table_step ps (snd (new_terminal ps id))
| table_content : table_step ps (use_content_ids ps)
| table_note numbers : table_step ps (note_numbers ps numbers)
| table_install state versions reader panes counter terminals ptys :
    import_versions state versions reader = Ok (panes, counter) ->
    table_step ps (panes_install ps panes counter terminals ptys).

Lemma install_ok ps panes counter terminals ptys :
  imported counter panes -> table_ok (panes_install ps panes counter terminals ptys).
Proof. intros Hi. split; eauto with table. Qed.

Lemma table_step_ok `{World} ps ps' : table_ok ps -> table_step ps ps' -> table_ok ps'.
Proof.
  intros Hok Hs. destruct Hs; auto with table.
  - destruct Hok as [[] [] ? ?]. by split; [split|split|..].
  - apply install_ok. by eapply import_versions_spec.
Qed.

(** ** Content IDs *)

Section Content.
Context `{World}.

(** A saved entry and the pane read from it. *)
Definition read_as (item : Value) (p : Pane) : Prop :=
  string_of item "id" = Some (pane_id p) /\ (t ← string_of item "type"; type_parse t) = Some (pane_kind p).

Lemma import_pane_reads st item st' :
  import_pane st item = Ok st' -> exists p, im_panes st' = im_panes st ++ [p] /\ read_as item p.
Proof.
  unfold import_pane. destruct (ok_or _ _) as [id| |] eqn:Eid; simpl; try done.
  destruct (ok_or (_ ≫= _) _) as [kind| |] eqn:Ek; simpl; try done.
  destruct (match number_in id "p" with Some n => _ | None => _ end) as [n| |]; simpl; try done.
  destruct (contains _ id); [done|]. destruct (import_name _ _) as [names| |]; simpl; try done.
  destruct (match needed_field kind with Some _ => _ | None => _ end); [done|]. intros [= <-].
  eexists. split; [reflexivity|]. destruct (is_object item); [|done].
  split; [by destruct (string_of item "id"); simplify_eq/=|].
  by destruct (string_of item "type" ≫= _); simplify_eq/=.
Qed.

Lemma import_all_reads items st st' :
  import_all items st = Ok st' -> exists panes, im_panes st' = im_panes st ++ panes /\ Forall2 read_as items panes.
Proof.
  revert st. induction items as [|item items IH]; simpl; intros st; [intros [= <-]; exists []; by rewrite app_nil_r|].
  destruct (import_pane st item) as [st1| |] eqn:E; simpl; try done. intros (panes & -> & Hp)%IH.
  apply import_pane_reads in E as (p & -> & Hr). exists (p :: panes). split; [by rewrite <- app_assoc|by constructor].
Qed.

(** A content ID is the kind's prefix and a number its counter has reached. *)
Definition counted (counters : gmap string N) (p : Pane) : Prop :=
  exists n, pane_id p = content_prefix (pane_kind p) +:+ "-" +:+ pretty n /\
    (0 < n <= default 0 (counters !! content_prefix (pane_kind p)))%N.

Lemma count_content_spec counters item counters' :
  count_content counters item = Ok counters' ->
  (forall p, counted counters p -> counted counters' p) /\ (forall p, read_as item p -> counted counters' p).
Proof.
  unfold count_content. destruct (string_of item "id") as [id|] eqn:Eid.
  2: { intros [= <-]. split; [done|]. intros p [Hr _]. congruence. }
  destruct (string_of item "type" ≫= _) as [kind|] eqn:Ek.
  2: { intros [= <-]. split; [done|]. intros p [_ Hr]. congruence. }
  destruct (split_id id) as [prefix|]; [|done]. destruct (number_in id _) as [n|] eqn:En; [|done].
  destruct (decide _); [|done]. intros [= <-]. split; intros p.
  - intros (k & Hid & Hk). exists k. split; [done|]. rewrite lookup_insert. case_decide as Eq; [|done]. rewrite Eq. simpl. lia.
  - unfold read_as, counted. rewrite Eid, Ek. intros [[= <-] [= <-]]. apply numbered_Some in En as [En Hn]. exists n.
    split; [by rewrite string_app_assoc|]. rewrite lookup_insert_eq. simpl. lia.
Qed.

Lemma count_all_spec items panes counters counters' :
  count_all counters items = Ok counters' -> Forall2 read_as items panes ->
  (forall p, counted counters p -> counted counters' p) /\ Forall (counted counters') panes.
Proof.
  intros Hc Hf. revert counters Hc. induction Hf as [|item p items panes Hr Hf IH]; simpl; intros counters.
  - by intros [= <-].
  - destruct (count_content counters item) as [c1| |] eqn:E; simpl; try done. intros [Hm Hall]%IH.
    apply count_content_spec in E as [Hk Hp]. split; [auto|]. constructor; auto.
Qed.

Lemma import_content_spec state panes counters :
  import_content state = Ok (panes, counters) ->
  Forall (counted counters) panes /\ exists counter, imported counter panes /\
    import_versions state [STATE_VERSION] "this kmux reads" = Ok (panes, counter).
Proof.
  unfold import_content. destruct (negb _); [done|]. destruct (negb _); [done|].
  destruct (count_all _ _) as [c| |] eqn:Ec; simpl; try done.
  destruct (import_versions _ _ _) as [[ps n]| |] eqn:Ei; simpl; try done. intros [= <- <-].
  split; [|exists n; split; [by eapply import_versions_spec|done]].
  unfold import_versions in Ei. destruct (negb _); [done|]. destruct (negb _); [done|].
  destruct (_ ≫= as_array) as [saved|]; [|done]. destruct (_ ≫= as_array) as [wins|]; [|done]. simpl in Ec.
  destruct (import_all _ _) as [st| |] eqn:E; simpl in *; try done. simplify_eq.
  apply import_all_reads in E as (read & -> & Hf). by eapply count_all_spec.
Qed.
End Content.
