(* ===== verification/Tree.v ===== *)
(** * Split trees: [Axis], [Child], [Split] and [Node] of [crates/kanna-mux/src/model.rs]

    A tab's panes are the leaves of a tree of splits.  A place in the tree is the path to a
    split and the index of one of its kids; [locate_in] (of tabs.rs) finds a pane's place. *)

From S2P Require Import Prelude Text F64 Json.

Inductive Axis := Row | Column.

#[export] Instance Axis_eq_dec : EqDecision Axis.
Proof. solve_decision. Defined.

Definition axis_as_str (a : Axis) : string :=
  match a with Row => "row" | Column => "column" end.

Definition axis_parse (name : string) : option Axis :=
  if decide (name = "row") then Some Row
  else if decide (name = "column") then Some Column
  else None.

(** [Child] and [Split], over the type of nodes. *)
Record Child (N : Type) := mkChild { child_node : N; child_size : f64 }.
Arguments mkChild {N} child_node child_size.
Arguments child_node {N} c : rename.
Arguments child_size {N} c : rename.

Record Split (N : Type) := mkSplit { split_axis : Axis; split_kids : list (Child N) }.
Arguments mkSplit {N} split_axis split_kids.
Arguments split_axis {N} s : rename.
Arguments split_kids {N} s : rename.

Inductive Node :=
| NPane (id : string)
| NSplit (split : Split Node).

Abbreviation NChild := (Child Node).
Abbreviation NSplit_ := (Split Node).

(** Induction over a tree with the hypothesis for every kid. *)
Section NodeInd.
Context (P : Node -> Prop).
Hypothesis HPane : forall id, P (NPane id).
Hypothesis HSplit : forall axis kids,
  Forall (fun c => P (child_node c)) kids -> P (NSplit (mkSplit axis kids)).

Fixpoint node_ind' (n : Node) : P n :=
  match n with
  | NPane id => HPane id
  | NSplit (mkSplit axis kids) =>
    HSplit axis kids
      ((fix go (kids : list NChild) : Forall (fun c => P (child_node c)) kids :=
          match kids with
          | [] => Forall_nil_2 _
          | mkChild n s :: kids => Forall_cons_2 _ (mkChild n s) kids (node_ind' n) (go kids)
          end) kids)
  end.
End NodeInd.

(** ** Operations *)

Fixpoint collect (node : Node) : list string :=
  match node with
  | NPane id => [id]
  | NSplit split => flat_map (fun kid => collect (child_node kid)) (split_kids split)
  end.

Definition pane_ids (node : option Node) : list string :=
  match node with Some node => collect node | None => [] end.

(** [split_at] gives a mutable reference to the split at a path; [split_mut] runs a change
    of it.  [None] stands for the [unreachable!] and out-of-bounds panics. *)
Fixpoint split_at (root : Node) (path : list nat) : option NSplit_ :=
  match root, path with
  | NSplit split, [] => Some split
  | NPane _, _ => None
  | NSplit split, i :: path => kid ← split_kids split !! i; split_at (child_node kid) path
  end.

Definition set_child_node {N} (c : Child N) (n : N) : Child N := mkChild n (child_size c).
Definition set_child_size {N} (c : Child N) (s : f64) : Child N := mkChild (child_node c) s.

Fixpoint split_mut (root : Node) (path : list nat) (f : NSplit_ -> option NSplit_) : option Node :=
  match root, path with
  | NSplit split, [] => NSplit <$> f split
  | NPane _, _ => None
  | NSplit split, i :: path =>
    kid ← split_kids split !! i;
    node ← split_mut (child_node kid) path f;
    Some (NSplit (mkSplit (split_axis split) (<[i := set_child_node kid node]> (split_kids split))))
  end.

(** A split of one kid is its kid. *)
Definition collapse (axis : Axis) (kids : list NChild) : Node :=
  match kids with [kid] => child_node kid | _ => NSplit (mkSplit axis kids) end.

Fixpoint normalize (node : Node) : Node :=
  match node with
  | NSplit split =>
    collapse (split_axis split)
      (map (fun kid => mkChild (normalize (child_node kid)) (child_size kid)) (split_kids split))
  | pane => pane
  end.

(** [find] of [locate_in]: the first leaf [id] in the order of the kids, as the path of the
    split that holds it and its index there. *)
Definition find_kids (find : Node -> list nat -> option (list nat * nat)) (id : string) (here : list nat)
  : nat -> list NChild -> option (list nat * nat) :=
  fix go (i : nat) (kids : list NChild) :=
    match kids with
    | [] => None
    | kid :: kids =>
      match child_node kid with
      | NPane pane => if decide (pane = id) then Some (here, i) else go (S i) kids
      | NSplit inner =>
        match find (child_node kid) (here ++ [i]) with
        | Some found => Some found
        | None => go (S i) kids
        end
      end
    end.

Fixpoint find_pane (node : Node) (id : string) (here : list nat) : option (list nat * nat) :=
  match node with
  | NPane _ => None
  | NSplit split => find_kids (fun n h => find_pane n id h) id here 0 (split_kids split)
  end.

Definition locate_in (root : option Node) (id : string) : option (option (list nat) * nat) :=
  match root with
  | None => None
  | Some (NPane pane) => if decide (pane = id) then Some (None, 0) else None
  | Some (NSplit split) => (fun '(path, i) => (Some path, i)) <$> find_pane (NSplit split) id []
  end.

(** ** Well-formed trees: no split of fewer than two kids *)

Inductive node_wf : Node -> Prop :=
| wf_pane id : node_wf (NPane id)
| wf_split axis kids :
    2 <= length kids -> Forall (fun c => node_wf (child_node c)) kids ->
    node_wf (NSplit (mkSplit axis kids)).

(** What [build] makes before [normalize]: no empty split. *)
Inductive node_full : Node -> Prop :=
| full_pane id : node_full (NPane id)
| full_split axis kids :
    kids ≠ [] -> Forall (fun c => node_full (child_node c)) kids ->
    node_full (NSplit (mkSplit axis kids)).

Definition kids_ids (kids : list NChild) : list string :=
  flat_map (fun kid => collect (child_node kid)) kids.
Definition split_ids (split : NSplit_) : list string := kids_ids (split_kids split).

Lemma collect_split axis kids : collect (NSplit (mkSplit axis kids)) = kids_ids kids.
Proof. done. Qed.

Lemma kids_ids_app a b : kids_ids (a ++ b) = kids_ids a ++ kids_ids b.
Proof. apply flat_map_app. Qed.
Lemma kids_ids_cons a b : kids_ids (a :: b) = collect (child_node a) ++ kids_ids b.
Proof. done. Qed.

Lemma collect_non_empty n : node_wf n -> collect n ≠ [].
Proof.
  induction n as [id|axis kids IH] using node_ind'; [done|]. intros H. inversion_clear H as [|? ? Hlen Hall].
  destruct kids as [|kid kids]; simpl in *; [lia|].
  apply Forall_cons in IH as [IH _]. apply Forall_cons in Hall as [Hall _].
  specialize (IH Hall). by destruct (collect (child_node kid)).
Qed.

Lemma node_full_wf n : node_wf n -> node_full n.
Proof.
  induction n as [id|axis kids IH] using node_ind'; intros H; inversion_clear H as [|? ? Hlen Hall];
    constructor; [by destruct kids; simpl in *; [lia|]|].
  rewrite Forall_forall in *. eauto.
Qed.

(** ** [normalize] keeps the panes and their order and makes the tree well formed *)

Lemma collapse_ids axis kids : collect (collapse axis kids) = kids_ids kids.
Proof. destruct kids as [|kid [|kid' kids]]; simpl; [done|by rewrite app_nil_r|done]. Qed.

Lemma normalize_ids n : collect (normalize n) = collect n.
Proof.
  induction n as [id|axis kids IH] using node_ind'; [done|].
  simpl normalize. rewrite collapse_ids. simpl. unfold kids_ids.
  induction IH as [|kid kids Hk _ IH]; simpl; [done|]. by rewrite Hk, IH.
Qed.

Lemma normalize_wf n : node_full n -> node_wf (normalize n).
Proof.
  induction n as [id|axis kids IH] using node_ind'; intros H; inversion_clear H as [|? ? Hne Hall];
    simpl; [constructor|].
  assert (Forall (fun c => node_wf (child_node c))
    (map (fun kid => mkChild (normalize (child_node kid)) (child_size kid)) kids)) as Hwf.
  { apply Forall_forall. intros c (kid & -> & Hin)%list_elem_of_fmap. simpl.
    rewrite Forall_forall in IH, Hall. auto. }
  destruct kids as [|kid [|kid' kids]]; [done|..]; simpl in *.
  - by apply Forall_cons in Hwf as [? _].
  - constructor; [simpl; lia | done].
Qed.

Lemma normalize_id n : node_wf n -> normalize n = n.
Proof.
  induction n as [id|axis kids IH] using node_ind'; intros H; inversion_clear H as [|? ? Hlen Hall]; [done|].
  simpl. assert (map (fun kid => mkChild (normalize (child_node kid)) (child_size kid)) kids = kids) as ->.
  { rewrite <- (map_id kids) at 2. apply map_ext_in. intros [n s] Hin%list_elem_of_In. simpl.
    rewrite Forall_forall in IH, Hall. f_equal. apply (IH _ Hin (Hall _ Hin)). }
  destruct kids as [|kid [|kid' kids]]; simpl in *; [lia|lia|done].
Qed.

(** ** Places in a tree *)

(** Changing the split at a path changes just its stretch of the leaves. *)
Lemma split_mut_ids root path split :
  split_at root path = Some split ->
  exists l1 l2, collect root = l1 ++ split_ids split ++ l2 /\
    forall f split', f split = Some split' ->
      exists root', split_mut root path f = Some root' /\
        collect root' = l1 ++ split_ids split' ++ l2.
Proof.
  revert root. induction path as [|i path IH]; intros [id|s]; simpl; try done.
  - intros [= ->]. exists [], []. simpl. rewrite app_nil_r. split; [done|].
    intros f split' ->. exists (NSplit split'). simpl. by rewrite app_nil_r.
  - intros (kid & Hkid & Hs)%bind_Some.
    destruct (IH (child_node kid) Hs) as (l1 & l2 & Hids & Hf).
    apply split_lookup in Hkid as Hk. rewrite Hkid. simpl.
    exists (kids_ids (take i (split_kids s)) ++ l1), (l2 ++ kids_ids (drop (S i) (split_kids s))).
    split.
    + fold (kids_ids (split_kids s)). rewrite Hk at 1.
      rewrite kids_ids_app, kids_ids_cons, Hids, <- !(assoc_L (++)). done.
    + intros f split' Hfs. destruct (Hf f split' Hfs) as (root' & -> & Hr). simpl.
      eexists; split; [done|]. simpl. fold (kids_ids (<[i:=set_child_node kid root']> (split_kids s))).
      rewrite insert_take_drop by (by eapply lookup_lt_Some).
      rewrite kids_ids_app, kids_ids_cons. simpl. rewrite Hr, <- !(assoc_L (++)). done.
Qed.

(** [node_ok b]: every split has at least two kids ([b = true]) or at least one. *)
Lemma split_mut_wf root path split f split' root' :
  split_at root path = Some split -> f split = Some split' ->
  split_mut root path f = Some root' ->
  node_wf root -> node_full (NSplit split') -> node_full root'.
Proof.
  revert root root'. induction path as [|i path IH]; intros [id|s] root'; simpl; try done.
  - intros [= ->] -> [= <-]. done.
  - intros (kid & Hkid & Hs)%bind_Some Hf. rewrite Hkid. simpl.
    intros (node & Hnode & [= <-])%bind_Some Hwf Hsplit.
    inversion Hwf as [|axis kids Hlen Hall]; subst. simpl in *.
    assert (node_full node) as Hnf.
    { eapply IH; [done..| |done]. rewrite Forall_forall in Hall. apply (Hall kid).
      by eapply list_elem_of_lookup_2. }
    constructor.
    + intros E%(f_equal length). rewrite length_insert in E. simpl in E. lia.
    + apply Forall_insert; [|done]. eapply Forall_impl; [exact Hall|].
      intros c Hc. by apply node_full_wf.
Qed.

Lemma split_mut_wf_strong root path split f split' root' :
  split_at root path = Some split -> f split = Some split' ->
  split_mut root path f = Some root' ->
  node_wf root -> node_wf (NSplit split') -> node_wf root'.
Proof.
  revert root root'. induction path as [|i path IH]; intros [id|s] root'; simpl; try done.
  - intros [= ->] -> [= <-]. done.
  - intros (kid & Hkid & Hs)%bind_Some Hf. rewrite Hkid. simpl.
    intros (node & Hnode & [= <-])%bind_Some Hwf Hsplit.
    inversion Hwf as [|axis kids Hlen Hall]; subst. simpl in *.
    constructor; [by rewrite length_insert|].
    apply Forall_insert; [done|]. simpl. eapply IH; [done..| |done].
    rewrite Forall_forall in Hall. apply (Hall kid). by eapply list_elem_of_lookup_2.
Qed.

Lemma split_at_wf root path split :
  node_wf root -> split_at root path = Some split -> node_wf (NSplit split).
Proof.
  revert root. induction path as [|i path IH]; intros [id|s]; simpl; try done.
  - by intros ? [= <-].
  - intros Hwf (kid & Hkid & Hs)%bind_Some. eapply IH; [|done].
    inversion Hwf as [|axis kids Hlen Hall]; subst. rewrite Forall_forall in Hall.
    apply (Hall kid). by eapply list_elem_of_lookup_2.
Qed.

(** The place [find_pane] gives holds the pane. *)
Definition pane_at (root : Node) (path : list nat) (i : nat) (id : string) : Prop :=
  exists split kid, split_at root path = Some split /\ split_kids split !! i = Some kid /\
    child_node kid = NPane id.

Lemma pane_at_cons split k kid path i id :
  split_kids split !! k = Some kid -> pane_at (child_node kid) path i id ->
  pane_at (NSplit split) (k :: path) i id.
Proof.
  intros Hk (s & kid' & Hs & Hi & Hn). exists s, kid'. simpl. by rewrite Hk.
Qed.

Lemma find_pane_Some node id here path i :
  find_pane node id here = Some (path, i) ->
  exists rel, path = here ++ rel /\ pane_at node rel i id.
Proof.
  revert here path i. induction node as [pane|axis kids IH] using node_ind';
    intros here path i; simpl; [done|].
  enough (forall before kids', kids = before ++ kids' ->
    find_kids (fun n h => find_pane n id h) id here (length before) kids' = Some (path, i) ->
    exists rel, path = here ++ rel /\ pane_at (NSplit (mkSplit axis kids)) rel i id) as H.
  { intros Hf. by apply (H [] kids). }
  intros before kids'. revert before. induction kids' as [|kid kids' IHk]; intros before Hkids; [done|].
  assert (kids !! length before = Some kid) as Hlook by (subst; by apply list_lookup_middle).
  simpl. destruct (child_node kid) as [pane|inner] eqn:Hn.
  - case_decide as E.
    + intros [= <- <-]. exists []. rewrite app_nil_r. split; [done|].
      eexists _, kid. split_and!; [done|done|by rewrite Hn, E].
    + intros Hgo. apply (IHk (before ++ [kid])); [by rewrite <- (assoc_L (++))|].
      rewrite length_app. simpl. by rewrite Nat.add_1_r.
  - destruct (find_pane (NSplit inner) id (here ++ [length before])) as [[path' i']|] eqn:Hf.
    + intros [= -> ->]. rewrite Forall_forall in IH.
      assert (kid ∈ kids) as Hin by (by eapply list_elem_of_lookup_2).
      rewrite <- Hn in Hf. destruct (IH kid Hin _ _ _ Hf) as (rel & -> & Hat).
      exists (length before :: rel). split; [by rewrite <- (assoc_L (++))|].
      eapply pane_at_cons; done.
    + intros Hgo. apply (IHk (before ++ [kid])); [by rewrite <- (assoc_L (++))|].
      rewrite length_app. simpl. by rewrite Nat.add_1_r.
Qed.

Lemma find_pane_None node id here :
  find_pane node id here = None -> (exists split, node = NSplit split) -> id ∉ collect node.
Proof.
  revert here. induction node as [pane|axis kids IH] using node_ind'; intros here Hf [split E];
    [done|]. clear split E. simpl in Hf. revert Hf. rewrite collect_split. generalize 0 as i.
  induction IH as [|kid kids Hk _ IHk]; intros i; [by intros _ ?%elem_of_nil|].
  simpl. unfold kids_ids in *. simpl. rewrite elem_of_app.
  destruct (child_node kid) as [pane|inner] eqn:Hn.
  - case_decide; [done|]. intros Hgo [->%list_elem_of_singleton|Hin]; [done|].
    by apply (IHk (S i)).
  - destruct (find_pane (NSplit inner) id (here ++ [i])) as [[]|] eqn:Hi; [done|].
    intros Hgo [Hin|Hin]; [|by apply (IHk (S i))].
    by apply (Hk (here ++ [i])); [|eexists|].
Qed.

(** Where [locate_in] says a pane is: at the root, or at an index of the split at a path. *)
Definition place_of (root : Node) (parent : option (list nat)) (i : nat) (id : string) : Prop :=
  match parent with
  | None => root = NPane id
  | Some path => pane_at root path i id
  end.

Lemma locate_in_Some root id parent i :
  locate_in root id = Some (parent, i) -> exists node, root = Some node /\ place_of node parent i id.
Proof.
  destruct root as [[pane|split]|]; simpl; [..|done].
  - case_decide as E; [|done]. intros [= <- <-]. exists (NPane pane). simpl. by rewrite E.
  - intros ([path j] & Hf & [= -> ->])%fmap_Some.
    destruct (find_pane_Some (NSplit split) _ _ _ _ Hf) as (rel & -> & Hat). by eexists.
Qed.

Lemma locate_in_None root id : locate_in root id = None <-> id ∉ pane_ids root.
Proof.
  destruct root as [[pane|split]|]; simpl.
  - case_decide; [|]; rewrite list_elem_of_singleton; split; congruence.
  - rewrite fmap_None. split.
    + intros Hf. apply (find_pane_None (NSplit split) _ [] Hf). by eexists.
    + intros Hn. destruct (find_kids _ _ _ _ _) as [[path i]|] eqn:Hf; [|done]. exfalso. apply Hn.
      destruct (find_pane_Some (NSplit split) id [] path i Hf) as (rel & _ & s & kid & Hs & Hk & Hc).
      destruct (split_mut_ids _ _ _ Hs) as (l1 & l2 & Hids & _). simpl in Hids. rewrite Hids.
      apply elem_of_app; right. apply elem_of_app; left. apply split_lookup in Hk.
      unfold split_ids. rewrite Hk, kids_ids_app, kids_ids_cons, Hc. set_solver.
  - split; [|done]. intros _ H. by apply elem_of_nil in H.
Qed.

Lemma locate_in_is_Some root id : id ∈ pane_ids root -> is_Some (locate_in root id).
Proof.
  intros H. destruct (locate_in root id) eqn:E; [by eexists|]. by apply locate_in_None in E.
Qed.

(** Changing a split so that the leaf [id] at index [i] becomes the leaves [new] does the
    same to the whole tree's leaves. *)
Lemma pane_at_update root path i id f new :
  pane_at root path i id ->
  (forall split kid, split_kids split !! i = Some kid -> child_node kid = NPane id ->
     exists split', f split = Some split' /\
       split_ids split' = kids_ids (take i (split_kids split)) ++ new ++ kids_ids (drop (S i) (split_kids split))) ->
  exists split split' root' l1 l2,
    split_at root path = Some split /\ f split = Some split' /\
    split_mut root path f = Some root' /\
    collect root = l1 ++ [id] ++ l2 /\ collect root' = l1 ++ new ++ l2.
Proof.
  intros (split & kid & Hs & Hk & Hn) Hf.
  destruct (Hf split kid Hk Hn) as (split' & Hfs & Hids).
  destruct (split_mut_ids _ _ _ Hs) as (l1 & l2 & Hroot & Hmut).
  destruct (Hmut f split' Hfs) as (root' & Hr & Hr').
  exists split, split', root', (l1 ++ kids_ids (take i (split_kids split))),
    (kids_ids (drop (S i) (split_kids split)) ++ l2).
  split_and!; try done.
  - rewrite Hroot. unfold split_ids. rewrite (split_lookup _ _ _ Hk) at 1.
    rewrite kids_ids_app, kids_ids_cons, Hn, <- !(assoc_L (++)). done.
  - rewrite Hr', Hids, <- !(assoc_L (++)). done.
Qed.
