(* ===== verification/Tabs.v ===== *)
(** * Tabs: [crates/kanna-mux/src/tabs.rs]

    A [Tab] holds a split tree, a [Tabs] is the tab bar of a window or of a workspace:
    its tabs, which one is active, which pane has the focus.  A function that indexes a
    vector is [option]-valued, and [None] is the out-of-bounds panic. *)

From S2P Require Import Prelude Text F64 Json Pane Panes Tree.

Record Tab := mkTab {
  tab_id : string;
  tab_title : string;
  tab_root : option Node;
  tab_last_focus : option string;
  tab_number : N;
  tab_namer : option string;
  tab_renamed : bool }.

Definition numbered_title (n : N) : string := "Tab " +:+ pretty n.

Definition tab_new (id : string) (number : N) : Tab :=
  mkTab id (numbered_title number) None None number None false.

Definition set_tab_root (tab : Tab) (root : option Node) : Tab :=
  mkTab (tab_id tab) (tab_title tab) root (tab_last_focus tab) (tab_number tab) (tab_namer tab) (tab_renamed tab).
Definition set_tab_last_focus (tab : Tab) (focus : option string) : Tab :=
  mkTab (tab_id tab) (tab_title tab) (tab_root tab) focus (tab_number tab) (tab_namer tab) (tab_renamed tab).

Definition tab_rename (tab : Tab) (title : string) : Tab :=
  mkTab (tab_id tab) title (tab_root tab) (tab_last_focus tab) (tab_number tab) (tab_namer tab) true.

Definition tab_panes (tab : Tab) : list string := pane_ids (tab_root tab).

(** The new tab, and whether its title changed. *)
Definition tab_retitle (panes : Panes) (tab : Tab) : bool * Tab :=
  let ids := tab_panes tab in
  let namer := match tab_namer tab with
               | Some n => if contains ids n then Some n else head ids
               | None => head ids
               end in
  if tab_renamed tab then
    (false, mkTab (tab_id tab) (tab_title tab) (tab_root tab) (tab_last_focus tab) (tab_number tab) namer true)
  else
    let title := default (numbered_title (tab_number tab))
                   (n ← namer; p ← panes_get panes n; tab_name p) in
    (negb (bool_decide (title = tab_title tab)),
     mkTab (tab_id tab) title (tab_root tab) (tab_last_focus tab) (tab_number tab) namer (tab_renamed tab)).

Record Tabs := mkTabs {
  tabs_tabs : list Tab;
  tabs_active : option string;
  tabs_focused : option string;
  tabs_zoom : bool;
  tabs_count : N;
  tabs_recent : list string }.

Definition tabs_default : Tabs := mkTabs [] None None false 0 [].

Definition set_tabs (ts : Tabs) (l : list Tab) : Tabs :=
  mkTabs l (tabs_active ts) (tabs_focused ts) (tabs_zoom ts) (tabs_count ts) (tabs_recent ts).
Definition set_active (ts : Tabs) (a : option string) : Tabs :=
  mkTabs (tabs_tabs ts) a (tabs_focused ts) (tabs_zoom ts) (tabs_count ts) (tabs_recent ts).
Definition set_focused (ts : Tabs) (f : option string) : Tabs :=
  mkTabs (tabs_tabs ts) (tabs_active ts) f (tabs_zoom ts) (tabs_count ts) (tabs_recent ts).
Definition set_zoom (ts : Tabs) (z : bool) : Tabs :=
  mkTabs (tabs_tabs ts) (tabs_active ts) (tabs_focused ts) z (tabs_count ts) (tabs_recent ts).
Definition set_count (ts : Tabs) (c : N) : Tabs :=
  mkTabs (tabs_tabs ts) (tabs_active ts) (tabs_focused ts) (tabs_zoom ts) c (tabs_recent ts).
Definition set_recent (ts : Tabs) (r : list string) : Tabs :=
  mkTabs (tabs_tabs ts) (tabs_active ts) (tabs_focused ts) (tabs_zoom ts) (tabs_count ts) r.

(** ** Queries *)

Definition is_active (ts : Tabs) (tab : Tab) : bool := bool_decide (Some (tab_id tab) = tabs_active ts).

Definition active_index (ts : Tabs) : option nat :=
  or_else (position (is_active ts) (tabs_tabs ts))
    (match tabs_tabs ts with [] => None | _ => Some 0 end).

Definition active_tab (ts : Tabs) : option Tab := i ← active_index ts; tabs_tabs ts !! i.

Definition shown (ts : Tabs) : list string := pane_ids (t ← active_tab ts; tab_root t).

Definition tabs_panes (ts : Tabs) : list string := flat_map tab_panes (tabs_tabs ts).

Definition tabs_position (ts : Tabs) (tab : string) : option nat :=
  position (fun t => bool_decide (tab_id t = tab)) (tabs_tabs ts).

Definition zoomed (ts : Tabs) : option string := if tabs_zoom ts then tabs_focused ts else None.

Definition tabs_locate (ts : Tabs) (id : string) : option (nat * option (list nat) * nat) :=
  find_map_from (fun t tab =>
    (fun '(parent, index) => (t, parent, index)) <$> locate_in (tab_root tab) id) 0 (tabs_tabs ts).

(** ** Changes *)

(** A change of [self.tabs[t]]. *)
Definition alter_tab (ts : Tabs) (t : nat) (f : Tab -> option Tab) : option Tabs :=
  tab ← tabs_tabs ts !! t;
  tab' ← f tab;
  Some (set_tabs ts (<[t := tab']> (tabs_tabs ts))).

(** The pane a tab shows the focus in: its last one if it is still there, else its first. *)
Definition tab_focus (tab : Tab) : option string :=
  let ids := tab_panes tab in
  or_else (l ← tab_last_focus tab; if contains ids l then Some l else None) (head ids).

Definition tabs_show (ts : Tabs) (t : nat) : option Tabs :=
  tab ← tabs_tabs ts !! t;
  Some (set_focused (set_active ts (Some (tab_id tab))) (tab_focus tab)).

Definition tabs_focus (ts : Tabs) (id : string) : Tabs :=
  let ts := match tabs_locate ts id with
            | Some (t, _, _) =>
              match tabs_tabs ts !! t with
              | Some tab =>
                set_active (set_tabs ts (<[t := set_tab_last_focus tab (Some id)]> (tabs_tabs ts)))
                  (Some (tab_id tab))
              | None => ts
              end
            | None => ts
            end in
  set_focused ts (Some id).

Definition tabs_remember (ts : Tabs) : Tabs :=
  let ids := tabs_panes ts in
  let recent :=
    match tabs_focused ts with
    | Some focused =>
      if contains ids focused then
        if decide (head (tabs_recent ts) = Some focused) then tabs_recent ts
        else focused :: retain (fun id => negb (bool_decide (id = focused))) (tabs_recent ts)
      else tabs_recent ts
    | None => tabs_recent ts
    end in
  set_recent ts (retain (contains ids) recent).

Definition latest (ts : Tabs) (among : list string) : option string :=
  match List.find (fun id => bool_decide (Some id = tabs_focused ts)) among with
  | Some focused => Some focused
  | None =>
    or_else (find_map (fun id => List.find (fun a => bool_decide (a = id)) among) (tabs_recent ts))
      (head among)
  end.

Definition settle_focus (ts : Tabs) (beside : option string) : Tabs :=
  let ids := shown ts in
  if match tabs_focused ts with
     | Some f => contains ids f || bool_decide (Some f = beside)
     | None => false
     end
  then ts
  else
    let last := t ← active_tab ts; l ← tab_last_focus t; if contains ids l then Some l else None in
    set_focused ts (or_else last (or_else (head ids) beside)).

Definition has_root (tab : Tab) : bool := bool_decide (is_Some (tab_root tab)).

Definition tidy (ts : Tabs) : Tabs :=
  let at_ := default 0 (position (is_active ts) (tabs_tabs ts)) in
  let l := retain has_root (tabs_tabs ts) in
  let ts := set_tabs ts l in
  if existsb (is_active ts) l then ts
  else set_active ts (t ← l !! (at_ `min` (length l - 1)); Some (tab_id t)).

(** The sizes of a split's kids once one of size [gone] has left it. *)
Definition close_gap (gone : f64) (kids : list NChild) : list NChild :=
  let count := f_of_nat (length kids) in
  map (fun kid => set_child_size kid
         (if flt gone f1 then fdiv (child_size kid) (fsub f1 gone) else fdiv f1 count)) kids.

Definition remove_kid (index : nat) (parent : NSplit_) : option NSplit_ :=
  kid ← split_kids parent !! index;
  Some (mkSplit (split_axis parent) (close_gap (child_size kid) (delete index (split_kids parent)))).

Definition tabs_remove (ts : Tabs) (id : string) : option (bool * Tabs) :=
  match tabs_locate ts id with
  | None => Some (false, ts)
  | Some (t, parent, index) =>
    ts' ← alter_tab ts t (fun tab =>
      match parent with
      | Some path =>
        root ← tab_root tab;
        root' ← split_mut root path (remove_kid index);
        Some (set_tab_root tab (Some (normalize root')))
      | None => Some (set_tab_root tab None)
      end);
    Some (true, ts')
  end.

(** A pane split in two along [axis], the newcomer after it or before it. *)
Definition split_pane (node : Node) (beside : string) (axis : Axis) (after : bool) (size : f64) : Node :=
  let kids := [mkChild (NPane beside) (fsub f1 size); mkChild node size] in
  NSplit (mkSplit axis (if after then kids else rev kids)).

Definition insert_kid (node : Node) (beside : string) (axis : Axis) (after : bool) (size : f64)
    (index : nat) (split : NSplit_) : option NSplit_ :=
  kid ← split_kids split !! index;
  if decide (split_axis split = axis) then
    let share := child_size kid in
    let kids := <[index := set_child_size kid (fmul share (fsub f1 size))]> (split_kids split) in
    Some (mkSplit axis (vec_insert (index + if after then 1 else 0) (mkChild node (fmul share size)) kids))
  else
    Some (mkSplit (split_axis split)
            (<[index := set_child_node kid (split_pane node beside axis after size)]> (split_kids split))).

Definition tabs_insert (ts : Tabs) (node : Node) (beside : string) (t : nat) (axis : Axis)
    (after : bool) (size : f64) : option Tabs :=
  alter_tab ts t (fun tab =>
    match locate_in (tab_root tab) beside with
    | None => Some tab
    | Some (Some path, index) =>
      root ← tab_root tab;
      root' ← split_mut root path (insert_kid node beside axis after size index);
      Some (set_tab_root tab (Some root'))
    | Some (None, _) => Some (set_tab_root tab (Some (split_pane node beside axis after size)))
    end).

Definition f_half_ : f64 := f_dec 5 (-1).

Definition append_root (id : string) (root : option Node) : Node :=
  let pane := NPane id in
  match root with
  | None => pane
  | Some (NSplit (mkSplit Row kids)) =>
    let count := f_of_nat (length kids) in
    NSplit (mkSplit Row
      (map (fun kid => set_child_size kid (fmul (child_size kid) (fdiv count (fadd count f1)))) kids
       ++ [mkChild pane (fdiv f1 (fadd count f1))]))
  | Some root => NSplit (mkSplit Row [mkChild root f_half_; mkChild pane f_half_])
  end.

Definition tabs_append (ts : Tabs) (id : string) (t : nat) : option Tabs :=
  alter_tab ts t (fun tab => Some (set_tab_root tab (Some (append_root id (tab_root tab))))).

Definition set_kid (index : nat) (id : string) (split : NSplit_) : option NSplit_ :=
  kid ← split_kids split !! index;
  Some (mkSplit (split_axis split) (<[index := set_child_node kid (NPane id)]> (split_kids split))).

Definition tabs_set_at (ts : Tabs) (t : nat) (parent : option (list nat)) (index : nat) (id : string) : option Tabs :=
  alter_tab ts t (fun tab =>
    match parent with
    | Some path =>
      root ← tab_root tab;
      root' ← split_mut root path (set_kid index id);
      Some (set_tab_root tab (Some root'))
    | None => Some (set_tab_root tab (Some (NPane id)))
    end).

(** ** What the changes do to the panes

    [swaps_panes ts ts' old new]: the panes of [ts'] are those of [ts] with one stretch
    [old] replaced by [new], every other pane in its place. *)

Definition swaps_panes (ts ts' : Tabs) (old new : list string) : Prop :=
  exists l1 l2, tabs_panes ts = l1 ++ old ++ l2 /\ tabs_panes ts' = l1 ++ new ++ l2.

Definition tab_ids (ts : Tabs) : list string := map tab_id (tabs_tabs ts).

Definition tab_wf (tab : Tab) : Prop := forall root, tab_root tab = Some root -> node_wf root.
Definition tabs_wf (ts : Tabs) : Prop := Forall tab_wf (tabs_tabs ts).

(** What a change that stays inside one tab keeps. *)
Record tabs_kept (ts ts' : Tabs) : Prop := {
  kept_ids : tab_ids ts' = tab_ids ts;
  kept_active : tabs_active ts' = tabs_active ts;
  kept_focused : tabs_focused ts' = tabs_focused ts;
  kept_count : tabs_count ts' = tabs_count ts }.

Lemma swaps_panes_perm ts ts' old new :
  swaps_panes ts ts' old new -> tabs_panes ts' ++ old ≡ₚ tabs_panes ts ++ new.
Proof. intros (l1 & l2 & -> & ->). solve_Permutation. Qed.

Lemma alter_tab_spec ts t tab f tab' old new :
  tabs_tabs ts !! t = Some tab -> f tab = Some tab' -> tab_id tab' = tab_id tab ->
  (exists l1 l2, tab_panes tab = l1 ++ old ++ l2 /\ tab_panes tab' = l1 ++ new ++ l2) ->
  exists ts', alter_tab ts t f = Some ts' /\ swaps_panes ts ts' old new /\ tabs_kept ts ts' /\
    tabs_tabs ts' !! t = Some tab' /\ (tabs_wf ts -> tab_wf tab' -> tabs_wf ts').
Proof.
  intros Ht Hf Hid (l1 & l2 & Hp & Hp'). unfold alter_tab. rewrite Ht. simpl. rewrite Hf. simpl.
  eexists; split; [done|].
  assert (t < length (tabs_tabs ts)) as Hlt by (by eapply lookup_lt_Some).
  split_and!.
  - exists (flat_map tab_panes (take t (tabs_tabs ts)) ++ l1),
      (l2 ++ flat_map tab_panes (drop (S t) (tabs_tabs ts))).
    unfold tabs_panes. split.
    + rewrite (split_lookup _ _ _ Ht) at 1. rewrite flat_map_app. simpl.
      rewrite Hp, <- !(assoc_L (++)). done.
    + simpl. rewrite insert_take_drop by done. rewrite flat_map_app. simpl.
      rewrite Hp', <- !(assoc_L (++)). done.
  - split; try done. unfold tab_ids. simpl. rewrite (list_fmap_insert tab_id), Hid.
    apply list_insert_id. unfold fmap. by rewrite list_lookup_fmap, Ht.
  - simpl. by apply list_lookup_insert_eq.
  - intros Hwf Htab. unfold tabs_wf. simpl. by apply Forall_insert.
Qed.

(** ** Locating a pane *)

Lemma tabs_locate_Some ts id t parent i :
  tabs_locate ts id = Some (t, parent, i) ->
  exists tab root, tabs_tabs ts !! t = Some tab /\ tab_root tab = Some root /\
    locate_in (Some root) id = Some (parent, i) /\ place_of root parent i id.
Proof.
  intros (j & tab & Hj & Hf)%find_map_from_Some.
  apply fmap_Some in Hf as ([p k] & Hl & E). injection E as -> -> ->.
  destruct (locate_in_Some _ _ _ _ Hl) as (root & Hr & Hp). rewrite Hr in Hl. by exists tab, root.
Qed.

Lemma tabs_locate_None ts id : tabs_locate ts id = None <-> id ∉ tabs_panes ts.
Proof.
  unfold tabs_locate, tabs_panes. generalize 0 as t. induction (tabs_tabs ts) as [|tab l IH]; intros t; simpl.
  - split; [|done]. intros _ H. by apply elem_of_nil in H.
  - unfold tab_panes at 1. rewrite not_elem_of_app.
    destruct (locate_in (tab_root tab) id) as [[p i]|] eqn:E; simpl.
    + split; [done|]. intros [H _]. by apply locate_in_None in H; rewrite E in H.
    + rewrite IH. apply locate_in_None in E. tauto.
Qed.

Lemma tabs_locate_is_Some ts id : id ∈ tabs_panes ts -> is_Some (tabs_locate ts id).
Proof.
  intros H. destruct (tabs_locate ts id) eqn:E; [by eexists|]. by apply tabs_locate_None in E.
Qed.

Lemma tabs_locate_elem ts id t parent i tab :
  tabs_locate ts id = Some (t, parent, i) -> tabs_tabs ts !! t = Some tab -> id ∈ tab_panes tab.
Proof.
  intros (tab' & root & Ht & Hr & Hl & _)%tabs_locate_Some Htab.
  assert (tab' = tab) as -> by congruence.
  destruct (decide (id ∈ tab_panes tab)) as [|Hn]; [done|]. unfold tab_panes in Hn.
  apply locate_in_None in Hn. rewrite Hr in Hn. congruence.
Qed.

(** ** Sizes do not matter to the panes *)

Lemma resized_ids kids (f : NChild -> f64) : kids_ids (map (fun kid => set_child_size kid (f kid)) kids) = kids_ids kids.
Proof. unfold kids_ids. induction kids as [|kid kids IH]; simpl; [done|]. by rewrite IH. Qed.

Lemma resized_nodes (P : Node -> Prop) kids (f : NChild -> f64) :
  Forall (fun c => P (child_node c)) kids ->
  Forall (fun c => P (child_node c)) (map (fun kid => set_child_size kid (f kid)) kids).
Proof.
  intros H. apply Forall_forall. intros c (kid & -> & Hin)%list_elem_of_fmap.
  rewrite Forall_forall in H. by apply (H kid).
Qed.

Lemma close_gap_ids gone kids : kids_ids (close_gap gone kids) = kids_ids kids.
Proof. apply resized_ids. Qed.

Lemma close_gap_length gone kids : length (close_gap gone kids) = length kids.
Proof. apply length_map. Qed.

Lemma close_gap_nodes (P : Node -> Prop) gone kids :
  Forall (fun c => P (child_node c)) kids -> Forall (fun c => P (child_node c)) (close_gap gone kids).
Proof. apply resized_nodes. Qed.

(** ** [remove] *)

Lemma remove_kid_spec split i kid id :
  split_kids split !! i = Some kid -> child_node kid = NPane id ->
  exists split', remove_kid i split = Some split' /\
    split_ids split' = kids_ids (take i (split_kids split)) ++ [] ++ kids_ids (drop (S i) (split_kids split)).
Proof.
  intros Hk _. unfold remove_kid. rewrite Hk. simpl. eexists; split; [done|].
  unfold split_ids. simpl. by rewrite close_gap_ids, delete_split, kids_ids_app.
Qed.

Lemma remove_kid_full split i split' :
  node_wf (NSplit split) -> remove_kid i split = Some split' -> node_full (NSplit split').
Proof.
  intros Hwf (kid & Hk & [= <-])%bind_Some. inversion Hwf as [|axis kids Hlen Hall]; subst. simpl in *.
  constructor.
  - intros E%(f_equal length). rewrite close_gap_length, length_delete in E by (by eexists).
    simpl in E. lia.
  - apply close_gap_nodes, Forall_delete. eapply Forall_impl; [done|]. intros c. apply node_full_wf.
Qed.

(** [remove] never panics; it takes out a pane that is there, and only that one. *)
Lemma tabs_remove_spec ts id :
  tabs_wf ts ->
  (id ∉ tabs_panes ts /\ tabs_remove ts id = Some (false, ts)) \/
  (id ∈ tabs_panes ts /\ exists ts', tabs_remove ts id = Some (true, ts') /\
     swaps_panes ts ts' [id] [] /\ tabs_kept ts ts' /\ tabs_wf ts').
Proof.
  intros Hwf. unfold tabs_remove.
  destruct (tabs_locate ts id) as [[[t parent] i]|] eqn:Hl.
  2: { left. by apply tabs_locate_None in Hl. }
  right. split.
  { destruct (decide (id ∈ tabs_panes ts)) as [|Hn]; [done|].
    apply tabs_locate_None in Hn. congruence. }
  destruct (tabs_locate_Some _ _ _ _ _ Hl) as (tab & root & Ht & Hr & _ & Hp).
  assert (node_wf root) as Hroot.
  { unfold tabs_wf in Hwf. rewrite Forall_forall in Hwf. apply (Hwf tab); [|done].
    by eapply list_elem_of_lookup_2. }
  destruct parent as [path|]; simpl in Hp.
  - destruct (pane_at_update root path i id (remove_kid i) [] Hp) as (sp & sp' & root' & l1 & l2 & Hs & Hf & Hm & H1 & H2).
    { intros split kid Hk Hn. by eapply remove_kid_spec. }
    destruct (alter_tab_spec ts t tab (fun tab =>
        root ← tab_root tab; root' ← split_mut root path (remove_kid i);
        Some (set_tab_root tab (Some (normalize root'))))
        (set_tab_root tab (Some (normalize root'))) [id] []) as (ts' & Ha & Hsw & Hk & _ & Hw).
    { done. }
    { rewrite Hr. simpl. by rewrite Hm. }
    { done. }
    { exists l1, l2. unfold tab_panes. rewrite Hr. simpl. by rewrite normalize_ids. }
    rewrite Ha. simpl. eexists; split_and!; [done|done|done|]. apply Hw; [done|].
    intros r [= <-]. apply normalize_wf.
    eapply split_mut_wf; [done..|]. eapply remove_kid_full; [|done]. by eapply split_at_wf.
  - destruct (alter_tab_spec ts t tab (fun tab => Some (set_tab_root tab None))
        (set_tab_root tab None) [id] []) as (ts' & Ha & Hsw & Hk & _ & Hw); try done.
    { exists [], []. unfold tab_panes. by rewrite Hr, Hp. }
    rewrite Ha. simpl. eexists; split_and!; [done|done|done|]. by apply Hw.
Qed.

(** ** [insert], [append] and [set_at] *)

(** The panes where [beside] was, once [node] is put after it or before it. *)
Definition beside_ids (beside : string) (node : Node) (after : bool) : list string :=
  if after then [beside] ++ collect node else collect node ++ [beside].

Lemma split_pane_ids node beside axis after size :
  collect (split_pane node beside axis after size) = beside_ids beside node after.
Proof. destruct after; simpl; by rewrite ?app_nil_r. Qed.

Lemma split_pane_wf node beside axis after size :
  node_wf node -> node_wf (split_pane node beside axis after size).
Proof.
  intros H. unfold split_pane. destruct after; simpl; constructor; simpl; try lia;
    repeat constructor; done.
Qed.

Lemma insert_kid_spec node beside axis after size split i kid :
  split_kids split !! i = Some kid -> child_node kid = NPane beside ->
  exists split', insert_kid node beside axis after size i split = Some split' /\
    split_ids split' = kids_ids (take i (split_kids split)) ++ beside_ids beside node after
                       ++ kids_ids (drop (S i) (split_kids split)).
Proof.
  intros Hk Hn. unfold insert_kid. rewrite Hk. cbn [mbind option_bind]. case_decide.
  - eexists; split; [done|]. unfold split_ids. cbn [split_kids].
    rewrite (vec_insert_replaced _ _ _ _ _ _ Hk), !kids_ids_app. f_equal.
    unfold beside_ids. destruct after; unfold kids_ids; cbn -[flat_map]; simpl; rewrite Hn;
      by rewrite <- ?(assoc_L (++)).
  - eexists; split; [done|]. unfold split_ids. cbn [split_kids].
    rewrite (insert_split _ _ _ _ Hk), kids_ids_app, kids_ids_cons.
    cbn [set_child_node child_node]. by rewrite split_pane_ids.
Qed.

Lemma insert_kid_wf node beside axis after size split i split' :
  node_wf (NSplit split) -> node_wf node ->
  insert_kid node beside axis after size i split = Some split' -> node_wf (NSplit split').
Proof.
  intros Hwf Hnode (kid & Hk & Hs)%bind_Some. inversion Hwf as [|ax kids Hlen Hall]; subst.
  cbn [split_kids split_axis] in *.
  assert (node_wf (child_node kid)) as Hkid.
  { rewrite Forall_forall in Hall. apply (Hall kid). by eapply list_elem_of_lookup_2. }
  case_decide; simplify_eq; constructor.
  - rewrite (vec_insert_replaced _ _ _ _ _ _ Hk), !length_app.
    pose proof (f_equal length (split_lookup _ _ _ Hk)) as Hl. rewrite length_app in Hl.
    destruct after; simpl in *; lia.
  - rewrite (vec_insert_replaced _ _ _ _ _ _ Hk). rewrite !Forall_app.
    rewrite (split_lookup _ _ _ Hk), Forall_app, Forall_cons in Hall. destruct Hall as (H1 & _ & H2).
    split_and!; [done| |done]. destruct after; repeat constructor; done.
  - by rewrite length_insert.
  - apply Forall_insert; [done|]. by apply split_pane_wf.
Qed.

Lemma tabs_insert_spec ts node beside t tab axis after size :
  tabs_tabs ts !! t = Some tab -> beside ∈ tab_panes tab ->
  exists ts', tabs_insert ts node beside t axis after size = Some ts' /\
    swaps_panes ts ts' [beside] (beside_ids beside node after) /\ tabs_kept ts ts' /\
    (tabs_wf ts -> node_wf node -> tabs_wf ts').
Proof.
  intros Ht Hin. destruct (locate_in_is_Some _ _ Hin) as [[parent i] Hl].
  destruct (locate_in_Some _ _ _ _ Hl) as (root & Hr & Hp). unfold tabs_insert.
  destruct parent as [path|]; simpl in Hp.
  - destruct (pane_at_update root path i beside (insert_kid node beside axis after size i)
      (beside_ids beside node after) Hp) as (sp & sp' & root' & l1 & l2 & Hs & Hf & Hm & H1 & H2).
    { intros split kid Hk Hn. by eapply insert_kid_spec. }
    match goal with |- context [alter_tab ts t ?f] =>
      destruct (alter_tab_spec ts t tab f (set_tab_root tab (Some root')) [beside]
        (beside_ids beside node after)) as (ts' & Ha & Hsw & Hk & _ & Hw) end.
    { done. }
    { rewrite Hl, Hr. simpl. rewrite Hm. done. }
    { done. }
    { exists l1, l2. unfold tab_panes. rewrite Hr. done. }
    exists ts'. split_and!; [done..|]. intros Hwf Hnode. apply Hw; [done|]. intros r [= <-].
    assert (node_wf root) as Hroot.
    { unfold tabs_wf in Hwf. rewrite Forall_forall in Hwf. apply (Hwf tab); [|done].
      by eapply list_elem_of_lookup_2. }
    eapply split_mut_wf_strong; [exact Hs|exact Hf|exact Hm|done|].
    eapply insert_kid_wf; [|exact Hnode|exact Hf]. by eapply split_at_wf.
  - match goal with |- context [alter_tab ts t ?f] =>
      destruct (alter_tab_spec ts t tab f (set_tab_root tab (Some (split_pane node beside axis after size)))
        [beside] (beside_ids beside node after)) as (ts' & Ha & Hsw & Hk & _ & Hw) end.
    { done. }
    { by rewrite Hl. }
    { done. }
    { exists [], []. unfold tab_panes. rewrite Hr, Hp. cbn [set_tab_root tab_root pane_ids].
      rewrite split_pane_ids. simpl. by rewrite app_nil_r. }
    exists ts'. split_and!; [done..|]. intros Hwf Hnode. apply Hw; [done|]. intros r [= <-].
    by apply split_pane_wf.
Qed.

Lemma append_root_ids id root : collect (append_root id root) = pane_ids root ++ [id].
Proof.
  destruct root as [[p|[[] kids]]|]; try done; simpl.
  - fold (kids_ids (map (fun kid => set_child_size kid (fmul (child_size kid)
      (fdiv (f_of_nat (length kids)) (fadd (f_of_nat (length kids)) f1)))) kids ++
      [mkChild (NPane id) (fdiv f1 (fadd (f_of_nat (length kids)) f1))])).
    by rewrite kids_ids_app, resized_ids.
Qed.

Lemma append_root_wf id root : (forall r, root = Some r -> node_wf r) -> node_wf (append_root id root).
Proof.
  intros H. destruct root as [[p|[[] kids]]|]; [| | |constructor]; specialize (H _ eq_refl).
  - constructor; simpl; [lia|]. repeat constructor.
  - inversion_clear H as [|? ? Hlen Hall]. unfold append_root. constructor.
    + rewrite length_app, length_map. simpl. lia.
    + apply Forall_app. split; [by apply resized_nodes|]. repeat constructor.
  - constructor; simpl; [lia|]. apply Forall_cons_2; [done|]. repeat constructor.
Qed.

Lemma tabs_append_spec ts id t tab :
  tabs_tabs ts !! t = Some tab ->
  exists ts', tabs_append ts id t = Some ts' /\ swaps_panes ts ts' [] [id] /\ tabs_kept ts ts' /\
    (tabs_wf ts -> tabs_wf ts').
Proof.
  intros Ht. unfold tabs_append.
  match goal with |- context [alter_tab ts t ?f] =>
    destruct (alter_tab_spec ts t tab f (set_tab_root tab (Some (append_root id (tab_root tab)))) [] [id])
      as (ts' & Ha & Hsw & Hk & _ & Hw); try done end.
  { exists (tab_panes tab), []. unfold tab_panes. cbn [set_tab_root tab_root pane_ids].
    rewrite append_root_ids, !app_nil_r. done. }
  exists ts'. split_and!; [done..|]. intros Hwf. apply Hw; [done|]. intros r [= <-].
  apply append_root_wf. intros r Hr. unfold tabs_wf in Hwf. rewrite Forall_forall in Hwf.
  apply (Hwf tab); [|done]. by eapply list_elem_of_lookup_2.
Qed.

Lemma set_kid_spec split i kid old id :
  split_kids split !! i = Some kid -> child_node kid = NPane old ->
  exists split', set_kid i id split = Some split' /\
    split_ids split' = kids_ids (take i (split_kids split)) ++ [id] ++ kids_ids (drop (S i) (split_kids split)).
Proof.
  intros Hk _. unfold set_kid. rewrite Hk. simpl. eexists; split; [done|].
  unfold split_ids. simpl. by rewrite (insert_split _ _ _ _ Hk), kids_ids_app, kids_ids_cons.
Qed.

Lemma set_kid_wf split i id split' :
  node_wf (NSplit split) -> set_kid i id split = Some split' -> node_wf (NSplit split').
Proof.
  intros Hwf (kid & Hk & [= <-])%bind_Some. inversion Hwf as [|axis kids Hlen Hall]; subst. simpl in *.
  constructor; [by rewrite length_insert|]. apply Forall_insert; [done|constructor].
Qed.

(** Writing a pane over the one at a place [locate] gave. *)
Lemma tabs_set_at_spec ts t tab root parent i old id :
  tabs_tabs ts !! t = Some tab -> tab_root tab = Some root -> place_of root parent i old ->
  exists ts', tabs_set_at ts t parent i id = Some ts' /\ swaps_panes ts ts' [old] [id] /\
    tabs_kept ts ts' /\ (tabs_wf ts -> tabs_wf ts').
Proof.
  intros Ht Hr Hp. unfold tabs_set_at. destruct parent as [path|]; simpl in Hp.
  - destruct (pane_at_update root path i old (set_kid i id) [id] Hp)
      as (sp & sp' & root' & l1 & l2 & Hs & Hf & Hm & H1 & H2).
    { intros split kid Hk Hn. by eapply set_kid_spec. }
    match goal with |- context [alter_tab ts t ?f] =>
      destruct (alter_tab_spec ts t tab f (set_tab_root tab (Some root')) [old] [id])
        as (ts' & Ha & Hsw & Hk & _ & Hw) end.
    { done. }
    { rewrite Hr. simpl. rewrite Hm. done. }
    { done. }
    { exists l1, l2. unfold tab_panes. rewrite Hr. done. }
    exists ts'. split_and!; [done..|]. intros Hwf. apply Hw; [done|]. intros r [= <-].
    assert (node_wf root) as Hroot by (eapply Forall_lookup_1 in Hwf; [by apply Hwf|done]).
    eapply split_mut_wf_strong; [exact Hs|exact Hf|exact Hm|done|].
    eapply set_kid_wf; [|exact Hf]. by eapply split_at_wf.
  - match goal with |- context [alter_tab ts t ?f] =>
      destruct (alter_tab_spec ts t tab f (set_tab_root tab (Some (NPane id))) [old] [id])
        as (ts' & Ha & Hsw & Hk & _ & Hw); try done end.
    { exists [], []. unfold tab_panes. by rewrite Hr, Hp. }
    exists ts'. split_and!; [done..|]. intros Hwf. apply Hw; [done|]. intros r [= <-]. constructor.
Qed.

(** ** Changes that leave every tree alone

    Focusing, showing a tab, remembering and naming tabs keep the tabs' ids and trees. *)

Definition tabs_shape (ts : Tabs) : list (string * option Node) :=
  map (fun tab => (tab_id tab, tab_root tab)) (tabs_tabs ts).

Definition same_shape (ts ts' : Tabs) : Prop :=
  tabs_shape ts' = tabs_shape ts /\ tabs_count ts' = tabs_count ts.

Lemma same_shape_refl ts : same_shape ts ts.
Proof. done. Qed.

Lemma same_shape_trans a b c : same_shape a b -> same_shape b c -> same_shape a c.
Proof. unfold same_shape. intros [-> ->] [-> ->]. done. Qed.

Lemma shape_ids ts : tab_ids ts = map fst (tabs_shape ts).
Proof. unfold tab_ids, tabs_shape. by rewrite map_map. Qed.

Lemma shape_panes ts : tabs_panes ts = flat_map (fun p => pane_ids (snd p)) (tabs_shape ts).
Proof. unfold tabs_panes, tabs_shape. rewrite !flat_map_concat_map, map_map. done. Qed.

Lemma shape_wf ts :
  tabs_wf ts <-> Forall (fun p : string * option Node => forall root, snd p = Some root -> node_wf root) (tabs_shape ts).
Proof. unfold tabs_wf, tabs_shape. rewrite Forall_map. done. Qed.

Lemma same_shape_panes ts ts' : same_shape ts ts' -> tabs_panes ts' = tabs_panes ts.
Proof. rewrite !shape_panes. by intros [-> _]. Qed.
Lemma same_shape_ids ts ts' : same_shape ts ts' -> tab_ids ts' = tab_ids ts.
Proof. rewrite !shape_ids. by intros [-> _]. Qed.
Lemma same_shape_wf ts ts' : same_shape ts ts' -> tabs_wf ts -> tabs_wf ts'.
Proof. rewrite !shape_wf. by intros [-> _]. Qed.

Lemma set_tabs_shape ts i tab tab' :
  tabs_tabs ts !! i = Some tab -> tab_id tab' = tab_id tab -> tab_root tab' = tab_root tab ->
  same_shape ts (set_tabs ts (<[i := tab']> (tabs_tabs ts))).
Proof.
  intros Hi Hid Hr. split; [|done]. unfold tabs_shape. simpl.
  rewrite (list_fmap_insert (fun tab => (tab_id tab, tab_root tab))), Hid, Hr.
  apply list_insert_id. unfold fmap. by rewrite list_lookup_fmap, Hi.
Qed.

Lemma tabs_focus_shape ts id : same_shape ts (tabs_focus ts id).
Proof.
  unfold tabs_focus. destruct (tabs_locate ts id) as [[[t parent] i]|]; [|done].
  destruct (tabs_tabs ts !! t) as [tab|] eqn:Ht; [|done].
  by apply (set_tabs_shape ts t tab (set_tab_last_focus tab (Some id)) Ht).
Qed.

Lemma tabs_show_shape ts t ts' : tabs_show ts t = Some ts' -> same_shape ts ts'.
Proof. intros (tab & _ & [= <-])%bind_Some. done. Qed.

Lemma settle_focus_shape ts beside : same_shape ts (settle_focus ts beside).
Proof. unfold settle_focus. by case_match. Qed.

Lemma tabs_remember_shape ts : same_shape ts (tabs_remember ts).
Proof. done. Qed.

Lemma tab_retitle_shape panes tab :
  tab_id (tab_retitle panes tab).2 = tab_id tab /\ tab_root (tab_retitle panes tab).2 = tab_root tab.
Proof. unfold tab_retitle. by destruct (tab_renamed tab). Qed.

(** ** [tidy] *)

Lemma tidy_tabs ts : tabs_tabs (tidy ts) = retain has_root (tabs_tabs ts).
Proof. unfold tidy. by case_match. Qed.

Lemma tidy_panes ts : tabs_panes (tidy ts) = tabs_panes ts.
Proof.
  unfold tabs_panes. rewrite tidy_tabs. unfold retain.
  induction (tabs_tabs ts) as [|tab l IH]; simpl; [done|].
  destruct (has_root tab) eqn:E; simpl; [by rewrite IH|].
  unfold has_root in E. apply bool_decide_eq_false in E. unfold tab_panes at 2.
  destruct (tab_root tab); [by destruct E; eexists|done].
Qed.

Lemma tidy_wf ts : tabs_wf ts -> tabs_wf (tidy ts).
Proof.
  unfold tabs_wf. rewrite tidy_tabs, !Forall_forall. intros H x [_ Hx]%elem_of_retain. auto.
Qed.

Lemma tidy_ids ts : tab_ids (tidy ts) `sublist_of` tab_ids ts.
Proof.
  unfold tab_ids. rewrite tidy_tabs. unfold retain. induction (tabs_tabs ts) as [|tab l IH]; simpl; [constructor|].
  destruct (has_root tab); simpl; [by apply sublist_skip|by apply sublist_cons].
Qed.

Lemma tidy_rooted ts : Forall (fun tab => is_Some (tab_root tab)) (tabs_tabs (tidy ts)).
Proof.
  rewrite tidy_tabs, Forall_forall. intros x [H _]%elem_of_retain. by apply bool_decide_eq_true in H.
Qed.

(** A tab bar that names an active tab among its tabs, when it has any. *)
Definition active_ok (ts : Tabs) : Prop :=
  tabs_tabs ts = [] \/ exists tab, tab ∈ tabs_tabs ts /\ tabs_active ts = Some (tab_id tab).

Lemma tidy_active ts : active_ok (tidy ts).
Proof.
  unfold active_ok, tidy. destruct (existsb _ _) eqn:E; simpl in *.
  - right. apply existsb_exists in E as (tab & Hin%list_elem_of_In & Ha).
    apply bool_decide_eq_true in Ha. by exists tab.
  - destruct (retain has_root (tabs_tabs ts)) as [|tab l] eqn:Hl; [by left|right].
    destruct (lookup_lt_is_Some_2 (tab :: l)
      (default 0 (position (is_active ts) (tabs_tabs ts)) `min` (length (tab :: l) - 1))) as [t Ht]; [simpl; lia|].
    exists t. rewrite Ht. split; [by eapply list_elem_of_lookup_2|done].
Qed.

(** The focus is on a pane the active tab shows, or on the pane beside the tabs. *)
Definition focus_ok (ts : Tabs) (beside : option string) : Prop :=
  match tabs_focused ts with
  | Some f => f ∈ shown ts \/ beside = Some f
  | None => shown ts = [] /\ beside = None
  end.

Lemma head_elem {A} (l : list A) x : head l = Some x -> x ∈ l.
Proof. destruct l; intros [= ->]. left. Qed.

Lemma settle_focus_ok ts beside : focus_ok (settle_focus ts beside) beside.
Proof.
  unfold settle_focus. case_match eqn:E; unfold focus_ok.
  - destruct (tabs_focused ts); [|done]. apply orb_true_iff in E as [E|E].
    + left. by apply contains_true in E.
    + right. by apply bool_decide_eq_true in E.
  - cbn [tabs_focused set_focused]. change (shown (set_focused ts _)) with (shown ts).
    destruct (t ← active_tab ts; l ← tab_last_focus t; if contains (shown ts) l then Some l else None)
      as [f|] eqn:Hlast; simpl.
    + left. apply bind_Some in Hlast as (t & _ & Hl). apply bind_Some in Hl as (l & _ & Hl).
      case_match eqn:Hc; simplify_eq. by apply contains_true in Hc.
    + destruct (head (shown ts)) as [f|] eqn:Hh; simpl; [left; by apply head_elem|].
      destruct beside; [by right|]. by destruct (shown ts).
Qed.

Lemma settle_focus_keeps ts beside :
  focus_ok ts beside -> is_Some (tabs_focused ts) -> settle_focus ts beside = ts.
Proof.
  unfold focus_ok, settle_focus. intros H [f E]. rewrite E in *. case_match eqn:C; [done|].
  apply orb_false_iff in C as [C1%contains_false C2%bool_decide_eq_false].
  destruct H as [H|H]; [done|]. by subst.
Qed.
