(* ===== verification/Workspace.v ===== *)
(** * Workspaces: [crates/kanna-mux/src/workspace.rs], with [Edge] of layout.rs and [Dock]
    and [DeskWindow] of model.rs

    A task's workspace has its agent's pane in a dock, a tab bar and a list of background
    panes; [Where] says which app has it out, or that it is on the shelf. *)

From S2P Require Import Prelude Text F64 Json Pane Panes Tree Tabs.

(** ** Edges *)

Inductive Edge := ELeft | ERight.

#[export] Instance Edge_eq_dec : EqDecision Edge.
Proof. solve_decision. Defined.

Definition edge_as_str (e : Edge) : string :=
  match e with ELeft => "left" | ERight => "right" end.

Definition edge_parse (name : string) : option Edge :=
  if decide (name = "left") then Some ELeft
  else if decide (name = "right") then Some ERight
  else None.

Definition edge_read (value : option Value) : res (option Edge) :=
  match value with
  | None | Some JNull => Ok None
  | Some value => ok_or (Some <$> (s ← as_str value; edge_parse s)) (mkError "bad_request" "dock must be left or right")
  end.

(** ** Docks *)

(** [2.0 / 5.0] and [1.6] *)
Definition DOCK_WIDTH : f64 := fdiv (f_of_Z 2) (f_of_Z 5).
Definition WINDOW_ASPECT : f64 := f_dec 16 (-1).

Record Dock := mkDock {
  dock_pane : string;
  dock_edge : Edge;
  dock_width : f64;
  dock_frozen : bool }.

Definition set_dock_pane (d : Dock) (pane : string) : Dock :=
  mkDock pane (dock_edge d) (dock_width d) (dock_frozen d).
Definition set_dock_edge (d : Dock) (edge : Edge) : Dock :=
  mkDock (dock_pane d) edge (dock_width d) (dock_frozen d).
Definition set_dock_width (d : Dock) (width : f64) : Dock :=
  mkDock (dock_pane d) (dock_edge d) width (dock_frozen d).

(** ** Where a workspace is *)

Definition MAC_APP : string := "mac".

Inductive Where :=
| Desk (app : string)
| Shelf
| Planner (app : string)
| Quiz (app : string).

#[export] Instance Where_eq_dec : EqDecision Where.
Proof. solve_decision. Defined.

Definition where_to_json (w : Where) : Value :=
  match w with
  | Desk app => obj [("desk", JString app)]
  | Shelf => JString "shelf"
  | Planner app => obj [("planner", JString app)]
  | Quiz app => obj [("quiz", JString app)]
  end.

Definition where_read (value : option Value) : option Where :=
  v ← value;
  match v with
  | JString place => if decide (place = "shelf") then Some Shelf else None
  | JObject place =>
    let app key := a ← map_get place key; as_str a in
    or_else (Desk <$> app "desk") (or_else (Planner <$> app "planner") (Quiz <$> app "quiz"))
  | _ => None
  end.

Definition where_upgrade (value : Value) : Value :=
  match value with
  | JString place =>
    if decide (place = "shelf") then obj [("desk", JString MAC_APP)]
    else if decide (place = "backlog") then JString "shelf"
    else value
  | JObject place =>
    match map_get place "shelf" with
    | Some shelf => obj [("desk", shelf)]
    | None => match map_get place "desk" with
              | Some _ => obj [("desk", JString MAC_APP)]
              | None => value
              end
    end
  | _ => value
  end.

Definition where_app (w : Where) : option string :=
  match w with
  | Desk app | Planner app | Quiz app => Some app
  | Shelf => None
  end.

(** ** Workspaces *)

Record Workspace := mkWorkspace {
  ws_id : string;
  ws_dock : Dock;
  ws_tabs : Tabs;
  ws_place : Where;
  ws_left_at : option f64;
  ws_background : list string }.

Definition workspace_new (id : string) (dock : Dock) (place : Where) : Workspace :=
  mkWorkspace id dock tabs_default place None [].

Definition set_ws_dock (ws : Workspace) (d : Dock) : Workspace :=
  mkWorkspace (ws_id ws) d (ws_tabs ws) (ws_place ws) (ws_left_at ws) (ws_background ws).
Definition set_ws_tabs (ws : Workspace) (ts : Tabs) : Workspace :=
  mkWorkspace (ws_id ws) (ws_dock ws) ts (ws_place ws) (ws_left_at ws) (ws_background ws).
Definition set_ws_place (ws : Workspace) (p : Where) : Workspace :=
  mkWorkspace (ws_id ws) (ws_dock ws) (ws_tabs ws) p (ws_left_at ws) (ws_background ws).
Definition set_ws_left_at (ws : Workspace) (t : option f64) : Workspace :=
  mkWorkspace (ws_id ws) (ws_dock ws) (ws_tabs ws) (ws_place ws) t (ws_background ws).
Definition set_ws_background (ws : Workspace) (b : list string) : Workspace :=
  mkWorkspace (ws_id ws) (ws_dock ws) (ws_tabs ws) (ws_place ws) (ws_left_at ws) b.

Definition is_task (ws : Workspace) : bool :=
  match ws_place ws with Planner _ | Quiz _ => false | _ => true end.

Definition ws_summary (ws : Workspace) : Map :=
  [("id", JString (ws_id ws)); ("where", where_to_json (ws_place ws))].

(** The panes a workspace has, in the order [placed] lists them. *)
Definition ws_panes (ws : Workspace) : list string :=
  dock_pane (ws_dock ws) :: tabs_panes (ws_tabs ws) ++ ws_background ws.

(** ** Reading back what was written *)

Lemma edge_roundtrip e : edge_parse (edge_as_str e) = Some e.
Proof. by destruct e. Qed.

Lemma where_roundtrip w : where_read (Some (where_to_json w)) = Some w.
Proof. by destruct w. Qed.
