(* ===== verification/Model.v ===== *)
(** * The layout's state and its queries: [crates/kanna-mux/src/model.rs]

    [Model] is the tree of windows and workspaces.  A [Holder] is an index into one of the
    two vectors; a query that indexes is [option]-valued where the index may be out of
    range, and [None] is then the panic. *)

From S2P Require Import Prelude Text F64 Json Fraction Pane Panes Tree Tabs Workspace.

Record Window := mkWindow {
  win_id : string;
  win_tabs : Tabs;
  win_lead : option Dock;
  win_workspace : option string }.

Definition window_new (id : string) : Window := mkWindow id tabs_default None None.

Definition set_win_tabs (w : Window) (ts : Tabs) : Window :=
  mkWindow (win_id w) ts (win_lead w) (win_workspace w).
Definition set_win_lead (w : Window) (lead : option Dock) : Window :=
  mkWindow (win_id w) (win_tabs w) lead (win_workspace w).
Definition set_win_workspace (w : Window) (ws : option string) : Window :=
  mkWindow (win_id w) (win_tabs w) (win_lead w) ws.

Definition leads (w : Window) (pane : string) : bool :=
  match win_lead w with Some d => bool_decide (dock_pane d = pane) | None => false end.

Inductive Holder := HWindow (w : nat) | HWorkspace (s : nat).

#[export] Instance Holder_eq_dec : EqDecision Holder.
Proof. solve_decision. Defined.

Record Location := mkLocation {
  loc_holder : Holder;
  loc_tab : nat;
  loc_parent : option (list nat);
  loc_index : nat }.

Record DeskWindow := mkDeskWindow {
  desk_id : string;
  desk_planner : option string;
  desk_shows : option string;
  desk_project : option string }.

(** [counters] is the triple of tab, window and workspace counters. *)
Record Model := mkModel {
  m_windows : list Window;
  m_workspaces : list Workspace;
  m_tab_counter : N;
  m_win_counter : N;
  m_ws_counter : N;
  m_orphans : list Tabs;
  m_desks : list DeskWindow }.

Definition model_default : Model := mkModel [] [] 0 0 0 [] [].

Definition set_windows (m : Model) (l : list Window) : Model :=
  mkModel l (m_workspaces m) (m_tab_counter m) (m_win_counter m) (m_ws_counter m) (m_orphans m) (m_desks m).
Definition set_workspaces (m : Model) (l : list Workspace) : Model :=
  mkModel (m_windows m) l (m_tab_counter m) (m_win_counter m) (m_ws_counter m) (m_orphans m) (m_desks m).
Definition set_tab_counter (m : Model) (n : N) : Model :=
  mkModel (m_windows m) (m_workspaces m) n (m_win_counter m) (m_ws_counter m) (m_orphans m) (m_desks m).
Definition set_win_counter (m : Model) (n : N) : Model :=
  mkModel (m_windows m) (m_workspaces m) (m_tab_counter m) n (m_ws_counter m) (m_orphans m) (m_desks m).
Definition set_ws_counter (m : Model) (n : N) : Model :=
  mkModel (m_windows m) (m_workspaces m) (m_tab_counter m) (m_win_counter m) n (m_orphans m) (m_desks m).
Definition set_orphans (m : Model) (l : list Tabs) : Model :=
  mkModel (m_windows m) (m_workspaces m) (m_tab_counter m) (m_win_counter m) (m_ws_counter m) l (m_desks m).
Definition set_desk_windows (m : Model) (l : list DeskWindow) : Model :=
  mkModel (m_windows m) (m_workspaces m) (m_tab_counter m) (m_win_counter m) (m_ws_counter m) (m_orphans m) l.

(** ** Errors and values *)

Definition not_found (message : string) : KmuxError := mkError "not_found" message.
Definition bad_request (message : string) : KmuxError := mkError "bad_request" message.
Definition layout_invalid (message : string) : KmuxError := mkError "layout_invalid" message.
Definition docked (message : string) : KmuxError := mkError "docked" ("docked: " +:+ message).
Definition frozen (message : string) : KmuxError := mkError "frozen" ("frozen: " +:+ message).

(** [number]: the number of a window's id, [usize::MAX] when it has none. *)
Definition window_number (id : string) : N :=
  default (2 ^ 64 - 1)%N (n ← strip_prefix "win-" id; parse_usize n).

(** ** Finding windows, workspaces and tabs *)

Definition window_named (m : Model) (id : string) : option Window :=
  List.find (fun w => bool_decide (win_id w = id)) (m_windows m).
Definition workspace_named (m : Model) (id : string) : option Workspace :=
  List.find (fun s => bool_decide (ws_id s = id)) (m_workspaces m).
Definition window_index (m : Model) (id : string) : option nat :=
  position (fun w => bool_decide (win_id w = id)) (m_windows m).
Definition ws_index (m : Model) (id : string) : option nat :=
  position (fun s => bool_decide (ws_id s = id)) (m_workspaces m).

(** [sort_by_key] is stable: an insertion sort that puts an element after its equals. *)
Fixpoint insert_by (key : nat -> N) (x : nat) (l : list nat) : list nat :=
  match l with
  | [] => [x]
  | y :: l => if (key x <? key y)%N then x :: y :: l else y :: insert_by key x l
  end.
Definition sort_by_key (key : nat -> N) (l : list nat) : list nat :=
  foldl (fun sorted x => insert_by key x sorted) [] l.

Definition sorted_windows (m : Model) : list nat :=
  sort_by_key (fun w => match m_windows m !! w with Some win => window_number (win_id win) | None => 0%N end)
    (seq 0 (length (m_windows m))).

(** [tabs] and [tabs_mut]. *)
Definition tabs_of (m : Model) (h : Holder) : option Tabs :=
  match h with
  | HWindow w => win_tabs <$> m_windows m !! w
  | HWorkspace s => ws_tabs <$> m_workspaces m !! s
  end.

Definition alter_window (m : Model) (w : nat) (f : Window -> option Window) : option Model :=
  win ← m_windows m !! w; win' ← f win; Some (set_windows m (<[w := win']> (m_windows m))).
Definition alter_workspace (m : Model) (s : nat) (f : Workspace -> option Workspace) : option Model :=
  ws ← m_workspaces m !! s; ws' ← f ws; Some (set_workspaces m (<[s := ws']> (m_workspaces m))).
Definition alter_tabs (m : Model) (h : Holder) (f : Tabs -> option Tabs) : option Model :=
  match h with
  | HWindow w => alter_window m w (fun win => set_win_tabs win <$> f (win_tabs win))
  | HWorkspace s => alter_workspace m s (fun ws => set_ws_tabs ws <$> f (ws_tabs ws))
  end.

Definition holders (m : Model) : list Holder :=
  map HWindow (seq 0 (length (m_windows m))) ++ map HWorkspace (seq 0 (length (m_workspaces m))).

Definition locate (m : Model) (id : string) : option Location :=
  find_map (fun h => ts ← tabs_of m h;
    (fun '(tab, parent, index) => mkLocation h tab parent index) <$> tabs_locate ts id) (holders m).

Definition tab_index (m : Model) (id : string) : option (Holder * nat) :=
  find_map (fun h => ts ← tabs_of m h; (fun t => (h, t)) <$> tabs_position ts id) (holders m).

Definition tab_at (m : Model) (h : Holder) (t : nat) : option Tab :=
  ts ← tabs_of m h; tabs_tabs ts !! t.

(** [tab] of model.rs *)
Definition tab_named (m : Model) (id : string) : option Tab :=
  '(h, t) ← tab_index m id; tab_at m h t.

Definition dock_ws (m : Model) (pane : string) : option nat :=
  position (fun s => bool_decide (dock_pane (ws_dock s) = pane)) (m_workspaces m).
Definition background_ws (m : Model) (pane : string) : option nat :=
  position (fun s => contains (ws_background s) pane) (m_workspaces m).
Definition lead_window (m : Model) (id : string) : option nat :=
  position (fun w => leads w id) (m_windows m).

Definition holder_of (m : Model) (id : string) : option Holder :=
  or_else (loc_holder <$> locate m id)
    (or_else (HWorkspace <$> dock_ws m id) (HWindow <$> lead_window m id)).

Definition ws_of (m : Model) (h : Holder) : option nat :=
  match h with
  | HWorkspace s => Some s
  | HWindow w => win ← m_windows m !! w; id ← win_workspace win; ws_index m id
  end.

Definition window_of (h : Holder) : option nat :=
  match h with HWindow w => Some w | HWorkspace _ => None end.

Definition side (m : Model) (h : Holder) : option string :=
  match h with
  | HWindow w => win ← m_windows m !! w; dock_pane <$> win_lead win
  | HWorkspace s => (fun ws => dock_pane (ws_dock ws)) <$> m_workspaces m !! s
  end.

Definition lead_panes (w : Window) : list string :=
  match win_lead w with Some d => [dock_pane d] | None => [] end.
Definition win_panes (w : Window) : list string := tabs_panes (win_tabs w) ++ lead_panes w.

Definition placed (m : Model) : list string :=
  flat_map win_panes (m_windows m) ++ flat_map ws_panes (m_workspaces m).

Definition in_workspace (id : string) (w : Window) : bool := bool_decide (win_workspace w = Some id).

Definition workspace_panes (m : Model) (ws : Workspace) : list string :=
  tabs_panes (ws_tabs ws)
  ++ flat_map (fun w => tabs_panes (win_tabs w)) (retain (in_workspace (ws_id ws)) (m_windows m))
  ++ [dock_pane (ws_dock ws)].

Definition workspace_windows (m : Model) (id : string) : list Window := retain (in_workspace id) (m_windows m).

(** [find] of [wide]: the share of its tab a pane has, as a width and a height. *)
Fixpoint extent (node : Node) (pane : string) (w h : f64) : option (f64 * f64) :=
  match node with
  | NPane id => if decide (id = pane) then Some (w, h) else None
  | NSplit split =>
    (fix go (kids : list NChild) : option (f64 * f64) :=
       match kids with
       | [] => None
       | mkChild n size :: kids =>
         match (match split_axis split with
                | Row => extent n pane (fmul w size) h
                | Column => extent n pane w (fmul h size)
                end) with
         | Some found => Some found
         | None => go kids
         end
       end) (split_kids split)
  end.

Definition wide (m : Model) (h : Holder) (root : option Node) (pane : string) : bool :=
  let width := match side m h with
               | Some _ => fmul WINDOW_ASPECT (fsub f1 DOCK_WIDTH)
               | None => WINDOW_ASPECT
               end in
  match (r ← root; extent r pane width f1) with
  | Some (w, h) => fle h w
  | None => true
  end.

Definition frozen_dock (m : Model) (pane : string) : option Workspace :=
  List.find (fun s => bool_decide (dock_pane (ws_dock s) = pane) && dock_frozen (ws_dock s)) (m_workspaces m).

Definition desk_workspace (m : Model) (reference : string) : option nat :=
  desk ← List.find (fun d => bool_decide (desk_id d = reference)) (m_desks m);
  ws ← or_else (desk_shows desk) (desk_planner desk);
  ws_index m ws.

(** The desk that shows a workspace, or else has it as its planner. *)
Definition desk_of (m : Model) (id : string) : option string :=
  desk_id <$> or_else (List.find (fun d => bool_decide (desk_shows d = Some id)) (m_desks m))
                (List.find (fun d => bool_decide (desk_planner d = Some id)) (m_desks m)).

(** ** What every pane is: the panes on show, and the ones in tabs that lost their window *)

Definition orphan_panes (m : Model) : list string := flat_map tabs_panes (m_orphans m).
Definition all_panes (m : Model) : list string := placed m ++ orphan_panes m.

(** Every tab bar of the model. *)
Definition bars (m : Model) : list Tabs :=
  map win_tabs (m_windows m) ++ map ws_tabs (m_workspaces m) ++ m_orphans m.

Definition all_tab_ids (m : Model) : list string := flat_map tab_ids (bars m).
Definition win_ids (m : Model) : list string := map win_id (m_windows m).
Definition ws_ids (m : Model) : list string := map ws_id (m_workspaces m).

Definition tab_name_of (n : N) : string := "tab-" +:+ pretty n.
Definition win_name_of (n : N) : string := "win-" +:+ pretty n.
Definition ws_name_of (n : N) : string := "ws-" +:+ pretty n.

(** No id of the model is one that its counter has yet to give. *)
Definition fresh_above (name : N -> string) (counter : N) (ids : list string) : Prop :=
  forall n, (counter < n)%N -> name n ∉ ids.

(** The ids are distinct and below their counters, the trees well formed. *)
Record ids_wf (m : Model) : Prop := {
  wf_tab_ids : NoDup (all_tab_ids m);
  wf_win_ids : NoDup (win_ids m);
  wf_ws_ids : NoDup (ws_ids m);
  wf_tab_fresh : fresh_above tab_name_of (m_tab_counter m) (all_tab_ids m);
  wf_win_fresh : fresh_above win_name_of (m_win_counter m) (win_ids m);
  wf_ws_fresh : fresh_above ws_name_of (m_ws_counter m) (ws_ids m);
  wf_trees : Forall tabs_wf (bars m) }.

(** The invariant of the layout: moreover, no pane is in two places. *)
Record model_wf (m : Model) : Prop := {
  wf_ids : ids_wf m;
  wf_panes : NoDup (all_panes m) }.

(** What is in no tab: leads, docks and backgrounds. *)
Definition ws_extras (ws : Workspace) : list string := dock_pane (ws_dock ws) :: ws_background ws.
Definition extras (m : Model) : list string :=
  flat_map lead_panes (m_windows m) ++ flat_map ws_extras (m_workspaces m).
Definition bar_panes (m : Model) : list string := flat_map tabs_panes (bars m).

(** ** Counting panes *)

Lemma flat_map_perm_app {A B} (f g h : A -> list B) l :
  (forall x, f x ≡ₚ g x ++ h x) -> flat_map f l ≡ₚ flat_map g l ++ flat_map h l.
Proof. intros H. induction l as [|x l IH]; simpl; [done|]. rewrite IH, H. solve_Permutation. Qed.

Lemma flat_map_map {A B C} (f : B -> list C) (g : A -> B) l :
  flat_map f (map g l) = flat_map (fun x => f (g x)) l.
Proof. by rewrite !flat_map_concat_map, map_map. Qed.

Lemma flat_map_insert_perm {A B} (f : A -> list B) l i x y old new :
  l !! i = Some x -> f y ++ old ≡ₚ f x ++ new ->
  flat_map f (<[i := y]> l) ++ old ≡ₚ flat_map f l ++ new.
Proof.
  intros Hi Hp. rewrite (insert_split _ _ _ _ Hi).
  assert (flat_map f l = flat_map f (take i l) ++ f x ++ flat_map f (drop (S i) l)) as ->.
  { rewrite (split_lookup _ _ _ Hi) at 1. by rewrite flat_map_app. }
  rewrite flat_map_app. simpl.
  transitivity (flat_map f (take i l) ++ (f y ++ old) ++ flat_map f (drop (S i) l)); [solve_Permutation|].
  rewrite Hp. solve_Permutation.
Qed.

Lemma flat_map_insert_eq {A B} (f : A -> list B) l i x y :
  l !! i = Some x -> f y = f x -> flat_map f (<[i := y]> l) = flat_map f l.
Proof.
  intros Hi Hp. rewrite (insert_split _ _ _ _ Hi), flat_map_app. simpl. rewrite Hp.
  rewrite (split_lookup _ _ _ Hi) at 3. by rewrite flat_map_app.
Qed.

Lemma map_insert_eq {A B} (f : A -> B) l i x y :
  l !! i = Some x -> f y = f x -> map f (<[i := y]> l) = map f l.
Proof.
  intros Hi Hp. rewrite (list_fmap_insert f), Hp. apply list_insert_id.
  unfold fmap. by rewrite list_lookup_fmap, Hi.
Qed.

Lemma ws_panes_perm ws : ws_panes ws ≡ₚ tabs_panes (ws_tabs ws) ++ ws_extras ws.
Proof. unfold ws_panes, ws_extras. solve_Permutation. Qed.

Lemma all_panes_split m : all_panes m ≡ₚ bar_panes m ++ extras m.
Proof.
  unfold all_panes, placed, bar_panes, bars, extras, orphan_panes.
  rewrite !flat_map_app, !flat_map_map.
  rewrite (flat_map_perm_app win_panes (fun w => tabs_panes (win_tabs w)) lead_panes) by done.
  rewrite (flat_map_perm_app ws_panes (fun ws => tabs_panes (ws_tabs ws)) ws_extras) by apply ws_panes_perm.
  solve_Permutation.
Qed.

(** ** The frame: everything but the tab bars on show *)

Definition strip (m : Model) : Model :=
  mkModel (map (fun w => set_win_tabs w tabs_default) (m_windows m))
    (map (fun ws => set_ws_tabs ws tabs_default) (m_workspaces m))
    (m_tab_counter m) (m_win_counter m) (m_ws_counter m) (m_orphans m) (m_desks m).

Definition same_frame (m m' : Model) : Prop := strip m' = strip m.

Lemma same_frame_refl m : same_frame m m.
Proof. done. Qed.
Lemma same_frame_trans a b c : same_frame a b -> same_frame b c -> same_frame a c.
Proof. unfold same_frame. congruence. Qed.

Lemma position_map {A B} (f : A -> B) (p : B -> bool) l : position p (map f l) = position (fun x => p (f x)) l.
Proof. induction l as [|x l IH]; simpl; [done|]. by rewrite IH. Qed.

Lemma lookup_map {A B} (f : A -> B) l i : map f l !! i = f <$> l !! i.
Proof. apply list_lookup_fmap. Qed.

Lemma strip_extras m : extras (strip m) = extras m.
Proof. unfold extras. simpl. by rewrite !flat_map_map. Qed.
Lemma strip_win_ids m : win_ids (strip m) = win_ids m.
Proof. unfold win_ids. simpl. by rewrite map_map. Qed.
Lemma strip_ws_ids m : ws_ids (strip m) = ws_ids m.
Proof. unfold ws_ids. simpl. by rewrite map_map. Qed.
Lemma strip_dock_ws m id : dock_ws (strip m) id = dock_ws m id.
Proof. unfold dock_ws. simpl. by rewrite position_map. Qed.
Lemma strip_background_ws m id : background_ws (strip m) id = background_ws m id.
Proof. unfold background_ws. simpl. by rewrite position_map. Qed.
Lemma strip_lead_window m id : lead_window (strip m) id = lead_window m id.
Proof. unfold lead_window. simpl. by rewrite position_map. Qed.
Lemma strip_ws_index m id : ws_index (strip m) id = ws_index m id.
Proof. unfold ws_index. simpl. by rewrite position_map. Qed.
Lemma strip_holders m : holders (strip m) = holders m.
Proof. unfold holders. simpl. by rewrite !length_map. Qed.
Lemma strip_side m h : side (strip m) h = side m h.
Proof.
  unfold side. simpl. destruct h; rewrite lookup_map; by destruct (_ !! _).
Qed.
Lemma strip_ws_of m h : ws_of (strip m) h = ws_of m h.
Proof.
  unfold ws_of. destruct h as [w|s]; [|done]. simpl. rewrite lookup_map.
  destruct (m_windows m !! w) as [win|]; simpl; [|done]. destruct (win_workspace win); simpl; [|done].
  apply strip_ws_index.
Qed.

Lemma frame_query {A} (q : Model -> A) m m' :
  (forall m, q (strip m) = q m) -> same_frame m m' -> q m' = q m.
Proof. intros Hq H. by rewrite <- (Hq m), <- (Hq m'), H. Qed.

Lemma frame_extras m m' : same_frame m m' -> extras m' = extras m.
Proof. apply frame_query, strip_extras. Qed.
Lemma frame_win_ids m m' : same_frame m m' -> win_ids m' = win_ids m.
Proof. apply frame_query, strip_win_ids. Qed.
Lemma frame_ws_ids m m' : same_frame m m' -> ws_ids m' = ws_ids m.
Proof. apply frame_query, strip_ws_ids. Qed.
Lemma frame_dock_ws m m' id : same_frame m m' -> dock_ws m' id = dock_ws m id.
Proof. apply (frame_query (fun m => dock_ws m id)). intros. apply strip_dock_ws. Qed.
Lemma frame_background_ws m m' id : same_frame m m' -> background_ws m' id = background_ws m id.
Proof. apply (frame_query (fun m => background_ws m id)). intros. apply strip_background_ws. Qed.
Lemma frame_lead_window m m' id : same_frame m m' -> lead_window m' id = lead_window m id.
Proof. apply (frame_query (fun m => lead_window m id)). intros. apply strip_lead_window. Qed.
Lemma frame_ws_index m m' id : same_frame m m' -> ws_index m' id = ws_index m id.
Proof. apply (frame_query (fun m => ws_index m id)). intros. apply strip_ws_index. Qed.
Lemma frame_holders m m' : same_frame m m' -> holders m' = holders m.
Proof. apply frame_query, strip_holders. Qed.
Lemma frame_side m m' h : same_frame m m' -> side m' h = side m h.
Proof. apply (frame_query (fun m => side m h)). intros. apply strip_side. Qed.
Lemma frame_ws_of m m' h : same_frame m m' -> ws_of m' h = ws_of m h.
Proof. apply (frame_query (fun m => ws_of m h)). intros. apply strip_ws_of. Qed.
Lemma frame_counters m m' : same_frame m m' ->
  m_tab_counter m' = m_tab_counter m /\ m_win_counter m' = m_win_counter m /\
  m_ws_counter m' = m_ws_counter m /\ m_orphans m' = m_orphans m /\ m_desks m' = m_desks m.
Proof. intros H. injection H. auto. Qed.

(** ** Tab bars by their holder *)

Definition bar_index (m : Model) (h : Holder) : nat :=
  match h with HWindow w => w | HWorkspace s => length (m_windows m) + s end.

Lemma tabs_of_bar m h ts : tabs_of m h = Some ts -> bars m !! bar_index m h = Some ts.
Proof.
  unfold bars. destruct h as [w|s]; simpl; intros (x & Hx & ->)%fmap_Some.
  - apply lookup_app_l_Some. by rewrite lookup_map, Hx.
  - rewrite lookup_app_r by (rewrite length_map; lia).
    rewrite length_map. replace (_ + s - _) with s by lia.
    apply lookup_app_l_Some. by rewrite lookup_map, Hx.
Qed.

Lemma map_insert_comm {A B} (f : A -> B) l i x : map f (<[i := x]> l) = <[i := f x]> (map f l).
Proof. apply (list_fmap_insert f). Qed.

Lemma alter_tabs_spec m h f ts ts' :
  tabs_of m h = Some ts -> f ts = Some ts' ->
  exists m', alter_tabs m h f = Some m' /\ tabs_of m' h = Some ts' /\ same_frame m m' /\
    bars m' = <[bar_index m h := ts']> (bars m).
Proof.
  destruct h as [w|s]; simpl; intros (x & Hx & ->)%fmap_Some Hf;
    unfold alter_window, alter_workspace; rewrite Hx; simpl; rewrite Hf; simpl; (eexists; split; [done|]).
  - split_and!; simpl.
    + by rewrite list_lookup_insert_eq by (by eapply lookup_lt_Some).
    + unfold same_frame, strip. simpl. f_equal. by apply (map_insert_eq _ _ _ x).
    + unfold bars. simpl. rewrite map_insert_comm. simpl.
      rewrite insert_app_l; [done|]. rewrite length_map. by eapply lookup_lt_Some.
  - split_and!; simpl.
    + by rewrite list_lookup_insert_eq by (by eapply lookup_lt_Some).
    + unfold same_frame, strip. simpl. f_equal. by apply (map_insert_eq _ _ _ x).
    + unfold bars. simpl. rewrite map_insert_comm. simpl.
      rewrite insert_app_r_alt by (rewrite length_map; lia). rewrite length_map.
      replace (_ + s - _) with s by lia. rewrite insert_app_l; [done|].
      rewrite length_map. by eapply lookup_lt_Some.
Qed.

Lemma elem_of_holders m h : h ∈ holders m <-> is_Some (tabs_of m h).
Proof.
  unfold holders. rewrite elem_of_app. split.
  - intros [(w & -> & Hw)%list_elem_of_fmap|(w & -> & Hw)%list_elem_of_fmap]; apply elem_of_seq in Hw; simpl;
      rewrite fmap_is_Some; apply lookup_lt_is_Some; lia.
  - destruct h as [w|w]; simpl; rewrite fmap_is_Some; intros H%lookup_lt_is_Some; [left|right];
      apply list_elem_of_fmap; exists w; (split; [done|]); apply elem_of_seq; lia.
Qed.

(** The tab bars [locate] looks in: all but the orphans. *)
Definition live_bars (m : Model) : list Tabs := map win_tabs (m_windows m) ++ map ws_tabs (m_workspaces m).

Lemma bars_live m : bars m = live_bars m ++ m_orphans m.
Proof. unfold bars, live_bars. by rewrite (assoc_L (++)). Qed.

Lemma elem_of_live m ts : ts ∈ live_bars m <-> exists h, tabs_of m h = Some ts.
Proof.
  unfold live_bars. rewrite elem_of_app, !list_elem_of_fmap. split.
  - intros [(w & -> & [i Hi]%list_elem_of_lookup_1)|(w & -> & [i Hi]%list_elem_of_lookup_1)];
      [exists (HWindow i)|exists (HWorkspace i)]; simpl; by rewrite Hi.
  - intros [[w|w] (x & Hx & ->)%fmap_Some]; [left|right]; exists x; (split; [done|]);
      by eapply list_elem_of_lookup_2.
Qed.

Lemma elem_of_flat_map {A B} (f : A -> list B) l y : y ∈ flat_map f l <-> exists x, x ∈ l /\ y ∈ f x.
Proof. rewrite !list_elem_of_In, in_flat_map. by setoid_rewrite list_elem_of_In. Qed.

Lemma locate_Some m id l :
  locate m id = Some l ->
  exists ts, tabs_of m (loc_holder l) = Some ts /\
    tabs_locate ts id = Some (loc_tab l, loc_parent l, loc_index l).
Proof.
  intros (h & _ & Hl)%find_map_Some. apply bind_Some in Hl as (ts & Hts & Hl).
  apply fmap_Some in Hl as ([[t p] i] & Hl & ->). by exists ts.
Qed.

Lemma locate_None m id : locate m id = None <-> id ∉ flat_map tabs_panes (live_bars m).
Proof.
  unfold locate. rewrite find_map_None, elem_of_flat_map. split.
  - intros H (ts & [h Hh]%elem_of_live & Hin).
    assert (h ∈ holders m) as Hm by (apply elem_of_holders; by eexists).
    specialize (H h Hm). rewrite Hh in H. simpl in H. apply fmap_None, tabs_locate_None in H. done.
  - intros H h Hh. destruct (tabs_of m h) as [ts|] eqn:Ht; [|done]. simpl.
    apply fmap_None, tabs_locate_None. intros Hin. apply H. exists ts. split; [|done].
    apply elem_of_live. by eexists.
Qed.

Lemma tab_index_Some m id h t :
  tab_index m id = Some (h, t) ->
  exists ts tab, tabs_of m h = Some ts /\ tabs_tabs ts !! t = Some tab /\ tab_id tab = id.
Proof.
  intros (h' & _ & Hl)%find_map_Some. apply bind_Some in Hl as (ts & Hts & Hl).
  apply fmap_Some in Hl as (t' & Hp & [= -> ->]). apply position_Some in Hp as (tab & Ht & E).
  apply bool_decide_eq_true in E. by exists ts, tab.
Qed.

Lemma tab_index_is_Some m id : id ∈ flat_map tab_ids (live_bars m) -> is_Some (tab_index m id).
Proof.
  intros (ts & [h Hh]%elem_of_live & (tab & -> & Hin)%list_elem_of_fmap)%elem_of_flat_map.
  destruct (tab_index m (tab_id tab)) eqn:E; [by eexists|]. exfalso.
  unfold tab_index in E. rewrite find_map_None in E.
  specialize (E h). rewrite Hh in E. simpl in E. rewrite fmap_None in E.
  destruct (position_is_Some (fun t => bool_decide (tab_id t = tab_id tab)) (tabs_tabs ts) tab Hin) as [i Hi].
  { by apply bool_decide_eq_true. }
  unfold tabs_position in E. rewrite Hi in E. discriminate E. apply elem_of_holders. by eexists.
Qed.
