(* ===== verification/Ops.v ===== *)
(** * The layout's building blocks: [crates/kanna-mux/src/model.rs]

    What the commands are made of: new windows and tabs, taking a pane out, swapping two,
    dropping what is empty, and the views the replies show.  [None] is a panic. *)

From S2P Require Import Prelude Text F64 Json Fraction Pane Panes Tree Tabs Workspace Model.

(** ** Titles *)

Definition retitle_bar (panes : Panes) (ts : Tabs) : bool * Tabs :=
  let done_ := map (tab_retitle panes) (tabs_tabs ts) in
  (existsb fst done_, set_tabs ts (map snd done_)).

Definition retitle (m : Model) (panes : Panes) : bool * Model :=
  let ws := map (fun w => retitle_bar panes (win_tabs w)) (m_windows m) in
  let ss := map (fun s => retitle_bar panes (ws_tabs s)) (m_workspaces m) in
  (existsb fst ws || existsb fst ss,
   set_workspaces
     (set_windows m (zip_with (fun w b => set_win_tabs w (snd b)) (m_windows m) ws))
     (zip_with (fun s b => set_ws_tabs s (snd b)) (m_workspaces m) ss)).

(** ** New things *)

Definition new_workspace (m : Model) (dock : Dock) (place : Where) : Workspace * Model :=
  let n := (m_ws_counter m + 1)%N in
  (workspace_new (ws_name_of n) dock place, set_ws_counter m n).

Definition make_window (m : Model) : nat * Model :=
  let n := (m_win_counter m + 1)%N in
  let windows := m_windows m ++ [window_new (win_name_of n)] in
  (length windows - 1, set_windows (set_win_counter m n) windows).

Definition window_for (m : Model) (ws : option nat) : option (nat * Model) :=
  workspace ← match ws with
              | Some s => sp ← m_workspaces m !! s; Some (if is_task sp then Some (ws_id sp) else None)
              | None => Some None
              end;
  let '(w, m) := make_window m in
  m ← alter_window m w (fun win => Some (set_win_workspace win workspace));
  Some (w, m).

Definition push_tab (tab : Tab) (activate : bool) (ts : Tabs) : Tabs :=
  let ts := if activate || negb (bool_decide (is_Some (tabs_active ts)))
            then set_active ts (Some (tab_id tab)) else ts in
  set_tabs ts (tabs_tabs ts ++ [tab]).

(** A bar's share of [make_tab]: its own count, and the new tab [id]. *)
Definition add_tab (id : string) (activate : bool) (ts : Tabs) : Tabs :=
  let count := (tabs_count ts + 1)%N in
  push_tab (tab_new id count) activate (set_count ts count).

Definition make_tab (m : Model) (h : Holder) (activate : bool) : option (nat * Model) :=
  let n := (m_tab_counter m + 1)%N in
  ts ← tabs_of m h;
  m' ← alter_tabs (set_tab_counter m n) h (fun ts => Some (add_tab (tab_name_of n) activate ts));
  Some (length (tabs_tabs ts), m').

(** ** Refusals and views *)

Definition label_of (panes : Panes) (pane : string) : string :=
  match panes_get panes pane with Some p => label p | None => pane end.

Definition refuse_background (m : Model) (pane : string) (panes : Panes) : res unit :=
  match background_ws m pane with
  | Some s =>
    let name := default pane (p ← panes_get panes pane; pane_name p) in
    let? ws := unwrap (m_workspaces m !! s) in
    Err (mkError "background"
      (label_of panes pane +:+ " is in " +:+ ws_id ws +:+
       "'s background, in no tab: show it with `kanna move " +:+ name +:+ " --tab`"))
  | None => Ok tt
  end.

Definition refuse_frozen_pane (m : Model) (pane : string) (panes : Panes) : res unit :=
  match frozen_dock m pane with
  | Some ws => Err (frozen (label_of panes pane +:+ " is frozen in " +:+ ws_id ws +:+ "'s dock; nothing drops on it"))
  | None => Ok tt
  end.

Definition dock_view (dock : Dock) (panes : Panes) : Map :=
  [("pane", JString (panes_display panes (dock_pane dock)));
   ("edge", JString (edge_as_str (dock_edge dock)));
   ("width", JString (fraction_format (dock_width dock)))]
  ++ flag "frozen" (dock_frozen dock).

Definition spot_of (m : Model) (h : Holder) : option (option string * Value) :=
  window ← match window_of h with
           | Some w => win ← m_windows m !! w; Some (Some (win_id win))
           | None => Some None
           end;
  workspace ← match ws_of m h with
              | Some s =>
                ws ← m_workspaces m !! s;
                Some (JObject (match desk_of m (ws_id ws) with
                               | Some desk => map_insert (ws_summary ws) "desk" (JString desk)
                               | None => ws_summary ws
                               end))
              | None => Some JNull
              end;
  Some (window, workspace).

Definition at_ (m : Model) (h : Holder) : option Map :=
  '(window, workspace) ← spot_of m h;
  let out := [("window", opt window)] in
  Some (if is_null workspace then out else map_insert out "workspace" workspace).

(** [size < 1.0 - 1e-6] *)
Definition f_most : f64 := fsub f1 (f_dec 1 (-6)).

Definition sized (out : Map) (size : option f64) : Value :=
  JObject (match size with
           | Some size => if flt size f_most then map_insert out "size" (JString (fraction_format size)) else out
           | None => out
           end).

Fixpoint tree_node (node : Node) (size : option f64) (panes : Panes) : Value :=
  match node with
  | NPane id => sized [("pane", JString (panes_display panes id))] size
  | NSplit split =>
    sized [("split", JString (axis_as_str (split_axis split)));
           ("children", JArray (map (fun kid => tree_node (child_node kid) (Some (child_size kid)) panes)
                                  (split_kids split)))] size
  end.

Definition tree (node : option Node) (size : option f64) (panes : Panes) : Value :=
  match node with Some node => tree_node node size panes | None => JNull end.

Definition tab_tree (m : Model) (tab : string) (panes : Panes) : Value :=
  match tab_named m tab with Some t => tree (tab_root t) None panes | None => JNull end.

(** ** Taking a pane out *)

(** The tabs a dissolved workspace's background panes get, numbered from [n] and [count]. *)
Fixpoint background_tabs (n count : N) (background : list string) : list Tab :=
  match background with
  | [] => []
  | pane :: rest =>
    set_tab_root (tab_new (tab_name_of (n + 1)) (count + 1)) (Some (NPane pane))
    :: background_tabs (n + 1) (count + 1) rest
  end.

(** The tab bar a dissolved workspace leaves: its tabs, then one for each background pane. *)
Definition dissolved_bar (n : N) (ws : Workspace) : Tabs :=
  set_count
    (set_tabs (ws_tabs ws)
      (tabs_tabs (ws_tabs ws) ++ background_tabs n (tabs_count (ws_tabs ws)) (ws_background ws)))
    (tabs_count (ws_tabs ws) + N.of_nat (length (ws_background ws)))%N.

Definition dissolve (m : Model) (s : nat) : option Model :=
  ws ← m_workspaces m !! s;
  let m := set_workspaces m (delete s (m_workspaces m)) in
  let m := set_windows m (map (fun w => if in_workspace (ws_id ws) w then set_win_workspace w None else w) (m_windows m)) in
  Some (set_orphans (set_tab_counter m (m_tab_counter m + N.of_nat (length (ws_background ws)))%N)
          (m_orphans m ++ [dissolved_bar (m_tab_counter m) ws])).

(** The loop over the orphans: the first that has the pane loses it. *)
Fixpoint remove_orphan (orphans : list Tabs) (id : string) : option (list Tabs) :=
  match orphans with
  | [] => Some []
  | tabs :: rest =>
    '(found, tabs') ← tabs_remove tabs id;
    if (found : bool) then Some (tabs' :: rest) else rest' ← remove_orphan rest id; Some (tabs' :: rest')
  end.

Definition detach (m : Model) (id : string) : option Model :=
  match background_ws m id with
  | Some s => alter_workspace m s (fun ws =>
      Some (set_ws_background ws (retain (fun p => negb (bool_decide (p = id))) (ws_background ws))))
  | None =>
    match lead_window m id with
    | Some w => alter_window m w (fun win => Some (set_win_lead win None))
    | None =>
      match dock_ws m id with
      | Some s => dissolve m s
      | None =>
        match locate m id with
        | Some l => alter_tabs m (loc_holder l) (fun ts => snd <$> tabs_remove ts id)
        | None => set_orphans m <$> remove_orphan (m_orphans m) id
        end
      end
    end
  end.

(** ** Swapping *)

Definition swap_put (m : Model) (location : option Location) (dock : option nat) (id : string) : option Model :=
  match location, dock with
  | Some l, _ => alter_tabs m (loc_holder l) (fun ts => tabs_set_at ts (loc_tab l) (loc_parent l) (loc_index l) id)
  | None, Some s => alter_workspace m s (fun ws => Some (set_ws_dock ws (set_dock_pane (ws_dock ws) id)))
  | None, None => Some m
  end.

Definition swap (m : Model) (a b : string) : option Model :=
  let la := locate m a in
  let lb := locate m b in
  let da := dock_ws m a in
  let db := dock_ws m b in
  let nowhere (l : option Location) (d : option nat) := bool_decide (l = None) && bool_decide (d = None) in
  if nowhere la da || nowhere lb db then Some m
  else m ← swap_put m la da b; swap_put m lb db a.

(** ** Dropping what is empty *)

Definition settle_bar (side : option string) (ts : Tabs) : Tabs := settle_focus (tidy ts) side.

(** A window whose workspace is gone has none. *)
Definition free_gone (m : Model) : Model :=
  set_windows m (map (fun w =>
    match win_workspace w with
    | Some id => if ws_index m id then w else set_win_workspace w None
    | None => w
    end) (m_windows m)).

(** [tidy] and [settle_focus] on every holder, each with its own side. *)
Definition settle_all (m : Model) : Model :=
  set_workspaces
    (set_windows m (map (fun w => set_win_tabs w (settle_bar (dock_pane <$> win_lead w) (win_tabs w))) (m_windows m)))
    (map (fun ws => set_ws_tabs ws (settle_bar (Some (dock_pane (ws_dock ws))) (ws_tabs ws))) (m_workspaces m)).

Definition window_kept (w : Window) : bool :=
  negb (bool_decide (tabs_tabs (win_tabs w) = [])) || bool_decide (is_Some (win_lead w)).

(** An orphan with tabs left becomes a window of its own. *)
Definition adopt (m : Model) (tabs : Tabs) : Model :=
  let tabs := tidy tabs in
  if bool_decide (tabs_tabs tabs = []) then m
  else
    let '(w, m) := make_window m in
    let tabs := settle_focus (set_zoom (set_count tabs (N.of_nat (length (tabs_tabs tabs)))) false) None in
    set_windows m (alter (fun win => set_win_tabs win tabs) w (m_windows m)).

Definition drop_empty (m : Model) : Model :=
  let m := settle_all (free_gone m) in
  let m := set_windows m (retain window_kept (m_windows m)) in
  foldl adopt (set_orphans m []) (m_orphans m).

(** ** Windows and workspaces by reference *)

Definition quoted (before reference : string) : string := before +:+ " " +:+ in_quotes reference.

Definition target_window (reference : option string) : act Model nat :=
  match reference with
  | None =>
    let! m := act_gets id in
    match length (m_windows m) with
    | 0 => act_state make_window
    | 1 => act_ret 0
    | _ => act_fail (bad_request "there are several windows: say which with --window WINDOW (or --window new)")
    end
  | Some reference =>
    if decide (reference = "new") then act_state make_window
    else let! m := act_gets id in
         act_lift (ok_or (window_index m reference) (not_found (quoted "no window" reference)))
  end.

Definition workspace_holder (reference : string) : act Model Holder :=
  let! m := act_gets id in
  act_lift (ok_or (HWorkspace <$> ws_index m reference) (not_found (quoted "no workspace" reference))).

Definition window_holder (reference : option string) : act Model Holder :=
  let! m := act_gets id in
  match (r ← reference; desk_workspace m r) with
  | Some s => act_ret (HWorkspace s)
  | None => let! w := target_window reference in act_ret (HWindow w)
  end.

Definition need_tab (reference : option string) : act Model (Holder * nat) :=
  let! m := act_gets id in
  act_lift (ok_or (r ← reference; tab_index m r) (not_found (quoted "no tab" (default "" reference)))).

Definition focus_pane (m : Model) (id : string) : option (option Holder * Model) :=
  match holder_of m id with
  | None => Some (None, m)
  | Some h => m' ← alter_tabs m h (fun ts => Some (tabs_focus ts id)); Some (Some h, m')
  end.

(** ** Desks *)

Definition read_desk (d : Value) : option DeskWindow :=
  let field key := v ← get d key; as_str v in
  id ← field "id";
  Some (mkDeskWindow id (field "planner") (field "shows") (field "project")).

Definition set_desks (args : Value) : act Model Map :=
  let! list := act_lift (ok_or (v ← get args "desks"; as_array v) (bad_request "desks needs a list of desks")) in
  act_modify (fun m => set_desk_windows m (omap read_desk list)) ;;;
  let! m := act_gets id in
  act_ret [("desks", from_usize (N.of_nat (length (m_desks m))))].

Definition desk_row (m : Model) (d : DeskWindow) : Value :=
  let workspace := ws ← or_else (desk_shows d) (desk_planner d); if ws_index m ws then Some ws else None in
  obj [("id", JString (desk_id d)); ("desk", JBool true); ("workspace", opt workspace);
       ("planner", opt (desk_planner d)); ("deskView", JBool (bool_decide (desk_shows d = None)));
       ("project", opt (desk_project d))].

Definition desk_rows (m : Model) : Value := JArray (map (desk_row m) (m_desks m)).

Definition find_workspace (m : Model) (reference : string) (panes : Panes) : option nat :=
  match ws_index m reference with
  | Some s => Some s
  | None =>
    p ← res_ok (panes_need panes (Some reference));
    or_else (dock_ws m (pane_id p))
      (or_else (background_ws m (pane_id p)) (h ← holder_of m (pane_id p); ws_of m h))
  end.
