(* ===== verification/OpsFacts.v ===== *)
(** * What the building blocks do to the panes and to the ids

    Every block keeps [ids_wf]; each lemma also says which panes come and go. *)

From S2P Require Import Prelude Text F64 Json Fraction Pane Panes Tree Tabs Workspace Model Ops.

(** ** Keeping the invariant *)

Lemma fresh_above_mono name c c' ids ids' :
  fresh_above name c ids -> (c <= c')%N -> (forall x, x ∈ ids' -> x ∈ ids) -> fresh_above name c' ids'.
Proof. intros H Hc Hs n Hn Hin. apply (H n); [lia|auto]. Qed.

(** A change that makes no new id. *)
Lemma ids_wf_mono m m' :
  ids_wf m -> all_tab_ids m' ⊆+ all_tab_ids m -> win_ids m' ⊆+ win_ids m -> ws_ids m' ⊆+ ws_ids m ->
  (m_tab_counter m <= m_tab_counter m')%N -> (m_win_counter m <= m_win_counter m')%N ->
  (m_ws_counter m <= m_ws_counter m')%N -> Forall tabs_wf (bars m') -> ids_wf m'.
Proof.
  intros [? ? ? ? ? ? ?] Ht Hw Hs ? ? ? ?.
  split; try done; try (eapply NoDup_under; [|done]; done);
    (eapply fresh_above_mono; [done..|]; intros x Hx; by eapply elem_of_submseteq).
Qed.

(** The same, for a change that keeps the counters and every tab bar's ids. *)
Lemma ids_wf_same m m' :
  ids_wf m -> bars m' = bars m -> win_ids m' = win_ids m -> ws_ids m' = ws_ids m ->
  (m_tab_counter m <= m_tab_counter m')%N -> (m_win_counter m <= m_win_counter m')%N ->
  (m_ws_counter m <= m_ws_counter m')%N -> ids_wf m'.
Proof.
  intros Hwf Hb Hw Hs ? ? ?. eapply ids_wf_mono; [exact Hwf|..]; try done.
  - unfold all_tab_ids. by rewrite Hb.
  - by rewrite Hw.
  - by rewrite Hs.
  - rewrite Hb. apply Hwf.
Qed.

(** ** Changing one tab bar *)

Lemma alter_tabs_panes m h f ts ts' old new :
  tabs_of m h = Some ts -> f ts = Some ts' -> tabs_panes ts' ++ old ≡ₚ tabs_panes ts ++ new ->
  exists m', alter_tabs m h f = Some m' /\ tabs_of m' h = Some ts' /\ same_frame m m' /\
    bars m' = <[bar_index m h := ts']> (bars m) /\ all_panes m' ++ old ≡ₚ all_panes m ++ new.
Proof.
  intros Hts Hf Hp. destruct (alter_tabs_spec m h f ts ts' Hts Hf) as (m' & Ha & Ht & Hfr & Hb).
  exists m'. split_and!; try done. rewrite !all_panes_split, (frame_extras _ _ Hfr).
  unfold bar_panes. rewrite Hb.
  pose proof (flat_map_insert_perm tabs_panes (bars m) _ _ ts' old new (tabs_of_bar _ _ _ Hts) Hp) as Hperm.
  transitivity ((flat_map tabs_panes (<[bar_index m h:=ts']> (bars m)) ++ old) ++ extras m); [solve_Permutation|].
  rewrite Hperm. solve_Permutation.
Qed.

Lemma alter_tabs_ids m m' h ts ts' :
  ids_wf m -> tabs_of m h = Some ts -> same_frame m m' ->
  bars m' = <[bar_index m h := ts']> (bars m) ->
  tab_ids ts' ⊆+ tab_ids ts -> (tabs_wf ts -> tabs_wf ts') -> ids_wf m'.
Proof.
  intros Hwf Hts Hfr Hb Hids Htree. pose proof (tabs_of_bar _ _ _ Hts) as Hbar.
  destruct (frame_counters _ _ Hfr) as (Hc1 & Hc2 & Hc3 & _ & _).
  eapply ids_wf_mono; [exact Hwf|..]; rewrite ?Hc1, ?Hc2, ?Hc3; try done.
  - unfold all_tab_ids. rewrite Hb, (insert_split _ _ _ _ Hbar).
    rewrite (split_lookup _ _ _ Hbar) at 3. rewrite !flat_map_app. simpl.
    apply submseteq_app; [done|]. by apply submseteq_app.
  - by rewrite (frame_win_ids _ _ Hfr).
  - by rewrite (frame_ws_ids _ _ Hfr).
  - rewrite Hb. destruct Hwf as [_ _ _ _ _ _ Htr]. apply Forall_insert; [done|].
    apply Htree. by eapply Forall_lookup_1.
Qed.

(** One tab bar's change, when it takes [old] out of the panes and puts [new] in. *)
Lemma alter_tabs_wf m h f ts ts' old new :
  ids_wf m -> tabs_of m h = Some ts -> f ts = Some ts' ->
  tabs_panes ts' ++ old ≡ₚ tabs_panes ts ++ new ->
  tab_ids ts' ⊆+ tab_ids ts -> (tabs_wf ts -> tabs_wf ts') ->
  exists m', alter_tabs m h f = Some m' /\ tabs_of m' h = Some ts' /\ same_frame m m' /\
    bars m' = <[bar_index m h := ts']> (bars m) /\ all_panes m' ++ old ≡ₚ all_panes m ++ new /\ ids_wf m'.
Proof.
  intros Hwf Hts Hf Hp Hids Htree.
  destruct (alter_tabs_panes m h f ts ts' old new Hts Hf Hp) as (m' & Ha & Ht & Hfr & Hb & Hall).
  exists m'. split_and!; try done. by eapply alter_tabs_ids.
Qed.

Lemma alter_tabs_shape m h f ts ts' :
  ids_wf m -> tabs_of m h = Some ts -> f ts = Some ts' -> same_shape ts ts' ->
  exists m', alter_tabs m h f = Some m' /\ tabs_of m' h = Some ts' /\ same_frame m m' /\
    bars m' = <[bar_index m h := ts']> (bars m) /\ all_panes m' ≡ₚ all_panes m /\ ids_wf m'.
Proof.
  intros Hwf Hts Hf Hs.
  destruct (alter_tabs_wf m h f ts ts' [] [] Hwf Hts Hf) as (m' & ? & ? & ? & ? & Hp & ?).
  - by rewrite (same_shape_panes _ _ Hs).
  - by rewrite (same_shape_ids _ _ Hs).
  - by apply same_shape_wf.
  - rewrite !app_nil_r in Hp. by exists m'.
Qed.

(** ** Changing a window or a workspace outside its tab bar *)

Lemma alter_window_extras m w win win' :
  m_windows m !! w = Some win -> win_tabs win' = win_tabs win -> win_id win' = win_id win ->
  let m' := set_windows m (<[w := win']> (m_windows m)) in
  bars m' = bars m /\ win_ids m' = win_ids m /\
  all_panes m' ++ lead_panes win ≡ₚ all_panes m ++ lead_panes win'.
Proof.
  intros Hw Ht Hid m'. assert (bars m' = bars m) as Hb.
  { unfold bars. simpl. by rewrite (map_insert_eq win_tabs _ _ win). }
  split_and!; [done|by apply (map_insert_eq win_id _ _ win)|].
  rewrite !all_panes_split. unfold bar_panes. rewrite Hb. unfold extras. simpl.
  assert (flat_map lead_panes (<[w:=win']> (m_windows m)) ++ lead_panes win ≡ₚ
    flat_map lead_panes (m_windows m) ++ lead_panes win') as Hp.
  { apply (flat_map_insert_perm lead_panes _ _ win); [done|solve_Permutation]. }
  transitivity ((flat_map lead_panes (<[w:=win']> (m_windows m)) ++ lead_panes win) ++
    flat_map tabs_panes (bars m) ++ flat_map ws_extras (m_workspaces m)); [solve_Permutation|].
  rewrite Hp. solve_Permutation.
Qed.

Lemma alter_workspace_extras m s ws ws' old new :
  m_workspaces m !! s = Some ws -> ws_tabs ws' = ws_tabs ws -> ws_id ws' = ws_id ws ->
  ws_extras ws' ++ old ≡ₚ ws_extras ws ++ new ->
  let m' := set_workspaces m (<[s := ws']> (m_workspaces m)) in
  bars m' = bars m /\ ws_ids m' = ws_ids m /\ all_panes m' ++ old ≡ₚ all_panes m ++ new.
Proof.
  intros Hs Ht Hid Hx m'. assert (bars m' = bars m) as Hb.
  { unfold bars. simpl. by rewrite (map_insert_eq ws_tabs _ _ ws). }
  split_and!; [done|by apply (map_insert_eq ws_id _ _ ws)|].
  rewrite !all_panes_split. unfold bar_panes. rewrite Hb. unfold extras. simpl.
  pose proof (flat_map_insert_perm ws_extras _ _ ws ws' old new Hs Hx) as Hp.
  transitivity ((flat_map ws_extras (<[s:=ws']> (m_workspaces m)) ++ old) ++
    flat_map tabs_panes (bars m) ++ flat_map lead_panes (m_windows m)); [solve_Permutation|].
  rewrite Hp. solve_Permutation.
Qed.

(** ** [make_window] and [make_tab] *)

Lemma make_window_spec m w m' :
  make_window m = (w, m') ->
  w = length (m_windows m) /\ m_windows m' = m_windows m ++ [window_new (win_name_of (m_win_counter m + 1))] /\
  m_workspaces m' = m_workspaces m /\ all_panes m' ≡ₚ all_panes m /\ (ids_wf m -> ids_wf m').
Proof.
  intros [= <- <-]. split_and!; try done.
  - rewrite length_app. simpl. lia.
  - unfold all_panes, placed. simpl. rewrite flat_map_app. simpl. by rewrite app_nil_r.
  - intros Hwf. assert (all_tab_ids (set_windows (set_win_counter m (m_win_counter m + 1))
      (m_windows m ++ [window_new (win_name_of (m_win_counter m + 1))])) = all_tab_ids m) as Ht.
    { unfold all_tab_ids, bars. simpl. rewrite map_app. simpl. rewrite !flat_map_app. simpl.
      by rewrite app_nil_r. }
    destruct Hwf as [? ? ? ? Hf ? Htr]. split; rewrite ?Ht; try done.
    + unfold win_ids. simpl. rewrite map_app. apply NoDup_app. split_and!; [done| |by apply NoDup_singleton].
      intros x Hx ->%list_elem_of_singleton. apply (Hf (m_win_counter m + 1)%N); [lia|done].
    + intros n Hn. unfold win_ids. simpl in *. rewrite map_app, not_elem_of_app. split.
      * apply Hf. lia.
      * intros E%list_elem_of_singleton. apply string_app_inj_l in E. apply (inj pretty) in E. lia.
    + unfold bars in *. simpl. rewrite map_app. apply Forall_app in Htr as [H1 H2].
      apply Forall_app; split; [|done]. apply Forall_app; split; [done|]. repeat constructor.
Qed.

Lemma add_tab_tabs id activate ts :
  tabs_tabs (add_tab id activate ts) = tabs_tabs ts ++ [tab_new id (tabs_count ts + 1)].
Proof. unfold add_tab, push_tab. by destruct (activate || _). Qed.

Lemma add_tab_panes id activate ts : tabs_panes (add_tab id activate ts) = tabs_panes ts.
Proof. unfold tabs_panes. rewrite add_tab_tabs, flat_map_app. simpl. by rewrite app_nil_r. Qed.

Lemma tab_name_inj n k : tab_name_of n = tab_name_of k -> n = k.
Proof. intros E%string_app_inj_l. by apply (inj pretty) in E. Qed.

Lemma make_tab_spec m h activate ts :
  ids_wf m -> tabs_of m h = Some ts ->
  exists m' ts', make_tab m h activate = Some (length (tabs_tabs ts), m') /\
    same_frame (set_tab_counter m (m_tab_counter m + 1)) m' /\
    tabs_of m' h = Some ts' /\ bars m' = <[bar_index m h := ts']> (bars m) /\
    tabs_tabs ts' = tabs_tabs ts ++ [tab_new (tab_name_of (m_tab_counter m + 1)) (tabs_count ts + 1)] /\
    (activate = true -> tabs_active ts' = Some (tab_name_of (m_tab_counter m + 1))) /\
    all_panes m' ≡ₚ all_panes m /\ ids_wf m'.
Proof.
  intros Hwf Hts. set (n := (m_tab_counter m + 1)%N). set (m0 := set_tab_counter m n).
  set (ts' := add_tab (tab_name_of n) activate ts).
  assert (tabs_of m0 h = Some ts) as Hts0 by (by destruct h).
  destruct (alter_tabs_panes m0 h (fun ts => Some (add_tab (tab_name_of n) activate ts)) ts ts' [] [] Hts0 eq_refl)
    as (m' & Ha & Ht' & Hfr & Hb & Hp).
  { unfold ts'. by rewrite add_tab_panes. }
  exists m', ts'. unfold make_tab. rewrite Hts. simpl. fold n m0. rewrite Ha. simpl.
  rewrite !app_nil_r in Hp. change (bars m0) with (bars m) in *.
  change (bar_index m0 h) with (bar_index m h) in *. split_and!; try done.
  - apply add_tab_tabs.
  - intros ->. done.
  - assert (all_tab_ids m' ≡ₚ tab_name_of n :: all_tab_ids m) as Hperm.
    { unfold all_tab_ids. rewrite Hb.
      rewrite <- (app_nil_r (flat_map _ (<[_ := _]> _))).
      rewrite (flat_map_insert_perm tab_ids (bars m) _ ts ts' [] [tab_name_of n] (tabs_of_bar _ _ _ Hts));
        [solve_Permutation|].
      unfold tab_ids, ts'. rewrite add_tab_tabs, map_app, app_nil_r. done. }
    destruct Hwf as [Hnd ? ? Hf ? ? Htr]. destruct (frame_counters _ _ Hfr) as (Hc1 & Hc2 & Hc3 & _).
    split.
    + rewrite Hperm. constructor; [|done]. apply Hf. unfold n. lia.
    + by rewrite (frame_win_ids _ _ Hfr).
    + by rewrite (frame_ws_ids _ _ Hfr).
    + intros k Hk. rewrite Hc1 in Hk. simpl in Hk. rewrite Hperm, elem_of_cons. intros [E|E].
      * apply tab_name_inj in E. lia.
      * apply (Hf k); [unfold n in *; lia|done].
    + rewrite (frame_win_ids _ _ Hfr), Hc2. done.
    + rewrite (frame_ws_ids _ _ Hfr), Hc3. done.
    + rewrite Hb. apply Forall_insert; [done|]. unfold tabs_wf, ts'. rewrite add_tab_tabs.
      apply Forall_app. split.
      * eapply Forall_lookup_1 in Htr; [exact Htr|]. by apply tabs_of_bar.
      * repeat constructor. done.
Qed.

(** ** [dissolve] *)

Lemma background_tabs_panes n c l : flat_map tab_panes (background_tabs n c l) = l.
Proof. revert n c. induction l as [|p l IH]; intros n c; simpl; [done|]. by rewrite IH. Qed.

Lemma background_tabs_wf n c l : Forall tab_wf (background_tabs n c l).
Proof.
  revert n c. induction l as [|p l IH]; intros n c; simpl; constructor; [|done].
  intros root [= <-]. constructor.
Qed.

Lemma background_tabs_ids n c l x :
  x ∈ map tab_id (background_tabs n c l) ->
  exists k, (n < k <= n + N.of_nat (length l))%N /\ x = tab_name_of k.
Proof.
  revert n c. induction l as [|p l IH]; intros n c; simpl; [by intros ?%elem_of_nil|].
  intros [->|Hx]%elem_of_cons.
  - exists (n + 1)%N. split; [lia|done].
  - destruct (IH _ _ Hx) as (k & Hk & ->). exists k. split; [lia|done].
Qed.

Lemma background_tabs_NoDup n c l : NoDup (map tab_id (background_tabs n c l)).
Proof.
  revert n c. induction l as [|p l IH]; intros n c; simpl; constructor; [|done].
  intros (k & Hk & E%tab_name_inj)%background_tabs_ids. lia.
Qed.

Lemma freed_tabs (p : Window -> bool) l :
  map win_tabs (map (fun w => if p w then set_win_workspace w None else w) l) = map win_tabs l.
Proof. rewrite map_map. apply map_ext. intros w. by destruct (p w). Qed.

Lemma freed_ids (p : Window -> bool) l :
  map win_id (map (fun w => if p w then set_win_workspace w None else w) l) = map win_id l.
Proof. rewrite map_map. apply map_ext. intros w. by destruct (p w). Qed.

Lemma freed_leads (p : Window -> bool) l :
  flat_map lead_panes (map (fun w => if p w then set_win_workspace w None else w) l) = flat_map lead_panes l.
Proof. rewrite flat_map_map. apply flat_map_ext. intros w. by destruct (p w). Qed.

Lemma flat_map_delete_perm {A B} (f : A -> list B) l i x :
  l !! i = Some x -> flat_map f l ≡ₚ f x ++ flat_map f (delete i l).
Proof.
  intros Hi. rewrite delete_split. rewrite (split_lookup _ _ _ Hi) at 1. rewrite !flat_map_app. simpl.
  solve_Permutation.
Qed.

Lemma map_delete {A B} (f : A -> B) l i : map f (delete i l) = delete i (map f l).
Proof. by rewrite !delete_split, map_app, firstn_map, skipn_map. Qed.

Lemma dissolved_panes n ws : tabs_panes (dissolved_bar n ws) = tabs_panes (ws_tabs ws) ++ ws_background ws.
Proof. unfold tabs_panes. simpl. by rewrite flat_map_app, background_tabs_panes. Qed.

Lemma dissolved_ids n ws :
  tab_ids (dissolved_bar n ws) = tab_ids (ws_tabs ws) ++
    map tab_id (background_tabs n (tabs_count (ws_tabs ws)) (ws_background ws)).
Proof. unfold tab_ids. simpl. by rewrite map_app. Qed.

Lemma dissolve_spec m s ws :
  ids_wf m -> m_workspaces m !! s = Some ws ->
  exists m', dissolve m s = Some m' /\ all_panes m ≡ₚ dock_pane (ws_dock ws) :: all_panes m' /\ ids_wf m' /\
    map win_tabs (m_windows m') = map win_tabs (m_windows m) /\ win_ids m' = win_ids m /\
    m_workspaces m' = delete s (m_workspaces m).
Proof.
  intros Hwf Hs. unfold dissolve. rewrite Hs. simpl. eexists; split; [done|].
  assert (ws_tabs <$> m_workspaces m !! s = Some (ws_tabs ws)) as Hts by (by rewrite Hs).
  split_and!; simpl; [..|apply freed_tabs|apply freed_ids|done].
  - rewrite !all_panes_split. unfold bar_panes, bars, extras. cbn -[flat_map dissolved_bar tabs_panes].
    rewrite freed_tabs, freed_leads.
    rewrite !flat_map_app, !flat_map_map. cbn [flat_map]. rewrite dissolved_panes.
    rewrite (flat_map_delete_perm ws_extras _ _ _ Hs).
    rewrite (flat_map_delete_perm (fun x => tabs_panes (ws_tabs x)) _ _ _ Hs).
    unfold ws_extras at 1. solve_Permutation.
  - set (bg := background_tabs (m_tab_counter m) (tabs_count (ws_tabs ws)) (ws_background ws)).
    destruct Hwf as [Hnd Hwin Hws Hf Hfw Hfs Htr]. unfold all_tab_ids, bars in *. rewrite !flat_map_app, !flat_map_map in *.
    assert (forall x, x ∈ map tab_id bg -> exists k, (m_tab_counter m < k <= m_tab_counter m + N.of_nat (length (ws_background ws)))%N /\ x = tab_name_of k) as Hbg.
    { intros x. apply background_tabs_ids. }
    assert (flat_map (fun w => tab_ids (win_tabs w)) (m_windows m) ++
      flat_map (fun w => tab_ids (ws_tabs w)) (delete s (m_workspaces m)) ++
      flat_map tab_ids (m_orphans m) ++ tab_ids (ws_tabs ws) ++ map tab_id bg ≡ₚ
      (flat_map (fun w => tab_ids (win_tabs w)) (m_windows m) ++
       flat_map (fun w => tab_ids (ws_tabs w)) (m_workspaces m) ++ flat_map tab_ids (m_orphans m)) ++ map tab_id bg) as Hperm.
    { rewrite (flat_map_delete_perm (fun w => tab_ids (ws_tabs w)) _ _ _ Hs). solve_Permutation. }
    split; unfold all_tab_ids, bars, win_ids, ws_ids; cbn -[flat_map dissolved_bar tab_ids N.add]; rewrite ?freed_tabs, ?freed_ids; try done.
    + rewrite !flat_map_app, !flat_map_map. cbn [flat_map]. rewrite app_nil_r, dissolved_ids.
      fold bg. rewrite Hperm. apply NoDup_app. split_and!; [done| |apply background_tabs_NoDup].
      intros x Hx (k & Hk & ->)%Hbg. apply (Hf k); [lia|done].
    + rewrite map_delete. eapply NoDup_under; [exact Hws|]. apply sublist_submseteq, sublist_delete.
    + intros n Hn. rewrite !flat_map_app, !flat_map_map. cbn [flat_map]. rewrite app_nil_r, dissolved_ids.
      fold bg. rewrite Hperm, elem_of_app. intros [Hx|(k & Hk & E%tab_name_inj)%Hbg].
      * apply (Hf n); [lia|done].
      * lia.
    + intros n Hn Hx. apply (Hfs n Hn). rewrite map_delete in Hx. eapply elem_of_submseteq; [exact Hx|].
      apply sublist_submseteq, sublist_delete.
    + rewrite !Forall_app, !Forall_map in *. destruct Htr as (H1 & H2 & H3). split_and!; try done.
      * by apply Forall_delete.
      * repeat constructor. apply Forall_app. split; [|apply background_tabs_wf].
        eapply Forall_lookup_1 in H2; [|done]. done.
Qed.

(** ** [detach] *)

Lemma remove_orphan_spec l id :
  Forall tabs_wf l ->
  exists l', remove_orphan l id = Some l' /\ Forall tabs_wf l' /\ map tab_ids l' = map tab_ids l /\
    ((id ∉ flat_map tabs_panes l /\ l' = l) \/ flat_map tabs_panes l ≡ₚ id :: flat_map tabs_panes l').
Proof.
  induction 1 as [|ts l Hts Hl IH]; simpl.
  - exists []. split_and!; try done. left. split; [|done]. apply not_elem_of_nil.
  - destruct (tabs_remove_spec ts id Hts) as [[Hn ->]|(Hin & ts' & -> & Hsw & Hk & Hw)]; simpl.
    + destruct IH as (l' & -> & Hl' & Hids & Hc). simpl. exists (ts :: l').
      split_and!; simpl; [done|by constructor|by rewrite Hids|].
      destruct Hc as [[Hn' ->]|Hp]; [left|right].
      * split; [|done]. rewrite not_elem_of_app. done.
      * rewrite Hp. solve_Permutation.
    + exists (ts' :: l). split_and!; simpl; [done|by constructor|by rewrite (kept_ids _ _ Hk)|right].
      apply swaps_panes_perm in Hsw. rewrite app_nil_r in Hsw. rewrite <- Hsw. solve_Permutation.
Qed.

Lemma set_orphans_id m : set_orphans m (m_orphans m) = m.
Proof. by destruct m. Qed.

Lemma elem_of_all m id : id ∈ all_panes m <-> id ∈ bar_panes m \/ id ∈ extras m.
Proof. by rewrite all_panes_split, elem_of_app. Qed.

Lemma remove_one_perm (l : list string) id :
  NoDup l -> id ∈ l -> retain (fun p => negb (bool_decide (p = id))) l ++ [id] ≡ₚ l.
Proof.
  induction 1 as [|x l Hx H IH]; [by intros ?%elem_of_nil|]. simpl.
  intros [->|Hin]%elem_of_cons.
  - rewrite bool_decide_eq_true_2 by done. simpl. rewrite retain_all; [solve_Permutation|].
    apply Forall_forall. intros y Hy. apply negb_true_iff, bool_decide_eq_false. by intros ->.
  - rewrite bool_decide_eq_false_2 by (by intros ->). simpl. by rewrite IH.
Qed.

Definition docks (m : Model) : list string := map (fun ws => dock_pane (ws_dock ws)) (m_workspaces m).

Lemma frame_docks m m' : same_frame m m' -> docks m' = docks m.
Proof. apply frame_query. intros m''. unfold docks. simpl. by rewrite map_map. Qed.

(** What taking [id] out leaves: nothing else moves, and only a dock takes its workspace along. *)
Record detached (m m' : Model) (id : string) : Prop := {
  det_ids : ids_wf m';
  det_gone : (id ∉ all_panes m /\ m' = m) \/ all_panes m ≡ₚ id :: all_panes m';
  det_window_bars : map (fun w => tab_ids (win_tabs w)) (m_windows m') =
                    map (fun w => tab_ids (win_tabs w)) (m_windows m);
  det_win_ids : win_ids m' = win_ids m;
  det_bars : dock_ws m id = None \/ id ∈ bar_panes m ++ flat_map ws_background (m_workspaces m) ->
             map tab_ids (live_bars m') = map tab_ids (live_bars m) /\ ws_ids m' = ws_ids m /\
             (forall x, x ≠ id -> x ∈ flat_map tabs_panes (live_bars m) -> x ∈ flat_map tabs_panes (live_bars m')) /\
             docks m' = docks m }.

Lemma lookup_extras m s ws x : m_workspaces m !! s = Some ws -> x ∈ ws_extras ws -> x ∈ extras m.
Proof.
  intros Hs Hx. unfold extras. apply elem_of_app; right. apply elem_of_flat_map. exists ws.
  split; [by eapply list_elem_of_lookup_2|done].
Qed.

Lemma background_ws_Some m id s :
  background_ws m id = Some s -> exists ws, m_workspaces m !! s = Some ws /\ id ∈ ws_background ws.
Proof. intros (ws & Hs & Hc)%position_Some. exists ws. by apply contains_true in Hc. Qed.

Lemma dock_ws_Some m id s :
  dock_ws m id = Some s -> exists ws, m_workspaces m !! s = Some ws /\ dock_pane (ws_dock ws) = id.
Proof. intros (ws & Hs & Hc)%position_Some. exists ws. by apply bool_decide_eq_true in Hc. Qed.

Lemma lead_window_Some m id w :
  lead_window m id = Some w ->
  exists win d, m_windows m !! w = Some win /\ win_lead win = Some d /\ dock_pane d = id.
Proof.
  intros (win & Hw & Hc)%position_Some. unfold leads in Hc.
  destruct (win_lead win) as [d|] eqn:E; [|done]. apply bool_decide_eq_true in Hc. by exists win, d.
Qed.

(** A pane that is no background, lead or dock is in no place outside the tabs. *)
Lemma not_extra m id :
  background_ws m id = None -> lead_window m id = None -> dock_ws m id = None -> id ∉ extras m.
Proof.
  unfold background_ws, lead_window, dock_ws. rewrite !position_None, !Forall_forall.
  intros Hb Hl Hd. unfold extras. rewrite elem_of_app, !elem_of_flat_map.
  intros [(w & Hw & Hin)|(ws & Hw & Hin)].
  - specialize (Hl w Hw). unfold leads, lead_panes in *. destruct (win_lead w); [|by apply elem_of_nil in Hin].
    apply list_elem_of_singleton in Hin. apply bool_decide_eq_false in Hl. by subst.
  - unfold ws_extras in Hin. apply elem_of_cons in Hin as [->|Hin].
    + specialize (Hd ws Hw). by apply bool_decide_eq_false in Hd.
    + specialize (Hb ws Hw). by apply contains_false in Hb.
Qed.

Lemma NoDup_extras m : NoDup (all_panes m) -> NoDup (extras m).
Proof. rewrite all_panes_split. by intros (_ & _ & ?)%NoDup_app. Qed.

Lemma ws_extras_NoDup m s ws : NoDup (all_panes m) -> m_workspaces m !! s = Some ws -> NoDup (ws_extras ws).
Proof.
  intros (_ & _ & H)%NoDup_extras%NoDup_app Hs. rewrite (flat_map_delete_perm _ _ _ _ Hs) in H.
  by apply NoDup_app in H as [? _].
Qed.

Lemma detach_background m id s :
  model_wf m -> background_ws m id = Some s ->
  exists m', alter_workspace m s (fun ws =>
      Some (set_ws_background ws (retain (fun p => negb (bool_decide (p = id))) (ws_background ws)))) = Some m' /\
    detached m m' id.
Proof.
  intros [Hids Hnd] (ws & Hs & Hin)%background_ws_Some. unfold alter_workspace. rewrite Hs. simpl.
  eexists; split; [done|].
  pose proof (ws_extras_NoDup m s ws Hnd Hs) as Hx. apply NoDup_cons in Hx as [_ Hx].
  destruct (alter_workspace_extras m s ws (set_ws_background ws
    (retain (fun p => negb (bool_decide (p = id))) (ws_background ws))) [id] [] Hs) as (Hb & Hi & Hp); [done..| |].
  { unfold ws_extras. simpl. by rewrite remove_one_perm, app_nil_r. }
  split; try done.
  - by eapply ids_wf_same.
  - right. rewrite app_nil_r in Hp. rewrite <- Hp. solve_Permutation.
  - intros _. unfold live_bars, docks. simpl.
    by rewrite (map_insert_eq ws_tabs _ _ ws), (map_insert_eq (fun ws => dock_pane (ws_dock ws)) _ _ ws).
Qed.

Lemma detach_lead m id w :
  model_wf m -> lead_window m id = Some w ->
  exists m', alter_window m w (fun win => Some (set_win_lead win None)) = Some m' /\ detached m m' id.
Proof.
  intros [Hids Hnd] (win & d & Hw & Hl & Hd)%lead_window_Some. unfold alter_window. rewrite Hw. simpl.
  eexists; split; [done|].
  destruct (alter_window_extras m w win (set_win_lead win None) Hw) as (Hb & Hi & Hp); [done..|].
  split; try done.
  - by eapply ids_wf_same.
  - right. unfold lead_panes in Hp. rewrite Hl, Hd in Hp. simpl in Hp. rewrite app_nil_r in Hp.
    rewrite <- Hp. solve_Permutation.
  - by apply (map_insert_eq (fun w => tab_ids (win_tabs w)) _ _ win).
  - intros _. unfold live_bars. simpl. by rewrite (map_insert_eq win_tabs _ _ win).
Qed.

Lemma detach_tab m id l :
  ids_wf m -> locate m id = Some l ->
  exists m', alter_tabs m (loc_holder l) (fun ts => snd <$> tabs_remove ts id) = Some m' /\ detached m m' id.
Proof.
  intros Hids (ts & Hts & Hl)%locate_Some.
  assert (tabs_wf ts) as Htw.
  { destruct Hids as [_ _ _ _ _ _ Htr]. eapply Forall_lookup_1; [exact Htr|by apply tabs_of_bar]. }
  destruct (tabs_remove_spec ts id Htw) as [[Hn _]|(Hin & ts' & Hr & Hsw & Hk & Hw)].
  { apply tabs_locate_None in Hn. congruence. }
  destruct (alter_tabs_wf m (loc_holder l) (fun ts => snd <$> tabs_remove ts id) ts ts' [id] [])
    as (m' & Ha & Ht' & Hfr & Hb & Hp & Hw'); [done|done|by rewrite Hr|by apply swaps_panes_perm|
    by rewrite (kept_ids _ _ Hk)|done|].
  exists m'. split; [done|].
  assert (map tab_ids (bars m') = map tab_ids (bars m)) as Hbids.
  { rewrite Hb. eapply map_insert_eq; [by apply tabs_of_bar|]. by apply kept_ids. }
  assert (length (m_windows m') = length (m_windows m)) as Hlen.
  { pose proof (f_equal length (frame_win_ids _ _ Hfr)) as E. unfold win_ids in E. by rewrite !length_map in E. }
  rewrite !bars_live, !map_app in Hbids. destruct (frame_counters _ _ Hfr) as (_ & _ & _ & Ho & _).
  rewrite Ho in Hbids. apply app_inv_tail in Hbids.
  split; try done.
  - right. rewrite app_nil_r in Hp. rewrite <- Hp. solve_Permutation.
  - unfold live_bars in Hbids. rewrite !map_app, !map_map in Hbids.
    apply app_inj_1 in Hbids as [? _]; [done|]. by rewrite !length_map.
  - by apply frame_win_ids.
  - intros _. split_and!; [done|by apply frame_ws_ids| |].
    2: { by apply frame_docks. }
    intros x Hx Hin'.
    assert (flat_map tabs_panes (bars m') ++ [id] ≡ₚ flat_map tabs_panes (bars m) ++ []) as Hlive.
    { rewrite Hb. eapply flat_map_insert_perm; [by apply tabs_of_bar|]. by apply swaps_panes_perm. }
    rewrite !bars_live, !flat_map_app, Ho, app_nil_r in Hlive.
    assert (flat_map tabs_panes (live_bars m') ++ [id] ≡ₚ flat_map tabs_panes (live_bars m)) as Hl'.
    { apply (inj (fun l => l ++ flat_map tabs_panes (m_orphans m))). rewrite <- Hlive. solve_Permutation. }
    rewrite <- Hl', elem_of_app in Hin'. destruct Hin' as [?|?%list_elem_of_singleton]; done.
Qed.

(** [detach] takes one pane out of wherever it is, and never panics. *)
Lemma detach_spec m id : model_wf m -> exists m', detach m id = Some m' /\ detached m m' id.
Proof.
  intros Hwf. unfold detach. destruct (background_ws m id) as [s|] eqn:Hb; [by apply detach_background|].
  destruct (lead_window m id) as [w|] eqn:Hl; [by apply detach_lead|].
  destruct Hwf as [Hids Hnd]. destruct (dock_ws m id) as [s|] eqn:Hd.
  - destruct (dock_ws_Some _ _ _ Hd) as (ws & Hs & Hp).
    destruct (dissolve_spec m s ws Hids Hs) as (m' & Hm & Hperm & Hw & Ht & Hi & _). exists m'. split; [done|].
    rewrite Hp in Hperm. split; try done.
    + by right.
    + rewrite <- !(map_map win_tabs tab_ids). by rewrite Ht.
    + intros [?|Hin]; [congruence|]. exfalso. rewrite all_panes_split in Hnd. apply NoDup_app in Hnd as (_ & Hdj & Hx).
      apply elem_of_app in Hin as [Hin|Hin].
      * apply (Hdj id Hin). eapply lookup_extras; [done|]. unfold ws_extras. rewrite Hp. left.
      * apply elem_of_flat_map in Hin as (ws' & Hw' & Hin). unfold background_ws in Hb.
        rewrite position_None, Forall_forall in Hb. specialize (Hb ws' Hw'). by apply contains_false in Hb.
  - destruct (locate m id) as [l|] eqn:Hloc; [by apply detach_tab|].
    destruct (remove_orphan_spec (m_orphans m) id) as (l' & -> & Hl' & Ht & Hc).
    { destruct Hids as [_ _ _ _ _ _ Htr]. rewrite bars_live, Forall_app in Htr. apply Htr. }
    simpl. exists (set_orphans m l'). split; [done|].
    assert (all_tab_ids (set_orphans m l') = all_tab_ids m) as Htids.
    { unfold all_tab_ids, bars. simpl. rewrite !flat_map_app. do 2 f_equal.
      by rewrite !flat_map_concat_map, Ht. }
    split; try done.
    + eapply ids_wf_mono; [exact Hids|..]; rewrite ?Htids; try done.
      destruct Hids as [_ _ _ _ _ _ Htr]. rewrite bars_live, Forall_app in Htr.
      rewrite bars_live. apply Forall_app. split; [apply Htr|done].
    + destruct Hc as [[Hn ->]|Hp]; [left|right].
      * rewrite set_orphans_id. split; [|done]. rewrite elem_of_all. unfold bar_panes.
        rewrite bars_live, flat_map_app, elem_of_app. apply locate_None in Hloc.
        pose proof (not_extra _ _ Hb Hl Hd). tauto.
      * unfold all_panes, orphan_panes. change (placed (set_orphans m l')) with (placed m). simpl.
        rewrite Hp. solve_Permutation.
Qed.

Lemma detached_perm m m' id : detached m m' id -> id ∈ all_panes m -> all_panes m ≡ₚ id :: all_panes m'.
Proof. by intros [_ [[? _]|?] _ _ _] ?. Qed.

Lemma detached_wf m m' id : model_wf m -> detached m m' id -> model_wf m' /\ id ∉ all_panes m'.
Proof.
  intros [Hids Hnd] [Hids' [[Hn ->]|Hp] _ _ _]; [done|]. rewrite Hp in Hnd. apply NoDup_cons in Hnd as [? ?].
  done.
Qed.

(** ** [drop_empty] *)

(** A tab bar in order: no empty tab, an active tab, the focus on a pane that shows. *)
Record bar_ok (side : option string) (ts : Tabs) : Prop := {
  bar_rooted : Forall (fun tab => is_Some (tab_root tab)) (tabs_tabs ts);
  bar_active : active_ok ts;
  bar_focus : focus_ok ts side }.

Definition window_ok (ids : list string) (w : Window) : Prop :=
  bar_ok (dock_pane <$> win_lead w) (win_tabs w) /\ window_kept w = true /\
  (forall id, win_workspace w = Some id -> id ∈ ids).

(** A layout in order, as every command leaves it. *)
Record tidy_model (m : Model) : Prop := {
  tidy_orphans : m_orphans m = [];
  tidy_windows : Forall (window_ok (ws_ids m)) (m_windows m);
  tidy_workspaces : Forall (fun ws => bar_ok (Some (dock_pane (ws_dock ws))) (ws_tabs ws)) (m_workspaces m) }.

Lemma settle_bar_tabs side ts : tabs_tabs (settle_bar side ts) = tabs_tabs (tidy ts).
Proof. unfold settle_bar, settle_focus. by case_match. Qed.

Lemma settle_bar_panes side ts : tabs_panes (settle_bar side ts) = tabs_panes ts.
Proof. unfold settle_bar. by rewrite (same_shape_panes _ _ (settle_focus_shape _ _)), tidy_panes. Qed.

Lemma settle_bar_ids side ts : tab_ids (settle_bar side ts) ⊆+ tab_ids ts.
Proof.
  unfold settle_bar. rewrite (same_shape_ids _ _ (settle_focus_shape _ _)).
  apply sublist_submseteq, tidy_ids.
Qed.

Lemma settle_bar_wf side ts : tabs_wf ts -> tabs_wf (settle_bar side ts).
Proof. intros H. eapply same_shape_wf; [apply settle_focus_shape|]. by apply tidy_wf. Qed.

Lemma settle_bar_ok side ts : bar_ok side (settle_bar side ts).
Proof.
  split; [|unfold active_ok|apply settle_focus_ok].
  - rewrite settle_bar_tabs. apply tidy_rooted.
  - rewrite settle_bar_tabs. assert (tabs_active (settle_bar side ts) = tabs_active (tidy ts)) as ->.
    { unfold settle_bar, settle_focus. by case_match. }
    apply tidy_active.
Qed.

Lemma submseteq_flat_map {A B} (f g : A -> list B) l :
  (forall x, x ∈ l -> f x ⊆+ g x) -> flat_map f l ⊆+ flat_map g l.
Proof.
  induction l as [|x l IH]; intros H; simpl; [done|].
  apply submseteq_app; [apply H; left|]. apply IH. intros y Hy. apply H. by right.
Qed.

Lemma free_gone_spec m :
  let m' := free_gone m in
  bars m' = bars m /\ win_ids m' = win_ids m /\ extras m' = extras m /\
  Forall (fun w => forall id, win_workspace w = Some id -> id ∈ ws_ids m) (m_windows m').
Proof.
  assert (forall A (f : Window -> A), (forall w, f (set_win_workspace w None) = f w) ->
    map f (m_windows (free_gone m)) = map f (m_windows m)) as Hmap.
  { intros A f Hf. unfold free_gone. simpl. rewrite map_map. apply map_ext. intros w.
    destruct (win_workspace w); [|done]. by destruct (ws_index m s). }
  split_and!.
  - unfold bars. simpl. f_equal. by apply Hmap.
  - by apply Hmap.
  - unfold extras. f_equal. rewrite !flat_map_concat_map. f_equal. by apply Hmap.
  - apply Forall_forall. intros w (w0 & -> & Hw)%list_elem_of_fmap id.
    destruct (win_workspace w0) as [i|] eqn:E; [|by rewrite E].
    destruct (ws_index m i) as [s|] eqn:Hi; [|done]. rewrite E. intros [= <-].
    apply position_Some in Hi as (ws & Hs & Hc%bool_decide_eq_true). unfold ws_ids.
    apply list_elem_of_fmap. exists ws. split; [done|]. by eapply list_elem_of_lookup_2.
Qed.

Lemma settle_all_spec m :
  let m' := settle_all m in
  all_panes m' = all_panes m /\ win_ids m' = win_ids m /\ ws_ids m' = ws_ids m /\
  (ids_wf m -> ids_wf m').
Proof.
  assert (win_ids (settle_all m) = win_ids m) as Hw by (unfold win_ids; simpl; by rewrite map_map).
  assert (ws_ids (settle_all m) = ws_ids m) as Hs by (unfold ws_ids; simpl; by rewrite map_map).
  split_and!; [|done|done|].
  - unfold all_panes, placed. simpl. rewrite !flat_map_map. do 2 f_equal.
    + apply flat_map_ext. intros w. unfold win_panes. simpl. by rewrite settle_bar_panes.
    + apply flat_map_ext. intros ws. unfold ws_panes. simpl. by rewrite settle_bar_panes.
  - intros Hwf. eapply ids_wf_mono; [exact Hwf|..]; rewrite ?Hw, ?Hs; try done.
    + unfold all_tab_ids, bars. simpl. rewrite !flat_map_app, !flat_map_map.
      apply submseteq_app; [|apply submseteq_app; [|done]]; apply submseteq_flat_map; intros; apply settle_bar_ids.
    + destruct Hwf as [_ _ _ _ _ _ Htr]. unfold bars in *. simpl. rewrite !Forall_app, !Forall_map in *.
      destruct Htr as (H1 & H2 & H3). split_and!; [| |done]; (eapply Forall_impl; [done|]);
        intros; by apply settle_bar_wf.
Qed.

Lemma flat_map_retain {A B} (f : A -> list B) p l :
  (forall x, p x = false -> f x = []) -> flat_map f (retain p l) = flat_map f l.
Proof.
  intros H. induction l as [|x l IH]; simpl; [done|]. destruct (p x) eqn:E; simpl; [by rewrite IH|].
  by rewrite IH, (H x E).
Qed.

Lemma window_kept_false w : window_kept w = false -> tabs_tabs (win_tabs w) = [] /\ win_lead w = None.
Proof.
  unfold window_kept. rewrite orb_false_iff, negb_false_iff, bool_decide_eq_true, bool_decide_eq_false.
  intros [? H]. split; [done|]. destruct (win_lead w); [by destruct H; eexists|done].
Qed.

Lemma drop_windows_spec m :
  let m' := set_windows m (retain window_kept (m_windows m)) in
  all_panes m' = all_panes m /\ (ids_wf m -> ids_wf m').
Proof.
  split.
  - unfold all_panes, placed. simpl. rewrite flat_map_retain; [done|].
    intros w [Ht Hl]%window_kept_false. unfold win_panes, lead_panes, tabs_panes. by rewrite Ht, Hl.
  - intros Hwf. eapply ids_wf_mono; [exact Hwf|..]; try done.
    + unfold all_tab_ids, bars. simpl. rewrite !flat_map_app, !flat_map_map, flat_map_retain; [done|].
      intros w [Ht Hl]%window_kept_false. unfold tab_ids. by rewrite Ht.
    + unfold win_ids. simpl. apply sublist_submseteq. apply (fmap_sublist win_id), retain_sublist.
    + destruct Hwf as [_ _ _ _ _ _ Htr]. unfold bars in *. simpl. rewrite !Forall_app, !Forall_map in *.
      destruct Htr as (H1 & H2 & H3). split_and!; try done. apply Forall_forall. intros w [_ Hw]%elem_of_retain.
      rewrite Forall_forall in H1. auto.
Qed.

(** The bar an adopted orphan gets. *)
Definition adopted (tabs : Tabs) : Tabs :=
  settle_focus (set_zoom (set_count (tidy tabs) (N.of_nat (length (tabs_tabs (tidy tabs))))) false) None.

Lemma adopted_tabs ts : tabs_tabs (adopted ts) = tabs_tabs (tidy ts).
Proof. unfold adopted, settle_focus. by case_match. Qed.

Lemma adopted_ok ts : bar_ok None (adopted ts).
Proof.
  split; [|unfold active_ok|apply settle_focus_ok].
  - rewrite adopted_tabs. apply tidy_rooted.
  - rewrite adopted_tabs. assert (tabs_active (adopted ts) = tabs_active (tidy ts)) as ->.
    { unfold adopted, settle_focus. by case_match. }
    apply tidy_active.
Qed.

Lemma adopt_cases m ts :
  (tabs_tabs (tidy ts) = [] /\ adopt m ts = m) \/
  (tabs_tabs (tidy ts) ≠ [] /\ adopt m ts =
    set_windows (set_win_counter m (m_win_counter m + 1))
      (m_windows m ++ [set_win_tabs (window_new (win_name_of (m_win_counter m + 1))) (adopted ts)])).
Proof.
  unfold adopt. case_bool_decide as E; [by left|right]. split; [done|].
  unfold make_window. cbn -[N.add]. f_equal. rewrite length_app. simpl.
  replace (_ + 1 - 1) with (length (m_windows m)) by lia.
  rewrite alter_app_r_alt by lia. by rewrite Nat.sub_diag.
Qed.

(** One adoption, with the orphans still to come in [rest]. *)
Lemma adopt_spec m ts rest :
  ids_wf (set_orphans m (ts :: rest)) ->
  ids_wf (set_orphans (adopt m ts) rest) /\
  all_panes (set_orphans (adopt m ts) rest) ≡ₚ all_panes (set_orphans m (ts :: rest)).
Proof.
  intros Hwf. pose proof (tidy_panes ts) as Hp.
  destruct (adopt_cases m ts) as [[Hnil ->]|[Hne ->]].
  - split.
    + eapply ids_wf_mono; [exact Hwf|..]; try done.
      * unfold all_tab_ids, bars. simpl. rewrite !flat_map_app. simpl. apply submseteq_app; [done|].
        apply submseteq_app; [done|]. by apply submseteq_inserts_l.
      * destruct Hwf as [_ _ _ _ _ _ Htr]. unfold bars in *. simpl in *. rewrite !Forall_app, Forall_cons in *. tauto.
    + unfold all_panes, orphan_panes, placed. simpl. rewrite <- Hp. unfold tabs_panes at 2. by rewrite Hnil.
  - set (w := set_win_tabs (window_new (win_name_of (m_win_counter m + 1))) (adopted ts)).
    destruct (make_window_spec (set_orphans m rest) _ _ eq_refl) as (_ & _ & _ & _ & Hmk).
    assert (tab_ids (adopted ts) ⊆+ tab_ids ts) as Hids.
    { unfold tab_ids. rewrite adopted_tabs. apply sublist_submseteq, tidy_ids. }
    assert (tabs_panes (adopted ts) = tabs_panes ts) as Hpanes.
    { unfold tabs_panes. rewrite adopted_tabs. apply Hp. }
    split.
    + destruct Hwf as [Hnd Hwin Hws Hft Hfw Hfs Htr].
      assert (all_tab_ids (set_orphans (set_windows (set_win_counter m (m_win_counter m + 1)) (m_windows m ++ [w])) rest)
        ⊆+ all_tab_ids (set_orphans m (ts :: rest))) as Hsub.
      { unfold all_tab_ids, bars. simpl. rewrite map_app, !flat_map_app. simpl. rewrite app_nil_r.
        set (a := flat_map _ (map win_tabs _)). set (b := flat_map _ (map ws_tabs _)). set (c := flat_map _ rest).
        transitivity (tab_ids (adopted ts) ++ a ++ b ++ c); [apply Permutation_submseteq; solve_Permutation|].
        transitivity (tab_ids ts ++ a ++ b ++ c); [by apply submseteq_app|].
        apply Permutation_submseteq. solve_Permutation. }
      destruct Hmk as [_ Hwin' _ _ Hfw' _ _].
      { split; try done.
        - eapply NoDup_under; [exact Hnd|]. unfold all_tab_ids, bars. simpl. rewrite !flat_map_app.
          apply submseteq_app; [done|]. apply submseteq_app; [done|]. by apply submseteq_inserts_l.
        - eapply fresh_above_mono; [exact Hft|done|]. intros x. unfold all_tab_ids, bars. simpl.
          rewrite !flat_map_app, !elem_of_app. simpl. rewrite elem_of_app. tauto.
        - unfold bars in *. simpl in *. rewrite !Forall_app, Forall_cons in *. tauto. }
      split; try done.
      * eapply NoDup_under; [exact Hnd|done].
      * unfold win_ids in *. simpl in *. by rewrite map_app in *.
      * eapply fresh_above_mono; [exact Hft|done|]. intros x Hx. by eapply elem_of_submseteq.
      * unfold win_ids in *. simpl in *. by rewrite map_app in *.
      * unfold bars in *. simpl in *. rewrite map_app. rewrite !Forall_app, Forall_cons in *.
        destruct Htr as (H1 & H2 & H3 & H4). split_and!; try done. repeat constructor. simpl.
        unfold tabs_wf. rewrite adopted_tabs. by apply tidy_wf.
    + unfold all_panes, orphan_panes, placed. simpl. rewrite flat_map_app. simpl.
      unfold win_panes at 2. simpl. rewrite Hpanes, !app_nil_r. solve_Permutation.
Qed.

Lemma adopt_orphans m ts : m_orphans (adopt m ts) = m_orphans m.
Proof. by destruct (adopt_cases m ts) as [[_ ->]|[_ ->]]. Qed.

Lemma set_orphans_same m l : m_orphans m = l -> set_orphans m l = m.
Proof. intros <-. apply set_orphans_id. Qed.

Lemma adopt_all l m :
  m_orphans m = [] -> ids_wf (set_orphans m l) ->
  let m' := foldl adopt m l in
  m_orphans m' = [] /\ ids_wf m' /\ all_panes m' ≡ₚ all_panes (set_orphans m l).
Proof.
  revert m. induction l as [|ts l IH]; intros m Ho Hwf; simpl.
  - rewrite (set_orphans_same _ _ Ho) in *. done.
  - destruct (adopt_spec _ _ _ Hwf) as [Hwf' Hp].
    destruct (IH (adopt m ts)) as (H1 & H2 & H3); [by rewrite adopt_orphans|done|].
    split_and!; [done..|]. by rewrite H3.
Qed.

Lemma adopt_windows m ts :
  ws_ids (adopt m ts) = ws_ids m /\ m_workspaces (adopt m ts) = m_workspaces m /\
  (Forall (window_ok (ws_ids m)) (m_windows m) -> Forall (window_ok (ws_ids m)) (m_windows (adopt m ts))).
Proof.
  destruct (adopt_cases m ts) as [[_ ->]|[Hne ->]]; [done|]. split_and!; [done|done|].
  intros H. simpl. apply Forall_app. split; [done|]. apply Forall_cons_2; [|constructor]. split_and!.
  - apply adopted_ok.
  - unfold window_kept. simpl. rewrite adopted_tabs. by rewrite bool_decide_eq_false_2.
  - done.
Qed.

Lemma adopt_all_windows l m :
  let m' := foldl adopt m l in
  m_workspaces m' = m_workspaces m /\
  (Forall (window_ok (ws_ids m)) (m_windows m) -> Forall (window_ok (ws_ids m)) (m_windows m')).
Proof.
  revert m. induction l as [|ts l IH]; intros m; simpl; [done|].
  destruct (adopt_windows m ts) as (Hs & Hw & Hok). destruct (IH (adopt m ts)) as (H1 & H2).
  rewrite Hs in H2. split; [congruence|]. auto.
Qed.

(** [drop_empty] loses no pane, and leaves the layout in order. *)
Lemma drop_empty_spec m :
  ids_wf m -> all_panes (drop_empty m) ≡ₚ all_panes m /\ ids_wf (drop_empty m) /\ tidy_model (drop_empty m).
Proof.
  intros Hwf. unfold drop_empty. set (m1 := settle_all (free_gone m)).
  set (m2 := set_windows m1 (retain window_kept (m_windows m1))). cbv zeta.
  destruct (free_gone_spec m) as (Hb & Hwi & Hx & Hfree).
  assert (ids_wf (free_gone m)) as Hwf0 by (by eapply ids_wf_same).
  destruct (settle_all_spec (free_gone m)) as (Hp1 & Hwi1 & Hsi1 & Hwf1). fold m1 in Hp1, Hwi1, Hsi1, Hwf1.
  destruct (drop_windows_spec m1) as (Hp2 & Hwf2). fold m2 in Hp2, Hwf2.
  destruct (adopt_all (m_orphans m2) (set_orphans m2 [])) as (Ho & Hwf3 & Hp3); [done| |].
  { change (ids_wf (set_orphans m2 (m_orphans m2))). rewrite set_orphans_id. auto. }
  change (set_orphans (set_orphans m2 []) (m_orphans m2)) with (set_orphans m2 (m_orphans m2)) in Hp3.
  rewrite set_orphans_id in Hp3. fold m1. fold m2.
  split_and!; [|done|].
  - rewrite Hp3, Hp2, Hp1, !all_panes_split. unfold bar_panes. by rewrite Hb, Hx.
  - destruct (adopt_all_windows (m_orphans m2) (set_orphans m2 [])) as (Hs & Hw).
    split; [done|..].
    + replace (ws_ids (foldl adopt (set_orphans m2 []) (m_orphans m2))) with (ws_ids (set_orphans m2 []))
        by (unfold ws_ids; by rewrite Hs).
      apply Hw. apply Forall_forall. intros w [Hk Hin]%elem_of_retain. simpl in Hin.
      apply list_elem_of_fmap in Hin as (w0 & -> & Hin). split_and!.
      * apply settle_bar_ok.
      * done.
      * rewrite Forall_forall in Hfree. intros id Hid. change (ws_ids (set_orphans m2 [])) with (ws_ids m1).
        rewrite Hsi1. by apply (Hfree w0).
    + rewrite Hs. simpl. apply Forall_map. apply Forall_forall. intros ws _. apply settle_bar_ok.
Qed.

(** ** [swap] *)

(** Writing a pane at one place leaves every other place as it was. *)
Lemma pane_at_set root p i old id root' q j x :
  pane_at root p i old -> split_mut root p (set_kid i id) = Some root' ->
  pane_at root q j x -> x ≠ old -> pane_at root' q j x.
Proof.
  revert root root' q. induction p as [|k p IH]; intros [pane|s] root' q (sp & kid & Hs & Hk & Hn) Hm
    (sp' & kid' & Hs' & Hk' & Hn') Hx; simpl in *; try done.
  - injection Hs as <-. apply fmap_Some in Hm as (s' & Hf & ->).
    unfold set_kid in Hf. rewrite Hk in Hf. simpl in Hf. injection Hf as <-.
    destruct q as [|k' q]; simpl in Hs'.
    + injection Hs' as <-. eexists _, kid'. split_and!; [done| |done]. simpl.
      rewrite list_lookup_insert_ne; [done|]. intros ->. congruence.
    + apply bind_Some in Hs' as (c & Hc & Hs'). exists sp', kid'. split_and!; [|done..]. simpl.
      rewrite list_lookup_insert_ne; [by rewrite Hc|]. intros ->. simplify_eq. rewrite Hn in Hs'. by destruct q.
  - apply bind_Some in Hs as (c & Hc & Hs). rewrite Hc in Hm. simpl in Hm.
    apply bind_Some in Hm as (n & Hn0 & [= <-]). destruct q as [|k' q]; simpl in Hs'.
    + injection Hs' as <-. eexists _, kid'. split_and!; [done| |done]. simpl.
      rewrite list_lookup_insert_ne; [done|]. intros ->. simplify_eq. rewrite Hn' in Hs. by destruct p.
    + apply bind_Some in Hs' as (c' & Hc' & Hs'). destruct (decide (k = k')) as [<-|Hne].
      * simplify_eq. apply (pane_at_cons _ k (set_child_node c n)).
        { simpl. rewrite list_lookup_insert_eq; [done|]. by eapply lookup_lt_Some. }
        simpl. eapply (IH (child_node c)); [by exists sp, kid|done|by exists sp', kid'|done].
      * exists sp', kid'. split_and!; [|done..]. simpl. by rewrite list_lookup_insert_ne, Hc'.
Qed.

(** The pane [x] is at the place [l]. *)
Definition holds (m : Model) (l : Location) (x : string) : Prop :=
  exists ts tab root, tabs_of m (loc_holder l) = Some ts /\ tabs_tabs ts !! loc_tab l = Some tab /\
    tab_root tab = Some root /\ place_of root (loc_parent l) (loc_index l) x.

Lemma locate_holds m x l : locate m x = Some l -> holds m l x.
Proof.
  intros (ts & Hts & Hl)%locate_Some. apply tabs_locate_Some in Hl as (tab & root & Ht & Hr & _ & Hp).
  by exists ts, tab, root.
Qed.

Lemma alter_tabs_other m h f m' h' :
  alter_tabs m h f = Some m' -> h' ≠ h -> tabs_of m' h' = tabs_of m h'.
Proof.
  intros Ha Hne. destruct h as [w|w]; simpl in Ha; unfold alter_window, alter_workspace in Ha;
    apply bind_Some in Ha as (x & Hx & Ha); apply bind_Some in Ha as (y & Hy & [= <-]);
    destruct h' as [w'|w']; simpl; try done; rewrite list_lookup_insert_ne; try done; congruence.
Qed.

Lemma tabs_set_at_other ts t parent i id ts' t' :
  tabs_set_at ts t parent i id = Some ts' -> t' ≠ t -> tabs_tabs ts' !! t' = tabs_tabs ts !! t'.
Proof.
  intros Ha Hne. unfold tabs_set_at, alter_tab in Ha. apply bind_Some in Ha as (x & Hx & Ha).
  apply bind_Some in Ha as (y & Hy & [= <-]). simpl. by rewrite list_lookup_insert_ne.
Qed.

Lemma put_tab_holds m m' l old id l' x :
  holds m l old ->
  alter_tabs m (loc_holder l) (fun ts => tabs_set_at ts (loc_tab l) (loc_parent l) (loc_index l) id) = Some m' ->
  holds m l' x -> x ≠ old -> holds m' l' x.
Proof.
  intros (ts & tab & root & Hts & Ht & Hr & Hp) Ha (ts2 & tab2 & root2 & Hts2 & Ht2 & Hr2 & Hp2) Hx.
  destruct (decide (loc_holder l' = loc_holder l)) as [Hh|Hh].
  2: { exists ts2, tab2, root2. split_and!; try done. by rewrite (alter_tabs_other _ _ _ _ _ Ha Hh). }
  rewrite Hh, Hts in Hts2. injection Hts2 as <-.
  destruct (tabs_set_at_spec ts _ tab root _ _ old id Ht Hr Hp) as (ts' & Hset & _).
  destruct (alter_tabs_spec m _ (fun ts => tabs_set_at ts (loc_tab l) (loc_parent l) (loc_index l) id) _ ts' Hts Hset)
    as (m0 & Ha' & Hts' & _). rewrite Ha in Ha'. injection Ha' as <-. rewrite <- Hh in Hts'.
  destruct (decide (loc_tab l' = loc_tab l)) as [Htab|Htab].
  2: { exists ts', tab2, root2. split_and!; try done. by rewrite (tabs_set_at_other _ _ _ _ _ _ _ Hset Htab). }
  rewrite Htab, Ht in Ht2. injection Ht2 as <-. rewrite Hr in Hr2. injection Hr2 as <-.
  unfold tabs_set_at, alter_tab in Hset.
  rewrite Ht in Hset. simpl in Hset. rewrite Hr in Hset.
  destruct (loc_parent l) as [path|]; simpl in Hset, Hp.
  - destruct (split_mut root path _) as [root'|] eqn:Hm; [|done]. simpl in Hset. injection Hset as <-.
    exists (set_tabs ts (<[loc_tab l:=set_tab_root tab (Some root')]> (tabs_tabs ts))),
      (set_tab_root tab (Some root')), root'. split_and!; [done| |done|].
    + rewrite Htab. apply list_lookup_insert_eq. by eapply lookup_lt_Some.
    + destruct (loc_parent l') as [path'|]; simpl in Hp2 |- *.
      * eapply pane_at_set; [exact Hp|exact Hm|exact Hp2|exact Hx].
      * subst. destruct Hp as (sp & kid & Hs & _). by destruct path.
  - subst. destruct (loc_parent l') as [path'|]; simpl in Hp2.
    + destruct Hp2 as (sp & kid & Hs & _). by destruct path'.
    + congruence.
Qed.

Lemma put_tab_spec m l old id :
  ids_wf m -> holds m l old ->
  exists m', alter_tabs m (loc_holder l) (fun ts => tabs_set_at ts (loc_tab l) (loc_parent l) (loc_index l) id) = Some m' /\
    all_panes m' ++ [old] ≡ₚ all_panes m ++ [id] /\ ids_wf m' /\ same_frame m m'.
Proof.
  intros Hwf (ts & tab & root & Hts & Ht & Hr & Hp).
  destruct (tabs_set_at_spec ts _ tab root _ _ old id Ht Hr Hp) as (ts' & Hset & Hsw & Hk & Hw).
  destruct (alter_tabs_wf m (loc_holder l) (fun ts => tabs_set_at ts (loc_tab l) (loc_parent l) (loc_index l) id)
    ts ts' [old] [id]) as (m' & Ha & _ & Hfr & _ & Hperm & Hwf');
    [done|done|done|by apply swaps_panes_perm|by rewrite (kept_ids _ _ Hk)|done|].
  by exists m'.
Qed.

Definition docks_at (m : Model) (s : nat) (x : string) : Prop :=
  exists ws, m_workspaces m !! s = Some ws /\ dock_pane (ws_dock ws) = x.

Lemma frame_docks_at m m' s x : same_frame m m' -> docks_at m s x -> docks_at m' s x.
Proof.
  intros Hfr (ws & Hs & Hd). assert (m_workspaces (strip m') !! s = Some (set_ws_tabs ws tabs_default)) as H.
  { rewrite Hfr. simpl. by rewrite lookup_map, Hs. }
  simpl in H. rewrite lookup_map in H. apply fmap_Some in H as (ws' & Hs' & E). exists ws'. split; [done|].
  injection E as E1 E2 E3 E4 E5. congruence.
Qed.

Lemma put_dock_spec m s old id :
  ids_wf m -> docks_at m s old ->
  exists m', alter_workspace m s (fun ws => Some (set_ws_dock ws (set_dock_pane (ws_dock ws) id))) = Some m' /\
    all_panes m' ++ [old] ≡ₚ all_panes m ++ [id] /\ ids_wf m' /\
    (forall l x, holds m l x -> holds m' l x) /\ (forall s' x, docks_at m s' x -> x ≠ old -> docks_at m' s' x) /\
    holders m' = holders m.
Proof.
  intros Hwf (ws & Hs & Hd). unfold alter_workspace. rewrite Hs. simpl. eexists; split; [done|].
  destruct (alter_workspace_extras m s ws (set_ws_dock ws (set_dock_pane (ws_dock ws) id)) [old] [id] Hs)
    as (Hb & Hi & Hp); [done|done|unfold ws_extras; simpl; rewrite Hd; solve_Permutation|].
  split_and!; [done| |..].
  - by eapply ids_wf_same.
  - intros l x (ts & tab & root & Hts & H). exists ts, tab, root. split; [|done].
    destruct (loc_holder l) as [w|s']; [done|]. simpl in *. apply fmap_Some in Hts as (ws' & Hs' & ->).
    destruct (decide (s' = s)) as [->|Hne].
    + rewrite list_lookup_insert_eq by (by eapply lookup_lt_Some). simpl. by simplify_eq.
    + by rewrite list_lookup_insert_ne, Hs'.
  - intros s' x (ws' & Hs' & Hd') Hx. exists ws'. simpl. split; [|done].
    rewrite list_lookup_insert_ne; [done|]. intros ->. congruence.
  - unfold holders. simpl. by rewrite length_insert.
Qed.

(** [swap] exchanges two panes wherever they are, and keeps every pane. *)
Lemma swap_spec m a b :
  ids_wf m -> a ≠ b ->
  exists m', swap m a b = Some m' /\ all_panes m' ≡ₚ all_panes m /\ ids_wf m' /\ holders m' = holders m.
Proof.
  intros Hwf Hab. unfold swap.
  assert (forall m' m'', all_panes m' ++ [a] ≡ₚ all_panes m ++ [b] ->
    all_panes m'' ++ [b] ≡ₚ all_panes m' ++ [a] -> all_panes m'' ≡ₚ all_panes m) as Hback.
  { intros m' m'' H1 H2. rewrite H1 in H2. by apply (inj (fun l => l ++ [b])) in H2. }
  destruct (locate m a) as [la|] eqn:Ha; [apply locate_holds in Ha as Pa|].
  - destruct (put_tab_spec m la a b Hwf Pa) as (m1 & E1 & H1 & Hwf1 & Hfr).
    pose proof (frame_holders _ _ Hfr) as Hh1.
    destruct (locate m b) as [lb|] eqn:Hb; [apply locate_holds in Hb as Pb|].
    + destruct (put_tab_spec m1 lb b a Hwf1) as (m2 & E2 & H2 & Hwf2 & Hfr2);
        [eapply put_tab_holds; [exact Pa|exact E1|exact Pb|done]|].
      exists m2. cbn -[alter_tabs]. rewrite E1. cbn -[alter_tabs]. rewrite E2, (frame_holders _ _ Hfr2). eauto.
    + destruct (dock_ws m b) as [s|] eqn:Hd; [|by exists m].
      destruct (put_dock_spec m1 s b a Hwf1) as (m2 & E2 & H2 & Hwf2 & _ & _ & Hh2).
      { eapply frame_docks_at; [done|]. by apply dock_ws_Some. }
      exists m2. cbn -[alter_tabs alter_workspace]. rewrite E1. cbn -[alter_tabs alter_workspace]. rewrite E2, Hh2. eauto.
  - destruct (dock_ws m a) as [sa|] eqn:Da; [|by exists m].
    destruct (put_dock_spec m sa a b Hwf) as (m1 & E1 & H1 & Hwf1 & Hh & Hdk & Hh1); [by apply dock_ws_Some|].
    destruct (locate m b) as [lb|] eqn:Hb; [apply locate_holds in Hb as Pb|].
    + destruct (put_tab_spec m1 lb b a Hwf1) as (m2 & E2 & H2 & Hwf2 & Hfr2); [by apply Hh|].
      exists m2. cbn -[alter_tabs alter_workspace]. rewrite E1. cbn -[alter_tabs alter_workspace].
      rewrite E2, (frame_holders _ _ Hfr2). eauto.
    + destruct (dock_ws m b) as [sb|] eqn:Db; [|exists m; done].
      destruct (put_dock_spec m1 sb b a Hwf1) as (m2 & E2 & H2 & Hwf2 & _ & _ & Hh2).
      { apply Hdk; [by apply dock_ws_Some|done]. }
      exists m2. cbn -[alter_workspace]. rewrite E1. cbn -[alter_workspace]. rewrite E2, Hh2. eauto.
Qed.
