(* ===== verification/Commands.v ===== *)
(** * The layout's commands: [crates/kanna-mux/src/model.rs]

    [focus], [zoom], [rename_tab], [move_pane], [move_tab], [resize], [arrange] and
    [window_command], each a whole handler: its checks, its changes in the order the source
    makes them, its reply. *)

From S2P Require Import Prelude Text F64 Json Fraction Describe Pane Panes Tree Tabs Workspace Model Ops.

Definition get_model : act Model Model := act_gets id.
Definition get_at (h : Holder) : act Model Map := act_get (fun m => at_ m h).
Definition get_tabs (h : Holder) : act Model Tabs := act_get (fun m => tabs_of m h).
Definition get_tab (h : Holder) (t : nat) : act Model Tab := act_get (fun m => tab_at m h t).
Definition change_tabs (h : Holder) (f : Tabs -> option Tabs) : act Model unit :=
  act_update (fun m => alter_tabs m h f).
Definition do_detach (id : string) : act Model unit := act_update (fun m => detach m id).
Definition do_focus (id : string) : act Model (option Holder) := act_opt (fun m => focus_pane m id).
Definition do_drop_empty : act Model unit := act_modify drop_empty.
Definition do_make_tab (h : Holder) (activate : bool) : act Model nat := act_opt (fun m => make_tab m h activate).

(** ** focus, zoom, rename-tab *)

Definition no_tab (reference : string) : KmuxError := not_found (quoted "no tab" reference).
Definition no_pane (reference : string) : KmuxError := not_found (quoted "no pane" reference).

Definition focus (args : Value) (panes : Panes) : act Model Map :=
  match string_of args "pane" with
  | Some reference =>
    let! p := act_lift (panes_need panes (Some reference)) in
    let id := pane_id p in
    let! m := get_model in
    let! _ := act_lift (refuse_background m id panes) in
    let! found := do_focus id in
    match found with
    | Some h => get_at h
    | None => act_ret [("window", JNull)]
    end
  | None =>
    match string_of args "tab" with
    | Some reference =>
      let! m := get_model in
      let! '(h, t) := act_lift (ok_or (tab_index m reference) (no_tab reference)) in
      let beside := side m h in
      let! tabs := get_tabs h in
      let keep := bool_decide (string_of args "keep" = Some "dock") &&
                  bool_decide (is_Some (tabs_focused tabs)) && bool_decide (tabs_focused tabs = beside) in
      (if keep then change_tabs h (fun ts => tab ← tabs_tabs ts !! t; Some (set_active ts (Some (tab_id tab))))
       else change_tabs h (fun ts => tabs_show ts t)) ;;;
      get_at h
    | None =>
      match get args "window" with
      | Some _ =>
        let! h := window_holder (string_of args "window") in
        get_at h
      | None => act_fail (bad_request "focus needs a pane, tab or window")
      end
    end
  end.

Definition zoom (args : Value) (panes : Panes) : act Model Map :=
  let! p := act_lift (panes_need panes (string_of args "pane")) in
  let id := pane_id p in
  let! m := get_model in
  let! _ := act_lift (refuse_background m id panes) in
  let! h := act_lift (ok_or (holder_of m id) (no_pane id)) in
  let! tabs := get_tabs h in
  let was := bool_decide (zoomed tabs = Some id) in
  let! _ := do_focus id in
  change_tabs h (fun ts => Some (set_zoom ts (negb was))) ;;;
  let! out := get_at h in
  act_ret (map_insert out "zoomed" (JBool (negb was))).

Definition rename_tab (args : Value) : act Model Map :=
  let reference := default "" (string_of args "tab") in
  let! m := get_model in
  let! '(h, t) := act_lift (ok_or (tab_index m reference) (no_tab reference)) in
  let title := trim (default "" (string_of args "title")) in
  if str_is_empty title then act_fail (bad_request "a tab title cannot be empty")
  else
    change_tabs h (fun ts => alter_tab ts t (fun tab => Some (tab_rename tab title))) ;;;
    let! tab := get_tab h t in
    act_ret [("tab", JString (tab_id tab)); ("title", JString title)].

(** ** move *)

Definition to_background (id : string) (from : Holder) (panes : Panes) : act Model Map :=
  let name := panes_display panes id in
  let! m := get_model in
  match dock_ws m id with
  | Some _ => act_fail (docked (name +:+ " is its task's agent, which stays in its dock"))
  | None =>
    match (s ← ws_of m from; ws ← m_workspaces m !! s; if is_task ws then Some s else None) with
    | None => act_fail (mkError "not_a_task"
        (name +:+ " is in no task's workspace, and only a task's workspace has a background"))
    | Some s =>
      (match background_ws m id with
       | None =>
         do_detach id ;;;
         act_update (fun m => alter_workspace m s (fun ws => Some (set_ws_background ws (ws_background ws ++ [id])))) ;;;
         do_drop_empty
       | Some _ => act_ret tt
       end) ;;;
      let! m := get_model in
      let s := default s (background_ws m id) in
      let! out := get_at (HWorkspace s) in
      act_ret (map_insert (map_insert out "pane" (JString (panes_display panes id))) "background" (JBool true))
    end
  end.

Definition moved_reply (m : Model) (id : string) (panes : Panes) : option Map :=
  match dock_ws m id with
  | Some s =>
    out ← at_ m (HWorkspace s);
    ws ← m_workspaces m !! s;
    Some (map_insert out "dock" (JObject (dock_view (ws_dock ws) panes)))
  | None =>
    match locate m id with
    | None => Some []
    | Some l =>
      tab ← tab_at m (loc_holder l) (loc_tab l);
      out ← at_ m (loc_holder l);
      Some (map_insert (map_insert out "tab" (JString (tab_id tab))) "layout" (tree (tab_root tab) None panes))
    end
  end.

Definition get_moved (id : string) (panes : Panes) : act Model Map := act_get (fun m => moved_reply m id panes).

(** What follows every move that changed something. *)
Definition finish_move (id : string) (panes : Panes) : act Model Map :=
  let! _ := do_focus id in
  do_drop_empty ;;;
  get_moved id panes.

Definition given (args : Value) (key : string) : bool := bool_decide (is_Some (get args key)).
Definition given_value (args : Value) (key : string) : bool :=
  match get args key with Some v => negb (is_null v) | None => false end.

(** [move --dock]: a task's agent docks on the other edge. *)
Definition move_dock (id : string) (edge : Edge) (args : Value) (panes : Panes) : act Model Map :=
  if given args "to" || given args "tab" || given args "window" then
    act_fail (bad_request "move --dock takes no to, tab or window: a task's agent stays in its workspace")
  else
    let! m := get_model in
    match (s ← dock_ws m id; ws ← m_workspaces m !! s; if is_task ws then Some s else None) with
    | None => act_fail (mkError "not_a_task" (panes_display panes id +:+
        " isn't a task, and only a task's agent docks: start one with `kanna task new` and `kanna task start`"))
    | Some s =>
      act_update (fun m => alter_workspace m s (fun ws => Some (set_ws_dock ws (set_dock_edge (ws_dock ws) edge)))) ;;;
      let! _ := do_focus id in
      get_moved id panes
    end.

Definition sides : list string := ["left"; "right"; "top"; "bottom"; "swap"].

Definition side_axis (side : string) : Axis :=
  if bool_decide (side = "left") || bool_decide (side = "right") then Row else Column.
Definition side_after (side : string) : bool := bool_decide (side = "right") || bool_decide (side = "bottom").

(** The change [move --to] makes, once its checks have passed: the swap, or the pane taken
    out and put at a side of the target. *)
Definition move_swap (id target : string) (from : Holder) : act Model unit :=
  act_update (fun m => swap m id target) ;;;
  change_tabs from (fun ts =>
    Some (if decide (tabs_focused ts = Some id) then set_focused ts (Some target) else ts)).

Definition move_beside (id target reference side : string) : act Model unit :=
  do_detach id ;;;
  let! m := get_model in
  let! l := act_lift (ok_or (locate m target) (no_pane reference)) in
  change_tabs (loc_holder l) (fun ts =>
    tabs_insert ts (NPane id) target (loc_tab l) (side_axis side) (side_after side) f_half_).

(** [move --to]: [None] is the move that changes nothing. *)
Definition move_to (id reference : string) (from : Holder) (args : Value) (panes : Panes) : act Model (option unit) :=
  let! p := act_lift (panes_need panes (Some reference)) in
  let target := pane_id p in
  let name := label p in
  let side := default "swap" (string_of args "side") in
  if negb (contains sides side) then act_fail (bad_request "side must be left, right, top, bottom or swap")
  else if decide (target = id) then act_ret None
  else
    let! m := get_model in
    let! _ := act_lift (refuse_frozen_pane m target panes) in
    let! _ := act_lift (refuse_background m target panes) in
    match lead_window m target with
    | Some _ => act_fail (mkError "lead" (name +:+ " is its window's lead; nothing drops on it"))
    | None =>
      if negb (bool_decide (side = "swap")) && bool_decide (is_Some (dock_ws m target)) then
        act_fail (docked (name +:+ " is docked and holds one pane; drop on its middle to swap"))
      else if bool_decide (side = "swap") && bool_decide (is_Some (background_ws m id)) then
        act_fail (bad_request (panes_display panes id +:+
          " is in its workspace's background, so it has no place to swap: give --side left, right, top or bottom"))
      else
        (if decide (side = "swap") then move_swap id target from else move_beside id target reference side) ;;;
        act_ret (Some tt)
    end.

(** The holder a pane moves to when it gets a tab of its own. *)
Definition move_holder (id : string) (from : Holder) (args : Value) : act Model Holder :=
  match string_of args "window" with
  | None =>
    if given args "workspace" then workspace_holder (default "" (string_of args "workspace"))
    else
      let! m := get_model in
      match dock_ws m id with
      | Some _ =>
        do_detach id ;;;
        let! w := act_state make_window in
        act_ret (HWindow w)
      | None => act_ret from
      end
  | Some window =>
    if decide (window = "new") then
      let! w := act_opt (fun m => window_for m (ws_of m from)) in act_ret (HWindow w)
    else let! w := target_window (Some window) in act_ret (HWindow w)
  end.

(** The tab [move --tab], [--window] or [--workspace] goes to; [None] is the move that
    changes nothing. *)
Definition move_destination (id : string) (from : Holder) (args : Value) : act Model (option string) :=
  let tab := string_of args "tab" in
  match (r ← tab; if decide (r = "new") then None else Some r) with
  | Some reference =>
    let! '(h, t) := need_tab (Some reference) in
    let! tab := get_tab h t in
    act_ret (Some (tab_id tab))
  | None =>
    if bool_decide (tab = Some "new") || given args "window" || given args "workspace" then
      let! h := move_holder id from args in
      let! m := get_model in
      let alone := match locate m id with
                   | Some l => bool_decide (loc_holder l = h) && bool_decide (loc_parent l = None)
                   | None => false
                   end in
      if bool_decide (tab = None) && alone then act_ret None
      else
        let! t := do_make_tab h true in
        let! tab := get_tab h t in
        act_ret (Some (tab_id tab))
    else act_fail (bad_request "move needs to + side, tab, or window")
  end.

Definition move_to_tab (id : string) (from : Holder) (from_tab : option string) (args : Value)
  : act Model (option unit) :=
  let! destination := move_destination id from args in
  match destination with
  | None => act_ret None
  | Some destination =>
    if decide (Some destination = from_tab) then act_ret None
    else
      do_detach id ;;;
      let! '(h, t) := act_get (fun m => tab_index m destination) in
      change_tabs h (fun ts => tabs_append ts id t) ;;;
      act_ret (Some tt)
  end.

Definition move_pane (args : Value) (panes : Panes) : act Model Map :=
  let! p := act_lift (panes_need panes (string_of args "pane")) in
  let id := pane_id p in
  let! m := get_model in
  match lead_window m id, frozen_dock m id with
  | Some _, _ => act_fail (mkError "lead" (panes_display panes id +:+ " is its window's lead, which stays where it is"))
  | None, Some _ => act_fail (frozen (label_of panes id +:+ " is frozen in its dock and doesn't move"))
  | None, None =>
    let! from := act_lift (ok_or (or_else (holder_of m id) (HWorkspace <$> background_ws m id)) (no_pane id)) in
    if is_bool_true (get args "background") then
      if existsb (given_value args) ["to"; "tab"; "window"; "workspace"; "dock"] then
        act_fail (bad_request "move --background goes on its own: it keeps the pane in its own task's workspace")
      else to_background id from panes
    else
      let! unmoved := get_at from in
      let! from_tab := act_get (fun m =>
        match locate m id with
        | Some l => tab ← tab_at m (loc_holder l) (loc_tab l); Some (Some (tab_id tab))
        | None => Some None
        end) in
      let! edge := act_lift (edge_read (get args "dock")) in
      match edge with
      | Some edge => move_dock id edge args panes
      | None =>
        let! moved := match string_of args "to" with
                      | Some reference => move_to id reference from args panes
                      | None => move_to_tab id from from_tab args
                      end in
        match moved with
        | None => act_ret unmoved
        | Some _ => finish_move id panes
        end
      end
  end.

(** ** move-tab *)

(** A whole number of JSON: [n >= 0.0 && n.round() == n]. *)
Definition read_index (args : Value) : res (option N) :=
  match get args "index" with
  | None => Ok None
  | Some value =>
    match as_f64 value with
    | Some n => if fle f0 n && feq (f_round n) n then Ok (Some (as_usize n))
                else Err (bad_request "index must be a whole number ≥ 0")
    | None => Err (bad_request "index must be a whole number ≥ 0")
    end
  end.

Definition move_tab_holder (source : Holder) (args : Value) : act Model Holder :=
  match get args "window" with
  | None =>
    if given args "workspace" then workspace_holder (default "" (string_of args "workspace")) else act_ret source
  | Some window =>
    if decide (as_str window = Some "new") then
      let! w := act_opt (fun m => window_for m (ws_of m source)) in act_ret (HWindow w)
    else window_holder (as_str window)
  end.

Definition insert_tab (index : N) (moving : Tab) (ts : Tabs) : option Tabs :=
  let ts := set_tabs ts (vec_insert (N.to_nat (index `min` N.of_nat (length (tabs_tabs ts)))) moving (tabs_tabs ts)) in
  d ← tabs_position ts (tab_id moving);
  tabs_show ts d.

Definition move_tab (args : Value) : act Model Map :=
  let! '(source, t) := need_tab (string_of args "tab") in
  let! moving := get_tab source t in
  let! destination := move_tab_holder source args in
  let! index := act_lift (read_index args) in
  change_tabs source (fun ts => Some (set_tabs ts (delete t (tabs_tabs ts)))) ;;;
  let! tabs := get_tabs destination in
  let same := bool_decide (source = destination) in
  let index := default (N.of_nat (length (tabs_tabs tabs)) + if same then 1 else 0)%N index in
  let index := if same && (N.of_nat t <? index)%N then (index - 1)%N else index in
  change_tabs destination (insert_tab index moving) ;;;
  do_drop_empty ;;;
  let! '(h, _) := act_get (fun m => tab_index m (tab_id moving)) in
  let! tabs := get_tabs h in
  let! out := get_at h in
  act_ret (map_insert out "tabs" (JArray (map (fun t => JString (tab_id t)) (tabs_tabs tabs)))).

(** ** resize *)

(** [kids[i]] where [i] is a machine integer. *)
Definition kid_at {A} (kids : list A) (i : N) : option A :=
  if (i <? N.of_nat (length kids))%N then kids !! N.to_nat i else None.

(** The walk down the path of [set_divider]: an error where there is no split. *)
Fixpoint at_divider (path : list N) (f : NSplit_ -> res NSplit_) (node : Node) : res Node :=
  match path, node with
  | [], NSplit split => let? split := f split in Ok (NSplit split)
  | i :: path, NSplit split =>
    match kid_at (split_kids split) i with
    | Some kid =>
      let? node := at_divider path f (child_node kid) in
      Ok (NSplit (mkSplit (split_axis split)
                    (<[N.to_nat i := set_child_node kid node]> (split_kids split))))
    | None => Err (bad_request "no split at that path")
    end
  | _, NPane _ => Err (bad_request "no split at that path")
  end.

Definition usize_max : N := (2 ^ 64 - 1)%N.

(** [index + 1] overflows at [usize::MAX]: a panic, or in a release build a wrap to 0 and
    then an out-of-bounds [kids[index]]. *)
Definition set_share (index : N) (share : f64) (split : NSplit_) : res NSplit_ :=
  if (index =? usize_max)%N then Panic
  else
    match kid_at (split_kids split) index, kid_at (split_kids split) (index + 1) with
    | Some a, Some b =>
      let pair := fadd (child_size a) (child_size b) in
      if flt f0 share && flt share pair then
        Ok (mkSplit (split_axis split)
              (<[S (N.to_nat index) := set_child_size b (fsub pair share)]>
                (<[N.to_nat index := set_child_size a share]> (split_kids split))))
      else Err (bad_request "the share must leave both panes some space")
    | _, _ => Err (bad_request "no divider at that index")
    end.

Definition set_divider (tab : string) (path : list N) (index : N) (share : f64) : act Model unit :=
  let! m := get_model in
  let! '(h, t) := act_lift (ok_or (tab_index m tab) (no_tab tab)) in
  let! found := get_tab h t in
  let! root := act_lift (ok_or (tab_root found) (not_found ("tab " +:+ in_quotes tab +:+ " is empty"))) in
  let! root := act_lift (at_divider path (set_share index share) root) in
  change_tabs h (fun ts => alter_tab ts t (fun tab => Some (set_tab_root tab (Some root)))).

(** [1.0 - 1e-9] *)
Definition f_nearly : f64 := fsub f1 (f_dec 1 (-9)).

(** The share of one kid set to [size], the others scaled to fill the rest. *)
Definition resize_kid (index : nat) (size : f64) (parent : NSplit_) : option NSplit_ :=
  kid ← split_kids parent !! index;
  let old := child_size kid in
  let others := f_of_nat (length (split_kids parent) - 1) in
  let resized := map (fun kid => set_child_size kid
                   (if flt old f_nearly then fdiv (fmul (child_size kid) (fsub f1 size)) (fsub f1 old)
                    else fdiv (fsub f1 size) others)) (split_kids parent) in
  Some (mkSplit (split_axis parent) (<[index := set_child_size kid size]> resized)).

Definition resize (args : Value) (panes : Panes) : act Model Map :=
  match string_of args "tab" with
  | Some tab =>
    let path := match (v ← get args "path"; as_array v) with
                | Some p => omap as_u64 p
                | None => []
                end in
    let! index := act_lift (ok_or (v ← get args "index"; as_u64 v) (bad_request "a divider needs its index")) in
    let! share := act_lift (ok_or (v ← get args "share"; as_f64 v) (bad_request "a divider needs a share")) in
    let! _ := set_divider tab path index share in
    let! m := get_model in
    act_ret [("tab", JString tab); ("layout", tree (t ← tab_named m tab; tab_root t) None panes)]
  | None =>
    let! pane := act_lift (panes_need panes (string_of args "pane")) in
    let id := pane_id pane in
    let! size := act_lift (fraction (default JNull (get args "size"))) in
    if negb (flt f0 size && flt size f1) then act_fail (bad_request "size must be a fraction between 0 and 1")
    else
      let! m := get_model in
      match dock_ws m id, lead_window m id with
      | Some s, _ =>
        act_update (fun m => alter_workspace m s (fun ws => Some (set_ws_dock ws (set_dock_width (ws_dock ws) size)))) ;;;
        let! out := get_at (HWorkspace s) in
        let! ws := act_get (fun m => m_workspaces m !! s) in
        act_ret (map_insert out "dock" (JObject (dock_view (ws_dock ws) panes)))
      | None, Some w =>
        act_update (fun m => alter_window m w (fun win =>
          Some (set_win_lead win ((fun d => set_dock_width d size) <$> win_lead win)))) ;;;
        let! win := act_get (fun m => m_windows m !! w) in
        act_ret [("window", JString (win_id win)); ("width", JString (fraction_format size))]
      | None, None =>
        let! l := act_lift (ok_or (locate m id) (no_pane id)) in
        match loc_parent l with
        | None => act_fail (bad_request (label pane +:+ " fills its tab, so there is nothing to resize against"))
        | Some path =>
          change_tabs (loc_holder l) (fun ts => alter_tab ts (loc_tab l) (fun tab =>
            root ← tab_root tab;
            root' ← split_mut root path (resize_kid (loc_index l) size);
            Some (set_tab_root tab (Some root')))) ;;;
          let! tab := get_tab (loc_holder l) (loc_tab l) in
          act_ret [("layout", tree (tab_root tab) None panes)]
        end
      end
  end.

(** ** arrange *)

Fixpoint depth (value : Value) : nat :=
  match value with
  | JArray items => S (foldr max 0 (map depth items))
  | JObject fields => S (foldr max 0 (map (fun '(_, v) => depth v) fields))
  | _ => 0
  end.

(** [1.0 + 1e-9] *)
Definition f_over : f64 := fadd f1 (f_dec 1 (-9)).

Definition read_child_size (child : Value) : res (option f64) :=
  match get child "size" with
  | None | Some JNull => Ok None
  | Some value =>
    let? size := fraction value in
    if flt f0 size && fle size f1 then Ok (Some size)
    else Err (layout_invalid "sizes must be fractions between 0 and 1")
  end.

(** [children.iter().zip(sizes)], each child built in turn. *)
Fixpoint build_kids (build : Value -> list string -> res (Node * list string)) (fill scale : f64)
    (used : list string) (children : list (Value * option f64)) : res (list NChild * list string) :=
  match children with
  | [] => Ok ([], used)
  | (child, size) :: rest =>
    let? '(node, used) := build child used in
    let? '(kids, used) := build_kids build fill scale used rest in
    Ok (mkChild node (fmul (default fill size) scale) :: kids, used)
  end.

Definition build_pane (reference : string) (used : list string) (panes : Panes) (outside : list string)
  : res (Node * list string) :=
  let? pane := panes_need panes (Some reference) in
  let id := pane_id pane in
  if contains outside id then
    Err (docked (label pane +:+ " is docked, outside the tabs; undock it first (move " +:+
                 default (pane_id pane) (pane_name pane) +:+ " --tab new)"))
  else if contains used id then
    Err (layout_invalid (in_quotes reference +:+ " appears more than once"))
  else Ok (NPane id, used ++ [id]).

Definition build_sizes (axis : Axis) (children : list Value) : res (list (Value * option f64) * f64 * f64) :=
  let? sizes := res_mapM read_child_size children in
  let given := f_sum (omap id sizes) in
  let unsized_count := length (List.filter (fun s => bool_decide (s = None)) sizes) in
  if flt f_over given then
    Err (layout_invalid ("sizes in a " +:+ axis_as_str axis +:+ " add up to " +:+ fraction_format given +:+ ", more than 1"))
  else if bool_decide (0 < unsized_count) && fle f_nearly given then
    Err (layout_invalid ("no space left for the unsized panes in a " +:+ axis_as_str axis))
  else
    let fill := if decide (0 < unsized_count) then fdiv (fsub f1 given) (f_of_nat unsized_count) else f0 in
    let scale := if decide (0 < unsized_count) then f1 else fdiv f1 given in
    Ok (zip children sizes, fill, scale).

(** [build] of [arrange]; [arrange] gives it the depth of the value as fuel. *)
Fixpoint build (fuel : nat) (panes : Panes) (outside : list string) (node : Value) (used : list string)
  : res (Node * list string) :=
  match string_of node "pane" with
  | Some reference => build_pane reference used panes outside
  | None =>
    let axis := s ← string_of node "split"; axis_parse s in
    let children := v ← get node "children"; l ← as_array v; if decide (l = []) then None else Some l in
    match axis, children with
    | Some axis, Some children =>
      match fuel with
      | 0 => Panic
      | S fuel =>
        let? '(children, fill, scale) := build_sizes axis children in
        let? '(kids, used) := build_kids (build fuel panes outside) fill scale used children in
        Ok (NSplit (mkSplit axis kids), used)
      end
    | _, _ => Err (layout_invalid "malformed layout tree")
    end
  end.

Fixpoint detach_all (ids : list string) (m : Model) : option Model :=
  match ids with
  | [] => Some m
  | id :: ids => m ← detach m id; detach_all ids m
  end.

Definition arrange_holder (args : Value) (panes : Panes) : act Model Holder :=
  let from := if given args "window" then None else string_of args "from" in
  let! m := get_model in
  let caller := f ← from; p ← res_ok (panes_need panes (Some f)); holder_of m (pane_id p) in
  match caller, string_of args "workspace", from with
  | _, Some workspace, _ => workspace_holder workspace
  | Some h, None, _ => act_ret h
  | None, None, Some from =>
    act_fail (not_found (from +:+ " is in no window or workspace here: say which with --window WINDOW"))
  | None, None, None => let! w := target_window (string_of args "window") in act_ret (HWindow w)
  end.

(** The panes a tab had before it was arranged, side by side. *)
Definition leftover_root (leftovers : list string) : Node :=
  let share := fdiv f1 (f_of_nat (length leftovers)) in
  normalize (NSplit (mkSplit Row (map (fun id => mkChild (NPane id) share) leftovers))).

Definition set_root (h : Holder) (t : nat) (root : Node) : act Model unit :=
  change_tabs h (fun ts => alter_tab ts t (fun tab => Some (set_tab_root tab (Some root)))).

(** The leftovers of an arranged tab, in a tab of their own. *)
Definition put_leftovers (h : Holder) (leftovers : list string) : act Model unit :=
  if decide (leftovers = []) then act_ret tt
  else
    let! rest := do_make_tab h false in
    change_tabs h (fun ts => alter_tab ts rest (fun tab =>
      Some (set_tab_root (tab_rename tab "unarranged") (Some (leftover_root leftovers))))).

Definition arrange (args : Value) (panes : Panes) : act Model Map :=
  let! m := get_model in
  let outside := map (fun s => dock_pane (ws_dock s)) (m_workspaces m) in
  let layout := default JNull (get args "layout") in
  let! '(root, used) := act_lift (build (depth layout) panes outside layout []) in
  let root := normalize root in
  let! h := arrange_holder args panes in
  let! tabs := get_tabs h in
  let! t := match active_index tabs with
            | Some t => act_ret t
            | None => do_make_tab h true
            end in
  let! tab := get_tab h t in
  let tab := tab_id tab in
  act_update (detach_all used) ;;;
  let! '(h, t) := act_get (fun m => tab_index m tab) in
  let! found := get_tab h t in
  let leftovers := tab_panes found in
  set_root h t root ;;;
  put_leftovers h leftovers ;;;
  change_tabs h (fun ts =>
    let ts := set_active ts (Some tab) in
    Some (if match tabs_focused ts with Some f => contains used f | None => false end
          then ts else set_focused ts (head used))) ;;;
  let! out := get_at h in
  do_drop_empty ;;;
  let! m := get_model in
  act_ret (map_insert out "layout" (tab_tree m tab panes)).

(** ** window *)

Definition window_command (args : Value) (panes : Panes) : act Model Map :=
  let! reference := act_lift (ok_or (string_of args "window") (bad_request "window needs a window")) in
  let! m := get_model in
  let! w := act_lift (ok_or (window_index m reference) (not_found (quoted "no window" reference))) in
  let! win := act_get (fun m => m_windows m !! w) in
  match win_lead win with
  | Some lead =>
    act_fail (mkError "lead" (reference +:+ " has a lead, " +:+ panes_display panes (dock_pane lead) +:+
                              ", and stays its own"))
  | None =>
    let was := id ← win_workspace win; s ← ws_index m id; ws ← m_workspaces m !! s; Some (JObject (ws_summary ws)) in
    let action := default "" (string_of args "action") in
    (if decide (action = "assign") then
       let! task := act_lift (ok_or (string_of args "workspace")
         (bad_request "assign needs a workspace: a task's ID or its agent's pane")) in
       let! ws := act_lift (ok_or
         (s ← find_workspace m task panes; ws ← m_workspaces m !! s; if is_task ws then Some ws else None)
         (not_found (quoted "no workspace" task))) in
       act_update (fun m => alter_window m w (fun win => Some (set_win_workspace win (Some (ws_id ws)))))
     else if decide (action = "free") then
       act_update (fun m => alter_window m w (fun win => Some (set_win_workspace win None)))
     else act_fail (bad_request ("unknown window action " +:+ in_quotes action +:+ " (assign or free)"))) ;;;
    do_drop_empty ;;;
    let! out := get_at (HWindow w) in
    act_ret (map_insert out "was" (default JNull was))
  end.
