(* ===== verification/CommandFacts.v ===== *)
(** * What the commands keep

    [kept m0 m]: the layout [m] is well formed and has just the panes [m0] has.  Every
    command but [arrange] and [move] keeps them on every path; [arrange] adds the panes it
    names, and a [move] keeps them where its target is in the layout and the pane moved is
    no task's agent. *)

From S2P Require Import Prelude Text F64 Json Fraction Describe Pane Panes Tree Tabs Workspace Model Ops.
From S2P Require Import OpsFacts Commands.

Definition kept (m0 m : Model) : Prop := model_wf m /\ all_panes m ≡ₚ all_panes m0.

Lemma kept_refl m : model_wf m -> kept m m.
Proof. done. Qed.

Lemma kept_step m0 m m' : kept m0 m -> ids_wf m' -> all_panes m' ≡ₚ all_panes m -> kept m0 m'.
Proof.
  intros [[_ Hnd] Hp] Hids Hp'. split; [split; [done|]|]; rewrite Hp'; done.
Qed.

Definition valid (m : Model) (h : Holder) : Prop := is_Some (tabs_of m h).

(** ** Replies never panic *)

Lemma ws_index_lookup m id s : ws_index m id = Some s -> is_Some (m_workspaces m !! s).
Proof. intros (ws & Hs & _)%position_Some. by eexists. Qed.

Lemma ws_of_lookup m h s : valid m h -> ws_of m h = Some s -> is_Some (m_workspaces m !! s).
Proof.
  intros Hv. destruct h as [w|s']; simpl.
  - intros (win & _ & Hi)%bind_Some. apply bind_Some in Hi as (id & _ & Hi). by apply ws_index_lookup in Hi.
  - intros [= ->]. destruct Hv as [ts Hts]. simpl in Hts. by apply fmap_Some in Hts as (ws & -> & _).
Qed.

Lemma spot_of_total m h : valid m h -> is_Some (spot_of m h).
Proof.
  intros Hv. unfold spot_of. pose proof (ws_of_lookup m h) as Hws. destruct h as [w|s].
  - destruct Hv as [ts Hts]. pose proof Hts as Hts'. apply fmap_Some in Hts' as (win & Hw & _).
    cbn [window_of]. rewrite Hw. cbn [mbind option_bind].
    destruct (ws_of m (HWindow w)) as [s|]; [|by eexists].
    destruct (Hws s) as [ws Hs]; [by eexists|done|]. rewrite Hs. by eexists.
  - cbn [window_of mbind option_bind ws_of]. destruct (Hws s Hv eq_refl) as [ws Hs]. rewrite Hs. by eexists.
Qed.

Lemma at_total m h : valid m h -> is_Some (at_ m h).
Proof. intros [[w ws] Hs]%spot_of_total. unfold at_. rewrite Hs. by eexists. Qed.

Lemma locate_tab_at m id l : locate m id = Some l -> exists tab, tab_at m (loc_holder l) (loc_tab l) = Some tab.
Proof.
  intros (ts & Hts & Hl)%locate_Some. apply tabs_locate_Some in Hl as (tab & root & Ht & _).
  exists tab. unfold tab_at. by rewrite Hts.
Qed.

Lemma locate_valid m id l : locate m id = Some l -> valid m (loc_holder l).
Proof. intros (ts & Hts & _)%locate_Some. by eexists. Qed.

Lemma dock_valid m id s : dock_ws m id = Some s -> valid m (HWorkspace s).
Proof. intros (ws & Hs & _)%dock_ws_Some. exists (ws_tabs ws). simpl. by rewrite Hs. Qed.

Lemma background_valid m id s : background_ws m id = Some s -> valid m (HWorkspace s).
Proof. intros (ws & Hs & _)%background_ws_Some. exists (ws_tabs ws). simpl. by rewrite Hs. Qed.

Lemma holder_of_valid m id h : holder_of m id = Some h -> valid m h.
Proof.
  unfold holder_of. destruct (locate m id) as [l|] eqn:Hl; simpl.
  - intros [= <-]. by eapply locate_valid.
  - destruct (dock_ws m id) as [s|] eqn:Hd; simpl; [intros [= <-]; by eapply dock_valid|].
    intros (w & (win & d & Hw & _)%lead_window_Some & ->)%fmap_Some. exists (win_tabs win). simpl. by rewrite Hw.
Qed.

Lemma moved_reply_total m id panes : is_Some (moved_reply m id panes).
Proof.
  unfold moved_reply. destruct (dock_ws m id) as [s|] eqn:Hd.
  - destruct (at_total m (HWorkspace s)) as [out Ho]; [by eapply dock_valid|]. rewrite Ho.
    destruct (dock_ws_Some _ _ _ Hd) as (ws & Hs & _). simpl. rewrite Hs. by eexists.
  - destruct (locate m id) as [l|] eqn:Hl; [|by eexists].
    destruct (locate_tab_at _ _ _ Hl) as [tab Ht]. rewrite Ht. simpl.
    destruct (at_total m (loc_holder l)) as [out Ho]; [by eapply locate_valid|]. rewrite Ho. by eexists.
Qed.

Lemma tab_index_tab_at m id h t :
  tab_index m id = Some (h, t) -> valid m h /\ exists tab, tab_at m h t = Some tab /\ tab_id tab = id.
Proof.
  intros (ts & tab & Hts & Ht & Hid)%tab_index_Some. split; [by eexists|]. exists tab. unfold tab_at.
  by rewrite Hts.
Qed.

(** ** Changes that keep every tree *)

(** The same layout up to focus, titles and shares of space. *)
Definition reshaped (m m' : Model) : Prop :=
  same_frame m m' /\ map tab_ids (bars m') = map tab_ids (bars m) /\
  map tabs_panes (bars m') = map tabs_panes (bars m).

Lemma reshaped_valid m m' h : reshaped m m' -> valid m h -> valid m' h.
Proof.
  intros [Hf _] Hv. unfold valid. rewrite <- elem_of_holders, (frame_holders _ _ Hf). by apply elem_of_holders.
Qed.

Lemma reshaped_panes m m' : reshaped m m' -> all_panes m' ≡ₚ all_panes m.
Proof.
  intros (Hf & _ & Hp). rewrite !all_panes_split, (frame_extras _ _ Hf). unfold bar_panes.
  by rewrite !flat_map_concat_map, Hp.
Qed.

Section Runs.
Context {m0 : Model} {P : Prop} {E : Model -> Prop}.

Lemma runs_get_model (Q : Model -> Model -> Prop) m : Q m m -> runs P E get_model Q m.
Proof. done. Qed.

Lemma runs_get_at h (Q : Map -> Model -> Prop) m : valid m h -> (forall out, Q out m) -> runs P E (get_at h) Q m.
Proof. intros [out Ho]%at_total HQ. by eapply runs_get. Qed.

Lemma runs_get_tabs h ts (Q : Tabs -> Model -> Prop) m : tabs_of m h = Some ts -> Q ts m -> runs P E (get_tabs h) Q m.
Proof. intros H HQ. by eapply runs_get. Qed.

Lemma runs_get_tab h t tab (Q : Tab -> Model -> Prop) m : tab_at m h t = Some tab -> Q tab m -> runs P E (get_tab h t) Q m.
Proof. intros H HQ. by eapply runs_get. Qed.

Lemma runs_get_moved id panes (Q : Map -> Model -> Prop) m :
  (forall out, Q out m) -> runs P E (get_moved id panes) Q m.
Proof. intros HQ. destruct (moved_reply_total m id panes) as [out Ho]. by eapply runs_get. Qed.

(** A tab bar changed so that its tabs and panes stay. *)
Lemma runs_reshape h f ts ts' (Q : unit -> Model -> Prop) m :
  kept m0 m -> tabs_of m h = Some ts -> f ts = Some ts' ->
  tab_ids ts' = tab_ids ts -> tabs_panes ts' = tabs_panes ts -> (tabs_wf ts -> tabs_wf ts') ->
  (forall m', kept m0 m' -> reshaped m m' -> tabs_of m' h = Some ts' -> Q tt m') ->
  runs P E (change_tabs h f) Q m.
Proof.
  intros Hk Hts Hf Hids Hpanes Hw HQ. destruct Hk as [[Hwf Hnd] Hp] eqn:Hk'.
  destruct (alter_tabs_wf m h f ts ts' [] []) as (m' & Ha & Ht' & Hfr & Hb & Hperm & Hwf');
    [done..|by rewrite Hpanes|by rewrite Hids|done|].
  rewrite !app_nil_r in Hperm. eapply runs_update; [exact Ha|]. apply HQ; [by eapply kept_step| |done].
  split_and!; [done|..]; rewrite Hb; eapply map_insert_eq; try done; by apply tabs_of_bar.
Qed.

Lemma runs_same_shape h f ts ts' (Q : unit -> Model -> Prop) m :
  kept m0 m -> tabs_of m h = Some ts -> f ts = Some ts' -> same_shape ts ts' ->
  (forall m', kept m0 m' -> reshaped m m' -> tabs_of m' h = Some ts' -> Q tt m') ->
  runs P E (change_tabs h f) Q m.
Proof.
  intros Hk Hts Hf Hs HQ. eapply runs_reshape; [done..| | | |done].
  - by apply same_shape_ids.
  - by apply same_shape_panes.
  - by apply same_shape_wf.
Qed.

Lemma runs_focus_pane id (Q : option Holder -> Model -> Prop) m :
  kept m0 m -> (forall m', kept m0 m' -> reshaped m m' -> Q (holder_of m id) m') -> runs P E (do_focus id) Q m.
Proof.
  intros Hk HQ. unfold do_focus, focus_pane. unfold runs, act_opt.
  destruct (holder_of m id) as [h|] eqn:Hh; [|by apply HQ].
  destruct (holder_of_valid _ _ _ Hh) as [ts Hts].
  assert (runs P E (change_tabs h (fun ts => Some (tabs_focus ts id))) (fun _ m' => Q (Some h) m') m) as Hr.
  { eapply runs_same_shape; [done|done|done|apply tabs_focus_shape|]. auto. }
  unfold runs, change_tabs, act_update in Hr. by destruct (alter_tabs _ _ _).
Qed.

Lemma runs_drop_empty (Q : unit -> Model -> Prop) m :
  kept m0 m -> (forall m', kept m0 m' -> tidy_model m' -> m' = drop_empty m -> Q tt m') -> runs P E do_drop_empty Q m.
Proof.
  intros Hk HQ. apply runs_modify. destruct Hk as [[Hwf Hnd] Hp] eqn:Hk'.
  destruct (drop_empty_spec m Hwf) as (Hperm & Hwf' & Ht). apply HQ; [by eapply kept_step|done..].
Qed.
End Runs.

(** ** Windows and workspaces by reference *)

(** A new window at the end, and nothing else. *)
Definition grows (m m' : Model) : Prop :=
  m_workspaces m' = m_workspaces m /\ exists l, m_windows m' = m_windows m ++ l.

Lemma grows_refl m : grows m m.
Proof. split; [done|]. exists []. by rewrite app_nil_r. Qed.

Lemma grows_tabs m m' h ts : grows m m' -> tabs_of m h = Some ts -> tabs_of m' h = Some ts.
Proof.
  intros [Hs [l Hw]]. destruct h as [w|s]; simpl; [|by rewrite Hs].
  rewrite Hw. intros (win & Hwin & ->)%fmap_Some. by rewrite (lookup_app_l_Some _ _ _ _ Hwin).
Qed.

Lemma grows_valid m m' h : grows m m' -> valid m h -> valid m' h.
Proof. intros Hg [ts Hts]. exists ts. by eapply grows_tabs. Qed.

Section Windows.
Context {m0 : Model} {P : Prop} {E : Model -> Prop}.
Hypothesis HE : forall m, kept m0 m -> E m.

Lemma runs_make_window (Q : nat -> Model -> Prop) m :
  kept m0 m ->
  (forall w m', kept m0 m' -> grows m m' -> tabs_of m' (HWindow w) = Some tabs_default -> Q w m') ->
  runs P E (act_state make_window) Q m.
Proof.
  intros Hk HQ. apply runs_state. intros w m' Hm.
  destruct (make_window_spec _ _ _ Hm) as (-> & Hw & Hs & Hp & Hwf). apply HQ.
  - eapply kept_step; [done| |done]. apply Hwf. apply Hk.
  - split; [done|]. by eexists.
  - simpl. rewrite Hw, list_lookup_middle; done.
Qed.

Lemma runs_target_window reference (Q : nat -> Model -> Prop) m :
  kept m0 m -> (forall w m', kept m0 m' -> grows m m' -> valid m' (HWindow w) -> Q w m') ->
  runs P E (target_window reference) Q m.
Proof.
  intros Hk HQ. unfold target_window. destruct reference as [r|].
  - case_decide.
    + apply runs_make_window; [done|]. intros w m' H1 H2 H3. apply HQ; [done..|by eexists].
    + runs_steps. apply runs_lift_ok_or; [by apply HE|]. intros w (win & Hw & _)%position_Some.
      apply HQ; [done|apply grows_refl|]. exists (win_tabs win). simpl. unfold id in Hw. by rewrite Hw.
  - runs_steps. unfold id. destruct (m_windows m) as [|win [|? ?]] eqn:Hw; simpl.
    + apply runs_make_window; [done|]. intros w m' H1 H2 H3. apply HQ; [done..|by eexists].
    + apply runs_ret. apply HQ; [done|apply grows_refl|]. exists (win_tabs win). simpl. by rewrite Hw.
    + apply runs_fail. by apply HE.
Qed.

Lemma runs_workspace_holder reference (Q : Holder -> Model -> Prop) m :
  kept m0 m -> (forall s, ws_index m reference = Some s -> valid m (HWorkspace s) -> Q (HWorkspace s) m) ->
  runs P E (workspace_holder reference) Q m.
Proof.
  intros Hk HQ. unfold workspace_holder. runs_steps. apply runs_lift_ok_or; [by apply HE|].
  intros h (s & Hs & ->)%fmap_Some. apply HQ; [done|]. destruct (ws_index_lookup _ _ _ Hs) as [ws Hws].
  exists (ws_tabs ws). simpl. unfold id in Hws. by rewrite Hws.
Qed.

Lemma runs_window_holder reference (Q : Holder -> Model -> Prop) m :
  kept m0 m -> (forall h m', kept m0 m' -> grows m m' -> valid m' h -> Q h m') ->
  runs P E (window_holder reference) Q m.
Proof.
  intros Hk HQ. unfold window_holder. runs_steps. unfold id.
  destruct (r ← reference; desk_workspace m r) as [s|] eqn:Hd.
  - apply runs_ret. apply HQ; [done|apply grows_refl|]. apply bind_Some in Hd as (r & _ & Hd).
    apply bind_Some in Hd as (desk & _ & Hd). apply bind_Some in Hd as (ws & _ & Hd).
    destruct (ws_index_lookup _ _ _ Hd) as [w Hw]. exists (ws_tabs w). simpl. by rewrite Hw.
  - runs_step. apply runs_target_window; [done|]. intros w m' H1 H2 H3. runs_steps. by apply HQ.
Qed.

Lemma runs_window_for h (Q : nat -> Model -> Prop) m :
  kept m0 m -> valid m h ->
  (forall w m', kept m0 m' -> valid m' (HWindow w) -> m_workspaces m' = m_workspaces m ->
     (forall h ts, tabs_of m h = Some ts -> tabs_of m' h = Some ts) -> Q w m') ->
  runs P E (act_opt (fun m => window_for m (ws_of m h))) Q m.
Proof.
  intros Hk Hv HQ. assert (exists ws, match ws_of m h with
              | Some s => sp ← m_workspaces m !! s; Some (if is_task sp then Some (ws_id sp) else None)
              | None => Some None
              end = Some ws) as [ws Hws].
  { destruct (ws_of m h) as [s|] eqn:Hs; [|by eexists].
    destruct (ws_of_lookup _ _ _ Hv Hs) as [sp Hsp]. rewrite Hsp. by eexists. }
  unfold runs, act_opt, window_for. rewrite Hws. cbn [mbind option_bind].
  destruct (make_window m) as [w m1] eqn:Hm. destruct (make_window_spec _ _ _ Hm) as (-> & Hw & Hs & Hp & Hwf).
  set (win := window_new _) in Hw. assert (m_windows m1 !! length (m_windows m) = Some win) as Hl.
  { rewrite Hw. by apply list_lookup_middle. }
  destruct (alter_window_extras m1 _ win (set_win_workspace win ws) Hl) as (Hb & Hi & Hp'); [done..|].
  unfold alter_window. rewrite Hl. cbn [mbind option_bind]. apply HQ.
  - unfold lead_panes in Hp'. cbn [set_win_workspace win_lead win] in Hp'. simpl in Hp'. rewrite !app_nil_r in Hp'.
    eapply kept_step; [done| |by rewrite Hp']. eapply ids_wf_same; try done. apply Hwf, Hk.
  - exists (win_tabs win). simpl. by rewrite list_lookup_insert_eq by (by eapply lookup_lt_Some).
  - done.
  - intros h' ts Hts. destruct h' as [w|s]; simpl in *.
    + apply fmap_Some in Hts as (win' & Hwin & ->). pose proof (lookup_lt_Some _ _ _ Hwin).
      rewrite list_lookup_insert_ne by lia. by rewrite Hw, (lookup_app_l_Some _ _ _ _ Hwin).
    + by rewrite Hs.
Qed.

Lemma runs_need_tab reference (Q : Holder * nat -> Model -> Prop) m :
  kept m0 m ->
  (forall h t ts tab, tabs_of m h = Some ts -> tabs_tabs ts !! t = Some tab -> Q (h, t) m) ->
  runs P E (need_tab reference) Q m.
Proof.
  intros Hk HQ. unfold need_tab. runs_steps. apply runs_lift_ok_or; [by apply HE|].
  intros [h t] (r & _ & Hi)%bind_Some. destruct (tab_index_Some _ _ _ _ Hi) as (ts & tab & H1 & H2 & _).
  by eapply HQ.
Qed.
End Windows.

(** ** The commands that only look, name and size *)

(** The command never panics, and keeps the panes whether it succeeds or fails. *)
Definition keeps (op : act Model Map) : Prop :=
  forall m, model_wf m -> runs False (kept m) op (fun _ => kept m) m.

Lemma runs_refuse_background {E : Model -> Prop} m id panes (Q : unit -> Model -> Prop) :
  E m -> (background_ws m id = None -> Q tt m) -> runs False E (act_lift (refuse_background m id panes)) Q m.
Proof.
  intros HE HQ. unfold refuse_background. destruct (background_ws m id) as [s|] eqn:Hb; [|by apply HQ].
  destruct (background_ws_Some _ _ _ Hb) as (ws & Hs & _). rewrite Hs. exact HE.
Qed.

Lemma runs_need_pane {P : Prop} {E : Model -> Prop} m panes reference (Q : Pane -> Model -> Prop) :
  E m -> (forall p, panes_need panes reference = Ok p -> Q p m) ->
  runs P E (act_lift (panes_need panes reference)) Q m.
Proof.
  intros HE HQ. apply runs_lift; [auto|done|]. unfold panes_need. destruct reference as [r|]; simpl; [|done].
  by destruct (panes_pane panes r).
Qed.

Lemma focus_keeps args panes : keeps (focus args panes).
Proof.
  intros m Hwf. pose proof (kept_refl m Hwf) as Hk. unfold focus.
  destruct (string_of args "pane") as [r|].
  - runs_step. apply runs_need_pane; [done|]. intros p Hp. runs_step. apply runs_get_model. runs_step.
    apply runs_refuse_background; [done|]. intros Hb. runs_step. eapply runs_focus_pane; [done|].
    intros m' Hk' Hr. destruct (holder_of m (pane_id p)) as [h|] eqn:Hh; [|by runs_step].
    apply runs_get_at; [|done]. eapply reshaped_valid; [done|]. by eapply holder_of_valid.
  - destruct (string_of args "tab") as [r|].
    + runs_step. apply runs_get_model. runs_step. apply runs_lift_ok_or; [done|]. intros [h t] Ht.
      destruct (tab_index_Some _ _ _ _ Ht) as (ts & tab & Hts & Htab & _).
      runs_step. eapply runs_get_tabs; [done|]. runs_step.
      assert (forall m', reshaped m m' -> valid m' h) as Hv.
      { intros m' Hr. eapply reshaped_valid; [done|]. by eexists. }
      destruct (_ && _).
      * eapply runs_same_shape; [done|done|by rewrite Htab|done|]. intros m' Hk' Hr _.
        apply runs_get_at; [by apply Hv|done].
      * eapply runs_same_shape; [done|done|unfold tabs_show; by rewrite Htab|done|]. intros m' Hk' Hr _.
        apply runs_get_at; [by apply Hv|done].
    + destruct (get args "window"); [|by runs_step]. runs_step. apply (runs_window_holder (m0 := m)); [done|done|].
      intros h m' Hk' Hg Hv. by apply runs_get_at.
Qed.

Lemma zoom_keeps args panes : keeps (zoom args panes).
Proof.
  intros m Hwf. pose proof (kept_refl m Hwf) as Hk. unfold zoom. runs_step. apply runs_need_pane; [done|].
  intros p Hp. runs_step. apply runs_get_model. runs_step. apply runs_refuse_background; [done|]. intros Hb.
  runs_step. apply runs_lift_ok_or; [done|]. intros h Hh. pose proof (holder_of_valid _ _ _ Hh) as Hv.
  destruct Hv as [ts Hts] eqn:Hv'. runs_step. eapply runs_get_tabs; [done|]. runs_step.
  eapply runs_focus_pane; [done|]. intros m' Hk' Hr. destruct (reshaped_valid m m' h Hr Hv) as [ts' Hts'].
  runs_step. eapply runs_same_shape; [done|done|done|done|]. intros m'' Hk'' Hr' _. runs_step.
  apply runs_get_at; [|by intros out; runs_step]. eapply reshaped_valid; [done|]. by eexists.
Qed.

Lemma rename_tab_keeps args : keeps (rename_tab args).
Proof.
  intros m Hwf. pose proof (kept_refl m Hwf) as Hk. unfold rename_tab. runs_step. apply runs_get_model.
  runs_step. apply runs_lift_ok_or; [done|]. intros [h t] Ht.
  destruct (tab_index_Some _ _ _ _ Ht) as (ts & tab & Hts & Htab & _). destruct (str_is_empty _); [by runs_step|].
  runs_step. eapply runs_same_shape; [done|done|unfold alter_tab; by rewrite Htab| |].
  - by apply (set_tabs_shape _ _ tab).
  - intros m' Hk' Hr Hts'. runs_step. eapply runs_get_tab; [|by runs_step]. unfold tab_at. rewrite Hts'. simpl.
    apply list_lookup_insert_eq. by eapply lookup_lt_Some.
Qed.

Lemma set_desks_keeps args : keeps (set_desks args).
Proof.
  intros m Hwf. pose proof (kept_refl m Hwf) as Hk. unfold set_desks. runs_step.
  apply runs_lift_ok_or; [done|]. intros l _. runs_steps. eapply kept_step; [done| |done].
  apply (ids_wf_same m); try done. apply Hwf.
Qed.

(** ** Sizes: a tree with other shares has the same panes *)

Lemma kid_at_Some {A} (l : list A) i x : kid_at l i = Some x -> l !! N.to_nat i = Some x.
Proof. unfold kid_at. by destruct (_ <? _)%N. Qed.

Lemma resized_split_ids axis kids kids' :
  map child_node kids' = map child_node kids ->
  split_ids (mkSplit axis kids') = split_ids (mkSplit axis kids).
Proof.
  intros H. unfold split_ids, kids_ids. simpl. rewrite !flat_map_concat_map, <- !(map_map child_node collect).
  by rewrite H.
Qed.

Lemma resized_wf axis kids kids' :
  map child_node kids' = map child_node kids -> node_wf (NSplit (mkSplit axis kids)) ->
  node_wf (NSplit (mkSplit axis kids')).
Proof.
  intros H Hwf. inversion_clear Hwf as [|? ? Hlen Hall]. constructor.
  - by rewrite <- (length_map child_node), H, length_map.
  - rewrite <- (Forall_map child_node node_wf) in Hall |- *. by rewrite H.
Qed.

Lemma set_size_nodes (kids : list NChild) i kid (size : f64) :
  kids !! i = Some kid -> map child_node (<[i := set_child_size kid size]> kids) = map child_node kids.
Proof. intros H. by apply (map_insert_eq child_node _ _ kid). Qed.

Lemma set_share_nodes index share split split' :
  set_share index share split = Ok split' ->
  split_axis split' = split_axis split /\ map child_node (split_kids split') = map child_node (split_kids split).
Proof.
  unfold set_share. destruct (index =? usize_max)%N; [done|].
  destruct (kid_at (split_kids split) index) as [a|] eqn:Ha; [|done].
  destruct (kid_at (split_kids split) (index + 1)) as [b|] eqn:Hb; [|done].
  destruct (_ && _); [|done]. intros [= <-]. split; [done|]. simpl.
  apply kid_at_Some in Ha, Hb. replace (N.to_nat (index + 1)) with (S (N.to_nat index)) in Hb by lia.
  rewrite (map_insert_eq child_node _ _ b); [by apply set_size_nodes| |done].
  rewrite list_lookup_insert_ne by lia. done.
Qed.

Lemma at_divider_keeps path f node node' :
  (forall split split', f split = Ok split' ->
     split_axis split' = split_axis split /\ map child_node (split_kids split') = map child_node (split_kids split)) ->
  at_divider path f node = Ok node' -> collect node' = collect node /\ (node_wf node -> node_wf node').
Proof.
  intros Hf. revert node node'. induction path as [|i path IH]; intros [id|[axis kids]] node'; simpl; try done.
  - destruct (f _) as [[axis' kids']| |] eqn:E; simpl; try done. intros [= <-].
    destruct (Hf _ _ E) as [Ha Hn]. simpl in *. subst axis'.
    split; [exact (resized_split_ids axis kids kids' Hn)|exact (resized_wf axis kids kids' Hn)].
  - destruct (kid_at kids i) as [kid|] eqn:Hk; [|done]. apply kid_at_Some in Hk.
    destruct (at_divider path f (child_node kid)) as [n| |] eqn:E; simpl; try done. intros [= <-].
    destruct (IH _ _ E) as [Hc Hw]. split.
    + simpl. by apply (flat_map_insert_eq _ _ _ kid).
    + intros Hwf. inversion_clear Hwf as [|? ? Hlen Hall]. constructor; [by rewrite length_insert|].
      apply Forall_insert; [done|]. simpl. apply Hw. by apply (Forall_lookup_1 _ _ _ _ Hall Hk).
Qed.

Lemma at_divider_no_panic path index share node :
  at_divider path (set_share index share) node = Panic -> index = usize_max.
Proof.
  revert node. induction path as [|i path IH]; intros [id|split]; simpl; try done.
  - unfold set_share. destruct (index =? usize_max)%N eqn:E; [by apply N.eqb_eq in E|].
    destruct (kid_at _ _); [|done]. destruct (kid_at _ _); [|done]. by destruct (_ && _).
  - destruct (kid_at _ _) as [kid|]; [|done].
    destruct (at_divider path _ (child_node kid)) eqn:E; [done|done|]. intros _. by eapply IH.
Qed.

Lemma bar_tree m h ts t tab root :
  ids_wf m -> tabs_of m h = Some ts -> tabs_tabs ts !! t = Some tab -> tab_root tab = Some root -> node_wf root.
Proof.
  intros [_ _ _ _ _ _ Htr] Hts Ht Hr. pose proof (Forall_lookup_1 _ _ _ _ Htr (tabs_of_bar _ _ _ Hts)) as Hw.
  by apply (Forall_lookup_1 _ _ _ _ Hw Ht).
Qed.

(** A tab's tree replaced by one with the same panes. *)
Lemma runs_set_tree {m0 : Model} {P : Prop} {E : Model -> Prop} h t f ts tab root (Q : unit -> Model -> Prop) m :
  kept m0 m -> tabs_of m h = Some ts -> tabs_tabs ts !! t = Some tab ->
  f tab = Some (set_tab_root tab (Some root)) ->
  collect root = tab_panes tab -> node_wf root ->
  (forall m', kept m0 m' -> reshaped m m' -> tab_at m' h t = Some (set_tab_root tab (Some root)) -> Q tt m') ->
  runs P E (change_tabs h (fun ts => alter_tab ts t f)) Q m.
Proof.
  intros Hk Hts Ht Hf Hc Hw HQ.
  destruct (alter_tab_spec ts t tab f (set_tab_root tab (Some root)) [] []) as (ts' & Ha & Hsw & Hkept & Hl & Hw');
    [done|done|done| |].
  { exists (tab_panes tab), []. simpl. rewrite app_nil_r. split; [done|]. unfold tab_panes at 1. simpl. done. }
  eapply runs_reshape; [done|done|exact Ha|by apply kept_ids| | |].
  - destruct Hsw as (l1 & l2 & -> & ->). done.
  - intros Htw. apply Hw'; [done|]. by intros r [= <-].
  - intros m' Hk' Hr Hts'. apply HQ; [done..|]. unfold tab_at. by rewrite Hts'.
Qed.

Lemma set_divider_runs m tab path index share (Q : unit -> Model -> Prop) :
  model_wf m -> (forall m', kept m m' -> Q tt m') ->
  runs (index = usize_max) (kept m) (set_divider tab path index share) Q m.
Proof.
  intros Hwf HQ. pose proof (kept_refl m Hwf) as Hk. unfold set_divider. runs_step. apply runs_get_model. runs_step.
  apply runs_lift_ok_or; [done|]. intros [h t] Ht. destruct (tab_index_Some _ _ _ _ Ht) as (ts & found & Hts & Htab & _).
  runs_step. eapply runs_get_tab; [unfold tab_at; by rewrite Hts|]. runs_step. apply runs_lift_ok_or; [done|].
  intros root Hr. runs_step. apply runs_lift; [|done|apply at_divider_no_panic]. intros root' Hd.
  destruct (at_divider_keeps _ _ _ _ (set_share_nodes index share) Hd) as [Hc Hw].
  eapply runs_set_tree; [done|done|done|done| | |auto].
  - unfold tab_panes. by rewrite Hr.
  - apply Hw. eapply bar_tree; [apply Hwf|done..].
Qed.

Lemma resize_kid_spec index size split i kid id :
  i = index -> split_kids split !! i = Some kid -> child_node kid = NPane id ->
  exists split', resize_kid index size split = Some split' /\
    split_axis split' = split_axis split /\ map child_node (split_kids split') = map child_node (split_kids split).
Proof.
  intros -> Hk Hn. unfold resize_kid. rewrite Hk. simpl. eexists; split; [done|]. split; [done|]. simpl.
  assert (forall f : NChild -> f64, map child_node (map (fun kid => set_child_size kid (f kid)) (split_kids split)) =
    map child_node (split_kids split)) as Hm by (intros f; by rewrite map_map).
  rewrite (map_insert_eq child_node _ _ (set_child_size kid
    (if flt (child_size kid) f_nearly then fdiv (fmul (child_size kid) (fsub f1 size)) (fsub f1 (child_size kid))
     else fdiv (fsub f1 size) (f_of_nat (length (split_kids split) - 1))))); [apply Hm| |done].
  by rewrite lookup_map, Hk.
Qed.

Lemma resize_tree root path i id size :
  node_wf root -> pane_at root path i id ->
  exists root', split_mut root path (resize_kid i size) = Some root' /\ collect root' = collect root /\ node_wf root'.
Proof.
  intros Hw Hp. destruct (pane_at_update root path i id (resize_kid i size) [id] Hp)
    as (sp & sp' & root' & l1 & l2 & Hs & Hf & Hm & H1 & H2).
  { intros split kid Hk Hn. destruct (resize_kid_spec i size split i kid id eq_refl Hk Hn) as (split' & Hf & Ha & Hnodes).
    exists split'. split; [done|]. destruct split' as [axis' kids']. simpl in *. unfold split_ids. simpl.
    transitivity (kids_ids (split_kids split)).
    - exact (resized_split_ids axis' (split_kids split) kids' Hnodes).
    - rewrite (split_lookup _ _ _ Hk) at 1. by rewrite kids_ids_app, kids_ids_cons, Hn. }
  exists root'. split_and!; [done|by rewrite H1, H2|].
  eapply split_mut_wf_strong; [exact Hs|exact Hf|exact Hm|done|].
  destruct Hp as (sp0 & kid & Hs0 & Hk & Hn). rewrite Hs in Hs0. injection Hs0 as <-.
  destruct (resize_kid_spec i size sp i kid id eq_refl Hk Hn) as (sp'' & Hf' & Ha & Hnodes).
  rewrite Hf in Hf'. injection Hf' as <-. destruct sp as [ax ks], sp' as [ax' ks']. simpl in *. subst ax'.
  apply (resized_wf ax ks); [done|]. exact (split_at_wf _ _ _ Hw Hs).
Qed.

(** A resize keeps the panes; only a divider index of [usize::MAX] can panic. *)
Lemma resize_runs args panes m :
  model_wf m ->
  runs ((v ← get args "index"; as_u64 v) = Some usize_max) (kept m) (resize args panes) (fun _ => kept m) m.
Proof.
  intros Hwf. pose proof (kept_refl m Hwf) as Hk. unfold resize. destruct (string_of args "tab") as [tab|].
  - runs_step. apply runs_lift_ok_or; [done|]. intros index Hi. runs_step. apply runs_lift_ok_or; [done|].
    intros share _. runs_step. eapply runs_mono; [apply (set_divider_runs m _ _ _ _ (fun _ => kept m)); [done|auto]| |auto|].
    + intros ->. exact Hi.
    + intros [] m' Hk'. runs_step. apply runs_get_model. by runs_step.
  - runs_step. apply runs_need_pane; [done|]. intros p Hp. runs_step. apply runs_lift; [|done|].
    2: { unfold fraction. by destruct (fraction_parse _). }
    intros size _. destruct (negb _); [by runs_step|]. runs_step. apply runs_get_model.
    destruct (dock_ws m (pane_id p)) as [s|] eqn:Hd; [|destruct (lead_window m (pane_id p)) as [w|] eqn:Hl].
    + destruct (dock_ws_Some _ _ _ Hd) as (ws & Hs & Hdp).
      destruct (alter_workspace_extras m s ws (set_ws_dock ws (set_dock_width (ws_dock ws) size)) [] [] Hs)
        as (Hb & Hi & Hperm); [done|done|done|]. rewrite !app_nil_r in Hperm.
      assert (m_workspaces (set_workspaces m (<[s:=set_ws_dock ws (set_dock_width (ws_dock ws) size)]> (m_workspaces m))) !! s
        = Some (set_ws_dock ws (set_dock_width (ws_dock ws) size))) as Hs'.
      { apply list_lookup_insert_eq. by eapply lookup_lt_Some. }
      runs_step. eapply runs_update; [unfold alter_workspace; by rewrite Hs|]. runs_step.
      apply runs_get_at; [unfold valid, tabs_of; rewrite Hs'; by eexists|]. intros out. runs_step.
      eapply runs_get; [exact Hs'|]. runs_step. eapply kept_step; [done| |done].
      apply (ids_wf_same m); try done. apply Hwf.
    + destruct (lead_window_Some _ _ _ Hl) as (win & d & Hw & Hlead & Hdp).
      destruct (alter_window_extras m w win (set_win_lead win ((fun d => set_dock_width d size) <$> win_lead win)) Hw)
        as (Hb & Hi & Hperm); [done|done|].
      assert (lead_panes (set_win_lead win ((fun d => set_dock_width d size) <$> win_lead win)) = lead_panes win) as Hle.
      { unfold lead_panes. simpl. by rewrite Hlead. }
      rewrite Hle in Hperm. apply (inj (fun l => l ++ lead_panes win)) in Hperm.
      runs_step. eapply runs_update; [unfold alter_window; by rewrite Hw|]. runs_step.
      eapply runs_get; [simpl; apply list_lookup_insert_eq; by eapply lookup_lt_Some|]. runs_step.
      eapply kept_step; [done| |done]. apply (ids_wf_same m); try done. apply Hwf.
    + runs_step. apply runs_lift_ok_or; [done|]. intros l Hloc. destruct (loc_parent l) as [path|] eqn:Hpar; [|by runs_step].
      destruct (locate_holds _ _ _ Hloc) as (ts & tab & root & Hts & Htab & Hr & Hpl). rewrite Hpar in Hpl.
      destruct (resize_tree root path (loc_index l) (pane_id p) size) as (root' & Hm & Hc & Hw);
        [eapply bar_tree; [apply Hwf|done..]|done|].
      runs_step. eapply runs_set_tree; [done|done|done|rewrite Hr; simpl; by rewrite Hm| |done|].
      * unfold tab_panes. by rewrite Hr.
      * intros m' Hk' _ Ht'. runs_step. eapply runs_get_tab; [done|]. by runs_step.
Qed.

(** ** move-tab *)

Lemma insert_tab_spec index moving ts :
  exists ts', insert_tab index moving ts = Some ts' /\ tab_ids ts' ≡ₚ tab_id moving :: tab_ids ts /\
    tabs_panes ts' ≡ₚ tab_panes moving ++ tabs_panes ts /\ (tab_wf moving -> tabs_wf ts -> tabs_wf ts').
Proof.
  unfold insert_tab. set (i := N.to_nat _).
  set (l := vec_insert i moving (tabs_tabs ts)).
  assert (l ≡ₚ moving :: tabs_tabs ts) as Hl.
  { unfold l, vec_insert. rewrite <- (take_drop i (tabs_tabs ts)) at 3. solve_Permutation. }
  destruct (position_is_Some (fun t => bool_decide (tab_id t = tab_id moving)) l moving) as [d Hd].
  { rewrite Hl. left. }
  { by apply bool_decide_eq_true. }
  destruct (position_Some _ _ _ Hd) as (tab & Htab & _).
  unfold tabs_position. cbn [set_tabs tabs_tabs]. rewrite Hd. cbn [mbind option_bind].
  unfold tabs_show. cbn [set_tabs tabs_tabs]. rewrite Htab. cbn [mbind option_bind].
  eexists; split; [done|]. split_and!.
  - unfold tab_ids. simpl. fold l. by rewrite Hl.
  - unfold tabs_panes. simpl. fold l. by rewrite Hl.
  - intros Hm Ht. unfold tabs_wf. simpl. fold l. rewrite Hl. by constructor.
Qed.

Lemma alter_tabs_tab_ids m m' h ts ts' old new :
  tabs_of m h = Some ts -> bars m' = <[bar_index m h := ts']> (bars m) ->
  tab_ids ts' ++ old ≡ₚ tab_ids ts ++ new -> all_tab_ids m' ++ old ≡ₚ all_tab_ids m ++ new.
Proof.
  intros Hts Hb Hp. unfold all_tab_ids. rewrite Hb. eapply flat_map_insert_perm; [by apply tabs_of_bar|done].
Qed.

(** A rooted tab on show is still on show after [drop_empty]. *)
Lemma foldl_adopt_prefix l m : exists k, m_windows (foldl adopt m l) = m_windows m ++ k.
Proof.
  revert m. induction l as [|ts l IH]; intros m; simpl; [exists []; by rewrite app_nil_r|].
  destruct (IH (adopt m ts)) as [k Hk]. destruct (adopt_cases m ts) as [[_ E]|[_ E]]; rewrite E in Hk |- *.
  - by exists k.
  - eexists. rewrite Hk. simpl. by rewrite <- (assoc_L (++)).
Qed.

Definition rooted_bar (ts : Tabs) : Prop := Forall (fun tab => is_Some (tab_root tab)) (tabs_tabs ts).

Lemma settle_bar_keeps side ts tab :
  tab ∈ tabs_tabs ts -> is_Some (tab_root tab) -> tab ∈ tabs_tabs (settle_bar side ts).
Proof.
  intros Hin Hr. rewrite settle_bar_tabs, tidy_tabs, elem_of_retain. split; [|done].
  by apply bool_decide_eq_true.
Qed.

Lemma free_gone_lookup m w win :
  m_windows m !! w = Some win ->
  exists win', m_windows (free_gone m) !! w = Some win' /\ win_tabs win' = win_tabs win /\
    win_lead win' = win_lead win /\ win_id win' = win_id win.
Proof.
  intros Hw. unfold free_gone. simpl. rewrite lookup_map, Hw. simpl. eexists; split; [done|].
  destruct (win_workspace win); [|done]. by destruct (ws_index m s).
Qed.

Lemma drop_empty_live m h ts tab :
  tabs_of m h = Some ts -> tab ∈ tabs_tabs ts -> is_Some (tab_root tab) ->
  tab_id tab ∈ flat_map tab_ids (live_bars (drop_empty m)).
Proof.
  intros Hts Hin Hr. unfold drop_empty. cbv zeta. set (m2 := set_windows (settle_all (free_gone m)) _).
  destruct (adopt_all_windows (m_orphans m2) (set_orphans m2 [])) as [Hs _].
  destruct (foldl_adopt_prefix (m_orphans m2) (set_orphans m2 [])) as [k Hk].
  unfold live_bars. rewrite Hs, Hk. apply elem_of_flat_map.
  enough (exists ts', ts' ∈ map win_tabs (m_windows m2) ++ map ws_tabs (m_workspaces m2) /\ tab ∈ tabs_tabs ts')
    as (ts' & Ht' & Htab).
  { exists ts'. split; [|by apply list_elem_of_fmap_2].
    change (m_windows (set_orphans m2 [])) with (m_windows m2).
    change (m_workspaces (set_orphans m2 [])) with (m_workspaces m2).
    rewrite map_app. rewrite !elem_of_app in *. tauto. }
  destruct h as [w|s]; simpl in Hts; apply fmap_Some in Hts as (x & Hx & ->).
  - destruct (free_gone_lookup m w x Hx) as (x' & Hx' & Ht & _). exists (settle_bar (dock_pane <$> win_lead x') (win_tabs x')).
    rewrite Ht. split; [|by apply settle_bar_keeps]. apply elem_of_app. left. unfold m2. simpl.
    apply list_elem_of_fmap. exists (set_win_tabs x' (settle_bar (dock_pane <$> win_lead x') (win_tabs x'))).
    rewrite Ht. split; [done|]. apply elem_of_retain. split.
    + unfold window_kept. simpl. apply orb_true_iff. left. apply negb_true_iff, bool_decide_eq_false. intros E.
      pose proof (settle_bar_keeps (dock_pane <$> win_lead x') _ _ Hin Hr) as Hk'. rewrite E in Hk'.
      by apply elem_of_nil in Hk'.
    + apply list_elem_of_fmap. exists x'. rewrite Ht. split; [done|]. by eapply list_elem_of_lookup_2.
  - exists (settle_bar (Some (dock_pane (ws_dock x))) (ws_tabs x)). split; [|by apply settle_bar_keeps].
    apply elem_of_app. right. apply list_elem_of_fmap.
    exists (set_ws_tabs x (settle_bar (Some (dock_pane (ws_dock x))) (ws_tabs x))). split; [done|].
    unfold m2. simpl. apply list_elem_of_fmap. exists x. split; [done|]. by eapply list_elem_of_lookup_2.
Qed.

Lemma tidy_rooted_bar m h ts : tidy_model m -> tabs_of m h = Some ts -> rooted_bar ts.
Proof.
  intros [_ Hw Hs] Hts. destruct h as [w|s]; simpl in Hts; apply fmap_Some in Hts as (x & Hx & ->).
  - apply (Forall_lookup_1 _ _ _ _ Hw) in Hx as [[Hb _ _] _]. done.
  - apply (Forall_lookup_1 _ _ _ _ Hs) in Hx as [Hb _ _]. done.
Qed.

(** What [move_tab_holder] gives: a holder, and every tab bar as it was. *)
Lemma runs_move_tab_holder {m0 : Model} {P : Prop} source args (Q : Holder -> Model -> Prop) m :
  kept m0 m -> valid m source ->
  (forall h m', kept m0 m' -> valid m' h -> (forall h ts, tabs_of m h = Some ts -> tabs_of m' h = Some ts) -> Q h m') ->
  runs P (kept m0) (move_tab_holder source args) Q m.
Proof.
  intros Hk Hv HQ. unfold move_tab_holder. destruct (get args "window") as [window|].
  - case_decide.
    + runs_step. eapply runs_window_for; [done|done|]. intros w m' H1 H2 _ H3. runs_step. by apply HQ.
    + eapply (runs_window_holder (m0 := m0)); [done|done|]. intros h m' H1 H2 H3. apply HQ; [done..|].
      intros h' ts. by apply grows_tabs.
  - destruct (given args "workspace"); [|runs_step; by apply HQ].
    apply (runs_workspace_holder (m0 := m0)); [done|done|]. intros s _ Hs. by apply HQ.
Qed.

(** The tab taken out of one bar and put in another. *)
Lemma move_tab_change m source ts t moving dest index :
  model_wf m -> tabs_of m source = Some ts -> tabs_tabs ts !! t = Some moving -> valid m dest ->
  exists m1 m2 ts1 ts2,
    alter_tabs m source (fun ts => Some (set_tabs ts (delete t (tabs_tabs ts)))) = Some m1 /\
    tabs_of m1 dest = Some ts1 /\
    alter_tabs m1 dest (insert_tab index moving) = Some m2 /\ kept m m2 /\
    tabs_of m2 dest = Some ts2 /\ moving ∈ tabs_tabs ts2.
Proof.
  intros [Hwf Hnd] Hts Ht Hv. set (ts' := set_tabs ts (delete t (tabs_tabs ts))).
  assert (tabs_panes ts ≡ₚ tab_panes moving ++ tabs_panes ts') as Hp by (by apply flat_map_delete_perm).
  assert (tab_ids ts ≡ₚ tab_id moving :: tab_ids ts') as Hi.
  { unfold tab_ids, ts'. simpl. rewrite map_delete. apply delete_Permutation. by rewrite lookup_map, Ht. }
  assert (tabs_wf ts) as Htw.
  { destruct Hwf as [_ _ _ _ _ _ Htr]. eapply Forall_lookup_1; [exact Htr|by apply tabs_of_bar]. }
  destruct (alter_tabs_wf m source (fun ts => Some (set_tabs ts (delete t (tabs_tabs ts)))) ts ts' (tab_panes moving) [])
    as (m1 & Ha1 & Ht1 & Hfr1 & Hb1 & Hp1 & Hwf1); [done|done|done| | |by apply Forall_delete|].
  { rewrite Hp, app_nil_r. solve_Permutation. }
  { rewrite Hi. by apply submseteq_cons. }
  assert (valid m1 dest) as [ts1 Hts1].
  { unfold valid. rewrite <- elem_of_holders, (frame_holders _ _ Hfr1). by apply elem_of_holders. }
  destruct (insert_tab_spec index moving ts1) as (ts2 & Hin & Hi2 & Hp2 & Hw2).
  destruct (alter_tabs_panes m1 dest (insert_tab index moving) ts1 ts2 [] (tab_panes moving) Hts1 Hin)
    as (m2 & Ha2 & Ht2 & Hfr2 & Hb2 & Hperm2).
  { rewrite Hp2, app_nil_r. solve_Permutation. }
  exists m1, m2, ts1, ts2. split_and!; try done.
  - assert (all_panes m2 ≡ₚ all_panes m) as Hall.
    { rewrite app_nil_r in Hperm2. rewrite Hperm2, Hp1, app_nil_r. done. }
    assert (same_frame m m2) as Hfr by (by eapply same_frame_trans).
    eapply (kept_step m m); [done| |done]. destruct (frame_counters _ _ Hfr) as (Hc1 & Hc2 & Hc3 & _).
    apply (ids_wf_mono m); rewrite ?Hc1, ?Hc2, ?Hc3; try done.
    + apply Permutation_submseteq.
      pose proof (alter_tabs_tab_ids m m1 source ts ts' [tab_id moving] [] Hts Hb1) as H1.
      pose proof (alter_tabs_tab_ids m1 m2 dest ts1 ts2 [] [tab_id moving] Hts1 Hb2) as H2.
      rewrite app_nil_r in H1, H2. rewrite <- (app_nil_r (all_tab_ids m2)), H2, H1; [by rewrite app_nil_r|..].
      * rewrite Hi. solve_Permutation.
      * rewrite Hi2. solve_Permutation.
    + by rewrite (frame_win_ids _ _ Hfr).
    + by rewrite (frame_ws_ids _ _ Hfr).
    + rewrite Hb2. destruct Hwf1 as [_ _ _ _ _ _ Htr1]. apply Forall_insert; [done|]. apply Hw2.
      * by apply (Forall_lookup_1 _ _ _ _ Htw Ht).
      * eapply Forall_lookup_1; [exact Htr1|by apply tabs_of_bar].
  - unfold insert_tab in Hin. apply bind_Some in Hin as (d & _ & Hsh).
    apply bind_Some in Hsh as (tb & _ & [= <-]). simpl. unfold vec_insert. set_solver.
Qed.

Lemma read_index_total args : read_index args ≠ Panic.
Proof.
  unfold read_index. destruct (get args "index"); [|done]. destruct (as_f64 v); [|done]. by destruct (_ && _).
Qed.

(** Moving a tab keeps every pane; with no empty tab about it never panics. *)
Lemma move_tab_runs args m :
  model_wf m -> runs (¬ tidy_model m) (kept m) (move_tab args) (fun _ m' => kept m m' /\ tidy_model m') m.
Proof.
  intros Hwf. pose proof (kept_refl m Hwf) as Hk. unfold move_tab. runs_step.
  apply (runs_need_tab (m0 := m)); [done|done|]. intros source t ts moving Hts Ht. runs_step.
  eapply runs_get_tab; [unfold tab_at; by rewrite Hts|]. runs_step.
  eapply runs_move_tab_holder; [done|by eexists|]. intros dest m1 Hk1 Hv1 Hsame. runs_step.
  apply runs_lift; [|done|intros E; by destruct (read_index_total args)]. intros index _. runs_step.
  pose proof (Hsame _ _ Hts) as Hts1.
  assert (forall index, exists m2 m3 ts2 ts3,
    alter_tabs m1 source (fun ts => Some (set_tabs ts (delete t (tabs_tabs ts)))) = Some m2 /\
    tabs_of m2 dest = Some ts2 /\ alter_tabs m2 dest (insert_tab index moving) = Some m3 /\ kept m1 m3 /\
    tabs_of m3 dest = Some ts3 /\ moving ∈ tabs_tabs ts3) as Hch.
  { intros i. apply move_tab_change with ts; try done. apply Hk1. }
  destruct (Hch 0%N) as (m2 & _ & ts2 & _ & Ha & Hts2 & _). eapply runs_update; [exact Ha|]. runs_step.
  eapply runs_get_tabs; [exact Hts2|]. runs_step.
  match goal with |- runs _ _ (change_tabs _ (insert_tab ?j _)) _ _ =>
    destruct (Hch j) as (m2' & m3 & ts2' & ts3 & Ha' & _ & Hb & Hk3 & Hts3 & Hin) end.
  rewrite Ha in Ha'. injection Ha' as <-. eapply runs_update; [exact Hb|]. runs_step.
  assert (kept m m3) as Hk3'.
  { destruct Hk1 as [_ Hp1]. destruct Hk3 as [Hw3 Hp3]. split; [done|]. by rewrite Hp3. }
  eapply runs_drop_empty; [exact Hk3'|]. intros m4 Hk4 Htidy ->. runs_step.
  destruct (tab_index (drop_empty m3) (tab_id moving)) as [[h t']|] eqn:Hi.
  - eapply runs_get; [exact Hi|]. cbn beta iota. destruct (tab_index_Some _ _ _ _ Hi) as (ts4 & _ & Hts4 & _). runs_step.
    eapply runs_get_tabs; [done|]. runs_step. apply runs_get_at; [by eexists|]. intros out. by runs_step.
  - unfold runs, act_get. rewrite Hi. intros Htm. pose proof (tidy_rooted_bar _ _ _ Htm Hts) as Hr.
    apply (Forall_lookup_1 _ _ _ _ Hr) in Ht. destruct (tab_index_is_Some (drop_empty m3) (tab_id moving)) as [? Hsome].
    + by eapply drop_empty_live.
    + congruence.
Qed.

(** ** window *)

(** With no empty window about, [drop_empty] keeps the windows in their order. *)
Lemma drop_empty_windows m :
  Forall (fun w => rooted_bar (win_tabs w) /\ window_kept w = true) (m_windows m) ->
  exists k, win_ids (drop_empty m) = win_ids m ++ k.
Proof.
  intros Hall. unfold drop_empty. cbv zeta. set (m1 := settle_all (free_gone m)). set (m2 := set_windows m1 _).
  destruct (foldl_adopt_prefix (m_orphans m2) (set_orphans m2 [])) as [k Hk].
  exists (map win_id k). unfold win_ids. rewrite Hk, map_app. f_equal.
  change (m_windows (set_orphans m2 [])) with (retain window_kept (m_windows m1)).
  rewrite retain_all.
  - unfold m1, settle_all, free_gone. simpl. rewrite !map_map. apply map_ext. intros w.
    destruct (win_workspace w); [|done]. by destruct (ws_index m s).
  - apply Forall_forall. intros w (w0 & -> & Hw)%list_elem_of_fmap. simpl in Hw.
    apply list_elem_of_fmap in Hw as (w1 & Hw0 & Hw). rewrite Forall_forall in Hall. destruct (Hall w1 Hw) as [Hr Hkept].
    assert (win_tabs w0 = win_tabs w1 /\ win_lead w0 = win_lead w1) as [Ht Hl].
    { rewrite Hw0. destruct (win_workspace w1); [|done]. by destruct (ws_index m s). }
    unfold window_kept in *. cbn [set_win_tabs win_tabs win_lead]. rewrite settle_bar_tabs, tidy_tabs, Ht, Hl.
    rewrite retain_all; [done|]. eapply Forall_impl; [exact Hr|]. intros tab H. by apply bool_decide_eq_true.
Qed.

Lemma alter_window_kept m0 m w win win' :
  kept m0 m -> m_windows m !! w = Some win -> win_tabs win' = win_tabs win -> win_id win' = win_id win ->
  win_lead win' = win_lead win -> kept m0 (set_windows m (<[w := win']> (m_windows m))).
Proof.
  intros Hk Hw Ht Hi Hl. destruct (alter_window_extras m w win win' Hw Ht Hi) as (Hb & Hids & Hp).
  unfold lead_panes in Hp. rewrite Hl in Hp. apply (inj (fun l => l ++ _)) in Hp.
  eapply kept_step; [done| |done]. apply (ids_wf_same m); try done. apply Hk.
Qed.

Lemma alter_workspace_kept m0 m s ws ws' :
  kept m0 m -> m_workspaces m !! s = Some ws -> ws_tabs ws' = ws_tabs ws -> ws_id ws' = ws_id ws ->
  ws_extras ws' = ws_extras ws -> kept m0 (set_workspaces m (<[s := ws']> (m_workspaces m))).
Proof.
  intros Hk Hw Ht Hi Hx. destruct (alter_workspace_extras m s ws ws' [] [] Hw Ht Hi) as (Hb & Hids & Hp).
  { by rewrite Hx. }
  rewrite !app_nil_r in Hp. eapply kept_step; [done| |done]. apply (ids_wf_same m); try done. apply Hk.
Qed.

Lemma window_command_runs args panes m :
  model_wf m ->
  runs (¬ tidy_model m) (kept m) (window_command args panes) (fun _ m' => kept m m' /\ tidy_model m') m.
Proof.
  intros Hwf. pose proof (kept_refl m Hwf) as Hk. unfold window_command. runs_step.
  apply runs_lift_ok_or; [done|]. intros r _. runs_step. apply runs_get_model. runs_step.
  apply runs_lift_ok_or; [done|]. intros w (win & Hw & Hid)%position_Some. runs_step. eapply runs_get; [exact Hw|].
  destruct (win_lead win) eqn:Hl; [by runs_step|]. runs_step. clear Hid.
  apply (runs_weaken _ _ _ (fun _ m1 => exists ws, m1 = set_windows m (<[w := set_win_workspace win ws]> (m_windows m)))).
  - case_decide; [|case_decide; [|by runs_step]].
    + runs_step. apply runs_lift_ok_or; [done|]. intros task _. runs_step. apply runs_lift_ok_or; [done|].
      intros ws _. eapply runs_update; [unfold alter_window; by rewrite Hw|]. by eexists.
    + eapply runs_update; [unfold alter_window; by rewrite Hw|]. by eexists.
  - intros [] m1 [ws ->]. runs_step.
    eapply runs_drop_empty; [by eapply alter_window_kept|]. intros m2 Hk2 Htidy Hm2. runs_step.
    destruct (at_ m2 (HWindow w)) as [out|] eqn:Hat; [eapply runs_get; [exact Hat|]; by runs_step|].
    unfold runs, get_at, act_get. rewrite Hat. intros [_ Htw _].
    destruct (drop_empty_windows (set_windows m (<[w:=set_win_workspace win ws]> (m_windows m)))) as [k Hids].
    { apply Forall_insert.
      - eapply Forall_impl; [exact Htw|]. by intros x ([Hr _ _] & Hkept & _).
      - destruct (Forall_lookup_1 _ _ _ _ Htw Hw) as ([Hr _ _] & Hkept & _). done. }
    rewrite <- Hm2 in Hids. assert (is_Some (win_ids m2 !! w)) as [x Hx].
    { rewrite Hids. apply lookup_lt_is_Some. rewrite length_app. unfold win_ids. simpl.
      rewrite length_map, length_insert. apply lookup_lt_Some in Hw. lia. }
    unfold win_ids in Hx. rewrite lookup_map in Hx. apply fmap_Some in Hx as (win' & Hw' & _).
    destruct (at_total m2 (HWindow w)) as [out Hout]; [|congruence]. exists (win_tabs win'). simpl. by rewrite Hw'.
Qed.

(** ** move *)

Lemma drop_empty_workspaces m :
  m_workspaces (drop_empty m) =
  map (fun ws => set_ws_tabs ws (settle_bar (Some (dock_pane (ws_dock ws))) (ws_tabs ws))) (m_workspaces m).
Proof.
  unfold drop_empty. cbv zeta. set (m2 := set_windows (settle_all (free_gone m)) _).
  by destruct (adopt_all_windows (m_orphans m2) (set_orphans m2 [])) as [-> _].
Qed.

Lemma to_background_runs id from panes m :
  model_wf m -> valid m from -> id ∈ placed m ->
  runs False (kept m) (to_background id from panes) (fun _ => kept m) m.
Proof.
  intros Hwf Hv Hin. pose proof (kept_refl m Hwf) as Hk. unfold to_background. runs_step. apply runs_get_model.
  destruct (dock_ws m id) as [|] eqn:Hd; [by runs_step|].
  destruct (s ← ws_of m from; ws ← m_workspaces m !! s; if is_task ws then Some s else None) as [s|] eqn:Hs;
    [|by runs_step].
  apply bind_Some in Hs as (s' & _ & Hs). apply bind_Some in Hs as (ws & Hws & Hs).
  destruct (is_task ws); [|done]. injection Hs as ->.
  enough (forall m', kept m m' -> (is_Some (background_ws m' id) \/ valid m' (HWorkspace s)) ->
    runs False (kept m) (let! m := get_model in
      let s := default s (background_ws m id) in
      let! out := get_at (HWorkspace s) in
      act_ret (map_insert (map_insert out "pane" (JString (panes_display panes id))) "background" (JBool true)))
      (fun _ => kept m) m') as Hend.
  2: { intros m' Hk' Hb. runs_step. apply runs_get_model. cbv zeta. runs_step. apply runs_get_at; [|intros out; by runs_step].
       destruct (background_ws m' id) as [s'|] eqn:Hb'; simpl; [by eapply background_valid|].
       destruct Hb as [[? ?]|?]; done. }
  runs_step. destruct (background_ws m id) as [b|] eqn:Hb.
  { runs_step. apply Hend; [done|]. left. by eexists. }
  destruct (detach_spec m id Hwf) as (m1 & Hm1 & Hdet). pose proof (detached_wf _ _ _ Hwf Hdet) as [Hwf1 Hn1].
  destruct (det_bars _ _ _ Hdet (or_introl Hd)) as (_ & Hwsids & _).
  assert (is_Some (m_workspaces m1 !! s)) as [ws1 Hws1].
  { apply lookup_lt_is_Some. rewrite <- (length_map ws_id). fold (ws_ids m1). rewrite Hwsids. unfold ws_ids.
    rewrite length_map. by eapply lookup_lt_Some. }
  runs_step. eapply runs_update; [exact Hm1|]. runs_step.
  eapply runs_update; [unfold alter_workspace; by rewrite Hws1|].
  destruct (alter_workspace_extras m1 s ws1 (set_ws_background ws1 (ws_background ws1 ++ [id])) [] [id] Hws1)
    as (Hb2 & Hi2 & Hp2); [done|done|unfold ws_extras; simpl; solve_Permutation|].
  set (m2 := set_workspaces m1 _) in *.
  assert (all_panes m2 ≡ₚ all_panes m) as Hall.
  { rewrite app_nil_r in Hp2. rewrite Hp2. rewrite (detached_perm _ _ _ Hdet); [solve_Permutation|].
    unfold all_panes. by apply elem_of_app; left. }
  eapply runs_drop_empty; [eapply (kept_step m m); [done| |exact Hall]|].
  { apply (ids_wf_same m1); try done. apply Hwf1. }
  intros m3 Hk3 _ Hm3. apply Hend; [done|]. right. exists (settle_bar (Some (dock_pane (ws_dock ws1))) (ws_tabs ws1)).
  rewrite Hm3. simpl. rewrite drop_empty_workspaces, lookup_map. simpl.
  by rewrite list_lookup_insert_eq by (by eapply lookup_lt_Some).
Qed.

(** [id] is in the layout, or everything else is: what a move is in the middle of. *)
Definition lost (m : Model) (id : string) (m' : Model) : Prop :=
  model_wf m' /\ all_panes m ≡ₚ id :: all_panes m'.

Definition mid (m : Model) (id : string) (m' : Model) : Prop := kept m m' \/ lost m id m'.

Lemma lost_not_in m id m' : model_wf m -> lost m id m' -> id ∉ all_panes m'.
Proof. intros [_ Hnd] [_ Hp]. rewrite Hp in Hnd. by apply NoDup_cons in Hnd as [? _]. Qed.

Lemma mid_detach m id m1 :
  model_wf m -> id ∈ all_panes m -> mid m id m1 ->
  exists m2, detach m1 id = Some m2 /\ detached m1 m2 id /\ lost m id m2.
Proof.
  intros Hwf Hin Hmid. assert (model_wf m1) as Hwf1 by (destruct Hmid as [[? _]|[? _]]; done).
  destruct (detach_spec m1 id Hwf1) as (m2 & Hd & Hdet). exists m2. split_and!; [done..|].
  pose proof (detached_wf _ _ _ Hwf1 Hdet) as [Hwf2 Hn]. split; [done|].
  destruct Hmid as [[_ Hp]|Hl].
  - rewrite <- Hp. apply detached_perm; [done|]. by rewrite Hp.
  - pose proof (lost_not_in _ _ _ Hwf Hl) as Hn1. destruct Hl as [_ Hp]. rewrite Hp.
    destruct Hdet as [_ [[_ ->]|Hp2] _ _ _]; [done|]. destruct Hn1. rewrite Hp2. left.
Qed.

(** Putting the lost pane back. *)
Lemma lost_back m id m1 m2 :
  model_wf m -> lost m id m1 -> ids_wf m2 -> all_panes m2 ≡ₚ id :: all_panes m1 -> kept m m2.
Proof.
  intros [_ Hnd] [_ Hp] Hids Hp2. split; [split; [done|]|]; by rewrite Hp2, <- Hp.
Qed.

Lemma finish_move_runs m0 id panes (P : Prop) (E : Model -> Prop) m :
  kept m0 m -> runs P E (finish_move id panes) (fun _ m' => kept m0 m' /\ tidy_model m') m.
Proof.
  intros Hk. unfold finish_move. runs_step. eapply runs_focus_pane; [done|]. intros m1 Hk1 _. runs_step.
  eapply runs_drop_empty; [done|]. intros m2 Hk2 Ht _. by apply runs_get_moved.
Qed.

Lemma move_dock_keeps id edge args panes : keeps (move_dock id edge args panes).
Proof.
  intros m Hwf. pose proof (kept_refl m Hwf) as Hk. unfold move_dock. destruct (_ || _); [by runs_step|].
  runs_step. apply runs_get_model.
  destruct (s ← dock_ws m id; ws ← m_workspaces m !! s; if is_task ws then Some s else None) as [s|] eqn:Hs;
    [|by runs_step].
  apply bind_Some in Hs as (s' & _ & Hs). apply bind_Some in Hs as (ws & Hws & Hs).
  destruct (is_task ws); [|done]. injection Hs as ->. runs_step.
  eapply runs_update; [unfold alter_workspace; by rewrite Hws|]. runs_step.
  eapply runs_focus_pane; [by eapply alter_workspace_kept|]. intros m' Hk' _. by apply runs_get_moved.
Qed.

Lemma move_swap_runs m id target from (P : Prop) (E : Model -> Prop) :
  model_wf m -> id ≠ target -> valid m from -> runs P E (move_swap id target from) (fun _ => kept m) m.
Proof.
  intros Hwf Hne Hv. unfold move_swap. runs_step.
  destruct (swap_spec m id target) as (m1 & Hs & Hp & Hwf1 & Hh); [apply Hwf|done|].
  eapply runs_update; [exact Hs|]. assert (kept m m1) as Hk1 by (eapply (kept_step m m); done).
  assert (valid m1 from) as [ts Hts].
  { unfold valid. rewrite <- elem_of_holders, Hh. by apply elem_of_holders. }
  eapply runs_same_shape; [done|done|done|by case_decide|]. auto.
Qed.

(** A pane put at a side of its target is kept, unless there is no target left once the pane
    is out: the target is in no tab, or in a tab of the workspace the pane was the dock of. *)
Lemma move_beside_runs m id target reference side (P : Prop) :
  model_wf m -> id ≠ target -> id ∈ all_panes m ->
  runs P (fun m' => ¬ (dock_ws m id = None /\ is_Some (locate m target)) /\ lost m id m')
    (move_beside id target reference side) (fun _ => kept m) m.
Proof.
  intros Hwf Hne Hin. unfold move_beside. runs_step.
  destruct (mid_detach m id m Hwf Hin (or_introl (kept_refl m Hwf))) as (m1 & Hd & Hdet & Hl).
  eapply runs_update; [exact Hd|]. runs_step. apply runs_get_model. runs_step.
  destruct (locate m1 target) as [l|] eqn:Hloc.
  2: { apply runs_lift; [done| |done]. intros e _. split; [|done]. intros [Hdk [l Hl']].
       destruct (det_bars _ _ _ Hdet (or_introl Hdk)) as (_ & _ & Hlive & _). apply locate_None in Hloc. apply Hloc, Hlive; [done|].
       destruct (decide (target ∈ flat_map tabs_panes (live_bars m))) as [|Hn]; [done|].
       apply locate_None in Hn. congruence. }
  apply runs_lift; [|done|done]. intros l' [= <-].
  destruct (locate_Some _ _ _ Hloc) as (ts & Hts & Htl).
  destruct (tabs_locate_Some _ _ _ _ _ Htl) as (tab & root & Ht & _).
  pose proof (tabs_locate_elem _ _ _ _ _ _ Htl Ht) as Hel.
  destruct (tabs_insert_spec ts (NPane id) target (loc_tab l) tab (side_axis side) (side_after side) f_half_ Ht Hel)
    as (ts' & Hins & Hsw & Hk & Hw).
  destruct (alter_tabs_wf m1 (loc_holder l) (fun ts => tabs_insert ts (NPane id) target (loc_tab l) (side_axis side)
    (side_after side) f_half_) ts ts' [] [id]) as (m2 & Ha & _ & _ & _ & Hp & Hwf2); [apply Hl|done|done| | | |].
  { apply swaps_panes_perm in Hsw. rewrite app_nil_r. apply (inj (fun l => l ++ [target])). rewrite Hsw.
    unfold beside_ids. simpl. destruct (side_after side); solve_Permutation. }
  { by rewrite (kept_ids _ _ Hk). }
  { intros Htw. apply Hw; [done|constructor]. }
  eapply runs_update; [exact Ha|]. eapply lost_back; [done|done|done|].
  rewrite app_nil_r in Hp. rewrite Hp. solve_Permutation.
Qed.

(** A pane the layout has and that is no background, lead or dock is in a tab. *)
Lemma placed_located m id :
  id ∈ placed m -> background_ws m id = None -> lead_window m id = None -> dock_ws m id = None ->
  is_Some (locate m id).
Proof.
  intros Hin Hb Hl Hd. destruct (locate m id) eqn:E; [by eexists|]. exfalso. apply locate_None in E.
  pose proof (not_extra _ _ Hb Hl Hd) as Hx. assert (id ∈ all_panes (set_orphans m [])) as Hall.
  { unfold all_panes. apply elem_of_app. by left. }
  rewrite elem_of_all in Hall. destruct Hall as [Hall|Hall]; [|done]. unfold bar_panes in Hall.
  rewrite bars_live, app_nil_r in Hall. done.
Qed.

Lemma move_to_runs m id reference from args panes (P : Prop) :
  model_wf m -> valid m from -> id ∈ all_panes m ->
  runs P (fun m' => kept m m' \/
            ¬ (dock_ws m id = None /\ forall p, panes_need panes (Some reference) = Ok p -> pane_id p ∈ placed m) /\
            lost m id m')
    (move_to id reference from args panes) (fun moved m' => kept m m') m.
Proof.
  intros Hwf Hv Hin. pose proof (kept_refl m Hwf) as Hk. unfold move_to. runs_step.
  apply runs_need_pane; [by left|]. intros p Hp. cbv zeta. destruct (negb _); [runs_step; by left|].
  case_decide as Hne; [by runs_step|]. runs_step. apply runs_get_model. runs_step.
  apply runs_lift; [|by left|unfold refuse_frozen_pane; by destruct (frozen_dock _ _)]. intros _ _. runs_step.
  apply runs_lift; [|by left|].
  2: { unfold refuse_background. destruct (background_ws m (pane_id p)) as [s|] eqn:Hb; [|done].
       destruct (background_ws_Some _ _ _ Hb) as (ws & Hs & _). by rewrite Hs. }
  intros u Hrb. assert (background_ws m (pane_id p) = None) as Hb.
  { unfold refuse_background in Hrb. destruct (background_ws m (pane_id p)) as [s|]; [|done].
    by destruct (m_workspaces m !! s). }
  destruct (lead_window m (pane_id p)) eqn:Hl; [runs_step; by left|].
  destruct (negb (bool_decide (default "swap" (string_of args "side") = "swap")) &&
      bool_decide (is_Some (dock_ws m (pane_id p)))) eqn:Hd; [runs_step; by left|].
  destruct (bool_decide (default "swap" (string_of args "side") = "swap") && bool_decide (is_Some (background_ws m id)));
    [runs_step; by left|].
  runs_step. destruct (decide (default "swap" (string_of args "side") = "swap")) as [Hside|Hside].
  - eapply runs_weaken; [apply move_swap_runs; [done|congruence|done]|]. intros [] m' Hk'. by runs_step.
  - eapply runs_mono; [apply (move_beside_runs m id (pane_id p) reference _ P); [done|congruence|done]|done|..].
    + intros m' [Hn Hlost]. right. split; [|done]. intros [Hdk Hpl]. apply Hn. split; [done|].
      apply placed_located; [by apply Hpl|done|done|]. rewrite bool_decide_eq_false_2 in Hd by done.
      simpl in Hd. apply bool_decide_eq_false in Hd. destruct (dock_ws m (pane_id p)); [by destruct Hd; eexists|done].
    + intros [] m' Hk'. by runs_step.
Qed.

(** ** move --tab, --window, --workspace *)

Lemma mid_wf m id m1 : mid m id m1 -> model_wf m1.
Proof. by intros [[? _]|[? _]]. Qed.

(** A step of the middle of a move that keeps the panes. *)
Lemma mid_step m id m1 m2 : mid m id m1 -> kept m1 m2 -> mid m id m2.
Proof.
  intros [[Hw Hp]|[Hw Hp]] [Hw2 Hp2]; [left|right]; (split; [done|]); by rewrite Hp2.
Qed.

Lemma grows_dock m m' id : m_workspaces m' = m_workspaces m -> dock_ws m' id = dock_ws m id.
Proof. unfold dock_ws. by intros ->. Qed.

Lemma move_holder_runs m id from args (P : Prop) :
  model_wf m -> valid m from -> id ∈ all_panes m ->
  runs P (kept m) (move_holder id from args)
    (fun h m' => valid m' h /\ mid m id m' /\ (dock_ws m id = None -> kept m m' /\ dock_ws m' id = None)) m.
Proof.
  intros Hwf Hv Hin. pose proof (kept_refl m Hwf) as Hk. unfold move_holder.
  destruct (string_of args "window") as [window|].
  - case_decide.
    + runs_step. eapply runs_window_for; [done|done|]. intros w m' H1 H2 H3 _. runs_step.
      split_and!; [done|by left|]. rewrite (grows_dock _ _ _ H3). done.
    + runs_step. apply (runs_target_window (m0 := m)); [done|done|]. intros w m' H1 [H2 _] H3. runs_step.
      split_and!; [done|by left|]. rewrite (grows_dock _ _ _ H2). done.
  - destruct (given args "workspace").
    { apply (runs_workspace_holder (m0 := m)); [done|done|]. intros s _ Hs. split_and!; [done|by left|done]. }
    runs_step. apply runs_get_model. destruct (dock_ws m id) as [s|] eqn:Hd.
    + runs_step. destruct (mid_detach m id m Hwf Hin (or_introl Hk)) as (m1 & Hdm & Hdet & Hl).
      eapply runs_update; [exact Hdm|]. runs_step. apply (runs_make_window (m0 := m1)); [apply kept_refl, Hl|].
      intros w m' Hk' _ Hts. runs_step. split_and!; [by eexists| |done]. eapply mid_step; [right; exact Hl|done].
    + runs_step. split_and!; [done|by left|done].
Qed.

Lemma move_destination_runs m id from args (P : Prop) :
  model_wf m -> valid m from -> id ∈ all_panes m ->
  runs P (kept m) (move_destination id from args)
    (fun dest m' => match dest with
                    | None => kept m m'
                    | Some dest => mid m id m' /\ dest ∈ flat_map tab_ids (live_bars m') /\
                                   (dock_ws m id = None -> kept m m' /\ dock_ws m' id = None)
                    end) m.
Proof.
  intros Hwf Hv Hin. pose proof (kept_refl m Hwf) as Hk. unfold move_destination.
  destruct (r ← string_of args "tab"; if decide (r = "new") then None else Some r) as [r|].
  - runs_step. apply (runs_need_tab (m0 := m)); [done|done|]. intros h t ts tab Hts Ht. runs_step.
    eapply runs_get_tab; [unfold tab_at; by rewrite Hts|]. runs_step. split_and!; [by left| |done].
    apply elem_of_flat_map. exists ts. split; [apply elem_of_live; by eexists|]. unfold tab_ids.
    apply list_elem_of_fmap_2. by eapply list_elem_of_lookup_2.
  - destruct (_ || _); [|by runs_step]. runs_step.
    eapply runs_weaken; [by apply move_holder_runs|]. intros h m1 ([ts Hts] & Hmid & Hdk). runs_step.
    apply runs_get_model.
    destruct (bool_decide (string_of args "tab" = None) && _) eqn:Halone.
    + runs_step. apply andb_true_iff in Halone as [_ Halone].
      destruct (locate m1 id) as [l|] eqn:Hl; [|done].
      destruct Hmid as [|Hlost]; [done|]. destruct (lost_not_in _ _ _ Hwf Hlost). apply elem_of_all. left.
      destruct (locate_Some _ _ _ Hl) as (ts1 & Hts1 & Hl1). unfold bar_panes. apply elem_of_flat_map.
      exists ts1. split; [rewrite bars_live; apply elem_of_app; left; apply elem_of_live; by eexists|].
      destruct (decide (id ∈ tabs_panes ts1)) as [|Hn]; [done|]. apply tabs_locate_None in Hn. congruence.
    + runs_step. destruct (make_tab_spec m1 h true ts) as (m2 & ts2 & Hm & Hfr & Hts2 & Hb & Htabs & _ & Hp & Hwf2);
        [apply (mid_wf _ _ _ Hmid)|done|].
      eapply runs_opt; [exact Hm|]. runs_step.
      assert (tabs_tabs ts2 !! length (tabs_tabs ts) =
        Some (tab_new (tab_name_of (m_tab_counter m1 + 1)) (tabs_count ts + 1))) as Hnew.
      { rewrite Htabs. by apply list_lookup_middle. }
      assert (kept m1 m2) as Hk2.
      { eapply (kept_step m1 m1); [by apply kept_refl, (mid_wf _ _ _ Hmid)|done|done]. }
      eapply runs_get_tab; [unfold tab_at; rewrite Hts2; exact Hnew|]. runs_step. split_and!.
      * by eapply mid_step.
      * apply elem_of_flat_map. exists ts2. split; [apply elem_of_live; by eexists|]. unfold tab_ids.
        apply (list_elem_of_fmap_2 tab_id). by eapply list_elem_of_lookup_2.
      * intros Hd. rewrite (frame_dock_ws _ _ _ Hfr). destruct (Hdk Hd) as [Hk1 Hd1]. split; [|done].
        eapply kept_step; [exact Hk1|done|done].
Qed.

(** A pane moved to a tab is kept; only a task's agent moved to a tab of its own workspace
    panics, its workspace gone by the time the tab is looked for. *)
Lemma move_to_tab_runs m id from from_tab args :
  model_wf m -> valid m from -> id ∈ all_panes m -> (from_tab = None \/ dock_ws m id = None) ->
  runs (¬ dock_ws m id = None) (kept m) (move_to_tab id from from_tab args) (fun _ => kept m) m.
Proof.
  intros Hwf Hv Hin Hft. unfold move_to_tab. runs_step.
  eapply runs_weaken; [by apply move_destination_runs|]. intros [dest|] m1; [|by intros ?; runs_step].
  intros (Hmid & Hlive & Hdk). case_decide as Hdest.
  { runs_step. destruct Hft as [->|Hd]; [done|]. by apply Hdk. }
  runs_step.
  destruct (mid_detach m id m1 Hwf Hin Hmid) as (m2 & Hd & Hdet & Hl). eapply runs_update; [exact Hd|]. runs_step.
  destruct (tab_index m2 dest) as [[h t]|] eqn:Hi.
  2: { unfold runs, act_get. rewrite Hi. intros Hn. destruct (det_bars _ _ _ Hdet (or_introl (proj2 (Hdk Hn)))) as (Hids & _).
       destruct (tab_index_is_Some m2 dest) as [x Hx]; [|congruence].
       rewrite flat_map_concat_map, Hids, <- flat_map_concat_map. done. }
  eapply runs_get; [exact Hi|]. cbn beta iota. runs_step.
  destruct (tab_index_Some _ _ _ _ Hi) as (ts & tab & Hts & Ht & _).
  destruct (tabs_append_spec ts id t tab Ht) as (ts' & Ha & Hsw & Hk & Hw).
  destruct (alter_tabs_wf m2 h (fun ts => tabs_append ts id t) ts ts' [] [id]) as (m3 & Hm3 & _ & _ & _ & Hp & Hwf3);
    [apply Hl|done|done|by apply swaps_panes_perm|by rewrite (kept_ids _ _ Hk)|done|].
  eapply runs_update; [exact Hm3|]. runs_step. eapply lost_back; [done|done|done|].
  rewrite app_nil_r in Hp. rewrite Hp. solve_Permutation.
Qed.

Lemma holder_of_placed m id h : holder_of m id = Some h -> id ∈ placed m.
Proof.
  unfold holder_of, placed. rewrite elem_of_app, !elem_of_flat_map.
  destruct (locate m id) as [l|] eqn:Hl; simpl.
  - intros _. destruct (locate_Some _ _ _ Hl) as (ts & Hts & Hl1).
    assert (id ∈ tabs_panes ts) as Hin.
    { destruct (decide (id ∈ tabs_panes ts)) as [|Hn]; [done|]. apply tabs_locate_None in Hn. congruence. }
    destruct (loc_holder l); simpl in Hts; apply fmap_Some in Hts as (x & Hx & ->); [left|right];
      (exists x; split; [by eapply list_elem_of_lookup_2|]); unfold win_panes, ws_panes; set_solver.
  - destruct (dock_ws m id) as [s|] eqn:Hd; simpl.
    + intros _. right. destruct (dock_ws_Some _ _ _ Hd) as (ws & Hs & <-). exists ws.
      split; [by eapply list_elem_of_lookup_2|]. left.
    + intros (w & (win & d & Hw & Hlead & <-)%lead_window_Some & _)%fmap_Some. left. exists win.
      split; [by eapply list_elem_of_lookup_2|]. unfold win_panes, lead_panes. rewrite Hlead. set_solver.
Qed.

Lemma background_placed m id s : background_ws m id = Some s -> id ∈ placed m.
Proof.
  intros (ws & Hs & Hin)%background_ws_Some. unfold placed. rewrite elem_of_app, !elem_of_flat_map. right.
  exists ws. split; [by eapply list_elem_of_lookup_2|]. unfold ws_panes. set_solver.
Qed.

Lemma located_not_dock m id l : NoDup (all_panes m) -> locate m id = Some l -> dock_ws m id = None.
Proof.
  intros Hnd Hl. destruct (dock_ws m id) as [s|] eqn:Hd; [|done]. exfalso.
  destruct (dock_ws_Some _ _ _ Hd) as (ws & Hs & Hp). rewrite all_panes_split in Hnd.
  apply NoDup_app in Hnd as (_ & Hdj & _). apply (Hdj id).
  - destruct (locate_Some _ _ _ Hl) as (ts & Hts & Hl1). apply elem_of_flat_map. exists ts.
    split; [rewrite bars_live; apply elem_of_app; left; apply elem_of_live; by eexists|].
    destruct (decide (id ∈ tabs_panes ts)) as [|Hn]; [done|]. apply tabs_locate_None in Hn. congruence.
  - eapply lookup_extras; [done|]. unfold ws_extras. rewrite Hp. left.
Qed.

(** The pane a move names, when the table has it. *)
Definition moving (args : Value) (panes : Panes) (p : Pane) : Prop :=
  panes_need panes (string_of args "pane") = Ok p.
(** A move of a task's agent. *)
Definition moves_agent (args : Value) (panes : Panes) (m : Model) : Prop :=
  exists p, moving args panes p /\ ¬ dock_ws m (pane_id p) = None.
(** A move to a pane the table has and the layout has not. *)
Definition moves_nowhere (args : Value) (panes : Panes) (m : Model) : Prop :=
  exists r p, string_of args "to" = Some r /\ panes_need panes (Some r) = Ok p /\ pane_id p ∉ placed m.

(** The full account of [move]: every pane is kept, but for a failed [--to] of a task's
    agent, or to a target that is nowhere in the layout, which loses the pane it moves; only
    the move of a task's agent can panic. *)
Lemma move_pane_runs args panes m :
  model_wf m ->
  runs (moves_agent args panes m)
    (fun m' => kept m m' \/ (moves_agent args panes m \/ moves_nowhere args panes m) /\
                            exists p, moving args panes p /\ lost m (pane_id p) m')
    (move_pane args panes) (fun _ => kept m) m.
Proof.
  intros Hwf. pose proof (kept_refl m Hwf) as Hk. unfold move_pane. runs_step.
  apply runs_need_pane; [by left|]. intros p Hp. cbv zeta. runs_step. apply runs_get_model.
  destruct (lead_window m (pane_id p)) eqn:Hl; [runs_step; by left|].
  destruct (frozen_dock m (pane_id p)) eqn:Hf; [runs_step; by left|]. runs_step.
  apply runs_lift_ok_or; [by left|]. intros from Hfrom.
  assert (valid m from /\ pane_id p ∈ placed m) as [Hv Hpl].
  { destruct (holder_of m (pane_id p)) as [h|] eqn:Hh; simpl in Hfrom.
    - injection Hfrom as ->. split; [by eapply holder_of_valid|by eapply holder_of_placed].
    - apply fmap_Some in Hfrom as (s & Hs & ->). split; [by eapply background_valid|by eapply background_placed]. }
  assert (pane_id p ∈ all_panes m) as Hin by (apply elem_of_app; by left).
  destruct (is_bool_true _).
  { destruct (existsb _ _); [runs_step; by left|]. eapply runs_mono; [by apply to_background_runs|done|..]; auto. }
  runs_step. apply runs_get_at; [done|]. intros unmoved. runs_step.
  assert (exists from_tab, match locate m (pane_id p) with
      | Some l => tab ← tab_at m (loc_holder l) (loc_tab l); Some (Some (tab_id tab))
      | None => Some None
      end = Some from_tab /\ (from_tab = None \/ dock_ws m (pane_id p) = None)) as (from_tab & Hft & Hor).
  { destruct (locate m (pane_id p)) as [l|] eqn:Hloc; [|eexists; split; [done|by left]].
    destruct (locate_tab_at _ _ _ Hloc) as [tab Ht]. rewrite Ht. eexists; split; [done|]. right.
    eapply located_not_dock; [apply Hwf|done]. }
  eapply runs_get; [exact Hft|]. runs_step. apply runs_lift; [|by left|].
  2: { unfold edge_read. destruct (get args "dock") as [[]|]; simpl; try done; by destruct (edge_parse s). }
  intros edge _. destruct edge as [edge|].
  { eapply runs_mono; [by apply move_dock_keeps|done|..]; auto. }
  runs_step. apply (runs_weaken _ _ _ (fun _ => kept m)).
  2: { intros [[]|] m' Hk'; [|by runs_step]. eapply runs_weaken; [by apply finish_move_runs|]. by intros a m2 [? _]. }
  destruct (string_of args "to") as [r|] eqn:Hto.
  - eapply runs_mono; [by apply move_to_runs with (P := False)|done| |auto].
    intros m' [?|[Hn Hlost]]; [by left|]. right. split; [|by exists p].
    destruct (dock_ws m (pane_id p)) as [s|] eqn:Hd.
    + left. exists p. split; [done|]. by rewrite Hd.
    + right. destruct (panes_need panes (Some r)) as [p'| |] eqn:Hp'.
      * destruct (decide (pane_id p' ∈ placed m)) as [Hpl'|Hn'].
        { destruct Hn. split; [done|]. by intros ? [= <-]. }
        by exists r, p'.
      * destruct Hn. done.
      * destruct Hn. done.
  - eapply runs_mono; [by apply move_to_tab_runs|..]; [|auto|auto].
    intros Hd. by exists p.
Qed.
