(* ===== verification/ArrangeFacts.v ===== *)
(** * What [arrange] does: [crates/kanna-mux/src/model.rs]

    The tree it builds has each pane once and no dock; the panes it names leave wherever
    they were, the tab's other panes go to a tab of their own, and nothing is lost. *)

From S2P Require Import Prelude Text F64 Json Fraction Describe Pane Panes Tree Tabs Workspace Model Ops.
From S2P Require Import OpsFacts Commands CommandFacts.

(** ** build *)

(** What a successful build means, for the panes [used] before and [used'] after. *)
Record built (outside used : list string) (node : Node) (used' : list string) : Prop := {
  built_full : node_full node;
  built_used : used' = used ++ collect node;
  built_nodup : NoDup used -> NoDup used';
  built_outside : forall x, x ∈ collect node -> x ∉ outside }.

Lemma build_pane_spec reference used panes outside node used' :
  build_pane reference used panes outside = Ok (node, used') -> built outside used node used'.
Proof.
  unfold build_pane. destruct (panes_need panes (Some reference)) as [p| |]; simpl; try done.
  destruct (contains outside (pane_id p)) eqn:Ho; [done|]. destruct (contains used (pane_id p)) eqn:Hu; [done|].
  apply contains_false in Ho, Hu. intros [= <- <-]. split; simpl.
  - constructor.
  - done.
  - intros H. apply NoDup_app. split_and!; [done| |apply NoDup_singleton]. by intros x Hx ->%list_elem_of_singleton.
  - by intros x ->%list_elem_of_singleton.
Qed.

Lemma build_kids_spec build fill scale outside children used kids used' :
  (forall v u n u', (exists s, (v, s) ∈ children) -> build v u = Ok (n, u') -> built outside u n u') ->
  build_kids build fill scale used children = Ok (kids, used') ->
  length kids = length children /\ Forall (fun c => node_full (child_node c)) kids /\
  used' = used ++ kids_ids kids /\ (NoDup used -> NoDup used') /\ (forall x, x ∈ kids_ids kids -> x ∉ outside).
Proof.
  revert used kids used'. induction children as [|[v s] children IH]; intros used kids used' Hb; simpl.
  - intros [= <- <-]. split_and!; [done|constructor|by rewrite app_nil_r|done|by intros x ?%elem_of_nil].
  - destruct (build v used) as [[n u]| |] eqn:E; simpl; try done.
    destruct (build_kids build fill scale u children) as [[ks u']| |] eqn:E'; simpl; try done.
    intros [= <- <-]. destruct (Hb v used n u) as [Hf Hu Hn Ho]; [exists s; left|done|].
    destruct (IH u ks u') as (Hl & Hks & Hu' & Hn' & Ho'); [|done|].
    { intros v' u0 n' u0' [s' Hin]. apply Hb. exists s'. by right. }
    split_and!; [simpl; by rewrite Hl|by constructor| |auto|].
    + rewrite Hu', Hu. rewrite kids_ids_cons. simpl. by rewrite (assoc_L (++)).
    + intros x. rewrite kids_ids_cons. simpl. rewrite elem_of_app. intros [?|?]; auto.
Qed.

Lemma build_sizes_length axis children children' fill scale :
  build_sizes axis children = Ok (children', fill, scale) ->
  length children' = length children /\ (forall v s, (v, s) ∈ children' -> v ∈ children).
Proof.
  unfold build_sizes. destruct (res_mapM read_child_size children) as [sizes| |] eqn:Hs; cbn [res_bind]; [|discriminate..].
  assert (length sizes = length children) as Hlen.
  { revert sizes Hs. induction children as [|c children IH]; intros sizes; simpl; [by intros [= <-]|].
    destruct (read_child_size c); simpl; try done. destruct (res_mapM read_child_size children); simpl; try done.
    intros [= <-]. simpl. f_equal. by apply IH. }
  set (given := f_sum _). set (unsized := length (List.filter _ _)).
  destruct (flt f_over given); [discriminate|]. destruct (bool_decide (0 < unsized) && fle f_nearly given); [discriminate|].
  intros E. injection E as <- _ _. split.
  - rewrite length_zip_with. lia.
  - intros v s Hin. by apply elem_of_zip_l in Hin.
Qed.

Lemma build_spec fuel panes outside node used n used' :
  build fuel panes outside node used = Ok (n, used') -> built outside used n used'.
Proof.
  revert node used n used'. induction fuel as [|fuel IH]; intros node used n used'; simpl;
    (destruct (string_of node "pane") as [r|]; [apply build_pane_spec|]);
    (destruct (s ← string_of node "split"; axis_parse s) as [axis|]; [|done]);
    (destruct (v ← get node "children"; l ← as_array v; if decide (l = []) then None else Some l)
      as [children|] eqn:Hch; [|done]); [done|].
  destruct (build_sizes axis children) as [[[children' fill] scale]| |] eqn:Hs; simpl; try done.
  destruct (build_kids _ _ _ _ _) as [[kids u]| |] eqn:Hk; simpl; try done. intros [= <- <-].
  destruct (build_sizes_length _ _ _ _ _ Hs) as [Hlen _].
  destruct (build_kids_spec _ _ _ outside _ _ _ _ (fun v u n u' _ => IH v u n u') Hk) as (Hl & Hf & Hu & Hn & Ho).
  assert (children ≠ []) as Hne.
  { apply bind_Some in Hch as (v & _ & Hch). apply bind_Some in Hch as (l & _ & Hch). case_decide; by simplify_eq. }
  clear Hs Hk. split; [|exact Hu|exact Hn|exact Ho]. constructor; [|exact Hf]. intros ->. simpl in Hl.
  destruct children; [by apply Hne|]. simpl in Hlen. lia.
Qed.

(** The depth of the value is fuel enough. *)
Lemma foldr_max_le (l : list nat) x : x ∈ l -> x <= foldr max 0 l.
Proof. induction l as [|y l IH]; [by intros ?%elem_of_nil|]. intros [->|H]%elem_of_cons; simpl; [lia|]. specialize (IH H). lia. Qed.

Lemma get_depth node key v : get node key = Some v -> depth v < depth node.
Proof.
  destruct node as [| | | | |fields]; simpl; try done. intros H. apply Nat.lt_succ_r, foldr_max_le.
  apply list_elem_of_fmap. induction fields as [|[k w] fields IH]; simpl in H; [done|].
  case_decide; [injection H as ->; exists (k, v); split; [done|left]|]. destruct (IH H) as (kv & E & Hin).
  exists kv. split; [done|by right].
Qed.

Lemma as_array_depth v l x : as_array v = Some l -> x ∈ l -> depth x < depth v.
Proof.
  destruct v; simpl; try done. intros [= ->] Hx. apply Nat.lt_succ_r, foldr_max_le. by apply list_elem_of_fmap_2.
Qed.

Lemma build_pane_total reference used panes outside : build_pane reference used panes outside ≠ Panic.
Proof.
  unfold build_pane, panes_need. simpl. destruct (panes_pane panes reference); simpl; [|done].
  destruct (contains _ _); [done|]. by destruct (contains _ _).
Qed.

Lemma build_kids_total build fill scale children used :
  (forall v u, (exists s, (v, s) ∈ children) -> build v u ≠ Panic) ->
  build_kids build fill scale used children ≠ Panic.
Proof.
  revert used. induction children as [|[v s] children IH]; intros used Hb; simpl; [done|].
  destruct (build v used) as [[n u]| |] eqn:E; simpl; [|done|].
  - assert (build_kids build fill scale u children ≠ Panic) as Hk.
    { apply IH. intros v' u' [s' Hin]. apply Hb. exists s'. by right. }
    by destruct (build_kids build fill scale u children) as [[]| |].
  - exfalso. apply (Hb v used); [exists s; left|done].
Qed.

Lemma fraction_total v : fraction v ≠ Panic.
Proof. unfold fraction. by destruct (fraction_parse v). Qed.

Lemma build_sizes_total axis children : build_sizes axis children ≠ Panic.
Proof.
  unfold build_sizes. assert (res_mapM read_child_size children ≠ Panic) as Hm.
  { induction children as [|c children IH]; simpl; [done|].
    assert (read_child_size c ≠ Panic) as Hc.
    { unfold read_child_size. destruct (get c "size") as [v|]; [|done]. pose proof (fraction_total v) as Hv.
      destruct v; try done; (destruct (fraction _) as [x|e|]; cbn [res_bind]; [|discriminate|done]);
        by destruct (flt f0 x && fle x f1). }
    destruct (read_child_size c); simpl; try done. by destruct (res_mapM read_child_size children). }
  destruct (res_mapM read_child_size children); cbn [res_bind]; [|discriminate|done].
  set (given := f_sum _). set (unsized := length (List.filter _ _)).
  destruct (flt f_over given); [discriminate|].
  destruct (bool_decide (0 < unsized) && fle f_nearly given); discriminate.
Qed.

Lemma build_total fuel panes outside node used : depth node <= fuel -> build fuel panes outside node used ≠ Panic.
Proof.
  revert node used. induction fuel as [|fuel IH]; intros node used Hd; simpl;
    (destruct (string_of node "pane") as [r|]; [apply build_pane_total|]);
    (destruct (s ← string_of node "split"; axis_parse s) as [axis|]; [|done]);
    (destruct (v ← get node "children"; l ← as_array v; if decide (l = []) then None else Some l)
      as [children|] eqn:Hch; [|done]); apply bind_Some in Hch as (v & Hv & Hch); apply get_depth in Hv; [lia|].
  apply bind_Some in Hch as (l & Hl & Hch). case_decide; [done|]. injection Hch as <-.
  pose proof (build_sizes_total axis l) as Hs.
  destruct (build_sizes axis l) as [[[children' fill] scale]| |] eqn:E; cbn [res_bind]; [|discriminate|done].
  destruct (build_sizes_length _ _ _ _ _ E) as [_ Hin].
  assert (build_kids (build fuel panes outside) fill scale used children' ≠ Panic) as Hk.
  { apply build_kids_total. intros v' u' [s' Hin']. apply IH. apply Hin in Hin'.
    pose proof (as_array_depth _ _ _ Hl Hin'). lia. }
  clear E. destruct (build_kids _ _ _ _ _) as [[]| |]; [discriminate..|done].
Qed.

(** ** Taking out the panes it names *)

Lemma dock_ws_None m id : dock_ws m id = None <-> id ∉ docks m.
Proof.
  unfold dock_ws, docks. rewrite position_None, Forall_forall. split.
  - intros H (ws & -> & Hin)%list_elem_of_fmap. specialize (H ws Hin). by apply bool_decide_eq_false in H.
  - intros H ws Hin. apply bool_decide_eq_false. intros <-. apply H.
    by apply (list_elem_of_fmap_2 (fun ws => dock_pane (ws_dock ws))).
Qed.

(** All of [ids] out, the tabs still there. *)
Lemma detach_all_spec ids m :
  model_wf m -> (forall x, x ∈ ids -> x ∉ docks m) ->
  exists m', detach_all ids m = Some m' /\ model_wf m' /\
    map tab_ids (live_bars m') = map tab_ids (live_bars m) /\
    (forall x, x ∈ all_panes m' <-> x ∈ all_panes m /\ x ∉ ids).
Proof.
  revert m. induction ids as [|id ids IH]; intros m Hwf Hd; simpl.
  - exists m. split_and!; [done..|]. intros x. split; [|by intros [? _]]. intros Hx. split; [done|apply not_elem_of_nil].
  - destruct (detach_spec m id Hwf) as (m1 & Hm1 & Hdet). rewrite Hm1. simpl.
    pose proof (detached_wf _ _ _ Hwf Hdet) as [Hwf1 Hn].
    assert (dock_ws m id = None) as Hdk by (apply dock_ws_None, Hd; left).
    destruct (det_bars _ _ _ Hdet (or_introl Hdk)) as (Hb & _ & _ & Hdocks).
    destruct (IH m1) as (m2 & Hm2 & Hwf2 & Hb2 & Hp2); [done| |].
    { intros x Hx. rewrite Hdocks. apply Hd. by right. }
    exists m2. split_and!; [done|done|by rewrite Hb2|]. intros x. rewrite Hp2, not_elem_of_cons.
    destruct (det_gone _ _ _ Hdet) as [[Hg ->]|Hp].
    + split; [|tauto]. intros [Hx Hi]. split; [done|]. split; [|done]. by intros ->.
    + rewrite Hp, elem_of_cons. split; [|tauto]. intros [Hx Hi]. split; [by right|]. split; [|done]. by intros ->.
Qed.

(** ** The tab's new tree *)

Lemma leftover_root_ids l : collect (leftover_root l) = l.
Proof.
  unfold leftover_root. rewrite normalize_ids. simpl. rewrite flat_map_map. simpl.
  induction l as [|x l IH]; simpl; [done|]. by rewrite IH.
Qed.

Lemma leftover_root_wf l : l ≠ [] -> node_wf (leftover_root l).
Proof.
  intros Hl. apply normalize_wf. constructor; [by destruct l|]. apply Forall_map, Forall_forall.
  intros x _. constructor.
Qed.

(** A tab's tree replaced: the panes it had for the panes it gets. *)
Lemma set_tree_spec m h ts t tab f root old new :
  ids_wf m -> tabs_of m h = Some ts -> tabs_tabs ts !! t = Some tab ->
  (exists tab', f tab = Some tab' /\ tab_id tab' = tab_id tab /\ tab_root tab' = Some root) ->
  tab_panes tab = old -> collect root = new -> node_wf root ->
  exists m', alter_tabs m h (fun ts => alter_tab ts t f) = Some m' /\ ids_wf m' /\
    all_panes m' ++ old ≡ₚ all_panes m ++ new /\ same_frame m m' /\
    exists ts', tabs_of m' h = Some ts' /\ length (tabs_tabs ts') = length (tabs_tabs ts).
Proof.
  intros Hwf Hts Ht (tab' & Hf & Hid & Hr) Ho Hn Hw.
  destruct (alter_tab_spec ts t tab f tab' old new) as (ts' & Ha & Hsw & Hk & Hl & Hw');
    [done|done|done| |].
  { exists [], []. rewrite !app_nil_r. split; [done|]. unfold tab_panes. by rewrite Hr. }
  destruct (alter_tabs_wf m h (fun ts => alter_tab ts t f) ts ts' old new) as (m' & Hm & Hts' & Hfr & _ & Hp & Hwf');
    [done|done|done|by apply swaps_panes_perm|by rewrite (kept_ids _ _ Hk)| |].
  { intros Htw. apply Hw'; [done|]. intros r Hr'. rewrite Hr in Hr'. by injection Hr' as <-. }
  exists m'. split_and!; try done. exists ts'. split; [done|]. pose proof (f_equal length (kept_ids _ _ Hk)) as E.
  unfold tab_ids in E. by rewrite !length_map in E.
Qed.

Lemma active_index_lookup ts t : active_index ts = Some t -> is_Some (tabs_tabs ts !! t).
Proof.
  unfold active_index. destruct (position (is_active ts) (tabs_tabs ts)) as [i|] eqn:E; simpl.
  - intros [= <-]. destruct (position_Some _ _ _ E) as (x & Hx & _). by eexists.
  - destruct (tabs_tabs ts); [done|]. intros [= <-]. by eexists.
Qed.

Lemma arrange_holder_runs m args panes (P : Prop) :
  model_wf m ->
  runs P (kept m) (arrange_holder args panes) (fun h m' => kept m m' /\ valid m' h /\ docks m' = docks m) m.
Proof.
  intros Hwf. pose proof (kept_refl m Hwf) as Hk. unfold arrange_holder. cbv zeta. runs_step. apply runs_get_model.
  set (from := if given args "window" then None else string_of args "from").
  destruct (f ← from; p ← res_ok (panes_need panes (Some f)); holder_of m (pane_id p)) as [h|] eqn:Hc;
    destruct (string_of args "workspace") as [w|];
    try (apply (runs_workspace_holder (m0 := m)); [done|done|]; intros s _ Hs; done).
  - runs_step. split_and!; [done| |done]. apply bind_Some in Hc as (f & _ & Hc). apply bind_Some in Hc as (p & _ & Hc).
    by eapply holder_of_valid.
  - destruct from; [by runs_step|]. runs_step. apply (runs_target_window (m0 := m)); [done|done|].
    intros w m' Hk' [Hs _] Hv. runs_step. split_and!; [done..|]. unfold docks. by rewrite Hs.
Qed.

(** What an arranged layout has: the panes it had and the ones named, each once. *)
Definition arranged (m : Model) (used : list string) (m' : Model) : Prop :=
  model_wf m' /\ (forall x, x ∈ all_panes m' <-> x ∈ all_panes m \/ x ∈ used).

Lemma live_tab_ids m m' tab :
  map tab_ids (live_bars m') = map tab_ids (live_bars m) ->
  tab ∈ flat_map tab_ids (live_bars m) -> is_Some (tab_index m' tab).
Proof. intros H Hin. apply tab_index_is_Some. by rewrite flat_map_concat_map, H, <- flat_map_concat_map. Qed.

Lemma put_leftovers_runs m h leftovers (P : Prop) (E : Model -> Prop) :
  ids_wf m -> valid m h ->
  runs P E (put_leftovers h leftovers)
    (fun _ m' => ids_wf m' /\ valid m' h /\ all_panes m' ≡ₚ all_panes m ++ leftovers) m.
Proof.
  intros Hwf Hv. unfold put_leftovers. case_decide as Hl; [runs_step; subst; by rewrite app_nil_r|].
  destruct Hv as [ts Hts]. runs_step.
  destruct (make_tab_spec m h false ts Hwf Hts) as (m1 & ts1 & Hm & _ & Hts1 & _ & Htabs & _ & Hp1 & Hwf1).
  eapply runs_opt; [exact Hm|].
  destruct (set_tree_spec m1 h ts1 (length (tabs_tabs ts)) (tab_new (tab_name_of (m_tab_counter m + 1)) (tabs_count ts + 1))
    (fun tab => Some (set_tab_root (tab_rename tab "unarranged") (Some (leftover_root leftovers))))
    (leftover_root leftovers) [] leftovers) as (m2 & Hm2 & Hwf2 & Hp2 & Hfr & ts2 & Hts2 & _); try done.
  - rewrite Htabs. by apply list_lookup_middle.
  - by eexists.
  - apply leftover_root_ids.
  - by apply leftover_root_wf.
  - eapply runs_update; [exact Hm2|]. split_and!; [done|by eexists|]. rewrite app_nil_r in Hp2. by rewrite Hp2, Hp1.
Qed.

(** Arranging keeps every pane and places the panes named, on any value given as a layout;
    a refused one changes no pane. *)
Lemma arrange_runs args panes m :
  model_wf m ->
  runs False (kept m) (arrange args panes)
    (fun _ m' => tidy_model m' /\ exists used, NoDup used /\ (forall x, x ∈ used -> x ∉ docks m) /\ arranged m used m') m.
Proof.
  intros Hwf. pose proof (kept_refl m Hwf) as Hk. unfold arrange. runs_step. apply runs_get_model. cbv zeta. runs_step.
  set (layout := default JNull (get args "layout")). fold (docks m).
  apply runs_lift; [|done|].
  2: { intros E. by destruct (build_total (depth layout) panes (docks m) layout [] (Nat.le_refl _)). }
  intros [root used] Hb. apply build_spec in Hb as [Hfull Hused Hnd Hout].
  simpl in Hused. specialize (Hnd (NoDup_nil_2)). runs_step.
  eapply runs_weaken; [by apply arrange_holder_runs|]. intros h m1 (Hk1 & [ts Hts] & Hdk). runs_step.
  eapply runs_get_tabs; [done|]. runs_step.
  apply (runs_weaken _ _ _ (fun t m2 => kept m m2 /\ docks m2 = docks m /\ exists ts2 tab, tabs_of m2 h = Some ts2 /\
    tabs_tabs ts2 !! t = Some tab)).
  { destruct (active_index ts) as [t|] eqn:Ha.
    - runs_step. destruct (active_index_lookup _ _ Ha) as [tab Ht]. split_and!; [done..|by exists ts, tab].
    - destruct (make_tab_spec m1 h true ts) as (m2 & ts2 & Hm & Hfr & Hts2 & _ & Htabs & _ & Hp & Hwf2); [apply Hk1|done|].
      eapply runs_opt; [exact Hm|]. split_and!; [by eapply kept_step| |].
      + rewrite <- Hdk. by rewrite (frame_docks _ _ Hfr).
      + eexists ts2, _. split; [done|]. rewrite Htabs. by apply list_lookup_middle. }
  intros t m2 (Hk2 & Hdk2 & ts2 & tab & Hts2 & Ht). runs_step.
  eapply runs_get_tab; [unfold tab_at; by rewrite Hts2|]. runs_step.
  destruct (detach_all_spec used m2) as (m3 & Hm3 & Hwf3 & Hb3 & Hp3); [apply Hk2| |].
  { intros x Hx. rewrite Hdk2. apply Hout. by rewrite <- Hused. }
  eapply runs_update; [exact Hm3|]. runs_step.
  destruct (live_tab_ids m2 m3 (tab_id tab) Hb3) as [[h' t'] Hi].
  { apply elem_of_flat_map. exists ts2. split; [apply elem_of_live; by eexists|]. unfold tab_ids.
    apply list_elem_of_fmap_2. by eapply list_elem_of_lookup_2. }
  eapply runs_get; [exact Hi|]. cbn beta iota. destruct (tab_index_Some _ _ _ _ Hi) as (ts3 & tab3 & Hts3 & Ht3 & _).
  runs_step. eapply runs_get_tab; [unfold tab_at; by rewrite Hts3|]. runs_step. unfold set_root.
  destruct (set_tree_spec m3 h' ts3 t' tab3 (fun tab => Some (set_tab_root tab (Some (normalize root))))
    (normalize root) (tab_panes tab3) used) as (m4 & Hm4 & Hwf4 & Hp4 & Hfr4 & ts4 & Hts4 & _); [apply Hwf3|done|done|by eexists|done| | |].
  { by rewrite normalize_ids. }
  { by apply normalize_wf. }
  eapply runs_update; [exact Hm4|]. runs_step.
  eapply runs_weaken; [by apply put_leftovers_runs; [done|eexists]|]. intros [] m5 (Hwf5 & [ts5 Hts5] & Hp5). runs_step.
  assert (all_panes m5 ≡ₚ all_panes m3 ++ used) as Hp by (by rewrite Hp5, Hp4).
  assert (arranged m used m5) as Har.
  { split; [split; [done|]|].
    - rewrite Hp. apply NoDup_app. split_and!; [apply Hwf3| |by rewrite Hused in *].
      intros x [_ Hx]%Hp3. done.
    - intros x. rewrite Hp, elem_of_app, Hp3. destruct Hk2 as [_ ->]. destruct (decide (x ∈ used)); tauto. }
  eapply (runs_same_shape (m0 := m5)); [apply kept_refl, Har|done|done|by case_match|]. intros m6 Hk6 Hr6 _. runs_step.
  apply runs_get_at; [eapply reshaped_valid; [done|by eexists]|]. intros out. runs_step.
  eapply (runs_drop_empty (m0 := m5)); [done|]. intros m7 Hk7 Htidy _. runs_step. apply runs_get_model. runs_step.
  split; [done|]. exists used. split_and!; [by rewrite Hused in *|intros x Hx; apply Hout; by rewrite <- Hused|].
  destruct Har as [_ Hx]. destruct Hk7 as [Hwf7 Hp7]. split; [done|]. intros x. by rewrite Hp7.
Qed.
