(* ===== verification/Desk.v ===== *)
(** * Tasks and their workspaces: [crates/kanna-mux/src/desk.rs]

    A task is a workspace whose dock holds its agent. *)

From S2P Require Import Prelude Text F64 Json Fraction Pane Panes Tree Tabs Workspace Model Ops Commands.

(** ** Workspaces of tasks *)

(** [held] *)
Definition held (m : Model) : list nat :=
  retain (fun s => match m_workspaces m !! s with Some ws => bool_decide (ws_place ws = Shelf) | None => false end)
    (seq 0 (length (m_workspaces m))).

Definition dock_workspace `{World} (m : Model) (pane : string) (edge : Edge) (place : Where) (frozen : bool) : Model :=
  let '(ws, m) := new_workspace m (mkDock pane edge DOCK_WIDTH frozen) place in
  let ws := set_ws_left_at ws (Some now) in
  let ws := set_ws_tabs ws (set_focused (ws_tabs ws) (Some pane)) in
  set_workspaces m (ws :: m_workspaces m).

(** [Vec::rotate_right(1)] *)
Definition rotate_right (l : list string) : list string :=
  match last l with Some x => x :: removelast l | None => [] end.

Definition task_index (m : Model) (task : string) : option nat := or_else (dock_ws m task) (ws_index m task).

Definition task_panes (task : string) : act Model (list string) :=
  let! m := get_model in
  let! s := act_lift (ok_or (task_index m task) (not_found (quoted "no task" task))) in
  let! ws := act_get (fun m => m_workspaces m !! s) in
  act_ret (rotate_right (workspace_panes m ws) ++ ws_background ws).

Definition close_task (m : Model) (task : string) : option Model :=
  match task_index m task with
  | None => Some m
  | Some s =>
    ws ← m_workspaces m !! s;
    Some (set_windows (set_workspaces m (delete s (m_workspaces m)))
            (retain (fun w => negb (in_workspace (ws_id ws) w)) (m_windows m)))
  end.

Definition lead (pane : string) (window : option string) : act Model string :=
  let! reference := act_lift (ok_or window (bad_request "a window's lead needs its window")) in
  let! w := target_window (Some reference) in
  let! win := act_get (fun m => m_windows m !! w) in
  match win_lead win with
  | Some d => act_fail (mkError "led" (win_id win +:+ " has a lead already: " +:+ dock_pane d))
  | None =>
    act_update (fun m => alter_window m w (fun win =>
      Some (mkWindow (win_id win) (settle_focus (win_tabs win) (Some pane))
              (Some (mkDock pane ELeft DOCK_WIDTH false)) None))) ;;;
    act_ret (win_id win)
  end.

(** ** The task command *)

Definition task_workspace (m : Model) (reference : string) (panes : Panes) : res (nat * Workspace) :=
  let? s := ok_or (find_workspace m reference panes)
    (match panes_need panes (Some reference) with
     | Err error => error
     | _ => not_found (reference +:+ " is not in a task: it's in no task's workspace")
     end) in
  let? ws := unwrap (m_workspaces m !! s) in
  if is_task ws then Ok (s, ws) else Err (not_found (reference +:+ " is a Desk's planner, not a task")).

Definition agent (ws : Workspace) : Value := JString (dock_pane (ws_dock ws)).

Definition task_entry `{World} (panes : Panes) (ws : Workspace) : Value :=
  let p := panes_get panes (dock_pane (ws_dock ws)) in
  JObject [("id", agent ws);
           ("workspace", JString (ws_id ws));
           ("name", opt (p ← p; pane_name p));
           ("agent", opt (p ← p; program shlex_split p));
           ("where", where_to_json (ws_place ws));
           ("leftAt", match ws_left_at ws with Some t => num t | None => JNull end);
           ("tabs", num (f_of_nat (length (tabs_tabs (ws_tabs ws)))))].

Definition is_out (app : option string) (ws : Workspace) : bool :=
  match ws_place ws with
  | Desk by_ => match app with Some app => bool_decide (app = by_) | None => true end
  | _ => false
  end.

Definition task_list `{World} (m : Model) (app : option string) (panes : Panes) : Map :=
  [("tasks", JArray (map (task_entry panes) (retain (is_out app) (m_workspaces m))))].

Definition task_hold (args : Value) (panes : Panes) : act Model Map :=
  let! reference := act_lift (ok_or (string_of args "task") (bad_request "hold needs a task")) in
  let! m := get_model in
  let! '(s, ws) := act_lift (task_workspace m reference panes) in
  let was := where_to_json (ws_place ws) in
  act_update (fun m => alter_workspace m s (fun ws => Some (set_ws_place ws Shelf))) ;;;
  act_ret [("task", agent ws); ("was", was)].

Definition task_find (args : Value) (panes : Panes) : act Model Map :=
  let! reference := act_lift (ok_or (string_of args "task") (bad_request "find needs a task")) in
  let! m := get_model in
  let! '(s, ws) := act_lift (task_workspace m reference panes) in
  act_ret [("task", agent ws); ("workspace", JString (ws_id ws)); ("where", where_to_json (ws_place ws))].

Definition task_claim `{World} (args : Value) (panes : Panes) : act Model Map :=
  let! reference := act_lift (ok_or (string_of args "task") (bad_request "claim needs a task")) in
  let! app := act_lift (ok_or (string_of args "app") (bad_request "claim needs the app that has it out")) in
  let! m := get_model in
  let! '(s, ws) := act_lift (task_workspace m reference panes) in
  let was := where_to_json (ws_place ws) in
  (if decide (ws_place ws = Desk app) then act_ret tt
   else act_modify (fun m => set_workspaces m
          (set_ws_left_at (set_ws_place ws (Desk app)) (Some now) :: delete s (m_workspaces m)))) ;;;
  let! first := act_get (fun m => m_workspaces m !! 0) in
  act_ret [("task", agent first); ("workspace", JString (ws_id first)); ("was", was)].

Definition task_planner (args : Value) (panes : Panes) : act Model Map :=
  let! reference := act_lift (ok_or (string_of args "task") (bad_request "planner needs a planning terminal")) in
  let! app := act_lift (ok_or (string_of args "app") (bad_request "planner needs who has it")) in
  let! m := get_model in
  let! s := act_lift (ok_or
    (s ← find_workspace m reference panes; ws ← m_workspaces m !! s; if is_task ws then None else Some s)
    (not_found (reference +:+ " isn't a planner"))) in
  let! ws := act_get (fun m => m_workspaces m !! s) in
  let was := where_to_json (ws_place ws) in
  act_update (fun m => alter_workspace m s (fun ws => Some (set_ws_place ws (Planner app)))) ;;;
  act_ret [("task", agent ws); ("workspace", JString (ws_id ws)); ("was", was)].

Definition task `{World} (args : Value) (panes : Panes) : act Model Map :=
  let action := default "" (string_of args "action") in
  if decide (action = "list") then
    let! m := get_model in act_ret (task_list m (string_of args "app") panes)
  else if decide (action = "hold") then task_hold args panes
  else if decide (action = "find") then task_find args panes
  else if decide (action = "claim") then task_claim args panes
  else if decide (action = "planner") then task_planner args panes
  else act_fail (bad_request ("unknown task action " +:+ in_quotes action +:+ " (list, find, hold, claim or planner)")).
