(* ===== verification/Saved.v ===== *)
(** * Saved layouts: [crates/kanna-mux/src/saved.rs]

    A layout as JSON and back.  [Reader] is the state of the reading: the panes it has
    placed and the ids it has seen; every read is a [res]-valued state transformer, since a
    reader is dropped at the first error. *)

From S2P Require Import Prelude Text F64 Json Pane Panes State Tree Tabs Workspace Model Ops Commands.

Definition LAYOUT_VERSION : N := 4.

(** ** Writing *)

Fixpoint export_fields (node : Node) : Map :=
  match node with
  | NPane id => [("pane", JString id)]
  | NSplit split =>
    [("split", JString (axis_as_str (split_axis split)));
     ("children", JArray (map (fun kid =>
        JObject (map_insert (export_fields (child_node kid)) "size" (num (child_size kid)))) (split_kids split)))]
  end.
(** [Model::export_node], whose value is always an object. *)
Definition export_node (node : Node) : Value := JObject (export_fields node).

Definition tab_json (tab : Tab) : Value :=
  JObject ([("id", JString (tab_id tab)); ("title", JString (tab_title tab));
            ("lastFocus", opt (tab_last_focus tab));
            ("layout", match tab_root tab with Some root => export_node root | None => JNull end);
            ("number", num (f_of_N (tab_number tab)))]
           ++ opt_field "namer" (JString <$> tab_namer tab) ++ flag "renamed" (tab_renamed tab)).

Definition put_tabs (out : Map) (ts : Tabs) : Map :=
  out ++ [("active", opt (tabs_active ts)); ("focused", opt (tabs_focused ts)); ("zoomed", opt (zoomed ts));
          ("tabCount", num (f_of_N (tabs_count ts)))]
      ++ (if decide (tabs_recent ts = []) then [] else [("recent", JArray (map JString (tabs_recent ts)))])
      ++ [("tabs", JArray (map tab_json (tabs_tabs ts)))].

Definition dock_json (d : Dock) : Value :=
  JObject ([("pane", JString (dock_pane d)); ("edge", JString (edge_as_str (dock_edge d))); ("width", num (dock_width d))]
           ++ flag "frozen" (dock_frozen d)).

Definition window_json (w : Window) : Map :=
  put_tabs [("id", JString (win_id w))] (win_tabs w)
  ++ match win_lead w with
     | Some d => [("lead", JObject [("pane", JString (dock_pane d)); ("width", num (dock_width d))])]
     | None => []
     end.

Definition put_workspace (out : Map) (ws : Workspace) : Map :=
  out ++ [("dock", dock_json (ws_dock ws))] ++ opt_field "leftAt" (num <$> ws_left_at ws)
      ++ (if decide (ws_background ws = []) then [] else [("background", JArray (map JString (ws_background ws)))]).

Definition counters_json (m : Model) : Value :=
  JObject [("tab", num (f_of_N (m_tab_counter m))); ("window", num (f_of_N (m_win_counter m)));
           ("workspace", num (f_of_N (m_ws_counter m)))].

Definition export_v1 (m : Model) : Map :=
  let windows := map (fun w => JObject (window_json w ++ opt_field "workspace" (JString <$> win_workspace w))) (m_windows m) in
  let parked := map (fun ws => JObject (put_workspace (put_tabs
      [("id", JString (dock_pane (ws_dock ws))); ("workspace", JString (ws_id ws)); ("where", where_to_json (ws_place ws))]
      (ws_tabs ws)) ws)) (m_workspaces m) in
  [("counters", counters_json m); ("windows", JArray windows)]
  ++ (if decide (parked = []) then [] else [("parked", JArray parked)]).

Definition export_v3 (m : Model) : Map :=
  let windows := map (fun w => JObject (window_json w))
                   (retain (fun w => bool_decide (win_workspace w = None)) (m_windows m)) in
  let workspaces := map (fun ws => JObject (put_tabs
      (put_workspace [("id", JString (ws_id ws)); ("where", where_to_json (ws_place ws))] ws) (ws_tabs ws)
      ++ [("windows", JArray (map (fun w => JObject (window_json w)) (workspace_windows m (ws_id ws))))])) (m_workspaces m) in
  [("counters", counters_json m); ("windows", JArray windows); ("workspaces", JArray workspaces)].

(** ** Reading *)

Record Restored := mkRestored {
  rs_windows : list Window;
  rs_workspaces : list Workspace;
  rs_orphans : list Tabs;
  rs_tab : N;
  rs_win : N;
  rs_ws : N }.

Record SavedLayout := mkSaved { saved_placed : list string; saved_layout : Restored }.

Record Reader := mkReader {
  rd_placed : list string;
  rd_tab_ids : list string;
  rd_window_ids : list string;
  rd_tab : N;
  rd_win : N }.

Definition set_rd_placed (r : Reader) (l : list string) : Reader :=
  mkReader l (rd_tab_ids r) (rd_window_ids r) (rd_tab r) (rd_win r).
Definition see_tab (r : Reader) (id : string) : Reader :=
  mkReader (rd_placed r) (rd_tab_ids r ++ [id]) (rd_window_ids r) (rd_tab r) (rd_win r).
Definition see_window (r : Reader) (id : string) (n : N) : Reader :=
  mkReader (rd_placed r) (rd_tab_ids r) (rd_window_ids r ++ [id]) (rd_tab r) (N.max (rd_win r) n).
Definition raise_tab (r : Reader) (n : N) : Reader :=
  mkReader (rd_placed r) (rd_tab_ids r) (rd_window_ids r) (N.max (rd_tab r) n) (rd_win r).

Section Read.
Context `{World} (panes : list string).

Definition saved_sizes (children : list Value) : list f64 :=
  map (fun child =>
    default (fdiv f1 (f_of_nat (length children)))
      (v ← get child "size"; s ← as_f64 v; if flt f0 s && fle s f1 then Some s else None)) children.

Definition place_pane (placed : list string) (id : string) : res (list string) :=
  if contains placed id then Err (bad_state ("pane " +:+ id +:+ " is placed twice")) else Ok (placed ++ [id]).

Definition known (reference : Value) : option string :=
  id ← as_str reference; if contains panes id then Some id else None.

(** The kids of a saved split, each built in turn. *)
Fixpoint read_kids (read : Value -> list string -> res (Node * list string)) (total : f64)
    (placed : list string) (children : list (Value * f64)) : res (list NChild * list string) :=
  match children with
  | [] => Ok ([], placed)
  | (child, size) :: rest =>
    let? '(node, placed) := read child placed in
    let? '(kids, placed) := read_kids read total placed rest in
    Ok (mkChild node (fdiv size total) :: kids, placed)
  end.

(** [build] of saved.rs; the depth of the value is fuel enough. *)
Fixpoint read_node (fuel : nat) (node : Value) (placed : list string) : res (Node * list string) :=
  if negb (is_object node) then Err (bad_state "malformed layout")
  else
    match (r ← get node "pane"; if is_null r then None else Some r) with
    | Some reference =>
      let? id := ok_or (known reference)
        (bad_state ("layout names unknown pane " +:+ quoted_json (Some reference))) in
      let? placed := place_pane placed id in
      Ok (NPane id, placed)
    | None =>
      let axis := s ← string_of node "split"; axis_parse s in
      let children := v ← get node "children"; l ← as_array v; if decide (l = []) then None else Some l in
      match axis, children with
      | Some axis, Some children =>
        match fuel with
        | 0 => Panic
        | S fuel =>
          let sizes := saved_sizes children in
          let? '(kids, placed) := read_kids (read_node fuel) (f_sum sizes) placed (zip children sizes) in
          Ok (NSplit (mkSplit axis kids), placed)
        end
      | _, _ => Err (bad_state "malformed layout")
      end
    end.

Definition read_root (layout : option Value) (placed : list string) : res (option Node * list string) :=
  match layout with
  | None | Some JNull => Ok (None, placed)
  | Some layout => let? '(root, placed) := read_node (depth layout) layout placed in Ok (Some (normalize root), placed)
  end.

Definition saved_number (entry : Value) (title : string) (count : nat) : N :=
  default (N.of_nat count + 1)%N
    (n ← or_else (whole (get entry "number")) (t ← strip_prefix "Tab " title; parse_usize t);
     if (0 <? n)%N then Some n else None).

(** One saved tab, read after [count] others. *)
Definition read_tab (count : nat) (entry : Value) (r : Reader) : res (Tab * Reader) :=
  let bad := bad_state ("tab " +:+ quoted_json (get entry "id")) in
  let tab_id := if is_object entry then string_of entry "id" else None in
  let? id := ok_or tab_id bad in
  let? tn := ok_or (number_in id "tab-") bad in
  if contains (rd_tab_ids r) id then Err bad
  else
    let r := see_tab r id in
    let? '(root, placed) := read_root (get entry "layout") (rd_placed r) in
    let r := set_rd_placed r placed in
    let title := trim (default "" (string_of entry "title")) in
    let number := saved_number entry title count in
    let ids := pane_ids root in
    let among key := l ← string_of entry key; if contains ids l then Some l else None in
    let tab := mkTab id (if str_is_empty title then numbered_title number else title) root (among "lastFocus") number
                 (among "namer") (negb (str_is_empty title) && is_true entry "renamed") in
    Ok (tab, raise_tab r tn).

Fixpoint read_tab_list (count : nat) (saved : list Value) (r : Reader) : res (list Tab * Reader) :=
  match saved with
  | [] => Ok ([], r)
  | entry :: saved =>
    let? '(tab, r) := read_tab count entry r in
    let? '(tabs, r) := read_tab_list (S count) saved r in
    Ok (tab :: tabs, r)
  end.

Definition array_at (item : Value) (key : string) : list Value := default [] (v ← get item key; as_array v).

Definition read_tabs (item : Value) (r : Reader) : res (Tabs * Reader) :=
  let? saved := ok_or (v ← get item "tabs"; as_array v) (bad_state ("window " +:+ quoted_json (get item "id"))) in
  let? '(all, r) := read_tab_list 0 saved r in
  let tabs := retain has_root all in
  let active := string_of item "active" in
  let active := if existsb (fun t => bool_decide (Some (tab_id t) = active)) tabs then active
                else tab_id <$> head tabs in
  let count := N.max (default 0%N (whole (get item "tabCount"))) (N.of_nat (length tabs)) in
  let ids := flat_map tab_panes tabs in
  let recent := List.filter (contains ids) (omap as_str (array_at item "recent")) in
  Ok (mkTabs tabs active None false count recent, r).

(** Each saved background pane that is known and not yet placed. *)
Fixpoint read_background_from (saved : list string) (placed : list string) : list string * list string :=
  match saved with
  | [] => ([], placed)
  | id :: saved =>
    if contains panes id && negb (contains placed id) then
      let '(rest, placed) := read_background_from saved (placed ++ [id]) in (id :: rest, placed)
    else read_background_from saved placed
  end.

Definition read_background (item : Value) (r : Reader) : list string * Reader :=
  let '(background, placed) := read_background_from (omap as_str (array_at item "background")) (rd_placed r) in
  (background, set_rd_placed r placed).

Definition read_side (item : Value) (key owner what : string) (r : Reader) : res (option Dock * Reader) :=
  match (d ← get item key; if is_null d then None else Some d) with
  | None => Ok (None, r)
  | Some saved =>
    let? pane := ok_or (p ← get saved "pane"; known p)
      (bad_state ("window " +:+ owner +:+ " " +:+ what +:+ " unknown pane " +:+ quoted_json (get saved "pane"))) in
    let? placed := place_pane (rd_placed r) pane in
    let width := default DOCK_WIDTH (v ← get saved "width"; w ← as_f64 v; if flt f0 w && flt w f1 then Some w else None) in
    let edge := default ELeft (e ← string_of saved "edge"; edge_parse e) in
    Ok (Some (mkDock pane edge width (is_true saved "frozen")), set_rd_placed r placed)
  end.

Definition read_window (item : Value) (r : Reader) : res (Window * option Dock * bool * Reader) :=
  let bad := bad_state ("window " +:+ quoted_json (get item "id")) in
  let? id := ok_or (if is_object item then string_of item "id" else None) bad in
  let? n := ok_or (number_in id "win-") bad in
  if contains (rd_window_ids r) id then Err bad
  else
    let r := see_window r id n in
    let? '(tabs, r) := read_tabs item r in
    let? '(dock, r) := read_side item "dock" id "docks" r in
    let lead_key := if given item "lead" then "lead" else "planner" in
    let? '(lead, r) := read_side item lead_key id "is led by" r in
    let lead := (fun d => mkDock (dock_pane d) ELeft (dock_width d) false) <$> lead in
    let desk := bool_decide (is_Some dock) || default false (v ← get item "desk"; as_bool v) in
    Ok (mkWindow id tabs lead None, dock, desk, r).

Definition settle (ts : Tabs) (item : Value) (side : option string) : Tabs :=
  let all := match side with Some s => s :: shown ts | None => shown ts end in
  let among key := f ← string_of item key; if contains all f then Some f else None in
  let focused := or_else (among "focused")
    (or_else (t ← active_tab ts; tab_last_focus t) (or_else (head (shown ts)) side)) in
  let ts := set_focused ts focused in
  match among "zoomed" with
  | Some zoomed => set_focused (set_zoom ts true) (Some zoomed)
  | None => ts
  end.

Definition read_workspace (id : string) (item : Value) (dock : Dock) (tabs : Tabs) (place : Where) : Workspace :=
  mkWorkspace id dock (settle tabs item (Some (dock_pane dock))) place (v ← get item "leftAt"; as_f64 v) [].

(** What [read] gathers. *)
Record Gathered := mkGathered {
  ga_windows : list Window;
  ga_workspaces : list Workspace;
  ga_orphans : list Tabs;
  ga_ws_ids : list string;
  ga_planners : list (string * Dock * bool);
  ga_reader : Reader }.

Definition claim_ws (ids : list string) (id : string) : res (list string) :=
  if contains ids id then Err (bad_state ("workspace " +:+ id +:+ " is saved twice")) else Ok (ids ++ [id]).

(** One item of [state.windows]. *)
Definition read_saved_window (g : Gathered) (item : Value) : res Gathered :=
  let? '(window, dock, desk, r) := read_window item (ga_reader g) in
  let planners := if (desk : bool)
                  then match win_lead window with
                       | Some lead => ga_planners g ++ [(win_id window +:+ "-planner", lead, is_true item "shelfZoom")]
                       | None => ga_planners g
                       end
                  else ga_planners g in
  let window := if (desk : bool) then set_win_lead window None else window in
  match dock with
  | Some dock =>
    let id := default (dock_pane dock) (string_of item "shows") in
    let? ids := claim_ws (ga_ws_ids g) id in
    let ws := read_workspace id item dock (win_tabs window) (Desk MAC_APP) in
    let ws := set_ws_left_at ws (Some (default f0 (ws_left_at ws))) in
    Ok (mkGathered (ga_windows g ++ [set_win_tabs window tabs_default]) (ga_workspaces g ++ [ws]) (ga_orphans g)
          ids planners r)
  | None =>
    let window := set_win_workspace
      (set_win_tabs window (settle (win_tabs window) item (dock_pane <$> win_lead window))) (string_of item "workspace") in
    Ok (mkGathered (ga_windows g ++ [window]) (ga_workspaces g) (ga_orphans g) (ga_ws_ids g) planners r)
  end.

(** One item of [state.parked], or of [state.shelf]. *)
Definition read_parked (g : Gathered) (item : Value) : res Gathered :=
  let? id := ok_or (if is_object item then string_of item "id" else None)
    (bad_state ("window " +:+ quoted_json (get item "id"))) in
  let? '(tabs, r) := read_tabs item (ga_reader g) in
  let place := match where_read (get item "where") with
               | Some place => place
               | None => if is_bool_true (get item "backlog") then Shelf else Desk MAC_APP
               end in
  let ws_id := default id (string_of item "workspace") in
  let? '(dock, r) := read_side item "dock" id "docks" r in
  match dock with
  | Some dock =>
    let? ids := claim_ws (ga_ws_ids g) ws_id in
    let ws := read_workspace ws_id item dock tabs place in
    let ws := set_ws_left_at ws (Some (default f0 (ws_left_at ws))) in
    Ok (mkGathered (ga_windows g) (ga_workspaces g ++ [ws]) (ga_orphans g) ids (ga_planners g) r)
  | None => Ok (mkGathered (ga_windows g) (ga_workspaces g) (ga_orphans g ++ [tabs]) (ga_ws_ids g) (ga_planners g) r)
  end.

(** A window saved inside a workspace. *)
Definition read_own_window (workspace : option string) (g : Gathered) (item : Value) : res Gathered :=
  let? '(window, _, _, r) := read_window item (ga_reader g) in
  let window := mkWindow (win_id window) (settle (win_tabs window) item None) None workspace in
  Ok (mkGathered (ga_windows g ++ [window]) (ga_workspaces g) (ga_orphans g) (ga_ws_ids g) (ga_planners g) r).

Fixpoint gather (read : Gathered -> Value -> res Gathered) (g : Gathered) (items : list Value) : res Gathered :=
  match items with
  | [] => Ok g
  | item :: items => let? g := read g item in gather read g items
  end.

(** One item of [state.workspaces], with the windows saved inside it. *)
Definition read_saved_workspace (g : Gathered) (item : Value) : res Gathered :=
  let? id := ok_or (id ← string_of item "id"; if is_object item && negb (str_is_empty id) then Some id else None)
    (bad_state ("workspace " +:+ quoted_json (get item "id"))) in
  let? '(tabs, r) := read_tabs item (ga_reader g) in
  let place := default (Desk MAC_APP) (where_read (get item "where")) in
  let? '(dock, r) := read_side item "dock" id "docks" r in
  let? g := match dock with
            | Some dock =>
              let? ids := claim_ws (ga_ws_ids g) id in
              let '(background, r) := read_background item r in
              let ws := set_ws_background (read_workspace id item dock tabs place) background in
              Ok (mkGathered (ga_windows g) (ga_workspaces g ++ [ws]) (ga_orphans g) ids (ga_planners g) r)
            | None =>
              Ok (mkGathered (ga_windows g) (ga_workspaces g) (ga_orphans g ++ [tabs]) (ga_ws_ids g) (ga_planners g) r)
            end in
  gather (read_own_window (_ ← dock; Some id)) g (array_at item "windows").

Definition planner_workspace (p : string * Dock * bool) : Workspace :=
  let '(id, lead, zoom) := p in
  let ws := workspace_new id lead (Planner MAC_APP) in
  set_ws_tabs ws (set_focused (set_zoom (ws_tabs ws) zoom) (Some (dock_pane lead))).

(** The workspaces that have no number get one; their windows follow. *)
Fixpoint number_workspaces (next : N) (workspaces : list Workspace) (windows : list Window)
  : list Workspace * list Window * N :=
  match workspaces with
  | [] => ([], windows, next)
  | ws :: rest =>
    match number_in (ws_id ws) "ws-" with
    | Some _ =>
      let '(rest, windows, next) := number_workspaces next rest windows in (ws :: rest, windows, next)
    | None =>
      let next := (next + 1)%N in
      let id := ws_name_of next in
      let windows := map (fun w => if in_workspace (ws_id ws) w then set_win_workspace w (Some id) else w) windows in
      let ws := mkWorkspace id (ws_dock ws) (ws_tabs ws) (ws_place ws) (ws_left_at ws) (ws_background ws) in
      let '(rest, windows, next) := number_workspaces next rest windows in (ws :: rest, windows, next)
    end
  end.

(** [renamed] of saved.rs: ids as older versions wrote them. *)
Fixpoint rename_ids (value : Value) (key : option string) : Value :=
  match value with
  | JString id =>
    if match key with Some k => contains ["id"; "active"; "windows"] k | None => false end then
      let legacy prefix to := (fun n => JString (to +:+ pretty n)) <$> number_in id prefix in
      default value (or_else (legacy "t" "tab-") (legacy "w" "win-"))
    else value
  | JArray items => JArray (map (fun item => rename_ids item key) items)
  | JObject fields => JObject (map (fun '(k, item) => (k, rename_ids item (Some k))) fields)
  | _ => value
  end.

(** The end of [read]: planners, lost workspaces, numbers, empty windows. *)
Definition finish_read (ws_counter : N) (g : Gathered) : SavedLayout :=
  let workspaces := ga_workspaces g ++ map planner_workspace (ga_planners g) in
  let ids := map ws_id workspaces in
  let windows := map (fun w =>
    match win_workspace w with
    | Some id => if contains ids id then w else set_win_workspace w None
    | None => w
    end) (ga_windows g) in
  let next := foldl N.max ws_counter (omap (fun s => number_in (ws_id s) "ws-") workspaces) in
  let '(workspaces, windows, next) := number_workspaces next workspaces windows in
  let windows := retain window_kept windows in
  let r := ga_reader g in
  mkSaved (rd_placed r) (mkRestored windows workspaces (ga_orphans g) (rd_tab r) (rd_win r) next).

Definition saved_read (state : Value) : res SavedLayout :=
  let state := rename_ids state None in
  let saved := default (JObject []) (get state "counters") in
  let counter key := default 0%N (whole (get saved key)) in
  let reader := mkReader [] [] [] (counter "tab") (counter "window") in
  let? saved_windows := ok_or (v ← get state "windows"; as_array v) (bad_state "needs panes and windows") in
  let? g := gather read_saved_window (mkGathered [] [] [] [] [] reader) saved_windows in
  let? g := gather read_parked g (default [] (v ← or_else (get state "parked") (get state "shelf"); as_array v)) in
  let? g := gather read_saved_workspace g (array_at state "workspaces") in
  Ok (finish_read (counter "workspace") g).
End Read.

Definition saved_install (m : Model) (saved : SavedLayout) : Model :=
  let r := saved_layout saved in
  drop_empty (mkModel (rs_windows r) (rs_workspaces r)
    (N.max (m_tab_counter m) (rs_tab r)) (N.max (m_win_counter m) (rs_win r)) (N.max (m_ws_counter m) (rs_ws r))
    (m_orphans m ++ rs_orphans r) (m_desks m)).

(** ** Upgrading an older layout's names *)

Fixpoint old_names (value : Value) (key : option string) : Value :=
  if decide (key = Some "where") then where_upgrade value
  else
    match value with
    | JArray items => JArray (map (fun item => old_names item key) items)
    | JObject fields =>
      JObject (foldl (fun m '(k, v) => map_insert m k v) []
        (map (fun '(k, item) => (if decide (k = "parkedAt") then "leftAt" else k, old_names item (Some k))) fields))
    | _ => value
    end.

(** [upgrade] of saved.rs; [out["version"] = ...] panics on a value that is neither an
    object nor null. *)
Definition upgrade_layout (state : Value) : option Value :=
  if match (v ← get state "version"; as_f64 v) with Some v => fle (f_of_N LAYOUT_VERSION) v | None => false end
  then Some state
  else
    let version := num (f_of_N LAYOUT_VERSION) in
    match old_names state None with
    | JObject fields => Some (JObject (map_insert fields "version" version))
    | JNull => Some (JObject [("version", version)])
    | _ => None
    end.
