(* ===== verification/SavedFacts.v ===== *)
(** * What reading a saved layout gives: [crates/kanna-mux/src/saved.rs]

    Reading never panics; what it reads has each known pane at most once, distinct ids
    below the counters, and well-formed trees, whatever the JSON was. *)

From S2P Require Import Prelude Text F64 Json Fraction Describe Pane Panes State Tree Tabs Workspace Model.
From S2P Require Import Ops OpsFacts Commands CommandFacts ArrangeFacts Saved.

(** ** Trees *)

Section Read.
Context `{World} (panes : list string).

(** The panes [ids] were placed, after the ones before. *)
Record places (placed ids placed' : list string) : Prop := {
  places_app : placed' = placed ++ ids;
  places_nodup : NoDup placed -> NoDup placed';
  places_known : forall x, x ∈ ids -> x ∈ panes }.

Lemma places_nil placed : places placed [] placed.
Proof. split; [by rewrite app_nil_r|done|by intros x ?%elem_of_nil]. Qed.

Lemma places_trans a b c l k : places a l b -> places b k c -> places a (l ++ k) c.
Proof.
  intros [-> H1 H2] [-> H3 H4]. split; [by rewrite (assoc_L (++))|auto|]. intros x [?|?]%elem_of_app; auto.
Qed.

Lemma places_one placed id : id ∈ panes -> id ∉ placed -> places placed [id] (placed ++ [id]).
Proof.
  intros Hk Hn. split; [done| |by intros x ->%list_elem_of_singleton]. intros Hnd. apply NoDup_app.
  split_and!; [done| |apply NoDup_singleton]. by intros x Hx ->%list_elem_of_singleton.
Qed.

Lemma place_pane_spec placed id : id ∈ panes -> yields (place_pane placed id) (places placed [id]).
Proof. intros Hk. unfold place_pane. destruct (contains placed id) eqn:E; simpl; [done|]. by apply places_one, contains_false. Qed.

Lemma known_Some reference id : known panes reference = Some id -> id ∈ panes.
Proof.
  intros (s & _ & Hs)%bind_Some. destruct (contains panes s) eqn:E; [|done]. injection Hs as ->. by apply contains_true in E.
Qed.

Lemma read_kids_spec read total children placed :
  (forall v u, (exists s, (v, s) ∈ children) ->
     yields (read v u) (fun '(n, u') => node_full n /\ places u (collect n) u')) ->
  yields (read_kids read total placed children) (fun '(kids, placed') =>
    length kids = length children /\ Forall (fun c => node_full (child_node c)) kids /\ places placed (kids_ids kids) placed').
Proof.
  revert placed. induction children as [|[v s] children IH]; intros placed Hr; simpl.
  - split_and!; [done|constructor|apply places_nil].
  - apply yields_bind. eapply yields_mono; [apply Hr; exists s; left|]. intros [n u] [Hf Hp]. apply yields_bind.
    eapply yields_mono; [apply IH; intros v' u' [s' Hin]; apply Hr; exists s'; by right|].
    intros [kids u'] (Hl & Hks & Hp'). simpl. split_and!; [by rewrite Hl|by constructor|].
    by eapply places_trans.
Qed.

Lemma read_node_spec fuel node placed :
  depth node <= fuel ->
  yields (read_node panes fuel node placed) (fun '(n, placed') => node_full n /\ places placed (collect n) placed').
Proof.
  revert node placed. induction fuel as [|fuel IH]; intros node placed Hd; simpl; (destruct (negb (is_object node)); [done|]);
    (destruct (r ← get node "pane"; if is_null r then None else Some r) as [r|];
      [apply yields_bind, yields_ok_or; intros id Hid%known_Some; apply yields_bind;
       eapply yields_mono; [by apply place_pane_spec|]; intros placed' Hp; split; [constructor|done]|]);
    (destruct (s ← string_of node "split"; axis_parse s) as [axis|]; [|done]);
    (destruct (v ← get node "children"; l ← as_array v; if decide (l = []) then None else Some l)
      as [children|] eqn:Hch; [|done]); apply bind_Some in Hch as (v & Hv%get_depth & Hch); [lia|].
  apply bind_Some in Hch as (l & Hl & Hch). case_decide as Hne; [done|]. injection Hch as ->.
  apply yields_bind. eapply yields_mono; [apply read_kids_spec|].
  - intros c u [s Hc%elem_of_zip_l]. apply IH. pose proof (as_array_depth _ _ _ Hl Hc). lia.
  - intros [kids placed'] (Hlen & Hf & Hp). split; [|done]. constructor; [|done]. intros ->.
    rewrite length_zip_with in Hlen. unfold saved_sizes in Hlen. rewrite length_map in Hlen. simpl in Hlen.
    destruct children; simpl in Hlen; [done|lia].
Qed.

Lemma read_root_spec layout placed :
  yields (read_root panes layout placed) (fun '(root, placed') =>
    (forall n, root = Some n -> node_wf n) /\ places placed (pane_ids root) placed').
Proof.
  unfold read_root.
  assert (forall v, yields (let? '(root, placed) := read_node panes (depth v) v placed in Ok (Some (normalize root), placed))
    (fun '(root, placed') => (forall n, root = Some n -> node_wf n) /\ places placed (pane_ids root) placed')) as Hn.
  { intros v. apply yields_bind. eapply yields_mono; [by apply read_node_spec|]. intros [n placed'] [Hf Hp]. simpl.
    split; [intros n' [= <-]; by apply normalize_wf|]. by rewrite normalize_ids. }
  destruct layout as [v|]; [|split; [done|apply places_nil]].
  destruct v; try apply Hn. split; [done|apply places_nil].
Qed.

(** ** Tab bars *)

(** Every id is numbered, and no higher than the counter. *)
Definition under (prefix : string) (counter : N) (ids : list string) : Prop :=
  forall x, x ∈ ids -> exists n, number_in x prefix = Some n /\ (n <= counter)%N.

Lemma under_mono prefix c c' ids ids' :
  under prefix c ids -> (c <= c')%N -> (forall x, x ∈ ids' -> x ∈ ids) -> under prefix c' ids'.
Proof. intros Hu Hc Hs x Hx. destruct (Hu x (Hs x Hx)) as (n & Hn & Hle). exists n. split; [done|lia]. Qed.

Lemma under_snoc prefix c ids x n :
  under prefix c ids -> number_in x prefix = Some n -> under prefix (N.max c n) (ids ++ [x]).
Proof.
  intros Hu Hn y [Hy| ->%list_elem_of_singleton]%elem_of_app; [|exists n; split; [done|lia]].
  destruct (Hu y Hy) as (k & Hk & Hle). exists k. split; [done|lia].
Qed.

Lemma number_in_name x prefix n : number_in x prefix = Some n -> x = prefix +:+ pretty n.
Proof.
  intros (rest & _ & Hr)%bind_Some. apply bind_Some in Hr as (k & _ & Hr).
  destruct (_ && bool_decide (prefix +:+ pretty k = x)) eqn:E; [|done]. injection Hr as ->.
  apply andb_true_iff in E as [_ E]. by apply bool_decide_eq_true in E.
Qed.

Lemma under_fresh prefix c c' ids :
  under prefix c ids -> (c <= c')%N -> fresh_above (fun n => prefix +:+ pretty n) c' ids.
Proof.
  intros Hu Hc n Hn Hin. destruct (Hu _ Hin) as (k & Hk%number_in_name & Hle). apply string_app_inj_l, (inj pretty) in Hk. lia.
Qed.

Record reader_ok (r : Reader) : Prop := {
  ok_placed : NoDup (rd_placed r);
  ok_known : forall x, x ∈ rd_placed r -> x ∈ panes;
  ok_tab_ids : NoDup (rd_tab_ids r);
  ok_window_ids : NoDup (rd_window_ids r);
  ok_tabs_under : under "tab-" (rd_tab r) (rd_tab_ids r);
  ok_windows_under : under "win-" (rd_win r) (rd_window_ids r) }.

(** The reader went from [r] to [r'] with these panes, tabs and windows. *)
Record reads (r : Reader) (ids tabs windows : list string) (r' : Reader) : Prop := {
  reads_ok : reader_ok r -> reader_ok r';
  reads_placed : rd_placed r' = rd_placed r ++ ids;
  reads_tabs : rd_tab_ids r' = rd_tab_ids r ++ tabs;
  reads_windows : rd_window_ids r' = rd_window_ids r ++ windows }.

Lemma reads_nil r : reads r [] [] [] r.
Proof. split; [done|by rewrite app_nil_r..]. Qed.

Lemma reads_trans a b c p1 t1 w1 p2 t2 w2 :
  reads a p1 t1 w1 b -> reads b p2 t2 w2 c -> reads a (p1 ++ p2) (t1 ++ t2) (w1 ++ w2) c.
Proof. intros [H1 P1 T1 W1] [H2 P2 T2 W2]. split; [auto|..]; rewrite ?P2, ?P1, ?T2, ?T1, ?W2, ?W1; by rewrite (assoc_L (++)). Qed.

Lemma NoDup_snoc (l : list string) x : NoDup l -> x ∉ l -> NoDup (l ++ [x]).
Proof.
  intros Hl Hx. apply NoDup_app. split_and!; [done| |apply NoDup_singleton]. by intros y Hy ->%list_elem_of_singleton.
Qed.

Lemma reads_places r ids placed : places (rd_placed r) ids placed -> reads r ids [] [] (set_rd_placed r placed).
Proof.
  intros [-> Hnd Hk]. split; simpl; rewrite ?app_nil_r; try done. intros [H1 H2 H3 H4 H5 H6]. split; simpl; auto.
  intros x [?|?]%elem_of_app; auto.
Qed.

Lemma read_tab_spec count entry r :
  yields (read_tab panes count entry r) (fun '(tab, r') =>
    tab_wf tab /\ reads r (tab_panes tab) [tab_id tab] [] r').
Proof.
  unfold read_tab. cbv zeta. apply yields_bind, yields_ok_or. intros id _. apply yields_bind, yields_ok_or. intros tn Htn.
  destruct (contains (rd_tab_ids r) id) eqn:Hc; [done|]. apply contains_false in Hc.
  apply yields_bind. eapply yields_mono; [apply read_root_spec|]. intros [root placed] [Hw [-> Hnd Hk]]. simpl. split; [done|].
  simpl in *. split; simpl; rewrite ?app_nil_r; try done. intros [H1 H2 H3 H4 H5 H6]. split; simpl; auto.
  - intros x [?|?]%elem_of_app; auto.
  - by apply NoDup_snoc.
  - by apply under_snoc.
Qed.

Lemma read_tab_list_spec count saved r :
  yields (read_tab_list panes count saved r) (fun '(tabs, r') =>
    Forall tab_wf tabs /\ reads r (flat_map tab_panes tabs) (map tab_id tabs) [] r').
Proof.
  revert count r. induction saved as [|entry saved IH]; intros count r; simpl; [split; [constructor|apply reads_nil]|].
  apply yields_bind. eapply yields_mono; [apply read_tab_spec|]. intros [tab r1] [Hw Hr1]. apply yields_bind.
  eapply yields_mono; [apply IH|]. intros [tabs r2] [Hws Hr2]. simpl. split; [by constructor|].
  by apply (reads_trans _ r1 _ _ [tab_id tab] [] _ _ []).
Qed.

(** What a bar's reading gives. *)
Definition reads_bar (r : Reader) (ts : Tabs) (r' : Reader) : Prop :=
  tabs_wf ts /\ exists tabs, tab_ids ts ⊆+ tabs /\ reads r (tabs_panes ts) tabs [] r'.

Lemma read_tabs_spec item r : yields (read_tabs panes item r) (fun '(ts, r') => reads_bar r ts r').
Proof.
  unfold read_tabs. cbv zeta. apply yields_bind, yields_ok_or. intros saved _. apply yields_bind.
  eapply yields_mono; [apply read_tab_list_spec|]. intros [all r'] [Hw Hr]. cbn [yields]. split.
  - unfold tabs_wf. simpl. apply Forall_forall. intros tab [_ Hin]%elem_of_retain. by eapply Forall_forall.
  - exists (map tab_id all). split; [apply sublist_submseteq, (fmap_sublist tab_id), retain_sublist|].
    unfold tabs_panes. simpl. rewrite flat_map_retain; [done|]. intros tab. unfold has_root, tab_panes.
    by destruct (tab_root tab).
Qed.

Definition side_panes (d : option Dock) : list string := match d with Some d => [dock_pane d] | None => [] end.

Lemma read_side_spec item key owner what r :
  yields (read_side panes item key owner what r) (fun '(d, r') => reads r (side_panes d) [] [] r').
Proof.
  unfold read_side. destruct (d ← get item key; if is_null d then None else Some d) as [saved|]; [|apply reads_nil].
  apply yields_bind, yields_ok_or. intros pane (p & _ & Hp%known_Some)%bind_Some. apply yields_bind.
  eapply yields_mono; [by apply place_pane_spec|]. intros placed Hpl. simpl. by apply reads_places.
Qed.

Lemma read_background_spec item r :
  let '(background, r') := read_background panes item r in reads r background [] [] r'.
Proof.
  unfold read_background. generalize (omap as_str (array_at item "background")). intros saved.
  assert (forall placed, let '(b, placed') := read_background_from panes saved placed in places placed b placed') as Hb.
  { induction saved as [|id saved IH]; intros placed; simpl; [apply places_nil|].
    destruct (contains panes id && negb (contains placed id)) eqn:E; [|apply IH].
    apply andb_true_iff in E as [Hk%contains_true Hn%negb_true_iff%contains_false].
    specialize (IH (placed ++ [id])). destruct (read_background_from panes saved (placed ++ [id])) as [b placed'].
    apply (places_trans _ (placed ++ [id]) _ [id]); [by apply places_one|done]. }
  specialize (Hb (rd_placed r)). destruct (read_background_from panes saved (rd_placed r)) as [b placed'].
  by apply reads_places.
Qed.

Lemma read_window_spec item r :
  yields (read_window panes item r) (fun '(w, dock, _, r') =>
    tabs_wf (win_tabs w) /\ win_workspace w = None /\ exists tabs, tab_ids (win_tabs w) ⊆+ tabs /\
    reads r (tabs_panes (win_tabs w) ++ side_panes dock ++ side_panes (win_lead w)) tabs [win_id w] r').
Proof.
  unfold read_window. cbv zeta. apply yields_bind, yields_ok_or. intros id _. apply yields_bind, yields_ok_or. intros n Hn.
  destruct (contains (rd_window_ids r) id) eqn:Hc; [done|]. apply contains_false in Hc.
  assert (reads r [] [] [id] (see_window r id n)) as Hr.
  { split; simpl; rewrite ?app_nil_r; try done. intros [H1 H2 H3 H4 H5 H6]. split; simpl; auto; [by apply NoDup_snoc|].
    by apply under_snoc. }
  apply yields_bind. eapply yields_mono; [apply read_tabs_spec|]. intros [ts r1] (Hw & tabs & Hsub & Hr1).
  apply yields_bind. eapply yields_mono; [apply read_side_spec|]. intros [dock r2] Hr2.
  apply yields_bind. eapply yields_mono; [apply read_side_spec|]. intros [lead r3] Hr3. simpl.
  split_and!; [done|done|]. exists tabs. split; [done|].
  assert (side_panes ((fun d => mkDock (dock_pane d) ELeft (dock_width d) false) <$> lead) = side_panes lead) as ->
    by (by destruct lead).
  pose proof (reads_trans _ _ _ _ _ _ _ _ _ Hr (reads_trans _ _ _ _ _ _ _ _ _ Hr1 (reads_trans _ _ _ _ _ _ _ _ _ Hr2 Hr3))) as Hall.
  simpl in Hall. by rewrite !app_nil_r in Hall.
Qed.

Lemma settle_shape ts item side : same_shape ts (settle ts item side).
Proof. unfold settle. cbv zeta. by case_match. Qed.

(** ** Gathering windows and workspaces *)

(** What is gathered, as a layout. *)
Definition gathered (g : Gathered) : Model :=
  mkModel (ga_windows g) (ga_workspaces g ++ map planner_workspace (ga_planners g))
    (rd_tab (ga_reader g)) (rd_win (ga_reader g)) 0 (ga_orphans g) [].

Record gathered_ok (g : Gathered) : Prop := {
  ga_reader_ok : reader_ok (ga_reader g);
  ga_panes_ok : all_panes (gathered g) ⊆+ rd_placed (ga_reader g);
  ga_tabs_ok : all_tab_ids (gathered g) ⊆+ rd_tab_ids (ga_reader g);
  ga_windows_ok : win_ids (gathered g) = rd_window_ids (ga_reader g);
  ga_ws_ids_ok : map ws_id (ga_workspaces g) = ga_ws_ids g;
  ga_ws_nodup : NoDup (ga_ws_ids g);
  ga_planner_ids : Forall (fun p => number_in p.1.1 "ws-" = None) (ga_planners g);
  ga_trees_ok : Forall tabs_wf (bars (gathered g)) }.

(** What the layout holds, piece by piece. *)
Lemma gathered_panes_split g :
  all_panes (gathered g) ≡ₚ flat_map win_panes (ga_windows g) ++ flat_map ws_panes (ga_workspaces g)
    ++ map (fun p => dock_pane p.1.2) (ga_planners g) ++ flat_map tabs_panes (ga_orphans g).
Proof.
  unfold all_panes, placed, orphan_panes, gathered. simpl. rewrite flat_map_app, flat_map_map.
  assert (flat_map (fun p => ws_panes (planner_workspace p)) (ga_planners g) =
    map (fun p => dock_pane p.1.2) (ga_planners g)) as ->.
  { induction (ga_planners g) as [|[[id lead] zoom] l IH]; simpl; [done|]. by rewrite IH. }
  solve_Permutation.
Qed.

Lemma gathered_tabs_split g :
  all_tab_ids (gathered g) = flat_map (fun w => tab_ids (win_tabs w)) (ga_windows g) ++
    flat_map (fun ws => tab_ids (ws_tabs ws)) (ga_workspaces g) ++ flat_map tab_ids (ga_orphans g).
Proof.
  unfold all_tab_ids, bars, gathered. simpl. rewrite map_app, !flat_map_app, !flat_map_map.
  assert (flat_map (fun p => tab_ids (ws_tabs (planner_workspace p))) (ga_planners g) = []) as ->.
  { induction (ga_planners g) as [|[[id lead] zoom] l IH]; simpl; [done|]. by rewrite IH. }
  by rewrite app_nil_r.
Qed.

Lemma gathered_trees_split g :
  Forall tabs_wf (bars (gathered g)) <->
  Forall (fun w => tabs_wf (win_tabs w)) (ga_windows g) /\ Forall (fun ws => tabs_wf (ws_tabs ws)) (ga_workspaces g) /\
  Forall tabs_wf (ga_orphans g).
Proof.
  unfold bars, gathered. simpl. rewrite map_app, !Forall_app, !Forall_map. split; [tauto|]. intros (? & ? & ?).
  split_and!; try done. apply Forall_forall. intros [[id lead] zoom] _. constructor.
Qed.

Lemma planner_not_numbered id : number_in id "win-" ≠ None -> number_in (id +:+ "-planner") "ws-" = None.
Proof.
  intros Hn. destruct (number_in id "win-") as [n|] eqn:E; [|done]. apply number_in_name in E. subst id. clear Hn.
  destruct (number_in _ "ws-") eqn:E'; [|done]. by apply number_in_name in E'.
Qed.

Lemma desk_item_planners g id (desk : bool) lead zoom :
  number_in id "win-" ≠ None ->
  let planners := if desk then match lead with Some lead => ga_planners g ++ [(id +:+ "-planner", lead, zoom)] | None => ga_planners g end
                  else ga_planners g in
  map (fun p => dock_pane p.1.2) planners = map (fun p => dock_pane p.1.2) (ga_planners g) ++
    (if desk then side_panes lead else []) /\
  (Forall (fun p => number_in p.1.1 "ws-" = None) (ga_planners g) -> Forall (fun p => number_in p.1.1 "ws-" = None) planners).
Proof.
  intros Hn. simpl. destruct desk, lead as [d|]; simpl; rewrite ?map_app, ?app_nil_r; split; try done.
  intros Hp. apply Forall_app. split; [done|]. constructor; [|done]. by apply planner_not_numbered.
Qed.

(** A step that appends windows, workspaces, planners' panes and orphans. *)
Record appends (g g' : Gathered) (lw : list Window) (ls : list Workspace) (lp : list string) (lo : list Tabs) : Prop := {
  app_windows : ga_windows g' = ga_windows g ++ lw;
  app_workspaces : ga_workspaces g' = ga_workspaces g ++ ls;
  app_orphans : ga_orphans g' = ga_orphans g ++ lo;
  app_claimed : ga_ws_ids g' = ga_ws_ids g ++ map ws_id ls /\ (NoDup (ga_ws_ids g) -> NoDup (ga_ws_ids g'));
  app_planners : map (fun p => dock_pane p.1.2) (ga_planners g') = map (fun p => dock_pane p.1.2) (ga_planners g) ++ lp /\
    (Forall (fun p => number_in p.1.1 "ws-" = None) (ga_planners g) ->
     Forall (fun p => number_in p.1.1 "ws-" = None) (ga_planners g')) }.

Lemma appends_ok g g' lw ls lp lo ids tabs windows :
  gathered_ok g -> reads (ga_reader g) ids tabs windows (ga_reader g') -> appends g g' lw ls lp lo ->
  flat_map win_panes lw ++ flat_map ws_panes ls ++ lp ++ flat_map tabs_panes lo ⊆+ ids ->
  flat_map (fun w => tab_ids (win_tabs w)) lw ++ flat_map (fun ws => tab_ids (ws_tabs ws)) ls ++ flat_map tab_ids lo ⊆+ tabs ->
  map win_id lw = windows ->
  Forall (fun w => tabs_wf (win_tabs w)) lw -> Forall (fun ws => tabs_wf (ws_tabs ws)) ls -> Forall tabs_wf lo ->
  gathered_ok g'.
Proof.
  intros [H1 H2 H3 H4 H5 H6 H7 H8] [R1 R2 R3 R4] [Aw As Ao [Ac Ac'] [Ap Ap']] Hids Htabs Hwin Tw Ts To.
  split; auto.
  - rewrite R2. transitivity (all_panes (gathered g) ++ (flat_map win_panes lw ++ flat_map ws_panes ls ++ lp ++ flat_map tabs_panes lo));
      [|by apply submseteq_app].
    rewrite !gathered_panes_split, Aw, As, Ao, Ap, !flat_map_app. apply Permutation_submseteq. solve_Permutation.
  - rewrite R3, gathered_tabs_split in *.
    etransitivity; [|apply submseteq_app; [exact H3|exact Htabs]]. rewrite Aw, As, Ao, !flat_map_app.
    apply Permutation_submseteq. solve_Permutation.
  - unfold win_ids, gathered in *. simpl in *. by rewrite Aw, map_app, H4, R4, Hwin.
  - by rewrite As, Ac, map_app, H5.
  - rewrite !gathered_trees_split in *. rewrite Aw, As, Ao, !Forall_app. tauto.
Qed.

Lemma claim_ws_spec ids id :
  yields (claim_ws ids id) (fun ids' => ids' = ids ++ [id] /\ (NoDup ids -> NoDup ids')).
Proof.
  unfold claim_ws. destruct (contains ids id) eqn:E; simpl; [done|]. apply contains_false in E. split; [done|].
  intros Hnd. by apply NoDup_snoc.
Qed.

Lemma read_workspace_panes id item d ts place :
  ws_panes (read_workspace id item d ts place) ≡ₚ tabs_panes ts ++ [dock_pane d].
Proof. unfold ws_panes. simpl. rewrite (same_shape_panes _ _ (settle_shape _ _ _)). solve_Permutation. Qed.

Lemma left_at_panes ws t : ws_panes (set_ws_left_at ws t) = ws_panes ws.
Proof. done. Qed.

Lemma read_saved_window_spec g item :
  gathered_ok g -> yields (read_saved_window panes g item) gathered_ok.
Proof.
  intros Hg. unfold read_saved_window. apply yields_bind. eapply yields_mono; [apply read_window_spec|].
  intros [[[w dock] desk] r] (Hw & Hws & tabs & Hsub & Hr).
  assert (number_in (win_id w) "win-" ≠ None) as Hnum.
  { destruct (reads_ok _ _ _ _ _ Hr (ga_reader_ok _ Hg)) as [_ _ _ _ _ Hu].
    destruct (Hu (win_id w)) as (n & -> & _); [|done]. rewrite (reads_windows _ _ _ _ _ Hr). set_solver. }
  pose proof (desk_item_planners g (win_id w) desk (win_lead w) (is_true item "shelfZoom") Hnum) as Hpl.
  cbv zeta in Hpl |- *. set (planners := if desk then _ else _) in *.
  set (w1 := if desk then set_win_lead w None else w).
  assert (win_id w1 = win_id w /\ win_tabs w1 = win_tabs w /\
    lead_panes w1 ++ (if desk then side_panes (win_lead w) else []) = side_panes (win_lead w)) as (Hid & Ht & Hl).
  { unfold w1. destruct desk; simpl; [done|]. by rewrite app_nil_r. }
  rewrite <- Hl, <- Hid in Hr. rewrite <- Ht in Hr, Hsub, Hw.
  destruct dock as [d|].
  - apply yields_bind. eapply yields_mono; [apply claim_ws_spec|]. intros ids [-> Hn]. cbn [yields].
    eapply (appends_ok _ _ [_] [_] (if desk then side_panes (win_lead w) else []) []);
      [exact Hg|exact Hr|by split; cbn; rewrite ?app_nil_r|..]; cbn [flat_map map]; rewrite ?app_nil_r.
    + rewrite left_at_panes, read_workspace_panes. apply Permutation_submseteq. unfold win_panes. simpl. solve_Permutation.
    + simpl. by rewrite (same_shape_ids _ _ (settle_shape _ _ _)).
    + done.
    + repeat constructor.
    + constructor; [|done]. by eapply same_shape_wf; [apply settle_shape|].
    + done.
  - cbn [yields]. eapply (appends_ok _ _ [_] [] (if desk then side_panes (win_lead w) else []) []);
      [exact Hg|exact Hr|by split; cbn; rewrite ?app_nil_r|..]; cbn [flat_map map]; rewrite ?app_nil_r.
    + apply Permutation_submseteq. unfold win_panes. simpl. rewrite (same_shape_panes _ _ (settle_shape _ _ _)). solve_Permutation.
    + simpl. by rewrite (same_shape_ids _ _ (settle_shape _ _ _)).
    + done.
    + constructor; [|done]. by eapply same_shape_wf; [apply settle_shape|].
    + done.
    + done.
Qed.

(** The three ways a parked item, or a saved workspace, ends up in the layout. *)
Lemma gathered_workspace g item ts d r r' id ids background tabs ws :
  gathered_ok g -> tabs_wf ts -> tab_ids ts ⊆+ tabs ->
  reads (ga_reader g) (tabs_panes ts ++ [dock_pane d]) tabs [] r -> reads r background [] [] r' ->
  ids = ga_ws_ids g ++ [id] /\ (NoDup (ga_ws_ids g) -> NoDup ids) ->
  ws_id ws = id -> ws_tabs ws = settle ts item (Some (dock_pane d)) ->
  ws_panes ws ≡ₚ (tabs_panes ts ++ [dock_pane d]) ++ background ->
  gathered_ok (mkGathered (ga_windows g) (ga_workspaces g ++ [ws]) (ga_orphans g) ids (ga_planners g) r').
Proof.
  intros Hg Hw Hsub Hr Hr' [-> Hn] Hid Htabs Hp. pose proof (reads_trans _ _ _ _ _ _ _ _ _ Hr Hr') as Hr2.
  rewrite !app_nil_r in Hr2.
  eapply (appends_ok g _ [] [ws] [] []); [exact Hg|exact Hr2|..]; cbn [flat_map map]; rewrite ?app_nil_r; try done.
  - split; cbn; rewrite ?app_nil_r, ?Hid; done.
  - by rewrite app_nil_l, Hp.
  - by rewrite app_nil_l, Htabs, (same_shape_ids _ _ (settle_shape _ _ _)).
  - constructor; [|done]. rewrite Htabs. by eapply same_shape_wf; [apply settle_shape|].
Qed.

Lemma gathered_orphan g ts r tabs :
  gathered_ok g -> tabs_wf ts -> tab_ids ts ⊆+ tabs -> reads (ga_reader g) (tabs_panes ts) tabs [] r ->
  gathered_ok (mkGathered (ga_windows g) (ga_workspaces g) (ga_orphans g ++ [ts]) (ga_ws_ids g) (ga_planners g) r).
Proof.
  intros Hg Hw Hsub Hr.
  eapply (appends_ok g _ [] [] [] [ts]); [exact Hg|exact Hr|..]; cbn [flat_map map]; rewrite ?app_nil_r, ?app_nil_l; try done.
  - by split; cbn; rewrite ?app_nil_r.
  - by constructor.
Qed.

Lemma read_parked_spec g item : gathered_ok g -> yields (read_parked panes g item) gathered_ok.
Proof.
  intros Hg. unfold read_parked. apply yields_bind, yields_ok_or. intros id _. apply yields_bind.
  eapply yields_mono; [apply read_tabs_spec|]. intros [ts r] (Hw & tabs & Hsub & Hr). cbv zeta. apply yields_bind.
  eapply yields_mono; [apply read_side_spec|]. intros [dock r1] Hr1. pose proof (reads_trans _ _ _ _ _ _ _ _ _ Hr Hr1) as Hr2.
  destruct dock as [d|]; cbn [side_panes] in Hr2; rewrite ?app_nil_r in Hr2.
  - apply yields_bind. eapply yields_mono; [apply claim_ws_spec|]. intros ids Hids. cbn [yields].
    eapply (gathered_workspace g item ts d r1 r1 _ _ []); [done..|apply reads_nil|exact Hids|done|done|].
    by rewrite app_nil_r, left_at_panes, read_workspace_panes.
  - by eapply gathered_orphan.
Qed.

Lemma read_own_window_spec workspace g item :
  gathered_ok g -> yields (read_own_window panes workspace g item) gathered_ok.
Proof.
  intros Hg. unfold read_own_window. apply yields_bind. eapply yields_mono; [apply read_window_spec|].
  intros [[[w dock] desk] r] (Hw & Hws & tabs & Hsub & Hr). cbn [yields].
  eapply (appends_ok g _ [_] [] [] []); [exact Hg|exact Hr|by split; cbn; rewrite ?app_nil_r|..];
    cbn [flat_map map win_tabs win_panes]; rewrite ?app_nil_r; try done.
  - unfold win_panes. simpl. rewrite app_nil_r, (same_shape_panes _ _ (settle_shape _ _ _)). by apply submseteq_inserts_r.
  - by rewrite (same_shape_ids _ _ (settle_shape _ _ _)).
  - constructor; [|done]. by eapply same_shape_wf; [apply settle_shape|].
Qed.

Lemma gather_spec read g items :
  (forall g item, gathered_ok g -> yields (read g item) gathered_ok) -> gathered_ok g -> yields (gather read g items) gathered_ok.
Proof.
  intros Hr. revert g. induction items as [|item items IH]; intros g Hg; simpl; [done|].
  apply yields_bind. eapply yields_mono; [by apply Hr|]. auto.
Qed.

Lemma read_saved_workspace_spec g item : gathered_ok g -> yields (read_saved_workspace panes g item) gathered_ok.
Proof.
  intros Hg. unfold read_saved_workspace. apply yields_bind, yields_ok_or. intros id _. apply yields_bind.
  eapply yields_mono; [apply read_tabs_spec|]. intros [ts r] (Hw & tabs & Hsub & Hr). cbv zeta. apply yields_bind.
  eapply yields_mono; [apply read_side_spec|]. intros [dock r1] Hr1. pose proof (reads_trans _ _ _ _ _ _ _ _ _ Hr Hr1) as Hr2.
  apply yields_bind. apply (yields_mono _ gathered_ok);
    [|intros g' Hg'; apply gather_spec; [intros; by apply read_own_window_spec|done]].
  destruct dock as [d|]; cbn [side_panes] in Hr2; rewrite ?app_nil_r in Hr2.
  - apply yields_bind. eapply yields_mono; [apply claim_ws_spec|]. intros ids Hids.
    pose proof (read_background_spec item r1) as Hb. destruct (read_background panes item r1) as [b r2]. cbn [yields].
    eapply (gathered_workspace g item ts d r1 r2); [done..|exact Hb|exact Hids|done|done|].
    unfold ws_panes. simpl. rewrite (same_shape_panes _ _ (settle_shape _ _ _)). solve_Permutation.
  - by eapply gathered_orphan.
Qed.

(** ** Numbering the workspaces *)

Definition window_view (w : Window) : string * Tabs * option Dock := (win_id w, win_tabs w, win_lead w).

Record renumbered (next : N) (wss : list Workspace) (wins : list Window)
    (wss' : list Workspace) (wins' : list Window) (next' : N) : Prop := {
  ren_next : (next <= next')%N;
  ren_tabs : map ws_tabs wss' = map ws_tabs wss;
  ren_extras : map ws_extras wss' = map ws_extras wss;
  ren_windows : map window_view wins' = map window_view wins;
  ren_ids : forall x, x ∈ map ws_id wss' ->
    (x ∈ map ws_id wss /\ is_Some (number_in x "ws-")) \/ exists k, (next < k <= next')%N /\ x = ws_name_of k }.

Lemma map_view_workspace p id wins :
  map window_view (map (fun w => if p w : bool then set_win_workspace w id else w) wins) = map window_view wins.
Proof. rewrite map_map. apply map_ext. intros w. by destruct (p w). Qed.

Lemma number_workspaces_spec wss : forall next wins,
  let '(wss', wins', next') := number_workspaces next wss wins in renumbered next wss wins wss' wins' next'.
Proof.
  induction wss as [|ws wss IH]; intros next wins; simpl; [split; try done; by intros x ?%elem_of_nil|].
  destruct (number_in (ws_id ws) "ws-") as [n|] eqn:En.
  - specialize (IH next wins). destruct (number_workspaces next wss wins) as [[wss' wins'] next'].
    destruct IH as [H1 H2 H3 H4 H5]. split; simpl; rewrite ?H2, ?H3; try done.
    intros x [->|Hx]%elem_of_cons; [left; split; [left|by rewrite En]|].
    destruct (H5 x Hx) as [[? ?]|?]; [left; split; [by right|done]|by right].
  - set (wins1 := map _ wins). specialize (IH (next + 1)%N wins1).
    destruct (number_workspaces (next + 1) wss wins1) as [[wss' wins'] next'].
    destruct IH as [H1 H2 H3 H4 H5]. split; simpl; rewrite ?H2, ?H3; try done; [lia|by rewrite H4; apply map_view_workspace|].
    intros x [->|Hx]%elem_of_cons; [right; exists (next + 1)%N; split; [lia|done]|].
    destruct (H5 x Hx) as [[? ?]|(k & Hk & ->)]; [left; split; [by right|done]|right; exists k; split; [lia|done]].
Qed.

Definition numbered_ws (id : string) : bool := bool_decide (is_Some (number_in id "ws-")).

(** Every number already given is at most [c]. *)
Definition given_under (c : N) (ids : list string) : Prop :=
  forall x n, x ∈ ids -> number_in x "ws-" = Some n -> (n <= c)%N.

Lemma ws_name_inj n k : ws_name_of n = ws_name_of k -> n = k.
Proof. intros E%string_app_inj_l. by apply (inj pretty) in E. Qed.

(** A name yet to be given is none of the numbered ones, and none given later. *)
Lemma renumbered_fresh next wss wins wss' wins' next' n c :
  renumbered next wss wins wss' wins' next' -> given_under c (map ws_id wss) -> (c < n <= next)%N ->
  ws_name_of n ∉ map ws_id wss'.
Proof.
  intros [_ _ _ _ Hids] Hg Hn Hin. destruct (Hids _ Hin) as [[Hx [k Hk]]|(k & Hk & E%ws_name_inj)]; [|lia].
  pose proof (Hg _ _ Hx Hk). apply number_in_name in Hk. apply ws_name_inj in Hk. lia.
Qed.

Lemma number_workspaces_NoDup wss c : forall next wins,
  NoDup (retain numbered_ws (map ws_id wss)) -> given_under c (map ws_id wss) -> (c <= next)%N ->
  let '(wss', _, _) := number_workspaces next wss wins in NoDup (map ws_id wss').
Proof.
  induction wss as [|ws wss IH]; intros next wins Hnd Hg Hc; simpl; [constructor|].
  assert (given_under c (map ws_id wss)) as Hg' by (intros x n Hx; apply Hg; by right).
  destruct (number_in (ws_id ws) "ws-") as [n|] eqn:En.
  - assert (ws_id ws ∉ retain numbered_ws (map ws_id wss) /\ NoDup (retain numbered_ws (map ws_id wss))) as [Hnot Hnd'].
    { unfold retain in *. simpl in Hnd. unfold numbered_ws in Hnd at 1.
      rewrite bool_decide_eq_true_2 in Hnd by (by rewrite En). by apply NoDup_cons in Hnd. }
    pose proof (number_workspaces_spec wss next wins) as Hs. specialize (IH next wins Hnd' Hg' Hc).
    destruct (number_workspaces next wss wins) as [[wss' wins'] next']. simpl. constructor; [|done]. intros Hin.
    destruct (ren_ids _ _ _ _ _ _ Hs _ Hin) as [[Hx Hn]|(k & Hk & E)].
    + apply Hnot. apply elem_of_retain. split; [by apply bool_decide_eq_true|done].
    + pose proof (Hg (ws_id ws) n (list_elem_of_here _ _) En). apply number_in_name in En.
      rewrite E in En. apply ws_name_inj in En. lia.
  - assert (NoDup (retain numbered_ws (map ws_id wss))) as Hnd'.
    { unfold retain in *. simpl in Hnd. unfold numbered_ws in Hnd at 1.
      rewrite bool_decide_eq_false_2 in Hnd by (rewrite En; by intros []). done. }
    set (wins1 := map _ wins). pose proof (number_workspaces_spec wss (next + 1) wins1) as Hs.
    assert (c <= next + 1)%N as Hc' by lia. specialize (IH (next + 1)%N wins1 Hnd' Hg' Hc').
    destruct (number_workspaces (next + 1) wss wins1) as [[wss' wins'] next']. simpl. constructor; [|done].
    eapply renumbered_fresh; [exact Hs|exact Hg'|lia].
Qed.

Lemma foldl_max_le l c : (c <= foldl N.max c l)%N /\ forall n, n ∈ l -> (n <= foldl N.max c l)%N.
Proof.
  revert c. induction l as [|x l IH]; intros c; simpl; [split; [lia|by intros n ?%elem_of_nil]|].
  destruct (IH (N.max c x)) as [H1 H2]. split; [lia|]. intros n [->|Hn]%elem_of_cons; [lia|auto].
Qed.

(** ** The whole *)

(** A layout with the tab bars, ids and leads of what was gathered is as sound. *)
Lemma gathered_wf g l wss tabs wins wsn orphans desks :
  gathered_ok g -> map window_view l = map window_view (ga_windows g) ->
  map ws_tabs wss = map ws_tabs (m_workspaces (gathered g)) ->
  map ws_extras wss = map ws_extras (m_workspaces (gathered g)) ->
  NoDup (map ws_id wss) -> fresh_above ws_name_of wsn (map ws_id wss) ->
  (rd_tab (ga_reader g) <= tabs)%N -> (rd_win (ga_reader g) <= wins)%N -> orphans = ga_orphans g ->
  let m := mkModel l wss tabs wins wsn orphans desks in
  ids_wf m /\ all_panes m ⊆+ rd_placed (ga_reader g).
Proof.
  intros [H1 H2 H3 H4 H5 H6 H7 H8] Hl Ht Hx Hnd Hfresh Htab Hwin -> m.
  assert (forall B (f : string * Tabs * option Dock -> B), map (fun w => f (window_view w)) l =
    map (fun w => f (window_view w)) (ga_windows g)) as Hv by (intros B f; by rewrite <- !(map_map window_view), Hl).
  assert (bars m = bars (gathered g)) as Hb.
  { unfold bars. simpl. rewrite Ht. f_equal. apply (Hv _ (fun v => v.1.2)). }
  assert (win_ids m = win_ids (gathered g)) as Hi by apply (Hv _ (fun v => v.1.1)).
  assert (extras m = extras (gathered g)) as He.
  { unfold extras. rewrite !flat_map_concat_map. simpl. rewrite Hx. do 2 f_equal.
    apply (Hv _ (fun v => match v.2 with Some d => [dock_pane d] | None => [] end)). }
  split; [|etransitivity; [|exact H2]; rewrite !all_panes_split; unfold bar_panes; by rewrite Hb, He].
  destruct H1 as [_ _ Hti Hwi Htu Hwu]. split; unfold all_tab_ids; rewrite ?Hb, ?Hi, ?H4; try done.
  - eapply NoDup_under; [exact Hti|exact H3].
  - eapply fresh_above_mono; [exact (under_fresh "tab-" _ tabs _ Htu Htab)|done|]. intros x Hx'. eapply elem_of_submseteq; [exact Hx'|exact H3].
  - exact (under_fresh "win-" _ wins _ Hwu Hwin).
Qed.

(** Orphans that hold no pane are dropped. *)
Lemma adopt_bare m ts : tabs_wf ts -> tabs_panes ts = [] -> adopt m ts = m.
Proof.
  intros Hwf Hn. destruct (adopt_cases m ts) as [[_ ?]|[Hne _]]; [done|]. destruct Hne.
  assert (tabs_tabs (tidy ts) = retain has_root (tabs_tabs ts)) as -> by (unfold tidy; cbv zeta; by case_match).
  apply elem_of_nil_inv. intros t [Hr Ht]%elem_of_retain. unfold has_root in Hr. destruct (tab_root t) as [root|] eqn:Er; [|done].
  unfold tabs_wf in Hwf. rewrite Forall_forall in Hwf. pose proof (collect_non_empty root (Hwf t Ht root Er)) as Hc.
  unfold tabs_panes in Hn. destruct (collect root) as [|x l] eqn:Ec; [done|].
  apply (not_elem_of_nil x). rewrite <- Hn. apply elem_of_flat_map. exists t. split; [done|]. unfold tab_panes, pane_ids. rewrite Er, Ec. left.
Qed.

Lemma foldl_adopt_bare l m : Forall tabs_wf l -> flat_map tabs_panes l = [] -> foldl adopt m l = m.
Proof.
  induction l as [|ts l IH]; simpl; [done|]. intros [Hwf Hl]%Forall_cons [Hn Hr]%app_eq_nil. rewrite adopt_bare by done. by apply IH.
Qed.

Lemma install_bare m saved :
  ids_wf m -> orphan_panes m = [] -> saved_install m saved = saved_install (set_orphans m []) saved.
Proof.
  intros [_ _ _ _ _ _ Hb] Hn. unfold bars in Hb. rewrite !Forall_app in Hb. destruct Hb as (_ & _ & Ho).
  unfold saved_install, drop_empty. cbn [set_orphans m_orphans m_tab_counter m_win_counter m_ws_counter m_desks app].
  unfold settle_all, free_gone. cbn [set_windows set_workspaces m_orphans m_windows m_workspaces m_tab_counter m_win_counter m_ws_counter m_desks set_orphans].
  rewrite foldl_app, (foldl_adopt_bare (m_orphans m)) by done. done.
Qed.

Lemma finish_read_spec g c m :
  gathered_ok g -> m_orphans m = [] ->
  let m' := saved_install m (finish_read c g) in
  model_wf m' /\ tidy_model m' /\ all_panes m' ⊆+ rd_placed (ga_reader g).
Proof.
  intros Hg Ho. unfold saved_install, finish_read. cbv zeta.
  set (wss := ga_workspaces g ++ _). set (wins := map _ (ga_windows g)). set (next := foldl _ _ _).
  assert (given_under next (map ws_id wss)) as Hgiven.
  { intros x n (ws & -> & Hws)%list_elem_of_fmap Hn. apply foldl_max_le. apply list_elem_of_omap. by exists ws. }
  assert (NoDup (retain numbered_ws (map ws_id wss))) as Hnd.
  { unfold wss. rewrite map_app, retain_app, (ga_ws_ids_ok _ Hg), (retain_none _ (map ws_id (map _ _))), app_nil_r.
    - eapply NoDup_under; [apply (ga_ws_nodup _ Hg)|apply sublist_submseteq, retain_sublist].
    - rewrite map_map, Forall_map. eapply Forall_impl; [apply (ga_planner_ids _ Hg)|]. intros [[id d] z]. simpl.
      intros E. apply bool_decide_eq_false. rewrite E. by intros []. }
  pose proof (number_workspaces_spec wss next wins) as Hs.
  pose proof (number_workspaces_NoDup wss next next wins Hnd Hgiven (N.le_refl _)) as Hnd'.
  destruct (number_workspaces next wss wins) as [[wss' wins'] next'] eqn:Enum. destruct Hs as [S1 S2 S3 S4 S5].
  cbn [saved_layout rs_windows rs_workspaces rs_orphans rs_tab rs_win rs_ws]. rewrite Ho, app_nil_l.
  destruct (gathered_wf g wins' wss' (N.max (m_tab_counter m) (rd_tab (ga_reader g)))
    (N.max (m_win_counter m) (rd_win (ga_reader g))) (N.max (m_ws_counter m) next') (ga_orphans g) (m_desks m) Hg)
    as [Hids Hpanes]; try done; try lia.
  { rewrite S4. unfold wins. rewrite map_map. apply map_ext. intros w. destruct (win_workspace w) as [id|]; [|done].
    by destruct (contains _ id). }
  { intros n Hn Hin. destruct (S5 _ Hin) as [[Hx [k Hk]]|(k & Hk & E%ws_name_inj)]; [|lia].
    pose proof (Hgiven _ _ Hx Hk). apply number_in_name, ws_name_inj in Hk. lia. }
  destruct (drop_windows_spec (mkModel wins' wss' (N.max (m_tab_counter m) (rd_tab (ga_reader g)))
    (N.max (m_win_counter m) (rd_win (ga_reader g))) (N.max (m_ws_counter m) next') (ga_orphans g) (m_desks m)))
    as [Hp Hids']. specialize (Hids' Hids). rewrite <- Hp in Hpanes.
  destruct (drop_empty_spec _ Hids') as (Hperm & Hwf & Htidy).
  assert (all_panes (drop_empty (set_windows (mkModel wins' wss' (N.max (m_tab_counter m) (rd_tab (ga_reader g)))
    (N.max (m_win_counter m) (rd_win (ga_reader g))) (N.max (m_ws_counter m) next') (ga_orphans g) (m_desks m))
    (retain window_kept wins'))) ⊆+ rd_placed (ga_reader g)) as Hsub by (by rewrite Hperm).
  split_and!; [split; [done|]|done|done]. eapply NoDup_under; [|exact Hsub]. apply Hg.
Qed.

(** Reading never panics; what it gives names only known panes, each once, and installed on
    a layout whose orphans hold no pane it is a layout in order. *)
Lemma saved_read_spec state :
  yields (saved_read panes state) (fun saved =>
    NoDup (saved_placed saved) /\ (forall x, x ∈ saved_placed saved -> x ∈ panes) /\
    forall m, ids_wf m -> orphan_panes m = [] -> let m' := saved_install m saved in
      model_wf m' /\ tidy_model m' /\ all_panes m' ⊆+ saved_placed saved).
Proof.
  unfold saved_read. cbv zeta. apply yields_bind, yields_ok_or. intros windows _.
  set (g0 := mkGathered _ _ _ _ _ _).
  assert (gathered_ok g0) as Hg0.
  { split; try done; try constructor; simpl; try done; try constructor; by intros x ?%elem_of_nil. }
  apply yields_bind. eapply yields_mono; [apply gather_spec; [apply read_saved_window_spec|exact Hg0]|]. intros g1 Hg1.
  apply yields_bind. eapply yields_mono; [apply gather_spec; [apply read_parked_spec|exact Hg1]|]. intros g2 Hg2.
  apply yields_bind. eapply yields_mono; [apply gather_spec; [apply read_saved_workspace_spec|exact Hg2]|]. intros g3 Hg3.
  cbn [yields]. set (c := default 0%N _).
  assert (saved_placed (finish_read c g3) = rd_placed (ga_reader g3)) as ->.
  { unfold finish_read. by destruct (number_workspaces _ _ _) as [[? ?] ?]. }
  destruct (ga_reader_ok _ Hg3) as [Hnd Hk _ _ _ _]. split_and!; [done|done|]. intros m Hwf Ho. rewrite install_bare by done.
  by apply finish_read_spec.
Qed.
End Read.
