(* ===== verification/Layout.v ===== *)
(** * The layout service: [crates/kanna-mux/src/layout.rs]

    [LayoutHost] is the trait: a class of the operations a layout gives the daemon.
    [serve] answers one request of the daemon with them; it knows nothing else of the
    layout. *)

From S2P Require Import Prelude Text F64 Json Pane Panes State Tree Tabs Workspace.

Inductive SplitSide := SRight | SDown | SAuto.

#[export] Instance SplitSide_eq_dec : EqDecision SplitSide.
Proof. solve_decision. Defined.

Record Placement := mkPlacement {
  at_window : option string;
  at_workspace : option string;
  at_split : SplitSide;
  at_size : f64;
  at_new_tab : bool;
  at_dock : option Edge;
  at_frozen : bool;
  at_from : option string;
  at_opener : option string;
  at_app : option string;
  at_shelf : bool;
  at_lead : bool;
  at_planner : bool;
  at_quiz : bool;
  at_background : bool }.

Definition placement_default : Placement :=
  mkPlacement None None SAuto f_half_ false None false None None None false false false false false.

Record Spot := mkSpot {
  spot_window : option string;
  spot_tab : option string;
  spot_dock : option Edge;
  spot_workspace : Value;
  spot_background : bool }.

Inductive Scope :=
| ScopeTab (tab : string)
| ScopeWindow (window : option string)
| ScopeTask (task : string).

(** ** The trait *)

Class LayoutHost (T : Type) := {
  host_saved : Type;
  host_saved_placed : host_saved -> list string;
  host_commands : list string;
  host_features : list string;
  host_place : string -> Placement -> Panes -> act T (option string);
  host_location : string -> act T (option Spot);
  host_panes_in : Scope -> act T (list string);
  host_background_of : string -> act T (list string);
  host_remove : string -> act T unit;
  host_remember : act T unit;
  host_showing : string -> list string -> act T (option string);
  host_dock_of : string -> act T (option string);
  host_close_task : string -> act T unit;
  host_tidy : act T unit;
  host_command : string -> Value -> Panes -> act T Map;
  host_windows : Panes -> act T Value;
  host_workspaces : Panes -> act T Value;
  host_desks : act T Value;
  host_hidden_windows : Panes -> act T Value;
  host_export_state : act T Map;
  host_read_state : Value -> list string -> act T host_saved;
  host_install_state : host_saved -> act T unit;
  host_retitle : Panes -> act T bool }.

(** ** Requests *)

Definition split_name (split : SplitSide) : string :=
  match split with SRight => "right" | SDown => "down" | SAuto => "auto" end.

Definition pane_entry (p : Pane) : Value := JObject (pane_record p).

Definition at_json (a : Placement) : Map :=
  flag "frozen" (at_frozen a) ++ flag "shelf" (at_shelf a) ++ flag "lead" (at_lead a)
  ++ flag "planner" (at_planner a) ++ flag "quiz" (at_quiz a) ++ flag "background" (at_background a)
  ++ opt_field "app" (JString <$> at_app a) ++ opt_field "from" (JString <$> at_from a)
  ++ opt_field "opener" (JString <$> at_opener a)
  ++ opt_field "dock" ((fun e => JString (edge_as_str e)) <$> at_dock a)
  ++ opt_field "window" (JString <$> at_window a) ++ opt_field "workspace" (JString <$> at_workspace a)
  ++ (if decide (at_split a = SAuto) then [] else [("split", JString (split_name (at_split a)))])
  ++ (if feq (at_size a) f_half_ then [] else [("size", num (at_size a))])
  ++ flag "tab" (at_new_tab a).

Definition place_request (p : Pane) (a : Placement) : Value :=
  obj [("op", JString "place"); ("pane", pane_entry p); ("at", JObject (at_json a))].

Definition scope_request (scope : Scope) : Value :=
  match scope with
  | ScopeTab tab => obj [("op", JString "panes-in"); ("tab", JString tab)]
  | ScopeWindow window => obj [("op", JString "panes-in"); ("window", opt window)]
  | ScopeTask task => obj [("op", JString "panes-in"); ("task", JString task)]
  end.

Definition bad_layout (message : string) : KmuxError := mkError "bad_request" ("bad layout request: " +:+ message).

Definition ids_of (value : option Value) : res (list string) :=
  let? list := ok_or (v ← value; as_array v) (bad_layout "needs a list of panes") in
  res_mapM (fun id => ok_or (as_str id) (bad_layout "pane ids are strings")) list.

Definition placement (a : Value) : res Placement :=
  let? split := match string_of a "split" with
                | None => Ok SAuto
                | Some s => if decide (s = "auto") then Ok SAuto
                            else if decide (s = "right") then Ok SRight
                            else if decide (s = "down") then Ok SDown
                            else Err (bad_layout "split must be right, down or auto")
                end in
  let? size := match get a "size" with
               | None => Ok f_half_
               | Some size => ok_or (s ← as_f64 size; if flt f0 s && flt s f1 then Some s else None)
                                (bad_layout "size must be a fraction between 0 and 1")
               end in
  let? dock := match edge_read (get a "dock") with
               | Ok d => Ok d
               | _ => Err (bad_layout "dock must be left or right")
               end in
  Ok (mkPlacement (string_of a "window") (string_of a "workspace") split size (is_true a "tab") dock
        (is_true a "frozen") (string_of a "from") (string_of a "opener") (string_of a "app")
        (is_true a "shelf") (is_true a "lead") (is_true a "planner") (is_true a "quiz") (is_true a "background")).

Definition set_pane_read (p : Pane) (st : PaneState) (error : option string) : Pane :=
  mkPane (pane_id p) (pane_name p) (pane_kind p) st (pane_exit_code p)
    error (pane_command p) (pane_cwd p) (pane_opened_in p) (pane_url p)
    (pane_title p) (pane_app p) (pane_device p) (pane_path p) (pane_line p) (pane_comment p)
    (pane_tour p) (pane_stop p) (pane_git_args p) (pane_view p) (pane_agent p)
    (pane_markup p) (pane_diff_base p) (pane_baud p) (pane_line_ending p) (pane_history p)
    (pane_session p) (pane_pid p) (pane_status p) (pane_hung_up p) (pane_terminal p).

Definition pane_table (panes : Panes) : Value := JArray (map pane_entry (panes_iter panes)).

Definition read_pane_entry (entry : Value) : res Pane :=
  let? id := ok_or (i ← string_of entry "id"; if str_is_empty i then None else Some i) (bad_layout "a pane has no id") in
  let? kind := ok_or (t ← string_of entry "type"; type_parse t) (bad_layout ("pane " +:+ id +:+ " has no known type")) in
  let pane := read_record entry id kind in
  let st := default (pane_state pane) (s ← string_of entry "state"; state_parse s) in
  Ok (set_pane_read pane st (string_of entry "error")).

Definition read_pane_table (table : Value) : res (list Pane) :=
  match as_array table with
  | None => Err (bad_layout "panes must be a list")
  | Some entries => res_mapM read_pane_entry entries
  end.

(** ** Serving a request *)

Definition spot_fields (spot : option Spot) (window : option string) : Map :=
  [("window", opt (or_else (s ← spot; spot_window s) window)); ("tab", opt (s ← spot; spot_tab s))]
  ++ opt_field "dock" ((fun e => JString (edge_as_str e)) <$> (s ← spot; spot_dock s))
  ++ flag "background" (match spot with Some s => spot_background s | None => false end)
  ++ opt_field "workspace" (s ← spot; if is_null (spot_workspace s) then None else Some (spot_workspace s)).

(** [sort_by_key(|id| (id.len(), id.clone()))] *)
Definition shortlex_le (a b : string) : bool :=
  (String.length a <? String.length b)%nat || ((String.length a =? String.length b)%nat && string_le a b).
Fixpoint insert_sorted (x : string) (l : list string) : list string :=
  match l with
  | [] => [x]
  | y :: l => if shortlex_le x y then x :: y :: l else y :: insert_sorted x l
  end.
Definition sort_ids (l : list string) : list string := foldr insert_sorted [] l.

Section Serve.
Context {T : Type} `{LayoutHost T}.

Fixpoint act_each {A} (f : A -> act T unit) (l : list A) : act T unit :=
  match l with
  | [] => act_ret tt
  | x :: l => f x ;;; act_each f l
  end.

Definition step_place (request : Value) (panes : Panes) : act T Map :=
  let! pane := act_lift (ok_or (string_of (default JNull (get request "pane")) "id") (bad_layout "place needs a pane")) in
  let! a := act_lift (placement (default JNull (get request "at"))) in
  let! window := host_place pane a panes in
  let! spot := host_location pane in
  act_ret (spot_fields spot window).

Definition step_panes_in (request : Value) : act T Map :=
  match string_of request "tab", string_of request "task" with
  | Some tab, _ =>
    let! ids := host_panes_in (ScopeTab tab) in act_ret [("panes", JArray (map JString ids))]
  | None, Some task =>
    let! ids := host_panes_in (ScopeTask task) in
    let! background := host_background_of task in
    act_ret [("panes", JArray (map JString ids)); ("background", JArray (map JString background))]
  | None, None =>
    let! ids := host_panes_in (ScopeWindow (string_of request "window")) in
    act_ret [("panes", JArray (map JString ids))]
  end.

Definition step_remove (request : Value) : act T Map :=
  (match string_of request "task" with Some task => host_close_task task | None => act_ret tt end) ;;;
  let! ids := act_lift (ids_of (get request "ids")) in
  act_each host_remove ids ;;;
  (if is_true request "tidy" then host_tidy else act_ret tt) ;;;
  act_ret [].

Definition step_windows (panes : Panes) : act T Map :=
  let! windows := host_windows panes in
  let! workspaces := host_workspaces panes in
  let! hidden := (if is_null workspaces then act_ret [] else
    let! hidden := host_hidden_windows panes in
    act_ret [("workspaces", workspaces); ("hiddenWindows", hidden)]) in
  let! desks := host_desks in
  act_ret ([("windows", windows)] ++ hidden ++ (if is_null desks then [] else [("desks", desks)])).

(** [check] and [install] *)
Definition step_state (install : bool) (request : Value) : act T Map :=
  let! known := act_lift (ids_of (get request "ids")) in
  let! saved := host_read_state (default JNull (get request "state")) known in
  let placed := sort_ids (host_saved_placed saved) in
  (if install then host_install_state saved else act_ret tt) ;;;
  act_ret [("placed", JArray (map JString placed))].

Definition step (request : Value) (panes : Panes) : act T Map :=
  let op := default "" (string_of request "op") in
  if decide (op = "place") then step_place request panes
  else if decide (op = "location") then
    let! spot := match string_of request "pane" with Some pane => host_location pane | None => act_ret None end in
    act_ret (spot_fields spot None)
  else if decide (op = "showing") then
    let! from := act_lift (ok_or (string_of request "from") (bad_layout "showing needs from")) in
    let! among := act_lift (ids_of (get request "among")) in
    let! pane := host_showing from among in
    act_ret [("pane", opt pane)]
  else if decide (op = "dock-of") then
    let! pane := act_lift (ok_or (string_of request "pane") (bad_layout "dock-of needs a pane")) in
    let! dock := host_dock_of pane in
    act_ret [("dock", opt dock)]
  else if decide (op = "panes-in") then step_panes_in request
  else if decide (op = "remove") then step_remove request
  else if decide (op = "command") then
    let cmd := default "" (string_of request "cmd") in
    if contains host_commands cmd then host_command cmd (default JNull (get request "args")) panes
    else act_fail (mkError "bad_request" ("unknown command " +:+ in_quotes cmd))
  else if decide (op = "windows") then step_windows panes
  else if decide (op = "export") then host_export_state
  else if decide (op = "check") then step_state false request
  else if decide (op = "install") then step_state true request
  else act_fail (bad_layout ("unknown op " +:+ in_quotes op)).

(** [serve]: the reply is the step's, error or not, after the tabs are named anew and the
    recent panes noted. *)
Definition serve (request : Value) (panes : Panes) : act T Map :=
  let! _ := host_retitle panes in
  fun s =>
    match step request panes s with
    | (Panic, s) => (Panic, s)
    | (result, s) => (let! _ := host_retitle panes in host_remember ;;; act_lift result) s
    end.
End Serve.
