(* ===== verification/Service.v ===== *)
(** * The layout service against its host's laws

    [LayoutLaws] is what a layout promises: which panes it has, and what each operation of
    the trait does to them.  [serve] is proved against these laws alone; [HostLaws] shows
    that [Model] has them. *)

From S2P Require Import Prelude Text F64 Json Pane Panes State Tree Tabs Workspace Layout.

(** The same panes, in a state the invariant holds of. *)
Definition same_panes {T} (inv : T -> Prop) (panes_of : T -> list string) (s s' : T) : Prop :=
  inv s' /\ panes_of s' ≡ₚ panes_of s.

(** An operation that answers and changes nothing, and one that changes no pane; neither
    fails or panics. *)
Definition asks {T A} (op : act T A) (s : T) : Prop := runs False (fun _ => False) op (fun _ => eq s) s.

Class LayoutLaws (T : Type) `{LayoutHost T} := {
  law_inv : T -> Prop;
  law_panes : T -> list string;
  law_place pane a panes s :
    law_inv s -> pane ∉ law_panes s ->
    runs False (same_panes law_inv law_panes s) (host_place pane a panes)
      (fun _ s' => law_inv s' /\ law_panes s' ≡ₚ pane :: law_panes s) s;
  law_remove pane s :
    law_inv s ->
    runs False (fun _ => False) (host_remove pane)
      (fun _ s' => law_inv s' /\ forall x, x ∈ law_panes s' <-> x ∈ law_panes s /\ x ≠ pane) s;
  law_close_task task s :
    law_inv s ->
    runs False (fun _ => False) (host_close_task task) (fun _ s' => law_inv s' /\ law_panes s' ⊆+ law_panes s) s;
  law_panes_in scope s :
    law_inv s ->
    runs False (same_panes law_inv law_panes s) (host_panes_in scope) (fun _ => same_panes law_inv law_panes s) s;
  law_tidy s : law_inv s -> runs False (fun _ => False) host_tidy (fun _ => same_panes law_inv law_panes s) s;
  law_retitle panes s :
    law_inv s -> runs False (fun _ => False) (host_retitle panes) (fun _ => same_panes law_inv law_panes s) s;
  law_remember s : law_inv s -> runs False (fun _ => False) host_remember (fun _ => same_panes law_inv law_panes s) s;
  law_command cmd args panes s :
    law_inv s -> runs True law_inv (host_command cmd args panes) (fun _ => law_inv) s;
  law_location pane s : law_inv s -> asks (host_location pane) s;
  law_background_of task s : law_inv s -> asks (host_background_of task) s;
  law_showing from among s : law_inv s -> asks (host_showing from among) s;
  law_dock_of pane s : law_inv s -> asks (host_dock_of pane) s;
  law_windows panes s : law_inv s -> asks (host_windows panes) s;
  law_workspaces panes s : law_inv s -> asks (host_workspaces panes) s;
  law_desks s : law_inv s -> asks host_desks s;
  law_hidden_windows panes s : law_inv s -> asks (host_hidden_windows panes) s;
  law_export_state s : law_inv s -> asks host_export_state s;
  law_read_state state panes s :
    law_inv s -> runs False (eq s) (host_read_state state panes) (fun _ => eq s) s }.

Section Laws.
Context {T : Type} `{LayoutLaws T}.

Abbreviation same := (same_panes law_inv law_panes).

Lemma same_panes_refl s : law_inv s -> same s s.
Proof. done. Qed.

Lemma same_panes_trans a b c : same a b -> same b c -> same a c.
Proof. intros [_ H1] [Hi H2]. split; [done|]. by rewrite H2. Qed.

(** The laws, used in the middle of a run. *)
Lemma runs_ask {A} (op : act T A) (P : Prop) (E : T -> Prop) (Q : A -> T -> Prop) s :
  asks op s -> (forall a, Q a s) -> runs P E op Q s.
Proof. intros Hr HQ. eapply runs_mono; [exact Hr|done|done|]. by intros a s' <-. Qed.

Lemma runs_same {A} (op : act T A) (P : Prop) (E : T -> Prop) (s0 : T) (Q : A -> T -> Prop) s :
  same s0 s -> runs False (fun _ => False) op (fun _ => same s) s ->
  (forall a s', same s0 s' -> Q a s') -> runs P E op Q s.
Proof.
  intros Hs Hr HQ. eapply runs_mono; [exact Hr|done|done|]. intros a s' Hs'. apply HQ. by eapply same_panes_trans.
Qed.

(** ** Steps *)

(** The pane a [place] request names. *)
Definition placing (request : Value) : option string := string_of (default JNull (get request "pane")) "id".

Lemma placement_total a : placement a ≠ Panic.
Proof.
  unfold placement.
  destruct (string_of a "split"); cbn [res_bind]; repeat (case_decide; cbn [res_bind]); try done;
    (destruct (get a "size") as [v|]; cbn [res_bind];
     [destruct (s0 ← as_f64 v; if flt f0 s0 && flt s0 f1 then Some s0 else None); cbn [ok_or res_bind]; [|done]|]);
    by destruct (edge_read (get a "dock")).
Qed.

Lemma ids_of_total v : ids_of v ≠ Panic.
Proof.
  unfold ids_of. destruct (v ≫= as_array) as [l|]; cbn [ok_or res_bind]; [|done].
  induction l as [|x l IH]; simpl; [done|]. destruct (as_str x); simpl; [|done]. by destruct (res_mapM _ l).
Qed.

Lemma runs_ids_of (P : Prop) (E : T -> Prop) v (Q : list string -> T -> Prop) s :
  E s -> (forall ids, ids_of v = Ok ids -> Q ids s) -> runs P E (act_lift (ids_of v)) Q s.
Proof. intros HE HQ. apply runs_lift; [auto|done|]. by intros ?%ids_of_total. Qed.

Lemma step_place_runs request panes s :
  law_inv s -> (forall pane, placing request = Some pane -> pane ∉ law_panes s) ->
  runs False (same s) (step_place request panes)
    (fun _ s' => law_inv s' /\ exists pane, placing request = Some pane /\ law_panes s' ≡ₚ pane :: law_panes s) s.
Proof.
  intros Hi Hn. unfold step_place. fold (placing request). runs_step.
  apply runs_lift_ok_or; [done|]. intros pane Hp. runs_step.
  apply runs_lift; [|done|by intros ?%placement_total].
  intros a _. runs_step. eapply runs_weaken; [by apply law_place, Hn|]. intros w s1 [Hi1 Hp1]. runs_step.
  apply runs_ask; [by apply law_location|]. intros spot. runs_step. split; [done|]. by exists pane.
Qed.

Lemma act_each_remove ids s :
  law_inv s ->
  runs False (fun _ => False) (act_each host_remove ids)
    (fun _ s' => law_inv s' /\ forall x, x ∈ law_panes s' <-> x ∈ law_panes s /\ x ∉ ids) s.
Proof.
  revert s. induction ids as [|id ids IH]; intros s Hi; simpl.
  - runs_step. split; [done|]. intros x. split; [|by intros [? _]]. intros Hx. split; [done|apply not_elem_of_nil].
  - runs_step. eapply runs_weaken; [by apply law_remove|]. intros [] s1 [Hi1 Hp1].
    eapply runs_weaken; [by apply IH|]. intros [] s2 [Hi2 Hp2]. split; [done|]. intros x.
    rewrite Hp2, Hp1, not_elem_of_cons. tauto.
Qed.

(** A removal takes out the panes it names, and with [task] the task's own. *)
Lemma step_remove_runs request s :
  law_inv s ->
  runs False (fun s' => law_inv s' /\ law_panes s' ⊆+ law_panes s /\ (exists e, ids_of (get request "ids") = Err e) /\
      (string_of request "task" = None -> s' = s)) (step_remove request)
    (fun _ s' => law_inv s' /\ (forall x, x ∈ law_panes s' -> x ∈ law_panes s) /\
       exists ids, ids_of (get request "ids") = Ok ids /\ (forall x, x ∈ ids -> x ∉ law_panes s') /\
         (string_of request "task" = None -> forall x, x ∈ law_panes s -> x ∉ ids -> x ∈ law_panes s')) s.
Proof.
  intros Hi. unfold step_remove. runs_step.
  apply (runs_weaken _ _ _ (fun _ s1 => law_inv s1 /\ law_panes s1 ⊆+ law_panes s /\
    (string_of request "task" = None -> s1 = s))).
  { destruct (string_of request "task") as [task|]; [|by runs_step].
    eapply runs_mono; [by apply law_close_task|done|done|]. by intros [] s1 [? ?]. }
  intros [] s1 (Hi1 & Hsub & Heq). runs_step. apply runs_lift; [|by eauto|by intros ?%ids_of_total]. intros ids Hids. runs_step.
  eapply runs_mono; [by apply act_each_remove|done|done|]. intros [] s2 [Hi2 Hp2]. runs_step.
  apply (runs_weaken _ _ _ (fun _ => same s2)).
  { destruct (is_true request "tidy"); [|by runs_step]. eapply runs_mono; [by apply law_tidy|done|done|done]. }
  intros [] s3 [Hi3 Hp3]. runs_step. split; [done|]. split.
  - intros x. rewrite Hp3, Hp2. intros [Hx _]. by eapply elem_of_submseteq.
  - exists ids. split_and!; [done|..].
    + intros x Hx. rewrite Hp3, Hp2. tauto.
    + intros Ht x Hx Hn. rewrite Hp3, Hp2, (Heq Ht). done.
Qed.

Lemma step_panes_in_runs request s :
  law_inv s -> runs False (same s) (step_panes_in request) (fun _ => same s) s.
Proof.
  intros Hi. unfold step_panes_in. destruct (string_of request "tab") as [tab|], (string_of request "task") as [task|]; runs_step;
    (eapply runs_weaken; [by apply law_panes_in|]); intros ids s1 Hs1; try by runs_step.
  runs_step. apply runs_ask; [apply law_background_of, Hs1|]. intros b. by runs_step.
Qed.

Lemma step_windows_runs panes s :
  law_inv s -> runs False (same s) (step_windows panes) (fun _ => same s) s.
Proof.
  intros Hi. unfold step_windows. runs_step. apply runs_ask; [by apply law_windows|]. intros w. runs_step.
  apply runs_ask; [by apply law_workspaces|]. intros ws. runs_step. apply (runs_weaken _ _ _ (fun _ => eq s)).
  { destruct (is_null ws); [by runs_step|]. runs_step. apply runs_ask; [by apply law_hidden_windows|]. intros hw. by runs_step. }
  intros hidden s' <-. runs_step. apply runs_ask; [by apply law_desks|]. intros d. by runs_step.
Qed.

(** The request asks for the state to be installed. *)
Definition installing (request : Value) : Prop := string_of request "op" = Some "install".
Definition removing (request : Value) : Prop := string_of request "op" = Some "remove".
Definition commanding (request : Value) : Prop := string_of request "op" = Some "command".
Definition placing_op (request : Value) : Prop := string_of request "op" = Some "place".

Lemma op_is request op : op ≠ "" -> default "" (string_of request "op") = op -> string_of request "op" = Some op.
Proof. destruct (string_of request "op"); simpl; by intros ? <-. Qed.

Lemma step_is_place request panes : placing_op request -> step request panes = step_place request panes.
Proof. intros E. unfold step. by rewrite E. Qed.
Lemma step_is_remove request panes : removing request -> step request panes = step_remove request.
Proof. intros E. unfold step. by rewrite E. Qed.
Lemma step_is_command request panes :
  commanding request ->
  step request panes =
    (let cmd := default "" (string_of request "cmd") in
     if contains host_commands cmd then host_command cmd (default JNull (get request "args")) panes
     else act_fail (mkError "bad_request" ("unknown command " +:+ in_quotes cmd))).
Proof. intros E. unfold step. by rewrite E. Qed.
Lemma step_is_install request panes : installing request -> step request panes = step_state true request.
Proof. intros E. unfold step. by rewrite E. Qed.

(** A request that places, removes, commands and installs nothing changes no pane. *)
Lemma step_reads request panes s :
  law_inv s -> ¬ placing_op request -> ¬ removing request -> ¬ commanding request -> ¬ installing request ->
  runs False (same s) (step request panes) (fun _ => same s) s.
Proof.
  intros Hi Hp Hr Hc Hin. pose proof (same_panes_refl s Hi) as Hs. unfold step.
  case_decide as E; [by destruct Hp; apply op_is|]. case_decide as E1.
  { runs_step. destruct (string_of request "pane") as [pane|]; [|by runs_steps].
    apply runs_ask; [by apply law_location|]. intros sp. by runs_step. }
  case_decide as E2.
  { runs_step. apply runs_lift_ok_or; [done|]. intros from _. runs_step. apply runs_ids_of; [done|]. intros among _.
    runs_step. apply runs_ask; [by apply law_showing|]. intros p. by runs_step. }
  case_decide as E3.
  { runs_step. apply runs_lift_ok_or; [done|]. intros pane _. runs_step. apply runs_ask; [by apply law_dock_of|].
    intros d. by runs_step. }
  case_decide as E4; [by apply step_panes_in_runs|]. case_decide as E5; [by destruct Hr; apply op_is|].
  case_decide as E6; [by destruct Hc; apply op_is|]. case_decide as E7; [by apply step_windows_runs|].
  case_decide as E8; [by apply runs_ask; [apply law_export_state|]|]. case_decide as E9.
  { unfold step_state. runs_step. apply runs_ids_of; [done|]. intros known _. runs_step.
    eapply runs_mono; [by apply law_read_state|done|by intros s' <-|]. intros saved s' <-. by runs_steps. }
  case_decide as E10; [by destruct Hin; apply op_is|]. by runs_step.
Qed.

(** Any request but an installation keeps the invariant, on success and on failure. *)
Lemma step_inv request panes s :
  law_inv s -> ¬ installing request ->
  (placing_op request -> forall pane, placing request = Some pane -> pane ∉ law_panes s) ->
  runs True law_inv (step request panes) (fun _ => law_inv) s.
Proof.
  intros Hi Hin Hpl. destruct (decide (string_of request "op" = Some "place")) as [E|E].
  { rewrite step_is_place by done.
    eapply runs_mono; [by apply step_place_runs, Hpl|done|by intros s' [? _]|by intros a s' [? _]]. }
  destruct (decide (string_of request "op" = Some "remove")) as [E1|E1].
  { rewrite step_is_remove by done.
    eapply runs_mono; [by apply step_remove_runs|done|by intros s' [? _]|by intros a s' [? _]]. }
  destruct (decide (string_of request "op" = Some "command")) as [E2|E2].
  { rewrite step_is_command by done. cbv zeta. destruct (contains host_commands _); [|by runs_step]. by apply law_command. }
  eapply runs_mono; [by apply step_reads|done|by intros s' [? _]|by intros a s' [? _]].
Qed.

(** ** Serving *)

(** The tabs are named anew and the recent panes noted, and nothing else. *)
Definition noted (panes : Panes) (s s' : T) : Prop :=
  exists b s1, host_retitle panes s = (Ok b, s1) /\ host_remember s1 = (Ok tt, s').

(** After the step: the tabs are named anew and the recent panes noted. *)
Lemma serve_tail_runs (P : Prop) (E : T -> Prop) (Q : Map -> T -> Prop) panes result s :
  law_inv s -> result ≠ Panic ->
  (forall s', same s s' -> noted panes s s' -> match result with Ok a => Q a s' | _ => E s' end) ->
  runs P E (let! _ := host_retitle panes in host_remember ;;; act_lift result) Q s.
Proof.
  intros Hi Hr HQ. pose proof (law_retitle panes s Hi) as Ht. unfold runs, act_bind in Ht |- *.
  destruct (host_retitle panes s) as [[b|e|] s1] eqn:Er; [|done..]. pose proof (law_remember s1 (proj1 Ht)) as Hm.
  unfold runs in Hm. destruct (host_remember s1) as [[[]|e|] s2] eqn:Em; [|done..].
  specialize (HQ s2 (same_panes_trans _ _ _ Ht Hm)). unfold act_lift. destruct result; [| |done]; apply HQ; by exists b, s1.
Qed.

(** [serve] is its step between changes that keep every pane. *)
Lemma serve_notes request panes s (P : Prop) (E : T -> Prop) (Q : Map -> T -> Prop) :
  law_inv s ->
  (forall b s1, host_retitle panes s = (Ok b, s1) -> same s s1 ->
     runs P (fun s2 => law_inv s2 /\ forall s3, same s2 s3 -> noted panes s2 s3 -> E s3) (step request panes)
       (fun a s2 => law_inv s2 /\ forall s3, same s2 s3 -> noted panes s2 s3 -> Q a s3) s1) ->
  runs P E (serve request panes) Q s.
Proof.
  intros Hi Hstep. unfold serve. pose proof (law_retitle panes s Hi) as Hr. unfold runs, act_bind in Hr |- *.
  destruct (host_retitle panes s) as [[b|e|] s1] eqn:Er; [|done|done]. specialize (Hstep b s1 eq_refl Hr).
  unfold runs in Hstep. destruct (step request panes s1) as [[a|e|] s2]; [| |done]; destruct Hstep as [Hi2 HQ].
  - by apply (serve_tail_runs P E Q panes (Ok a) s2).
  - by apply (serve_tail_runs P E Q panes (Err e) s2).
Qed.

Lemma serve_runs request panes s (P : Prop) (E : T -> Prop) (Q : Map -> T -> Prop) :
  law_inv s ->
  (forall b s1, host_retitle panes s = (Ok b, s1) -> same s s1 ->
     runs P (fun s2 => law_inv s2 /\ forall s3, same s2 s3 -> E s3) (step request panes)
       (fun a s2 => law_inv s2 /\ forall s3, same s2 s3 -> Q a s3) s1) ->
  runs P E (serve request panes) Q s.
Proof.
  intros Hi Hstep. apply serve_notes; [done|]. intros b s1 Hr Hs. eapply runs_mono; [by apply (Hstep b)|done|..].
  - intros s2 [Hi2 HE]. split; auto.
  - intros a s2 [Hi2 HQ]. split; auto.
Qed.
End Laws.
