(* ===== verification/Host.v ===== *)
(** * [impl LayoutHost for Model]: [crates/kanna-mux/src/model.rs] *)

From S2P Require Import Prelude Text F64 Json Fraction Pane Panes State Tree Tabs Workspace Model Ops.
From S2P Require Import Commands Desk Saved Layout.

Definition model_commands : list string :=
  ["focus"; "zoom"; "rename-tab"; "move"; "move-tab"; "resize"; "arrange"; "task"; "window"; "desks"].
Definition model_features : list string := ["windows"; "tabs"; "fractionalSizing"; "zoom"; "dock"].

Section Host.
Context `{World}.

(** ** place *)

Definition place_background (pane : string) (a : Placement) (panes : Panes) : act Model (option string) :=
  let! reference := act_lift (ok_or (at_workspace a) (bad_request "a background terminal needs the task's workspace")) in
  let! m := get_model in
  let! s := act_lift (ok_or
    (s ← find_workspace m reference panes; ws ← m_workspaces m !! s; if is_task ws then Some s else None)
    (not_found (quoted "no task's workspace" reference))) in
  act_update (fun m => alter_workspace m s (fun ws => Some (set_ws_background ws (ws_background ws ++ [pane])))) ;;;
  act_ret None.

Definition app_of (a : Placement) : string := default MAC_APP (at_app a).

Definition place_planner (m : Model) (pane : string) (a : Placement) : Model :=
  let m := dock_workspace m pane ELeft (Planner (app_of a)) false in
  set_workspaces m (alter (fun ws => set_ws_left_at ws None) 0 (m_workspaces m)).

(** The pane a new one opens beside. *)
Definition place_reference (a : Placement) : option string := or_else (at_opener a) (at_from a).

(** Where a new pane goes: the holder, the tab and pane it opens beside, and whether it
    gets a tab of its own. *)
Definition place_holder (a : Placement) : act Model (option Holder * option (nat * string) * bool) :=
  let! m := get_model in
  let caller := c ← place_reference a; (fun h => (c, h)) <$> holder_of m c in
  match at_window a with
  | None =>
    match at_workspace a with
    | Some workspace => let! h := workspace_holder workspace in act_ret (Some h, None, at_new_tab a)
    | None =>
      match caller with
      | Some (c, from) =>
        if bool_decide (side m from = Some c) && bool_decide (is_Some (at_from a)) then act_ret (Some from, None, true)
        else if decide (at_from a = Some c) then
          act_ret (Some from, (fun l => (loc_tab l, c)) <$> locate m c, at_new_tab a)
        else act_ret (Some from, None, at_new_tab a)
      | None =>
        match place_reference a with
        | Some c => act_fail (not_found (c +:+ " is in no window or workspace, so there's nowhere beside it: say where with --window WINDOW (or --window new)"))
        | None => act_ret (None, None, at_new_tab a)
        end
      end
    end
  | Some window =>
    match caller with
    | Some (_, from) =>
      if decide (window = "new") then
        let! w := act_opt (fun m => window_for m (ws_of m from)) in act_ret (Some (HWindow w), None, at_new_tab a)
      else let! h := window_holder (Some window) in act_ret (Some h, None, at_new_tab a)
    | None => let! h := window_holder (Some window) in act_ret (Some h, None, at_new_tab a)
    end
  end.

(** The pane the new one splits: the one it opens beside, or the tab's focused pane, or its
    last; [None] for an empty tab. *)
Definition place_target (ts : Tabs) (tab : Tab) (beside : option (nat * string)) : option string :=
  let ids := tab_panes tab in
  if decide (ids = []) then None
  else match beside with
       | Some (_, from) => Some from
       | None => or_else (f ← tabs_focused ts; if contains ids f then Some f else None) (last ids)
       end.

Definition place_axis (m : Model) (h : Holder) (tab : Tab) (split : SplitSide) (target : string) : Axis :=
  match split with
  | SRight => Row
  | SDown => Column
  | SAuto => if wide m h (tab_root tab) target then Row else Column
  end.

(** The new pane in the tree, then on show and in focus. *)
Definition place_focus (pane : string) (beside : bool) (t : nat) (ts : Tabs) : option Tabs :=
  ts ← (if beside then tab ← tabs_tabs ts !! t; Some (set_active ts (Some (tab_id tab))) else Some ts);
  let ts := set_focused ts (Some pane) in
  match active_index ts with
  | Some active => alter_tab ts active (fun tab => Some (set_tab_last_focus tab (Some pane)))
  | None => Some ts
  end.

Definition place_in (pane : string) (a : Placement) (h : Holder) (beside : option (nat * string)) (new_tab : bool)
  : act Model unit :=
  let! tabs := get_tabs h in
  let! t := match beside with
            | Some (t, _) => act_ret t
            | None => if new_tab || bool_decide (tabs_tabs tabs = []) then do_make_tab h true
                      else act_lift (unwrap (active_index tabs))
            end in
  let! tabs := get_tabs h in
  let! tab := get_tab h t in
  let! m := get_model in
  (match place_target tabs tab beside with
   | None => set_root h t (NPane pane)
   | Some target =>
     change_tabs h (fun ts => tabs_insert ts (NPane pane) target t (place_axis m h tab (at_split a) target) true (at_size a))
   end) ;;;
  change_tabs h (place_focus pane (bool_decide (is_Some beside)) t).

Definition model_place (pane : string) (a : Placement) (panes : Panes) : act Model (option string) :=
  if at_lead a then let! id := lead pane (at_window a) in act_ret (Some id)
  else if at_background a then place_background pane a panes
  else if at_planner a then act_modify (fun m => place_planner m pane a) ;;; act_ret None
  else if at_quiz a then act_modify (fun m => dock_workspace m pane ELeft (Quiz (app_of a)) false) ;;; act_ret None
  else
    match at_dock a with
    | Some edge =>
      let place := if at_shelf a then Shelf else Desk (app_of a) in
      act_modify (fun m => dock_workspace m pane edge place (at_frozen a)) ;;; act_ret None
    | None =>
      let! '(h, beside, new_tab) := place_holder a in
      let! h := match h with
                | Some h => act_ret h
                | None => let! w := target_window None in act_ret (HWindow w)
                end in
      place_in pane a h beside new_tab ;;;
      match window_of h with
      | Some w => let! win := act_get (fun m => m_windows m !! w) in act_ret (Some (win_id win))
      | None => act_ret None
      end
    end.

(** ** The other operations *)

Definition location_of (m : Model) (pane : string) : option (option Spot) :=
  match lead_window m pane with
  | Some w => win ← m_windows m !! w; Some (Some (mkSpot (Some (win_id win)) None None JNull false))
  | None =>
    match dock_ws m pane with
    | Some s =>
      '(window, workspace) ← spot_of m (HWorkspace s);
      ws ← m_workspaces m !! s;
      Some (Some (mkSpot window None (if is_task ws then Some (dock_edge (ws_dock ws)) else None) workspace false))
    | None =>
      match background_ws m pane with
      | Some s => ws ← m_workspaces m !! s; Some (Some (mkSpot None None None (JObject (ws_summary ws)) true))
      | None =>
        match locate m pane with
        | None => Some None
        | Some l =>
          '(window, workspace) ← spot_of m (loc_holder l);
          tab ← tab_at m (loc_holder l) (loc_tab l);
          Some (Some (mkSpot window (Some (tab_id tab)) None workspace false))
        end
      end
    end
  end.

Definition model_panes_in (scope : Scope) : act Model (list string) :=
  match scope with
  | ScopeTab reference =>
    let! m := get_model in
    let! '(h, t) := act_lift (ok_or (tab_index m reference) (no_tab reference)) in
    let! tab := get_tab h t in
    act_ret (tab_panes tab)
  | ScopeWindow reference =>
    let! w := target_window reference in
    let! win := act_get (fun m => m_windows m !! w) in
    act_ret (win_panes win)
  | ScopeTask task => task_panes task
  end.

Definition background_of (m : Model) (task : string) : option (list string) :=
  match task_index m task with
  | Some s => ws ← m_workspaces m !! s; Some (ws_background ws)
  | None => Some []
  end.

Definition remember (m : Model) : Model :=
  set_workspaces (set_windows m (map (fun w => set_win_tabs w (tabs_remember (win_tabs w))) (m_windows m)))
    (map (fun ws => set_ws_tabs ws (tabs_remember (ws_tabs ws))) (m_workspaces m)).

Definition dock_of (m : Model) (pane : string) : option (option string) :=
  match (h ← holder_of m pane; ws_of m h) with
  | None => Some None
  | Some s =>
    ws ← m_workspaces m !! s;
    let dock := dock_pane (ws_dock ws) in
    Some (if decide (dock = pane) then None else Some dock)
  end.

Definition showing (m : Model) (from : string) (among : list string) : option (option string) :=
  match holder_of m from with
  | None => Some None
  | Some h =>
    let mine := retain (fun id => match locate m id with Some l => bool_decide (loc_holder l = h) | None => false end) among in
    ts ← tabs_of m h;
    Some (latest ts mine)
  end.

Definition model_command (cmd : string) (args : Value) (panes : Panes) : act Model Map :=
  if decide (cmd = "focus") then focus args panes
  else if decide (cmd = "zoom") then zoom args panes
  else if decide (cmd = "rename-tab") then rename_tab args
  else if decide (cmd = "move") then move_pane args panes
  else if decide (cmd = "move-tab") then move_tab args
  else if decide (cmd = "resize") then resize args panes
  else if decide (cmd = "arrange") then arrange args panes
  else if decide (cmd = "task") then task args panes
  else if decide (cmd = "window") then window_command args panes
  else if decide (cmd = "desks") then set_desks args
  else act_fail (bad_request ("unknown command " +:+ in_quotes cmd)).

(** ** Lists *)

Definition tab_row (ts : Tabs) (panes : Panes) (tab : Tab) : Map :=
  [("id", JString (tab_id tab)); ("title", JString (tab_title tab));
   ("active", JBool (bool_decide (Some (tab_id tab) = tabs_active ts))); ("layout", tree (tab_root tab) None panes)].

Definition shown_pane (panes : Panes) (pane : option string) : Value :=
  match pane with Some p => JString (panes_display panes p) | None => JNull end.

Definition list_window (w : Window) (panes : Panes) : Value :=
  let ts := win_tabs w in
  JObject ([("id", JString (win_id w)); ("focused", shown_pane panes (tabs_focused ts));
            ("zoomed", shown_pane panes (zoomed ts));
            ("tabs", JArray (map (fun tab => JObject (tab_row ts panes tab)) (tabs_tabs ts)))]
    ++ opt_field "lead" ((fun d => JObject [("pane", JString (panes_display panes (dock_pane d)));
                                            ("width", JString (fraction_format (dock_width d)))]) <$> win_lead w)
    ++ opt_field "workspace" (JString <$> win_workspace w)).

Definition list_windows (m : Model) (panes : Panes) : Value :=
  JArray (omap (fun w => (fun win => list_window win panes) <$> m_windows m !! w) (sorted_windows m)).

Definition list_workspace (m : Model) (panes : Panes) (ws : Workspace) : Value :=
  let ts := ws_tabs ws in
  JObject (ws_summary ws
    ++ [("dock", JObject (map_insert (dock_view (ws_dock ws) panes) "id" (JString (dock_pane (ws_dock ws)))));
        ("tabs", JArray (map (fun tab => JObject (tab_row ts panes tab ++
            [("panes", JArray (map (fun p => JString (panes_display panes p)) (tab_panes tab)))])) (tabs_tabs ts)));
        ("focused", shown_pane panes (tabs_focused ts)); ("zoomed", shown_pane panes (zoomed ts));
        ("windows", JArray (map (fun w => JString (win_id w)) (workspace_windows m (ws_id ws))));
        ("panes", JArray (map JString (workspace_panes m ws)));
        ("background", JArray (map JString (ws_background ws)))]).

#[export] Instance model_host : LayoutHost Model := {|
  host_saved := SavedLayout;
  host_saved_placed := saved_placed;
  host_commands := model_commands;
  host_features := model_features;
  host_place := model_place;
  host_location pane := act_get (fun m => location_of m pane);
  host_panes_in := model_panes_in;
  host_background_of task := act_get (fun m => background_of m task);
  host_remove pane := do_detach pane;
  host_remember := act_modify remember;
  host_showing from among := act_get (fun m => showing m from among);
  host_dock_of pane := act_get (fun m => dock_of m pane);
  host_close_task task := act_update (fun m => close_task m task);
  host_tidy := do_drop_empty;
  host_command := model_command;
  host_windows panes := act_gets (fun m => list_windows m panes);
  host_workspaces panes := act_gets (fun m => JArray (map (list_workspace m panes) (m_workspaces m)));
  host_desks := act_gets desk_rows;
  host_hidden_windows _ := act_ret (JArray []);
  host_export_state := act_gets export_v1;
  host_read_state state panes := act_lift (saved_read panes state);
  host_install_state saved := act_modify (fun m => saved_install m saved);
  host_retitle panes := act_state (fun m => retitle m panes) |}.
End Host.
