(* ===== verification/HostFacts.v ===== *)
(** * What the layout promises the daemon: the laws of [Model] as a [LayoutHost]

    A placed pane is added, once; a removed one goes alone; a closed task takes just its
    panes; every other request leaves the panes alone. *)

From S2P Require Import Prelude Text F64 Json Fraction Describe Pane Panes State Tree Tabs Workspace Model.
From S2P Require Import Ops OpsFacts Commands CommandFacts ArrangeFacts Desk Saved Layout Host.

(** ** Tasks *)

Section Tasks.
Context `{World}.

Lemma new_workspace_ids m ws l :
  ids_wf m -> ws_id ws = ws_name_of (m_ws_counter m + 1) -> tabs_tabs (ws_tabs ws) = [] ->
  m_workspaces m = l -> ids_wf (set_workspaces (set_ws_counter m (m_ws_counter m + 1)) (ws :: l)).
Proof.
  intros [Hnd Hwin Hws Hft Hfw Hfs Htr] Hid Htabs <-.
  assert (all_tab_ids (set_workspaces (set_ws_counter m (m_ws_counter m + 1)) (ws :: m_workspaces m)) = all_tab_ids m) as Ht.
  { assert (tab_ids (ws_tabs ws) = []) as E by (unfold tab_ids; by rewrite Htabs).
    unfold all_tab_ids, bars. simpl. rewrite !flat_map_app. simpl. by rewrite E, flat_map_app. }
  split; rewrite ?Ht; try done.
  - unfold ws_ids. simpl. constructor; [|done]. rewrite Hid. apply Hfs. lia.
  - intros n Hn. unfold ws_ids. simpl in *. rewrite Hid, not_elem_of_cons. split; [|apply Hfs; lia].
    intros E%string_app_inj_l. apply (inj pretty) in E. lia.
  - unfold bars in *. simpl. rewrite !Forall_app in Htr. destruct Htr as (H1 & H2 & H3).
    apply Forall_app; split; [done|]. apply Forall_cons_2; [unfold tabs_wf; by rewrite Htabs|]. by apply Forall_app.
Qed.

Lemma dock_workspace_spec m pane edge place fr :
  ids_wf m ->
  ids_wf (dock_workspace m pane edge place fr) /\
  all_panes (dock_workspace m pane edge place fr) ≡ₚ pane :: all_panes m.
Proof.
  intros Hwf. unfold dock_workspace, new_workspace. split; [by apply new_workspace_ids|].
  unfold all_panes, placed. simpl. solve_Permutation.
Qed.

Lemma task_workspace_lookup m reference panes s ws :
  task_workspace m reference panes = Ok (s, ws) -> m_workspaces m !! s = Some ws.
Proof.
  unfold task_workspace. destruct (find_workspace m reference panes) as [s'|]; simpl; [|done].
  destruct (m_workspaces m !! s') as [ws'|] eqn:Hs; simpl; [|done]. destruct (is_task ws'); [|done].
  by intros [= <- <-].
Qed.

Lemma find_workspace_lookup m reference panes s :
  find_workspace m reference panes = Some s -> is_Some (m_workspaces m !! s).
Proof.
  unfold find_workspace. destruct (ws_index m reference) as [s'|] eqn:Hi.
  { intros [= <-]. by eapply ws_index_lookup. }
  intros (p & _ & Hf)%bind_Some. destruct (dock_ws m (pane_id p)) as [s'|] eqn:Hd; simpl in Hf.
  { injection Hf as <-. destruct (dock_ws_Some _ _ _ Hd) as (ws & -> & _). by eexists. }
  destruct (background_ws m (pane_id p)) as [s'|] eqn:Hb; simpl in Hf.
  { injection Hf as <-. destruct (background_ws_Some _ _ _ Hb) as (ws & -> & _). by eexists. }
  apply bind_Some in Hf as (h & Hh & Hf). eapply ws_of_lookup; [|done]. by eapply holder_of_valid.
Qed.

Lemma task_workspace_total m reference panes : task_workspace m reference panes ≠ Panic.
Proof.
  unfold task_workspace. destruct (find_workspace m reference panes) as [s|] eqn:Hf; simpl; [|done].
  destruct (find_workspace_lookup _ _ _ _ Hf) as [ws ->]. simpl. by destruct (is_task ws).
Qed.

Lemma set_place_kept m0 m s ws place left_at :
  kept m0 m -> m_workspaces m !! s = Some ws ->
  kept m0 (set_workspaces m (<[s := set_ws_left_at (set_ws_place ws place) left_at]> (m_workspaces m))).
Proof. intros Hk Hs. by eapply alter_workspace_kept. Qed.

(** A workspace brought to the front. *)
Lemma to_front_kept m0 m s ws ws' :
  kept m0 m -> m_workspaces m !! s = Some ws -> ws_tabs ws' = ws_tabs ws -> ws_id ws' = ws_id ws ->
  ws_extras ws' = ws_extras ws -> kept m0 (set_workspaces m (ws' :: delete s (m_workspaces m))).
Proof.
  intros Hk Hs Ht Hid Hx. assert (forall B (f : Workspace -> list B), f ws' = f ws ->
    flat_map f (ws' :: delete s (m_workspaces m)) ≡ₚ flat_map f (m_workspaces m)) as Hperm.
  { intros B f Hf. simpl. rewrite Hf. symmetry. by apply flat_map_delete_perm. }
  eapply kept_step; [done| |].
  - apply (ids_wf_mono m); try done; [apply Hk| | |].
    + apply Permutation_submseteq. unfold all_tab_ids, bars. cbn [m_windows m_workspaces m_orphans set_workspaces].
      rewrite !flat_map_app, !flat_map_map. rewrite (Hperm _ (fun w => tab_ids (ws_tabs w))) by (by rewrite Ht). done.
    + apply Permutation_submseteq. unfold ws_ids. simpl. rewrite Hid, map_delete. symmetry.
      apply delete_Permutation. by rewrite lookup_map, Hs.
    + destruct Hk as [[[_ _ _ _ _ _ Htr] _] _]. unfold bars in *. simpl. rewrite !Forall_app in Htr.
      destruct Htr as (H1 & H2 & H3). apply Forall_app; split; [done|]. rewrite Forall_map in H2. apply Forall_cons_2.
      * rewrite Ht. by apply (Forall_lookup_1 _ _ _ _ H2 Hs).
      * apply Forall_app; split; [|done]. apply Forall_map. by apply Forall_delete.
  - rewrite !all_panes_split. unfold bar_panes, bars, extras. cbn [m_windows m_workspaces m_orphans set_workspaces].
    rewrite !flat_map_app, !flat_map_map.
    rewrite (Hperm _ (fun w => tabs_panes (ws_tabs w))) by (by rewrite Ht). by rewrite (Hperm _ ws_extras).
Qed.

Lemma task_keeps args panes : keeps (task args panes).
Proof.
  intros m Hwf. pose proof (kept_refl m Hwf) as Hk. unfold task. cbv zeta.
  repeat (case_decide; [|]); [..|by runs_step].
  - runs_step. apply runs_get_model. by runs_step.
  - unfold task_hold. runs_step. apply runs_lift_ok_or; [done|]. intros r _. runs_step. apply runs_get_model. runs_step.
    apply runs_lift; [|done|by intros ?%task_workspace_total]. intros [s ws] Hs%task_workspace_lookup. runs_step.
    eapply runs_update; [unfold alter_workspace; by rewrite Hs|]. runs_step. by eapply alter_workspace_kept.
  - unfold task_find. runs_step. apply runs_lift_ok_or; [done|]. intros r _. runs_step. apply runs_get_model. runs_step.
    apply runs_lift; [|done|by intros ?%task_workspace_total]. intros [s ws] Hs. by runs_step.
  - unfold task_claim. runs_step. apply runs_lift_ok_or; [done|]. intros r _. runs_step.
    apply runs_lift_ok_or; [done|]. intros app _. runs_step. apply runs_get_model. runs_step.
    apply runs_lift; [|done|by intros ?%task_workspace_total]. intros [s ws] Hs%task_workspace_lookup. runs_step.
    case_decide.
    + runs_step. destruct (m_workspaces m) as [|w0 l] eqn:E; [done|].
      runs_step. eapply runs_get; [by rewrite E|]. by runs_step.
    + runs_steps. eapply runs_get; [done|]. runs_step. by eapply to_front_kept.
  - unfold task_planner. runs_step. apply runs_lift_ok_or; [done|]. intros r _. runs_step.
    apply runs_lift_ok_or; [done|]. intros app _. runs_step. apply runs_get_model. runs_step.
    apply runs_lift_ok_or; [done|]. intros s Hs. apply bind_Some in Hs as (s' & _ & Hs).
    apply bind_Some in Hs as (ws & Hws & Hs). destruct (is_task ws); [done|]. injection Hs as ->.
    runs_step. eapply runs_get; [done|]. runs_step. eapply runs_update; [unfold alter_workspace; by rewrite Hws|].
    runs_step. by eapply alter_workspace_kept.
Qed.

(** ** close_task *)

(** The panes of a task: its dock's, its tabs', its windows' and its background's. *)
Definition task_own (m : Model) (ws : Workspace) : list string := workspace_panes m ws ++ ws_background ws.

Lemma flat_map_retain_split {A B} (f : A -> list B) p l :
  flat_map f l ≡ₚ flat_map f (retain p l) ++ flat_map f (retain (fun x => negb (p x)) l).
Proof.
  induction l as [|x l IH]; simpl; [done|]. destruct (p x); simpl; rewrite IH; solve_Permutation.
Qed.

Lemma close_task_spec m task s ws :
  ids_wf m -> task_index m task = Some s -> m_workspaces m !! s = Some ws ->
  Forall (fun w => in_workspace (ws_id ws) w = true -> win_lead w = None) (m_windows m) ->
  exists m', close_task m task = Some m' /\ all_panes m ≡ₚ task_own m ws ++ all_panes m' /\ ids_wf m'.
Proof.
  intros Hwf Hs Hws Hlead. unfold close_task. rewrite Hs. cbn [mbind option_bind]. rewrite Hws. cbn [mbind option_bind].
  eexists; split; [done|]. set (own := in_workspace (ws_id ws)) in *. split.
  - unfold all_panes, placed, task_own, workspace_panes. cbn [m_windows m_workspaces m_orphans set_windows set_workspaces].
    fold own. change (orphan_panes (set_windows _ _)) with (orphan_panes m).
    rewrite (flat_map_delete_perm ws_panes _ _ _ Hws). rewrite (flat_map_retain_split win_panes own (m_windows m)).
    assert (flat_map win_panes (retain own (m_windows m)) =
      flat_map (fun w => tabs_panes (win_tabs w)) (retain own (m_windows m))) as ->.
    { rewrite !flat_map_concat_map. f_equal. apply map_ext_in. intros w [Ho Hin]%list_elem_of_In%elem_of_retain.
      rewrite Forall_forall in Hlead. unfold win_panes, lead_panes. rewrite (Hlead w Hin Ho). by rewrite app_nil_r. }
    unfold ws_panes at 1. solve_Permutation.
  - apply (ids_wf_mono m); try done.
    + unfold all_tab_ids, bars. cbn [m_windows m_workspaces m_orphans set_windows set_workspaces].
      rewrite !flat_map_app, !flat_map_map. apply submseteq_app; [|apply submseteq_app; [|done]].
      * rewrite (flat_map_retain_split (fun x => tab_ids (win_tabs x)) own (m_windows m)). by apply submseteq_inserts_l.
      * rewrite (flat_map_delete_perm (fun x => tab_ids (ws_tabs x)) _ _ _ Hws). by apply submseteq_inserts_l.
    + apply sublist_submseteq. apply (fmap_sublist win_id), retain_sublist.
    + apply sublist_submseteq. unfold ws_ids. simpl. rewrite map_delete. apply sublist_delete.
    + destruct Hwf as [_ _ _ _ _ _ Htr]. unfold bars in *. simpl. rewrite !Forall_app, !Forall_map in *.
      destruct Htr as (H1 & H2 & H3). split_and!; [|by apply Forall_delete|done].
      apply Forall_forall. intros w [_ Hin]%elem_of_retain. rewrite Forall_forall in H1. auto.
Qed.
End Tasks.

(** ** place *)

(** The layout with one pane more. *)
Definition added (m : Model) (pane : string) (m' : Model) : Prop :=
  model_wf m' /\ all_panes m' ≡ₚ pane :: all_panes m.

Lemma added_intro m0 m pane m' :
  kept m0 m -> pane ∉ all_panes m0 -> ids_wf m' -> all_panes m' ≡ₚ pane :: all_panes m -> added m0 pane m'.
Proof.
  intros [[_ Hnd] Hp] Hn Hids Hp'. split; [split; [done|]|by rewrite Hp', Hp]. rewrite Hp'. constructor; [by rewrite Hp|done].
Qed.

Lemma added_step m0 pane m m' :
  added m0 pane m -> ids_wf m' -> all_panes m' ≡ₚ all_panes m -> added m0 pane m'.
Proof. intros [[_ Hnd] Hp] Hids Hp'. split; [split; [done|]|]; rewrite Hp'; done. Qed.

Lemma insert_twice {A} (l : list A) i x y : <[i := y]> (<[i := x]> l) = <[i := y]> l.
Proof. apply list_insert_insert_eq. Qed.

Lemma lead_spec m w win win' :
  ids_wf m -> m_windows m !! w = Some win -> win_id win' = win_id win -> same_shape (win_tabs win) (win_tabs win') ->
  let m' := set_windows m (<[w := win']> (m_windows m)) in
  ids_wf m' /\ all_panes m' ++ lead_panes win ≡ₚ all_panes m ++ lead_panes win'.
Proof.
  intros Hwf Hw Hid Hs m'.
  destruct (alter_tabs_shape m (HWindow w) (fun _ => Some (win_tabs win')) (win_tabs win) (win_tabs win'))
    as (m1 & Ha & _ & _ & _ & Hp & Hwf1); [done|simpl; by rewrite Hw|done|done|].
  unfold alter_tabs, alter_window in Ha. rewrite Hw in Ha. simpl in Ha. injection Ha as <-.
  set (win1 := set_win_tabs win (win_tabs win')) in *.
  set (m1 := set_windows m (<[w:=win1]> (m_windows m))) in *.
  destruct (alter_window_extras m1 w win1 win') as (Hb & Hi & Hp'); [|done|done|].
  { apply list_lookup_insert_eq. by eapply lookup_lt_Some. }
  cbn [m1 set_windows m_windows] in *. rewrite insert_twice in *.
  change (set_windows m1 (<[w:=win']> (m_windows m))) with m' in *. split.
  - by apply (ids_wf_same m1).
  - change (lead_panes win) with (lead_panes win1). rewrite Hp', Hp. done.
Qed.

Lemma place_focus_spec pane beside t ts :
  is_Some (tabs_tabs ts !! t) -> exists ts', place_focus pane beside t ts = Some ts' /\ same_shape ts ts'.
Proof.
  intros [tab Ht]. unfold place_focus.
  assert (exists ts1, (if beside then tab ← tabs_tabs ts !! t; Some (set_active ts (Some (tab_id tab))) else Some ts) = Some ts1
    /\ same_shape ts ts1 /\ tabs_tabs ts1 = tabs_tabs ts) as (ts1 & -> & Hs & Htabs).
  { destruct beside; [rewrite Ht|]; by eexists. }
  cbn [mbind option_bind]. set (ts2 := set_focused ts1 (Some pane)).
  destruct (active_index ts2) as [active|] eqn:Ha; [|by exists ts2].
  destruct (active_index_lookup _ _ Ha) as [tab2 Ht2]. unfold alter_tab. rewrite Ht2. simpl. eexists; split; [done|].
  eapply same_shape_trans; [exact Hs|]. eapply (same_shape_trans _ ts2); [done|].
  by apply (set_tabs_shape ts2 active tab2).
Qed.

Lemma place_target_elem ts tab beside target :
  place_target ts tab beside = Some target ->
  (forall t c, beside = Some (t, c) -> c ∈ tab_panes tab) -> target ∈ tab_panes tab.
Proof.
  unfold place_target. case_decide as Hne; [done|]. destruct beside as [[t c]|]; intros E Hb.
  - injection E as <-. by eapply Hb.
  - destruct (f ← tabs_focused ts; if contains (tab_panes tab) f then Some f else None) as [f|] eqn:Hf; simpl in E.
    + injection E as <-. apply bind_Some in Hf as (f' & _ & Hf). destruct (contains (tab_panes tab) f') eqn:Hc; [|done].
      injection Hf as <-. by apply contains_true in Hc.
    + apply last_Some in E as (l & ->). set_solver.
Qed.

Lemma place_target_None ts tab beside : place_target ts tab beside = None -> tab_panes tab = [].
Proof.
  unfold place_target. case_decide as Hne; [done|]. destruct beside as [[t c]|]; [done|].
  destruct (f ← tabs_focused ts; _); [done|]. simpl. intros E%last_None. done.
Qed.

(** Where [place_in] may work: a holder, and a tab that has the pane to open beside. *)
Definition place_ok (m : Model) (h : Holder) (beside : option (nat * string)) : Prop :=
  valid m h /\ forall t c, beside = Some (t, c) ->
    exists ts tab, tabs_of m h = Some ts /\ tabs_tabs ts !! t = Some tab /\ c ∈ tab_panes tab.

Lemma place_tab_runs m0 m h beside new_tab (P : Prop) (E : Model -> Prop) ts :
  kept m0 m -> place_ok m h beside -> tabs_of m h = Some ts ->
  runs P E (match beside with
            | Some (t, _) => act_ret t
            | None => if new_tab || bool_decide (tabs_tabs ts = []) then do_make_tab h true
                      else act_lift (unwrap (active_index ts))
            end)
    (fun t m' => kept m0 m' /\ exists ts' tab, tabs_of m' h = Some ts' /\ tabs_tabs ts' !! t = Some tab /\
                   forall t c, beside = Some (t, c) -> c ∈ tab_panes tab) m.
Proof.
  intros Hk [_ Hb] Hts. destruct beside as [[t c]|].
  { runs_step. destruct (Hb t c eq_refl) as (ts1 & tab & Hts1 & Ht & Hc). split; [done|]. exists ts1, tab.
    split_and!; [done..|]. by intros ? ? [= <- <-]. }
  destruct (new_tab || bool_decide (tabs_tabs ts = [])) eqn:Hnew.
  - destruct (make_tab_spec m h true ts) as (m1 & ts1 & Hm & _ & Hts1 & _ & Htabs & _ & Hp & Hwf1); [apply Hk|done|].
    eapply runs_opt; [exact Hm|]. split; [by eapply kept_step|]. eexists ts1, _. split_and!; [done| |done].
    rewrite Htabs. by apply list_lookup_middle.
  - apply orb_false_iff in Hnew as [_ Hne%bool_decide_eq_false].
    destruct (active_index ts) as [t|] eqn:Ha.
    + apply runs_lift; [|done|done]. intros t' [= <-]. destruct (active_index_lookup _ _ Ha) as [tab Ht].
      split; [done|]. by exists ts, tab.
    + unfold active_index in Ha. destruct (position _ _); [done|]. by destruct (tabs_tabs ts).
Qed.

Lemma place_in_runs m0 m pane a h beside new_tab (P : Prop) (E : Model -> Prop) :
  kept m0 m -> pane ∉ all_panes m0 -> place_ok m h beside ->
  runs P E (place_in pane a h beside new_tab) (fun _ m' => added m0 pane m' /\ valid m' h) m.
Proof.
  intros Hk Hn Hok. pose proof Hok as [[ts Hts] _]. unfold place_in. runs_step. eapply runs_get_tabs; [done|]. runs_step.
  eapply runs_weaken; [by eapply place_tab_runs|]. intros t m1 (Hk1 & ts1 & tab & Hts1 & Ht & Hb). runs_step.
  eapply runs_get_tabs; [done|]. runs_step. eapply runs_get_tab; [unfold tab_at; by rewrite Hts1|]. runs_step.
  apply runs_get_model. runs_step.
  apply (runs_weaken _ _ _ (fun _ m2 => added m0 pane m2 /\ exists ts2, tabs_of m2 h = Some ts2 /\ is_Some (tabs_tabs ts2 !! t))).
  - destruct (place_target ts1 tab beside) as [target|] eqn:Htg.
    + apply place_target_elem in Htg; [|done]. set (axis := place_axis _ _ _ _ _).
      destruct (tabs_insert_spec ts1 (NPane pane) target t tab axis true (at_size a) Ht Htg)
        as (ts2 & Hins & Hsw & Hkept & Hw).
      destruct (alter_tabs_wf m1 h (fun ts => tabs_insert ts (NPane pane) target t axis true (at_size a)) ts1 ts2 [] [pane])
        as (m2 & Hm2 & Hts2 & _ & _ & Hp & Hwf2); [apply Hk1|done|done| |by rewrite (kept_ids _ _ Hkept)| |].
      { apply swaps_panes_perm in Hsw. rewrite app_nil_r. apply (inj (fun l => l ++ [target])). rewrite Hsw.
        unfold beside_ids. simpl. solve_Permutation. }
      { intros Htw. apply Hw; [done|constructor]. }
      eapply runs_update; [exact Hm2|]. split.
      * eapply added_intro; [done..|]. rewrite app_nil_r in Hp. rewrite Hp. solve_Permutation.
      * exists ts2. split; [done|]. apply lookup_lt_is_Some. pose proof (f_equal length (kept_ids _ _ Hkept)) as El.
        unfold tab_ids in El. rewrite !length_map in El. rewrite El. by eapply lookup_lt_Some.
    + apply place_target_None in Htg. unfold set_root.
      destruct (set_tree_spec m1 h ts1 t tab (fun tab => Some (set_tab_root tab (Some (NPane pane)))) (NPane pane) [] [pane])
        as (m2 & Hm2 & Hwf2 & Hp & _ & ts2 & Hts2 & Hlen); [apply Hk1|done|done|by eexists|done|done|constructor|].
      eapply runs_update; [exact Hm2|]. split.
      * eapply added_intro; [done..|]. rewrite app_nil_r in Hp. rewrite Hp. solve_Permutation.
      * exists ts2. split; [done|]. apply lookup_lt_is_Some. rewrite Hlen. by eapply lookup_lt_Some.
  - intros [] m2 (Had & ts2 & Hts2 & Hlk). destruct (place_focus_spec pane (bool_decide (is_Some beside)) t ts2 Hlk) as (ts3 & Hpf & Hs).
    destruct (alter_tabs_shape m2 h (place_focus pane (bool_decide (is_Some beside)) t) ts2 ts3)
      as (m3 & Hm3 & Hts3 & _ & _ & Hp & Hwf3); [apply Had|done|done|done|].
    eapply runs_update; [exact Hm3|]. split; [by eapply added_step|by eexists].
Qed.

Lemma place_holder_runs m a (P : Prop) :
  model_wf m ->
  runs P (kept m) (place_holder a)
    (fun '(h, beside, _) m' => kept m m' /\
       match h with Some h => place_ok m' h beside | None => beside = None end) m.
Proof.
  intros Hwf. pose proof (kept_refl m Hwf) as Hk. unfold place_holder. runs_step. apply runs_get_model. cbv zeta.
  destruct (c ← place_reference a; (fun h => (c, h)) <$> holder_of m c) as [[c from]|] eqn:Hc.
  - apply bind_Some in Hc as (c' & Hc' & Hc). apply fmap_Some in Hc as (h & Hh & [= -> ->]).
    destruct (at_window a) as [window|].
    + case_decide; runs_step.
      * eapply runs_window_for; [done|by eapply holder_of_valid|]. intros w m' H1 H2 _ _. runs_step. done.
      * apply (runs_window_holder (m0 := m)); [done|done|]. intros h' m' H1 H2 H3. runs_step. done.
    + destruct (at_workspace a) as [ws|].
      * runs_step. apply (runs_workspace_holder (m0 := m)); [done|done|]. intros s _ Hs. runs_step. done.
      * pose proof (holder_of_valid _ _ _ Hh) as Hv. destruct (_ && _); [by runs_step|].
        case_decide; [|by runs_step]. runs_step. split; [done|]. split; [done|].
        intros t c0 (l & Hl & [= -> ->])%fmap_Some. unfold holder_of in Hh. rewrite Hl in Hh. simpl in Hh.
        injection Hh as <-. destruct (locate_Some _ _ _ Hl) as (ts & Hts & Hl1).
        destruct (tabs_locate_Some _ _ _ _ _ Hl1) as (tab & root & Ht & _). exists ts, tab. split_and!; [done..|].
        by eapply tabs_locate_elem.
  - destruct (at_window a) as [window|].
    + runs_step. apply (runs_window_holder (m0 := m)); [done|done|]. intros h' m' H1 H2 H3. runs_step. done.
    + destruct (at_workspace a) as [ws|].
      * runs_step. apply (runs_workspace_holder (m0 := m)); [done|done|]. intros s _ Hs. runs_step. done.
      * destruct (place_reference a); by runs_step.
Qed.

Lemma lead_runs m pane window (P : Prop) :
  model_wf m -> pane ∉ all_panes m -> runs P (kept m) (lead pane window) (fun _ => added m pane) m.
Proof.
  intros Hwf Hn. pose proof (kept_refl m Hwf) as Hk. unfold lead. runs_step. apply runs_lift_ok_or; [done|].
  intros r _. runs_step. apply (runs_target_window (m0 := m)); [done|done|]. intros w m1 Hk1 _ [ts Hts].
  simpl in Hts. apply fmap_Some in Hts as (win & Hw & ->). runs_step. eapply runs_get; [done|].
  destruct (win_lead win) eqn:Hl; [by runs_step|]. runs_step.
  eapply runs_update; [unfold alter_window; by rewrite Hw|]. runs_step.
  destruct (lead_spec m1 w win (mkWindow (win_id win) (settle_focus (win_tabs win) (Some pane))
    (Some (mkDock pane ELeft DOCK_WIDTH false)) None)) as [Hwf2 Hp]; [apply Hk1|done|done|apply settle_focus_shape|].
  eapply added_intro; [done..|]. unfold lead_panes in Hp. rewrite Hl in Hp. simpl in Hp. rewrite app_nil_r in Hp.
  rewrite Hp. solve_Permutation.
Qed.

Section Place.
Context `{World}.

(** Placing a new pane adds it and nothing else; a placement that is refused changes no pane;
    none panics. *)
Lemma model_place_runs m pane a panes :
  model_wf m -> pane ∉ all_panes m ->
  runs False (kept m) (model_place pane a panes) (fun _ => added m pane) m.
Proof.
  intros Hwf Hn. pose proof (kept_refl m Hwf) as Hk. unfold model_place.
  destruct (at_lead a).
  { runs_step. eapply runs_weaken; [by apply lead_runs|]. intros id m' Ha. by runs_step. }
  destruct (at_background a).
  { unfold place_background. runs_step. apply runs_lift_ok_or; [done|]. intros r _. runs_step. apply runs_get_model.
    runs_step. apply runs_lift_ok_or; [done|]. intros s Hs. apply bind_Some in Hs as (s' & _ & Hs).
    apply bind_Some in Hs as (ws & Hws & Hs). destruct (is_task ws); [|done]. injection Hs as ->. runs_step.
    eapply runs_update; [unfold alter_workspace; by rewrite Hws|]. runs_step.
    destruct (alter_workspace_extras m s ws (set_ws_background ws (ws_background ws ++ [pane])) [] [pane] Hws)
      as (Hb & Hi & Hp); [done|done|unfold ws_extras; simpl; solve_Permutation|].
    eapply added_intro; [done..| |].
    - apply (ids_wf_same m); try done. apply Hwf.
    - rewrite app_nil_r in Hp. rewrite Hp. solve_Permutation. }
  destruct (at_planner a).
  { runs_steps. eapply added_intro; [done..| |].
    - apply new_workspace_ids; [apply Hwf|done..].
    - unfold all_panes, placed. simpl. solve_Permutation. }
  destruct (at_quiz a).
  { runs_steps. destruct (dock_workspace_spec m pane ELeft (Quiz (app_of a)) false) as [Hw Hp]; [apply Hwf|].
    by eapply added_intro. }
  destruct (at_dock a) as [edge|].
  { runs_steps. match goal with |- added m pane (dock_workspace m pane edge ?p ?f) =>
      destruct (dock_workspace_spec m pane edge p f) as [Hw Hp]; [apply Hwf|] end. by eapply added_intro. }
  runs_step. eapply runs_weaken; [by apply place_holder_runs|]. intros [[h beside] new_tab] m1 [Hk1 Hh]. runs_step.
  apply (runs_weaken _ _ _ (fun h m2 => kept m m2 /\ place_ok m2 h beside)).
  { destruct h as [h|]; [by runs_step|]. runs_step. apply (runs_target_window (m0 := m)); [done|done|].
    intros w m2 Hk2 _ Hv. runs_step. split; [done|]. split; [done|]. by subst. }
  intros h' m2 [Hk2 Hok]. runs_step. eapply runs_weaken; [by apply place_in_runs|]. intros [] m3 [Had Hv].
  destruct h' as [w|s]; simpl; [|by runs_step]. destruct Hv as [ts Hts]. simpl in Hts.
  apply fmap_Some in Hts as (win & Hw & _). runs_step. eapply runs_get; [done|]. by runs_step.
Qed.
End Place.
