(* ===== verification/HostLaws.v ===== *)
(** * [Model] has the laws of a layout

    The instance [model_laws] discharges [LayoutLaws] for the daemon's own layout, so what
    [Service] proves of [serve] holds of it. *)

From S2P Require Import Prelude Text F64 Json Fraction Describe Pane Panes State Tree Tabs Workspace Model.
From S2P Require Import Ops OpsFacts Commands CommandFacts ArrangeFacts Desk Saved SavedFacts Layout Service.
From S2P Require Import Host HostFacts.

(** ** Every tab bar changed alike *)

Definition each_bar (f : Tabs -> Tabs) (m : Model) : Model :=
  set_workspaces (set_windows m (map (fun w => set_win_tabs w (f (win_tabs w))) (m_windows m)))
    (map (fun ws => set_ws_tabs ws (f (ws_tabs ws))) (m_workspaces m)).

Lemma each_bar_kept f m : (forall ts, same_shape ts (f ts)) -> model_wf m -> kept m (each_bar f m).
Proof.
  intros Hf Hwf. apply (kept_step m m); [by apply kept_refl| |].
  - destruct Hwf as [Hwf _]. eapply ids_wf_mono; [exact Hwf|..]; try done.
    + unfold all_tab_ids, bars. simpl. rewrite !flat_map_app, !flat_map_map.
      apply submseteq_app; [|apply submseteq_app; [|done]]; apply submseteq_flat_map; intros x _;
        simpl; by rewrite (same_shape_ids _ _ (Hf _)).
    + unfold win_ids. simpl. by rewrite map_map.
    + unfold ws_ids. simpl. by rewrite map_map.
    + destruct Hwf as [_ _ _ _ _ _ Htr]. unfold bars in *. simpl. rewrite !Forall_app, !Forall_map in *.
      destruct Htr as (H1 & H2 & H3). split_and!; [| |done]; (eapply Forall_impl; [done|]);
        intros ? ?; (eapply same_shape_wf; [apply Hf|done]).
  - unfold all_panes, placed. simpl. rewrite !flat_map_map.
    apply Permutation_app; [|done]. apply Permutation_app; apply reflexive_eq; apply flat_map_ext; intros x.
    + unfold win_panes. simpl. by rewrite (same_shape_panes _ _ (Hf _)).
    + unfold ws_panes. simpl. by rewrite (same_shape_panes _ _ (Hf _)).
Qed.

Lemma retitle_bar_shape panes ts : same_shape ts (snd (retitle_bar panes ts)).
Proof.
  split; [|done]. unfold retitle_bar, tabs_shape. cbn [snd set_tabs tabs_tabs]. rewrite !map_map. apply map_ext.
  intros tab. by destruct (tab_retitle_shape panes tab) as [-> ->].
Qed.

Lemma zip_with_map {A B C} (f : A -> B -> C) (g : A -> B) l : zip_with f l (map g l) = map (fun x => f x (g x)) l.
Proof. induction l as [|x l IH]; simpl; [done|]. by rewrite IH. Qed.

Lemma retitle_each panes m : snd (retitle m panes) = each_bar (fun ts => snd (retitle_bar panes ts)) m.
Proof. unfold retitle, each_bar. simpl. by rewrite !zip_with_map. Qed.

Lemma retitle_kept panes m : model_wf m -> kept m (snd (retitle m panes)).
Proof. rewrite retitle_each. apply each_bar_kept. apply retitle_bar_shape. Qed.

Lemma remember_kept m : model_wf m -> kept m (remember m).
Proof. apply (each_bar_kept tabs_remember). apply tabs_remember_shape. Qed.

(** ** Questions *)

Section Laws.
Context `{World}.

Lemma asks_get {A} (f : Model -> option A) m : is_Some (f m) -> asks (act_get f) m.
Proof. intros [a Ha]. unfold asks. by eapply runs_get. Qed.

Lemma location_of_total m pane : is_Some (location_of m pane).
Proof.
  unfold location_of. destruct (lead_window m pane) as [w|] eqn:Hl.
  { destruct (lead_window_Some _ _ _ Hl) as (win & d & Hw & _). rewrite Hw. by eexists. }
  destruct (dock_ws m pane) as [s|] eqn:Hd.
  { destruct (spot_of_total m (HWorkspace s)) as [[w ws] Hs]; [by eapply dock_valid|]. rewrite Hs.
    destruct (dock_ws_Some _ _ _ Hd) as (ws' & Hw & _). simpl. rewrite Hw. by eexists. }
  destruct (background_ws m pane) as [s|] eqn:Hb.
  { destruct (background_ws_Some _ _ _ Hb) as (ws & Hs & _). rewrite Hs. by eexists. }
  destruct (locate m pane) as [l|] eqn:Hlo; [|by eexists].
  destruct (spot_of_total m (loc_holder l)) as [[w ws] Hs]; [by eapply locate_valid|]. rewrite Hs.
  destruct (locate_tab_at _ _ _ Hlo) as [tab Ht]. simpl. rewrite Ht. by eexists.
Qed.

Lemma task_index_lookup m task s : task_index m task = Some s -> is_Some (m_workspaces m !! s).
Proof.
  unfold task_index. destruct (dock_ws m task) as [s'|] eqn:Hd; simpl; [|apply ws_index_lookup].
  intros [= <-]. destruct (dock_ws_Some _ _ _ Hd) as (ws & Hs & _). by eexists.
Qed.

Lemma background_of_total m task : is_Some (background_of m task).
Proof.
  unfold background_of. destruct (task_index m task) as [s|] eqn:Hs; [|by eexists].
  destruct (task_index_lookup _ _ _ Hs) as [ws Hw]. rewrite Hw. by eexists.
Qed.

Lemma showing_total m from among : is_Some (showing m from among).
Proof.
  unfold showing. destruct (holder_of m from) as [h|] eqn:Hh; [|by eexists].
  destruct (holder_of_valid _ _ _ Hh) as [ts Hts]. rewrite Hts. by eexists.
Qed.

Lemma dock_of_total m pane : is_Some (dock_of m pane).
Proof.
  unfold dock_of. destruct (h ← holder_of m pane; ws_of m h) as [s|] eqn:Hs; [|by eexists].
  apply bind_Some in Hs as (h & Hh & Hs). destruct (ws_of_lookup m h s) as [ws Hw]; [by eapply holder_of_valid|done|].
  rewrite Hw. by eexists.
Qed.

Lemma panes_in_keeps scope m :
  model_wf m -> runs False (kept m) (model_panes_in scope) (fun _ => kept m) m.
Proof.
  intros Hwf. pose proof (kept_refl m Hwf) as Hk. destruct scope as [r|r|task]; simpl.
  - runs_step. apply runs_get_model. runs_step. apply runs_lift_ok_or; [done|]. intros [h t] Ht.
    destruct (tab_index_tab_at _ _ _ _ Ht) as (_ & tab & Htab & _). runs_step. eapply runs_get_tab; [done|]. by runs_step.
  - runs_step. eapply (runs_target_window (m0 := m)); [done|done|]. intros w m' Hk' _ [ts Hts]. runs_step.
    simpl in Hts. apply fmap_Some in Hts as (win & Hw & _). eapply runs_get; [done|]. by runs_step.
  - unfold task_panes. runs_step. apply runs_get_model. runs_step. apply runs_lift_ok_or; [done|]. intros s Hs.
    destruct (task_index_lookup _ _ _ Hs) as [ws Hw]. runs_step. eapply runs_get; [done|]. by runs_step.
Qed.

(** ** Closing a task *)

Lemma close_task_kept m task :
  model_wf m -> exists m', close_task m task = Some m' /\ model_wf m' /\ all_panes m' ⊆+ all_panes m.
Proof.
  intros [Hids Hnd]. unfold close_task. destruct (task_index m task) as [s|] eqn:Hs; [|by exists m].
  destruct (task_index_lookup _ _ _ Hs) as [ws Hw]. rewrite Hw. cbn [mbind option_bind].
  eexists; split; [done|]. set (p := fun w => negb (in_workspace (ws_id ws) w)).
  assert (forall B (f : Window -> list B), flat_map f (retain p (m_windows m)) ⊆+ flat_map f (m_windows m)) as Hwin.
  { intros B f. rewrite (flat_map_retain_split f p (m_windows m)). by apply submseteq_inserts_r. }
  assert (forall B (f : Workspace -> list B), flat_map f (delete s (m_workspaces m)) ⊆+ flat_map f (m_workspaces m)) as Hdel.
  { intros B f. rewrite (flat_map_delete_perm f _ _ _ Hw). by apply submseteq_inserts_l. }
  match goal with |- model_wf ?m' /\ _ => assert (all_panes m' ⊆+ all_panes m) as Hsub end.
  { unfold all_panes, placed. simpl. apply submseteq_app; [|done]. apply submseteq_app; auto. }
  split; [|done]. split; [|by eapply NoDup_under].
  eapply ids_wf_mono; [exact Hids|..]; try done.
  - unfold all_tab_ids, bars. simpl. rewrite !flat_map_app, !flat_map_map.
    apply submseteq_app; [|apply submseteq_app; [|done]]; auto.
  - unfold win_ids. simpl. apply sublist_submseteq. apply (fmap_sublist win_id), retain_sublist.
  - unfold ws_ids. simpl. rewrite map_delete. apply sublist_submseteq, sublist_delete.
  - destruct Hids as [_ _ _ _ _ _ Htr]. unfold bars in *. simpl. rewrite !Forall_app, !Forall_map in *.
    destruct Htr as (H1 & H2 & H3). split_and!; [| |done].
    + apply Forall_forall. intros w [_ Hin]%elem_of_retain. rewrite Forall_forall in H1. auto.
    + by apply Forall_delete.
Qed.

(** ** Commands *)

Lemma keeps_inv op m : keeps op -> model_wf m -> runs True model_wf op (fun _ => model_wf) m.
Proof. intros Hk Hwf. eapply runs_mono; [by apply Hk|done|by intros s [? _]|by intros a s [? _]]. Qed.

Lemma model_command_inv cmd args panes m :
  model_wf m -> runs True model_wf (model_command cmd args panes) (fun _ => model_wf) m.
Proof.
  intros Hwf. unfold model_command.
  case_decide; [by apply keeps_inv, Hwf; apply focus_keeps|].
  case_decide; [by apply keeps_inv, Hwf; apply zoom_keeps|].
  case_decide; [by apply keeps_inv, Hwf; apply rename_tab_keeps|].
  case_decide.
  { eapply runs_mono; [by apply move_pane_runs|done| |by intros a s [? _]]. by intros s [[? _]|(_ & p & _ & ? & _)]. }
  case_decide; [eapply runs_mono; [by apply move_tab_runs|done|by intros s [? _]|by intros a s [[? _] _]]|].
  case_decide; [eapply runs_mono; [by apply resize_runs|done|by intros s [? _]|by intros a s [? _]]|].
  case_decide.
  { eapply runs_mono; [by apply arrange_runs|done|by intros s [? _]|]. by intros a s (_ & used & _ & _ & ? & _). }
  case_decide; [by apply keeps_inv, Hwf; apply task_keeps|].
  case_decide; [eapply runs_mono; [by apply window_command_runs|done|by intros s [? _]|by intros a s [[? _] _]]|].
  case_decide; [by apply keeps_inv, Hwf; apply set_desks_keeps|]. by runs_step.
Qed.

(** ** The instance *)

#[export] Program Instance model_laws : LayoutLaws Model := {| law_inv := model_wf; law_panes := all_panes |}.
Next Obligation. intros pane a panes m Hwf Hn. by apply model_place_runs. Qed.
Next Obligation.
  intros pane m Hwf. destruct (detach_spec m pane Hwf) as (m' & Hd & Hdet).
  destruct (detached_wf _ _ _ Hwf Hdet) as [Hwf' Hn]. eapply runs_update; [exact Hd|]. split; [done|]. intros x.
  destruct Hdet as [_ [[Hn' ->]|Hp] _ _ _]; [|rewrite Hp, elem_of_cons]; split; try tauto; intros Hx;
    (split; [by auto|]); intros ->; contradiction.
Qed.
Next Obligation.
  intros task m Hwf. destruct (close_task_kept m task Hwf) as (m' & Hc & ?). by eapply runs_update.
Qed.
Next Obligation. intros scope m Hwf. by apply panes_in_keeps. Qed.
Next Obligation. intros m Hwf. eapply (runs_drop_empty (m0 := m)); [by apply kept_refl|]. by intros m' Hk _ _. Qed.
Next Obligation.
  intros panes m Hwf. apply runs_state. intros b m' Hr. pose proof (retitle_kept panes m Hwf) as Hk. by rewrite Hr in Hk.
Qed.
Next Obligation. intros m Hwf. apply runs_modify. by apply remember_kept. Qed.
Next Obligation. intros cmd args panes m Hwf. by apply model_command_inv. Qed.
Next Obligation. intros pane m _. apply asks_get, location_of_total. Qed.
Next Obligation. intros task m _. apply asks_get, background_of_total. Qed.
Next Obligation. intros from among m _. apply asks_get, showing_total. Qed.
Next Obligation. intros pane m _. apply asks_get, dock_of_total. Qed.
Next Obligation. intros panes m _. by apply runs_gets. Qed.
Next Obligation. intros panes m _. by apply runs_gets. Qed.
Next Obligation. intros m _. by apply runs_gets. Qed.
Next Obligation. intros panes m _. by apply runs_ret. Qed.
Next Obligation. intros m _. by apply runs_gets. Qed.
Next Obligation.
  intros state panes m _. apply runs_lift; [done|done|]. intros E.
  by apply (yields_total _ _ (saved_read_spec panes state)) in E.
Qed.
End Laws.

(** * The layouts the daemon reaches

    What [serve] does to a [Model] request by request, installations included, and the
    layouts that sequences of requests reach. *)

Section Serving.
Context `{World}.

(** ** Installing *)

(** The panes an installation may place: the ids its request lists. *)
Definition listed (request : Value) : list string := default [] (res_ok (ids_of (get request "ids"))).

Lemma step_install_runs request m :
  model_wf m -> orphan_panes m = [] ->
  runs False (eq m) (step_state true request)
    (fun _ m' => model_wf m' /\ tidy_model m' /\ forall x, x ∈ all_panes m' -> x ∈ listed request) m.
Proof.
  intros Hwf Ho. unfold step_state. runs_step. apply runs_ids_of; [done|]. intros known Hk. runs_step.
  pose proof (saved_read_spec known (default JNull (get request "state"))) as Hs.
  apply runs_lift; [|done|by intros ?%(yields_total _ _ Hs)]. intros saved Hr.
  destruct (yields_Ok _ _ _ Hs Hr) as (_ & Hin & Hinst). destruct (Hinst m (wf_ids _ Hwf) Ho) as (Hwf' & Ht & Hsub). runs_steps.
  split_and!; [done..|]. intros x Hx. unfold listed. rewrite Hk. cbn [res_ok default]. apply Hin.
  by eapply elem_of_submseteq.
Qed.

Lemma serve_install_runs request panes m :
  model_wf m -> orphan_panes m = [] -> installing request ->
  runs False (kept m) (serve request panes)
    (fun _ m' => model_wf m' /\ forall x, x ∈ all_panes m' -> x ∈ listed request) m.
Proof.
  intros Hwf Ho Hin. apply serve_runs; [done|]. intros b m1 [= _ E] [Hwf1 Hp1]. rewrite step_is_install by done.
  assert (orphan_panes m1 = []) as Ho1 by (by rewrite <- E; apply Ho).
  eapply runs_mono; [by apply step_install_runs|done|..].
  - intros m2 <-. split; [done|]. intros m3 [Hwf3 Hp3]. split; [done|]. by rewrite Hp3.
  - intros a m2 (Hwf2 & _ & Hl). split; [done|]. intros m3 [Hwf3 Hp3]. split; [done|]. intros x. rewrite Hp3. apply Hl.
Qed.

(** ** Every layout the daemon reaches *)

(** A request the daemon sends: it places only a pane that is not in the layout, and
    installs only on a layout whose orphans hold no pane: [restore_state] removes every pane of the
    table first, which dissolves workspaces and leaves orphans with empty tabs. *)
Record proper (m : Model) (request : Value) : Prop := {
  proper_place : placing_op request -> forall pane, placing request = Some pane -> pane ∉ all_panes m;
  proper_install : installing request -> orphan_panes m = [] }.

Inductive reachable : Model -> Prop :=
| reach_start : reachable model_default
| reach_serve m request panes result m' :
    reachable m -> proper m request -> serve request panes m = (result, m') -> result ≠ Panic -> reachable m'.

Lemma serve_wf request panes m :
  model_wf m -> proper m request -> runs True model_wf (serve request panes) (fun _ => model_wf) m.
Proof.
  intros Hwf [Hp Hi]. destruct (decide (string_of request "op" = Some "install")) as [E|E].
  { eapply runs_mono; [by apply serve_install_runs; [| |]; auto|done|by intros m' [? _]|by intros a m' [? _]]. }
  apply serve_runs; [done|]. intros b m1 _ [Hwf1 Hp1].
  eapply runs_mono; [apply step_inv; [done|done|]| |..]; simpl.
  - intros Hpl pane Hpane. rewrite Hp1. by apply Hp.
  - done.
  - intros m2 Hwf2. split; [done|]. by intros m3 [? _].
  - intros a m2 Hwf2. split; [done|]. by intros m3 [? _].
Qed.

Lemma model_default_wf : model_wf model_default.
Proof. split; [split|]; try constructor; intros n _ Hn; by apply elem_of_nil in Hn. Qed.
End Serving.

(** * Sample layouts

    Small concrete layouts, built by serving requests, on which the theorems' hypotheses are
    seen to hold and the definitions are run. *)

(** One clock reading, and stand-ins for the two library functions the layout's replies go
    through; none of the samples depends on what they return. *)
Definition sample_world : World :=
  {| now := f_of_Z 1000; shlex_split s := Some [s]; json_text _ := "{}" |}.
#[export] Existing Instance sample_world.

Fixpoint make_all (ps : Panes) (kinds : list PaneType) : Panes :=
  match kinds with [] => ps | k :: kinds => make_all (snd (make ps k None)) kinds end.

(** Five terminals, [p1] to [p5]. *)
Definition sample_panes : Panes := make_all panes_default [Term; Term; Term; Term; Term].

(** ** Requests *)

Definition place_at (id : string) (a : Placement) : Value :=
  obj [("op", JString "place"); ("pane", obj [("id", JString id)]); ("at", JObject (at_json a))].
Definition command_of (cmd : string) (args : Map) : Value :=
  obj [("op", JString "command"); ("cmd", JString cmd); ("args", JObject args)].

Definition plainly : Placement := placement_default.
Definition docked_at (edge : Edge) : Placement :=
  mkPlacement None None SAuto f_half_ false (Some edge) false None None None false false false false false.
Definition in_workspace_at (ws : string) : Placement :=
  mkPlacement None (Some ws) SAuto f_half_ false None false None None None false false false false false.

Fixpoint serve_all (requests : list Value) (m : Model) : Model :=
  match requests with
  | [] => m
  | r :: rs => serve_all rs (snd (serve r sample_panes m))
  end.

Definition properb (m : Model) (request : Value) : bool :=
  (if decide (string_of request "op" = Some "place")
   then match placing request with Some pane => negb (contains (all_panes m) pane) | None => true end
   else true) &&
  (if decide (string_of request "op" = Some "install") then bool_decide (orphan_panes m = []) else true).

(** Every request is proper where it is served, and none panics. *)
Fixpoint all_proper (requests : list Value) (m : Model) : bool :=
  match requests with
  | [] => true
  | r :: rs => properb m r && match serve r sample_panes m with
                              | (Panic, _) => false
                              | (_, m') => all_proper rs m'
                              end
  end.

Lemma properb_proper m request : properb m request = true -> proper m request.
Proof.
  unfold properb. intros [H1 H2]%andb_true_iff. split.
  - intros Hp pane Hpane. unfold placing_op in Hp. rewrite Hp, Hpane in H1. simpl in H1.
    by apply negb_true_iff, contains_false in H1.
  - intros Hi. unfold installing in Hi. rewrite Hi in H2. simpl in H2. by apply bool_decide_eq_true in H2.
Qed.

Lemma serve_all_reachable requests m : reachable m -> all_proper requests m = true -> reachable (serve_all requests m).
Proof.
  revert m. induction requests as [|r rs IH]; intros m Hm; simpl; [done|].
  intros [Hp%properb_proper Hr]%andb_true_iff. destruct (serve r sample_panes m) as [result m'] eqn:E.
  apply IH; [|by destruct result]. eapply reach_serve; [done|exact Hp|exact E|]. by intros ->.
Qed.

Lemma serve_all_wf requests m : model_wf m -> all_proper requests m = true -> model_wf (serve_all requests m).
Proof.
  revert m. induction requests as [|r rs IH]; intros m Hm; simpl; [done|].
  intros [Hp%properb_proper Hr]%andb_true_iff. pose proof (serve_wf r sample_panes m Hm Hp) as Hs. unfold runs in Hs.
  destruct (serve r sample_panes m) as [[a|e|] m']; [by apply IH..|done].
Qed.

(** ** Layouts *)

(** Two terminals side by side in one window. *)
Definition two_requests : list Value := [place_at "p1" plainly; place_at "p2" plainly].
Definition two_panes : Model := serve_all two_requests model_default.

(** And a task: [p3] its agent, [p4] in its workspace. *)
Definition task_requests : list Value :=
  two_requests ++ [place_at "p3" (docked_at ELeft); place_at "p4" (in_workspace_at "ws-1")].
Definition task_layout : Model := serve_all task_requests model_default.

Lemma two_panes_wf : model_wf two_panes.
Proof. apply serve_all_wf; [apply model_default_wf|by vm_compute]. Qed.

Lemma task_layout_wf : model_wf task_layout.
Proof. apply serve_all_wf; [apply model_default_wf|by vm_compute]. Qed.

Lemma task_layout_panes : all_panes task_layout = ["p1"; "p2"; "p3"; "p4"].
Proof. by vm_compute. Qed.

(** A restore: every pane is removed, which leaves an orphan with an empty tab, and the export installed *)
Definition restore_requests : list Value :=
  [obj [("op", JString "remove"); ("ids", JArray (map JString ["p1"; "p2"; "p3"; "p4"]))];
   obj [("op", JString "install"); ("ids", JArray (map JString ["p1"; "p2"; "p3"; "p4"])); ("state", JObject (export_v3 task_layout))]].

Lemma restored_reachable :
  reachable (serve_all restore_requests task_layout) /\ all_panes (serve_all restore_requests task_layout) = ["p1"; "p2"; "p3"; "p4"].
Proof. split; [|by vm_compute]. apply serve_all_reachable; [apply serve_all_reachable; [apply reach_start|]|]; by vm_compute. Qed.

Lemma task_layout_reachable : reachable task_layout.
Proof. apply serve_all_reachable; [apply reach_start|by vm_compute]. Qed.
