(* ===== verification/PaneTheorems.v ===== *)
(** * The table of panes: its theorems

    New IDs are new, in a table that any of its operations and any saved state it accepts
    have made. *)

From S2P Require Import Prelude Text F64 Json Pane Panes State PaneTable HostLaws.
From stdpp Require Import relations.

(** A new pane gets an ID that no pane has, is filed under it and listed last, and the
    table stays consistent and fresh. *)
Theorem make_new_pane ps kind name :
  panes_wf ps -> panes_fresh ps ->
  let '(id, ps') := make ps kind name in
  panes_map ps !! id = None /\
  panes_map ps' = <[id := pane_new id name kind]> (panes_map ps) /\
  panes_order ps' = panes_order ps ++ [id] /\
  panes_wf ps' /\ panes_fresh ps'.
Proof.
  intros Hwf Hf. destruct (make_files ps kind name Hf) as [Hm Ho].
  rewrite (surjective_pairing (make ps kind name)). change (fst (make ps kind name)) with (next_id ps kind).
  split_and!; [by apply next_id_fresh|done|done|by apply make_wf|by apply make_fresh].
Qed.

Lemma make_new_pane_witness :
  panes_wf panes_default /\ panes_map panes_default !! fst (make panes_default Md None) = None.
Proof.
  pose proof panes_default_ok as Hok. split; [apply Hok|].
  apply (make_new_pane panes_default Md None); [apply Hok|apply Hok].
Defined.

(** C32 Every table that its operations and installed states reach from the empty one is
    consistent (the order lists each pane once, each filed under its own ID), and its counters
    are past every ID and past the number of every terminal in use, [pty-N] or [term-N], that is
    below 10^9; a larger one in a saved state is not read as a number. *)
Theorem table_invariant `{World} ps : rtc table_step panes_default ps -> table_ok ps.
Proof. apply (rtc_ind_r table_ok); [apply panes_default_ok|]. intros y z _ Hs Hy. by eapply table_step_ok. Qed.

(** A table with content IDs, two panes and a terminal. *)
Definition made_table : Panes :=
  snd (new_terminal (snd (make (snd (make (use_content_ids panes_default) Term None)) Md (Some "notes"))) "term-1").

Lemma made_table_reached : rtc table_step panes_default made_table.
Proof.
  eapply rtc_l; [apply table_content|]. eapply rtc_l; [apply (table_make _ Term None)|].
  eapply rtc_l; [apply (table_make _ Md (Some "notes"))|]. apply rtc_once, table_terminal.
Qed.

Lemma table_invariant_witness : panes_order made_table = ["term-1"; "file-1"] /\ table_ok made_table.
Proof. split; [vm_compute; reflexivity|]. apply (table_invariant made_table). apply made_table_reached. Defined.

(** A terminal's new run gets a terminal of its own: while the counter is within the
    numbers a saved state may use, no pane's terminal has the new number, and the pane has it
    after; nothing else of the table changes. *)
Theorem new_terminal_new ps id terminal :
  table_ok ps -> fst (new_terminal ps id) = Some terminal -> (panes_ptys ps + 1 < 1000000000)%N ->
  (forall x p, panes_map ps !! x = Some p -> pane_terminal p ≠ Some terminal) /\
  exists p, panes_map ps !! id = Some p /\ pane_kind p = Term /\
    panes_map (snd (new_terminal ps id)) = <[id := set_pane_terminal p (Some terminal)]> (panes_map ps).
Proof.
  intros [_ _ Hp _]. unfold new_terminal. destruct (panes_map ps !! id) as [p|] eqn:E; [|done].
  destruct (decide (pane_kind p = Term)); [|done]. simpl. intros [= <-] Hlt. split; [|by exists p].
  intros x q Hq Ht. specialize (Hp x q _ Hq Ht). lia.
Qed.

Lemma new_terminal_new_witness :
  fst (new_terminal made_table "term-1") = Some "pty-2" /\
  forall x p, panes_map made_table !! x = Some p -> pane_terminal p ≠ Some "pty-2".
Proof.
  split; [vm_compute; reflexivity|]. apply (new_terminal_new made_table "term-1" "pty-2");
    [|vm_compute; reflexivity|vm_compute; reflexivity].
  apply new_terminal_ok, make_ok, make_ok. pose proof panes_default_ok as [[] [] ? ?]. by split; [split|split|..].
Defined.

(** A saved state of content IDs that is accepted can be installed on any table: its panes
    are listed in their order, with distinct IDs, each the kind's prefix and a number that the
    state's counters have reached, and distinct names that are not empty; and in the table the
    next ID of every kind is new. *)
Theorem import_installs `{World} state panes counters ps counter terminals ptys :
  import_content state = Ok (panes, counters) ->
  import_versions state [STATE_VERSION] "this kmux reads" = Ok (panes, counter) ->
  let ps' := note_numbers (panes_install ps panes counter terminals ptys) counters in
  NoDup (map pane_id panes) /\ NoDup (omap pane_name panes) /\ "" ∉ omap pane_name panes /\
  Forall (counted counters) panes /\ panes_order ps' = map pane_id panes /\ table_ok ps' /\
  forall kind, panes_map ps' !! next_id ps' kind = None.
Proof.
  intros (Hc & n & _ & Hn)%import_content_spec Hi ps'. rewrite Hi in Hn. simplify_eq.
  pose proof (import_versions_spec _ _ _ _ _ Hi) as Himp.
  assert (table_ok ps') as Hok by (apply note_numbers_ok, install_ok; done).
  destruct Himp. split_and!; try done.
  - unfold ps', panes_install. by destruct (foldl _ _ _).
  - intros kind. apply next_id_fresh, Hok.
Qed.

Definition saved_table : Value :=
  obj [("version", num (f_of_N 2)); ("windows", JArray []); ("counters", obj [("file", num (f_of_N 7))]);
       ("panes", JArray [
          obj [("id", JString "term-3"); ("type", JString "term"); ("cmd", JString "make")];
          obj [("id", JString "file-2"); ("type", JString "md"); ("name", JString "notes"); ("path", JString "a.md")]])].
Definition saved_panes : list Pane :=
  match import_versions saved_table [STATE_VERSION] "" with Ok (panes, _) => panes | _ => [] end.

Definition saved_counters : gmap string N :=
  match import_content saved_table with Ok (_, counters) => counters | _ => ∅ end.

Lemma import_installs_witness :
  import_content saved_table = Ok (saved_panes, saved_counters) /\
  table_ok (note_numbers (panes_install panes_default saved_panes 0 0 0) saved_counters).
Proof.
  split; [vm_compute; reflexivity|].
  apply (import_installs saved_table saved_panes saved_counters panes_default 0 0 0);
    [vm_compute; reflexivity|vm_compute; reflexivity].
Defined.
