(* ===== verification/LayoutTheorems.v ===== *)
(** * The layout service of the daemon's own layout

    The theorems on what [serve] does to a [Model]: the invariant of every layout a
    sequence of requests reaches, and what each kind of request does to the panes. *)

From S2P Require Import Prelude Text F64 Json Fraction Describe Pane Panes State Tree Tabs Workspace Model.
From S2P Require Import Ops OpsFacts Commands CommandFacts ArrangeFacts Desk Saved SavedFacts Layout Service.
From S2P Require Import Host HostFacts HostLaws.

(** C1 Every layout that proper requests reach from the empty one is well formed: no pane
    is in two places, the ids of windows, tabs and workspaces are distinct and below their
    counters, and every split has at least two children. *)
Theorem reachable_wf `{World} m : reachable m -> model_wf m.
Proof.
  induction 1 as [|m request panes result m' _ Hwf Hp Hs Hr]; [apply model_default_wf|].
  pose proof (serve_wf request panes m Hwf Hp) as Hruns. unfold runs in Hruns. rewrite Hs in Hruns. by destruct result.
Qed.

Lemma reachable_wf_witness : reachable task_layout /\ model_wf task_layout.
Proof. split; [apply task_layout_reachable|]. apply (reachable_wf task_layout). apply task_layout_reachable. Defined.

(** A request to place a new pane never panics: it fails and leaves the same panes, or it
    succeeds and the layout has the new pane, once, beside the ones it had. *)
Theorem serve_place_adds `{World} request panes m pane :
  model_wf m -> placing_op request -> placing request = Some pane -> pane ∉ all_panes m ->
  runs False (kept m) (serve request panes) (fun _ => added m pane) m.
Proof.
  intros Hwf Hop Hpl Hn. apply serve_runs; [done|]. intros b m1 _ [Hwf1 Hp1]. rewrite step_is_place by done.
  simpl in Hp1. eapply runs_mono; [apply step_place_runs; [done|]|done|..]; simpl.
  - intros p' E. rewrite Hp1. by simplify_eq.
  - intros m2 [Hwf2 Hp2]. split; [done|]. intros m3 [Hwf3 Hp3]. split; [done|]. simpl in *. by rewrite Hp3, Hp2.
  - intros a m2 (Hwf2 & p' & E & Hp2). simplify_eq. split; [done|]. intros m3 [Hwf3 Hp3]. split; [done|]. simpl in *.
    by rewrite Hp3, Hp2, Hp1.
Qed.

Lemma serve_place_adds_witness :
  model_wf task_layout /\ runs False (kept task_layout) (serve (place_at "p5" plainly) sample_panes)
    (fun _ => added task_layout "p5") task_layout.
Proof.
  split; [apply task_layout_wf|]. apply (serve_place_adds (place_at "p5" plainly) sample_panes task_layout "p5").
  - apply task_layout_wf.
  - reflexivity.
  - reflexivity.
  - apply (bool_decide_unpack _). vm_compute. exact I.
Defined.

(** The layout a request that does nothing leaves: the tabs named anew, before and after, and the
    recent panes noted. *)
Definition idle_serve (panes : Panes) (m : Model) : Model := remember (retitle (retitle m panes).2 panes).2.

(** C2 A removal that names no task never panics.  Where its list is well formed it takes out exactly the
    panes it lists; where it is malformed it fails, and the layout is as it was but for the names of
    the tabs and the recent panes, which every request notes. *)
Theorem serve_remove_exact `{World} request panes m :
  model_wf m -> removing request -> string_of request "task" = None ->
  runs False (fun m' => (exists e, ids_of (get request "ids") = Err e) /\ m' = idle_serve panes m /\ model_wf m' /\ all_panes m' ≡ₚ all_panes m)
    (serve request panes)
    (fun _ m' => model_wf m' /\ exists ids, ids_of (get request "ids") = Ok ids /\
       forall x, x ∈ all_panes m' <-> x ∈ all_panes m /\ x ∉ ids) m.
Proof.
  intros Hwf Hop Ht. apply serve_notes; [done|]. intros b m1 Hr [Hwf1 Hp1]. rewrite step_is_remove by done. simpl in Hp1.
  eapply runs_mono; [by apply step_remove_runs|done|..]; simpl.
  - intros m2 (Hwf2 & _ & He & Heq). rewrite (Heq Ht) in *. split; [done|]. intros m3 [Hwf3 Hp3] (b' & m4 & Hr' & Hm).
    simpl in *. split_and!; [done| |done|by rewrite Hp3, Hp1]. unfold idle_serve. unfold act_state, act_modify in *.
    injection Hr as _ <-. injection Hr' as _ <-. by injection Hm as <-.
  - intros a m2 (Hwf2 & Hsub & ids & Hids & Hgone & Hleft). split; [done|]. intros m3 [Hwf3 Hp3] _. simpl in *.
    split; [done|]. exists ids. split; [done|]. intros x. rewrite Hp3, <- Hp1. split.
    + intros Hx. split; [auto|]. intros Hin. by apply (Hgone x).
    + intros [Hx Hn]. by apply Hleft.
Qed.

Definition remove_p2 : Value := obj [("op", JString "remove"); ("ids", JArray [JString "p2"])].

Lemma serve_remove_exact_witness :
  model_wf task_layout /\
  runs False (fun m' => (exists e, ids_of (get remove_p2 "ids") = Err e) /\ m' = idle_serve sample_panes task_layout /\ model_wf m' /\ all_panes m' ≡ₚ all_panes task_layout)
    (serve remove_p2 sample_panes)
    (fun _ m' => model_wf m' /\ exists ids, ids_of (get remove_p2 "ids") = Ok ids /\
       forall x, x ∈ all_panes m' <-> x ∈ all_panes task_layout /\ x ∉ ids) task_layout.
Proof.
  split; [apply task_layout_wf|]. apply (serve_remove_exact remove_p2 sample_panes task_layout);
    [apply task_layout_wf|reflexivity|reflexivity].
Defined.

(** A request that neither places, removes, commands nor installs (a location, a list, a
    question, an export, a check) never panics and keeps every pane, answered or refused. *)
Theorem serve_questions_keep `{World} request panes m :
  model_wf m -> ¬ placing_op request -> ¬ removing request -> ¬ commanding request -> ¬ installing request ->
  runs False (kept m) (serve request panes) (fun _ => kept m) m.
Proof.
  intros Hwf H1 H2 H3 H4. apply serve_runs; [done|]. intros b m1 _ [Hwf1 Hp1]. simpl in Hp1.
  assert (forall m2 m3, same_panes model_wf all_panes m1 m2 -> same_panes model_wf all_panes m2 m3 -> kept m m3) as Hk.
  { intros m2 m3 [_ E2] [Hwf3 E3]. split; [done|]. by rewrite E3, E2. }
  eapply runs_mono; [by apply step_reads|done|..].
  - intros m2 Hs. split; [apply Hs|]. intros m3. by apply Hk.
  - intros a m2 Hs. split; [apply Hs|]. intros m3. by apply Hk.
Qed.

Definition ask_panes : Value := obj [("op", JString "panes-in"); ("task", JString "ws-1")].

Lemma serve_questions_keep_witness :
  model_wf task_layout /\
  runs False (kept task_layout) (serve ask_panes sample_panes) (fun _ => kept task_layout) task_layout.
Proof.
  split; [apply task_layout_wf|]. apply (serve_questions_keep ask_panes sample_panes task_layout);
    [apply task_layout_wf|intros E; discriminate E..].
Defined.

(** C4 Installing a saved state on a layout whose orphans hold no pane never panics, whatever the JSON:
    refused, it keeps every pane; accepted, the layout is well formed and has only panes
    that the request lists. *)
Theorem serve_install_sound `{World} request panes m :
  model_wf m -> orphan_panes m = [] -> installing request ->
  runs False (kept m) (serve request panes)
    (fun _ m' => model_wf m' /\ forall x, x ∈ all_panes m' -> x ∈ listed request) m.
Proof. apply serve_install_runs. Qed.

(** The sample's own export, to install. *)
Definition install_sample : Value :=
  obj [("op", JString "install"); ("ids", JArray (map JString ["p1"; "p2"; "p3"; "p4"]));
       ("state", JObject (export_v3 task_layout))].

Lemma serve_install_sound_witness :
  model_wf two_panes /\ orphan_panes two_panes = [] /\
  runs False (kept two_panes) (serve install_sample sample_panes)
    (fun _ m' => model_wf m' /\ forall x, x ∈ all_panes m' -> x ∈ listed install_sample) two_panes.
Proof.
  split; [apply two_panes_wf|]. split; [vm_compute; reflexivity|].
  apply (serve_install_sound install_sample sample_panes two_panes); [apply two_panes_wf|vm_compute; reflexivity|reflexivity].
Defined.

(** The sample's export installs, and every pane is back where it was. *)
Example install_sample_runs :
  all_panes (snd (serve install_sample sample_panes two_panes)) = ["p1"; "p2"; "p3"; "p4"].
Proof. by vm_compute. Qed.
