(* ===== verification/CommandTheorems.v ===== *)
(** * The layout's commands

    The theorems on each command of the layout and on the building blocks they share: no
    pane is lost or doubled, and where a command may panic or lose a pane the theorem says
    exactly when. *)

From S2P Require Import Prelude Text F64 Json Fraction Describe Pane Panes State Tree Tabs Workspace Model.
From S2P Require Import Ops OpsFacts Commands CommandFacts ArrangeFacts Desk Saved SavedFacts Layout Service.
From S2P Require Import Host HostFacts HostLaws.

(** Taking a pane out of a well-formed layout cannot fail; an absent pane changes
    nothing, and a present one goes alone: every other pane stays, a dissolved workspace's
    panes and background included, and the layout stays well formed. *)
Theorem detach_exact m id :
  model_wf m ->
  exists m', detach m id = Some m' /\ model_wf m' /\
    ((id ∉ all_panes m /\ m' = m) \/ all_panes m ≡ₚ id :: all_panes m').
Proof.
  intros Hwf. destruct (detach_spec m id Hwf) as (m' & Hd & Hdet). exists m'. split; [done|].
  destruct (detached_wf _ _ _ Hwf Hdet) as [Hwf' _]. split; [done|]. apply Hdet.
Qed.

Lemma detach_exact_witness :
  model_wf task_layout /\ exists m', detach task_layout "p3" = Some m' /\ model_wf m' /\
    (("p3" ∉ all_panes task_layout /\ m' = task_layout) \/ all_panes task_layout ≡ₚ "p3" :: all_panes m').
Proof. split; [apply task_layout_wf|]. apply (detach_exact task_layout "p3"). apply task_layout_wf. Defined.

(** Dropping what is empty puts the layout in order: no orphan is left, every tab has a
    tree, every tab bar's active tab and focused pane are its own, every window has a tab or
    a lead and no workspace that is gone; and every pane is kept. *)
Theorem drop_empty_tidies m :
  model_wf m -> kept m (drop_empty m) /\ tidy_model (drop_empty m).
Proof.
  intros Hwf. destruct (drop_empty_spec m (wf_ids _ Hwf)) as (Hp & Hids & Ht). split; [|done].
  by apply (kept_step m m); [apply kept_refl|..].
Qed.

(** The sample after its agent is taken out: its workspace's tabs are orphans. *)
Definition orphaned : Model := default task_layout (detach task_layout "p3").

Lemma orphaned_wf : model_wf orphaned.
Proof.
  destruct (detach_spec task_layout "p3" task_layout_wf) as (m' & Hd & Hdet). unfold orphaned. rewrite Hd.
  by destruct (detached_wf _ _ _ task_layout_wf Hdet).
Qed.

Lemma drop_empty_tidies_witness :
  orphan_panes orphaned = ["p4"] /\ kept orphaned (drop_empty orphaned) /\ tidy_model (drop_empty orphaned).
Proof. split; [vm_compute; reflexivity|]. apply (drop_empty_tidies orphaned). apply orphaned_wf. Defined.

(** Swapping two panes never fails and keeps every pane and every holder, wherever the
    two are: in tabs, in docks, or nowhere. *)
Theorem swap_keeps m a b :
  model_wf m -> a ≠ b -> exists m', swap m a b = Some m' /\ kept m m' /\ holders m' = holders m.
Proof.
  intros Hwf Hab. destruct (swap_spec m a b (wf_ids _ Hwf) Hab) as (m' & Hs & Hp & Hids & Hh). exists m'.
  split; [done|]. split; [|done]. by apply (kept_step m m); [apply kept_refl|..].
Qed.

Lemma swap_keeps_witness :
  model_wf task_layout /\ "p1" ≠ "p3" /\
  exists m', swap task_layout "p1" "p3" = Some m' /\ kept task_layout m' /\ holders m' = holders task_layout.
Proof.
  split; [apply task_layout_wf|]. split; [discriminate|].
  apply (swap_keeps task_layout "p1" "p3"); [apply task_layout_wf|discriminate].
Defined.

(** C3 [move], in full: it keeps every pane, but for a move of a task's agent, or to a pane
    that is nowhere in the layout, which may fail having taken the moved pane (and no other)
    out; and only the move of a task's agent can panic. *)
Theorem move_pane_account `{World} args panes m :
  model_wf m ->
  runs (moves_agent args panes m)
    (fun m' => kept m m' \/ (moves_agent args panes m \/ moves_nowhere args panes m) /\
                            exists p, moving args panes p /\ lost m (pane_id p) m')
    (move_pane args panes) (fun _ => kept m) m.
Proof. apply move_pane_runs. Qed.

Definition move_p2_down : Value :=
  obj [("pane", JString "p2"); ("to", JString "p1"); ("side", JString "bottom")].

Lemma move_pane_account_witness :
  model_wf task_layout /\
  runs (moves_agent move_p2_down sample_panes task_layout)
    (fun m' => kept task_layout m' \/
       (moves_agent move_p2_down sample_panes task_layout \/ moves_nowhere move_p2_down sample_panes task_layout) /\
       exists p, moving move_p2_down sample_panes p /\ lost task_layout (pane_id p) m')
    (move_pane move_p2_down sample_panes) (fun _ => kept task_layout) task_layout.
Proof.
  split; [apply task_layout_wf|]. apply (move_pane_account move_p2_down sample_panes task_layout). apply task_layout_wf.
Defined.

(** Moving a tab keeps every pane and leaves the layout in order; it can panic only on a
    layout that was not. *)
Theorem move_tab_keeps args m :
  model_wf m -> runs (¬ tidy_model m) (kept m) (move_tab args) (fun _ m' => kept m m' /\ tidy_model m') m.
Proof. apply move_tab_runs. Qed.

Definition move_tab_out : Value := obj [("tab", JString "tab-1"); ("window", JString "new")].

Lemma move_tab_keeps_witness :
  model_wf task_layout /\ runs (¬ tidy_model task_layout) (kept task_layout) (move_tab move_tab_out)
    (fun _ m' => kept task_layout m' /\ tidy_model m') task_layout.
Proof. split; [apply task_layout_wf|]. apply (move_tab_keeps move_tab_out task_layout). apply task_layout_wf. Defined.

(** [window assign] and [window free] keep every pane and leave the layout in order; they
    can panic only on a layout that was not. *)
Theorem window_command_keeps `{World} args panes m :
  model_wf m ->
  runs (¬ tidy_model m) (kept m) (window_command args panes) (fun _ m' => kept m m' /\ tidy_model m') m.
Proof. apply window_command_runs. Qed.

Definition free_window : Value := obj [("window", JString "win-1"); ("action", JString "free")].

Lemma window_command_keeps_witness :
  model_wf task_layout /\ runs (¬ tidy_model task_layout) (kept task_layout) (window_command free_window sample_panes)
    (fun _ m' => kept task_layout m' /\ tidy_model m') task_layout.
Proof.
  split; [apply task_layout_wf|]. apply (window_command_keeps free_window sample_panes task_layout). apply task_layout_wf.
Defined.

(** Resizing, by pane or by divider, keeps every pane and every tree's order; the only
    panic is that of the divider index [usize::MAX]. *)
Theorem resize_keeps `{World} args panes m :
  model_wf m ->
  runs ((v ← get args "index"; as_u64 v) = Some usize_max) (kept m) (resize args panes) (fun _ => kept m) m.
Proof. apply resize_runs. Qed.

Definition resize_p1 : Value := obj [("pane", JString "p1"); ("size", JString "1/3")].

Lemma resize_keeps_witness :
  model_wf task_layout /\ runs ((v ← get resize_p1 "index"; as_u64 v) = Some usize_max) (kept task_layout)
    (resize resize_p1 sample_panes) (fun _ => kept task_layout) task_layout.
Proof. split; [apply task_layout_wf|]. apply (resize_keeps resize_p1 sample_panes task_layout). apply task_layout_wf. Defined.

(** [arrange] never panics, however deep the layout it is given; refused, it keeps every
    pane; done, the layout is in order and well formed, has every pane it had and the ones
    the arrangement names, none of them a task's agent, and no pane twice. *)
Theorem arrange_sound `{World} args panes m :
  model_wf m ->
  runs False (kept m) (arrange args panes)
    (fun _ m' => tidy_model m' /\ exists used, NoDup used /\ (forall x, x ∈ used -> x ∉ docks m) /\ arranged m used m') m.
Proof. apply arrange_runs. Qed.

Definition arrange_columns : Value :=
  obj [("tab", JString "tab-1");
       ("layout", obj [("split", JString "row");
          ("children", JArray [obj [("pane", JString "p2"); ("size", JString "1/4")]; obj [("pane", JString "p4")]])])].

Lemma arrange_sound_witness :
  model_wf task_layout /\ runs False (kept task_layout) (arrange arrange_columns sample_panes)
    (fun _ m' => tidy_model m' /\ exists used, NoDup used /\
       (forall x, x ∈ used -> x ∉ docks task_layout) /\ arranged task_layout used m') task_layout.
Proof. split; [apply task_layout_wf|]. apply (arrange_sound arrange_columns sample_panes task_layout). apply task_layout_wf. Defined.

(** The commands that show, name and claim ([focus], [zoom], [rename-tab], [desks] and
    every [task] command) never panic and keep every pane, done or refused. *)
Theorem quiet_commands_keep `{World} args panes m cmd :
  model_wf m -> cmd ∈ ["focus"; "zoom"; "rename-tab"; "desks"; "task"] ->
  runs False (kept m) (model_command cmd args panes) (fun _ => kept m) m.
Proof.
  intros Hwf Hc. unfold model_command. repeat (apply elem_of_cons in Hc as [->|Hc]; [cbn|]); [..|by apply elem_of_nil in Hc].
  - by apply focus_keeps.
  - by apply zoom_keeps.
  - by apply rename_tab_keeps.
  - by apply set_desks_keeps.
  - by apply task_keeps.
Qed.

Definition zoom_p1 : Value := obj [("pane", JString "p1")].

Lemma quiet_commands_keep_witness :
  model_wf task_layout /\
  runs False (kept task_layout) (model_command "zoom" zoom_p1 sample_panes) (fun _ => kept task_layout) task_layout.
Proof.
  split; [apply task_layout_wf|]. apply (quiet_commands_keep zoom_p1 sample_panes task_layout "zoom"); [apply task_layout_wf|].
  apply (bool_decide_unpack _). vm_compute. exact I.
Defined.

(** Closing a task takes out exactly the task's panes: its workspace's tabs, its own
    windows' tabs, its agent and its background, and nothing else. *)
Theorem close_task_exact m task s ws :
  model_wf m -> task_index m task = Some s -> m_workspaces m !! s = Some ws ->
  Forall (fun w => in_workspace (ws_id ws) w = true -> win_lead w = None) (m_windows m) ->
  exists m', close_task m task = Some m' /\ all_panes m ≡ₚ task_own m ws ++ all_panes m' /\ model_wf m'.
Proof.
  intros Hwf Ht Hs Hl. destruct (close_task_spec m task s ws (wf_ids _ Hwf) Ht Hs Hl) as (m' & Hc & Hp & Hids).
  exists m'. split_and!; [done..|]. split; [done|]. pose proof (wf_panes _ Hwf) as Hnd. rewrite Hp in Hnd.
  by apply NoDup_app in Hnd as (_ & _ & ?).
Qed.

Definition sample_ws : Workspace := default (workspace_new "" (mkDock "" ELeft f0 false) Shelf) (head (m_workspaces task_layout)).

Lemma close_task_exact_witness :
  model_wf task_layout /\
  exists m', close_task task_layout "ws-1" = Some m' /\
    all_panes task_layout ≡ₚ task_own task_layout sample_ws ++ all_panes m' /\ model_wf m'.
Proof.
  split; [apply task_layout_wf|]. apply (close_task_exact task_layout "ws-1" 0 sample_ws);
    [apply task_layout_wf|vm_compute; reflexivity|vm_compute; reflexivity|].
  apply (bool_decide_unpack _). vm_compute. exact I.
Defined.

(** * Where the layout's code does not do what it means to

    Each finding as a run of the definitions on a small layout that requests reach. *)

(** What a served request comes to: how it ended, and the panes of the layout after. *)
Definition came_to (r : res Map * Model) : string * list string :=
  (match fst r with Ok _ => "ok" | Err e => err_code e | Panic => "panic" end, all_panes (snd r)).

(** ** Moving a task's agent *)

Definition move_agent_beside : Value := command_of "move" [("pane", JString "p3"); ("to", JString "p4"); ("side", JString "right")].
Definition move_agent_to_tab : Value := command_of "move" [("pane", JString "p3"); ("tab", JString "tab-2")].

(** A task's agent moved beside a pane of its own workspace is taken out, its workspace
    dissolves, and the target is no longer found: the command fails, and the agent's pane is
    in no place of the layout. *)
Theorem moved_agent_is_lost :
  reachable task_layout /\
  came_to (serve move_agent_beside sample_panes task_layout) = ("not_found", ["p1"; "p2"; "p4"]) /\
  "p3" ∈ all_panes task_layout.
Proof.
  split; [apply task_layout_reachable|]. split; [by vm_compute|]. apply (bool_decide_unpack _). by vm_compute.
Qed.

(** A task's agent moved to a tab of its own workspace panics: the tab went with the
    workspace that [detach] dissolved. *)
Theorem moved_agent_panics :
  reachable task_layout /\ fst (serve move_agent_to_tab sample_panes task_layout) = Panic.
Proof. split; [apply task_layout_reachable|by vm_compute]. Qed.

(** ** Layouts with something empty *)

(** A window made by [focus --window new] has no tab; a removal without [tidy] leaves its
    pane's tab empty. *)
Definition empty_window_requests : list Value :=
  [command_of "focus" [("window", JString "new")]].
Definition empty_window : Model := serve_all empty_window_requests model_default.
Definition empty_tab_requests : list Value :=
  [place_at "p1" plainly; obj [("op", JString "remove"); ("ids", JArray [JString "p1"])]].
Definition empty_tab : Model := serve_all empty_tab_requests model_default.

Definition free_empty_window : Value := command_of "window" [("window", JString "win-1"); ("action", JString "free")].
Definition move_empty_tab : Value := command_of "move-tab" [("tab", JString "tab-1")].

(** On a window without tabs [window free] panics: [drop_empty] drops the window whose
    place the reply then asks for. *)
Theorem freed_empty_window_panics :
  reachable empty_window /\ fst (serve free_empty_window sample_panes empty_window) = Panic.
Proof. split; [apply serve_all_reachable; [apply reach_start|by vm_compute]|by vm_compute]. Qed.

(** A tab without panes that is moved panics: [drop_empty] drops the tab that is then
    looked for. *)
Theorem moved_empty_tab_panics :
  reachable empty_tab /\ fst (serve move_empty_tab sample_panes empty_tab) = Panic.
Proof. split; [apply serve_all_reachable; [apply reach_start|by vm_compute]|by vm_compute]. Qed.

(** ** Dividers *)

Definition divider_at_max : Value :=
  command_of "resize" [("tab", JString "tab-1"); ("path", JArray []); ("index", from_usize usize_max); ("share", num f_half_)].

(** A divider index of [usize::MAX] overflows where the next child is looked for. *)
Theorem divider_overflows :
  reachable two_panes /\ fst (serve divider_at_max sample_panes two_panes) = Panic.
Proof. split; [apply serve_all_reachable; [apply reach_start|by vm_compute]|by vm_compute]. Qed.

(** ** Claiming a task *)

(** Two tasks on the desk of ["mac"]: [p3]'s, in front, and [p1]'s. *)
Definition two_tasks_requests : list Value := [place_at "p1" (docked_at ELeft); place_at "p3" (docked_at ELeft)].
Definition two_tasks : Model := serve_all two_tasks_requests model_default.
Definition claim_p1 : Value := command_of "task" [("action", JString "claim"); ("task", JString "p1"); ("app", JString MAC_APP)].

(** A claim of a task that is out on the claiming app already, but not in front, answers
    with another task: the one in front. *)
Theorem claim_names_another_task :
  reachable two_tasks /\
  exists reply, fst (serve claim_p1 sample_panes two_tasks) = Ok reply /\ get (JObject reply) "task" = Some (JString "p3").
Proof.
  split; [apply serve_all_reachable; [apply reach_start|by vm_compute]|].
  eexists. split; [vm_compute; reflexivity|by vm_compute].
Qed.

(** ** Saving a background pane *)

Definition background_at (ws : string) : Placement :=
  mkPlacement None (Some ws) SAuto f_half_ false None false None None None false false false false true.
Definition background_requests : list Value :=
  [place_at "p1" (docked_at ELeft); place_at "p2" (background_at "ws-1")].
Definition background_layout : Model := serve_all background_requests model_default.
Definition reinstall (m : Model) : Value :=
  obj [("op", JString "install"); ("ids", JArray (map JString (all_panes m))); ("state", JObject (export_v1 m))].

(** A background pane is in the export ([export_v1], which the [export] request answers),
    and gone from the layout the export installs. *)
Theorem background_is_not_reread :
  reachable background_layout /\ all_panes background_layout = ["p1"; "p2"] /\
  came_to (serve (reinstall background_layout) sample_panes background_layout) = ("ok", ["p1"]).
Proof. split; [apply serve_all_reachable; [apply reach_start|by vm_compute]|]. split; by vm_compute. Qed.
