(* ===== verification/PeerLog.v ===== *)
(** * The peer log: [crates/kanna-net/src/log.rs], with the canonical JSON of [lib.rs]

    The machines that trust each other share a log of signed entries: an entry adds a key
    under a name, or revokes one.  An entry names its parents, so the log is a graph; what a
    machine trusts is a [View] of it.  SHA-256, the signatures of iroh, the text of a JSON
    value and the order in which a [HashSet] is visited are parameters. *)

From S2P Require Import Prelude Text F64 Json.
From Stdlib Require Import Ascii.

(** ** What the log takes from outside *)

(** [sig_ok key signature message] is [PublicKey::from_bytes] and [verify] on raw bytes;
    [public] is the printed public key of a secret one. *)
Class Crypto := {
  Secret : Type;
  public : Secret -> string;
  sign_bytes : Secret -> string -> string;
  sig_ok : string -> string -> string -> bool;
  sha256 : string -> string;
  to_vec : Value -> string }.

(** The order in which a [HashSet] is visited, which the machines do not share. *)
Class HashOrder := hash_iter : gset string -> list string.

Record Refused := mkRefused { refused_code : string }.

Definition refused {A} (code : string) : outcome Refused A := Bad (mkRefused code).

(** [Refused::message] *)
Definition refused_messages : list (string * string) := [
  ("bad_signature", "a signature doesn't verify");
  ("wrong_log", "it belongs to another peer log");
  ("untrusted_signer", "its signer wasn't trusted when it signed");
  ("revoked", "that key is revoked");
  ("identity_mismatch", "that name belongs to another key");
  ("unpaired", "it isn't paired with this machine");
  ("untrusted_endpoint", "that endpoint isn't trusted");
  ("pake_confirmation_failed", "the code didn't match");
  ("bad_pake_message", "the pairing exchange was malformed");
  ("handoff_tampered", "the peer log handed over was altered");
  ("gesture_required", "it wasn't confirmed in Kanna.app");
  ("code_used", "that code was used already");
  ("code_expired", "that code expired");
  ("rate_limited", "too many wrong codes: start pairing again");
  ("already_paired", "this machine is paired already")].

Definition refused_message (r : Refused) : string :=
  match List.find (fun '(code, _) => bool_decide (code = refused_code r)) refused_messages with
  | Some (_, message) => message
  | None => "refused"
  end.

(** ** [serde_json]'s indexing and equality *)

(** [value[key]]: null where there is none. *)
Definition idx (value : Value) (key : string) : Value := default JNull (get value key).
Definition str_at (value : Value) (key : string) : string := default "" (as_str (idx value key)).
(** [value == text] *)
Definition is_text (value : Value) (text : string) : bool := bool_decide (as_str value = Some text).

Definition number_eq (a b : JsonNumber) : bool :=
  match a, b with
  | PosInt x, PosInt y => (x =? y)%N
  | NegInt x, NegInt y => (x =? y)%Z
  | Float x, Float y => feq x y
  | _, _ => false
  end.

(** [Value]'s [PartialEq]: objects are equal whatever the order of their fields. *)
Fixpoint value_eq (a b : Value) : bool :=
  match a, b with
  | JNull, JNull => true
  | JBool x, JBool y => Bool.eqb x y
  | JNumber x, JNumber y => number_eq x y
  | JString x, JString y => bool_decide (x = y)
  | JArray x, JArray y =>
    (fix go x y :=
       match x, y with
       | [], [] => true
       | v :: x, w :: y => value_eq v w && go x y
       | _, _ => false
       end) x y
  | JObject x, JObject y =>
    bool_decide (length x = length y) &&
    (fix go (x : Map) :=
       match x with
       | [] => true
       | (k, v) :: x => match map_get y k with Some w => value_eq v w | None => false end && go x
       end) x
  | _, _ => false
  end.

(** ** lib.rs: canonical JSON, digests and hexadecimal *)

Fixpoint sorted (value : Value) : Value :=
  match value with
  | JObject fields =>
    let done := map (fun '(k, v) => (k, sorted v)) fields in
    JObject (omap (fun k => (fun v => (k, v)) <$> map_get done k) (sort_strings (map fst fields)))
  | JArray items => JArray (map sorted items)
  | other => other
  end.

Definition hex_digits : string := "0123456789abcdef".
Definition hex_char (n : N) : ascii := default "0"%char (String.get (N.to_nat n) hex_digits).

Fixpoint hex_of (bytes : string) : string :=
  match bytes with
  | EmptyString => ""
  | String a s => let n := N_of_ascii a in String (hex_char (n / 16)) (String (hex_char (n mod 16)) (hex_of s))
  end.

Definition hex_value (a : ascii) : option N :=
  let n := N_of_ascii a in
  if (48 <=? n)%N && (n <=? 57)%N then Some (n - 48)%N
  else if (97 <=? n)%N && (n <=? 102)%N then Some (n - 87)%N
  else if (65 <=? n)%N && (n <=? 70)%N then Some (n - 55)%N
  else None.

(** [u8::from_str_radix] of two characters, which takes a leading plus. *)
Definition hex_byte (a b : ascii) : option N :=
  lo ← hex_value b;
  if decide (a = "+"%char) then Some lo else hi ← hex_value a; Some (hi * 16 + lo)%N.

Fixpoint unhex_pairs (text : string) : option string :=
  match text with
  | EmptyString => Some ""
  | String a (String b s) => n ← hex_byte a b; rest ← unhex_pairs s; Some (String (ascii_of_N n) rest)
  | String _ EmptyString => None
  end.

Definition is_ascii (text : string) : bool := forallb (fun a => (N_of_ascii a <? 128)%N) (string_bytes text).

Definition unhex (text : string) : option string :=
  if negb (Nat.even (String.length text)) || negb (is_ascii text) then None else unhex_pairs text.

Section Log.
Context `{Crypto} {order : HashOrder}.

Definition canonical (value : Value) : string := to_vec (sorted value).
Definition digest (value : Value) : string := hex_of (sha256 (canonical value)).

(** ** Signatures *)

Definition DOMAIN : string := "kanna/machines/1".
Definition APP_DOMAIN : string := DOMAIN +:+ "/app".

(** [try_into] an array of [n] bytes *)
Definition bytes_of (n : nat) (text : string) : option string :=
  b ← unhex text; if decide (String.length b = n) then Some b else None.

Definition verify (key signature message : string) : outcome Refused unit :=
  match bytes_of 32 key, bytes_of 64 signature with
  | Some k, Some s => if sig_ok k s message then Good tt else refused "bad_signature"
  | _, _ => refused "bad_signature"
  end.

Definition sign (secret : Secret) (message : string) : string := hex_of (sign_bytes secret message).

Definition certificate (secret : Secret) (app_key : string) : Value :=
  let body := obj [("domain", JString APP_DOMAIN); ("key", JString app_key); ("device", JString (public secret))] in
  obj [("body", body); ("signature", JString (sign secret (canonical body)))].

(** ** Views *)

Record View := mkView {
  v_names : gmap string (gset string);
  v_revoked : gset string;
  v_descriptors : gmap string Value }.

(** The one key of a name that has one. *)
Definition only (keys : gset string) : option string :=
  match elements keys with [key] => Some key | _ => None end.

Definition trusted (v : View) : gset string :=
  list_to_set (omap (fun name => keys ← v_names v !! name; key ← only keys;
                       if decide (key ∈ v_revoked v) then None else Some key) (sorted_keys (v_names v))).

Definition is_phone (v : View) (key : string) : bool :=
  match v_descriptors v !! key with Some d => is_text (idx d "role") "phone" | None => false end.

Definition machines (v : View) : gset string := filter (fun key => is_phone v key = false) (trusted v).
Definition phones (v : View) : gset string := filter (fun key => is_phone v key = true) (trusted v).

Definition resolve (v : View) (name key : string) : outcome Refused unit :=
  match v_names v !! name with
  | None => refused "unpaired"
  | Some keys =>
    if bool_decide (size keys ≠ 1) || bool_decide (key ∉ keys) then refused "identity_mismatch"
    else if decide (key ∈ v_revoked v) then refused "revoked"
    else Good tt
  end.

Definition name_of (v : View) (key : string) : option string :=
  List.find (fun name => match v_names v !! name with
                         | Some keys => bool_decide (size keys = 1) && bool_decide (key ∈ keys)
                         | None => false
                         end) (sorted_keys (v_names v)).

Definition key_of (v : View) (name : string) : option string := keys ← v_names v !! name; only keys.

(** ** The log *)

Record Log := mkLog {
  lg_anchor : Value;
  lg_id : string;
  lg_events : gmap string Value;
  lg_pending : gmap string Value }.

Definition log_new (anchor : Value) : Log := mkLog anchor (digest anchor) ∅ ∅.

Definition strings (value : Value) : list string := omap as_str (default [] (as_array value)).

Definition body_of (entry : Value) : Value := idx entry "body".
Definition parents_of (entry : Value) : list string := strings (idx (body_of entry) "parents").
Definition payload_of (entry : Value) : Value := idx (body_of entry) "payload".
Definition signer_of (entry : Value) : string := str_at (body_of entry) "signer".
Definition key_in (entry : Value) : string := str_at (payload_of entry) "key".
Definition name_in (entry : Value) : string := str_at (payload_of entry) "name".
Definition is_kind (entry : Value) (kind : string) : bool := is_text (idx (body_of entry) "kind") kind.

(** [ancestors]: [todo] is the stack, its top last in the source and first here.  [None] is
    the panic of indexing an event the log has not; a fuel too small is [None] too. *)
Fixpoint ancestors_from (fuel : nat) (events : gmap string Value) (todo : list string) (found : gset string)
  : option (gset string) :=
  match fuel with
  | 0 => None
  | S fuel =>
    match todo with
    | [] => Some found
    | id :: todo =>
      if decide (id ∈ found) then ancestors_from fuel events todo found
      else
        entry ← events !! id;
        ancestors_from fuel events (rev (parents_of entry) ++ todo) ({[id]} ∪ found)
    end
  end.

Definition edges (events : gmap string Value) : nat := sum_list_with (fun e => S (length (parents_of e.2))) (map_to_list events).

Definition ancestors (events : gmap string Value) (parents : list string) : option (gset string) :=
  ancestors_from (S (length parents + edges events)) events (rev parents) ∅.

(** [merged["addrs"] = ..] panics on a value that is neither an object nor null. *)
Definition put_addrs (value : Value) (addrs : Value) : option Value :=
  match value with
  | JObject fields => Some (JObject (map_insert fields "addrs" addrs))
  | JNull => Some (obj [("addrs", addrs)])
  | _ => None
  end.

Definition merge_descriptor (known newer : Value) : option Value :=
  let addrs := foldl (fun acc addr => if contains acc addr then acc else acc ++ [addr])
                 (strings (idx known "addrs")) (strings (idx newer "addrs")) in
  put_addrs newer (JArray (map JString addrs)).

(** ** [view_of] *)

Definition add_to {A} `{Countable A} (m : gmap string (gset A)) (k : string) (s : gset A) : gmap string (gset A) :=
  <[k := default ∅ (m !! k) ∪ s]> m.

(** The revocations among the ids: the revoked keys, and what each one's revokers had seen. *)
Fixpoint revocations (events : gmap string Value) (ids : list string) (revoked : gset string)
    (seen : gmap string (gset string)) : option (gset string * gmap string (gset string)) :=
  match ids with
  | [] => Some (revoked, seen)
  | id :: ids =>
    entry ← events !! id;
    if is_kind entry "revoke" then
      past ← ancestors events (parents_of entry);
      revocations events ids ({[key_in entry]} ∪ revoked) (add_to seen (key_in entry) past)
    else revocations events ids revoked seen
  end.

(** What the loop over the additions changes. *)
Record Adding := mkAdding {
  ad_signers : gset string;
  ad_names : gmap string (gset string);
  ad_descriptors : gmap string Value }.

(** An addition waits while its signer is unknown, or revoked by those who had not seen it. *)
Definition waits (revoked : gset string) (seen : gmap string (gset string)) (signers : gset string)
    (id : string) (entry : Value) : bool :=
  let signer := signer_of entry in
  let unseen := bool_decide (signer ∈ revoked) && negb (bool_decide (id ∈ default ∅ (seen !! signer))) in
  negb (bool_decide (signer ∈ signers)) || unseen.

Definition take_add (st : Adding) (entry : Value) : option Adding :=
  let payload := payload_of entry in
  let key := key_in entry in
  merged ← match ad_descriptors st !! key with
           | Some known => merge_descriptor known payload
           | None => Some payload
           end;
  Some (mkAdding ({[key]} ∪ ad_signers st) (add_to (ad_names st) (name_in entry) {[key]})
          (<[key := merged]> (ad_descriptors st))).

(** One [retain] over the additions: those that still wait, and what the others added. *)
Fixpoint add_pass (events : gmap string Value) (revoked : gset string) (seen : gmap string (gset string))
    (adds : list string) (st : Adding) : option (list string * Adding) :=
  match adds with
  | [] => Some ([], st)
  | id :: adds =>
    entry ← events !! id;
    if waits revoked seen (ad_signers st) id entry then
      '(rest, st) ← add_pass events revoked seen adds st; Some (id :: rest, st)
    else st ← take_add st entry; add_pass events revoked seen adds st
  end.

Fixpoint add_loop (fuel : nat) (events : gmap string Value) (revoked : gset string) (seen : gmap string (gset string))
    (adds : list string) (st : Adding) : option Adding :=
  match fuel with
  | 0 => None
  | S fuel =>
    '(rest, st) ← add_pass events revoked seen adds st;
    if decide (length rest = length adds) then Some st else add_loop fuel events revoked seen rest st
  end.

Definition adding_start (anchor : Value) : Adding :=
  let key := str_at anchor "key" in
  mkAdding {[key]} {[str_at anchor "name" := {[key]}]} {[key := anchor]}.

Definition adds_of (events : gmap string Value) (ids : list string) : option (list string) :=
  es ← mapM (fun id => e ← events !! id; Some (id, e)) ids;
  Some (map fst (retain (fun '(_, e) => is_kind e "add") es)).

Definition view_of (anchor : Value) (events : gmap string Value) (ids : list string) : option View :=
  '(revoked, seen) ← revocations events ids ∅ ∅;
  adds ← adds_of events ids;
  st ← add_loop (S (length adds)) events revoked seen adds (adding_start anchor);
  Some (mkView (ad_names st) revoked (ad_descriptors st)).

Definition log_view (l : Log) : option View := view_of (lg_anchor l) (lg_events l) (sorted_keys (lg_events l)).

(** ** Merging *)

(** A panic is [Crash]. *)
Definition no_panic {A} (o : option A) : outcome Refused A := match o with Some a => Good a | None => Crash end.

(** What [authorize] asks of an entry, given the view of its ancestors. *)
Definition judge (past : View) (entry : Value) : outcome Refused unit :=
  let signer := signer_of entry in
  let key := key_in entry in
  if negb (bool_decide (signer ∈ trusted past)) then refused "untrusted_signer"
  else if is_phone past signer && (negb (is_kind entry "revoke") || negb (bool_decide (key = signer)))
  then refused "untrusted_signer"
  else if is_kind entry "add" then
    if bool_decide (key ∈ v_revoked past) then refused "revoked"
    else if str_is_empty (name_in entry) || negb (bool_decide (String.length key = 64)) then refused "bad_entry"
    else match v_names past !! name_in entry with
         | Some keys => if bool_decide (size keys ≠ 1) || bool_decide (key ∉ keys) then refused "identity_mismatch" else Good tt
         | None => Good tt
         end
  else if is_kind entry "revoke" then Good tt
  else refused "unknown_entry".

Definition authorize (l : Log) (entry : Value) : outcome Refused unit :=
  let* found := no_panic (ancestors (lg_events l) (parents_of entry)) in
  let* past := no_panic (view_of (lg_anchor l) (lg_events l) (hash_iter found)) in
  judge past entry.

(** The first loop of [merge]: each entry's signature and log are checked, and it waits in
    [pending] unless it is an event already. *)
Definition check_entry (l : Log) (entry : Value) : outcome Refused unit :=
  let body := body_of entry in
  let* _ := verify (str_at body "signer") (str_at entry "signature") (canonical body) in
  if negb (is_text (idx body "domain") DOMAIN) || negb (is_text (idx body "machines") (lg_id l)) then refused "wrong_log"
  else match idx body "parents" with JArray _ => Good tt | _ => refused "bad_entry" end.

Definition set_pending (l : Log) (pending : gmap string Value) : Log := mkLog (lg_anchor l) (lg_id l) (lg_events l) pending.

Definition keep_pending (l : Log) (entry : Value) : Log :=
  let id := digest entry in
  match lg_events l !! id with Some _ => l | None => set_pending l (<[id := entry]> (lg_pending l)) end.

Fixpoint take_entries (l : Log) (entries : list Value) : outcome Refused Log :=
  match entries with
  | [] => Good l
  | entry :: entries => let* _ := check_entry l entry in take_entries (keep_pending l entry) entries
  end.

Definition is_ready (l : Log) (id : string) : bool :=
  match lg_pending l !! id with
  | Some e => forallb (fun p => bool_decide (is_Some (lg_events l !! p))) (parents_of e)
  | None => false
  end.

Definition ready (l : Log) : list string := retain (is_ready l) (sorted_keys (lg_pending l)).

Definition accept_event (l : Log) (id : string) : outcome Refused Log :=
  let entry := default JNull (lg_pending l !! id) in
  let l := set_pending l (delete id (lg_pending l)) in
  let* _ := authorize l entry in
  Good (mkLog (lg_anchor l) (lg_id l) (<[id := entry]> (lg_events l)) (lg_pending l)).

Fixpoint accept_all (l : Log) (ids : list string) : outcome Refused Log :=
  match ids with
  | [] => Good l
  | id :: ids => let* l := accept_event l id in accept_all l ids
  end.

(** Rounds until nothing is ready.  [None]: the fuel was not enough. *)
Fixpoint settle_log (fuel : nat) (l : Log) : option (outcome Refused Log) :=
  match fuel with
  | 0 => None
  | S fuel =>
    match ready l with
    | [] => Some (Good l)
    | ids => match accept_all l ids with
             | Good l => settle_log fuel l
             | Bad e => Some (Bad e)
             | Crash => Some Crash
             end
    end
  end.

(** [merge]: the number of new events and the log; on an error the log stays as it was. *)
Definition merge (l : Log) (entries : list Value) : option (outcome Refused nat * Log) :=
  match take_entries l entries with
  | Bad e => Some (Bad e, l)
  | Crash => Some (Crash, l)
  | Good stage =>
    r ← settle_log (S (size (lg_pending stage))) stage;
    Some match r with
         | Good done => (Good (size (lg_events done) - size (lg_events l)), done)
         | Bad e => (Bad e, l)
         | Crash => (Crash, l)
         end
  end.

(** ** What the log gives and takes *)

Definition values_in_order (m : gmap string Value) : list Value := omap (fun k => m !! k) (sorted_keys m).

Definition entries (l : Log) : list Value := values_in_order (lg_events l) ++ values_in_order (lg_pending l).

Definition export (l : Log) : Value := obj [("anchor", lg_anchor l); ("entries", JArray (entries l))].

Definition sync (l : Log) (envelope : Value) : option (outcome Refused nat * Log) :=
  if negb (value_eq (idx envelope "anchor") (lg_anchor l)) then Some (refused "wrong_log", l)
  else merge l (default [] (as_array (idx envelope "entries"))).

Definition referenced (l : Log) : list string := flat_map (fun id => default [] (parents_of <$> lg_events l !! id)) (sorted_keys (lg_events l)).

Definition frontier (l : Log) : list string :=
  retain (fun id => negb (contains (referenced l) id)) (sorted_keys (lg_events l)).

Definition entry_body (l : Log) (secret : Secret) (kind : string) (payload : Value) (parents : option (list string)) (time : Z) : Value :=
  obj [("domain", JString DOMAIN); ("machines", JString (lg_id l)); ("kind", JString kind);
       ("signer", JString (public secret));
       ("parents", JArray (map JString (sort_strings (default (frontier l) parents))));
       ("payload", payload); ("claimed_time", from_i64 time)].

Definition entry (l : Log) (secret : Secret) (kind : string) (payload : Value) (parents : option (list string)) (time : Z) : Value :=
  let body := entry_body l secret kind payload parents time in
  obj [("body", body); ("signature", JString (sign secret (canonical body)))].

Definition accept_endpoint (l : Log) (key : string) (cert : option Value) : outcome Refused unit :=
  let* view := no_panic (log_view l) in
  if decide (key ∈ v_revoked view) then refused "untrusted_endpoint"
  else if decide (key ∈ machines view) then Good tt
  else
    let* cert := good_or cert (mkRefused "untrusted_endpoint") in
    let body := body_of cert in
    let* _ := verify (str_at body "device") (str_at cert "signature") (canonical body) in
    if negb (is_text (idx body "domain") APP_DOMAIN) || negb (is_text (idx body "key") key)
       || negb (bool_decide (str_at body "device" ∈ machines view))
    then refused "untrusted_endpoint" else Good tt.
End Log.
