(* ===== verification/PeerFacts.v ===== *)
(** * The peer log's graph and views: [crates/kanna-net/src/log.rs]

    What [ancestors] and [view_of] compute, as relations on the log's events. *)

From stdpp Require Import relations.
From S2P Require Import Prelude Text F64 Json PeerLog.

(** ** Ancestors *)

Definition parent (events : gmap string Value) (x y : string) : Prop :=
  exists e, events !! x = Some e /\ y ∈ parents_of e.

(** Every parent of an event is an event. *)
Definition closed (events : gmap string Value) : Prop := forall x y, parent events x y -> is_Some (events !! y).

Definition all_in (events : gmap string Value) (ids : list string) : Prop := forall x, x ∈ ids -> is_Some (events !! x).

(** [x] is a parent of the list, or one of theirs, and so on. *)
Definition ancestor (events : gmap string Value) (parents : list string) (x : string) : Prop :=
  exists p, p ∈ parents /\ rtc (parent events) p x.

Lemma closed_rtc events x y : closed events -> is_Some (events !! x) -> rtc (parent events) x y -> is_Some (events !! y).
Proof. intros Hc Hx Hr. induction Hr as [|x y z Hp _ IH]; [done|]. apply IH. by eapply Hc. Qed.

Definition unfound (events : gmap string Value) (found : gset string) : nat :=
  edges (filter (fun kv => kv.1 ∉ found) events).

Lemma edges_delete events id e :
  events !! id = Some e -> edges events = S (length (parents_of e)) + edges (delete id events).
Proof. intros He. unfold edges. by rewrite <- (map_to_list_delete events id e He). Qed.

Lemma unfound_take events found id e :
  events !! id = Some e -> id ∉ found ->
  unfound events found = S (length (parents_of e)) + unfound events ({[id]} ∪ found).
Proof.
  intros He Hn. unfold unfound. rewrite (edges_delete _ id e) by by apply map_lookup_filter_Some.
  do 2 f_equal. apply map_eq. intros k. rewrite lookup_delete. case_decide as Ek.
  - subst. symmetry. apply map_lookup_filter_None. right. intros x _ Hx. simpl in Hx. set_solver.
  - apply option_eq. intros v. rewrite !map_lookup_filter_Some. simpl. set_solver.
Qed.

Section Search.
Context (events : gmap string Value) (parents : list string).
Context (Hclosed : closed events).

Record searching (todo : list string) (found : gset string) : Prop := {
  se_sound : forall x, x ∈ found \/ x ∈ todo -> ancestor events parents x;
  se_in : all_in events todo;
  se_start : forall p, p ∈ parents -> p ∈ found \/ p ∈ todo;
  se_closed : forall x y, x ∈ found -> parent events x y -> y ∈ found \/ y ∈ todo }.

Lemma searching_skip id todo found : searching (id :: todo) found -> id ∈ found -> searching todo found.
Proof. intros [H1 H2 H3 H4] Hin. split; unfold all_in in *; set_solver. Qed.

Lemma searching_take id e todo found :
  searching (id :: todo) found -> events !! id = Some e -> searching (rev (parents_of e) ++ todo) ({[id]} ∪ found).
Proof.
  intros [H1 H2 H3 H4] He.
  assert (forall y, y ∈ rev (parents_of e) <-> parent events id y) as Hp.
  { intros y. rewrite elem_of_rev. split; [by exists e|]. intros (e' & He' & Hy). by simplify_eq. }
  assert (ancestor events parents id) as (p & Hpin & Hr) by (apply H1; right; by left).
  split.
  - intros x [[->%elem_of_singleton|Hx]%elem_of_union|[Hx|Hx]%elem_of_app]; [by exists p|apply H1; by left| |apply H1; right; by right].
    exists p. split; [done|]. eapply rtc_r; [done|]. by apply Hp.
  - intros x [Hx|Hx]%elem_of_app; [|apply H2; by right]. eapply Hclosed. by apply Hp.
  - set_solver.
  - intros x y [->%elem_of_singleton|Hx]%elem_of_union Hxy; [right; apply elem_of_app; left; by apply Hp|].
    destruct (H4 x y Hx Hxy) as [?|Hy]; [set_solver|]. apply elem_of_cons in Hy as [->|?]; set_solver.
Qed.

Lemma ancestors_from_spec fuel todo found :
  searching todo found -> length todo + unfound events found < fuel ->
  exists s, ancestors_from fuel events todo found = Some s /\ forall x, x ∈ s <-> ancestor events parents x.
Proof.
  revert todo found. induction fuel as [|fuel IH]; [lia|]. intros todo found Hs Hf. simpl.
  destruct todo as [|id todo].
  - exists found. split; [done|]. destruct Hs as [H1 H2 H3 H4]. intros x. split; [intros Hx; apply H1; by left|].
    intros (p & Hp & Hr). assert (p ∈ found) as Hpf by (destruct (H3 p Hp) as [?|?%elem_of_nil]; done).
    clear Hp. induction Hr as [|p q x Hpq _ IHr]; [done|]. apply IHr. by destruct (H4 p q Hpf Hpq) as [?|?%elem_of_nil].
  - case_decide as Hin.
    + apply IH; [by eapply searching_skip|simpl in Hf; lia].
    + destruct (se_in _ _ Hs id ltac:(by left)) as [e He]. rewrite He. simpl.
      apply IH; [by apply searching_take|]. rewrite (unfound_take _ _ _ _ He Hin) in Hf.
      rewrite length_app, length_rev. simpl in Hf. lia.
Qed.

Lemma ancestors_spec :
  all_in events parents -> exists s, ancestors events parents = Some s /\ forall x, x ∈ s <-> ancestor events parents x.
Proof.
  intros Hall. unfold ancestors. apply ancestors_from_spec.
  - split; [|intros x; rewrite elem_of_rev; apply Hall|intros p Hp; right; by apply elem_of_rev|set_solver].
    intros x [?|Hx]; [set_solver|]. exists x. split; [by apply elem_of_rev|done].
  - rewrite length_rev. unfold unfound. rewrite map_filter_id by set_solver. lia.
Qed.
End Search.

(** A bigger log says the same of what was there. *)
Lemma parent_mono events events' x y : events ⊆ events' -> parent events x y -> parent events' x y.
Proof. intros Hs (e & He & Hy). exists e. split; [by eapply lookup_weaken|done]. Qed.

Lemma ancestor_mono events events' parents x : events ⊆ events' -> ancestor events parents x -> ancestor events' parents x.
Proof.
  intros Hs (p & Hp & Hr). exists p. split; [done|]. clear Hp. induction Hr as [|a b c Hab _ IH]; [done|]. eapply rtc_l; [by eapply parent_mono|done].
Qed.

Lemma ancestor_back events events' parents x :
  events ⊆ events' -> closed events -> all_in events parents -> ancestor events' parents x -> ancestor events parents x.
Proof.
  intros Hs Hc Hall (p & Hp & Hr). exists p. split; [done|]. specialize (Hall p Hp). clear Hp.
  induction Hr as [|p q x (e & He & Hq) _ IH]; [done|]. destruct Hall as [e' He'].
  assert (e' = e) as -> by (eapply lookup_weaken in He'; [|done]; by simplify_eq).
  assert (parent events p q) as Hpq by by exists e. eapply rtc_l; [done|]. apply IH. by eapply Hc.
Qed.

Lemma ancestor_in events parents x : closed events -> all_in events parents -> ancestor events parents x -> is_Some (events !! x).
Proof. intros Hc Hall (p & Hp & Hr). eapply closed_rtc; [done|by apply Hall|done]. Qed.

Lemma ancestors_mono events events' parents :
  events ⊆ events' -> closed events -> closed events' -> all_in events parents ->
  ancestors events' parents = ancestors events parents.
Proof.
  intros Hs Hc Hc' Hall.
  destruct (ancestors_spec events parents Hc Hall) as (s & -> & Hin).
  destruct (ancestors_spec events' parents Hc') as (s' & -> & Hin').
  { intros x Hx. destruct (Hall x Hx) as [e He]. exists e. by eapply lookup_weaken. }
  f_equal. apply set_eq. intros x. rewrite Hin, Hin'. split; [by apply ancestor_back|by apply ancestor_mono].
Qed.

(** ** What a view is

    The ids' revocations, and the additions that chain back to the anchor: the signer of each
    is the anchor's key or was added so itself, and where the signer is revoked, one of its
    revokers had seen the addition. *)

Section Views.
Context (anchor : Value) (events : gmap string Value) (ids : list string).

Definition has_event (kind : string) (id : string) (e : Value) : Prop :=
  id ∈ ids /\ events !! id = Some e /\ is_kind e kind = true.

Definition revoked_in (key : string) : Prop := exists id e, has_event "revoke" id e /\ key_in e = key.

Definition seen_in (key id : string) : Prop :=
  exists r e, has_event "revoke" r e /\ key_in e = key /\ ancestor events (parents_of e) id.

Definition counts (id : string) (e : Value) : Prop := ¬ revoked_in (signer_of e) \/ seen_in (signer_of e) id.

Inductive rooted : string -> Prop :=
| rooted_anchor : rooted (str_at anchor "key")
| rooted_add id e : has_event "add" id e -> rooted (signer_of e) -> counts id e -> rooted (key_in e).

Definition named (name key : string) : Prop :=
  (name = str_at anchor "name" /\ key = str_at anchor "key") \/
  exists id e, has_event "add" id e /\ rooted (signer_of e) /\ counts id e /\ name = name_in e /\ key = key_in e.

Lemma named_rooted name key : named name key -> rooted key.
Proof. intros [[_ ->]|(id & e & ? & ? & ? & _ & ->)]; [constructor|by eapply rooted_add]. Qed.

(** The roles the anchor and the additions give a key. *)
Definition role_in (key : string) (role : Value) : Prop :=
  (key = str_at anchor "key" /\ role = idx anchor "role") \/
  exists id e, has_event "add" id e /\ key = key_in e /\ role = idx (payload_of e) "role".

(** Names with the keys they have had. *)
Definition names_are (names : gmap string (gset string)) (P : string -> string -> Prop) : Prop :=
  (forall name keys key, names !! name = Some keys -> key ∈ keys -> P name key) /\
  (forall name key, P name key -> exists keys, names !! name = Some keys /\ key ∈ keys) /\
  (forall name keys, names !! name = Some keys -> keys ≠ ∅).

Lemma names_are_eq names names' P : names_are names P -> names_are names' P -> names = names'.
Proof.
  assert (forall n n' : gmap string (gset string), names_are n P -> names_are n' P ->
    forall name keys, n !! name = Some keys -> n' !! name = Some keys) as Hwlog.
  { intros n n' (Hs & Hc & Hn) (Hs' & Hc' & _) name keys Hk. specialize (Hn name keys Hk).
    apply set_choose_L in Hn as [k Hin]. destruct (Hc' name k (Hs _ _ _ Hk Hin)) as (keys' & Hk' & _).
    rewrite Hk'. f_equal. apply set_eq. intros x. split; intros Hx.
    - destruct (Hc name x (Hs' _ _ _ Hk' Hx)) as (? & ? & ?). by simplify_eq.
    - destruct (Hc' name x (Hs _ _ _ Hk Hx)) as (? & ? & ?). by simplify_eq. }
  intros H1 H2. apply map_eq. intros name. apply option_eq. intros keys. split; by eapply Hwlog.
Qed.

Lemma add_to_are names P name key :
  names_are names P -> names_are (add_to names name {[key]}) (fun n k => P n k \/ (n = name /\ k = key)).
Proof.
  intros (Hs & Hc & Hn). unfold add_to. split_and!.
  - intros n keys k. rewrite lookup_insert. case_decide; subst.
    + intros [= <-] [Hk|Hk]%elem_of_union; [|apply elem_of_singleton in Hk as ->; by right].
      destruct (names !! n) as [ks|] eqn:E; [left; by eapply Hs|set_solver].
    + intros ? ?. left. by eapply Hs.
  - intros n k HP. rewrite lookup_insert. case_decide as E; subst.
    + eexists. split; [done|]. destruct HP as [HP|[_ ->]]; [|set_solver].
      destruct (Hc n k HP) as (ks & -> & ?). simpl. set_solver.
    + destruct HP as [HP|[? _]]; [by apply Hc|done].
  - intros n keys. rewrite lookup_insert. case_decide; subst; [intros [= <-]; set_solver|apply Hn].
Qed.

Lemma names_are_iff names P Q : (forall n k, P n k <-> Q n k) -> names_are names P -> names_are names Q.
Proof. intros HPQ (Hs & Hc & Hn). split_and!; [|intros n k ?%HPQ; by apply Hc|done]. intros. apply HPQ. by eapply Hs. Qed.
End Views.

(** *** Revocations *)

Section Revocations.
Context (events : gmap string Value) (Hclosed : closed events).

Lemma revocations_spec ids revoked seen :
  all_in events ids ->
  exists revoked' seen', revocations events ids revoked seen = Some (revoked', seen') /\
    (forall k, k ∈ revoked' <-> k ∈ revoked \/ revoked_in events ids k) /\
    (forall k x, x ∈ default ∅ (seen' !! k) <-> x ∈ default ∅ (seen !! k) \/ seen_in events ids k x).
Proof.
  revert revoked seen. induction ids as [|id ids IH]; simpl; intros revoked seen Hall.
  { exists revoked, seen. split; [done|]. split; intros; (split; [by left|]); intros [?|Hr]; try done.
    - destruct Hr as (? & ? & (Hin & _) & _). by apply elem_of_nil in Hin.
    - destruct Hr as (? & ? & (Hin & _) & _). by apply elem_of_nil in Hin. }
  destruct (Hall id ltac:(by left)) as [e He]. rewrite He. simpl.
  assert (all_in events ids) as Hall' by (intros x Hx; apply Hall; by right).
  assert (forall kind i e', has_event events (id :: ids) kind i e' <->
            (i = id /\ e' = e /\ is_kind e kind = true) \/ has_event events ids kind i e') as Hsplit.
  { intros kind i e'. unfold has_event. rewrite elem_of_cons. naive_solver. }
  destruct (is_kind e "revoke") eqn:Ek.
  - destruct (ancestors_spec events (parents_of e) Hclosed) as (past & -> & Hpast).
    { intros y Hy. eapply Hclosed. by exists e. }
    simpl. destruct (IH ({[key_in e]} ∪ revoked) (add_to seen (key_in e) past) Hall') as (r' & s' & -> & Hr & Hs).
    exists r', s'. split; [done|]. split.
    + intros k. rewrite Hr, elem_of_union, elem_of_singleton. unfold revoked_in. setoid_rewrite Hsplit. naive_solver.
    + intros k x. rewrite Hs. unfold add_to. rewrite lookup_insert. unfold seen_in. setoid_rewrite Hsplit.
      case_decide as Ekey; simpl; [rewrite elem_of_union, Hpast|]; naive_solver.
  - destruct (IH revoked seen Hall') as (r' & s' & -> & Hr & Hs). exists r', s'. split; [done|]. split.
    + intros k. rewrite Hr. unfold revoked_in. setoid_rewrite Hsplit. naive_solver congruence.
    + intros k x. rewrite Hs. unfold seen_in. setoid_rewrite Hsplit. naive_solver congruence.
Qed.
End Revocations.

(** *** Additions *)

(** An addition's payload is an object, so that its addresses can be merged. *)
Definition adds_open (events : gmap string Value) : Prop :=
  forall id e, events !! id = Some e -> is_kind e "add" = true -> is_object (payload_of e) = true.

(** A merged descriptor has the role of the newer one. *)
Lemma merge_descriptor_total known newer :
  is_object newer = true -> exists d, merge_descriptor known newer = Some d /\ idx d "role" = idx newer "role".
Proof.
  unfold merge_descriptor, put_addrs. destruct newer as [| | | | |fields]; try done. intros _. eexists. split; [reflexivity|].
  unfold idx. simpl. by rewrite map_get_insert_ne.
Qed.

Section Additions.
Context (anchor : Value) (events : gmap string Value) (ids : list string).
Context (revoked : gset string) (seen : gmap string (gset string)).
Context (Hopen : adds_open events).
Context (Hrevoked : forall k, k ∈ revoked <-> revoked_in events ids k).
Context (Hseen : forall k x, x ∈ default ∅ (seen !! k) <-> seen_in events ids k x).

Notation add_event := (has_event events ids "add").
Notation has_role := (role_in anchor events ids).

Lemma waits_false signers id e :
  waits revoked seen signers id e = false <-> signer_of e ∈ signers /\ counts events ids id e.
Proof.
  unfold waits, counts. rewrite <- Hrevoked, <- Hseen.
  repeat case_bool_decide; simpl; naive_solver.
Qed.

(** [taken] are the additions that the loop has taken, [left] those it has not. *)
Record adding_ok (taken left : list string) (st : Adding) : Prop := {
  ad_taken : forall id, id ∈ taken -> exists e, add_event id e /\ rooted anchor events ids (signer_of e) /\ counts events ids id e;
  ad_left : forall id, id ∈ left -> exists e, add_event id e;
  ad_all : forall id e, add_event id e -> id ∈ taken \/ id ∈ left;
  ad_signers_are : forall k, k ∈ ad_signers st <->
    k = str_at anchor "key" \/ exists id e, id ∈ taken /\ events !! id = Some e /\ k = key_in e;
  ad_names_are : names_are (ad_names st) (fun n k =>
    (n = str_at anchor "name" /\ k = str_at anchor "key") \/
    exists id e, id ∈ taken /\ events !! id = Some e /\ n = name_in e /\ k = key_in e);
  ad_described : forall k, k ∈ ad_signers st -> is_Some (ad_descriptors st !! k);
  ad_roles : forall k d, ad_descriptors st !! k = Some d -> has_role k (idx d "role") }.

Lemma signers_rooted taken left st k : adding_ok taken left st -> k ∈ ad_signers st -> rooted anchor events ids k.
Proof.
  intros Hok [->|(id & e & Hid & He & ->)]%(ad_signers_are _ _ _ Hok); [constructor|].
  destruct (ad_taken _ _ _ Hok id Hid) as (e' & Hev & Hr & Hc). destruct Hev as (? & He' & ?).
  simplify_eq. by eapply rooted_add.
Qed.

Lemma take_add_ok taken left st id e :
  adding_ok taken (id :: left) st -> events !! id = Some e -> waits revoked seen (ad_signers st) id e = false ->
  exists st', take_add st e = Some st' /\ adding_ok (id :: taken) left st'.
Proof.
  intros Hok He [Hsig Hc]%waits_false. pose proof Hok as [H1 H2 H3 H4 H5 H6 H7].
  destruct (H2 id ltac:(by left)) as (e' & Hev). pose proof Hev as (Hin & He' & Hk). simplify_eq.
  unfold take_add.
  assert (exists d, match ad_descriptors st !! key_in e with
                    | Some known => merge_descriptor known (payload_of e) | None => Some (payload_of e) end = Some d
                    /\ idx d "role" = idx (payload_of e) "role") as (d & -> & Hrole).
  { destruct (ad_descriptors st !! key_in e); [|by eexists]. apply merge_descriptor_total. by eapply Hopen. }
  eexists. split; [reflexivity|]. split; simpl.
  - intros x [->|Hx]%elem_of_cons; [|by apply H1]. exists e. split_and!; [done| |done]. by eapply signers_rooted.
  - intros x Hx. apply H2. by right.
  - intros x ex Hx. destruct (H3 x ex Hx) as [?|[->|?]%elem_of_cons]; [left; by right|left; by left|by right].
  - intros k. rewrite elem_of_union, elem_of_singleton, H4. setoid_rewrite elem_of_cons. naive_solver.
  - eapply names_are_iff; [|apply add_to_are, H5]. intros n k. simpl. setoid_rewrite elem_of_cons. naive_solver.
  - intros k. rewrite elem_of_union, elem_of_singleton, lookup_insert. case_decide; [by eexists|]. intros [?|?]; [congruence|by apply H6].
  - intros k d'. rewrite lookup_insert. case_decide; [|apply H7]. intros [= <-]. subst k. right. exists id, e. done.
Qed.

Lemma adding_ok_perm taken left left' st : (forall x, x ∈ left <-> x ∈ left') -> adding_ok taken left st -> adding_ok taken left' st.
Proof. intros Hl [H1 H2 H3 H4 H5 H6 H7]. split; [done| | |done..]; naive_solver. Qed.

(** A pass keeps the state in order; one that takes nothing changes nothing, and all wait. *)
Lemma add_pass_spec adds kept taken st :
  adding_ok taken (kept ++ adds) st ->
  exists rest st' taken', add_pass events revoked seen adds st = Some (rest, st') /\ adding_ok taken' (kept ++ rest) st' /\
    length rest <= length adds /\
    (length rest = length adds -> st' = st /\ taken' = taken /\ rest = adds /\
       forall id e, id ∈ adds -> events !! id = Some e -> waits revoked seen (ad_signers st) id e = true).
Proof.
  revert kept taken st. induction adds as [|id adds IH]; simpl; intros kept taken st Hok.
  { exists [], st, taken. split_and!; [done..|]. intros _. split_and!; [done..|]. by intros ? ? ?%elem_of_nil. }
  destruct (ad_left _ _ _ Hok id) as (e & Hev); [set_solver|]. pose proof Hev as (_ & He & _). rewrite He. simpl.
  destruct (waits revoked seen (ad_signers st) id e) eqn:Ew.
  - destruct (IH (kept ++ [id]) taken st) as (rest & st' & taken' & -> & Hok' & Hlen & Hsame); [by rewrite <- app_assoc|].
    exists (id :: rest), st', taken'. simpl. split_and!; [done|by rewrite <- app_assoc in Hok'|lia|].
    intros Hl. destruct Hsame as (-> & -> & -> & Hw); [lia|]. split_and!; [done..|].
    intros x ex [->|Hx]%elem_of_cons; [by intros; simplify_eq|by apply Hw].
  - destruct (take_add_ok taken (kept ++ adds) st id e) as (st1 & -> & Hok1); [|done|done|].
    { eapply adding_ok_perm; [|done]. intros x. rewrite !elem_of_app, !elem_of_cons, elem_of_app. tauto. }
    simpl. destruct (IH kept (id :: taken) st1 Hok1) as (rest & st' & taken' & -> & Hok' & Hlen & _).
    exists rest, st', taken'. split_and!; [done..|lia|lia].
Qed.

Lemma add_loop_spec fuel adds taken st :
  adding_ok taken adds st -> length adds < fuel ->
  exists st' taken' left, add_loop fuel events revoked seen adds st = Some st' /\ adding_ok taken' left st' /\
    forall id e, id ∈ left -> events !! id = Some e -> waits revoked seen (ad_signers st') id e = true.
Proof.
  revert adds taken st. induction fuel as [|fuel IH]; [lia|]. intros adds taken st Hok Hf. simpl.
  destruct (add_pass_spec adds [] taken st Hok) as (rest & st' & taken' & -> & Hok' & Hlen & Hsame). simpl.
  case_decide as El.
  - destruct (Hsame El) as (-> & -> & -> & Hw). exists st, taken, adds. done.
  - apply (IH rest taken'); [done|lia].
Qed.

(** Where the loop ends, the keys are those the additions root. *)
Lemma rooted_signers taken left st k :
  adding_ok taken left st ->
  (forall id e, id ∈ left -> events !! id = Some e -> waits revoked seen (ad_signers st) id e = true) ->
  rooted anchor events ids k -> k ∈ ad_signers st.
Proof.
  intros Hok Hw Hr. induction Hr as [|id e Hev Hr IH Hc]; [apply (ad_signers_are _ _ _ Hok); by left|].
  pose proof Hev as (_ & He & _). apply (ad_signers_are _ _ _ Hok). right. exists id, e. split_and!; [|done..].
  destruct (ad_all _ _ _ Hok id e Hev) as [?|Hl]; [done|]. specialize (Hw id e Hl He).
  rewrite (proj2 (waits_false _ _ _) (conj IH Hc)) in Hw. done.
Qed.

Lemma names_named taken left st :
  adding_ok taken left st ->
  (forall id e, id ∈ left -> events !! id = Some e -> waits revoked seen (ad_signers st) id e = true) ->
  names_are (ad_names st) (named anchor events ids).
Proof.
  intros Hok Hw. eapply names_are_iff; [|apply (ad_names_are _ _ _ Hok)]. intros n k. unfold named. split.
  - intros [?|(id & e & Hid & He & -> & ->)]; [by left|]. right. exists id, e.
    destruct (ad_taken _ _ _ Hok id Hid) as (e' & Hev & Hr & Hc). pose proof Hev as (_ & He' & _). by simplify_eq.
  - intros [?|(id & e & Hev & Hr & Hc & -> & ->)]; [by left|]. right. exists id, e. pose proof Hev as (_ & He & _).
    split_and!; [|done..]. destruct (ad_all _ _ _ Hok id e Hev) as [?|Hl]; [done|]. pose proof (Hw id e Hl He) as Ht.
    rewrite (proj2 (waits_false _ _ _)) in Ht; [done|]. split; [by eapply rooted_signers|done].
Qed.
End Additions.

(** *** The view *)

Record view_is (anchor : Value) (events : gmap string Value) (ids : list string) (v : View) : Prop := {
  vi_revoked : forall k, k ∈ v_revoked v <-> revoked_in events ids k;
  vi_names : names_are (v_names v) (named anchor events ids);
  vi_described : forall n k, named anchor events ids n k -> is_Some (v_descriptors v !! k);
  vi_roles : forall k d, v_descriptors v !! k = Some d -> role_in anchor events ids k (idx d "role") }.

Lemma adds_of_spec events ids :
  all_in events ids ->
  exists adds, adds_of events ids = Some adds /\ forall id, id ∈ adds <-> exists e, has_event events ids "add" id e.
Proof.
  intros Hall. unfold adds_of.
  assert (exists es, mapM (fun id => e ← events !! id; Some (id, e)) ids = Some es /\
    forall id e, (id, e) ∈ es <-> id ∈ ids /\ events !! id = Some e) as (es & -> & Hes).
  { induction ids as [|id ids IH]; [exists []; split; [done|set_solver]|].
    destruct (Hall id ltac:(by left)) as [e He]. destruct IH as (es & Hm & Hes); [intros x Hx; apply Hall; by right|].
    exists ((id, e) :: es). simpl. rewrite He. simpl. rewrite Hm. split; [done|].
    intros i e'. rewrite !elem_of_cons, Hes. naive_solver. }
  simpl. eexists. split; [reflexivity|].
  intros id. rewrite list_elem_of_In, in_map_iff. unfold has_event. split.
  - intros ([i e] & <- & Hin%list_elem_of_In). apply elem_of_retain in Hin as [Hk Hin]. apply Hes in Hin. exists e. naive_solver.
  - intros (e & Hin & He & Hk). exists (id, e). split; [done|]. apply list_elem_of_In, elem_of_retain. by rewrite Hes.
Qed.

Lemma view_of_spec anchor events ids :
  closed events -> adds_open events -> all_in events ids ->
  exists v, view_of anchor events ids = Some v /\ view_is anchor events ids v.
Proof.
  intros Hc Ho Hall. unfold view_of.
  destruct (revocations_spec events Hc ids ∅ ∅ Hall) as (revoked & seen & -> & Hr & Hs). cbn [mbind option_bind].
  destruct (adds_of_spec events ids Hall) as (adds & -> & Hadds). cbn [mbind option_bind].
  assert (forall k, k ∈ revoked <-> revoked_in events ids k) as Hr' by (intros k; rewrite Hr; set_solver).
  assert (forall k x, x ∈ default ∅ (seen !! k) <-> seen_in events ids k x) as Hs'.
  { intros k x. rewrite Hs, lookup_empty. simpl. set_solver. }
  assert (adding_ok anchor events ids [] adds (adding_start anchor)) as Hstart.
  { unfold adding_start. split; simpl.
    - by intros ? ?%elem_of_nil.
    - intros id Hid. by apply Hadds.
    - intros id e Hev. right. apply Hadds. by exists e.
    - intros k. rewrite elem_of_singleton. set_solver.
    - split_and!.
      + intros name keys key. rewrite lookup_singleton. case_decide; [|done]. intros [= <-] ->%elem_of_singleton. by left.
      + intros name key [[-> ->]|(? & ? & ?%elem_of_nil & _)]; [|done]. rewrite lookup_singleton_eq. eexists. split; [done|set_solver].
      + intros name keys. rewrite lookup_singleton. case_decide; [|done]. intros [= <-]. set_solver.
    - intros k ->%elem_of_singleton. rewrite lookup_singleton_eq. by eexists.
    - intros k d. rewrite lookup_singleton. case_decide; [|done]. intros [= <-]. by left. }
  destruct (add_loop_spec anchor events ids revoked seen Ho Hr' Hs' (S (length adds)) adds [] _ Hstart) as (st & taken & left & -> & Hok & Hw);
    [lia|]. simpl. eexists. split; [reflexivity|]. split; simpl; [done|by eapply names_named| |apply (ad_roles _ _ _ _ _ _ Hok)].
  intros n k Hn%named_rooted. eapply ad_described; [done|]. by eapply rooted_signers.
Qed.

(** *** A view depends on the set of its ids only *)

Section SameIds.
Context (anchor : Value) (events : gmap string Value) (ids ids' : list string).
Context (Hids : forall x, x ∈ ids <-> x ∈ ids').

Lemma has_event_ext kind id e : has_event events ids kind id e <-> has_event events ids' kind id e.
Proof. unfold has_event. by rewrite Hids. Qed.

Lemma revoked_in_ext k : revoked_in events ids k <-> revoked_in events ids' k.
Proof. unfold revoked_in. by setoid_rewrite has_event_ext. Qed.

Lemma counts_ext id e : counts events ids id e <-> counts events ids' id e.
Proof. unfold counts, seen_in. rewrite revoked_in_ext. by setoid_rewrite has_event_ext. Qed.
End SameIds.

Lemma rooted_ext anchor events ids ids' k :
  (forall x, x ∈ ids <-> x ∈ ids') -> rooted anchor events ids k -> rooted anchor events ids' k.
Proof.
  intros Hids Hr. induction Hr as [|id e Hev _ IH Hc]; [constructor|].
  eapply rooted_add; [by apply (has_event_ext events ids ids')|done|by apply (counts_ext events ids ids')].
Qed.

Lemma named_ext anchor events ids ids' n k :
  (forall x, x ∈ ids <-> x ∈ ids') -> named anchor events ids n k <-> named anchor events ids' n k.
Proof.
  intros Hids. unfold named. setoid_rewrite (has_event_ext events ids ids' Hids). setoid_rewrite (counts_ext events ids ids' Hids).
  assert (forall k, rooted anchor events ids k <-> rooted anchor events ids' k) as Hr; [|by setoid_rewrite Hr].
  intros x. split; apply rooted_ext; [done|]. intros y. symmetry. apply Hids.
Qed.

Lemma view_is_ext anchor events ids ids' v v' :
  (forall x, x ∈ ids <-> x ∈ ids') -> view_is anchor events ids v -> view_is anchor events ids' v' ->
  v_names v = v_names v' /\ v_revoked v = v_revoked v'.
Proof.
  intros Hids [Hr Hn _ _] [Hr' Hn' _ _]. split.
  - eapply names_are_eq; [done|]. eapply names_are_iff; [|done]. intros n k. by rewrite (named_ext _ _ _ _ _ _ Hids).
  - apply set_eq. intros k. by rewrite Hr, Hr', (revoked_in_ext _ _ _ Hids).
Qed.

(** *** A bigger log gives the same view of the same ids *)

Section Bigger.
Context (events events' : gmap string Value).
Context (Hsub : events ⊆ events') (Hclosed : closed events) (Hclosed' : closed events').

Lemma lookup_bigger ids id : all_in events ids -> id ∈ ids -> events' !! id = events !! id.
Proof. intros Hall Hin. destruct (Hall id Hin) as [e He]. rewrite He. by eapply lookup_weaken. Qed.

Lemma all_in_cons id ids : all_in events (id :: ids) -> (exists e, events !! id = Some e /\ events' !! id = Some e) /\ all_in events ids.
Proof.
  intros Hall. split; [|intros x Hx; apply Hall; by right]. destruct (Hall id ltac:(by left)) as [e He].
  exists e. split; [done|]. by eapply lookup_weaken.
Qed.

Lemma revocations_bigger ids revoked seen : all_in events ids -> revocations events' ids revoked seen = revocations events ids revoked seen.
Proof.
  revert revoked seen. induction ids as [|id ids IH]; simpl; intros revoked seen Hall; [done|].
  apply all_in_cons in Hall as [(e & He & He') Hall]. rewrite He, He'. simpl. destruct (is_kind e "revoke"); [|by apply IH].
  rewrite (ancestors_mono events events') by (done || (intros y Hy; eapply Hclosed; by exists e)).
  destruct (ancestors events (parents_of e)); simpl; [by apply IH|done].
Qed.

Lemma adds_of_bigger ids : all_in events ids -> adds_of events' ids = adds_of events ids.
Proof.
  intros Hall. unfold adds_of. assert (mapM (fun id => e ← events' !! id; Some (id, e)) ids = mapM (fun id => e ← events !! id; Some (id, e)) ids) as ->; [|done].
  induction ids as [|id ids IH]; [done|]. apply all_in_cons in Hall as [(e & He & He') Hall]. simpl. rewrite He, He'. simpl. by rewrite IH.
Qed.

Lemma add_pass_bigger revoked seen adds st :
  all_in events adds -> add_pass events' revoked seen adds st = add_pass events revoked seen adds st.
Proof.
  revert st. induction adds as [|id adds IH]; simpl; intros st Hall; [done|].
  apply all_in_cons in Hall as [(e & He & He') Hall]. rewrite He, He'. simpl. destruct (waits _ _ _ _ _); [by rewrite IH|].
  destruct (take_add st e); simpl; [by apply IH|done].
Qed.

Lemma add_pass_sub revoked seen adds st rest st' :
  add_pass events revoked seen adds st = Some (rest, st') -> forall x, x ∈ rest -> x ∈ adds.
Proof.
  revert st rest st'. induction adds as [|id adds IH]; simpl; intros st rest st'; [intros [= <- <-]; done|].
  destruct (events !! id) as [e|]; simpl; [|done]. destruct (waits _ _ _ _ _).
  - destruct (add_pass _ _ _ adds st) as [[r s]|] eqn:E; simpl; [|done]. intros [= <- <-] x.
    rewrite !elem_of_cons. intros [?|?]; [by left|right]. by eapply IH.
  - destruct (take_add st e) as [s|]; simpl; [|done]. intros E x Hx. right. by eapply IH.
Qed.

Lemma add_loop_bigger fuel revoked seen adds st :
  all_in events adds -> add_loop fuel events' revoked seen adds st = add_loop fuel events revoked seen adds st.
Proof.
  revert adds st. induction fuel as [|fuel IH]; simpl; intros adds st Hall; [done|]. rewrite add_pass_bigger by done.
  destruct (add_pass _ _ _ adds st) as [[rest st']|] eqn:E; simpl; [|done]. case_decide; [done|]. apply IH.
  intros x Hx. apply Hall. by eapply add_pass_sub.
Qed.

Lemma view_of_bigger anchor ids : all_in events ids -> view_of anchor events' ids = view_of anchor events ids.
Proof.
  intros Hall. unfold view_of. rewrite revocations_bigger by done. destruct (revocations _ _ _ _) as [[revoked seen]|]; [|done].
  cbn [mbind option_bind]. rewrite adds_of_bigger by done. destruct (adds_of events ids) as [adds|] eqn:Ea; [|done].
  cbn [mbind option_bind]. rewrite add_loop_bigger; [done|]. intros x Hx.
  destruct (adds_of_spec events ids Hall) as (adds' & Ea' & Hadds). rewrite Ea' in Ea. simplify_eq.
  apply Hadds in Hx as (e & Hev). destruct Hev as (_ & He & _). by exists e.
Qed.
End Bigger.

(** *** Trust *)

Lemma only_Some keys k : only keys = Some k <-> keys = {[k]}.
Proof.
  unfold only. split.
  - destruct (elements keys) as [|x [|]] eqn:E; try done. intros [= ->]. apply set_eq. intros y.
    rewrite <- elem_of_elements, E. set_solver.
  - intros ->. by rewrite elements_singleton.
Qed.

Lemma elem_of_trusted v k :
  k ∈ trusted v <-> k ∉ v_revoked v /\ exists name, v_names v !! name = Some {[k]}.
Proof.
  unfold trusted. rewrite elem_of_list_to_set, list_elem_of_omap. split.
  - intros (name & _ & (keys & Hk & (k' & Ho & E)%bind_Some)%bind_Some). case_decide; simplify_eq.
    apply only_Some in Ho as ->. split; [done|by exists name].
  - intros [Hr [name Hn]]. exists name. split; [apply elem_of_sorted_keys; by eexists|]. rewrite Hn. simpl.
    rewrite (proj2 (only_Some _ _) eq_refl). simpl. by rewrite decide_False.
Qed.
