(* ===== verification/PeerMerge.v ===== *)
(** * Merging peer logs: [merge] of [crates/kanna-net/src/log.rs]

    The invariant of a log, that [merge] ends without a panic and keeps it, and that the log a
    machine comes to depends on the entries it was given, not on their order. *)

From stdpp Require Import relations.
From S2P Require Import Prelude Text F64 Json PeerLog PeerFacts.

(** What the log relies on: a [HashSet] is visited whole; a secret's public key prints as 32
    bytes of hexadecimal, and its signatures are 64 bytes that verify. *)
Class CryptoLaws `{Crypto} := {
  public_bytes : forall secret, exists k, bytes_of 32 (public secret) = Some k;
  sign_length : forall secret message, String.length (sign_bytes secret message) = 64;
  sign_verifies : forall secret message k, bytes_of 32 (public secret) = Some k -> sig_ok k (sign_bytes secret message) message = true }.

Class HashLaw (h : HashOrder) := hash_iter_all : forall s x, x ∈ h s <-> x ∈ s.

(** An event whose ancestors are all there, down to those without parents. *)
Inductive grounded (known : gmap string Value) : string -> Prop :=
| grounded_all id e : known !! id = Some e -> (forall p, p ∈ parents_of e -> grounded known p) -> grounded known id.

Lemma grounded_mono known known' id : known ⊆ known' -> grounded known id -> grounded known' id.
Proof. intros Hs Hg. induction Hg as [id e He _ IH]. econstructor; [by eapply lookup_weaken|done]. Qed.

Lemma grounded_in known id : grounded known id -> is_Some (known !! id).
Proof. intros [? e He _]. by exists e. Qed.

Definition all_grounded (events : gmap string Value) : Prop := forall id, is_Some (events !! id) -> grounded events id.

Lemma all_grounded_closed events : all_grounded events -> closed events.
Proof.
  intros Hg x y (e & He & Hy). destruct (Hg x ltac:(by exists e)) as [id e' He' Hp]. simplify_eq. by apply grounded_in, Hp.
Qed.

Lemma all_grounded_insert events id e :
  all_grounded events -> events !! id = None -> all_in events (parents_of e) -> all_grounded (<[id := e]> events).
Proof.
  intros Hg Hn Hp. assert (events ⊆ <[id := e]> events) as Hs by by apply insert_subseteq. intros x [ex Hx].
  rewrite lookup_insert in Hx. case_decide as E; simplify_eq.
  - econstructor; [by rewrite lookup_insert_eq|]. intros p Hin. eapply grounded_mono; [done|]. by apply Hg, Hp.
  - eapply grounded_mono; [done|]. apply Hg. by exists ex.
Qed.

(** ** [authorize] *)

(** What [authorize] asks of an entry: its signer is trusted by its past, a phone revokes
    itself only, and an addition gives a name its own key, one its past has not revoked. *)
Record authorized (past : View) (e : Value) : Prop := {
  au_trusted : signer_of e ∈ trusted past;
  au_phone : is_phone past (signer_of e) = true -> is_kind e "revoke" = true /\ key_in e = signer_of e;
  au_add : is_kind e "add" = true ->
    key_in e ∉ v_revoked past /\ name_in e ≠ "" /\ String.length (key_in e) = 64 /\
    (forall keys, v_names past !! name_in e = Some keys -> keys = {[key_in e]});
  au_kind : is_kind e "add" = true \/ is_kind e "revoke" = true }.

Lemma size_one keys k : size keys = 1 -> k ∈ keys -> keys = ({[k]} : gset string).
Proof. intros [x ->%leibniz_equiv]%size_1_elem_of. by intros ->%elem_of_singleton. Qed.

Lemma judge_no_crash past e : judge past e ≠ Crash.
Proof. unfold judge. repeat case_match; done. Qed.

Lemma name_free past e :
  (match v_names past !! name_in e with
   | Some keys => if bool_decide (size keys ≠ 1) || bool_decide (key_in e ∉ keys) then refused "identity_mismatch" else Good tt
   | None => Good tt
   end = Good tt) <-> (forall keys, v_names past !! name_in e = Some keys -> keys = {[key_in e]}).
Proof.
  destruct (v_names past !! name_in e) as [keys|]; [|naive_solver]. split.
  - intros E keys' [= <-]. do 2 case_bool_decide; simpl in E; try done. apply size_one; [lia|].
    by destruct (decide (key_in e ∈ keys)).
  - intros Hk. specialize (Hk keys eq_refl). subst. rewrite size_singleton. by rewrite !bool_decide_eq_false_2 by (set_solver || lia).
Qed.

Lemma judge_spec past e : judge past e = Good tt <-> authorized past e.
Proof.
  unfold judge. split.
  - case_bool_decide as Ht; [|done]. simpl. destruct (_ && _) eqn:Ep; [done|].
    assert (is_phone past (signer_of e) = true -> is_kind e "revoke" = true /\ key_in e = signer_of e) as Hp.
    { intros E. rewrite E in Ep. simpl in Ep. apply orb_false_iff in Ep as [?%negb_false_iff ?%negb_false_iff%bool_decide_eq_true]. done. }
    clear Ep. destruct (is_kind e "add") eqn:Ea.
    + case_bool_decide as Hr; [done|]. destruct (_ || _) eqn:En; [done|]. rewrite name_free. intros Hn.
      apply orb_false_iff in En as [En Hl%negb_false_iff%bool_decide_eq_true]. split; [done..| |by left].
      intros _. split_and!; try done. intros E. by rewrite E in En.
    + destruct (is_kind e "revoke") eqn:Ek; [|done]. intros _. split; [done|by rewrite Ek|congruence|by right].
  - intros [Ht Hp Ha Hk]. rewrite bool_decide_eq_true_2 by done. simpl.
    assert (is_phone past (signer_of e) && (negb (is_kind e "revoke") || negb (bool_decide (key_in e = signer_of e))) = false) as ->.
    { destruct (is_phone past (signer_of e)); [|done]. destruct Hp as [-> ?]; [done|]. by rewrite bool_decide_eq_true_2. }
    destruct (is_kind e "add"); [|by destruct Hk as [?| ->]]. destruct Ha as (Hr & Hne & Hl & Hn); [done|].
    rewrite bool_decide_eq_false_2, (bool_decide_eq_true_2 (String.length _ = _)) by done.
    assert (str_is_empty (name_in e) = false) as -> by by destruct (name_in e). simpl. by apply name_free.
Qed.

(** The view of an entry's ancestors, whatever the order they are visited in. *)
Definition past_of (anchor : Value) (events : gmap string Value) (e : Value) (past : View) : Prop :=
  exists ids, view_of anchor events ids = Some past /\ forall x, x ∈ ids <-> ancestor events (parents_of e) x.

Lemma past_of_is anchor events e past :
  closed events -> adds_open events -> all_in events (parents_of e) -> past_of anchor events e past ->
  exists ids, view_is anchor events ids past /\ forall x, x ∈ ids <-> ancestor events (parents_of e) x.
Proof.
  intros Hc Ho Hall (ids & Hv & Hids). exists ids. split; [|done].
  destruct (view_of_spec anchor events ids Hc Ho) as (v & Hv' & Hview); [|by simplify_eq].
  intros x Hx%Hids. by eapply ancestor_in.
Qed.

(** A bigger log has the same pasts. *)
Lemma past_of_bigger anchor events events' e past :
  events ⊆ events' -> closed events -> closed events' -> all_in events (parents_of e) ->
  past_of anchor events e past <-> past_of anchor events' e past.
Proof.
  intros Hs Hc Hc' Hall. unfold past_of.
  assert (forall x, ancestor events (parents_of e) x <-> ancestor events' (parents_of e) x) as Ha.
  { intros x. split; [by apply ancestor_mono|by apply ancestor_back]. }
  setoid_rewrite <- Ha. split; intros (ids & Hv & Hids); exists ids; (split; [|done]); rewrite <- Hv; [|symmetry];
    (apply view_of_bigger; [done..|]); intros x Hx%Hids; by eapply ancestor_in.
Qed.

Lemma is_text_string v t : is_text v t = true -> v = JString t.
Proof. unfold is_text. intros E%bool_decide_eq_true. destruct v; simplify_eq/=; done. Qed.

Lemma str_at_object v k : str_at v k ≠ "" -> is_object v = true.
Proof. by destruct v. Qed.

Lemma authorized_open past e : authorized past e -> is_kind e "add" = true -> is_object (payload_of e) = true.
Proof.
  intros Ha Hk. destruct (au_add _ _ Ha Hk) as (_ & _ & Hl & _). apply (str_at_object _ "key").
  unfold key_in in Hl. by destruct (str_at _ _).
Qed.

Section Authorize.
Context `{Crypto} (h : HashOrder) `{!HashLaw h}.

Lemma authorize_spec l e :
  closed (lg_events l) -> adds_open (lg_events l) -> all_in (lg_events l) (parents_of e) ->
  exists past, past_of (lg_anchor l) (lg_events l) e past /\ authorize l e = judge past e.
Proof.
  intros Hc Ho Hall. destruct (ancestors_spec (lg_events l) (parents_of e) Hc Hall) as (found & Hfound & Hf).
  assert (forall x, x ∈ hash_iter found <-> ancestor (lg_events l) (parents_of e) x) as Hids.
  { intros x. unfold hash_iter. by rewrite hash_iter_all, Hf. }
  destruct (view_of_spec (lg_anchor l) (lg_events l) (hash_iter found) Hc Ho) as (past & Hpast & _).
  { intros x Hx%Hids. by eapply ancestor_in. }
  exists past. split; [by exists (hash_iter found)|]. unfold authorize. rewrite Hfound. simpl. by rewrite Hpast.
Qed.
End Authorize.

(** ** The invariant of a log

    Every entry it knows is signed and of this log, and stands under its own digest; the
    events are grounded, and each was authorized by what it had seen. *)

Section Invariant.
Context `{Crypto}.

Definition known (l : Log) : gmap string Value := lg_events l ∪ lg_pending l.

Record log_ok (l : Log) : Prop := {
  lo_id : lg_id l = digest (lg_anchor l);
  lo_disjoint : lg_events l ##ₘ lg_pending l;
  lo_checked : forall id e, known l !! id = Some e -> id = digest e /\ check_entry l e = Good tt;
  lo_grounded : all_grounded (lg_events l);
  lo_authorized : forall id e, lg_events l !! id = Some e ->
    exists past, past_of (lg_anchor l) (lg_events l) e past /\ authorized past e }.

Lemma log_ok_open l : log_ok l -> adds_open (lg_events l).
Proof. intros Hok id e He Hk. destruct (lo_authorized _ Hok id e He) as (past & _ & Ha). by eapply authorized_open. Qed.

Lemma log_ok_closed l : log_ok l -> closed (lg_events l).
Proof. intros Hok. apply all_grounded_closed, (lo_grounded _ Hok). Qed.

Lemma log_new_ok anchor : log_ok (log_new anchor).
Proof.
  split; simpl; [done|apply map_disjoint_empty_l| |by intros id [e He]|done].
  intros id e. unfold known. simpl. by rewrite map_empty_union.
Qed.

(** *** Taking entries in *)

Lemma check_entry_id l l' e : lg_id l = lg_id l' -> check_entry l e = check_entry l' e.
Proof. intros E. unfold check_entry. by rewrite E. Qed.

Lemma known_keep l e : known (keep_pending l e) = match lg_events l !! digest e with Some _ => known l | None => <[digest e := e]> (known l) end.
Proof.
  unfold keep_pending, known. destruct (lg_events l !! digest e) eqn:E; [done|]. simpl. by rewrite insert_union_r.
Qed.

Lemma keep_pending_ok l e : log_ok l -> check_entry l e = Good tt -> log_ok (keep_pending l e).
Proof.
  intros Hok Hc. pose proof Hok as [Hid Hd Hch Hg Ha].
  assert (forall id e', known (keep_pending l e) !! id = Some e' -> id = digest e' /\ check_entry l e' = Good tt) as Hch'.
  { rewrite known_keep. destruct (lg_events l !! digest e); [done|]. intros id e'. rewrite lookup_insert. case_decide; [|by apply Hch].
    intros [= <-]. by subst. }
  unfold keep_pending in *. destruct (lg_events l !! digest e) eqn:E; [done|].
  split; simpl; [done| |done..]. by apply map_disjoint_insert_r.
Qed.

(** Nothing of what is known before is lost, and each entry is known by its digest. *)
Lemma take_entries_spec l es l' :
  log_ok l -> take_entries l es = Good l' ->
  log_ok l' /\ lg_anchor l' = lg_anchor l /\ lg_events l' = lg_events l /\
  (forall e, e ∈ es -> is_Some (known l' !! digest e)) /\
  (forall id, is_Some (known l !! id) -> is_Some (known l' !! id)) /\
  (forall id e, known l' !! id = Some e -> known l !! id = Some e \/ e ∈ es).
Proof.
  revert l. induction es as [|e es IH]; simpl; intros l Hok.
  { intros [= <-]. split_and!; try done; [by intros ? ?%elem_of_nil|by left]. }
  destruct (check_entry l e) as [[]|?|] eqn:Ec; simpl; try done. intros Ht.
  destruct (IH _ (keep_pending_ok _ _ Hok Ec) Ht) as (Hok' & Han & Hev & Hes & Hkn & Hin).
  rewrite known_keep in Hkn, Hin. unfold keep_pending in Han, Hev.
  split_and!; [done|..].
  - rewrite Han. by destruct (lg_events l !! digest e).
  - rewrite Hev. by destruct (lg_events l !! digest e).
  - intros e' [->|?]%elem_of_cons; [|by apply Hes]. apply Hkn. destruct (lg_events l !! digest e) eqn:E.
    + unfold known. rewrite lookup_union, E. destruct (lg_pending l !! _); by eexists.
    + rewrite lookup_insert_eq. by eexists.
  - intros id Hid. apply Hkn. destruct (lg_events l !! digest e) eqn:E; [done|]. rewrite lookup_insert. case_decide; [by eexists|done].
  - intros id e' Hk. destruct (Hin id e' Hk) as [Hl|?]; [|right; by right]. destruct (lg_events l !! digest e) eqn:E; [by left|].
    rewrite lookup_insert in Hl. case_decide; [|by left]. simplify_eq. right. by left.
Qed.

Lemma check_entry_no_crash l e : check_entry l e ≠ Crash.
Proof. unfold check_entry, verify. repeat (case_match; simpl; try done). Qed.

Lemma take_entries_no_crash l es : take_entries l es ≠ Crash.
Proof.
  revert l. induction es as [|e es IH]; simpl; intros l; [done|]. pose proof (check_entry_no_crash l e). destruct (check_entry l e) as [[]|?|]; simpl; [apply IH|done|done].
Qed.
End Invariant.

(** ** The rounds of [merge] *)

Section Rounds.
Context `{Crypto} (h : HashOrder) `{!HashLaw h}.

(** An entry that waits for nothing: it is pending and its parents are events. *)
Definition may_enter (l : Log) (id : string) : Prop :=
  exists e, lg_pending l !! id = Some e /\ all_in (lg_events l) (parents_of e).

Lemma elem_of_ready l id : id ∈ ready l <-> may_enter l id.
Proof.
  unfold ready, may_enter, is_ready, all_in. rewrite elem_of_retain, elem_of_sorted_keys.
  destruct (lg_pending l !! id) as [e|]; [|naive_solver]. split.
  - intros [Hf _]. exists e. split; [done|]. intros x Hx. rewrite forallb_forall in Hf.
    apply list_elem_of_In in Hx. eapply bool_decide_eq_true, Hf, Hx.
  - intros (e' & [= <-] & Hall). split; [|by eexists]. apply forallb_forall. intros x Hx%list_elem_of_In. by apply bool_decide_eq_true_2, Hall.
Qed.

Lemma NoDup_ready l : NoDup (ready l).
Proof. apply NoDup_retain, NoDup_sorted_keys. Qed.

(** What a log becomes when entries enter it: it knows the same, and has more events. *)
Record enters (l l' : Log) : Prop := {
  en_ok : log_ok l';
  en_anchor : lg_anchor l' = lg_anchor l;
  en_known : known l' = known l;
  en_events : lg_events l ⊆ lg_events l' }.

Definition entered (l : Log) (id : string) (e : Value) : Log :=
  mkLog (lg_anchor l) (lg_id l) (<[id := e]> (lg_events l)) (delete id (lg_pending l)).

Lemma log_enters l id e past :
  log_ok l -> lg_pending l !! id = Some e -> all_in (lg_events l) (parents_of e) ->
  past_of (lg_anchor l) (lg_events l) e past -> authorized past e -> enters l (entered l id e).
Proof.
  intros Hok Hp Hall Hpast Ha. pose proof Hok as [Hid Hd Hch Hg Hau].
  assert (lg_events l !! id = None) as Hn by by eapply map_disjoint_Some_r.
  assert (lg_events l ⊆ <[id := e]> (lg_events l)) as Hs by by apply insert_subseteq.
  assert (all_grounded (<[id := e]> (lg_events l))) as Hg' by by apply all_grounded_insert.
  assert (known (entered l id e) = known l) as Hk.
  { unfold known, entered. simpl. rewrite <- insert_union_l, insert_union_r by done. by rewrite insert_delete_eq, insert_id. }
  split; [split|..]; try done; simpl.
  - apply map_disjoint_insert_l_2; [by rewrite lookup_delete_eq|]. by apply map_disjoint_delete_r.
  - rewrite Hk. apply Hch.
  - intros i e'. rewrite lookup_insert. case_decide as E.
    + intros [= <-]. exists past. split; [|done]. apply (past_of_bigger _ (lg_events l)); [done|by apply log_ok_closed|by apply all_grounded_closed|done|done].
    + intros He'. destruct (Hau i e' He') as (past' & Hpast' & Ha'). exists past'. split; [|done].
      apply (past_of_bigger _ (lg_events l)); [done|by apply log_ok_closed|by apply all_grounded_closed| |done].
      intros y Hy. eapply log_ok_closed; [done|]. by exists e'.
Qed.

(** A ready entry is judged by its past; when it is allowed, it enters. *)
Lemma accept_event_spec l id e :
  log_ok l -> lg_pending l !! id = Some e -> all_in (lg_events l) (parents_of e) ->
  exists past, past_of (lg_anchor l) (lg_events l) e past /\
    accept_event l id = (let* _ := judge past e in Good (entered l id e)).
Proof.
  intros Hok Hp Hall. unfold accept_event. rewrite Hp. simpl.
  destruct (authorize_spec h (set_pending l (delete id (lg_pending l))) e) as (past & Hpast & ->);
    [apply (log_ok_closed l Hok)|apply (log_ok_open l Hok)|done|]. exists past. done.
Qed.

(** It stays so for the others of a round when one has entered. *)
Lemma may_enter_entered l id e i : may_enter l i -> i ≠ id -> lg_events l !! id = None -> may_enter (entered l id e) i.
Proof.
  intros (e' & Hp & Hall) Hne Hn. exists e'. simpl. rewrite lookup_delete_ne by done. split; [done|].
  intros x Hx. rewrite lookup_insert. case_decide; [by eexists|]. by apply Hall.
Qed.

Lemma enters_trans l1 l2 l3 : enters l1 l2 -> enters l2 l3 -> enters l1 l3.
Proof. intros [? E1 E2 ?] [? E3 E4 ?]. split; [done|congruence|congruence|by etrans]. Qed.

Lemma accept_all_spec l ids :
  log_ok l -> NoDup ids -> (forall id, id ∈ ids -> may_enter l id) ->
  accept_all l ids ≠ Crash /\
  forall l', accept_all l ids = Good l' -> enters l l' /\ size (lg_pending l') + length ids = size (lg_pending l).
Proof.
  revert l. induction ids as [|id ids IH]; simpl; intros l Hok Hnd Hm.
  { split; [done|]. intros l' [= <-]. split; [|lia]. by split. }
  apply NoDup_cons in Hnd as [Hnin Hnd]. destruct (Hm id ltac:(by left)) as (e & Hp & Hall).
  destruct (accept_event_spec l id e Hok Hp Hall) as (past & Hpast & ->). pose proof (judge_no_crash past e) as Hj.
  destruct (judge past e) as [[]|?|] eqn:Ej; simpl; try done. apply judge_spec in Ej.
  pose proof (log_enters l id e past Hok Hp Hall Hpast Ej) as He.
  destruct (IH (entered l id e)) as [Hc Hg]; [apply He|done| |].
  { intros i Hi. apply may_enter_entered; [apply Hm; by right|set_solver|]. eapply map_disjoint_Some_r; [apply (lo_disjoint _ Hok)|done]. }
  split; [done|]. intros l' (He' & Hs)%Hg. split; [by eapply enters_trans|].
  simpl in Hs. rewrite map_size_delete_Some in Hs by by eexists.
  assert (size (lg_pending l) ≠ 0) by (apply map_size_non_empty_iff; intros E; by rewrite E in Hp). lia.
Qed.

(** The rounds end, without a panic, at a log where nothing can enter. *)
Lemma settle_log_spec fuel l :
  log_ok l -> size (lg_pending l) < fuel ->
  exists r, settle_log fuel l = Some r /\ r ≠ Crash /\ forall l', r = Good l' -> enters l l' /\ ready l' = [].
Proof.
  revert l. induction fuel as [|fuel IH]; intros l Hok Hf; [lia|]. cbn [settle_log].
  destruct (ready l) as [|i ids] eqn:Er.
  { eexists. split_and!; [done..|]. intros l' [= <-]. split; [by split|done]. }
  destruct (accept_all_spec l (i :: ids) Hok) as [Hc Hg].
  { rewrite <- Er. apply NoDup_ready. }
  { intros id Hid. apply elem_of_ready. by rewrite Er. }
  destruct (accept_all l (i :: ids)) as [l1|err|] eqn:Ea; [|exists (Bad err); split_and!; [done..|by intros ? [=]]|done].
  destruct (Hg l1 eq_refl) as [He Hs]. simpl in Hs.
  destruct (IH l1) as (r & -> & Hr & Hl'); [apply He|lia|]. eexists. split_and!; [done..|].
  intros l' Hl. destruct (Hl' l' Hl). split; [by eapply enters_trans|done].
Qed.
End Rounds.

(** * Peer logs converge: [merge] of [crates/kanna-net/src/log.rs]

    [merge] keeps the invariant, never panics, and what it comes to is fixed by the entries a
    machine was given: the events are the entries whose ancestors are all there. *)

Section Merged.
Context `{Crypto} (h : HashOrder) `{!HashLaw h}.

(** What a [merge] that succeeds does: [es] are known, and nothing else that was not. *)
Record merged (l : Log) (es : list Value) (l' : Log) : Prop := {
  me_ok : log_ok l';
  me_settled : ready l' = [];
  me_anchor : lg_anchor l' = lg_anchor l;
  me_events : lg_events l ⊆ lg_events l';
  me_taken : forall e, e ∈ es -> is_Some (known l' !! digest e);
  me_kept : forall id, is_Some (known l !! id) -> is_Some (known l' !! id);
  me_only : forall id e, known l' !! id = Some e -> known l !! id = Some e \/ e ∈ es }.

Lemma merge_spec l es :
  log_ok l ->
  (exists err, merge l es = Some (Bad err, l)) \/
  exists n l', merge l es = Some (Good n, l') /\ merged l es l' /\ size (lg_events l') = size (lg_events l) + n.
Proof.
  intros Hok. unfold merge. pose proof (take_entries_no_crash l es) as Hnc.
  destruct (take_entries l es) as [stage|err|] eqn:Et; [|left; by eexists|done].
  destruct (take_entries_spec l es stage Hok Et) as (Hok1 & Ha1 & He1 & Ht1 & Hk1 & Ho1).
  destruct (settle_log_spec h (S (size (lg_pending stage))) stage Hok1) as (r & -> & Hr & Hl'); [lia|]. simpl.
  destruct r as [l'|err|]; [|left; by eexists|done]. right. destruct (Hl' l' eq_refl) as [[Hok' Ha' Hk' He'] Hset].
  eexists _, l'. split_and!; [done| |].
  - split; rewrite ?Hk'; try done; [congruence|by rewrite <- He1].
  - rewrite He1 in He'. apply map_subseteq_size in He'. lia.
Qed.
End Merged.

(** ** The events are the grounded entries *)

Section Settled.
Context `{Crypto}.

Lemma events_known (l : Log) : lg_events l ⊆ known l.
Proof. apply map_union_subseteq_l. Qed.

Lemma elem_of_values m e : e ∈ values_in_order m <-> exists id, m !! id = Some e.
Proof.
  unfold values_in_order. rewrite list_elem_of_omap. setoid_rewrite elem_of_sorted_keys. split; [intros (id & _ & ?); by exists id|].
  intros (id & Hid). exists id. split; [by eexists|done].
Qed.

Lemma elem_of_entries l e : log_ok l -> e ∈ entries l <-> exists id, known l !! id = Some e.
Proof.
  intros Hok. unfold entries, known. rewrite elem_of_app, !elem_of_values. setoid_rewrite lookup_union_Some; [|apply (lo_disjoint _ Hok)].
  naive_solver.
Qed.

Lemma settled_events l id : log_ok l -> ready l = [] -> is_Some (lg_events l !! id) <-> grounded (known l) id.
Proof.
  intros Hok Hset. split.
  - intros He. eapply grounded_mono; [apply events_known|]. by apply (lo_grounded _ Hok).
  - intros Hg. induction Hg as [id e Hk _ IH]. unfold known in Hk. apply lookup_union_Some in Hk as [He|Hp];
      [by eexists| |apply (lo_disjoint _ Hok)]. assert (id ∈ ready l) as Hin; [|by rewrite Hset in Hin; apply elem_of_nil in Hin].
    apply elem_of_ready. by exists e.
Qed.

Lemma settled_eq l l' :
  log_ok l -> log_ok l' -> ready l = [] -> ready l' = [] -> lg_anchor l = lg_anchor l' -> known l = known l' -> l = l'.
Proof.
  intros Hok Hok' Hs Hs' Ha Hk.
  assert (forall a b id e, log_ok a -> log_ok b -> ready a = [] -> ready b = [] -> known a = known b ->
    lg_events a !! id = Some e -> lg_events b !! id = Some e) as Hwlog.
  { intros a b id e Ho Ho' Hr Hr' Hkn He. assert (is_Some (lg_events b !! id)) as [e' He'].
    { apply settled_events; [done..|]. rewrite <- Hkn. apply settled_events; [done..|]. by eexists. }
    pose proof (lookup_weaken _ _ _ _ He (events_known a)) as H1. pose proof (lookup_weaken _ _ _ _ He' (events_known b)) as H2.
    rewrite Hkn in H1. by simplify_eq. }
  assert (lg_events l = lg_events l') as He by (apply map_eq; intros id; apply option_eq; intros e; split; by eapply Hwlog).
  assert (lg_pending l = lg_pending l') as Hp.
  { unfold known in Hk. rewrite He in Hk. apply map_union_cancel_l in Hk; [done|symmetry..].
    - rewrite <- He. apply (lo_disjoint _ Hok).
    - apply (lo_disjoint _ Hok'). }
  pose proof (lo_id _ Hok) as Hi. pose proof (lo_id _ Hok') as Hi'. destruct l, l'. simpl in *. congruence.
Qed.
End Settled.

(** ** Roles

    A phone is judged by the descriptor its additions left.  [phone] says of each key whether
    it is one, where the additions agree. *)

Definition roles_agree (phone : string -> bool) (anchor : Value) (es : list Value) : Prop :=
  phone (str_at anchor "key") = is_text (idx anchor "role") "phone" /\
  forall e, e ∈ es -> is_kind e "add" = true -> phone (key_in e) = is_text (idx (payload_of e) "role") "phone".

Lemma is_phone_agrees phone anchor events ids v n k es :
  roles_agree phone anchor es -> (forall id e, events !! id = Some e -> e ∈ es) ->
  view_is anchor events ids v -> v_names v !! n = Some {[k]} -> is_phone v k = phone k.
Proof.
  intros [Ha Hes] Hin [_ (Hsound & _) Hd Hr] Hn. unfold is_phone.
  assert (named anchor events ids n k) as Hnamed by (eapply Hsound; [done|set_solver]).
  destruct (Hd n k Hnamed) as [d Hk]. rewrite Hk. destruct (Hr k d Hk) as [[-> ->]|(id & e & (_ & He & Hadd) & -> & ->)]; [done|].
  symmetry. apply Hes; [by eapply Hin|done].
Qed.

Lemma authorized_same phone anchor events e past past' es :
  closed events -> adds_open events -> all_in events (parents_of e) ->
  roles_agree phone anchor es -> (forall id e', events !! id = Some e' -> e' ∈ es) ->
  past_of anchor events e past -> past_of anchor events e past' -> authorized past e -> authorized past' e.
Proof.
  intros Hc Ho Hall Hroles Hin Hp Hp' [Ht Hph Had Hk].
  destruct (past_of_is _ _ _ _ Hc Ho Hall Hp) as (ids & Hv & Hids).
  destruct (past_of_is _ _ _ _ Hc Ho Hall Hp') as (ids' & Hv' & Hids').
  destruct (view_is_ext _ _ ids ids' _ _ ltac:(intros x; by rewrite Hids, Hids') Hv Hv') as [En Er].
  assert (is_phone past' (signer_of e) = is_phone past (signer_of e)) as Eph.
  { pose proof Ht as [_ [n Hn]]%elem_of_trusted. rewrite (is_phone_agrees phone anchor events ids past n (signer_of e) es) by done.
    apply (is_phone_agrees phone anchor events ids' past' n (signer_of e) es); [done..|]. by rewrite <- En. }
  split; [|by rewrite Eph|by rewrite <- En, <- Er|done].
  apply elem_of_trusted. rewrite <- En, <- Er. by apply elem_of_trusted.
Qed.

(** ** Any order will do *)

Section Orders.
Context `{Crypto} (h : HashOrder) `{!HashLaw h}.
Context (phone : string -> bool) (goal : Log) (Hgoal : log_ok goal) (Hsettled : ready goal = []).
Context (Hroles : roles_agree phone (lg_anchor goal) (entries goal)).

(** A log on its way to [goal] *)
Record towards (l : Log) : Prop := {
  to_ok : log_ok l;
  to_anchor : lg_anchor l = lg_anchor goal;
  to_known : known l ⊆ known goal }.

Lemma towards_enters l l' : towards l -> enters l l' -> towards l'.
Proof. intros [? E1 E2] [? E3 E4 ?]. split; [done|congruence|by rewrite E4]. Qed.

Lemma towards_grounded l id : towards l -> is_Some (lg_events l !! id) -> grounded (known goal) id.
Proof.
  intros [Hok _ Hk] He. eapply grounded_mono; [exact Hk|]. eapply grounded_mono; [apply events_known|]. by apply (lo_grounded _ Hok).
Qed.

Lemma goal_event id e : known goal !! id = Some e -> grounded (known goal) id -> lg_events goal !! id = Some e.
Proof.
  intros Hk Hg%settled_events; [|done..]. destruct Hg as [e' He']. pose proof (lookup_weaken _ _ _ _ He' (events_known goal)). by simplify_eq.
Qed.

Lemma towards_events l : towards l -> lg_events l ⊆ lg_events goal.
Proof.
  intros Ht. apply map_subseteq_spec. intros id e He. apply goal_event; [|eapply towards_grounded; [done|by eexists]].
  eapply lookup_weaken; [|apply (to_known _ Ht)]. eapply lookup_weaken; [done|apply events_known].
Qed.

Lemma towards_authorized l id e past :
  towards l -> lg_pending l !! id = Some e -> all_in (lg_events l) (parents_of e) ->
  past_of (lg_anchor l) (lg_events l) e past -> authorized past e.
Proof.
  intros Ht Hp Hall Hpast. pose proof (to_ok _ Ht) as Hok.
  assert (known goal !! id = Some e) as Hk.
  { eapply lookup_weaken; [|apply (to_known _ Ht)]. by apply lookup_union_Some_r, Hp; apply (lo_disjoint _ Hok). }
  assert (lg_events goal !! id = Some e) as He.
  { apply goal_event; [done|]. econstructor; [done|]. intros p Hin. eapply towards_grounded; [done|]. by apply Hall. }
  destruct (lo_authorized _ Hgoal id e He) as (past' & Hpast' & Ha).
  pose proof (log_ok_closed _ Hgoal) as Hc. pose proof (log_ok_closed _ Hok) as Hcl.
  apply (past_of_bigger _ (lg_events l) (lg_events goal)) in Hpast'; [|by apply towards_events|done..].
  rewrite <- (to_anchor _ Ht) in Hpast'. rewrite <- (to_anchor _ Ht) in Hroles.
  eapply (authorized_same phone); [done|by apply log_ok_open|done|done| |done..].
  intros i e' He'. apply elem_of_entries; [done|]. exists i.
  eapply lookup_weaken; [|apply (to_known _ Ht)]. eapply lookup_weaken; [done|apply events_known].
Qed.

Lemma accept_all_good l ids :
  towards l -> NoDup ids -> (forall id, id ∈ ids -> may_enter l id) -> exists l', accept_all l ids = Good l'.
Proof.
  revert l. induction ids as [|id ids IH]; simpl; intros l Ht Hnd Hm; [by eexists|].
  apply NoDup_cons in Hnd as [Hnin Hnd]. destruct (Hm id ltac:(by left)) as (e & Hp & Hall). pose proof (to_ok _ Ht) as Hok.
  destruct (accept_event_spec h l id e Hok Hp Hall) as (past & Hpast & ->).
  pose proof (towards_authorized l id e past Ht Hp Hall Hpast) as Ha. rewrite (proj2 (judge_spec past e) Ha). simpl.
  apply IH; [|done|].
  - eapply towards_enters; [done|]. by eapply log_enters.
  - intros i Hi. apply may_enter_entered; [apply Hm; by right|set_solver|]. eapply map_disjoint_Some_r; [apply (lo_disjoint _ Hok)|done].
Qed.

Lemma settle_log_good fuel l : towards l -> size (lg_pending l) < fuel -> exists l', settle_log fuel l = Some (Good l').
Proof.
  revert l. induction fuel as [|fuel IH]; intros l Ht Hf; [lia|]. cbn [settle_log].
  destruct (ready l) as [|i ids] eqn:Er; [by eexists|].
  assert (NoDup (i :: ids)) as Hnd by (rewrite <- Er; apply NoDup_ready).
  assert (forall id, id ∈ i :: ids -> may_enter l id) as Hm by (intros id Hid; apply elem_of_ready; by rewrite Er).
  destruct (accept_all_good l (i :: ids) Ht Hnd Hm) as [l1 E].
  destruct (accept_all_spec h l (i :: ids) (to_ok _ Ht) Hnd Hm) as [_ Hg]. destruct (Hg l1 E) as [He Hs]. rewrite E. simpl in Hs.
  apply IH; [by eapply towards_enters|lia].
Qed.

(** Entries of the goal are taken in, whatever else is there already. *)
Lemma take_entries_good l es :
  towards l -> (forall e, e ∈ es -> known goal !! digest e = Some e) -> exists l', take_entries l es = Good l' /\ towards l'.
Proof.
  revert l. induction es as [|e es IH]; simpl; intros l Ht Hes; [by eexists|].
  pose proof (Hes e ltac:(by left)) as Hk. destruct (lo_checked _ Hgoal _ _ Hk) as [_ Hc].
  rewrite (check_entry_id goal l) in Hc by (rewrite (lo_id _ Hgoal), (lo_id _ (to_ok _ Ht)), (to_anchor _ Ht); done).
  rewrite Hc. simpl. apply IH; [|intros; apply Hes; by right]. destruct Ht as [Hok Ha Hkn]. split.
  - by apply keep_pending_ok.
  - unfold keep_pending. by destruct (lg_events l !! digest e).
  - rewrite known_keep. destruct (lg_events l !! digest e); [done|]. by apply insert_subseteq_l.
Qed.

Lemma merge_good l es :
  towards l -> (forall e, e ∈ es -> known goal !! digest e = Some e) ->
  exists n l', merge l es = Some (Good n, l') /\ merged l es l' /\ towards l'.
Proof.
  intros Ht Hes. destruct (merge_spec h l es (to_ok _ Ht)) as [[err E]|(n & l' & E & Hm & _)].
  - exfalso. revert E. unfold merge. destruct (take_entries_good l es Ht Hes) as (stage & -> & Ht').
    destruct (settle_log_good (S (size (lg_pending stage))) stage Ht') as [l' ->]; [lia|]. done.
  - exists n, l'. split_and!; [done..|]. split; [apply Hm|rewrite (me_anchor _ _ _ Hm); apply Ht|].
    apply map_subseteq_spec. intros id e He. destruct (me_only _ _ _ Hm id e He) as [Hk|Hin].
    + eapply lookup_weaken; [done|apply Ht].
    + destruct (lo_checked _ (me_ok _ _ _ Hm) id e He) as [-> _]. by apply Hes.
Qed.
End Orders.
