(* ===== verification/PeerEntry.v ===== *)
(** * A machine's own entries: [entry] and [frontier] of [crates/kanna-net/src/log.rs]

    Hexadecimal round trips, so that a signed entry passes the checks of [merge]; an entry's
    default parents, the frontier, have every event among their ancestors, so that the past by
    which it is judged is the whole log. *)

From stdpp Require Import relations.
From S2P Require Import Prelude Text F64 Json PeerLog PeerFacts PeerMerge.
From Stdlib Require Import Ascii.

(** ** Hexadecimal *)

Lemma hex_value_char n : (n < 16)%N -> hex_value (hex_char n) = Some n.
Proof.
  intros Hn. assert (n ∈ [0; 1; 2; 3; 4; 5; 6; 7; 8; 9; 10; 11; 12; 13; 14; 15]%N) as Hin.
  { rewrite !elem_of_cons. lia. }
  repeat (apply elem_of_cons in Hin as [->|Hin]; [reflexivity|]). by apply elem_of_nil in Hin.
Qed.

Lemma hex_char_ascii n : (N_of_ascii (hex_char n) <? 128)%N = true /\ hex_char n ≠ "+"%char.
Proof.
  unfold hex_char. destruct (N.to_nat n) as [|k]; [done|].
  do 15 (destruct k as [|k]; [done|]). by destruct k.
Qed.

Lemma byte_small a : (N_of_ascii a < 256)%N.
Proof. apply N_ascii_bounded. Qed.

Lemma unhex_pairs_hex s : unhex_pairs (hex_of s) = Some s.
Proof.
  induction s as [|a s IH]; [done|]. cbn [hex_of unhex_pairs]. pose proof (byte_small a) as Hb. unfold hex_byte.
  rewrite (hex_value_char (_ mod 16)) by (apply N.mod_lt; lia). cbn [mbind option_bind].
  rewrite decide_False by apply hex_char_ascii. rewrite (hex_value_char (_ / 16)) by (apply N.Div0.div_lt_upper_bound; lia).
  cbn [mbind option_bind]. rewrite IH. cbn [mbind option_bind]. do 2 f_equal.
  rewrite <- (ascii_N_embedding a) at 3. f_equal. pose proof (N.Div0.div_mod (N_of_ascii a) 16). lia.
Qed.

Lemma hex_length s : String.length (hex_of s) = 2 * String.length s.
Proof. induction s as [|a s IH]; simpl; [done|]. rewrite IH. lia. Qed.

Lemma hex_ascii s : is_ascii (hex_of s) = true.
Proof.
  unfold is_ascii. induction s as [|a s IH]; [done|]. cbn [hex_of string_bytes forallb].
  rewrite !(proj1 (hex_char_ascii _)). done.
Qed.

Lemma unhex_hex s : unhex (hex_of s) = Some s.
Proof.
  unfold unhex. rewrite hex_ascii, hex_length, Nat.even_mul. simpl. apply unhex_pairs_hex.
Qed.

(** ** The frontier *)

Section Frontier.
Context (events : gmap string Value) (Hg : all_grounded events).

Lemma tc_parent x y : tc (parent events) x y -> exists e p, events !! x = Some e /\ p ∈ parents_of e /\ rtc (parent events) p y.
Proof.
  intros Hx. destruct Hx as [x y (e & He & Hy)|x y z (e & He & Hy) Hr]; exists e, y; [done|]. split_and!; [done..|by apply tc_rtc].
Qed.

Lemma under_irreflexive x : ¬ tc (parent events) x x.
Proof.
  intros Hx. assert (grounded events x) as Hin by (apply Hg; destruct (tc_parent _ _ Hx) as (e & _ & ? & _); by eexists).
  induction Hin as [x e He _ IH]. destruct (tc_parent _ _ Hx) as (e' & p & He' & Hp & Hr). simplify_eq.
  apply (IH p Hp). eapply tc_rtc_l; [done|]. constructor. by exists e.
Qed.

Lemma tc_flip {A} (R : relation A) x y : tc (flip R) x y -> tc R y x.
Proof. induction 1 as [a b Hab|a b c Hab _ IH]; [by constructor|]. by eapply tc_r. Qed.

(** From every event one comes, child by child, to one that is nobody's parent. *)
Lemma children_end x : sn (flip (parent events)) x.
Proof.
  apply tc_finite_sn.
  - intros y Hy. apply (under_irreflexive y). by apply tc_flip.
  - exists (map fst (map_to_list events)). intros y Hy. apply list_elem_of_In, in_map_iff.
    assert (exists e, events !! y = Some e) as [e He].
    { induction Hy as [a b (e & He & _)|a b c _ _ IH]; [by exists e|done]. }
    exists (y, e). split; [done|]. by apply list_elem_of_In, elem_of_map_to_list.
Qed.

End Frontier.

Lemma elem_of_referenced l x : x ∈ referenced l <-> exists y, parent (lg_events l) y x.
Proof.
  unfold referenced. rewrite list_elem_of_In, in_flat_map. split.
  - intros (y & _ & Hx). destruct (lg_events l !! y) as [e|] eqn:He; [|done]. exists y, e. split; [done|]. by apply list_elem_of_In.
  - intros (y & e & He & Hx). exists y. rewrite He. simpl. rewrite <- !list_elem_of_In, elem_of_sorted_keys, He. split; [by eexists|done].
Qed.

Lemma elem_of_frontier l x :
  x ∈ frontier l <-> is_Some (lg_events l !! x) /\ ¬ exists y, parent (lg_events l) y x.
Proof.
  unfold frontier. rewrite elem_of_retain, elem_of_sorted_keys, negb_true_iff, contains_false, elem_of_referenced. tauto.
Qed.

Lemma frontier_above l x :
  all_grounded (lg_events l) -> is_Some (lg_events l !! x) -> ancestor (lg_events l) (frontier l) x.
Proof.
  intros Hg. pose proof (children_end (lg_events l) Hg x) as Hsn. induction Hsn as [x _ IH]. intros Hx.
  destruct (decide (x ∈ referenced l)) as [Hr|Hr].
  - pose proof Hr as [y Hp]%elem_of_referenced. destruct (IH y Hp) as (p & Hpf & Hrtc); [destruct Hp as (e & ? & _); by eexists|].
    exists p. split; [done|]. eapply rtc_r; done.
  - exists x. split; [|done]. apply elem_of_frontier. by rewrite <- elem_of_referenced.
Qed.

Lemma frontier_all_in l : all_in (lg_events l) (frontier l).
Proof. by intros x [? _]%elem_of_frontier. Qed.

(** ** Signed entries *)

Section Own.
Context `{CryptoLaws}.

Lemma verify_sign secret message : verify (public secret) (sign secret message) message = Good tt.
Proof.
  destruct (public_bytes secret) as [k Hk]. unfold verify, sign. rewrite Hk. unfold bytes_of.
  rewrite unhex_hex. simpl. rewrite decide_True by apply sign_length. by rewrite sign_verifies.
Qed.

Lemma strings_map l : strings (JArray (map JString l)) = l.
Proof. unfold strings. cbn [as_array default]. induction l as [|x l IH]; [done|]. cbn. f_equal. exact IH. Qed.

Lemma is_text_same t : is_text (JString t) t = true.
Proof. by apply bool_decide_eq_true_2. Qed.

Section Fields.
Context (l : Log) (secret : Secret) (kind : string) (payload : Value) (parents : option (list string)) (time : Z).
Notation own := (entry l secret kind payload parents time).

Lemma own_body : body_of own = entry_body l secret kind payload parents time.
Proof. reflexivity. Qed.

Lemma own_parents : parents_of own = sort_strings (default (frontier l) parents).
Proof. unfold parents_of. rewrite own_body. cbn -[strings sort_strings]. apply strings_map. Qed.

Lemma own_fields : signer_of own = public secret /\ payload_of own = payload /\ is_kind own kind = true.
Proof. unfold signer_of, payload_of, is_kind. rewrite own_body. split_and!; [reflexivity..|apply is_text_same]. Qed.

Lemma own_checked : check_entry l own = Good tt.
Proof.
  unfold check_entry. rewrite own_body.
  change (str_at own "signature") with (sign secret (canonical (entry_body l secret kind payload parents time))).
  change (str_at (entry_body l secret kind payload parents time) "signer") with (public secret).
  rewrite verify_sign. cbn [outcome_bind].
  change (idx (entry_body l secret kind payload parents time) "domain") with (JString DOMAIN).
  change (idx (entry_body l secret kind payload parents time) "machines") with (JString (lg_id l)).
  by rewrite !is_text_same.
Qed.
End Fields.

(** An entry of a log without pending entries, allowed by its past, is the next event. *)
Lemma merge_own (h : HashOrder) `{!HashLaw h} phone l e :
  log_ok l -> lg_pending l = ∅ -> roles_agree phone (lg_anchor l) (e :: entries l) ->
  check_entry l e = Good tt -> lg_events l !! digest e = None -> all_in (lg_events l) (parents_of e) ->
  (forall past, past_of (lg_anchor l) (lg_events l) e past -> authorized past e) ->
  merge l [e] = Some (Good 1, mkLog (lg_anchor l) (lg_id l) (<[digest e := e]> (lg_events l)) ∅).
Proof.
  intros Hok Hp Hroles Hc Hn Hall Ha. set (goal := mkLog _ _ _ _).
  pose proof (keep_pending_ok l e Hok Hc) as Hok1. unfold keep_pending in Hok1. rewrite Hn, Hp in Hok1.
  destruct (authorize_spec h l e) as (past & Hpast & _); [by apply log_ok_closed|by apply log_ok_open|done|].
  assert (enters (set_pending l (<[digest e := e]> ∅)) goal) as Hen.
  { assert (goal = entered (set_pending l (<[digest e := e]> ∅)) (digest e) e) as ->.
    { unfold goal, entered, set_pending. simpl. by rewrite delete_insert_id. }
    eapply log_enters; [done|simpl; by rewrite lookup_insert_eq|done|exact Hpast|by apply Ha]. }
  assert (log_ok goal) as Hgoal by apply Hen.
  assert (known goal = <[digest e := e]> (lg_events l)) as Hkg by (unfold known; apply map_union_empty).
  assert (known l = lg_events l) as Hkl by (unfold known; rewrite Hp; apply map_union_empty).
  assert (ready goal = []) as Hset by done.
  destruct (merge_good h phone goal Hgoal Hset) with (l := l) (es := [e]) as (n & l' & E & Hm & Ht).
  - destruct Hroles as [H1 H2]. split; [done|]. intros e' He'. apply H2. apply elem_of_entries in He' as [id Hid]; [|done].
    rewrite Hkg, lookup_insert in Hid. case_decide; [simplify_eq; by left|]. right. apply elem_of_entries; [done|]. exists id. by rewrite Hkl.
  - split; [done..|]. rewrite Hkg, Hkl. by apply insert_subseteq.
  - intros e' ->%list_elem_of_singleton. by rewrite Hkg, lookup_insert_eq.
  - assert (l' = goal) as ->.
    { apply settled_eq; [apply Hm|done|apply Hm|done|apply Ht|]. apply map_eq. intros id. apply option_eq. intros e'. split; intros Hl.
      - eapply lookup_weaken; [done|apply Ht].
      - assert (is_Some (known l' !! id)) as [e'' He''].
        { rewrite Hkg, lookup_insert in Hl. case_decide; [subst id; apply (me_taken _ _ _ Hm); by left|]. apply (me_kept _ _ _ Hm). rewrite Hkl. by eexists. }
        pose proof (lookup_weaken _ _ _ _ He'' (to_known _ _ Ht)). by simplify_eq. }
    rewrite E. destruct (merge_spec h l [e] Hok) as [[err E']|(n' & l'' & E' & _ & Hsz)]; [congruence|].
    rewrite E in E'. simplify_eq. simpl in Hsz. rewrite map_size_insert_None in Hsz by done. do 3 f_equal. lia.
Qed.
End Own.

(** * The logs a machine can come to: [crates/kanna-net/src/log.rs]

    Logs by merges from a new one, what they know, their views, and whom they let connect. *)

(** ** The logs a machine can have *)

Section Runs.
Context `{Crypto}.

(** From a new log, by merges; each may visit its sets in an order of its own. *)
Inductive reached : Log -> Prop :=
| reached_new anchor : reached (log_new anchor)
| reached_merge (h : HashOrder) l es r l' : HashLaw h -> reached l -> merge l es = Some (r, l') -> reached l'.

(** A later log of the same machine *)
Inductive later (l : Log) : Log -> Prop :=
| later_same : later l l
| later_merge (h : HashOrder) l1 es r l' : HashLaw h -> later l l1 -> merge l1 es = Some (r, l') -> later l l'.

(** Batches of entries merged one after the other, none of them refused. *)
Fixpoint deliver {h : HashOrder} (l : Log) (batches : list (list Value)) : option (outcome Refused Log) :=
  match batches with
  | [] => Some (Good l)
  | es :: batches =>
    '(r, l') ← merge l es;
    match r with Good _ => deliver l' batches | Bad e => Some (Bad e) | Crash => Some Crash end
  end.

Lemma reached_ok l : reached l -> log_ok l.
Proof.
  induction 1 as [|h l es r l' Hh _ IH E]; [apply log_new_ok|].
  destruct (merge_spec h l es IH) as [[err E']|(n & l'' & E' & Hm & _)]; rewrite E' in E; simplify_eq; [done|apply Hm].
Qed.

Lemma later_spec l l' : log_ok l -> later l l' -> log_ok l' /\ lg_anchor l' = lg_anchor l /\ lg_events l ⊆ lg_events l'.
Proof.
  intros Hok. induction 1 as [|h l1 es r l' Hh _ (Hok1 & Ha & Hs) E]; [done|].
  destruct (merge_spec h l1 es Hok1) as [[err E']|(n & l'' & E' & Hm & _)]; rewrite E' in E; simplify_eq; [done|].
  split_and!; [apply Hm|rewrite (me_anchor _ _ _ Hm); done|]. etrans; [done|apply Hm].
Qed.

Lemma log_view_is l : log_ok l -> exists v, log_view l = Some v /\ view_is (lg_anchor l) (lg_events l) (sorted_keys (lg_events l)) v.
Proof.
  intros Hok. apply view_of_spec; [by apply log_ok_closed|by apply log_ok_open|]. intros x. by rewrite elem_of_sorted_keys.
Qed.

Lemma log_revoked l v k :
  log_ok l -> log_view l = Some v ->
  k ∈ v_revoked v <-> exists id e, lg_events l !! id = Some e /\ is_kind e "revoke" = true /\ key_in e = k.
Proof.
  intros Hok Hv. destruct (log_view_is l Hok) as (v' & E & Hview). rewrite Hv in E. simplify_eq. rewrite (vi_revoked _ _ _ _ Hview).
  unfold revoked_in, has_event. setoid_rewrite elem_of_sorted_keys. naive_solver.
Qed.

Lemma deliver_spec (h : HashOrder) `{!HashLaw h} l batches l' :
  log_ok l -> ready l = [] -> deliver l batches = Some (Good l') -> merged l (concat batches) l'.
Proof.
  revert l. induction batches as [|es batches IH]; simpl; intros l Hok Hset.
  { intros [= <-]. split; try done; [by intros ? ?%elem_of_nil|by left]. }
  destruct (merge_spec h l es Hok) as [[err ->]|(n & l1 & -> & Hm & _)]; simpl; [done|]. intros E.
  pose proof (IH l1 (me_ok _ _ _ Hm) (me_settled _ _ _ Hm) E) as Hd. destruct Hm as [_ _ Ha1 He1 Ht1 Hk1 Ho1], Hd as [? ? Ha2 He2 Ht2 Hk2 Ho2].
  split; [done|done|congruence|by etrans| |auto|].
  - intros e [?|?]%elem_of_app; auto.
  - intros id e Hl. rewrite elem_of_app. destruct (Ho2 id e Hl) as [[?|?]%Ho1|?]; auto.
Qed.

(** Batches of what another machine has come to are all taken. *)
Lemma deliver_good (h : HashOrder) `{!HashLaw h} phone goal l batches :
  log_ok goal -> ready goal = [] -> roles_agree phone (lg_anchor goal) (entries goal) -> towards goal l ->
  (forall e, e ∈ concat batches -> known goal !! digest e = Some e) ->
  exists l', deliver l batches = Some (Good l') /\ towards goal l'.
Proof.
  intros Hgoal Hset Hroles. revert l. induction batches as [|es batches IH]; simpl; intros l Ht Hes; [by eexists|].
  destruct (merge_good h phone goal Hgoal Hset Hroles l es Ht) as (n & l' & -> & _ & Ht'); [set_solver|]. simpl. apply IH; set_solver.
Qed.

Lemma known_new anchor id : known (log_new anchor) !! id = None.
Proof. unfold known. simpl. by rewrite map_empty_union. Qed.

(** What a new log knows after deliveries: the entries, each by its digest. *)
Lemma known_delivered (h : HashOrder) `{!HashLaw h} anchor batches l :
  (forall e e', e ∈ concat batches -> e' ∈ concat batches -> digest e = digest e' -> e = e') ->
  merged (log_new anchor) (concat batches) l ->
  forall id e, known l !! id = Some e <-> e ∈ concat batches /\ id = digest e.
Proof.
  intros Hinj Hm id e. split.
  - intros Hl. destruct (lo_checked _ (me_ok _ _ _ Hm) _ _ Hl) as [-> _]. split; [|done].
    destruct (me_only _ _ _ Hm _ _ Hl) as [Hk|?]; [by rewrite known_new in Hk|done].
  - intros [Hin ->]. destruct (me_taken _ _ _ Hm e Hin) as [e' He']. destruct (lo_checked _ (me_ok _ _ _ Hm) _ _ He') as [Hd _].
    destruct (me_only _ _ _ Hm _ _ He') as [Hk|Hin']; [by rewrite known_new in Hk|]. by pose proof (Hinj e e' Hin Hin' Hd) as <-.
Qed.
(** The past of an entry whose parents are the frontier is the whole log. *)
Lemma own_past l v e past :
  log_ok l -> log_view l = Some v -> (forall x, x ∈ parents_of e <-> x ∈ frontier l) ->
  past_of (lg_anchor l) (lg_events l) e past ->
  v_names v = v_names past /\ v_revoked v = v_revoked past /\ exists ids, view_is (lg_anchor l) (lg_events l) ids past.
Proof.
  intros Hok Hv Hfr Hpast. assert (all_in (lg_events l) (parents_of e)) as Hall by (intros x ?%Hfr; by apply frontier_all_in).
  destruct (past_of_is _ _ _ _ (log_ok_closed _ Hok) (log_ok_open _ Hok) Hall Hpast) as (ids & Hview & Hids).
  destruct (log_view_is l Hok) as (v0 & Hv0 & Hview0). rewrite Hv in Hv0. simplify_eq.
  assert (forall x, x ∈ sorted_keys (lg_events l) <-> x ∈ ids) as Hsame.
  { intros x. rewrite Hids, elem_of_sorted_keys. split.
    - intros (p & Hpf & Hr)%frontier_above; [|apply (lo_grounded _ Hok)]. exists p. by rewrite Hfr.
    - intros Ha. eapply ancestor_in; [apply (log_ok_closed _ Hok)|done..]. }
  destruct (view_is_ext _ _ _ ids _ _ Hsame Hview0 Hview) as [En Er]. split_and!; [done..|by exists ids].
Qed.

(** A certificate for the key that a machine of the view has signed *)
Definition certified (v : View) (key : string) (cert : option Value) : Prop :=
  exists c, cert = Some c /\ str_at (body_of c) "device" ∈ machines v /\
    verify (str_at (body_of c) "device") (str_at c "signature") (canonical (body_of c)) = Good tt /\
    idx (body_of c) "domain" = JString APP_DOMAIN /\ idx (body_of c) "key" = JString key.

Lemma accept_endpoint_spec l v key cert :
  log_view l = Some v ->
  accept_endpoint l key cert = Good tt <-> key ∉ v_revoked v /\ (key ∈ machines v \/ certified v key cert).
Proof.
  intros Hv. unfold accept_endpoint, certified. rewrite Hv. simpl. destruct (decide (key ∈ v_revoked v)) as [Hr|Hr]; [naive_solver|].
  destruct (decide (key ∈ machines v)) as [Hm|Hm]; [split; [intros _; split; [done|by left]|done]|].
  destruct cert as [c|]; [|naive_solver]. simpl. split.
  - destruct (verify _ _ _) as [[]|?|] eqn:Ev; simpl; try done. destruct (_ || _) eqn:E; [done|]. intros _.
    apply orb_false_iff in E as [[Ed%negb_false_iff%is_text_string Ek%negb_false_iff%is_text_string]%orb_false_iff Em%negb_false_iff%bool_decide_eq_true].
    split; [done|right]. exists c. done.
  - intros [_ [?|(c' & [= <-] & Hd & -> & -> & ->)]]; [done|]. simpl. rewrite !is_text_same. simpl. by rewrite bool_decide_eq_true_2.
Qed.
End Runs.
