(* ===== verification/PeerTheorems.v ===== *)
(** * The peer log's theorems: [crates/kanna-net/src/log.rs]

    Who a machine trusts is fixed by the entries it has, not by the order they came in; every
    event was signed and was allowed by what its signer had seen; a revoked key never
    returns. *)

From stdpp Require Import relations pretty.
From S2P Require Import Prelude Text F64 Json PeerLog PeerFacts PeerMerge PeerEntry.
From Stdlib Require Import Ascii.

(** ** Theorems *)

Section Theorems.
Context `{CryptoLaws}.

(** C5 Machines that were given the same entries have the same log, whatever the order and the
    batches they came in and the order each visits its sets in: when one machine, from a new
    log, took batches without a refusal, another takes any batches of the same entries without
    a refusal and comes to the same events and the same pending entries.  The entries have
    different digests, and the additions of a key agree on whether it is a phone. *)
Theorem log_converges (h h' : HashOrder) (phone : string -> bool) anchor batches batches' l :
  HashLaw h -> HashLaw h' ->
  (forall e e', e ∈ concat batches -> e' ∈ concat batches -> digest e = digest e' -> e = e') ->
  roles_agree phone anchor (concat batches) ->
  (forall e, e ∈ concat batches' <-> e ∈ concat batches) ->
  deliver (h := h) (log_new anchor) batches = Some (Good l) ->
  deliver (h := h') (log_new anchor) batches' = Some (Good l).
Proof.
  intros Hh Hh' Hinj Hroles Hsame E. pose proof (log_new_ok anchor) as Hnew.
  pose proof (deliver_spec h _ _ _ Hnew eq_refl E) as Hm. pose proof (known_delivered h anchor batches l Hinj Hm) as Hk.
  pose proof (me_anchor _ _ _ Hm) as Ha. simpl in Ha.
  destruct (deliver_good h' phone l (log_new anchor) batches') as (l' & E' & Ht).
  - apply Hm.
  - apply Hm.
  - rewrite Ha. destruct Hroles as [H1 H2]. split; [done|]. intros e [id Hid]%elem_of_entries; [|apply Hm]. apply H2. by apply Hk in Hid as [? _].
  - split; [done|done|]. apply map_subseteq_spec. intros id e. by rewrite known_new.
  - intros e He. apply Hk. by rewrite <- Hsame.
  - rewrite E'. do 2 f_equal. pose proof (deliver_spec h' _ _ _ Hnew eq_refl E') as Hm'.
    apply settled_eq; [apply Hm'|apply Hm|apply Hm'|apply Hm|by rewrite (me_anchor _ _ _ Hm')|].
    assert (forall id e, known l' !! id = Some e <-> e ∈ concat batches' /\ id = digest e) as Hk'.
    { apply (known_delivered h' anchor); [|done]. intros e e' He He'. apply Hinj; by apply Hsame. }
    apply map_eq. intros id. apply option_eq. intros e. by rewrite Hk, Hk', Hsame.
Qed.

(** C6 Whatever a machine was sent, every event of its log stands under its own digest, has a
    valid signature of its signer over this log's id, has its parents among the events, and was
    allowed by what it had seen: in the view of its ancestors its signer is trusted, a phone
    only revokes itself, and an addition names a key that is not revoked under a name that has
    no other key. *)
Theorem log_invariant l id e :
  reached l -> lg_events l !! id = Some e ->
  id = digest e /\ verify (signer_of e) (str_at e "signature") (canonical (body_of e)) = Good tt /\
  idx (body_of e) "domain" = JString DOMAIN /\ idx (body_of e) "machines" = JString (digest (lg_anchor l)) /\
  all_in (lg_events l) (parents_of e) /\
  exists past, past_of (lg_anchor l) (lg_events l) e past /\ authorized past e.
Proof.
  intros Hok%reached_ok He. destruct (lo_checked _ Hok id e) as [Hid Hc]; [eapply lookup_weaken; [done|apply events_known]|].
  split; [done|]. revert Hc. unfold check_entry. change (str_at (body_of e) "signer") with (signer_of e).
  destruct (verify _ _ _) as [[]|?|]; simpl; try done. destruct (_ || _) eqn:E; [done|]. intros _.
  apply orb_false_iff in E as [Ed%negb_false_iff%is_text_string Em%negb_false_iff%is_text_string].
  rewrite Em, <- (lo_id _ Hok). split_and!; [done..| |by eapply lo_authorized].
  intros p Hp. eapply log_ok_closed; [done|]. by exists e.
Qed.

(** C8 [merge] ends and never panics, whatever the entries are: it refuses, and the log is as
    it was, or it takes them all in, and then nothing that was known or sent is lost, nothing
    else is known, the events only grow, by the number returned, and no pending entry has all
    its parents among the events. *)
Theorem merge_ends (h : HashOrder) l es :
  HashLaw h -> reached l ->
  (exists err, merge l es = Some (Bad err, l)) \/
  exists n l', merge l es = Some (Good n, l') /\ size (lg_events l') = size (lg_events l) + n /\
    lg_anchor l' = lg_anchor l /\ lg_events l ⊆ lg_events l' /\ ready l' = [] /\
    (forall e, e ∈ es -> is_Some (known l' !! digest e)) /\
    (forall id, is_Some (known l !! id) -> is_Some (known l' !! id)) /\
    (forall id e, known l' !! id = Some e -> known l !! id = Some e \/ e ∈ es).
Proof.
  intros Hh Hok%reached_ok. destruct (merge_spec h l es Hok) as [?|(n & l' & E & [] & Hs)]; [by left|]. right. exists n, l'. done.
Qed.

(** C9 The view of a log, as the source computes it, has a key as trusted exactly when no event
    revokes it and some name has had this key and no other, by the anchor or by additions that
    chain back to it (an addition by a revoked signer counts only when a revoker had seen
    it). *)
Theorem trusted_exact l :
  reached l ->
  let ids := sorted_keys (lg_events l) in
  let name_has := named (lg_anchor l) (lg_events l) ids in
  exists v, log_view l = Some v /\
    forall k, k ∈ trusted v <->
      ¬ revoked_in (lg_events l) ids k /\ exists n, name_has n k /\ forall k', name_has n k' -> k' = k.
Proof.
  intros Hok%reached_ok ids name_has. destruct (log_view_is l Hok) as (v & Hv & [Hr (Hs & Hc & Hn) _ _]). exists v. split; [done|].
  intros k. rewrite elem_of_trusted, Hr. split; intros [Hnr (n & Hk)]; (split; [done|exists n]).
  - split; [eapply Hs; [done|set_solver]|]. intros k' (keys & Hkeys & Hin)%Hc. simplify_eq. set_solver.
  - destruct Hk as [Hk Hu]. destruct (Hc n k Hk) as (keys & Hkeys & Hin). rewrite Hkeys. f_equal. apply set_eq. intros k'.
    split; [intros Hk'; apply elem_of_singleton, Hu; by eapply Hs|by intros ->%elem_of_singleton].
Qed.

(** C7 A revoked key never returns: whatever is merged later, its view is still computed, the
    key is in no trusted set of it, and the machine refuses the key's connections, with or
    without a certificate. *)
Theorem revoked_forever l l' v k :
  reached l -> log_view l = Some v -> k ∈ v_revoked v -> later l l' ->
  exists v', log_view l' = Some v' /\ k ∉ trusted v' /\ k ∉ machines v' /\ k ∉ phones v' /\
    forall cert, accept_endpoint l' k cert = refused "untrusted_endpoint".
Proof.
  intros Hok%reached_ok Hv Hk Hl. destruct (later_spec l l' Hok Hl) as (Hok' & _ & Hs).
  destruct (log_view_is l' Hok') as (v' & Hv' & _). exists v'. split; [done|].
  assert (k ∈ v_revoked v') as Hk'.
  { apply (log_revoked l' v' k Hok' Hv'). apply (log_revoked l v k Hok Hv) in Hk as (id & e & He & ? & ?).
    exists id, e. split_and!; [by eapply lookup_weaken|done..]. }
  assert (k ∉ trusted v') as Hn by by intros [? _]%elem_of_trusted.
  split_and!; [done|unfold machines; set_solver|unfold phones; set_solver|]. intros cert.
  unfold accept_endpoint. rewrite Hv'. simpl. by rewrite decide_True.
Qed.

(** A connection is accepted exactly when its key is not revoked and is a machine of the
    view, or comes with a certificate that one of them signed for this key; and the
    certificate a machine makes for an app's key is such a certificate. *)
Theorem endpoint_exact l v key cert :
  log_view l = Some v ->
  (accept_endpoint l key cert = Good tt <->
   key ∉ v_revoked v /\ (key ∈ machines v \/ certified v key cert)) /\
  (forall secret, public secret ∈ machines v -> key ∉ v_revoked v ->
     accept_endpoint l key (Some (certificate secret key)) = Good tt).
Proof.
  intros Hv. split; [by apply accept_endpoint_spec|]. intros secret Hs Hr. apply (accept_endpoint_spec _ _ _ _ Hv).
  split; [done|right]. eexists. split; [done|]. split_and!; [done| |reflexivity..]. apply verify_sign.
Qed.

(** A trusted machine can always revoke a key: on a log with nothing pending, the revocation
    it signs with the frontier as its parents is accepted, is the one new event, and from then
    on the key is revoked. *)
Theorem trusted_can_revoke (h : HashOrder) (phone : string -> bool) l v secret key time :
  HashLaw h -> reached l -> lg_pending l = ∅ -> log_view l = Some v ->
  public secret ∈ trusted v -> phone (public secret) = false -> roles_agree phone (lg_anchor l) (entries l) ->
  let e := entry l secret "revoke" (obj [("key", JString key)]) None time in
  lg_events l !! digest e = None ->
  exists l' v', merge l [e] = Some (Good 1, l') /\ lg_events l' = <[digest e := e]> (lg_events l) /\
    log_view l' = Some v' /\ key ∈ v_revoked v'.
Proof.
  intros Hh Hok%reached_ok Hp Hv Ht Hph Hroles e Hn.
  pose proof (own_fields l secret "revoke" (obj [("key", JString key)]) None time) as (Hsig & Hpay & Hkind).
  pose proof (own_parents l secret "revoke" (obj [("key", JString key)]) None time) as Hpar. fold e in Hsig, Hpay, Hkind, Hpar. simpl in Hpar.
  assert (forall x, x ∈ parents_of e <-> x ∈ frontier l) as Hfr by (intros x; by rewrite Hpar, sort_strings_perm).
  assert (all_in (lg_events l) (parents_of e)) as Hall by (intros x ?%Hfr; by apply frontier_all_in).
  assert (is_kind e "add" = false) as Hadd.
  { revert Hkind. unfold is_kind. intros ->%is_text_string. by apply bool_decide_eq_false_2. }
  assert (roles_agree phone (lg_anchor l) (e :: entries l)) as Hroles'.
  { destruct Hroles as [H1 H2]. split; [done|]. intros e' [->|?]%elem_of_cons; [congruence|by apply H2]. }
  pose proof (merge_own h phone l e Hok Hp Hroles' (own_checked l secret "revoke" _ None time) Hn Hall) as Hm.
  assert (forall past, past_of (lg_anchor l) (lg_events l) e past -> authorized past e) as Hau.
  { intros past Hpast. destruct (own_past l v e past Hok Hv Hfr Hpast) as (En & Er & ids & Hview).
    assert (public secret ∈ trusted past) as Ht' by (apply elem_of_trusted; rewrite <- En, <- Er; by apply elem_of_trusted).
    pose proof Ht' as [_ [n Hname]]%elem_of_trusted.
    assert (is_phone past (public secret) = false) as Hnp.
    { rewrite <- Hph. eapply is_phone_agrees; [exact Hroles| |exact Hview|exact Hname].
      intros id e' He'. apply elem_of_entries; [done|]. exists id. eapply lookup_weaken; [done|apply events_known]. }
    split; [by rewrite Hsig|rewrite Hsig; congruence|congruence|by right]. }
  specialize (Hm Hau). destruct (merge_spec h l [e] Hok) as [[err E]|(n' & l' & E & Hmd & _)]; rewrite Hm in E; simplify_eq.
  eexists. destruct (log_view_is _ (me_ok _ _ _ Hmd)) as (v' & Hv' & _). exists v'. split_and!; [done..|].
  apply (log_revoked _ v' key (me_ok _ _ _ Hmd) Hv'). exists (digest e), e. simpl. rewrite lookup_insert_eq. split_and!; [done..|].
  unfold key_in. by rewrite Hpay.
Qed.
End Theorems.

(** ** A sample: machines whose secret is one byte *)

Module Sample.
(** Not cryptography: a checksum and signatures anyone could make, with the shapes of the real ones. *)
Fixpoint copies (n : nat) (a : ascii) : string := match n with 0 => "" | S n => String a (copies n a) end.

Definition checksum (text : string) : N :=
  foldl (fun acc a => ((acc * 31 + N_of_ascii a) mod 65521)%N) 7%N (string_bytes text).

Fixpoint bytes_le (n : nat) (x : N) : string :=
  match n with 0 => "" | S n => String (ascii_of_N (x mod 256)) (bytes_le n (x / 256)) end.

Definition seal (key message : string) : string := key +:+ bytes_le 32 (checksum message).

Fixpoint print (v : Value) : string :=
  match v with
  | JNull => "null"
  | JBool b => if b then "true" else "false"
  | JNumber (PosInt n) => pretty n
  | JNumber (NegInt z) => pretty z
  | JNumber (Float _) => "0.0"
  | JString s => "'" +:+ s +:+ "'"
  | JArray l => "[" +:+ String.concat "," (map print l) +:+ "]"
  | JObject m => "{" +:+ String.concat "," (map (fun '(k, v) => k +:+ ":" +:+ print v) m) +:+ "}"
  end.

#[export] Instance crypto : Crypto := {|
  Secret := ascii;
  public a := hex_of (copies 32 a);
  sign_bytes a m := seal (copies 32 a) m;
  sig_ok k s m := bool_decide (s = seal k m);
  sha256 m := bytes_le 8 (checksum m);
  to_vec := print |}.

Lemma copies_length n a : String.length (copies n a) = n.
Proof. induction n as [|n IH]; simpl; [done|]. by rewrite IH. Qed.

Lemma bytes_le_length n x : String.length (bytes_le n x) = n.
Proof. revert x. induction n as [|n IH]; intros x; simpl; [done|]. by rewrite IH. Qed.

Lemma string_app_length s t : String.length (s +:+ t) = String.length s + String.length t.
Proof. induction s as [|a s IH]; [done|]. simpl. by rewrite <- IH. Qed.

Lemma seal_length a m : String.length (seal (copies 32 a) m) = 64.
Proof. unfold seal. rewrite string_app_length, copies_length, bytes_le_length. done. Qed.

#[export] Instance laws : CryptoLaws.
Proof.
  assert (forall a : ascii, bytes_of 32 (hex_of (copies 32 a)) = Some (copies 32 a)) as Hb.
  { intros a. unfold bytes_of. rewrite unhex_hex. cbn [mbind option_bind]. by rewrite copies_length. }
  split.
  - intros a. exists (copies 32 a). apply Hb.
  - intros a m. apply seal_length.
  - intros a m k. change (public a) with (hex_of (copies 32 a)). rewrite Hb. intros [= <-]. by apply bool_decide_eq_true_2.
Qed.

(** Two machines' orders *)
Definition forwards : HashOrder := elements.
Definition backwards : HashOrder := fun s => rev (elements s).

#[export] Instance forwards_all : HashLaw forwards.
Proof. intros s x. apply elem_of_elements. Qed.

#[export] Instance backwards_all : HashLaw backwards.
Proof. intros s x. unfold backwards. by rewrite elem_of_rev, elem_of_elements. Qed.

Definition descriptor (a : ascii) (name : string) : Value := obj [("name", JString name); ("key", JString (public a)); ("addrs", JArray [])].
Definition phone_descriptor (a : ascii) (name : string) : Value :=
  obj [("name", JString name); ("key", JString (public a)); ("role", JString "phone")].

Definition key_a : string := public "a"%char.
Definition key_b : string := public "b"%char.
Definition key_c : string := public "c"%char.

Definition mbp : Value := descriptor "a" "mbp".

(** The first machine adds a second, which adds a third, which the first revokes. *)
Definition log0 : Log := log_new mbp.
Definition e1 : Value := entry log0 "a"%char "add" (descriptor "b" "linux-vm") (Some []) 0.
Definition e2 : Value := entry log0 "b"%char "add" (descriptor "c" "build-mac") (Some [digest e1]) 1.
Definition e3 : Value := entry log0 "a"%char "revoke" (obj [("key", JString key_c)]) (Some [digest e1; digest e2]) 2.

Definition after (h : HashOrder) (batches : list (list Value)) : Log :=
  match deliver (h := h) log0 batches with Some (Good l) => l | _ => log0 end.
Definition log3 : Log := after forwards [[e1]; [e2; e3]].
End Sample.

(** ** At the sample *)

Import Sample.

Definition has (s : gset string) (k : string) : bool := bool_decide (k ∈ s).

Lemma has_true s k : has s k = true -> k ∈ s.
Proof. apply bool_decide_eq_true_1. Qed.

Lemma has_false s k : has s k = false -> k ∉ s.
Proof. apply bool_decide_eq_false_1. Qed.

Lemma log3_reached : reached log3.
Proof.
  eapply (reached_merge forwards (after forwards [[e1]]) [e2; e3] (Good 2)); [apply _| |vm_compute; reflexivity].
  eapply (reached_merge forwards log0 [e1] (Good 1)); [apply _|apply reached_new|vm_compute; reflexivity].
Qed.

Definition view3 : View := default (mkView ∅ ∅ ∅) (log_view log3).

Lemma log3_view : log_view log3 = Some view3.
Proof. vm_compute. reflexivity. Qed.

Definition no_phone (key : string) : bool := false.

Lemma log_converges_witness :
  deliver (h := backwards) (log_new mbp) [[e3]; [e1; e2]] = Some (Good log3) /\ size (lg_events log3) = 3.
Proof.
  split; [|vm_compute; reflexivity].
  apply (log_converges forwards backwards no_phone mbp [[e1]; [e2; e3]] [[e3]; [e1; e2]] log3); try apply _.
  - intros e e' He He'. simpl in He, He'. rewrite !elem_of_cons, elem_of_nil in He, He'.
    assert (digest e1 ≠ digest e2 /\ digest e1 ≠ digest e3 /\ digest e2 ≠ digest e3) as (? & ? & ?) by (vm_compute; done).
    intros Hd. destruct He as [->|[->|[->|[]]]], He' as [->|[->|[->|[]]]]; congruence.
  - split; [vm_compute; reflexivity|]. intros e He. simpl in He. rewrite !elem_of_cons, elem_of_nil in He.
    destruct He as [->|[->|[->|[]]]]; vm_compute; done.
  - simpl. generalize e1 e2 e3. intros a b c e. rewrite !elem_of_cons, elem_of_nil. tauto.
  - vm_compute. reflexivity.
Defined.

Lemma log_invariant_witness :
  lg_events log3 !! digest e3 = Some e3 /\ exists past, past_of (lg_anchor log3) (lg_events log3) e3 past /\ authorized past e3.
Proof.
  assert (lg_events log3 !! digest e3 = Some e3) as He by (vm_compute; reflexivity). split; [done|].
  apply (log_invariant log3 (digest e3) e3 log3_reached He).
Defined.

Lemma merge_ends_witness : reached log3 /\ exists r, merge (order := forwards) log3 [e1] = Some r.
Proof.
  split; [apply log3_reached|].
  destruct (merge_ends forwards log3 [e1] _ log3_reached) as [[err E]|(n & l' & E & _)]; by eexists.
Defined.

Lemma trusted_exact_witness : exists v, log_view log3 = Some v /\ key_b ∈ trusted v /\ key_c ∉ trusted v.
Proof.
  destruct (trusted_exact log3 log3_reached) as (v & Hv & _). exists v. split; [done|].
  assert (v = view3) as -> by (unfold view3; by rewrite Hv). clear Hv.
  split; [apply has_true|apply has_false]; vm_compute; reflexivity.
Defined.

Lemma revoked_forever_witness : accept_endpoint log3 (key_c) None = refused "untrusted_endpoint".
Proof.
  destruct (revoked_forever log3 log3 view3 (key_c) log3_reached log3_view) as (v' & _ & _ & _ & _ & Ha).
  - apply has_true. vm_compute. reflexivity.
  - apply later_same.
  - apply Ha.
Defined.

Lemma endpoint_exact_witness : accept_endpoint log3 "app" (Some (certificate "b"%char "app")) = Good tt.
Proof.
  apply (endpoint_exact log3 view3 "app" None log3_view); [apply has_true|apply has_false];
    vm_compute; reflexivity.
Defined.

Lemma trusted_can_revoke_witness :
  exists l' v', merge (order := forwards) log3 [entry log3 "b"%char "revoke" (obj [("key", JString key_a)]) None 9] = Some (Good 1, l') /\
    log_view l' = Some v' /\ key_a ∈ v_revoked v'.
Proof.
  destruct (trusted_can_revoke (H := crypto) forwards no_phone log3 view3 ("b"%char : @Secret crypto) key_a 9 _ log3_reached) as (l' & v' & Hm & _ & Hv' & Hk).
  - vm_compute. reflexivity.
  - exact log3_view.
  - apply has_true. vm_compute. reflexivity.
  - reflexivity.
  - split; [vm_compute; reflexivity|]. assert (entries log3 = [e2; e3; e1]) as Hp by (vm_compute; reflexivity).
    intros e He. rewrite Hp, !elem_of_cons, elem_of_nil in He. destruct He as [->|[->|[->|[]]]]; vm_compute; done.
  - vm_compute. reflexivity.
  - exists l', v'. exact (conj Hm (conj Hv' Hk)).
Defined.

(** ** The order a [HashSet] is visited in can decide

    A key is added as a phone and then again without that role; an entry it signs then is
    allowed by a machine that visits the second addition last, and refused by one that visits
    the first one last. *)
Definition f1 : Value := entry log0 "a"%char "add" (phone_descriptor "p" "iphone") (Some []) 0.
Definition f2 : Value := entry log0 "a"%char "add" (descriptor "p" "iphone") (Some [digest f1]) 1.
Definition log_p : Log := after forwards [[f1; f2]].
Definition f3 : Value := entry log_p "p"%char "add" (descriptor "q" "other") None 2.

Theorem hash_order_decides :
  reached log_p /\ size (lg_events log_p) = 2 /\
  authorize (order := forwards) log_p f3 ≠ authorize (order := backwards) log_p f3.
Proof.
  split; [|split; [vm_compute; reflexivity|vm_compute; done]].
  eapply (reached_merge forwards log0 [f1; f2] (Good 2)); [apply _|apply reached_new|vm_compute; reflexivity].
Qed.
