(* ===== verification/Pipe.v ===== *)
(** * The pipeline language: [crates/kanna-pipe/src/lib.rs]

    A pipeline is the stages of a run and the arrows between them.  [pick] chooses the
    arrow a run takes from a stage; the other files of the crate parse a pipeline's text,
    check it, and find its worst case. *)

From S2P Require Import Prelude Text.
From Stdlib Require Import Ascii.

Definition DONE : string := "done".
Definition AGENTS : list string := ["claude"; "codex"; "opencode"; "agy"].
Definition ASSUMED_PARTS : N := 2.

(** ** Data *)

Record Output := mkOutput { out_stage : string; out_key : string }.
Record Attempts := mkAttempts { att_count : N; att_by : string }.

Record Agent := mkAgent {
  ag_agent : string;
  ag_effort : option string;
  ag_model : option string;
  ag_prompt : option string;
  ag_verdict : bool;
  ag_each : option Output;
  ag_attempts : option Attempts;
  ag_guard : option string;
  ag_emits : bool;
  ag_resume : option string }.

Inductive Kind :=
| KAgent (agent : Agent)
| KRun (command : string)
| KAsk (question : string)
| KMerge (from : string).

(** A [Duration] is its seconds. *)
Record Stage := mkStage {
  st_name : string;
  st_line : N;
  st_kind : Kind;
  st_on : option string;
  st_within : option N }.

Inductive Verdict := Pass | Fail_.

Record Arrow := mkArrow {
  ar_from : string;
  ar_to : string;
  ar_when : option Verdict;
  ar_max : option N;
  ar_reset : bool;
  ar_progress : bool;
  ar_line : N }.

Record Budget := mkBudget { bu_sessions : option N; bu_time : option N; bu_line : N }.

Record Pipeline := mkPipeline {
  pl_stages : list Stage;
  pl_arrows : list Arrow;
  pl_budget : option Budget;
  pl_start : string;
  pl_text : string }.

Inductive Rule :=
| RSyntax | RRedefined | RUndefined | RAfterDone | RVerdict | RProgress | RReset | RUnreachable | RNoDone
| RUnbounded | REach | RMerge | RScorer | RResume | RPrompt | RPlacement | RBudget | REmits.

Record PipeError := mkPipeError { pe_line : N; pe_rule : Rule; pe_message : string }.

#[export] Instance Output_eq_dec : EqDecision Output.
Proof. solve_decision. Defined.
#[export] Instance Verdict_eq_dec : EqDecision Verdict.
Proof. solve_decision. Defined.
#[export] Instance Arrow_eq_dec : EqDecision Arrow.
Proof. solve_decision. Defined.
#[export] Instance Rule_eq_dec : EqDecision Rule.
Proof. solve_decision. Defined.
#[export] Instance PipeError_eq_dec : EqDecision PipeError.
Proof. solve_decision. Defined.

Definition Sizes : Type := gmap string N.

(** Addition and multiplication of [u32]s. *)
Definition add_u32 {E} (a b : N) : outcome E N := if (a + b <=? u32_max)%N then Good (a + b)%N else Crash.
Definition mul_u32 {E} (a b : N) : outcome E N := if (a * b <=? u32_max)%N then Good (a * b)%N else Crash.

(** ** Errors *)

Definition error_at (e : PipeError) (file : string) : string :=
  file +:+ ":" +:+ pretty (pe_line e) +:+ ": " +:+ pe_message e.

Definition verdict_name (v : Verdict) : string := match v with Pass => "pass" | Fail_ => "fail" end.

(** ** Stages *)

Definition stage_agent (s : Stage) : option Agent :=
  match st_kind s with KAgent a => Some a | _ => None end.
Definition is_run (s : Stage) : bool := match st_kind s with KRun _ => true | _ => false end.
Definition verdicts (s : Stage) : bool := match st_kind s with KAgent a => ag_verdict a | _ => true end.
Definition stage_prompt (s : Stage) : option string :=
  (fun a => default (st_name s) (ag_prompt a)) <$> stage_agent s.
Definition stage_what (s : Stage) : string :=
  match st_kind s with
  | KAgent _ => "an agent stage"
  | KRun _ => "a run stage"
  | KAsk _ => "an ask stage"
  | KMerge _ => "a merge stage"
  end.

Definition output_text (o : Output) : string := out_stage o +:+ "." +:+ out_key o.

(** [Stage::sessions]: a session for each attempt at each part. *)
Definition stage_sessions (sizes : Sizes) (s : Stage) : outcome (list PipeError) N :=
  match stage_agent s with
  | None => Good 0%N
  | Some agent =>
    let attempts := match ag_attempts agent with Some a => att_count a | None => 1%N end in
    let parts := match ag_each agent with
                 | Some each => default ASSUMED_PARTS (sizes !! output_text each)
                 | None => 1%N
                 end in
    mul_u32 attempts parts
  end.

(** ** Arrows *)

Definition arrow_options (a : Arrow) : list string :=
  match ar_when a with Some v => [verdict_name v] | None => [] end
  ++ match ar_max a with Some n => ["max " +:+ pretty n] | None => [] end
  ++ (if ar_reset a then ["reset"] else [])
  ++ (if ar_progress a then ["progress"] else []).

Definition arrow_render (a : Arrow) : string :=
  let options := arrow_options a in
  if decide (options = []) then ar_from a +:+ " -> " +:+ ar_to a
  else ar_from a +:+ " -[" +:+ join ", " options +:+ "]-> " +:+ ar_to a.

(** [Arrow::same]: equal but for the line. *)
Definition arrow_same (a b : Arrow) : bool :=
  bool_decide (ar_from a = ar_from b) && bool_decide (ar_to a = ar_to b) && bool_decide (ar_when a = ar_when b)
  && bool_decide (ar_max a = ar_max b) && bool_decide (ar_reset a = ar_reset b)
  && bool_decide (ar_progress a = ar_progress b).

(** ** Pipelines *)

Definition pipeline_stage (p : Pipeline) (name : string) : option Stage :=
  List.find (fun s => bool_decide (st_name s = name)) (pl_stages p).

(** The first element that satisfies [f], with its index. *)
Fixpoint find_index {A} (f : nat -> A -> bool) (i : nat) (l : list A) : option (nat * A) :=
  match l with
  | [] => None
  | x :: l => if f i x then Some (i, x) else find_index f (S i) l
  end.

(** Whether a run at [stage], with its verdict and whether it stalls, may take the arrow,
    which it took [count] times. *)
Definition eligible (stage : string) (verdict : option Verdict) (stalled : bool) (a : Arrow) (count : N) : bool :=
  bool_decide (ar_from a = stage)
  && match ar_when a with None => true | Some when_ => bool_decide (Some when_ = verdict) end
  && negb (stalled && ar_progress a)
  && match ar_max a with None => true | Some max => (count <? max)%N end.

Definition pick (p : Pipeline) (stage : string) (verdict : option Verdict) (taken : list N) (stalled : bool)
  : option (nat * Arrow) :=
  find_index (fun i a => eligible stage verdict stalled a (default 0%N (taken !! i))) 0 (pl_arrows p).

Definition fanouts (p : Pipeline) : list Stage :=
  retain (fun s => match stage_agent s with Some a => bool_decide (is_Some (ag_each a)) | None => false end) (pl_stages p).

(** ** The kojo block of an answer *)

(** [str::lines]: each line without its newline, and without the return before it. *)
Fixpoint lines_from (current : string) (s : string) : list string :=
  match s with
  | EmptyString => if str_is_empty current then [] else [String.rev current]
  | String a s =>
    if bool_decide (a = "010"%char) then
      let line := String.rev current in
      default line (strip_suffix (String "013" "") line) :: lines_from "" s
    else lines_from (String a current) s
  end.
Definition str_lines (s : string) : list string := lines_from "" s.

(** The words of a text with the byte each starts at: runs of [char]s that are not
    whitespace. *)
Fixpoint words_from (at_ : nat) (start : option (nat * string)) (cs : list N) : list (nat * string) :=
  match cs with
  | [] => match start with Some (from, word) => [(from, word)] | None => [] end
  | c :: cs =>
    let next := at_ + String.length (encode_char c) in
    match is_whitespace c, start with
    | false, None => words_from next (Some (at_, encode_char c)) cs
    | false, Some (from, word) => words_from next (Some (from, word +:+ encode_char c)) cs
    | true, Some (from, word) => (from, word) :: words_from next None cs
    | true, None => words_from next None cs
    end
  end.
Definition text_words (body : string) : list (nat * string) := words_from 0 None (chars body).
(** [str::split_whitespace] *)
Definition split_whitespace (s : string) : list string := map snd (text_words s).

Definition fence_byte (a : ascii) : bool := bool_decide (a = "`"%char) || bool_decide (a = "~"%char).

(** The bytes that satisfy [p], and the rest. *)
Fixpoint span_bytes (p : ascii -> bool) (s : string) : string * string :=
  match s with
  | EmptyString => ("", "")
  | String a s' => if p a then let '(x, y) := span_bytes p s' in (String a x, y) else ("", s)
  end.

(** [trim_start_matches] of the fence's first character leaves nothing. *)
Definition only_fence (fence line : string) : bool :=
  match fence with
  | EmptyString => false
  | String c _ => str_is_empty (snd (span_bytes (fun a => bool_decide (a = c)) (str_trim line)))
  end.

Fixpoint block_lines (fence : string) (block lines : list string) : list string :=
  match lines with
  | [] => block
  | line :: lines =>
    if starts_with fence (str_trim_start line) && only_fence fence line then block
    else block_lines fence (block ++ [line]) lines
  end.

Definition newline : string := String "010" "".

Fixpoint kojo_lines (lines : list string) : option string :=
  match lines with
  | [] => None
  | line :: lines =>
    let trimmed := str_trim_start line in
    let '(fence, rest) := span_bytes fence_byte trimmed in
    if (String.length fence <? 3)%nat || negb (bool_decide (head (split_whitespace rest) = Some "kojo"))
    then kojo_lines lines
    else Some (join newline (block_lines fence [] lines))
  end.
Definition kojo_block (answer : string) : option string := kojo_lines (str_lines answer).
