(* ===== verification/PipeParse.v ===== *)
(** * Parsing a pipeline: [crates/kanna-pipe/src/parse.rs] *)

From S2P Require Import Prelude Text Pipe.
From Stdlib Require Import Ascii.

Inductive Line :=
| LStage (stage : Stage)
| LFlow (nodes : list string) (arrows : list Arrow)
| LBudget (budget : Budget).

Definition parsed (A : Type) : Type := outcome string A.

Definition set_on (s : Stage) (on : option string) : Stage := mkStage (st_name s) (st_line s) (st_kind s) on (st_within s).
Definition set_within (s : Stage) (within : option N) : Stage := mkStage (st_name s) (st_line s) (st_kind s) (st_on s) within.
Definition set_kind (s : Stage) (kind : Kind) : Stage := mkStage (st_name s) (st_line s) kind (st_on s) (st_within s).

(** ** Words *)

Fixpoint uncomment_from (quoted : bool) (raw : string) : string :=
  match raw with
  | EmptyString => ""
  | String a raw =>
    if bool_decide (String a "" = dq) then String a (uncomment_from (negb quoted) raw)
    else if bool_decide (a = "#"%char) && negb quoted then ""
    else String a (uncomment_from quoted raw)
  end.
Definition uncomment (raw : string) : string := uncomment_from false raw.

Definition is_lower (a : ascii) : bool := let n := N_of_ascii a in ((97 <=? n) && (n <=? 122))%N.
Definition name_byte (a : ascii) : bool := is_lower a || is_digit a || bool_decide (a = "_"%char).

Definition is_name (word : string) : bool :=
  match word with
  | EmptyString => false
  | String a rest => is_lower a && forallb name_byte (string_bytes rest)
  end.

Definition stage_name (word what : string) : parsed string :=
  if is_name word then Good word else Bad (what +:+ " needs a stage name, got '" +:+ word +:+ "'").

Definition definition (line : string) : option (string * string) :=
  let '(name, rest) := span_bytes name_byte line in
  body ← strip_prefix "=" (str_trim_start rest);
  if is_name name then Some (name, str_trim body) else None.

Definition u64_max : N := (2 ^ 64 - 1)%N.
Definition parse_u64 : string -> option N := parse_uint u64_max.

Definition char_digit (c : N) : bool := ((48 <=? c) && (c <=? 57))%N.
Definition unit_scale (c : N) : option N :=
  if (c =? 104)%N then Some 3600%N else if (c =? 109)%N then Some 60%N else if (c =? 115)%N then Some 1%N else None.

(** [duration]: [Bad] is no duration, [Crash] one past [u64]. *)
Fixpoint duration_from (total : N) (digits : string) (units : nat) (cs : list N) : outcome unit N :=
  match cs with
  | [] => if str_is_empty digits && bool_decide (0 < units) && (0 <? total)%N then Good total else Bad tt
  | c :: cs =>
    if char_digit c then duration_from total (digits +:+ encode_char c) units cs
    else
      match unit_scale c with
      | None => Bad tt
      | Some scale =>
        match parse_u64 digits with
        | None => Bad tt
        | Some n => if (total + n * scale <=? u64_max)%N then duration_from (total + n * scale) "" (S units) cs else Crash
        end
      end
  end.
Definition duration (word : string) : outcome unit N := duration_from 0 "" 0 (chars word).

(** ** The budget *)

Definition budget_part (found : Budget) (part : string) : parsed Budget :=
  let refuse := Bad ("expected `budget = N sessions, DURATION` (DURATION like 8h or 90m), got '" +:+ part +:+ "'") in
  match split_whitespace part with
  | [count; word] =>
    if (bool_decide (word = "sessions") || bool_decide (word = "session")) && bool_decide (bu_sessions found = None) then
      let* n := good_or (n ← parse_u32 count; if (0 <? n)%N then Some n else None)
        ("expected a number of sessions, got '" +:+ count +:+ "'") in
      Good (mkBudget (Some n) (bu_time found) (bu_line found))
    else refuse
  | [time] =>
    if bool_decide (bu_time found = None) then
      match duration time with
      | Good t => Good (mkBudget (bu_sessions found) (Some t) (bu_line found))
      | Bad _ => refuse
      | Crash => Crash
      end
    else refuse
  | _ => refuse
  end.

Fixpoint budget_parts (found : Budget) (parts : list string) : parsed Budget :=
  match parts with
  | [] => Good found
  | part :: parts => let* found := budget_part found (str_trim part) in budget_parts found parts
  end.
Definition read_budget (body : string) (number : N) : parsed Budget :=
  budget_parts (mkBudget None None number) (split_on ","%char body).

(** ** Flows *)

Definition node_char (c : N) : bool := negb (is_whitespace c || (c =? 45)%N).

(** The loop of [flow]; the text's length is fuel enough, since each turn takes a node. *)
Fixpoint flow_loop (fuel : nat) (rest : string) (nodes : list string) (options : list (option string))
  : parsed (list string * list (option string)) :=
  match fuel with
  | 0 => Crash
  | S fuel =>
    let cs := chars (str_trim_start rest) in
    let node := of_chars (take_while node_char cs) in
    let after := of_chars (drop_while node_char cs) in
    if str_is_empty node then Bad "expected a stage name after an arrow"
    else
      let* name := stage_name node "a flow" in
      let nodes := nodes ++ [name] in
      let rest := str_trim_start after in
      if str_is_empty rest then Good (nodes, options)
      else
        match strip_prefix "->" rest with
        | Some after => flow_loop fuel after nodes (options ++ [None])
        | None =>
          match strip_prefix "-[" rest with
          | Some after =>
            let* '(inside, rest) := good_or (split_once "]->" after)
              "an arrow's options end with `]->`, as in `a -[fail, max 3]-> b`" in
            flow_loop fuel rest nodes (options ++ [Some inside])
          | None => Bad ("expected `->` or `-[…]->` after '" +:+ node +:+ "'")
          end
        end
  end.

Definition option_max (item : string) : option string :=
  n ← strip_prefix "max" item;
  match n with
  | String a rest => if bool_decide (a = " "%char) || bool_decide (a = "="%char) then Some (str_trim rest) else None
  | EmptyString => None
  end.

Definition arrow_option (found : Arrow) (item : string) : parsed Arrow :=
  let '(mkArrow from to when_ max reset progress line) := found in
  if (bool_decide (item = "pass") || bool_decide (item = "fail")) && bool_decide (when_ = None) then
    Good (mkArrow from to (Some (if decide (item = "pass") then Pass else Fail_)) max reset progress line)
  else if bool_decide (item = "reset") && negb reset then Good (mkArrow from to when_ max true progress line)
  else if bool_decide (item = "progress") && negb progress then Good (mkArrow from to when_ max reset true line)
  else
    match option_max item with
    | Some text =>
      if bool_decide (max = None) then
        let* n := good_or (n ← parse_u32 text; if (0 <? n)%N then Some n else None)
          ("`" +:+ item +:+ "`: max takes a whole number above 0") in
        Good (mkArrow from to when_ (Some n) reset progress line)
      else Bad ("unknown or repeated arrow option '" +:+ item +:+ "'; use pass or fail, max N, reset and progress, each once")
    | None => Bad ("unknown or repeated arrow option '" +:+ item +:+ "'; use pass or fail, max N, reset and progress, each once")
    end.

Fixpoint arrow_options_in (found : Arrow) (items : list string) : parsed Arrow :=
  match items with
  | [] => Good found
  | item :: items => let* found := arrow_option found item in arrow_options_in found items
  end.

Definition read_arrow (from to options : string) (number : N) : parsed Arrow :=
  arrow_options_in (mkArrow from to None None false false number)
    (retain (fun item => negb (str_is_empty item)) (map str_trim (split_on ","%char options))).

(** [nodes.zip(nodes.skip(1)).zip(options)] *)
Fixpoint flow_arrows (nodes : list string) (options : list (option string)) (number : N) : parsed (list Arrow) :=
  match nodes, options with
  | from :: ((to :: _) as nodes), option :: options =>
    let* a := read_arrow from to (default "" option) number in
    let* rest := flow_arrows nodes options number in
    Good (a :: rest)
  | _, _ => Good []
  end.

Definition flow (line : string) (number : N) : parsed (list string * list Arrow) :=
  let* '(nodes, options) := flow_loop (S (String.length line)) line [] [] in
  let* arrows := flow_arrows nodes options number in
  Good (nodes, arrows).

(** ** Stages *)

(** [placed]: the value is whether the key is a placement. *)
Definition placed_at (stage : Stage) (key value : string) : parsed (bool * Stage) :=
  if bool_decide (key = "on") && bool_decide (st_on stage = None) then Good (true, set_on stage (Some value))
  else if bool_decide (key = "within") && bool_decide (st_within stage = None) then
    match duration value with
    | Good t => Good (true, set_within stage (Some t))
    | Bad _ => Bad ("within takes a duration like 30m or 2h, got '" +:+ value +:+ "'")
    | Crash => Crash
    end
  else if bool_decide (key = "on") || bool_decide (key = "within") then Bad (key +:+ " is given twice")
  else Good (false, stage).

Fixpoint placement_pairs (stage : Stage) (what : string) (rest : list string) : parsed Stage :=
  let refuse pair := Bad ("a " +:+ what +:+ " stage takes only `on PLACEMENT` and `within DURATION` after it, got '"
                          +:+ join " " pair +:+ "'") in
  match rest with
  | [] => Good stage
  | [key] => refuse [key]
  | key :: value :: rest =>
    let* '(is_placement, stage) := placed_at stage key value in
    if is_placement : bool then placement_pairs stage what rest else refuse [key; value]
  end.
Definition only_placement (stage : Stage) (rest what : string) : parsed Stage :=
  placement_pairs stage what (split_whitespace rest).

(** The loop that takes placements off the end of a run stage's words, given backwards. *)
Fixpoint run_placements (stage : Stage) (backwards : list (nat * string)) : parsed (list (nat * string) * Stage) :=
  match backwards with
  | (_, value) :: (((_, key) :: head) as rest) =>
    if bool_decide (key = "on") || bool_decide (key = "within") then
      let* '(is_placement, stage) := placed_at stage key value in
      if is_placement : bool then run_placements stage head else Good (backwards, stage)
    else Good (backwards, stage)
  | _ => Good (backwards, stage)
  end.

Definition slice (body : string) (from to : nat) : string := String.substring from (to - from) body.

Definition run_command (body : string) (rest : list (nat * string)) : string :=
  match rest, last rest with
  | [(from, word)], _ => slice body from (from + String.length word)
  | (from, _) :: _, Some (at_, word) => str_trim (slice body from (at_ + String.length word))
  | _, _ => ""
  end.

Definition drop_bytes (n : nat) (s : string) : string := String.substring n (String.length s - n) s.

(** ** Agents *)

Definition set_ag_verdict (a : Agent) : Agent :=
  mkAgent (ag_agent a) (ag_effort a) (ag_model a) (ag_prompt a) true (ag_each a) (ag_attempts a) (ag_guard a) (ag_emits a) (ag_resume a).
Definition set_ag_emits (a : Agent) : Agent :=
  mkAgent (ag_agent a) (ag_effort a) (ag_model a) (ag_prompt a) (ag_verdict a) (ag_each a) (ag_attempts a) (ag_guard a) true (ag_resume a).
Definition set_ag_prompt (a : Agent) (prompt : string) : Agent :=
  mkAgent (ag_agent a) (ag_effort a) (ag_model a) (Some prompt) (ag_verdict a) (ag_each a) (ag_attempts a) (ag_guard a) (ag_emits a) (ag_resume a).
Definition set_ag_model (a : Agent) (model : string) : Agent :=
  mkAgent (ag_agent a) (ag_effort a) (Some model) (ag_prompt a) (ag_verdict a) (ag_each a) (ag_attempts a) (ag_guard a) (ag_emits a) (ag_resume a).
Definition set_ag_each (a : Agent) (each : Output) : Agent :=
  mkAgent (ag_agent a) (ag_effort a) (ag_model a) (ag_prompt a) (ag_verdict a) (Some each) (ag_attempts a) (ag_guard a) (ag_emits a) (ag_resume a).
Definition set_ag_attempts (a : Agent) (attempts : Attempts) : Agent :=
  mkAgent (ag_agent a) (ag_effort a) (ag_model a) (ag_prompt a) (ag_verdict a) (ag_each a) (Some attempts) (ag_guard a) (ag_emits a) (ag_resume a).
Definition set_ag_guard (a : Agent) (guard : string) : Agent :=
  mkAgent (ag_agent a) (ag_effort a) (ag_model a) (ag_prompt a) (ag_verdict a) (ag_each a) (ag_attempts a) (Some guard) (ag_emits a) (ag_resume a).
Definition set_ag_resume (a : Agent) (resume : string) : Agent :=
  mkAgent (ag_agent a) (ag_effort a) (ag_model a) (ag_prompt a) (ag_verdict a) (ag_each a) (ag_attempts a) (ag_guard a) (ag_emits a) (Some resume).

Definition attempts_word (word : string) : option N := n ← strip_prefix "x" word; parse_u32 n.

Definition prompt_name (prompt : string) : bool :=
  match prompt with
  | EmptyString => false
  | String a _ => is_lower a && forallb (fun b => name_byte b || bool_decide (b = "-"%char)) (string_bytes prompt)
  end.

Definition read_output (output : string) : option Output :=
  '(from, key) ← split_once "." output;
  if is_name from && negb (str_is_empty key) then Some (mkOutput from key) else None.

(** [word] given with no value after it. *)
Definition needs {A} (word what : string) : parsed A := Bad (word +:+ " needs " +:+ what).

(** The loop over an agent's words; a placement goes to the stage. *)
Fixpoint agent_words (seen : list string) (agent : Agent) (stage : Stage) (words : list string) : parsed (Agent * Stage) :=
  match words with
  | [] => Good (agent, stage)
  | word :: words =>
    let key := if attempts_word word then "xN" else word in
    if contains seen key then Bad (key +:+ " is given twice")
    else
      let seen := seen ++ [key] in
      if decide (key = "verdict") then agent_words seen (set_ag_verdict agent) stage words
      else if decide (key = "emits") then agent_words seen (set_ag_emits agent) stage words
      else if decide (key = "prompt") then
        match words with
        | [] => needs word "a prompt's name"
        | prompt :: words =>
          if prompt_name prompt then agent_words seen (set_ag_prompt agent prompt) stage words
          else Bad ("prompt takes a name like review or fix-tests (.kanna/prompts/NAME.md), got '" +:+ prompt +:+ "'")
        end
      else if decide (key = "model") then
        match words with
        | [] => needs word "a model's name"
        | model :: words => agent_words seen (set_ag_model agent model) stage words
        end
      else if decide (key = "each") then
        match words with
        | [] => needs word "STAGE.KEY, a named list a stage before it produced"
        | output :: words =>
          match read_output output with
          | Some each => agent_words seen (set_ag_each agent each) stage words
          | None => Bad ("each takes STAGE.KEY, as in each plan.parts, got '" +:+ output +:+ "'")
          end
        end
      else if decide (key = "xN") then
        let count := default 0%N (attempts_word word) in
        if negb ((2 <=? count) && (count <=? 10))%N then Bad "xN takes 2 to 10 attempts"
        else
          match words with
          | [] => Bad (word +:+ " needs `by STAGE`: the run stage that scores each attempt")
          | by_ :: words =>
            if negb (bool_decide (by_ = "by")) then Bad (word +:+ " needs `by STAGE`: the run stage that scores each attempt")
            else
              match words with
              | [] => Bad "by needs a run stage that scores each attempt"
              | by_ :: words =>
                let* name := stage_name by_ "by" in
                agent_words seen (set_ag_attempts agent (mkAttempts count name)) stage words
              end
          end
      else if decide (key = "by") then Bad "`by STAGE` goes after xN, as in x3 by check"
      else if decide (key = "guard") then
        match words with
        | [] => needs word "a run stage that scores the code"
        | guard :: words =>
          let* name := stage_name guard "guard" in agent_words seen (set_ag_guard agent name) stage words
        end
      else if decide (key = "resume") then
        match words with
        | [] => needs word "the stage whose session it continues"
        | resume :: words =>
          let* name := stage_name resume "resume" in agent_words seen (set_ag_resume agent name) stage words
        end
      else if bool_decide (key = "on") || bool_decide (key = "within") then
        match words with
        | [] => needs word (if decide (word = "on") then "a placement: here, any, a machine or a role" else "a duration like 30m")
        | given :: words =>
          let* '(_, stage) := placed_at stage word given in agent_words seen agent stage words
        end
      else Bad ("unexpected '" +:+ word +:+ "'; an agent stage takes prompt NAME, verdict, each STAGE.KEY, xN by STAGE, guard STAGE, emits, on PLACEMENT, within DURATION, resume STAGE and model NAME")
  end.

Definition efforts_of (tool : string) : list string :=
  if decide (tool = "codex") then ["low"; "medium"; "high"; "xhigh"] else ["low"; "medium"; "high"].

Definition read_agent (stage : Stage) (first : string) (words : list string) : parsed (Agent * Stage) :=
  let '(tool, effort) := match split_once ":" first with
                         | Some (tool, effort) => (tool, Some effort)
                         | None => (first, None)
                         end in
  if negb (contains AGENTS tool) then
    Bad ("unknown agent '" +:+ tool +:+ "'; use " +:+ join ", " AGENTS +:+ ", or run, ask or merge")
  else
    match (e ← effort; if contains (efforts_of tool) e then None else Some e) with
    | Some effort => Bad (tool +:+ " takes the efforts " +:+ join ", " (efforts_of tool) +:+ ", not '" +:+ effort +:+ "'")
    | None => agent_words [] (mkAgent tool effort None None false None None None false None) stage words
    end.

Definition read_stage (name body : string) (number : N) : parsed Stage :=
  let stage := mkStage name number (KRun "") None None in
  match text_words body with
  | [] => Bad ("stage '" +:+ name +:+ "' needs a body: an agent (claude, codex, …), `run COMMAND`, `ask "
               +:+ in_quotes "QUESTION" +:+ "` or `merge STAGE`")
  | (_, first) :: rest =>
    if decide (first = "run") then
      let* '(backwards, stage) := run_placements stage (rev rest) in
      let command := run_command body (rev backwards) in
      if str_is_empty command then Bad "`run` needs a command" else Good (set_kind stage (KRun command))
    else if decide (first = "ask") then
      let after := str_trim_start (drop_bytes 3 body) in
      match ('(q, rest) ← (q ← strip_prefix dq after; split_once dq q); if str_is_empty (str_trim q) then None else Some (q, rest)) with
      | None => Bad ("`ask` needs a question in double quotes: ask " +:+ in_quotes "Is the plan right?")
      | Some (question, rest) =>
        let* stage := only_placement stage rest "ask" in Good (set_kind stage (KAsk question))
      end
    else if decide (first = "merge") then
      match rest with
      | [] => Bad "`merge` needs a fanned-out stage: merge build"
      | (at_, into) :: _ =>
        if decide (into = "main") then
          Bad "`merge main` isn't a stage: a run hands its branch back to the task's worktree, and you merge from there"
        else
          let* name := stage_name into "merge" in
          let* stage := only_placement stage (drop_bytes (at_ + String.length into) body) "merge" in
          Good (set_kind stage (KMerge name))
      end
    else
      let* '(agent, stage) := read_agent stage first (map snd rest) in
      Good (set_kind stage (KAgent agent))
  end.

(** ** Lines *)

Definition read_line (line : string) (number : N) : parsed Line :=
  match definition line with
  | Some (name, body) =>
    if decide (name = "budget") then let* b := read_budget body number in Good (LBudget b)
    else if decide (name = DONE) then Bad "'done' is reserved: it ends the run"
    else let* s := read_stage name body number in Good (LStage s)
  | None =>
    if str_contains "->" line then let* '(nodes, arrows) := flow line number in Good (LFlow nodes arrows)
    else match split_once "=" line with
         | Some (name, _) => Bad ("expected a stage name ([a-z][a-z0-9_]*), got '" +:+ str_trim name +:+ "'")
         | None => Bad "expected a stage (`name = …`), a flow (`a -> b`) or the budget (`budget = N sessions, 8h`)"
         end
  end.

(** [read]: what each line is, and the errors of the ones that are nothing; [None] is a
    panic. *)
Fixpoint read_from (number : N) (raws : list string) : option (list Line * list PipeError) :=
  match raws with
  | [] => Some ([], [])
  | raw :: raws =>
    let line := str_trim (uncomment raw) in
    if str_is_empty line then read_from (number + 1) raws
    else
      match read_line line number with
      | Good found => '(lines, errors) ← read_from (number + 1) raws; Some (found :: lines, errors)
      | Bad message =>
        '(lines, errors) ← read_from (number + 1) raws; Some (lines, mkPipeError number RSyntax message :: errors)
      | Crash => None
      end
  end.
Definition read (text : string) : option (list Line * list PipeError) := read_from 1 (str_lines text).

(** ** The whole text *)

Record Parsing := mkParsing {
  pa_stages : list Stage;
  pa_arrows : list Arrow;
  pa_budget : option Budget;
  pa_start : option string;
  pa_errors : list PipeError }.

Definition parse_line (s : Parsing) (line : Line) : Parsing :=
  let '(mkParsing stages arrows budget start errors) := s in
  match line with
  | LStage stage =>
    match List.find (fun s => bool_decide (st_name s = st_name stage)) stages with
    | Some first =>
      mkParsing stages arrows budget start (errors ++ [mkPipeError (st_line stage) RRedefined
        ("stage '" +:+ st_name stage +:+ "' is defined twice (first on line " +:+ pretty (st_line first) +:+ ")")])
    | None => mkParsing (stages ++ [stage]) arrows budget start errors
    end
  | LFlow nodes found =>
    mkParsing stages (arrows ++ found) budget (match start with Some s => Some s | None => head nodes end) errors
  | LBudget found =>
    match budget with
    | Some first =>
      mkParsing stages arrows budget start (errors ++ [mkPipeError (bu_line found) RSyntax
        ("the budget is given twice (first on line " +:+ pretty (bu_line first) +:+ ")")])
    | None => mkParsing stages arrows (Some found) start errors
    end
  end.

(** [sort_by_key(|e| e.line)], which is stable. *)
Fixpoint insert_error (e : PipeError) (l : list PipeError) : list PipeError :=
  match l with
  | [] => [e]
  | x :: l => if (pe_line e <? pe_line x)%N then e :: x :: l else x :: insert_error e l
  end.
Definition sort_errors (l : list PipeError) : list PipeError := foldl (fun sorted e => insert_error e sorted) [] l.

(** A single stage with no flow runs alone. *)
Definition lone_flow (s : Parsing) : Parsing :=
  match pa_arrows s, pa_stages s with
  | [], [only] =>
    mkParsing (pa_stages s) [mkArrow (st_name only) DONE None None false false (st_line only)] (pa_budget s)
      (Some (st_name only)) (pa_errors s)
  | _, _ => s
  end.

Definition parse_start (s : Parsing) : string * list PipeError :=
  match pa_start s with
  | Some start => (start, pa_errors s)
  | None =>
    match pa_stages s with
    | [] => ("", match pa_errors s with
                 | [] => [mkPipeError 1 RSyntax "define at least one stage, and a flow starting at it"]
                 | errors => errors
                 end)
    | first :: _ =>
      match pa_errors s with
      | [] => ("", [mkPipeError (st_line first) RSyntax
                      "a pipeline of several stages needs a flow line (`a -> b`); its first stage starts the run"])
      | errors => ("", errors)
      end
    end
  end.

Definition parse (text : string) : outcome (list PipeError) Pipeline :=
  match read text with
  | None => Crash
  | Some (lines, errors) =>
    let s := lone_flow (foldl parse_line (mkParsing [] [] None None errors) lines) in
    let '(start, errors) := parse_start s in
    if decide (errors = []) then Good (mkPipeline (pa_stages s) (pa_arrows s) (pa_budget s) start text)
    else Bad (sort_errors errors)
  end.
