(* ===== verification/PipeWalk.v ===== *)
(** * The worst case of a pipeline: [crates/kanna-pipe/src/walk.rs]

    The walk over every run of a pipeline, its results kept by stage and arrows taken. *)

From S2P Require Import Prelude Text Pipe.

(** What is known: the worst case from a stage with these counts. *)
Definition Seen : Type := gmap (string * list N) N.

(** The verdicts a stage may give, and whether it may be stalled when it does. *)
Definition verdict_cases (p : Pipeline) (here : Stage) : list (option Verdict * bool) :=
  if verdicts here then
    [(Some Pass, false); (Some Fail_, false)]
    ++ (if existsb (fun a => bool_decide (ar_from a = st_name here) && ar_progress a) (pl_arrows p)
        then [(Some Fail_, true)] else [])
  else [(None, false)].

(** [next[index] += 1] *)
Definition take_arrow (taken : list N) (i : nat) : outcome (list PipeError) (list N) :=
  match taken !! i with
  | Some n => let* n' := add_u32 n 1 in Good (<[i := n']> taken)
  | None => Crash
  end.

(** The best of the cases, each walked in turn with what is known so far. *)
Fixpoint walk_cases (walk : string -> list N -> Seen -> option (outcome (list PipeError) (N * Seen)))
    (p : Pipeline) (stage : string) (taken : list N) (cases : list (option Verdict * bool)) (best : N) (seen : Seen)
  : option (outcome (list PipeError) (N * Seen)) :=
  match cases with
  | [] => Some (Good (best, seen))
  | (verdict, stalled) :: cases =>
    match pick p stage verdict taken stalled with
    | Some (i, a) =>
      if decide (ar_to a = DONE) then walk_cases walk p stage taken cases best seen
      else
        match take_arrow taken i with
        | Good next =>
          match walk (ar_to a) next seen with
          | Some (Good (n, seen)) => walk_cases walk p stage taken cases (N.max best n) seen
          | Some (Bad e) => Some (Bad e)
          | Some Crash => Some Crash
          | None => None
          end
        | Bad e => Some (Bad e)
        | Crash => Some Crash
        end
    | None => walk_cases walk p stage taken cases best seen
    end
  end.

(** [walk]; [None] is out of fuel. *)
Fixpoint walk (fuel : nat) (p : Pipeline) (cost : Stage -> outcome (list PipeError) N) (stage : string) (taken : list N)
    (seen : Seen) : option (outcome (list PipeError) (N * Seen)) :=
  match fuel with
  | 0 => None
  | S fuel =>
    match seen !! (stage, taken) with
    | Some known => Some (Good (known, seen))
    | None =>
      match pipeline_stage p stage with
      | None => Some (Good (0%N, seen))
      | Some here =>
        match walk_cases (walk fuel p cost) p stage taken (verdict_cases p here) 0%N seen with
        | Some (Good (best, seen)) =>
          Some (let* c := cost here in
                let* total := add_u32 c best in
                Good (total, <[(stage, taken) := total]> seen))
        | other => other
        end
      end
    end
  end.

(** What every [max] allows together. *)
Definition max_total (arrows : list Arrow) : nat := sum_list_with (fun a => N.to_nat (default 0%N (ar_max a))) arrows.

(** Fuel for a walk of a pipeline with no loop that lacks a [max]: a run takes the arrows
    with a [max] at most [max_total] times, and between two of them visits no stage twice. *)
Definition names_count (p : Pipeline) : nat := length (pl_stages p) + length (pl_arrows p).
Definition walk_fuel (p : Pipeline) : nat := S (S (max_total (pl_arrows p)) * S (names_count p)).

(** [worst] *)
Definition worst (p : Pipeline) (cost : Stage -> outcome (list PipeError) N) : option (outcome (list PipeError) N) :=
  r ← walk (walk_fuel p) p cost (pl_start p) (replicate (length (pl_arrows p)) 0%N) ∅;
  Some (let* '(n, _) := r in Good n).

Definition max_sessions (p : Pipeline) (sizes : Sizes) : option (outcome (list PipeError) N) :=
  worst p (stage_sessions sizes).
