(* ===== verification/PipeCheck.v ===== *)
(** * Checking a pipeline: [crates/kanna-pipe/src/check.rs] *)

From S2P Require Import Prelude Text Pipe PipeParse PipeWalk.
From Stdlib Require Import Ascii.

Record Context := mkContext {
  cx_prompts : gmap string string;
  cx_machine : option string;
  cx_machines : list string;
  cx_roles : list string;
  cx_sizes : Sizes }.

Definition STRUCTURE : list Rule := [RUndefined; RAfterDone; RVerdict; RProgress; RReset; RUnbounded].

(** The map of stages by name: the last of a name wins. *)
Definition stage_map (p : Pipeline) (name : string) : option Stage :=
  List.find (fun s => bool_decide (st_name s = name)) (rev (pl_stages p)).
Definition has_stage (p : Pipeline) (name : string) : bool := bool_decide (is_Some (stage_map p name)).

(** ** Arrows *)

Definition undefined_end (p : Pipeline) (line : N) (end_ : string) : list PipeError :=
  if bool_decide (end_ ≠ DONE) && negb (has_stage p end_)
  then [mkPipeError line RUndefined ("no stage named '" +:+ end_ +:+ "'")] else [].

Definition check_arrow (p : Pipeline) (a : Arrow) : list PipeError :=
  if decide (ar_from a = DONE) then
    [mkPipeError (ar_line a) RAfterDone "nothing can follow 'done': it ends the run"]
  else
    undefined_end p (ar_line a) (ar_from a) ++ undefined_end p (ar_line a) (ar_to a) ++
    match stage_map p (ar_from a) with
    | None => []
    | Some from =>
      let to := stage_map p (ar_to a) in
      match ar_when a with
      | Some when_ =>
        if verdicts from then []
        else [mkPipeError (ar_line a) RVerdict ("[" +:+ verdict_name when_ +:+ "] needs a stage with a verdict, and '" +:+
               st_name from +:+ "' gives none: add verdict to it, or make it a run, ask or merge stage")]
      | None => []
      end
      ++ (if ar_progress a && negb (is_run from) then
            [mkPipeError (ar_line a) RProgress ("[progress] needs a run stage, and '" +:+ st_name from +:+ "' is " +:+ stage_what from)]
          else [])
      ++ (if ar_reset a && match to with Some to => negb (bool_decide (is_Some (stage_agent to))) | None => true end then
            [mkPipeError (ar_line a) RReset ("[reset] must lead to an agent stage, and '" +:+ ar_to a +:+ "' is " +:+
               match to with Some to => stage_what to | None => "done" end)]
          else [])
    end.
Definition check_arrows (p : Pipeline) : list PipeError := flat_map (check_arrow p) (pl_arrows p).

(** ** What a run reaches *)

Definition targets (p : Pipeline) (stage : string) : list string :=
  map ar_to (retain (fun a => bool_decide (ar_from a = stage)) (pl_arrows p)).

(** The loop of [reachable]: the stack [todo] has its top first; [None] is out of fuel. *)
Fixpoint reachable_from (fuel : nat) (p : Pipeline) (avoid : option string) (todo : list string) (seen : gset string)
  : option (gset string) :=
  match todo with
  | [] => Some seen
  | stage :: todo =>
    match fuel with
    | 0 => None
    | S fuel =>
      if bool_decide (Some stage = avoid) || bool_decide (stage ∈ seen) then reachable_from fuel p avoid todo seen
      else
        let seen := {[stage]} ∪ seen in
        if decide (stage = DONE) then reachable_from fuel p avoid todo seen
        else reachable_from fuel p avoid (rev (targets p stage) ++ todo) seen
    end
  end.

(** Each stage is expanded once, so each arrow is followed at most once. *)
Definition stages_reached (p : Pipeline) (avoid : option string) : gset string :=
  default ∅ (reachable_from (S (length (pl_arrows p))) p avoid [pl_start p] ∅).

Definition runs_before (p : Pipeline) (first then_ : string) : bool :=
  bool_decide (first ≠ then_) && bool_decide (first ∈ stages_reached p None)
  && negb (bool_decide (then_ ∈ stages_reached p (Some first))).

Definition check_reach (p : Pipeline) : list PipeError :=
  if negb (has_stage p (pl_start p)) then []
  else
    let seen := stages_reached p None in
    map (fun s => mkPipeError (st_line s) RUnreachable
           ("stage '" +:+ st_name s +:+ "' is never reached from '" +:+ pl_start p +:+ "', where the run starts"))
      (retain (fun s => negb (bool_decide (st_name s ∈ seen))) (pl_stages p))
    ++ (if bool_decide (DONE ∈ seen) then []
        else [mkPipeError (match head (pl_arrows p) with Some a => ar_line a | None => 1%N end) RNoDone
               ("no flow from '" +:+ pl_start p +:+ "' reaches done, so the run could only end stuck")]).

(** ** Loops *)

Inductive LoopState := Open_ | Closed_.

Definition free_arrows (p : Pipeline) (stage : string) : list Arrow :=
  retain (fun a => bool_decide (ar_from a = stage) && bool_decide (ar_max a = None) && bool_decide (ar_to a ≠ DONE)) (pl_arrows p).

(** Each arrow's target in turn, until one is in a loop. *)
Fixpoint visit_arrows (visit : string -> gmap string LoopState -> option (option N * gmap string LoopState))
    (arrows : list Arrow) (state : gmap string LoopState) : option (option N * gmap string LoopState) :=
  match arrows with
  | [] => Some (None, state)
  | a :: arrows =>
    match visit (ar_to a) state with
    | None => None
    | Some (Some line, state) => Some (Some (if (line =? 0)%N then ar_line a else line), state)
    | Some (None, state) => visit_arrows visit arrows state
    end
  end.

(** [visit]: the line of a loop with no [max], if it is on one; the outer [None] is out of
    fuel. *)
Fixpoint visit (fuel : nat) (p : Pipeline) (stage : string) (state : gmap string LoopState)
  : option (option N * gmap string LoopState) :=
  match fuel with
  | 0 => None
  | S fuel =>
    match state !! stage with
    | Some Closed_ => Some (None, state)
    | Some Open_ => Some (Some 0%N, state)
    | None =>
      match visit_arrows (visit fuel p) (free_arrows p stage) (<[stage := Open_]> state) with
      | Some (None, state) => Some (None, <[stage := Closed_]> state)
      | other => other
      end
    end
  end.

(** A nested visit opens one more name; the names are those of the stages and of what the
    arrows lead to. *)
Definition visit_fuel (p : Pipeline) : nat := S (S (names_count p)).

Fixpoint loops_from (p : Pipeline) (stages : list Stage) (state : gmap string LoopState) : option (option N) :=
  match stages with
  | [] => Some None
  | s :: stages =>
    match visit (visit_fuel p) p (st_name s) state with
    | None => None
    | Some (Some line, _) => Some (Some line)
    | Some (None, state) => loops_from p stages state
    end
  end.
Definition loop_line (p : Pipeline) : option N := default None (loops_from p (pl_stages p) ∅).

Definition check_loops (p : Pipeline) : list PipeError :=
  match loop_line p with
  | Some line => [mkPipeError line RUnbounded "this loop has no [max N] on any of its arrows, so the run might never end"]
  | None => []
  end.

(** ** References *)

(** [placeholders]: the [{{stage.key}}]s of a prompt; the text's length is fuel enough. *)
Fixpoint placeholders_from (fuel : nat) (text : string) : list (string * string) :=
  match fuel with
  | 0 => []
  | S fuel =>
    match split_once "{{" text with
    | None => []
    | Some (_, rest) =>
      match split_once "}}" rest with
      | None => []
      | Some (inside, rest) =>
        match ('(s, k) ← split_once "." (str_trim inside); if is_name s && negb (str_is_empty k) then Some (s, k) else None) with
        | Some found => [found]
        | None => []
        end ++ placeholders_from fuel rest
      end
    end
  end.
Definition placeholders (text : string) : list (string * string) := placeholders_from (S (String.length text)) text.

Definition check_merge (p : Pipeline) (s : Stage) : list (Rule * string) :=
  match st_kind s with
  | KMerge from =>
    if match (f ← stage_map p from; stage_agent f) with Some a => bool_decide (is_Some (ag_each a)) | None => false end
    then [] else [(RMerge, "merge " +:+ from +:+ " needs '" +:+ from +:+ "' to be a stage with each")]
  | _ => []
  end.

Definition check_each (p : Pipeline) (s : Stage) (agent : Agent) : list (Rule * string) :=
  match ag_each agent with
  | None => []
  | Some each =>
    match stage_map p (out_stage each) with
    | Some from =>
      if negb (bool_decide (is_Some (stage_agent from))) then
        [(REach, "each " +:+ output_text each +:+ " needs an agent stage's answer, and '" +:+ out_stage each +:+ "' is " +:+ stage_what from)]
      else if negb (runs_before p (out_stage each) (st_name s)) then
        [(REach, "each " +:+ output_text each +:+ " needs '" +:+ out_stage each +:+ "' to run before '" +:+ st_name s +:+ "' on every path")]
      else []
    | None => [(REach, "each " +:+ output_text each +:+ ": no stage named '" +:+ out_stage each +:+ "'")]
    end
  end.

Definition check_scorer (p : Pipeline) (word scorer : string) : list (Rule * string) :=
  match stage_map p scorer with
  | Some found =>
    if is_run found then []
    else [(RScorer, word +:+ " " +:+ scorer +:+ " needs a run stage to score the code, and '" +:+ scorer +:+ "' is " +:+ stage_what found)]
  | None => [(RScorer, word +:+ " " +:+ scorer +:+ ": no stage named '" +:+ scorer +:+ "'")]
  end.

Definition check_resume (p : Pipeline) (agent : Agent) : list (Rule * string) :=
  match ag_resume agent with
  | None => []
  | Some resumed =>
    if match stage_map p resumed with Some s => bool_decide (is_Some (stage_agent s)) | None => false end then []
    else [(RResume, "resume " +:+ resumed +:+ " needs '" +:+ resumed +:+ "' to be an agent stage")]
  end.

Definition check_placeholder (p : Pipeline) (prompt : string) (s : Stage) (from : string) : list (Rule * string) :=
  if negb (has_stage p from) then
    [(RPrompt, "prompt " +:+ prompt +:+ " uses {{" +:+ from +:+ ".…}}, and there's no stage named '" +:+ from +:+ "'")]
  else if negb (runs_before p from (st_name s)) then
    [(RPrompt, "prompt " +:+ prompt +:+ " uses {{" +:+ from +:+ ".…}}, but '" +:+ from +:+ "' doesn't run before '" +:+
               st_name s +:+ "' on every path")]
  else [].

Definition check_prompt (p : Pipeline) (s : Stage) (cx : Context) : list (Rule * string) :=
  let prompt := default "" (stage_prompt s) in
  match cx_prompts cx !! prompt with
  | None => [(RPrompt, "no prompt .kanna/prompts/" +:+ prompt +:+ ".md")]
  | Some text => flat_map (fun '(from, _) => check_placeholder p prompt s from) (placeholders text)
  end.

Definition check_references (p : Pipeline) (cx : Context) (s : Stage) : list PipeError :=
  map (fun '(rule, message) => mkPipeError (st_line s) rule message)
    (check_merge p s ++
     match stage_agent s with
     | None => []
     | Some agent =>
       check_each p s agent
       ++ match ag_attempts agent with Some a => check_scorer p "by" (att_by a) | None => [] end
       ++ match ag_guard agent with Some g => check_scorer p "guard" g | None => [] end
       ++ check_resume p agent
       ++ check_prompt p s cx
     end).

Definition check_placement (cx : Context) (s : Stage) : list PipeError :=
  match st_on s with
  | None => []
  | Some on =>
    if bool_decide (on = "here") || bool_decide (on = "any") || bool_decide (cx_machine cx = Some on)
       || contains (cx_machines cx) on || contains (cx_roles cx) on
    then []
    else [mkPipeError (st_line s) RPlacement ("no such machine '" +:+ on +:+ "': use here, any, or one of your machines or roles")]
  end.

(** ** The whole check *)

(** What is wrong with a pipeline but for its budget. *)
Definition check_errors (p : Pipeline) (cx : Context) : list PipeError :=
  check_arrows p ++ check_reach p ++ check_loops p
  ++ flat_map (fun s => check_references p cx s ++ check_placement cx s) (pl_stages p).

(** The budget is held against the worst case once the structure is sound; the inner [None]
    is out of fuel. *)
Definition check_budget (p : Pipeline) (cx : Context) (errors : list PipeError) : option (outcome (list PipeError) (list PipeError)) :=
  if existsb (fun e => contains STRUCTURE (pe_rule e)) errors then Some (Good [])
  else
    match pl_budget p with
    | None => Some (Good [])
    | Some budget =>
      r ← max_sessions p (cx_sizes cx);
      Some (let* worst := r in
            Good (match bu_sessions budget with
                  | Some n => if (n <? worst)%N
                              then [mkPipeError (bu_line budget) RBudget ("the worst case is " +:+ pretty worst +:+
                                     " sessions, over the budget of " +:+ pretty n)]
                              else []
                  | None => []
                  end))
    end.

(** [Vec::dedup] *)
Fixpoint dedup (l : list PipeError) : list PipeError :=
  match l with
  | [] => []
  | x :: l => match dedup l with
              | y :: rest => if decide (x = y) then x :: rest else x :: y :: rest
              | [] => [x]
              end
  end.

Definition check (p : Pipeline) (cx : Context) : option (outcome (list PipeError) unit) :=
  let errors := check_errors p cx in
  r ← check_budget p cx errors;
  Some (let* over := r in
        if decide (errors ++ over = []) then Good tt else Bad (dedup (sort_errors (errors ++ over)))).

Definition load (text : string) (cx : Context) : option (outcome (list PipeError) Pipeline) :=
  match parse text with
  | Good p => r ← check p cx; Some (let* _ := r in Good p)
  | Bad e => Some (Bad e)
  | Crash => Some Crash
  end.
