(* ===== verification/PipeFacts.v ===== *)
(** * What the checks of a pipeline mean: [crates/kanna-pipe/src/check.rs]

    A pipeline that [loops] passes has its stages in an order in which every arrow without
    a [max] goes forward, so its runs end; one that it refuses has a loop. *)

From S2P Require Import Prelude Text Pipe PipeParse PipeWalk PipeCheck.
From stdpp Require Import relations.

(** ** Loops *)

(** An arrow without a [max] leads from [x] to [y]. *)
Definition free (p : Pipeline) (x y : string) : Prop := exists a, a ∈ free_arrows p x /\ ar_to a = y.

Lemma elem_of_free_arrows p x a :
  a ∈ free_arrows p x <-> a ∈ pl_arrows p /\ ar_from a = x /\ ar_max a = None /\ ar_to a ≠ DONE.
Proof.
  unfold free_arrows. rewrite elem_of_retain, !andb_true_iff, !bool_decide_eq_true. tauto.
Qed.

(** An order, latest first, in which every free arrow leads to an earlier stage. *)
Inductive topo (p : Pipeline) : list string -> Prop :=
| topo_nil : topo p []
| topo_cons x order : topo p order -> (forall y, free p x y -> y ∈ order) -> x ∉ order -> topo p (x :: order).

Fixpoint rank (order : list string) (x : string) : nat :=
  match order with
  | [] => 0
  | y :: order => if decide (x = y) then S (length order) else rank order x
  end.

Lemma rank_le order x : rank order x <= length order.
Proof. induction order as [|y order IH]; simpl; [lia|]. case_decide; lia. Qed.

Lemma topo_closed p order x y : topo p order -> x ∈ order -> free p x y -> y ∈ order.
Proof.
  intros Ht Hx Hf. induction Ht as [|w order Ht IH Hw Hn]; [by apply elem_of_nil in Hx|].
  apply elem_of_cons in Hx as [->|Hx]; right; auto.
Qed.

Lemma topo_rank p order x y : topo p order -> x ∈ order -> free p x y -> rank order y < rank order x.
Proof.
  induction 1 as [|z order Ht IH Hz Hn]; [by intros ?%elem_of_nil|]. intros Hx Hf. simpl.
  apply elem_of_cons in Hx as [->|Hx].
  - rewrite (decide_True (P := z = z)) by done. pose proof (Hz y Hf) as Hy.
    rewrite decide_False by (by intros ->). pose proof (rank_le order y). lia.
  - rewrite (decide_False (P := x = z)) by (by intros ->). specialize (IH Hx Hf).
    case_decide as E; [|done]. subst y. exfalso. apply Hn. by eapply topo_closed.
Qed.

Lemma topo_NoDup p order : topo p order -> NoDup order.
Proof. induction 1; by constructor. Qed.

(** The visit's state: the closed stages in their order, the open ones on the way here. *)
Record coherent (st : gmap string LoopState) (order open : list string) : Prop := {
  coh_closed x : st !! x = Some Closed_ <-> x ∈ order;
  coh_open x : st !! x = Some Open_ <-> x ∈ open }.

Definition names (p : Pipeline) : list string := map st_name (pl_stages p) ++ map ar_to (pl_arrows p).

Lemma free_names p x y : free p x y -> y ∈ names p.
Proof.
  intros (a & Ha & <-). apply elem_of_free_arrows in Ha as [Ha _]. apply elem_of_app. right.
  by apply list_elem_of_fmap_2.
Qed.

(** A visit that finds no loop extends the order by the stage and what it leads to. *)
Definition visits (p : Pipeline) (order open : list string) (s : string) (st' : gmap string LoopState) : Prop :=
  exists order', topo p order' /\ coherent st' order' open /\ (forall x, x ∈ order -> x ∈ order') /\ s ∈ order' /\
    (forall x, x ∈ order' -> x ∈ order \/ x ∈ names p).

Definition visit_sound (p : Pipeline) (v : string -> gmap string LoopState -> option (option N * gmap string LoopState)) : Prop :=
  forall s st order open st', s ∈ names p -> topo p order -> coherent st order open ->
    v s st = Some (None, st') -> visits p order open s st'.

Lemma visit_arrows_sound p v open : visit_sound p v -> forall arrows st order st',
  (forall a, a ∈ arrows -> ar_to a ∈ names p) -> topo p order -> coherent st order open ->
  visit_arrows v arrows st = Some (None, st') ->
  exists order', topo p order' /\ coherent st' order' open /\ (forall x, x ∈ order -> x ∈ order') /\
    (forall a, a ∈ arrows -> ar_to a ∈ order') /\ (forall x, x ∈ order' -> x ∈ order \/ x ∈ names p).
Proof.
  intros Hv. induction arrows as [|a arrows IH]; intros st order st' Hn Ht Hc; simpl.
  - intros [= <-]. exists order. split_and!; auto. by intros a ?%elem_of_nil.
  - destruct (v (ar_to a) st) as [[[line|] st1]|] eqn:E; try done. intros Hr.
    destruct (Hv _ _ order open _ (Hn a (list_elem_of_here _ _)) Ht Hc E) as (o1 & Ht1 & Hc1 & Hs1 & Ha1 & Hn1).
    destruct (IH st1 o1 st') as (o2 & Ht2 & Hc2 & Hs2 & Ha2 & Hn2); [|done..|].
    { intros b Hb. apply Hn. by right. }
    exists o2. split_and!; [done|done|auto| |].
    + intros b [->|Hb]%elem_of_cons; auto.
    + intros x Hx. destruct (Hn2 x Hx) as [H1|H1]; [apply Hn1 in H1|]; tauto.
Qed.

Lemma coherent_open st order open s :
  coherent st order open -> st !! s = None -> coherent (<[s := Open_]> st) order (s :: open).
Proof.
  intros [Hc Ho] Hs. split; intros x.
  - destruct (decide (x = s)) as [->|Hne].
    + rewrite lookup_insert_eq. split; [done|]. intros Hx%Hc. congruence.
    + rewrite lookup_insert_ne by done. apply Hc.
  - destruct (decide (x = s)) as [->|Hne].
    + rewrite lookup_insert_eq. split; [left|done].
    + rewrite lookup_insert_ne, Ho, elem_of_cons by done. tauto.
Qed.

Lemma coherent_close st order open s :
  coherent st order (s :: open) -> s ∉ open -> coherent (<[s := Closed_]> st) (s :: order) open.
Proof.
  intros [Hc Ho] Hs. split; intros x.
  - destruct (decide (x = s)) as [->|Hne].
    + rewrite lookup_insert_eq. split; [left|done].
    + rewrite lookup_insert_ne, Hc, elem_of_cons by done. tauto.
  - destruct (decide (x = s)) as [->|Hne].
    + rewrite lookup_insert_eq. done.
    + rewrite lookup_insert_ne, Ho, elem_of_cons by done. tauto.
Qed.

Lemma visit_is_sound fuel p : visit_sound p (visit fuel p).
Proof.
  induction fuel as [|fuel IH]; intros s st order open st' Hn Ht Hc; [done|]. simpl.
  destruct (st !! s) as [[]|] eqn:Es; [done| |].
  - intros [= <-]. exists order. split_and!; auto. by apply Hc.
  - destruct (visit_arrows (visit fuel p) (free_arrows p s) (<[s := Open_]> st)) as [[[line|] st1]|] eqn:E; try done.
    intros [= <-]. assert (s ∉ open) as Hs by (intros H%Hc; congruence).
    destruct (visit_arrows_sound p _ (s :: open) IH _ _ order _ (fun a Ha => free_names p s _ (ex_intro _ a (conj Ha eq_refl)))
      Ht (coherent_open _ _ _ _ Hc Es) E) as (o1 & Ht1 & Hc1 & Hsub & Hall & Hn1).
    assert (s ∉ o1) as Hs1.
    { intros H%Hc1. assert (st1 !! s = Some Open_) as H' by (apply Hc1; left). congruence. }
    exists (s :: o1). split_and!.
    + constructor; [done| |done]. intros y (a & Ha & <-). by apply Hall.
    + by apply coherent_close.
    + intros x Hx. right. auto.
    + left.
    + intros x [->|Hx]%elem_of_cons; auto.
Qed.

(** The visits have fuel enough: each opens a name that was not in the state. *)
Definition left_names (p : Pipeline) (st : gmap string LoopState) : nat := size (list_to_set (names p) ∖ dom st : gset string).

Lemma left_names_mono p st st' : dom st ⊆ dom st' -> left_names p st' <= left_names p st.
Proof. intros H. apply subseteq_size. set_solver. Qed.

Lemma left_names_insert p st s v : s ∈ names p -> st !! s = None -> left_names p (<[s := v]> st) < left_names p st.
Proof.
  intros Hn Hs. apply subset_size. rewrite dom_insert. apply not_elem_of_dom in Hs. split; [set_solver|].
  intros Hsub. assert (s ∈ (list_to_set (names p) ∖ dom st : gset string)) as Hin by set_solver. set_solver.
Qed.

Lemma visit_arrows_total p v n :
  (forall s st, s ∈ names p -> left_names p st < n -> exists r st', v s st = Some (r, st') /\ dom st ⊆ dom st') ->
  forall arrows st, (forall a, a ∈ arrows -> ar_to a ∈ names p) -> left_names p st < n ->
  exists r st', visit_arrows v arrows st = Some (r, st') /\ dom st ⊆ dom st'.
Proof.
  intros Hv. induction arrows as [|a arrows IH]; intros st Hn Hl; simpl; [by eexists _, _|].
  destruct (Hv (ar_to a) st (Hn a (list_elem_of_here _ _)) Hl) as ([line|] & st1 & -> & Hd); [by eexists _, _|].
  destruct (IH st1) as (r & st2 & -> & Hd2).
  - intros b Hb. apply Hn. by right.
  - pose proof (left_names_mono p st st1 Hd). lia.
  - exists r, st2. split; [done|]. set_solver.
Qed.

Lemma visit_total fuel p s st :
  s ∈ names p -> left_names p st < fuel -> exists r st', visit fuel p s st = Some (r, st') /\ dom st ⊆ dom st'.
Proof.
  revert s st. induction fuel as [|fuel IH]; intros s st Hn Hl; [lia|]. simpl.
  destruct (st !! s) as [[]|] eqn:Es; [by eexists _, _..|].
  pose proof (left_names_insert p st s Open_ Hn Es) as Hlt.
  destruct (visit_arrows_total p (visit fuel p) fuel IH (free_arrows p s) (<[s := Open_]> st))
    as ([line|] & st1 & -> & Hd).
  - intros a Ha. eapply free_names. by exists a.
  - lia.
  - eexists _, _. split; [done|]. rewrite dom_insert in Hd. set_solver.
  - eexists _, _. split; [done|]. rewrite dom_insert in *. set_solver.
Qed.

Lemma left_names_le p st : left_names p st <= names_count p.
Proof.
  unfold left_names. etransitivity; [apply (subseteq_size _ (list_to_set (names p))); set_solver|].
  unfold names_count, names. rewrite <- (length_map st_name), <- (length_map ar_to), <- length_app.
  generalize (map st_name (pl_stages p) ++ map ar_to (pl_arrows p)). intros l.
  induction l as [|x l IH]; simpl; [done|]. rewrite size_union_alt. etransitivity; [apply Nat.add_le_mono_l, (subseteq_size _ (list_to_set l)); set_solver|].
  rewrite size_singleton. lia.
Qed.

Lemma loops_from_total p stages st :
  (forall s, s ∈ stages -> st_name s ∈ names p) -> is_Some (loops_from p stages st).
Proof.
  revert st. induction stages as [|s stages IH]; intros st Hn; cbn [loops_from]; [by eexists|].
  destruct (visit_total (visit_fuel p) p (st_name s) st) as ([line|] & st' & -> & _); [| |by eexists|].
  - apply Hn. left.
  - pose proof (left_names_le p st). unfold visit_fuel. lia.
  - apply IH. intros x Hx. apply Hn. by right.
Qed.

Lemma loops_from_sound p stages st order :
  (forall s, s ∈ stages -> st_name s ∈ names p) -> topo p order -> coherent st order [] ->
  (forall x, x ∈ order -> x ∈ names p) -> loops_from p stages st = Some None ->
  exists order', topo p order' /\ (forall x, x ∈ order -> x ∈ order') /\ (forall s, s ∈ stages -> st_name s ∈ order') /\
    (forall x, x ∈ order' -> x ∈ names p).
Proof.
  revert st order. induction stages as [|s stages IH]; intros st order Hn Ht Hc Ho; cbn [loops_from].
  - intros _. exists order. split_and!; auto. by intros s ?%elem_of_nil.
  - destruct (visit (visit_fuel p) p (st_name s) st) as [[[line|] st1]|] eqn:E; try done. intros Hr.
    destruct (visit_is_sound _ _ _ _ _ _ _ (Hn s (list_elem_of_here _ _)) Ht Hc E) as (o1 & Ht1 & Hc1 & Hs1 & Hin & Hn1).
    destruct (IH st1 o1) as (o2 & Ht2 & Hs2 & Hall & Hn2); [|done|done| |done|].
    + intros x Hx. apply Hn. by right.
    + intros x Hx. destruct (Hn1 x Hx); auto.
    + exists o2. split_and!; auto. intros x [->|Hx]%elem_of_cons; auto.
Qed.

Lemma loop_line_None p :
  loop_line p = None ->
  exists order, topo p order /\ (forall s, s ∈ pl_stages p -> st_name s ∈ order) /\ length order <= names_count p.
Proof.
  unfold loop_line. intros Hl.
  assert (forall s, s ∈ pl_stages p -> st_name s ∈ names p) as Hn.
  { intros s Hs. apply elem_of_app. left. by apply list_elem_of_fmap_2. }
  destruct (loops_from_total p (pl_stages p) ∅ Hn) as [r Hr]. rewrite Hr in Hl. simpl in Hl. subst r.
  destruct (loops_from_sound p (pl_stages p) ∅ [] Hn) as (order & Ht & _ & Hall & Hsub); [constructor| | |done|].
  - split; intros x; rewrite lookup_empty; split; try done; by intros ?%elem_of_nil.
  - by intros x ?%elem_of_nil.
  - exists order. split_and!; [done..|]. unfold names_count.
    rewrite <- (length_map st_name), <- (length_map ar_to), <- length_app.
    apply submseteq_length, NoDup_submseteq; [by eapply topo_NoDup|]. exact Hsub.
Qed.

(** A loop that is reported is a loop. *)
Definition visit_finds (p : Pipeline) (v : string -> gmap string LoopState -> option (option N * gmap string LoopState)) : Prop :=
  forall s st (open : list string) line st', (forall x, st !! x = Some Open_ -> x ∈ open) -> (forall x, x ∈ open -> tc (free p) x s) ->
    v s st = Some (line, st') ->
    (forall x, st' !! x = Some Open_ -> line = None -> x ∈ open) /\ (line ≠ None -> exists x, tc (free p) x x).

Lemma visit_arrows_finds p v s open : visit_finds p v -> forall arrows st line st',
  (forall a, a ∈ arrows -> free p s (ar_to a)) -> (forall x, st !! x = Some Open_ -> x ∈ s :: open) ->
  (forall x, x ∈ open -> tc (free p) x s) -> visit_arrows v arrows st = Some (line, st') ->
  (forall x, st' !! x = Some Open_ -> line = None -> x ∈ s :: open) /\ (line ≠ None -> exists x, tc (free p) x x).
Proof.
  intros Hv. induction arrows as [|a arrows IH]; intros st line st' Hf Ho Hc; simpl; [intros [= <- <-]; split; [auto|done]|].
  destruct (v (ar_to a) st) as [[r st1]|] eqn:E; [|done].
  assert (free p s (ar_to a)) as Hfa by (apply Hf; left).
  destruct (Hv (ar_to a) st (s :: open) r st1) as [H1 H2]; [done| |done|].
  { intros x [->|Hx]%elem_of_cons; [by apply tc_once|]. eapply tc_r; [by apply Hc|done]. }
  destruct r as [line'|].
  - intros [= <- <-]. split; [done|]. intros _. by apply H2.
  - intros Hr. apply (IH st1); auto. intros b Hb. apply Hf. by right.
Qed.

Lemma visit_is_finding fuel p : visit_finds p (visit fuel p).
Proof.
  induction fuel as [|fuel IH]; intros s st open line st' Ho Hc; [done|]. simpl.
  destruct (st !! s) as [[]|] eqn:Es.
  - intros [= <- <-]. split; [done|]. intros _. exists s. by apply Hc, Ho.
  - intros [= <- <-]. split; [auto|done].
  - destruct (visit_arrows (visit fuel p) (free_arrows p s) (<[s := Open_]> st)) as [[r st1]|] eqn:E; [|done].
    assert (forall x, <[s := Open_]> st !! x = Some Open_ -> x ∈ s :: open) as Ho'.
    { intros x. destruct (decide (x = s)) as [->|Hne]; [left|]. rewrite lookup_insert_ne by done. right. auto. }
    destruct (visit_arrows_finds p _ s open IH _ _ _ _ (fun a Ha => ex_intro _ a (conj Ha eq_refl)) Ho' Hc E) as [H1 H2].
    destruct r as [line'|]; intros [= <- <-].
    + split; [done|]. intros _. by apply H2.
    + split; [|done]. intros x Hx _. destruct (decide (x = s)) as [->|Hne]; [by rewrite lookup_insert_eq in Hx|].
      rewrite lookup_insert_ne in Hx by done. specialize (H1 x Hx eq_refl). by apply elem_of_cons in H1 as [->|?].
Qed.

Lemma loop_line_Some p line : loop_line p = Some line -> exists x, tc (free p) x x.
Proof.
  unfold loop_line. assert (forall stages st, (forall x, st !! x = Some Open_ -> x ∈ []) ->
    loops_from p stages st = Some (Some line) -> exists x, tc (free p) x x) as Hl.
  { induction stages as [|s stages IH]; intros st Ho; cbn [loops_from]; [done|].
    destruct (visit (visit_fuel p) p (st_name s) st) as [[r st1]|] eqn:E; [|done].
    destruct (visit_is_finding _ _ _ _ [] _ _ Ho (fun x Hx => False_ind _ (not_elem_of_nil x Hx)) E) as [H1 H2].
    destruct r as [l|]; [intros _; by apply H2|]. apply IH. intros x Hx. by apply H1. }
  destruct (loops_from p (pl_stages p) ∅) as [r|] eqn:E; simpl; [|done]. intros ->.
  eapply Hl; [|exact E]. intros x. by rewrite lookup_empty.
Qed.

Lemma topo_tc p order x y : topo p order -> x ∈ order -> tc (free p) x y -> rank order y < rank order x /\ y ∈ order.
Proof.
  intros Ht Hx Htc. revert Hx. induction Htc as [x y Hf|x y z Hf Htc IH]; intros Hx.
  - split; [by eapply topo_rank|by eapply topo_closed].
  - assert (y ∈ order) as Hy by (by eapply topo_closed).
    destruct (IH Hy) as [Hr Hz]. split; [|done]. pose proof (topo_rank p order x y Ht Hx Hf). lia.
Qed.

(** ** Runs *)

(** A step of a run: at a stage of the pipeline, with a verdict and perhaps stalled, the run
    takes the arrow that [pick] gives, and counts it. *)
Inductive pipe_step (p : Pipeline) : string * list N -> string * list N -> Prop :=
| take_step s here taken verdict stalled i a n :
    pipeline_stage p s = Some here -> pick p s verdict taken stalled = Some (i, a) -> ar_to a ≠ DONE ->
    taken !! i = Some n -> pipe_step p (s, taken) (ar_to a, <[i := (n + 1)%N]> taken).

Lemma find_index_Some {A} (f : nat -> A -> bool) i l k x :
  find_index f i l = Some (k, x) -> exists j, k = i + j /\ l !! j = Some x /\ f k x = true.
Proof.
  revert i. induction l as [|y l IH]; intros i; simpl; [done|]. destruct (f i y) eqn:E.
  - intros [= <- <-]. exists 0. split; [lia|done].
  - intros (j & -> & Hj & Hf)%IH. exists (S j). split; [lia|]. split; [done|]. by replace (i + S j) with (S i + j) by lia.
Qed.

Lemma pick_Some p s verdict taken stalled i a :
  pick p s verdict taken stalled = Some (i, a) ->
  pl_arrows p !! i = Some a /\ eligible s verdict stalled a (default 0%N (taken !! i)) = true.
Proof. intros (j & -> & Hj & Hf)%find_index_Some. done. Qed.

Lemma eligible_true s verdict stalled a n :
  eligible s verdict stalled a n = true ->
  ar_from a = s /\ (forall v, ar_when a = Some v -> verdict = Some v) /\ (ar_progress a = true -> stalled = false) /\
  (forall max, ar_max a = Some max -> (n < max)%N).
Proof.
  unfold eligible. rewrite !andb_true_iff, bool_decide_eq_true. intros [[[-> Hw] Hs] Hm]. split_and!; [done|..].
  - intros v E. rewrite E in Hw. by apply bool_decide_eq_true in Hw.
  - intros E. rewrite E, andb_true_r in Hs. by destruct stalled.
  - intros max E. rewrite E in Hm. by apply N.ltb_lt.
Qed.

(** How often the arrows with a [max] may yet be taken. *)
Definition remaining (p : Pipeline) (taken : list N) : nat :=
  sum_list (zip_with (fun a t => N.to_nat (default 0%N (ar_max a)) - N.to_nat t) (pl_arrows p) taken).

Lemma sum_zip_insert (f : Arrow -> N -> nat) l k i a t t' :
  l !! i = Some a -> k !! i = Some t ->
  sum_list (zip_with f l (<[i := t']> k)) + f a t = sum_list (zip_with f l k) + f a t'.
Proof.
  revert k i. induction l as [|x l IH]; intros [|y k] i; simpl; try done. destruct i as [|i]; simpl.
  - intros [= ->] [= ->]. simpl. lia.
  - intros Ha Ht. pose proof (IH k i Ha Ht). simpl. lia.
Qed.

Lemma remaining_le p taken : remaining p taken <= max_total (pl_arrows p).
Proof.
  unfold remaining, max_total. revert taken. induction (pl_arrows p) as [|a l IH]; intros [|t taken]; simpl; try lia.
  specialize (IH taken). lia.
Qed.

Lemma pipeline_stage_Some p s here : pipeline_stage p s = Some here -> here ∈ pl_stages p /\ st_name here = s.
Proof.
  unfold pipeline_stage. intros [Hin Hn]%List.find_some. apply bool_decide_eq_true in Hn. split; [|done].
  by apply list_elem_of_In.
Qed.

(** Each step lowers a measure: what remains of the [max]es, then the stage's rank. *)
Definition measure (p : Pipeline) (order : list string) (c : string * list N) : nat :=
  remaining p c.2 * S (length order) + rank order c.1.

Lemma pipe_step_measure p order c c' :
  topo p order -> (forall s, s ∈ pl_stages p -> st_name s ∈ order) -> pipe_step p c c' ->
  measure p order c' < measure p order c.
Proof.
  intros Ht Hall [s here taken verdict stalled i a n Hs Hp Hd Hn]. unfold measure. simpl.
  destruct (pick_Some _ _ _ _ _ _ _ Hp) as [Ha He]. apply eligible_true in He as (Hfrom & _ & _ & Hmax).
  apply pipeline_stage_Some in Hs as [Hin Hname]. rewrite Hn in Hmax. simpl in Hmax.
  pose proof (sum_zip_insert (fun a t => N.to_nat (default 0%N (ar_max a)) - N.to_nat t) _ _ i a n (n + 1)%N Ha Hn) as Hsum.
  fold (remaining p taken) in Hsum. fold (remaining p (<[i := (n + 1)%N]> taken)) in Hsum. cbv beta in Hsum.
  pose proof (rank_le order (ar_to a)).
  destruct (ar_max a) as [max|] eqn:Em; simpl in Hsum.
  - specialize (Hmax max eq_refl). assert (S (remaining p (<[i := (n + 1)%N]> taken)) = remaining p taken) as <- by lia. simpl. lia.
  - assert (remaining p (<[i := (n + 1)%N]> taken) = remaining p taken) as -> by lia.
    assert (rank order (ar_to a) < rank order s); [|lia]. eapply topo_rank; [done|by rewrite <- Hname; apply Hall|].
    exists a. split; [|done]. apply elem_of_free_arrows. split_and!; try done. by eapply list_elem_of_lookup_2.
Qed.

Lemma runs_shrink p order n c c' :
  topo p order -> (forall s, s ∈ pl_stages p -> st_name s ∈ order) -> nsteps (pipe_step p) n c c' ->
  n + measure p order c' <= measure p order c.
Proof.
  intros Ht Hall. induction 1 as [c|n c1 c2 c3 Hs Hn IH]; [lia|].
  pose proof (pipe_step_measure p order c1 c2 Ht Hall Hs). lia.
Qed.

Lemma measure_lt_fuel p order c : length order <= names_count p -> measure p order c < walk_fuel p.
Proof.
  intros Hl. unfold measure, walk_fuel. pose proof (remaining_le p c.2). pose proof (rank_le order c.1). nia.
Qed.

(** A run stays on the pipeline's arrows. *)
Lemma pipe_step_arrow p c c' : pipe_step p c c' -> exists a, a ∈ pl_arrows p /\ ar_from a = c.1 /\ ar_to a = c'.1.
Proof.
  intros [s here taken verdict stalled i a n Hs Hp Hd Hn]. destruct (pick_Some _ _ _ _ _ _ _ Hp) as [Ha He].
  apply eligible_true in He as (Hfrom & _). exists a. split; [by eapply list_elem_of_lookup_2|done].
Qed.
