(* ===== verification/PipeWalkFacts.v ===== *)
(** * The worst case is the worst: [crates/kanna-pipe/src/walk.rs]

    The walk of a pipeline without an unbounded loop ends, and what it answers is the cost
    of the dearest run: no run costs more, and one costs as much. *)

From stdpp Require Import relations.
From S2P Require Import Prelude Text Pipe PipeParse PipeWalk PipeCheck PipeFacts.

(** ** The walk ends *)

Lemma take_arrow_Good taken i next :
  take_arrow taken i = Good next -> exists n, taken !! i = Some n /\ next = <[i := (n + 1)%N]> taken.
Proof.
  unfold take_arrow, add_u32. destruct (taken !! i) as [n|]; [|done]. destruct (_ <=? _)%N; simpl; [|done].
  intros [= <-]. by exists n.
Qed.

Lemma walk_total p cost order fuel s taken seen :
  topo p order -> (forall x, x ∈ pl_stages p -> st_name x ∈ order) ->
  measure p order (s, taken) < fuel -> is_Some (walk fuel p cost s taken seen).
Proof.
  intros Ht Hall. revert s taken seen. induction fuel as [|fuel IH]; intros s taken seen Hm; [lia|]. simpl.
  destruct (seen !! (s, taken)); [by eexists|]. destruct (pipeline_stage p s) as [here|] eqn:Hs; [|by eexists].
  assert (forall cases best seen, is_Some (walk_cases (walk fuel p cost) p s taken cases best seen)) as Hc.
  { induction cases as [|[v stalled] cases IHc]; intros best seen'; simpl; [by eexists|].
    destruct (pick p s v taken stalled) as [[i a]|] eqn:Hp; [|apply IHc]. case_decide as Hd; [apply IHc|].
    destruct (take_arrow taken i) as [next| |] eqn:En; [|by eexists..].
    apply take_arrow_Good in En as (n & Hn & ->).
    pose proof (pipe_step_measure p order _ _ Ht Hall (take_step p s here taken v stalled i a n Hs Hp Hd Hn)) as Hlt.
    destruct (IH (ar_to a) (<[i := (n + 1)%N]> taken) seen') as [[[m seen1]| |] ->]; [lia|apply IHc|by eexists..]. }
  destruct (Hc (verdict_cases p here) 0%N seen) as [[[best seen1]| |] ->]; by eexists.
Qed.

Lemma worst_total p cost : loop_line p = None -> is_Some (worst p cost).
Proof.
  intros (order & Ht & Hall & Hlen)%loop_line_None. unfold worst.
  destruct (walk_total p cost order (walk_fuel p) (pl_start p) (replicate (length (pl_arrows p)) 0%N) ∅ Ht Hall) as [r ->];
    [by apply measure_lt_fuel|by eexists].
Qed.

(** ** The runs that are walked *)

(** What a stage may conclude, as the engine of runs has it: a stage that is not an agent, and an
    agent that is asked for a verdict, may pass or fail, and a failure may stall, that is show the
    same failures as the one before; an agent that is not asked gives no verdict. *)
Inductive concludes (here : Stage) : option Verdict -> bool -> Prop :=
| concludes_command verdict stalled :
    (forall a, st_kind here ≠ KAgent a) -> (stalled = true -> verdict = Fail_) -> concludes here (Some verdict) stalled
| concludes_judge a verdict stalled :
    st_kind here = KAgent a -> ag_verdict a = true -> (stalled = true -> verdict = Fail_) -> concludes here (Some verdict) stalled
| concludes_worker a : st_kind here = KAgent a -> ag_verdict a = false -> concludes here None false.

Lemma concludes_verdict here verdict stalled :
  concludes here verdict stalled <->
  if verdicts here then exists v, verdict = Some v /\ (stalled = true -> v = Fail_) else verdict = None /\ stalled = false.
Proof.
  unfold verdicts. split.
  - intros [v st Hk Hs|a v st Hk Hv Hs|a Hk Hv]; [|by rewrite Hk, Hv; eauto|by rewrite Hk, Hv].
    destruct (st_kind here) as [a| | |] eqn:E; [by destruct (Hk a)|by eauto..].
  - destruct (st_kind here) as [a| | |] eqn:E.
    { destruct (ag_verdict a) eqn:Ev; [intros (v & -> & Hs); by eapply concludes_judge|intros [-> ->]; by eapply concludes_worker]. }
    all: intros (v & -> & Hs); apply concludes_command; [by rewrite E|done].
Qed.

(** Where no arrow asks for progress, a stall changes nothing. *)
Lemma pick_no_progress p s verdict taken :
  existsb (fun a => bool_decide (ar_from a = s) && ar_progress a) (pl_arrows p) = false ->
  pick p s verdict taken true = pick p s verdict taken false.
Proof.
  unfold pick. generalize 0. induction (pl_arrows p) as [|a l IH]; intros i; simpl; [done|]. intros [Ha Hl]%orb_false_iff.
  assert (eligible s verdict true a (default 0%N (taken !! i)) = eligible s verdict false a (default 0%N (taken !! i))) as ->; [|by rewrite IH].
  unfold eligible. destruct (bool_decide (ar_from a = s)); [|done]. simpl in Ha. by rewrite Ha.
Qed.

(** The cases of the walk are what the stage may conclude, up to stalls that change nothing. *)
Lemma verdict_cases_sound p here verdict stalled : (verdict, stalled) ∈ verdict_cases p here -> concludes here verdict stalled.
Proof.
  rewrite concludes_verdict. unfold verdict_cases. destruct (verdicts here); [|by intros [= -> ->]%list_elem_of_singleton].
  intros [[[= -> ->]|[= -> ->]%list_elem_of_singleton]%elem_of_cons|Hs]%elem_of_app; [by eexists..|].
  destruct (existsb _ _); [|by apply elem_of_nil in Hs]. apply list_elem_of_singleton in Hs as [= -> ->]. by eexists.
Qed.

Lemma verdict_cases_all p s here verdict stalled taken :
  pipeline_stage p s = Some here -> concludes here verdict stalled ->
  exists stalled', (verdict, stalled') ∈ verdict_cases p here /\ pick p s verdict taken stalled = pick p s verdict taken stalled'.
Proof.
  intros [_ <-]%pipeline_stage_Some. rewrite concludes_verdict. unfold verdict_cases. destruct (verdicts here).
  2: { intros [-> ->]. exists false. split; [left|done]. }
  intros (v & -> & Hs). destruct stalled.
  - rewrite Hs by done. destruct (existsb _ _) eqn:Ep; [exists true; split; [set_solver|done]|].
    exists false. split; [set_solver|]. by apply pick_no_progress.
  - exists false. split; [destruct v; set_solver|done].
Qed.

(** The stages of a run from [s], the arrows [taken] so far: it may end at any stage. *)
Inductive pipe_path (p : Pipeline) : string -> list N -> list Stage -> Prop :=
| path_out s taken : pipeline_stage p s = None -> pipe_path p s taken []
| path_end s taken here : pipeline_stage p s = Some here -> pipe_path p s taken [here]
| path_on s taken here verdict stalled i a next l :
    pipeline_stage p s = Some here -> concludes here verdict stalled ->
    pick p s verdict taken stalled = Some (i, a) -> ar_to a ≠ DONE -> take_arrow taken i = Good next ->
    pipe_path p (ar_to a) next l -> pipe_path p s taken (here :: l).

Section Worst.
Context (p : Pipeline) (cost : Stage -> outcome (list PipeError) N).

Definition cost_of (s : Stage) : N := match cost s with Good n => n | _ => 0%N end.
Definition path_cost (l : list Stage) : N := foldr (fun s n => cost_of s + n)%N 0%N l.

(** [n] is the cost of the dearest run from here. *)
Definition dearest (s : string) (taken : list N) (n : N) : Prop :=
  (forall l, pipe_path p s taken l -> (path_cost l <= n)%N) /\ exists l, pipe_path p s taken l /\ path_cost l = n.

Definition seen_right (seen : Seen) : Prop := forall s taken n, seen !! (s, taken) = Some n -> dearest s taken n.

(** A case of a stage leads on to [to] with [next]. *)
Definition leads_on (s : string) (taken : list N) (case : option Verdict * bool) (to : string) (next : list N) : Prop :=
  exists i a, pick p s case.1 taken case.2 = Some (i, a) /\ ar_to a = to /\ to ≠ DONE /\ take_arrow taken i = Good next.

Definition walk_right (w : string -> list N -> Seen -> option (outcome (list PipeError) (N * Seen))) : Prop :=
  forall s taken seen n seen', seen_right seen -> w s taken seen = Some (Good (n, seen')) ->
    dearest s taken n /\ seen_right seen'.

Lemma walk_cases_right w s taken : walk_right w -> forall cases best seen n seen',
  seen_right seen -> walk_cases w p s taken cases best seen = Some (Good (n, seen')) ->
  seen_right seen' /\ (best <= n)%N /\
  (forall case to next l, case ∈ cases -> leads_on s taken case to next -> pipe_path p to next l -> (path_cost l <= n)%N) /\
  (n = best \/ exists case to next l, case ∈ cases /\ leads_on s taken case to next /\ pipe_path p to next l /\ path_cost l = n).
Proof.
  intros Hw. induction cases as [|[v stalled] cases IH]; intros best seen n seen' Hseen; simpl.
  - intros [= <- <-]. split_and!; [done|lia| |by left]. by intros c to next l ?%elem_of_nil.
  - assert (forall best seen, seen_right seen ->
      (forall to next, leads_on s taken (v, stalled) to next -> (forall l, pipe_path p to next l -> (path_cost l <= best)%N)) ->
      walk_cases w p s taken cases best seen = Some (Good (n, seen')) ->
      seen_right seen' /\ (best <= n)%N /\
      (forall case to next l, case ∈ (v, stalled) :: cases -> leads_on s taken case to next -> pipe_path p to next l -> (path_cost l <= n)%N) /\
      (n = best \/ exists case to next l, case ∈ (v, stalled) :: cases /\ leads_on s taken case to next /\ pipe_path p to next l /\ path_cost l = n)) as Hskip.
    { intros b sn Hsn Hbest (H1 & H2 & H3 & H4)%IH; [|done]. split_and!; [done..| |].
      - intros c to next l [->|Hc]%elem_of_cons Hl Hp; [|by eapply H3]. pose proof (Hbest _ _ Hl l Hp). lia.
      - destruct H4 as [->|(c & to & next & l & Hc & ?)]; [by left|right]. exists c, to, next, l. split; [by right|done]. }
    destruct (pick p s v taken stalled) as [[i a]|] eqn:Hp.
    2: { apply Hskip; [done|]. intros to next (j & b & Hj & _). simpl in Hj. congruence. }
    case_decide as Hd.
    { apply Hskip; [done|]. intros to next (j & b & Hj & <- & Hne & _). simpl in Hj. by simplify_eq. }
    destruct (take_arrow taken i) as [next| |] eqn:En; [|done..].
    destruct (w (ar_to a) next seen) as [[[m seen1]| |]|] eqn:Ew; try done.
    destruct (Hw _ _ _ _ _ Hseen Ew) as [[Hle (l0 & Hl0 & Hc0)] Hseen1].
    assert (leads_on s taken (v, stalled) (ar_to a) next) as Hlead by (by exists i, a).
    intros (H1 & H2 & H3 & H4)%Hskip; [|done|].
    + split_and!; [done|lia|done|]. destruct H4 as [->|?]; [|by right].
      destruct (N.max_spec best m) as [[_ ->]|[_ ->]]; [|by left].
      right. exists (v, stalled), (ar_to a), next, l0. split; [left|done].
    + intros to next' (j & b & Hj & <- & Hne & Hn) l Hl. simpl in Hj. rewrite Hp in Hj. injection Hj as <- <-. rewrite En in Hn. injection Hn as <-. pose proof (Hle l Hl). lia.
Qed.

Lemma walk_is_right fuel : walk_right (walk fuel p cost).
Proof.
  induction fuel as [|fuel IH]; intros s taken seen n seen' Hseen; [done|]. simpl.
  destruct (seen !! (s, taken)) as [known|] eqn:Ek; [intros [= <- <-]; split; [by apply Hseen|done]|].
  destruct (pipeline_stage p s) as [here|] eqn:Hs.
  2: { intros [= <- <-]. split; [|done]. split.
       - intros l Hl. inversion Hl; simplify_eq; simpl; lia.
       - exists []. split; [by constructor|done]. }
  destruct (walk_cases (walk fuel p cost) p s taken (verdict_cases p here) 0 seen) as [[[best seen1]| |]|] eqn:Ec; try done.
  destruct (cost here) as [c| |] eqn:Hcost; simpl; try done. unfold add_u32. destruct (_ <=? _)%N; simpl; [|done].
  intros [= <- <-]. destruct (walk_cases_right _ _ _ IH _ _ _ _ _ Hseen Ec) as (Hseen1 & _ & Hle & Hat).
  assert (cost_of here = c) as Hc by (unfold cost_of; by rewrite Hcost).
  assert (dearest s taken (c + best)) as Hd.
  { split.
    - intros l Hl. inversion Hl as [|? ? here'|? ? here' v st i a next l' Hs' Hin Hp Hd Hn Hl']; simplify_eq; simpl; [lia|].
      assert (path_cost l' <= best)%N; [|lia]. destruct (verdict_cases_all p s here v st taken Hs Hin) as (st' & Hin' & E).
      eapply (Hle (v, st')); [done| |done]. exists i, a. simpl. by rewrite <- E.
    - destruct Hat as [->|([v st] & to & next & l & Hin & (i & a & Hp & <- & Hne & Hn) & Hl & <-)].
      + exists [here]. split; [by constructor|]. simpl. lia.
      + exists (here :: l). split; [|simpl; lia]. by eapply path_on; [|eapply verdict_cases_sound|..]. }
  split; [done|]. intros s' taken' n. destruct (decide ((s', taken') = (s, taken))) as [E|Hne].
  - injection E as -> ->. unfold Seen in *. rewrite lookup_insert_eq. by intros [= <-].
  - unfold Seen in *. rewrite lookup_insert_ne by done. apply Hseen1.
Qed.

Lemma worst_right n :
  worst p cost = Some (Good n) -> dearest (pl_start p) (replicate (length (pl_arrows p)) 0%N) n.
Proof.
  unfold worst. destruct (walk _ _ _ _ _ _) as [[[m seen]| |]|] eqn:E; simpl; try done. intros [= <-].
  assert (seen_right ∅) as Hseen by (intros s taken k; unfold Seen; by rewrite lookup_empty).
  by destruct (walk_is_right _ _ _ _ _ _ Hseen E) as [? _].
Qed.
End Worst.

(** * What a run reaches, and what a checked pipeline is: [crates/kanna-pipe/src/check.rs] *)

(** ** [reachable] *)

(** An arrow leads from [x] on to [y], which is not the stage to avoid. *)
Definition edge (p : Pipeline) (avoid : option string) (x y : string) : Prop :=
  x ≠ DONE /\ Some y ≠ avoid /\ y ∈ targets p x.

Definition reaches (p : Pipeline) (avoid : option string) (x : string) : Prop :=
  Some (pl_start p) ≠ avoid /\ rtc (edge p avoid) (pl_start p) x.

(** The arrows that leave a stage not seen yet. *)
Definition unseen (p : Pipeline) (seen : gset string) : nat :=
  length (retain (fun a => negb (bool_decide (ar_from a ∈ seen))) (pl_arrows p)).

Lemma unseen_expand p seen s :
  s ∉ seen -> unseen p ({[s]} ∪ seen) + length (targets p s) = unseen p seen.
Proof.
  intros Hs. unfold unseen, targets. rewrite length_map. induction (pl_arrows p) as [|a l IH]; simpl; [done|].
  unfold retain in *. simpl. destruct (decide (ar_from a = s)) as [E|Hne].
  - rewrite (bool_decide_eq_true_2 (ar_from a = s)) by done.
    rewrite (bool_decide_eq_true_2 (ar_from a ∈ {[s]} ∪ seen)) by set_solver.
    rewrite (bool_decide_eq_false_2 (ar_from a ∈ seen)) by (by rewrite E). simpl. lia.
  - rewrite (bool_decide_eq_false_2 (ar_from a = s)) by done.
    destruct (decide (ar_from a ∈ seen)).
    + rewrite !bool_decide_eq_true_2 by set_solver. simpl. lia.
    + rewrite !bool_decide_eq_false_2 by set_solver. simpl. lia.
Qed.

Lemma unseen_mono p seen s : unseen p ({[s]} ∪ seen) <= unseen p seen.
Proof.
  unfold unseen. induction (pl_arrows p) as [|a l IH]; simpl; [done|]. unfold retain in *. simpl.
  destruct (decide (ar_from a ∈ seen)).
  - rewrite !bool_decide_eq_true_2 by set_solver. simpl. lia.
  - rewrite (bool_decide_eq_false_2 (ar_from a ∈ seen)) by done. simpl.
    destruct (negb _); simpl; lia.
Qed.

(** What the loop keeps: everything seen or to do is reached, and an arrow from a stage
    seen leads to one seen or to do. *)
Record worklist (p : Pipeline) (avoid : option string) (todo : list string) (seen : gset string) : Prop := {
  wl_seen x : x ∈ seen -> reaches p avoid x;
  wl_todo x : x ∈ todo -> Some x = avoid \/ reaches p avoid x;
  wl_closed x y : x ∈ seen -> edge p avoid x y -> y ∈ seen \/ y ∈ todo;
  wl_start : Some (pl_start p) ≠ avoid -> pl_start p ∈ seen \/ pl_start p ∈ todo }.

Lemma worklist_skip p avoid s todo seen :
  Some s = avoid \/ s ∈ seen -> worklist p avoid (s :: todo) seen -> worklist p avoid todo seen.
Proof.
  intros Hs [H1 H2 H3 H4]. split; [done|intros x Hx; apply H2; by right|..].
  - intros x y Hx He. destruct (H3 x y Hx He) as [?|[->|?]%elem_of_cons]; auto. destruct Hs; [|auto].
    destruct He as (_ & Hne & _). congruence.
  - intros Hne. destruct (H4 Hne) as [?|[E|?]%elem_of_cons]; auto. destruct Hs; subst; auto. congruence.
Qed.

Lemma worklist_take p avoid s todo seen :
  Some s ≠ avoid -> worklist p avoid (s :: todo) seen ->
  worklist p avoid ((if decide (s = DONE) then [] else rev (targets p s)) ++ todo) ({[s]} ∪ seen).
Proof.
  intros Hs [H1 H2 H3 H4]. assert (reaches p avoid s) as Hr by (destruct (H2 s (list_elem_of_here _ _)); done). split.
  - intros x [->%elem_of_singleton|?]%elem_of_union; auto.
  - intros x [Hx|Hx]%elem_of_app; [|apply H2; by right]. case_decide as Hd; [by apply elem_of_nil in Hx|].
    rewrite <- Permutation_rev in Hx. destruct (decide (Some x = avoid)); [by left|right].
    destruct Hr as [Hst Hr]. split; [done|]. eapply rtc_r; [exact Hr|]. done.
  - intros x y [->%elem_of_singleton|Hx]%elem_of_union He.
    + right. apply elem_of_app. left. destruct He as (Hd & _ & Hy). rewrite decide_False by done.
      by rewrite <- Permutation_rev.
    + destruct (H3 x y Hx He) as [?|[->|?]%elem_of_cons]; [left; set_solver|left; set_solver|right].
      apply elem_of_app. by right.
  - intros Hne. destruct (H4 Hne) as [?|[->|?]%elem_of_cons]; [left; set_solver|left; set_solver|right].
    apply elem_of_app. by right.
Qed.

Lemma reachable_from_spec p avoid fuel todo seen :
  worklist p avoid todo seen -> length todo + unseen p seen <= fuel ->
  exists seen', reachable_from fuel p avoid todo seen = Some seen' /\ worklist p avoid [] seen'.
Proof.
  revert todo seen. induction fuel as [|fuel IH]; intros [|s todo] seen Hw Hf; simpl in *; try lia; try (by eexists).
  destruct (bool_decide (Some s = avoid) || bool_decide (s ∈ seen)) eqn:E.
  - apply IH; [|lia]. eapply worklist_skip; [|exact Hw].
    apply orb_true_iff in E as [E|E]; apply bool_decide_eq_true in E; auto.
  - apply orb_false_iff in E as [Ha%bool_decide_eq_false Hs%bool_decide_eq_false].
    pose proof (worklist_take p avoid s todo seen Ha Hw) as Hw'. case_decide as Hd; (apply IH; [done|]).
    + pose proof (unseen_mono p seen s). lia.
    + pose proof (unseen_expand p seen s Hs). rewrite length_app, length_rev. lia.
Qed.

(** The stages reached are the ones that arrows lead to from the start. *)
Lemma stages_reached_spec p avoid x : x ∈ stages_reached p avoid <-> reaches p avoid x.
Proof.
  unfold stages_reached. destruct (reachable_from_spec p avoid (S (length (pl_arrows p))) [pl_start p] ∅) as (seen & -> & Hw).
  - split.
    + intros y ?%elem_of_empty. done.
    + intros y ->%list_elem_of_singleton. destruct (decide (Some (pl_start p) = avoid)); [by left|right]. by split.
    + intros y z ?%elem_of_empty. done.
    + intros _. right. left.
  - simpl. unfold unseen, retain. apply le_n_S, List.filter_length_le.
  - simpl. destruct Hw as [H1 H2 H3 H4]. split; [apply H1|]. intros [Hs Hr].
    assert (pl_start p ∈ seen) as Hst by (destruct (H4 Hs) as [?|?%elem_of_nil]; done).
    clear -Hr Hst H3. induction Hr as [y|y z w He Hr IH]; [done|]. apply IH. by destruct (H3 y z Hst He) as [?|?%elem_of_nil].
Qed.

(** ** Before *)

(** The stages of a walk along arrows, ended by [then_]. *)
Inductive trail (p : Pipeline) : string -> list string -> string -> Prop :=
| trail_end s : trail p s [s] s
| trail_on s y l then_ : s ≠ DONE -> y ∈ targets p s -> trail p y l then_ -> trail p s (s :: l) then_.

Lemma trail_avoids p s l then_ first :
  trail p s l then_ -> first ∉ l -> Some s ≠ Some first /\ rtc (edge p (Some first)) s then_.
Proof.
  induction 1 as [s|s y l then_ Hd Hy Ht IH]; rewrite not_elem_of_cons; intros [Hs Hl].
  - split; [congruence|done].
  - destruct (IH Hl) as [Hne Hr]. split; [congruence|]. eapply rtc_l; [|exact Hr]. by split_and!.
Qed.

Lemma runs_before_trail p first then_ l :
  runs_before p first then_ = true -> trail p (pl_start p) l then_ -> first ∈ l.
Proof.
  unfold runs_before. rewrite !andb_true_iff, negb_true_iff. intros [_ Hn%bool_decide_eq_false] Ht.
  destruct (decide (first ∈ l)) as [|Hl]; [done|]. destruct Hn. apply stages_reached_spec.
  destruct (trail_avoids _ _ _ _ _ Ht Hl) as [Hne Hr]. by split.
Qed.

(** A run follows a trail. *)
Lemma pipe_step_target p c c' : pipe_step p c c' -> c.1 ≠ DONE -> c'.1 ∈ targets p c.1.
Proof.
  intros (a & Ha & Hf & Ht)%pipe_step_arrow _. rewrite <- Ht. unfold targets. apply list_elem_of_fmap_2.
  apply elem_of_retain. split; [by apply bool_decide_eq_true|done].
Qed.

(** ** A checked pipeline *)

Lemma check_Good p cx :
  check p cx = Some (Good tt) ->
  check_errors p cx = [] /\ check_budget p cx [] = Some (Good []).
Proof.
  unfold check. destruct (check_budget p cx (check_errors p cx)) as [[over| |]|] eqn:E; simpl; try done.
  case_decide as Hd; [|done]. intros _. apply app_eq_nil in Hd as [He ->]. by rewrite He in E.
Qed.

Lemma check_errors_nil p cx :
  check_errors p cx = [] ->
  check_arrows p = [] /\ check_reach p = [] /\ loop_line p = None /\
  forall s, s ∈ pl_stages p -> check_references p cx s = [] /\ check_placement cx s = [].
Proof.
  unfold check_errors. intros [Ha Hr]%app_eq_nil. apply app_eq_nil in Hr as [Hr Hl]. apply app_eq_nil in Hl as [Hl Hs].
  split_and!; try done.
  - unfold check_loops in Hl. by destruct (loop_line p).
  - intros s Hin. clear -Hs Hin. induction (pl_stages p) as [|x l IH]; [by apply elem_of_nil in Hin|]. simpl in Hs.
    apply app_eq_nil in Hs as [Hx Hs]. apply elem_of_cons in Hin as [->|Hin]; [by apply app_eq_nil|auto].
Qed.

Lemma flat_map_nil {A B} (f : A -> list B) l x : flat_map f l = [] -> x ∈ l -> f x = [].
Proof.
  induction l as [|y l IH]; simpl; [by intros _ ?%elem_of_nil|]. intros [Hy Hl]%app_eq_nil [->|Hx]%elem_of_cons; auto.
Qed.

(** The whole check has fuel enough, whatever the pipeline. *)
Lemma existsb_rule (errors : list PipeError) e :
  e ∈ errors -> contains STRUCTURE (pe_rule e) = true -> existsb (fun e => contains STRUCTURE (pe_rule e)) errors = true.
Proof. intros Hin Hc. apply existsb_exists. exists e. split; [by apply list_elem_of_In|done]. Qed.

Lemma check_total p cx : is_Some (check p cx).
Proof.
  unfold check. assert (is_Some (check_budget p cx (check_errors p cx))) as [r ->]; [|by eexists].
  unfold check_budget. destruct (existsb _ _) eqn:E; [by eexists|]. destruct (pl_budget p) as [budget|]; [|by eexists].
  unfold max_sessions. destruct (worst_total p (stage_sessions (cx_sizes cx))) as [r ->]; [|by eexists].
  destruct (loop_line p) as [line|] eqn:El; [|done]. exfalso.
  assert (existsb (fun e => contains STRUCTURE (pe_rule e)) (check_errors p cx) = true); [|congruence].
  apply (existsb_rule _ (mkPipeError line RUnbounded "this loop has no [max N] on any of its arrows, so the run might never end"));
    [|by vm_compute]. unfold check_errors, check_loops. rewrite El, !elem_of_app. right. right. left. left.
Qed.

Lemma stage_map_Some p name s : stage_map p name = Some s -> s ∈ pl_stages p /\ st_name s = name.
Proof.
  intros [Hin Hn]%List.find_some. split; [apply list_elem_of_In, in_rev, Hin|by apply bool_decide_eq_true in Hn].
Qed.

Lemma undefined_end_nil p line x : undefined_end p line x = [] -> x = DONE \/ is_Some (stage_map p x).
Proof.
  unfold undefined_end, has_stage. destruct (decide (x = DONE)); [by left|]. rewrite (bool_decide_eq_true_2 (x ≠ DONE)) by done.
  simpl. destruct (bool_decide _) eqn:E; simpl; [|done]. apply bool_decide_eq_true in E. by right.
Qed.

(** What a sound arrow is. *)
Record sound_arrow (p : Pipeline) (a : Arrow) : Prop := {
  sound_from : exists from, stage_map p (ar_from a) = Some from /\
    (forall v, ar_when a = Some v -> verdicts from = true) /\ (ar_progress a = true -> is_run from = true);
  sound_to : ar_to a = DONE \/ is_Some (stage_map p (ar_to a));
  sound_reset : ar_reset a = true -> exists to agent, stage_map p (ar_to a) = Some to /\ stage_agent to = Some agent }.

Lemma check_arrow_nil p a : check_arrow p a = [] -> sound_arrow p a.
Proof.
  unfold check_arrow. case_decide as Hd; [done|]. intros [Hf Hr]%app_eq_nil. apply app_eq_nil in Hr as [Ht Hr].
  apply undefined_end_nil in Hf as [?|[from Hfrom]]; [done|]. apply undefined_end_nil in Ht.
  rewrite Hfrom in Hr. apply app_eq_nil in Hr as [Hw Hr]. apply app_eq_nil in Hr as [Hp Hr]. split.
  - exists from. split; [done|]. split.
    + intros v E. rewrite E in Hw. by destruct (verdicts from).
    + intros E. rewrite E in Hp. by destruct (is_run from).
  - done.
  - intros E. rewrite E in Hr. simpl in Hr. destruct (stage_map p (ar_to a)) as [to|]; [|done].
    destruct (stage_agent to) as [agent|] eqn:Ea; [by exists to, agent|]. done.
Qed.

Lemma check_reach_nil p :
  check_reach p = [] -> is_Some (stage_map p (pl_start p)) ->
  (forall s, s ∈ pl_stages p -> reaches p None (st_name s)) /\ reaches p None DONE.
Proof.
  unfold check_reach, has_stage. intros Hr Hs. rewrite (bool_decide_eq_true_2 _ Hs) in Hr. simpl in Hr.
  apply app_eq_nil in Hr as [Hm Hd]. split.
  - intros s Hin. apply stages_reached_spec. destruct (decide (st_name s ∈ stages_reached p None)) as [|Hn]; [done|].
    apply map_eq_nil in Hm. assert (s ∈ retain (fun s => negb (bool_decide (st_name s ∈ stages_reached p None))) (pl_stages p)) as Hin'.
    { apply elem_of_retain. split; [|done]. by rewrite bool_decide_eq_false_2. }
    rewrite Hm in Hin'. by apply elem_of_nil in Hin'.
  - apply stages_reached_spec. destruct (bool_decide (DONE ∈ stages_reached p None)) eqn:E; [|done].
    by apply bool_decide_eq_true in E.
Qed.

(** A stage's references: what it takes parts from, and what its prompt names, runs before
    it on every trail. *)
Lemma check_references_nil p cx s agent :
  check_references p cx s = [] -> stage_agent s = Some agent ->
  (forall each, ag_each agent = Some each -> runs_before p (out_stage each) (st_name s) = true) /\
  exists text, cx_prompts cx !! default "" (stage_prompt s) = Some text /\
    forall from key, (from, key) ∈ placeholders text -> runs_before p from (st_name s) = true.
Proof.
  unfold check_references. intros H Ha. apply map_eq_nil in H. rewrite Ha in H. apply app_eq_nil in H as [_ H].
  apply app_eq_nil in H as [He H]. apply app_eq_nil in H as [_ H]. apply app_eq_nil in H as [_ H].
  apply app_eq_nil in H as [_ Hp]. split.
  - intros each E. unfold check_each in He. rewrite E in He. destruct (stage_map p (out_stage each)) as [from|]; [|done].
    destruct (negb (bool_decide _)); [done|]. by destruct (runs_before p (out_stage each) (st_name s)).
  - unfold check_prompt in Hp. destruct (cx_prompts cx !! _) as [text|]; [|done]. exists text. split; [done|].
    intros from key Hin. apply (flat_map_nil _ _ (from, key)) in Hp; [|done]. unfold check_placeholder in Hp.
    destruct (negb (has_stage p from)); [done|]. by destruct (runs_before p from (st_name s)).
Qed.

Lemma check_budget_nil p cx b n :
  check_budget p cx [] = Some (Good []) -> pl_budget p = Some b -> bu_sessions b = Some n ->
  exists w, max_sessions p (cx_sizes cx) = Some (Good w) /\ (w <= n)%N.
Proof.
  unfold check_budget. simpl. intros H Hb Hs. rewrite Hb in H.
  destruct (max_sessions p (cx_sizes cx)) as [[w| |]|] eqn:E; simpl in H; try done. exists w. split; [done|].
  rewrite Hs in H. destruct (n <? w)%N eqn:El; [done|]. by apply N.ltb_ge in El.
Qed.

(** A run of a checked pipeline takes fewer steps than the walk has fuel. *)
Lemma checked_steps p cx n c c' : check p cx = Some (Good tt) -> nsteps (pipe_step p) n c c' -> n < walk_fuel p.
Proof.
  intros (He & _)%check_Good Hn. apply check_errors_nil in He as (_ & _ & Hl & _).
  apply loop_line_None in Hl as (order & Ht & Hall & Hlen).
  pose proof (runs_shrink p order n c c' Ht Hall Hn). pose proof (measure_lt_fuel p order c Hlen). lia.
Qed.
