(* ===== verification/PipeRevise.v ===== *)
(** * Revising a pipeline that runs: [crates/kanna-pipe/src/revise.rs] *)

From S2P Require Import Prelude Text Pipe PipeParse PipeWalk PipeCheck PipeFacts.
From Stdlib Require Import Ascii.

(** For each arrow of the new pipeline, the old one whose count it carries on. *)
Record Revision := mkRevision { rev_pipeline : Pipeline; rev_carried : list (option nat) }.

Definition revision_taken (r : Revision) (before : list N) : list N :=
  map (fun old => default 0%N (i ← old; before !! i)) (rev_carried r).

Inductive Origin := OLine (line : N) | OArrow (index : nat) | ONew.

(** ** Edited text *)

Fixpoint carry_arrows (old : list Arrow) (used : list bool) (arrows : list Arrow) : list (option nat) :=
  match arrows with
  | [] => []
  | a :: arrows =>
    match find_index (fun i o => negb (default true (used !! i)) && arrow_same o a) 0 old with
    | Some (i, _) => Some i :: carry_arrows old (<[i := true]> used) arrows
    | None => None :: carry_arrows old used arrows
    end
  end.

Definition edited (current : Pipeline) (text : string) (cx : Context) : option (outcome (list PipeError) Revision) :=
  r ← load text cx;
  Some (let* p := r in
        Good (mkRevision p (carry_arrows (pl_arrows current) (replicate (length (pl_arrows current)) false) (pl_arrows p)))).

(** ** A block an agent emits *)

(** The arrows of [current] that are on the line [line], by index. *)
Fixpoint indexed {A} (i : nat) (l : list A) : list (nat * A) :=
  match l with [] => [] | x :: l => (i, x) :: indexed (S i) l end.

Fixpoint carry_lines (current : Pipeline) (out : list (string * Origin)) (last_line : N) (nth : nat) (arrows : list Arrow)
  : list (option nat) :=
  match arrows with
  | [] => []
  | a :: arrows =>
    let nth := if (last_line =? ar_line a)%N then S nth else 0 in
    let old := match snd <$> out !! (N.to_nat (ar_line a) - 1) with
               | Some (OLine line) =>
                 fst <$> retain (fun '(_, b) => (ar_line b =? line)%N) (indexed 0 (pl_arrows current)) !! nth
               | Some (OArrow index) => Some index
               | _ => None
               end in
    old :: carry_lines current out (ar_line a) nth arrows
  end.

Definition revised_text (current : Pipeline) (out : list (string * Origin)) : string :=
  let lines := map fst out in
  let whole := join "" (map (fun line => line +:+ newline) lines) in
  if negb (ends_with newline (pl_text current)) && bool_decide (length (str_lines (pl_text current)) = length out)
  then join newline lines
  else whole.

Definition revision (current : Pipeline) (out : list (string * Origin)) (cx : Context)
  : option (outcome (list PipeError) Revision) :=
  r ← load (revised_text current out) cx;
  Some (let* p := r in Good (mkRevision p (carry_lines current out 0 0 (pl_arrows p)))).

(** What a block holds: new stages as they are written, arrows from the emitter, the other
    arrows, and what is wrong with it. *)
Record Emitted := mkEmitted {
  em_names : list string;
  em_added : list (string * Origin);
  em_ahead : list (string * Origin);
  em_after : list (string * Origin);
  em_errors : list PipeError }.

Definition emit_line (current : Pipeline) (emitter : string) (raw : list string) (e : option Emitted) (line : Line) : option Emitted :=
  '(mkEmitted names added ahead after errors) ← e;
  match line with
  | LStage found =>
    if bool_decide (is_Some (pipeline_stage current (st_name found))) || contains names (st_name found) then
      Some (mkEmitted names added ahead after (errors ++ [mkPipeError (st_line found) RRedefined
        ("stage '" +:+ st_name found +:+ "' exists already; a kojo block can only add stages")]))
    else
      text ← raw !! (N.to_nat (st_line found) - 1);
      Some (mkEmitted (names ++ [st_name found]) (added ++ [(str_trim text, ONew)]) ahead after errors)
  | LBudget found =>
    Some (mkEmitted names added ahead after (errors ++ [mkPipeError (bu_line found) REmits "a kojo block can't change the budget"]))
  | LFlow _ arrows =>
    let mine (a : Arrow) := bool_decide (ar_from a = emitter) in
    let lines l := map (fun a => (arrow_render a, ONew)) l in
    Some (mkEmitted names added (ahead ++ lines (retain mine arrows))
            (after ++ lines (retain (fun a => negb (mine a)) arrows)) errors)
  end.

(** The current text with the arrows from the emitter before its first arrow, and the new
    stages after its last stage. *)
Fixpoint weave (first_arrow : option N) (last_stage number : N) (lines : list string)
    (added ahead : list (string * Origin)) : list (string * Origin) * list (string * Origin) * list (string * Origin) :=
  match lines with
  | [] => ([], added, ahead)
  | line :: lines =>
    let '(before, ahead) := if bool_decide (Some number = first_arrow) then (ahead, []) else ([], ahead) in
    let '(behind, added) := if (number =? last_stage)%N then (added, []) else ([], added) in
    let '(out, added, ahead) := weave first_arrow last_stage (number + 1) lines added ahead in
    (before ++ [(line, OLine number)] ++ behind ++ out, added, ahead)
  end.

Definition emitted (current : Pipeline) (emitter block : string) (cx : Context)
  : option (outcome (list PipeError) Revision) :=
  match pipeline_stage current emitter with
  | None => Some (Bad [mkPipeError 1 REmits ("no stage named '" +:+ emitter +:+ "'")])
  | Some stage =>
    if negb (match stage_agent stage with Some a => ag_emits a | None => false end) then
      Some (Bad [mkPipeError (st_line stage) REmits
        ("stage '" +:+ emitter +:+ "' has no emits, so its answer can't change the pipeline")])
    else
      match read block with
      | None => Some Crash
      | Some (lines, errors) =>
        match foldl (emit_line current emitter (str_lines block)) (Some (mkEmitted [] [] [] [] errors)) lines with
        | None => Some Crash
        | Some (mkEmitted _ added ahead after errors) =>
          if negb (bool_decide (errors = [])) then Some (Bad errors)
          else
            let stage_lines := map st_line (pl_stages current) in
            let own := retain (fun '(_, a) => contains stage_lines (ar_line a)) (indexed 0 (pl_arrows current)) in
            let after := rev (map (fun '(i, a) => (arrow_render a, OArrow i)) own) ++ after in
            let last_stage := foldl N.max 0%N stage_lines in
            let first_arrow := ar_line <$> List.find (fun a =>
              bool_decide (ar_from a = emitter) && negb (contains stage_lines (ar_line a))) (pl_arrows current) in
            let '(out, added, ahead) := weave first_arrow last_stage 1 (str_lines (pl_text current)) added ahead in
            revision current (out ++ added ++ ahead ++ after) cx
        end
      end
  end.

(** ** An edit carries each count once *)

Lemma find_index_None {A} (f : nat -> A -> bool) i l : find_index f i l = None -> forall j x, l !! j = Some x -> f (i + j) x = false.
Proof.
  revert i. induction l as [|y l IH]; intros i; simpl; [done|]. destruct (f i y) eqn:E; [done|].
  intros H [|j] x; simpl; [intros [= ->]; by rewrite Nat.add_0_r|]. intros Hx. by rewrite <- (IH _ H j x Hx), Nat.add_succ_r.
Qed.

Lemma carry_arrows_length old used arrows : length (carry_arrows old used arrows) = length arrows.
Proof.
  revert used. induction arrows as [|a arrows IH]; intros used; simpl; [done|].
  destruct (find_index _ _ _) as [[i b]|]; simpl; by rewrite IH.
Qed.

Lemma find_index_same old (used : list bool) a i b :
  find_index (fun i o => negb (default true (used !! i)) && arrow_same o a) 0 old = Some (i, b) ->
  used !! i = Some false /\ old !! i = Some b /\ arrow_same b a = true.
Proof.
  intros (j & -> & Hj & Hb)%find_index_Some. apply andb_true_iff in Hb as [Hu Hs]. split_and!; try done.
  destruct (used !! (0 + j)) as [[]|]; done.
Qed.

(** What is carried was not used before, and is the same arrow. *)
Lemma carry_arrows_spec old used arrows k i :
  carry_arrows old used arrows !! k = Some (Some i) ->
  used !! i = Some false /\ exists a b, arrows !! k = Some a /\ old !! i = Some b /\ arrow_same b a = true.
Proof.
  revert used k. induction arrows as [|a arrows IH]; intros used k; simpl; [done|].
  destruct (find_index _ _ _) as [[j b]|] eqn:E; destruct k as [|k]; simpl; try done.
  - intros [= ->]. apply find_index_same in E as (Hu & Hb & Hs). split; [done|]. by exists a, b.
  - intros [Hu Hr]%IH. split; [|done]. destruct (decide (i = j)) as [->|Hne]; [|by rewrite list_lookup_insert_ne in Hu].
    apply find_index_same in E as (Hj & _). apply lookup_lt_Some in Hj. by rewrite list_lookup_insert_eq in Hu.
  - intros H. by apply IH.
Qed.

Lemma carry_arrows_once old used arrows k k' i :
  carry_arrows old used arrows !! k = Some (Some i) -> carry_arrows old used arrows !! k' = Some (Some i) -> k = k'.
Proof.
  revert used k k'. induction arrows as [|a arrows IH]; intros used k k'; simpl; [done|].
  assert (forall k j b, find_index (fun i o => negb (default true (used !! i)) && arrow_same o a) 0 old = Some (j, b) ->
    carry_arrows old (<[j := true]> used) arrows !! k = Some (Some j) -> False) as Hno.
  { intros n j b (Hj & _)%find_index_same [Hu _]%carry_arrows_spec. apply lookup_lt_Some in Hj. by rewrite list_lookup_insert_eq in Hu. }
  destruct (find_index _ _ _) as [[j b]|] eqn:E; destruct k as [|k], k' as [|k']; simpl; try done.
  - intros [= ->] H. by destruct (Hno k' i b).
  - intros H [= ->]. by destruct (Hno k i b).
  - intros H1 H2. f_equal. by eapply IH.
  - intros H1 H2. f_equal. by eapply IH.
Qed.

Lemma arrow_same_spec a b : arrow_same a b = true <-> a = mkArrow (ar_from b) (ar_to b) (ar_when b) (ar_max b) (ar_reset b) (ar_progress b) (ar_line a).
Proof.
  unfold arrow_same. rewrite !andb_true_iff, !bool_decide_eq_true. destruct a, b; simpl. split; [|by intros [=]].
  by intros [[[[[-> ->] ->] ->] ->] ->].
Qed.
