(* ===== verification/PipeText.v ===== *)
(** * An arrow's text and back: [crates/kanna-pipe/src/lib.rs], [parse.rs]

    A rendered arrow, which is how a revision writes the arrows it adds, parses to the same
    arrow. *)

From S2P Require Import Prelude Text Pipe PipeParse.
From Stdlib Require Import Ascii.

(** ** ASCII text *)

Definition ascii_text (s : string) : Prop := Forall (fun a => (N_of_ascii a < 128)%N) (string_bytes s).

Lemma string_bytes_app s t : string_bytes (s +:+ t) = string_bytes s ++ string_bytes t.
Proof. induction s as [|a s IH]; simpl; [done|]. by rewrite IH. Qed.

Lemma string_app_nil (s : string) : s +:+ "" = s.
Proof. induction s as [|a s IH]; [done|]. change (String a (s +:+ "") = String a s). by rewrite IH. Qed.

Lemma ascii_text_app s t : ascii_text (s +:+ t) <-> ascii_text s /\ ascii_text t.
Proof. unfold ascii_text. by rewrite string_bytes_app, Forall_app. Qed.

Lemma chars_app s t : ascii_text s -> chars (s +:+ t) = chars s ++ chars t.
Proof.
  induction s as [|a s IH]; simpl; [done|]. intros [Ha Hs]%Forall_cons. apply N.ltb_lt in Ha. rewrite Ha. simpl. by rewrite IH.
Qed.

Lemma chars_bytes s : ascii_text s -> chars s = map N_of_ascii (string_bytes s).
Proof.
  induction s as [|a s IH]; simpl; [done|]. intros [Ha Hs]%Forall_cons. apply N.ltb_lt in Ha. rewrite Ha. by rewrite IH.
Qed.

Lemma encode_ascii a : (N_of_ascii a < 128)%N -> encode_char (N_of_ascii a) = String a "".
Proof. intros Ha. unfold encode_char. apply N.ltb_lt in Ha as ->. by rewrite ascii_N_embedding. Qed.

Lemma of_chars_chars s : ascii_text s -> of_chars (chars s) = s.
Proof.
  intros Hs. rewrite chars_bytes by done. induction s as [|a s IH]; simpl; [done|]. apply Forall_cons in Hs as [Ha Hs].
  rewrite encode_ascii by done. simpl. by rewrite IH.
Qed.

Lemma drop_while_app {A} (p : A -> bool) l k : Forall (fun x => p x = true) l -> drop_while p (l ++ k) = drop_while p k.
Proof. induction 1 as [|x l Hx _ IH]; simpl; [done|]. by rewrite Hx. Qed.

Lemma take_while_app {A} (p : A -> bool) l k : Forall (fun x => p x = true) l -> take_while p (l ++ k) = l ++ take_while p k.
Proof. induction 1 as [|x l Hx _ IH]; simpl; [done|]. by rewrite Hx, IH. Qed.

(** A text whose first [char] is not whitespace. *)
Definition starts_dark (s : string) : Prop := match s with String a _ => is_whitespace (N_of_ascii a) = false | "" => False end.

Lemma trim_start_dark s : ascii_text s -> starts_dark s -> str_trim_start s = s.
Proof.
  intros Hs Hd. unfold str_trim_start, trim_start_chars. rewrite <- (of_chars_chars s Hs) at 2. f_equal.
  rewrite chars_bytes by done. destruct s as [|a s]; [done|]. simpl. simpl in Hd. by rewrite Hd.
Qed.

Lemma trim_start_space s : ascii_text s -> starts_dark s -> str_trim_start (String " " s) = s.
Proof.
  intros Hs Hd. rewrite <- (trim_start_dark s Hs Hd) at 2. unfold str_trim_start, trim_start_chars. done.
Qed.

Definition ends_dark (s : string) : Prop := exists t a, s = t +:+ String a "" /\ is_whitespace (N_of_ascii a) = false.

Lemma trim_dark s : ascii_text s -> starts_dark s -> ends_dark s -> str_trim s = s.
Proof.
  intros Hs Hd (t & a & E & Ha). unfold str_trim, trim_matches. rewrite <- (of_chars_chars s Hs) at 2. f_equal.
  assert (drop_while is_whitespace (chars s) = chars s) as ->.
  { rewrite chars_bytes by done. destruct s as [|b s]; [done|]. simpl. simpl in Hd. by rewrite Hd. }
  rewrite <- (rev_involutive (chars s)) at 2. f_equal. rewrite E in Hs |- *. apply ascii_text_app in Hs as [Ht Hl].
  rewrite chars_app by done. rewrite rev_app_distr. rewrite (chars_bytes (String a "")) by done. simpl. by rewrite Ha.
Qed.

Lemma trim_space s : ascii_text s -> starts_dark s -> ends_dark s -> str_trim (String " " s) = s.
Proof. intros Hs Hd He. rewrite <- (trim_dark s Hs Hd He) at 2. done. Qed.

(** ** Splitting *)

Definition no_byte (c : ascii) (s : string) : Prop := Forall (fun a => a ≠ c) (string_bytes s).

Lemma split_once_app c p x y : no_byte c x -> split_once (String c p) (x +:+ String c p +:+ y) = Some (x, y).
Proof.
  induction x as [|a x IH]; intros Hx.
  - change ("" +:+ String c p +:+ y) with (String c p +:+ y). destruct (String c p +:+ y) eqn:E; [done|].
    unfold split_once. fold split_once. rewrite <- E, strip_prefix_app. done.
  - apply Forall_cons in Hx as [Ha Hx]. change (String a x +:+ String c p +:+ y) with (String a (x +:+ String c p +:+ y)).
    cbn [split_once strip_prefix]. rewrite decide_False by (by intros ->). by rewrite IH.
Qed.

Lemma split_on_app c x y : no_byte c x -> split_on c (x +:+ String c y) = x :: split_on c y.
Proof.
  unfold split_on. induction x as [|a x IH]; intros Hx; simpl.
  - by rewrite bool_decide_eq_true_2.
  - apply Forall_cons in Hx as [Ha Hx]. rewrite bool_decide_eq_false_2 by congruence. by rewrite IH.
Qed.

Lemma split_on_none c x : no_byte c x -> split_on c x = [x].
Proof.
  unfold split_on. induction x as [|a x IH]; intros Hx; simpl; [done|].
  apply Forall_cons in Hx as [Ha Hx]. rewrite bool_decide_eq_false_2 by congruence. by rewrite IH.
Qed.

Lemma span_bytes_app p x a y :
  Forall (fun b => p b = true) (string_bytes x) -> p a = false -> span_bytes p (x +:+ String a y) = (x, String a y).
Proof.
  intros Hx Ha. induction x as [|b x IH]; simpl; [by rewrite Ha|]. apply Forall_cons in Hx as [Hb Hx].
  rewrite Hb. by rewrite IH.
Qed.

(** ** Digits and names *)

Lemma pretty_digits (n : N) : Forall (fun a => is_digit a = true) (string_bytes (pretty n)).
Proof.
  unfold pretty, pretty_N. case_decide; [repeat constructor|].
  assert (forall s, Forall (fun a => is_digit a = true) (string_bytes s) ->
    Forall (fun a => is_digit a = true) (string_bytes (pretty_N_go n s))) as Hgo; [|apply Hgo; constructor].
  induction (N.lt_wf_0 n) as [x _ IH]. intros s Hs. destruct (decide (x = 0%N)) as [->|Hx]; [by rewrite pretty_N_go_0|].
  rewrite pretty_N_go_step by lia. destruct (decide (x `div` 10 = 0)%N) as [E|Hd].
  - rewrite E, pretty_N_go_0. constructor; [|done]. by apply pretty_digit_char, N.mod_lt.
  - apply IH; [apply N.div_lt; lia|done|]. constructor; [|done]. by apply pretty_digit_char, N.mod_lt.
Qed.

(** A byte of a name, or of a number, is plain: ASCII, no space, no hyphen, no bracket and
    no comma. *)
Definition plain (a : ascii) : Prop :=
  (N_of_ascii a < 128)%N /\ is_whitespace (N_of_ascii a) = false /\ node_char (N_of_ascii a) = true /\
  a ≠ ","%char /\ a ≠ "]"%char.

Lemma name_byte_plain a : name_byte a = true -> plain a.
Proof. destruct a as [[] [] [] [] [] [] [] []]; intros E; try discriminate E; by split_and!. Qed.

Lemma is_digit_plain a : is_digit a = true -> plain a.
Proof. destruct a as [[] [] [] [] [] [] [] []]; intros E; try discriminate E; by split_and!. Qed.

Definition plain_text (s : string) : Prop := s ≠ "" /\ Forall plain (string_bytes s).

Lemma is_name_plain w : is_name w = true -> plain_text w.
Proof.
  destruct w as [|a w]; simpl; [done|]. intros [Ha Hw]%andb_true_iff. split; [done|]. constructor.
  - apply name_byte_plain. unfold name_byte. by rewrite Ha.
  - apply Forall_forall. intros b Hb. apply name_byte_plain. rewrite forallb_forall in Hw. by apply Hw, list_elem_of_In.
Qed.

Lemma pretty_plain (n : N) : plain_text (pretty n).
Proof.
  split; [by destruct (pretty_N_head n) as (a & s & -> & _)|].
  eapply Forall_impl; [apply pretty_digits|]. apply is_digit_plain.
Qed.

Lemma plain_ascii s : plain_text s -> ascii_text s.
Proof. intros [_ H]. eapply Forall_impl; [exact H|]. by intros a (? & _). Qed.

Lemma plain_starts s : plain_text s -> starts_dark s.
Proof. intros [Hne H]. destruct s as [|a s]; [done|]. apply Forall_cons in H as [(_ & Ha & _) _]. done. Qed.

Lemma string_snoc a s : exists t b, String a s = t +:+ String b "" /\ b ∈ string_bytes (String a s).
Proof.
  revert a. induction s as [|c s IH]; intros a; [exists "", a; split; [done|left]|].
  destruct (IH c) as (t & b & E & Hb). exists (String a t), b. split; [by rewrite E|by right].
Qed.

Lemma plain_ends x s : plain_text s -> ends_dark (x +:+ s).
Proof.
  intros [Hne H]. destruct s as [|a s]; [done|]. destruct (string_snoc a s) as (t & b & E & Hb).
  exists (x +:+ t), b. split; [by rewrite E, string_app_assoc|]. rewrite Forall_forall in H. by destruct (H b Hb) as (_ & ? & _).
Qed.

Lemma plain_no_byte c s : (c = ","%char \/ c = "]"%char) -> plain_text s -> no_byte c s.
Proof. intros Hc [_ H]. eapply Forall_impl; [exact H|]. intros a (_ & _ & _ & H1 & H2). destruct Hc; congruence. Qed.

(** ** Options *)

(** What an option's text is. *)
Record option_text (s : string) : Prop := {
  ot_ascii : ascii_text s;
  ot_starts : starts_dark s;
  ot_ends : ends_dark s;
  ot_comma : no_byte "," s;
  ot_bracket : no_byte "]" s }.

Lemma option_word s : forallb (fun a => name_byte a) (string_bytes s) = true -> s ≠ "" -> option_text s.
Proof.
  intros Hs Hne. assert (plain_text s) as Hp.
  { split; [done|]. apply Forall_forall. intros b Hb. apply name_byte_plain. rewrite forallb_forall in Hs. by apply Hs, list_elem_of_In. }
  split; [by apply plain_ascii|by apply plain_starts|by apply (plain_ends "")|by apply plain_no_byte; auto..].
Qed.

Lemma option_max_text (n : N) : option_text ("max " +:+ pretty n).
Proof.
  pose proof (pretty_plain n) as Hp. split.
  - apply ascii_text_app. split; [|by apply plain_ascii]. repeat constructor.
  - done.
  - by apply plain_ends.
  - unfold no_byte. rewrite string_bytes_app. apply Forall_app. split; [repeat constructor; discriminate|by apply plain_no_byte; auto].
  - unfold no_byte. rewrite string_bytes_app. apply Forall_app. split; [repeat constructor; discriminate|by apply plain_no_byte; auto].
Qed.

Lemma arrow_options_text a : Forall option_text (arrow_options a).
Proof.
  unfold arrow_options. rewrite !Forall_app. split_and!.
  - destruct (ar_when a) as [[]|]; [by apply Forall_singleton, option_word..|constructor].
  - destruct (ar_max a) as [n|]; [apply Forall_singleton, option_max_text|constructor].
  - destruct (ar_reset a); [by apply Forall_singleton, option_word|constructor].
  - destruct (ar_progress a); [by apply Forall_singleton, option_word|constructor].
Qed.

Lemma join_bytes (P : ascii -> Prop) sep l :
  Forall P (string_bytes sep) -> Forall (fun s => Forall P (string_bytes s)) l -> Forall P (string_bytes (Text.join sep l)).
Proof.
  intros Hs. induction 1 as [|x l Hx Hl IH]; simpl; [constructor|]. destruct l as [|y l]; [done|].
  rewrite !string_bytes_app, !Forall_app. by split_and!.
Qed.

Lemma option_text_full s : option_text s -> negb (str_is_empty s) = true.
Proof. intros [_ Hs _ _ _]. apply negb_true_iff, bool_decide_eq_false. by intros ->. Qed.

Definition option_items (s : string) : list string :=
  retain (fun item => negb (str_is_empty item)) (map str_trim (split_on ","%char s)).

Lemma option_items_join l : forall x, option_text x -> Forall option_text l ->
  option_items (String " " (Text.join ", " (x :: l))) = x :: l /\ option_items (Text.join ", " (x :: l)) = x :: l.
Proof.
  unfold option_items. induction l as [|y l IH]; intros x Hx Hl; pose proof (option_text_full x Hx) as Hf;
    destruct Hx as [H1 H2 H3 H4 H5].
  - cbn [Text.join]. rewrite !split_on_none; [|done|by constructor]. cbn [map]. rewrite trim_space, trim_dark by done.
    unfold retain. cbn [List.filter]. by rewrite Hf.
  - apply Forall_cons in Hl as [Hy Hl]. destruct (IH y Hy Hl) as [IH1 _].
    change (Text.join ", " (x :: y :: l)) with (x +:+ String "," (String " " (Text.join ", " (y :: l)))).
    change (String " " (x +:+ String "," (String " " (Text.join ", " (y :: l)))))
      with (String " " x +:+ String "," (String " " (Text.join ", " (y :: l)))).
    rewrite !split_on_app; [|done|by constructor]. cbn [map]. rewrite trim_space, trim_dark by done.
    unfold retain in *. cbn [List.filter]. by rewrite IH1, Hf.
Qed.

Lemma arrow_option_max from to w r p line (n : N) :
  (0 < n <= u32_max)%N ->
  arrow_option (mkArrow from to w None r p line) ("max " +:+ pretty n) = Good (mkArrow from to w (Some n) r p line).
Proof.
  intros Hn. unfold arrow_option. rewrite !bool_decide_eq_false_2 by discriminate. cbn [orb andb].
  assert (option_max ("max " +:+ pretty n) = Some (pretty n)) as ->.
  { pose proof (pretty_plain n) as Hp. unfold option_max. change ("max " +:+ pretty n) with ("max" +:+ String " " (pretty n)).
    rewrite strip_prefix_app. cbn [mbind option_bind]. cbn.
    by rewrite trim_dark; [|apply plain_ascii|apply plain_starts|apply (plain_ends "")]. }
  unfold parse_u32. rewrite parse_uint_pretty by lia. cbn [mbind option_bind].
  assert ((0 <? n)%N = true) as -> by (apply N.ltb_lt; lia). done.
Qed.

(** What an arrow that can be written is. *)
Record writable (a : Arrow) : Prop := {
  wr_from : is_name (ar_from a) = true;
  wr_to : is_name (ar_to a) = true;
  wr_max n : ar_max a = Some n -> (0 < n <= u32_max)%N }.

Definition on_line (a : Arrow) (line : N) : Arrow :=
  mkArrow (ar_from a) (ar_to a) (ar_when a) (ar_max a) (ar_reset a) (ar_progress a) line.

Lemma arrow_option_when from to max r p line v :
  arrow_option (mkArrow from to None max r p line) (verdict_name v) = Good (mkArrow from to (Some v) max r p line).
Proof. by destruct v. Qed.
Lemma arrow_option_reset from to w max p line :
  arrow_option (mkArrow from to w max false p line) "reset" = Good (mkArrow from to w max true p line).
Proof. done. Qed.
Lemma arrow_option_progress from to w max r line :
  arrow_option (mkArrow from to w max r false line) "progress" = Good (mkArrow from to w max r true line).
Proof. done. Qed.

Lemma arrow_options_read a line :
  writable a ->
  arrow_options_in (mkArrow (ar_from a) (ar_to a) None None false false line) (arrow_options a) = Good (on_line a line).
Proof.
  intros [_ _ Hm]. destruct a as [from to w max r p l]. unfold arrow_options, on_line. cbn [ar_from ar_to ar_when ar_max ar_reset ar_progress] in *.
  destruct max as [n|]; [specialize (Hm n eq_refl)|]; destruct w as [v|], r, p; cbn [app arrow_options_in];
    repeat first [rewrite arrow_option_when | rewrite arrow_option_max by done
                 | rewrite arrow_option_reset | rewrite arrow_option_progress | progress cbn [outcome_bind]]; reflexivity.
Qed.

(** ** Flows *)

Lemma plain_node s : plain_text s -> Forall (fun c => node_char c = true) (chars s).
Proof.
  intros Hs. rewrite chars_bytes by (by apply plain_ascii). apply Forall_map. destruct Hs as [_ H].
  eapply Forall_impl; [exact H|]. by intros a (_ & _ & ? & _).
Qed.

Lemma ascii_cons a s : (N_of_ascii a < 128)%N -> ascii_text s -> ascii_text (String a s).
Proof. by constructor. Qed.

(** One turn of the loop: a name, and what comes after it. *)
Lemma flow_turn fuel name after nodes options :
  is_name name = true -> ascii_text after -> (after = "" \/ exists rest, after = String " " rest) ->
  flow_loop (S fuel) (name +:+ after) nodes options =
    let rest := str_trim_start after in
    if str_is_empty rest then Good (nodes ++ [name], options)
    else match strip_prefix "->" rest with
         | Some after => flow_loop fuel after (nodes ++ [name]) (options ++ [None])
         | None =>
           match strip_prefix "-[" rest with
           | Some after =>
             let* '(inside, rest) := good_or (split_once "]->" after)
               "an arrow's options end with `]->`, as in `a -[fail, max 3]-> b`" in
             flow_loop fuel rest (nodes ++ [name]) (options ++ [Some inside])
           | None => Bad ("expected `->` or `-[…]->` after '" +:+ name +:+ "'")
           end
         end.
Proof.
  intros Hn Ha Hafter. pose proof (is_name_plain name Hn) as Hp. pose proof (plain_ascii name Hp) as Hna.
  assert (str_trim_start (name +:+ after) = name +:+ after) as Ht.
  { apply trim_start_dark; [by apply ascii_text_app|]. pose proof (plain_starts name Hp) as Hd. by destruct name. }
  cbn [flow_loop]. rewrite Ht, chars_app by done.
  assert (take_while node_char (chars name ++ chars after) = chars name /\
    drop_while node_char (chars name ++ chars after) = chars after) as [-> ->].
  { rewrite take_while_app, drop_while_app by (by apply plain_node).
    destruct Hafter as [->|[rest ->]]; [by rewrite app_nil_r|]. cbn. by rewrite app_nil_r. }
  rewrite !of_chars_chars by done. assert (str_is_empty name = false) as ->.
  { apply bool_decide_eq_false. by destruct Hp. }
  unfold stage_name. rewrite Hn. reflexivity.
Qed.

Lemma flow_end fuel name nodes options :
  is_name name = true -> flow_loop (S fuel) (String " " name) nodes options = Good (nodes ++ [name], options).
Proof.
  intros Hn. pose proof (is_name_plain name Hn) as Hp. pose proof (plain_ascii name Hp) as Ha.
  transitivity (flow_loop (S fuel) (name +:+ "") nodes options); [|by rewrite flow_turn; [|done|apply Forall_nil_2|by left]].
  rewrite string_app_nil. cbn [flow_loop].
  by rewrite (trim_start_space name), (trim_start_dark name) by (done || by apply plain_starts).
Qed.

Lemma split_once_is_Some p x y : is_Some (split_once p (x +:+ p +:+ y)).
Proof.
  induction x as [|a x IH].
  - change ("" +:+ p +:+ y) with (p +:+ y). destruct (p +:+ y) as [|b s] eqn:E; unfold split_once; fold split_once;
      rewrite <- E, strip_prefix_app; by eexists.
  - change (String a x +:+ p +:+ y) with (String a (x +:+ p +:+ y)). cbn [split_once].
    destruct (strip_prefix p (String a (x +:+ p +:+ y))); [by eexists|]. destruct IH as [[u v] ->]. by eexists.
Qed.

(** A flow line is none of the other lines. *)
Lemma flow_is_no_definition name rest :
  is_name name = true -> ascii_text rest -> definition (name +:+ String " " (String "-" rest)) = None.
Proof.
  intros Hn Hr. unfold definition. rewrite span_bytes_app; [| |done].
  - rewrite trim_start_space; [done|by apply ascii_cons|done].
  - destruct name as [|a name]; [done|]. simpl in Hn |- *. apply andb_true_iff in Hn as [Ha Hw]. constructor.
    + unfold name_byte. by rewrite Ha.
    + apply Forall_forall. intros b Hb. rewrite forallb_forall in Hw. by apply Hw, list_elem_of_In.
Qed.

Lemma ascii_join l : Forall option_text l -> ascii_text (Text.join ", " l).
Proof.
  intros Hl. apply join_bytes; [repeat constructor|]. eapply Forall_impl; [exact Hl|]. by intros s [? _ _ _ _].
Qed.

Lemma no_bracket_join l : Forall option_text l -> no_byte "]" (Text.join ", " l).
Proof.
  intros Hl. apply join_bytes; [repeat constructor; discriminate|]. eapply Forall_impl; [exact Hl|]. by intros s [_ _ _ _ ?].
Qed.

(** The loop on a rendered arrow. *)
Lemma flow_loop_render a fuel :
  writable a ->
  flow_loop (S (S fuel)) (arrow_render a) [] [] =
    Good ([ar_from a; ar_to a],
      [if decide (arrow_options a = []) then None else Some (Text.join ", " (arrow_options a))]).
Proof.
  intros [Hf Ht Hm]. pose proof (plain_ascii _ (is_name_plain _ Ht)) as Hta. unfold arrow_render.
  pose proof (arrow_options_text a) as Ho. case_decide as E.
  - rewrite flow_turn; [|done|repeat (apply ascii_cons; [done|]); done|right; by eexists]. cbv zeta.
    change (" -> " +:+ ar_to a) with (String " " ("-> " +:+ ar_to a)).
    rewrite trim_start_space; [|repeat (apply ascii_cons; [done|]); done|done]. change (str_is_empty ("-> " +:+ ar_to a)) with false.
    change ("-> " +:+ ar_to a) with ("->" +:+ String " " (ar_to a)). cbv iota. rewrite strip_prefix_app. by rewrite flow_end.
  - rewrite flow_turn; [|done| |right; by eexists].
    2: { repeat (apply ascii_cons; [done|]). apply ascii_text_app. split; [by apply ascii_join|].
         repeat (apply ascii_cons; [done|]). done. }
    cbv zeta. change (" -[" +:+ Text.join ", " (arrow_options a) +:+ "]-> " +:+ ar_to a)
      with (String " " ("-[" +:+ Text.join ", " (arrow_options a) +:+ "]-> " +:+ ar_to a)).
    rewrite trim_start_space; [| |done].
    2: { repeat (apply ascii_cons; [done|]). apply ascii_text_app. split; [by apply ascii_join|].
         repeat (apply ascii_cons; [done|]). done. }
    set (inside := Text.join ", " (arrow_options a)) in *.
    change (str_is_empty ("-[" +:+ inside +:+ "]-> " +:+ ar_to a)) with false.
    change (strip_prefix "->" ("-[" +:+ inside +:+ "]-> " +:+ ar_to a)) with (@None string). cbv iota.
    rewrite strip_prefix_app. change ("]-> " +:+ ar_to a) with ("]->" +:+ String " " (ar_to a)).
    rewrite (split_once_app "]" "->"); [|by apply no_bracket_join]. cbn [good_or outcome_bind]. by rewrite flow_end.
Qed.

Lemma read_line_render a line :
  writable a -> read_line (arrow_render a) line = Good (LFlow [ar_from a; ar_to a] [on_line a line]).
Proof.
  intros Hw. pose proof Hw as [Hf Ht Hm]. unfold read_line.
  assert (definition (arrow_render a) = None) as ->.
  { pose proof (plain_ascii _ (is_name_plain _ Ht)) as Hta. pose proof (arrow_options_text a) as Ho.
    unfold arrow_render. case_decide.
    - apply (flow_is_no_definition (ar_from a) ("> " +:+ ar_to a)); [done|repeat (apply ascii_cons; [done|]); done].
    - apply (flow_is_no_definition (ar_from a) ("[" +:+ Text.join ", " (arrow_options a) +:+ "]-> " +:+ ar_to a)); [done|].
      apply ascii_cons; [done|]. apply ascii_text_app. split; [by apply ascii_join|]. repeat (apply ascii_cons; [done|]). done. }
  assert (str_contains "->" (arrow_render a) = true) as ->.
  { apply bool_decide_eq_true. unfold arrow_render. case_decide.
    - pose proof (split_once_is_Some "->" (ar_from a +:+ " ") (" " +:+ ar_to a)) as Hs. by rewrite <- string_app_assoc in Hs.
    - pose proof (split_once_is_Some "->" (ar_from a +:+ " -[" +:+ Text.join ", " (arrow_options a) +:+ "]") (" " +:+ ar_to a)) as Hs.
      by rewrite <- !string_app_assoc in Hs. }
  assert (exists fuel, String.length (arrow_render a) = S fuel) as [fuel Hl].
  { unfold arrow_render. destruct (ar_from a) as [|b s]; [done|]. case_decide; by eexists. }
  unfold flow. rewrite Hl, flow_loop_render by done. cbn [outcome_bind flow_arrows].
  assert (read_arrow (ar_from a) (ar_to a)
    (default "" (if decide (arrow_options a = []) then None else Some (Text.join ", " (arrow_options a)))) line =
    Good (on_line a line)) as ->; [|done].
  rewrite <- (arrow_options_read a line Hw). unfold read_arrow. fold (option_items (default "" (if decide (arrow_options a = []) then None else Some (Text.join ", " (arrow_options a))))).
  f_equal. case_decide as E; [by rewrite E|]. cbn [from_option]. unfold id. pose proof (arrow_options_text a) as Ho.
  destruct (arrow_options a) as [|x l]; [done|]. apply Forall_cons in Ho as [Hx Ho]. by destruct (option_items_join l x Hx Ho) as [_ ->].
Qed.

(** ** Every arrow that is parsed can be written *)

Lemma stage_name_Good word what name : stage_name word what = Good name -> is_name name = true.
Proof. unfold stage_name. destruct (is_name word) eqn:E; [|done]. by intros [= <-]. Qed.

Lemma flow_loop_names fuel rest nodes options nodes' options' :
  flow_loop fuel rest nodes options = Good (nodes', options') ->
  Forall (fun n => is_name n = true) nodes -> Forall (fun n => is_name n = true) nodes'.
Proof.
  revert rest nodes options. induction fuel as [|fuel IH]; intros rest nodes options; cbn [flow_loop]; [done|].
  destruct (str_is_empty _); [done|]. destruct (stage_name _ _) as [name| |] eqn:En; cbn [outcome_bind]; try done.
  apply stage_name_Good in En. intros H Hn.
  assert (Forall (fun n => is_name n = true) (nodes ++ [name])) as Hn' by (apply Forall_app; split; [done|by apply Forall_singleton]).
  destruct (str_is_empty _); [by injection H as <- _|]. destruct (strip_prefix "->" _); [by eapply IH|].
  destruct (strip_prefix "-[" _) as [after|]; [|done]. destruct (split_once "]->" after) as [[inside rest']|]; [|done].
  cbn [good_or outcome_bind] in H. by eapply IH.
Qed.

Lemma arrow_option_ends a item a' :
  arrow_option a item = Good a' ->
  ar_from a' = ar_from a /\ ar_to a' = ar_to a /\ (forall n, ar_max a' = Some n -> ar_max a = Some n \/ (0 < n <= u32_max)%N).
Proof.
  destruct a as [from to w max r p l]. unfold arrow_option.
  repeat match goal with |- (if ?b then _ else _) = _ -> _ => destruct b end;
    try (intros [= <-]; simpl; split_and!; auto; fail).
  destruct (option_max item) as [text|]; [|done]. destruct (bool_decide (max = None)); [|done].
  destruct (parse_u32 text) as [n|] eqn:E; [|done]. cbn [mbind option_bind].
  destruct (0 <? n)%N eqn:E0; [|done]. cbn [good_or outcome_bind]. intros [= <-]. simpl. split_and!; try done.
  intros k [= ->]. right. apply N.ltb_lt in E0. split; [done|].
  unfold parse_u32, parse_uint in E. destruct (default text _); [done|].
  destruct (parse_digits 0 _) as [k'|]; [|done]. cbn [mbind option_bind] in E. destruct (k' <=? u32_max)%N eqn:El; [|done].
  injection E as ->. by apply N.leb_le in El.
Qed.

Lemma read_arrow_writable from to options number a :
  is_name from = true -> is_name to = true -> read_arrow from to options number = Good a -> writable a.
Proof.
  intros Hf Ht. unfold read_arrow.
  assert (forall items a0, writable a0 -> arrow_options_in a0 items = Good a -> writable a) as H.
  { induction items as [|item items IH]; intros a0 [H1 H2 H3]; cbn [arrow_options_in]; [by intros [= <-]|].
    destruct (arrow_option a0 item) as [a1| |] eqn:E; cbn [outcome_bind]; try done.
    apply arrow_option_ends in E as (E1 & E2 & E3). apply IH. split; [by rewrite E1|by rewrite E2|].
    intros n [Hn|Hn]%E3; auto. }
  apply H. by split.
Qed.

Lemma flow_arrows_writable nodes options number arrows :
  Forall (fun n => is_name n = true) nodes -> flow_arrows nodes options number = Good arrows -> Forall writable arrows.
Proof.
  intros Hn. revert options arrows. induction Hn as [|from nodes Hf Hn IH]; intros options arrows; cbn [flow_arrows]; [by intros [= <-]|].
  destruct nodes as [|to nodes]; [by intros [= <-]|]. destruct options as [|o options]; [by intros [= <-]|].
  destruct (read_arrow from to (default "" o) number) as [a| |] eqn:E; cbn [outcome_bind]; try done.
  destruct (flow_arrows (to :: nodes) options number) as [rest| |] eqn:Er; cbn [outcome_bind]; try done. intros [= <-].
  constructor; [|by eapply IH]. eapply read_arrow_writable; [done| |exact E]. by apply Forall_cons in Hn as [? _].
Qed.

Lemma definition_name line name body : definition line = Some (name, body) -> is_name name = true.
Proof.
  unfold definition. destruct (span_bytes name_byte line) as [n rest]. intros (b & _ & H)%bind_Some.
  destruct (is_name n) eqn:E; [|done]. by injection H as <- _.
Qed.

(** What a line gives: stages with names, arrows that can be written. *)
Definition line_ok (line : Line) : Prop :=
  match line with
  | LStage s => is_name (st_name s) = true
  | LFlow _ arrows => Forall writable arrows
  | LBudget _ => True
  end.

Lemma placed_at_name stage key value b stage' :
  placed_at stage key value = Good (b, stage') -> st_name stage' = st_name stage.
Proof.
  unfold placed_at. repeat match goal with |- (if ?b then _ else _) = _ -> _ => destruct b end; try (by intros [= _ <-]); try done.
  destruct (duration value); try done. by intros [= _ <-].
Qed.

Lemma agent_words_name seen agent stage words agent' stage' :
  agent_words seen agent stage words = Good (agent', stage') -> st_name stage' = st_name stage.
Proof.
  remember (length words) as n eqn:Hn. assert (length words <= n) as Hle by lia. clear Hn.
  revert seen agent stage words Hle. induction n as [|n IH]; intros seen agent stage [|word words] Hle; cbn [agent_words];
    simpl in Hle; try lia; try (by intros [= _ <-]).
  destruct (contains seen _); [done|].
  repeat match goal with
         | |- (if ?b then _ else _) = _ -> _ => destruct b
         | |- match ?l with [] => _ | _ :: _ => _ end = _ -> _ => destruct l
         | |- match ?o with Some _ => _ | None => _ end = _ -> _ => destruct o
         | |- outcome_bind (stage_name ?w ?t) _ = _ -> _ => destruct (stage_name w t); cbn [outcome_bind]
         end; simpl in Hle; try done; try (apply IH; lia).
  destruct (placed_at stage word s) as [[b stage1]| |] eqn:E; cbn [outcome_bind]; try done.
  intros H. rewrite <- (placed_at_name _ _ _ _ _ E). eapply IH; [|exact H]. lia.
Qed.

Lemma only_placement_name stage rest what stage' :
  only_placement stage rest what = Good stage' -> st_name stage' = st_name stage.
Proof.
  unfold only_placement. generalize (split_whitespace rest). intros words.
  remember (length words) as n eqn:Hn. assert (length words <= n) as Hle by lia. clear Hn.
  revert stage words Hle. induction n as [|n IH]; intros stage [|key [|value words]] Hle; cbn [placement_pairs];
    simpl in Hle; try lia; try done; try (by intros [= <-]).
  destruct (placed_at stage key value) as [[[] stage1]| |] eqn:E; cbn [outcome_bind]; try done.
  intros H. rewrite <- (placed_at_name _ _ _ _ _ E). eapply IH; [|exact H]. lia.
Qed.

Lemma run_placements_name stage backwards rest stage' :
  run_placements stage backwards = Good (rest, stage') -> st_name stage' = st_name stage.
Proof.
  remember (length backwards) as n eqn:Hn. assert (length backwards <= n) as Hle by lia. clear Hn.
  revert stage backwards Hle. induction n as [|n IH]; intros stage [|[at1 value] [|[at2 key] words]] Hle; cbn [run_placements];
    simpl in Hle; try lia; try (by intros [= _ <-]).
  destruct (_ || _); [|by intros [= _ <-]].
  destruct (placed_at stage key value) as [[[] stage1]| |] eqn:E; cbn [outcome_bind]; try done.
  - intros H. rewrite <- (placed_at_name _ _ _ _ _ E). eapply IH; [|exact H]. lia.
  - intros [= _ <-]. by apply placed_at_name in E.
Qed.

Lemma read_stage_name name body number s : read_stage name body number = Good s -> st_name s = name.
Proof.
  unfold read_stage. cbv zeta. destruct (text_words body) as [|[at1 first] rest]; [done|].
  destruct (decide (first = "run")).
  { destruct (run_placements _ _) as [[b s1]| |] eqn:E; cbn [outcome_bind]; try done. destruct (str_is_empty _); [done|].
    intros [= <-]. by apply run_placements_name in E. }
  destruct (decide (first = "ask")).
  { destruct (x ← _; _) as [[q r]|]; [|done]. destruct (only_placement _ _ _) as [s1| |] eqn:E; cbn [outcome_bind]; try done.
    intros [= <-]. by apply only_placement_name in E. }
  destruct (decide (first = "merge")).
  { destruct rest as [|[at2 into] rest]; [done|]. destruct (decide (into = "main")); [done|].
    destruct (stage_name _ _) as [merged| |]; cbn [outcome_bind]; try done.
    destruct (only_placement _ _ _) as [s1| |] eqn:E; cbn [outcome_bind]; try done. intros [= <-]. by apply only_placement_name in E. }
  destruct (read_agent _ _ _) as [[a s1]| |] eqn:E; cbn [outcome_bind]; try done. intros [= <-].
  unfold read_agent in E. destruct (split_once ":" first) as [[tool effort]|]; cbv zeta beta iota in E;
    (destruct (negb _); [done|]); (destruct (_ ≫= _); [done|]); by apply agent_words_name in E.
Qed.

Lemma read_line_ok line number found : read_line line number = Good found -> line_ok found.
Proof.
  unfold read_line. destruct (definition line) as [[name body]|] eqn:Ed.
  - apply definition_name in Ed. destruct (decide (name = "budget")).
    { destruct (read_budget _ _); cbn [outcome_bind]; try done. by intros [= <-]. }
    destruct (decide (name = DONE)); [done|]. destruct (read_stage name body number) as [s| |] eqn:E; cbn [outcome_bind]; try done.
    intros [= <-]. simpl. by rewrite (read_stage_name _ _ _ _ E).
  - destruct (str_contains "->" line); [|by destruct (split_once "=" line) as [[]|]].
    unfold flow. destruct (flow_loop _ _ _ _) as [[nodes options]| |] eqn:E; cbn [outcome_bind]; try done.
    destruct (flow_arrows _ _ _) as [arrows| |] eqn:Ea; cbn [outcome_bind]; try done. intros [= <-]. simpl.
    eapply flow_arrows_writable; [|exact Ea]. by eapply flow_loop_names; [exact E|constructor].
Qed.

Lemma read_from_ok number raws lines errors : read_from number raws = Some (lines, errors) -> Forall line_ok lines.
Proof.
  revert number lines errors. induction raws as [|raw raws IH]; intros number lines errors; cbn [read_from]; [by intros [= <- _]|].
  destruct (str_is_empty _); [apply IH|]. destruct (read_line _ _) as [found| |] eqn:E; [| |done];
    intros ([lines' errors'] & Hr & [= <- _])%bind_Some; apply IH in Hr; [|done]. constructor; [by eapply read_line_ok|done].
Qed.

Lemma parse_lines_ok lines s :
  Forall line_ok lines -> Forall writable (pa_arrows s) -> Forall (fun x => is_name (st_name x) = true) (pa_stages s) ->
  Forall writable (pa_arrows (foldl parse_line s lines)) /\
  Forall (fun x => is_name (st_name x) = true) (pa_stages (foldl parse_line s lines)).
Proof.
  intros Hl. revert s. induction Hl as [|line lines Hline Hl IH]; intros s Ha Hs; simpl; [done|].
  apply IH; destruct s as [stages arrows budget start errors], line as [st|nodes found|b]; simpl in *;
    try (destruct (List.find _ _)); try (destruct budget); simpl; try done; apply Forall_app; split; try done; by apply Forall_singleton.
Qed.

Lemma parse_writable text p : parse text = Good p -> Forall writable (pl_arrows p).
Proof.
  unfold parse. destruct (read text) as [[lines errors]|] eqn:E; [|done]. apply read_from_ok in E.
  destruct (parse_lines_ok lines (mkParsing [] [] None None errors) E) as [Ha Hs]; [constructor..|].
  set (s := foldl parse_line _ lines) in *. cbv zeta. destruct (parse_start (lone_flow s)) as [start errs].
  case_decide; [|done]. intros [= <-]. simpl. unfold lone_flow.
  destruct (pa_arrows s) eqn:Ea; [|by rewrite <- Ea in Ha]. destruct (pa_stages s) as [|only [|]] eqn:Es; rewrite ?Ea; try done.
  simpl. apply Forall_singleton. split; [|done|done]. simpl. by apply Forall_cons in Hs as [? _].
Qed.
