(* ===== verification/PipeTheorems.v ===== *)
(** * Pipelines: what the parser, the checks and the walk show

    The theorems on Kojo pipelines, with a small pipeline on which they are seen to apply. *)

From S2P Require Import Prelude Text Pipe PipeParse PipeWalk PipeCheck PipeFacts PipeWalkFacts.
From S2P Require Import PipeRevise PipeText.
From stdpp Require Import relations.

(** ** A pipeline *)

Definition sample_kojo : string :=
  Text.join newline ["budget = 6 sessions, 8h"; "b = claude"; "c = run make # exit 0 passes"; "r = claude verdict"; "b -> c";
    "c -[fail, max 2, progress]-> b"; "c -> r"; "r -[fail, max 1]-> b"; "r -[pass]-> done"].
Definition no_pipeline : Pipeline := mkPipeline [] [] None "" "".
Definition sample_pipeline : Pipeline := match parse sample_kojo with Good p => p | _ => no_pipeline end.
Definition sample_context : Context :=
  mkContext (<["b" := "build it"]> (<["r" := "review {{b.answer}}"]> ∅)) None [] [] ∅.
Definition sample_taken : list N := replicate 5 0%N.

Example sample_loads : load sample_kojo sample_context = Some (Good sample_pipeline).
Proof. by vm_compute. Qed.
Example sample_worst : max_sessions sample_pipeline ∅ = Some (Good 6%N).
Proof. by vm_compute. Qed.

Lemma sample_checked : check sample_pipeline sample_context = Some (Good tt).
Proof. by vm_compute. Qed.

Definition no_stage : Stage := mkStage "" 0 (KRun "") None None.
Definition first_stage : Stage := default no_stage (pipeline_stage sample_pipeline "b").
Definition first_arrow_of : Arrow := default (mkArrow "" "" None None false false 0) (head (pl_arrows sample_pipeline)).

(** Its first step: [b] is built, then checked. *)
Lemma sample_step : pipe_step sample_pipeline ("b", sample_taken) ("c", [1; 0; 0; 0; 0]%N).
Proof.
  apply (take_step sample_pipeline "b" first_stage sample_taken None false 0 first_arrow_of 0%N);
    [by vm_compute|by vm_compute|done|done].
Qed.

(** ** The check *)

(** Checking a pipeline always ends, for any pipeline: the visits of [loops], and the
    walk for the budget where it is made, run out of stages and of [max]es. *)
Theorem check_ends p cx : is_Some (check p cx).
Proof. apply check_total. Qed.

(** [loops] is exact: where it finds nothing, no stage is on a loop of arrows without a
    [max]; where it reports a line, there is such a loop. *)
Theorem loops_exact p :
  (loop_line p = None -> forall s, s ∈ pl_stages p -> ¬ tc (free p) (st_name s) (st_name s)) /\
  (forall line, loop_line p = Some line -> exists x, tc (free p) x x).
Proof.
  split; [|apply loop_line_Some]. intros (order & Ht & Hall & _)%loop_line_None s Hs Hc.
  destruct (topo_tc p order _ _ Ht (Hall s Hs) Hc). lia.
Qed.

(** [reachable] is exact: the stages it gives are those that arrows lead to from the
    start without passing the stage to avoid. *)
Theorem reachable_exact p avoid x : x ∈ stages_reached p avoid <-> reaches p avoid x.
Proof. apply stages_reached_spec. Qed.

(** A stage that [runs_before] says runs before another is on every trail of arrows that
    leads to it from the start. *)
Theorem runs_before_dominates p first then_ l :
  runs_before p first then_ = true -> trail p (pl_start p) l then_ -> first ∈ l.
Proof. apply runs_before_trail. Qed.

Lemma runs_before_dominates_witness : runs_before sample_pipeline "b" "r" = true /\ "b" ∈ ["b"; "c"; "r"].
Proof.
  split; [vm_compute; reflexivity|]. apply (runs_before_dominates sample_pipeline "b" "r" ["b"; "c"; "r"]);
    [vm_compute; reflexivity|].
  apply trail_on with (y := "c"); [discriminate|apply (bool_decide_unpack _); vm_compute; exact I|].
  apply trail_on with (y := "r"); [discriminate|apply (bool_decide_unpack _); vm_compute; exact I|]. constructor.
Defined.

(** C21 A pipeline that starts at a stage and passes the check is sound: every arrow leaves a stage and leads to a
    stage or to done, a verdict is asked only of a stage that gives one, progress only of a
    run stage, a reset leads to an agent; every stage and done are reached from the start;
    what a stage takes its parts from, and what its prompt names, is on every trail to it. *)
Theorem checked_sound p cx :
  check p cx = Some (Good tt) -> is_Some (stage_map p (pl_start p)) ->
  Forall (sound_arrow p) (pl_arrows p) /\ (forall s, s ∈ pl_stages p -> reaches p None (st_name s)) /\ reaches p None DONE /\
  forall s agent, s ∈ pl_stages p -> stage_agent s = Some agent ->
    (forall each l, ag_each agent = Some each -> trail p (pl_start p) l (st_name s) -> out_stage each ∈ l) /\
    exists text, cx_prompts cx !! default "" (stage_prompt s) = Some text /\
      forall from key l, (from, key) ∈ placeholders text -> trail p (pl_start p) l (st_name s) -> from ∈ l.
Proof.
  intros (He & _)%check_Good Hs. apply check_errors_nil in He as (Ha & Hr & _ & Href).
  destruct (check_reach_nil p Hr Hs) as [Hall Hdone]. split_and!; [|done|done|].
  - apply Forall_forall. intros a Hin. apply check_arrow_nil. by apply (flat_map_nil _ _ a) in Ha.
  - intros s agent Hin Hag. destruct (Href s Hin) as [Hrf _].
    destruct (check_references_nil p cx s agent Hrf Hag) as [Heach (text & Ht & Hph)]. split.
    + intros each l E Htr. eapply runs_before_trail; [by apply Heach|done].
    + exists text. split; [done|]. intros from key l Hin' Htr. eapply runs_before_trail; [by eapply Hph|done].
Qed.

Lemma checked_sound_witness :
  check sample_pipeline sample_context = Some (Good tt) /\ Forall (sound_arrow sample_pipeline) (pl_arrows sample_pipeline).
Proof.
  split; [vm_compute; reflexivity|].
  apply (checked_sound sample_pipeline sample_context); [vm_compute; reflexivity|vm_compute; eexists; reflexivity].
Defined.

(** ** Runs *)

(** C18 A run of a checked pipeline ends: from any counts, whatever the verdicts and whether
    its stages stall, it takes fewer steps than the walk has fuel, which the [max]es and the
    number of names bound. *)
Theorem checked_runs_end p cx n c c' :
  check p cx = Some (Good tt) -> nsteps (pipe_step p) n c c' -> n < walk_fuel p.
Proof. apply checked_steps. Qed.

Lemma checked_runs_end_witness :
  check sample_pipeline sample_context = Some (Good tt) /\
  nsteps (pipe_step sample_pipeline) 1 ("b", sample_taken) ("c", [1; 0; 0; 0; 0]%N) /\ 1 < walk_fuel sample_pipeline.
Proof.
  split; [vm_compute; reflexivity|]. split; [apply nsteps_once, sample_step|].
  apply (checked_runs_end sample_pipeline sample_context 1 ("b", sample_taken) ("c", [1; 0; 0; 0; 0]%N));
    [vm_compute; reflexivity|apply nsteps_once, sample_step].
Defined.

(** No run takes an arrow more often than its [max] allows: the counts of a run that
    starts within the [max]es stay within them. *)
Theorem runs_within_max p c c' :
  (forall i a n max, pl_arrows p !! i = Some a -> ar_max a = Some max -> c.2 !! i = Some n -> (n <= max)%N) ->
  rtc (pipe_step p) c c' ->
  forall i a n max, pl_arrows p !! i = Some a -> ar_max a = Some max -> c'.2 !! i = Some n -> (n <= max)%N.
Proof.
  intros Hc Hr. induction Hr as [c|c1 c2 c3 Hs Hr IH]; [done|]. apply IH. clear Hr IH.
  destruct Hs as [s here taken verdict stalled j b m Hst Hp Hd Hm]. simpl in *. intros i a n max Ha Hmax.
  destruct (decide (i = j)) as [->|Hne]; [|rewrite list_lookup_insert_ne by done; by eapply Hc].
  rewrite list_lookup_insert_eq by (by eapply lookup_lt_Some). intros [= <-].
  destruct (pick_Some _ _ _ _ _ _ _ Hp) as [Hb He]. simplify_eq. apply eligible_true in He as (_ & _ & _ & Hlt).
  specialize (Hlt max Hmax). rewrite Hm in Hlt. simpl in Hlt. lia.
Qed.

Lemma runs_within_max_witness :
  rtc (pipe_step sample_pipeline) ("b", sample_taken) ("c", [1; 0; 0; 0; 0]%N) /\
  forall i a n max, pl_arrows sample_pipeline !! i = Some a -> ar_max a = Some max ->
    [1; 0; 0; 0; 0]%N !! i = Some n -> (n <= max)%N.
Proof.
  split; [apply rtc_once, sample_step|].
  apply (runs_within_max sample_pipeline ("b", sample_taken) ("c", [1; 0; 0; 0; 0]%N)).
  - intros i a n max _ _ Hn. apply lookup_replicate in Hn as [-> _]. lia.
  - apply rtc_once, sample_step.
Defined.

(** C19 The worst case is exact: where the walk gives a number, no run from the start costs
    more, whatever its stages conclude and whether they stall, and one costs as much; the results it
    keeps by stage and counts do not change the answer. *)
Theorem worst_exact p cost n :
  worst p cost = Some (Good n) -> dearest p cost (pl_start p) (replicate (length (pl_arrows p)) 0%N) n.
Proof. apply worst_right. Qed.

Lemma worst_exact_witness :
  worst sample_pipeline (stage_sessions ∅) = Some (Good 6%N) /\
  dearest sample_pipeline (stage_sessions ∅) (pl_start sample_pipeline)
    (replicate (length (pl_arrows sample_pipeline)) 0%N) 6.
Proof.
  split; [vm_compute; reflexivity|]. apply (worst_exact sample_pipeline (stage_sessions ∅) 6). vm_compute; reflexivity.
Defined.


Definition sample_budget : Budget := mkBudget (Some 6%N) (Some 28800%N) 1.


(** ** Revisions *)

(** An edited pipeline carries each count once: an arrow carries on the count of an old
    arrow that is the same but for its line, no two arrows carry on the same one's, and an
    arrow that carries none starts from 0. *)
Theorem edited_carries_once current text cx r :
  edited current text cx = Some (Good r) ->
  length (rev_carried r) = length (pl_arrows (rev_pipeline r)) /\
  (forall k i, rev_carried r !! k = Some (Some i) ->
     exists a b, pl_arrows (rev_pipeline r) !! k = Some a /\ pl_arrows current !! i = Some b /\ arrow_same b a = true) /\
  (forall k k' i, rev_carried r !! k = Some (Some i) -> rev_carried r !! k' = Some (Some i) -> k = k') /\
  (forall before k, revision_taken r before !! k =
     match rev_carried r !! k with Some (Some i) => Some (default 0%N (before !! i)) | Some None => Some 0%N | None => None end).
Proof.
  unfold edited. destruct (load text cx) as [[p| |]|]; simpl; try done. intros [= <-]. simpl. split_and!.
  - apply carry_arrows_length.
  - intros k i Hk. by apply carry_arrows_spec in Hk as [_ ?].
  - intros k k' i. apply carry_arrows_once.
  - intros before k. unfold revision_taken. simpl. rewrite list_lookup_fmap.
    by destruct (carry_arrows _ _ _ !! k) as [[i|]|].
Qed.

Definition edited_kojo : string :=
  Text.join newline ["budget = 9 sessions, 8h"; "b = claude"; "c = run make"; "r = claude verdict"; "b -> c"; "r -[pass]-> done";
    "c -[fail, max 3, progress]-> b"; "c -> r"; "r -[fail, max 1]-> b"].
Definition sample_revision : Revision :=
  match edited sample_pipeline edited_kojo sample_context with Some (Good r) => r | _ => mkRevision no_pipeline [] end.

(** The loop's new [max] starts anew; the others are carried on, wherever they moved. *)
Example sample_revision_carries : rev_carried sample_revision = [Some 0; Some 4; None; Some 2; Some 3].
Proof. by vm_compute. Qed.

Lemma edited_carries_once_witness :
  edited sample_pipeline edited_kojo sample_context = Some (Good sample_revision) /\
  length (rev_carried sample_revision) = length (pl_arrows (rev_pipeline sample_revision)).
Proof.
  split; [vm_compute; reflexivity|].
  apply (edited_carries_once sample_pipeline edited_kojo sample_context sample_revision). vm_compute; reflexivity.
Defined.

(** ** Text *)

(** Every arrow of a parsed pipeline survives being written and read: its rendered text
    is a flow line that parses to the two stages and to the same arrow, on the line it is
    read from. *)
Theorem arrow_roundtrip text p a line :
  parse text = Good p -> a ∈ pl_arrows p ->
  read_line (arrow_render a) line = Good (LFlow [ar_from a; ar_to a] [on_line a line]).
Proof.
  intros Hp Ha. apply read_line_render. pose proof (parse_writable _ _ Hp) as Hw.
  rewrite Forall_forall in Hw. auto.
Qed.

Lemma arrow_roundtrip_witness :
  parse sample_kojo = Good sample_pipeline /\
  read_line (arrow_render first_arrow_of) 7 =
    Good (LFlow [ar_from first_arrow_of; ar_to first_arrow_of] [on_line first_arrow_of 7]).
Proof.
  split; [vm_compute; reflexivity|]. apply (arrow_roundtrip sample_kojo sample_pipeline first_arrow_of 7);
    [vm_compute; reflexivity|]. apply (bool_decide_unpack _). vm_compute. exact I.
Defined.

(** ** Findings *)

(** A pipeline whose emitter comes second in the first flow line. *)
Definition second_kojo : string := Text.join newline ["a = run make"; "plan = claude emits"; "a -> plan -> done"].
Definition second_pipeline : Pipeline := match parse second_kojo with Good p => p | _ => no_pipeline end.
Definition second_context : Context := mkContext (<["plan" := "plan it"]> ∅) None [] [] ∅.
Definition second_block : string := Text.join newline ["x = run lint"; "plan -> x -> done"].

(** A block emitted by a stage that is not the first of its flow line is refused, though
    the pipeline and the block are sound: the emitter's arrow goes above the line that names
    the start, so the revision starts at the emitter, and the stage before it is never
    reached. *)
Theorem emitted_moves_start :
  check second_pipeline second_context = Some (Good tt) /\
  exists message, emitted second_pipeline "plan" second_block second_context = Some (Bad [mkPipeError 1 RUnreachable message]).
Proof. split; [by vm_compute|]. eexists. vm_compute. reflexivity. Qed.

(** A duration past [u64] seconds is not refused but overflows. *)
Theorem duration_overflows : duration "9999999999999999999h" = Crash /\ parse_u64 "9999999999999999999" ≠ None.
Proof. split; [by vm_compute|]. by vm_compute. Qed.
