(* ===== verification/Runs.v ===== *)
(** * What a run keeps and decides: [crates/kanna-daemon/src/runs.rs]

    A run of a pipeline keeps a [Doc], saved as JSON: the counts of the arrows it took, the
    sessions it has used, the failures each stage last showed, the answers it was given.
    [run_decide] takes the next arrow with [kanna-pipe]'s [pick]; [over_budget] says when a
    stage may not begin. *)

From S2P Require Import Prelude Text F64 Json Pipe.
From Stdlib Require Import Ascii.

Definition FEEDBACK_LINES : nat := 80.
Definition FEEDBACK_CHARS : nat := 8000.
Definition FAILURE_MARKS : list string := ["FAILED"; "error["; "panic"; of_chars [10007%N]; "failed"].
Definition ANSWER_CHARS : nat := 65536.
Definition SETTLE : f64 := f_of_Z 10.
Definition LIVE : list string := ["running"; "waiting"; "paused"].

(** What the runs take from outside: [strip_escapes] and [replace_named] are replacements with
    the two regular expressions of the source, [json_patch] is SQLite's. *)
Class RunWorld := {
  strip_escapes : string -> string;
  replace_named : (string -> string -> string) -> string -> string;
  json_patch : Value -> Value -> Value }.

(** ** [Doc] *)

Record Feedback := mkFeedback { fb_stage : string; fb_text : string; fb_full : string }.

Record Doc := mkDoc {
  dc_request : string;
  dc_file : string;
  dc_worker : string;
  dc_base : string;
  dc_revision : Z;
  dc_taken : list N;
  dc_feedback : option Feedback;
  dc_failures : gmap string (list string);
  dc_starts : gmap string string;
  dc_answers : gmap string string;
  dc_sessions : N;
  dc_visits : N;
  dc_next : option string;
  dc_why : option string;
  dc_note : option string }.

(** A [BTreeMap] of strings as a JSON object: its keys are in order. *)
Definition map_value {A} (f : A -> Value) (m : gmap string A) : Value :=
  JObject (omap (fun k => (fun v => (k, f v)) <$> m !! k) (sorted_keys m)).

Definition feedback_value (f : option Feedback) : Value :=
  match f with
  | None => JNull
  | Some f => obj [("stage", JString (fb_stage f)); ("text", JString (fb_text f)); ("full", JString (fb_full f))]
  end.

Definition doc_to_value (d : Doc) : Value :=
  obj [("request", JString (dc_request d));
       ("file", JString (dc_file d));
       ("worker", JString (dc_worker d));
       ("base", JString (dc_base d));
       ("revision", from_i64 (dc_revision d));
       ("taken", JArray (map from_usize (dc_taken d)));
       ("feedback", feedback_value (dc_feedback d));
       ("failures", map_value (fun l => JArray (map JString l)) (dc_failures d));
       ("starts", map_value JString (dc_starts d));
       ("answers", map_value JString (dc_answers d));
       ("sessions", from_usize (dc_sessions d));
       ("visits", from_usize (dc_visits d));
       ("next", opt (dc_next d));
       ("why", opt (dc_why d));
       ("note", opt (dc_note d))].

Definition as_object (v : Value) : option Map := match v with JObject m => Some m | _ => None end.

(** [Value::as_i64] *)
Definition value_as_i64 (v : Value) : option Z :=
  match v with
  | JNumber (PosInt n) => if (Z.of_N n <? 2 ^ 63)%Z then Some (Z.of_N n) else None
  | JNumber (NegInt z) => Some z
  | _ => None
  end.

(** [as u32] of a [u64] *)
Definition wrap_u32 (n : N) : N := (n mod 2 ^ 32)%N.

(** [m.iter().map(..).collect::<BTreeMap>()]: the last of two equal keys stays. *)
Definition collect_map {A} (l : list (string * A)) : gmap string A := foldl (fun m '(k, v) => <[k := v]> m) ∅ l.

Definition strings_of (v : Value) : list string := omap as_str (default [] (as_array v)).

Definition doc_feedback (value : Value) : option Feedback :=
  f ← get value "feedback";
  if is_object f
  then Some (mkFeedback (default "" (string_of f "stage")) (default "" (string_of f "text")) (default "" (string_of f "full")))
  else None.

Definition doc_map (value : Value) (key : string) : gmap string string :=
  match m ← get value key; as_object m with
  | Some m => collect_map (omap (fun '(k, v) => (fun s => (k, s)) <$> as_str v) m)
  | None => ∅
  end.

Definition doc_failures (value : Value) : gmap string (list string) :=
  match m ← get value "failures"; as_object m with
  | Some m => collect_map (map (fun '(k, v) => (k, strings_of v)) m)
  | None => ∅
  end.

Definition doc_u32 (value : Value) (key : string) : N := wrap_u32 (default 0%N (n ← get value key; as_u64 n)).

Definition doc_from_value (value : Value) : Doc :=
  let text key := default "" (string_of value key) in
  mkDoc (text "request") (text "file") (text "worker") (text "base")
    (default 1%Z (r ← get value "revision"; value_as_i64 r))
    (map (fun n => wrap_u32 (default 0%N (as_u64 n))) (default [] (t ← get value "taken"; as_array t)))
    (doc_feedback value) (doc_failures value) (doc_map value "starts") (doc_map value "answers")
    (doc_u32 value "sessions") (doc_u32 value "visits")
    (string_of value "next") (string_of value "why") (string_of value "note").

Definition set_dc_taken (d : Doc) (x : list N) : Doc :=
  mkDoc (dc_request d) (dc_file d) (dc_worker d) (dc_base d) (dc_revision d) x (dc_feedback d) (dc_failures d)
    (dc_starts d) (dc_answers d) (dc_sessions d) (dc_visits d) (dc_next d) (dc_why d) (dc_note d).
Definition set_dc_feedback (d : Doc) (x : option Feedback) : Doc :=
  mkDoc (dc_request d) (dc_file d) (dc_worker d) (dc_base d) (dc_revision d) (dc_taken d) x (dc_failures d)
    (dc_starts d) (dc_answers d) (dc_sessions d) (dc_visits d) (dc_next d) (dc_why d) (dc_note d).
Definition set_dc_failures (d : Doc) (x : gmap string (list string)) : Doc :=
  mkDoc (dc_request d) (dc_file d) (dc_worker d) (dc_base d) (dc_revision d) (dc_taken d) (dc_feedback d) x
    (dc_starts d) (dc_answers d) (dc_sessions d) (dc_visits d) (dc_next d) (dc_why d) (dc_note d).
Definition set_dc_starts (d : Doc) (x : gmap string string) : Doc :=
  mkDoc (dc_request d) (dc_file d) (dc_worker d) (dc_base d) (dc_revision d) (dc_taken d) (dc_feedback d) (dc_failures d)
    x (dc_answers d) (dc_sessions d) (dc_visits d) (dc_next d) (dc_why d) (dc_note d).
Definition set_dc_answers (d : Doc) (x : gmap string string) : Doc :=
  mkDoc (dc_request d) (dc_file d) (dc_worker d) (dc_base d) (dc_revision d) (dc_taken d) (dc_feedback d) (dc_failures d)
    (dc_starts d) x (dc_sessions d) (dc_visits d) (dc_next d) (dc_why d) (dc_note d).
Definition set_dc_counts (d : Doc) (sessions visits : N) : Doc :=
  mkDoc (dc_request d) (dc_file d) (dc_worker d) (dc_base d) (dc_revision d) (dc_taken d) (dc_feedback d) (dc_failures d)
    (dc_starts d) (dc_answers d) sessions visits (dc_next d) (dc_why d) (dc_note d).
Definition set_dc_next (d : Doc) (x : option string) : Doc :=
  mkDoc (dc_request d) (dc_file d) (dc_worker d) (dc_base d) (dc_revision d) (dc_taken d) (dc_feedback d) (dc_failures d)
    (dc_starts d) (dc_answers d) (dc_sessions d) (dc_visits d) x (dc_why d) (dc_note d).
Definition set_dc_why (d : Doc) (x : option string) : Doc :=
  mkDoc (dc_request d) (dc_file d) (dc_worker d) (dc_base d) (dc_revision d) (dc_taken d) (dc_feedback d) (dc_failures d)
    (dc_starts d) (dc_answers d) (dc_sessions d) (dc_visits d) (dc_next d) x (dc_note d).
Definition set_dc_note (d : Doc) (x : option string) : Doc :=
  mkDoc (dc_request d) (dc_file d) (dc_worker d) (dc_base d) (dc_revision d) (dc_taken d) (dc_feedback d) (dc_failures d)
    (dc_starts d) (dc_answers d) (dc_sessions d) (dc_visits d) (dc_next d) (dc_why d) x.

(** ** The next stage *)

Inductive Next :=
| NextStage (name : string) (reset : bool)
| NextDone
| NextStuck.

(** [Vec::resize] with zeros, where it makes the list longer. *)
Definition resized (n : nat) (taken : list N) : list N :=
  if decide (length taken < n) then taken ++ replicate (n - length taken) 0%N else taken.

(** [decide] *)
Definition run_decide (p : Pipeline) (d : Doc) (stage : string) (verdict : option Verdict) (failures : option (list string)) : Next * Doc :=
  let stalled := match failures, verdict with
                 | Some now, Some Fail_ => bool_decide (dc_failures d !! stage = Some now)
                 | _, _ => false
                 end in
  let d := match failures with Some now => set_dc_failures d (<[stage := now]> (dc_failures d)) | None => d end in
  let d := set_dc_taken d (resized (length (pl_arrows p)) (dc_taken d)) in
  match pick p stage verdict (dc_taken d) stalled with
  | None => (NextStuck, d)
  | Some (index, arrow) =>
    let d := set_dc_taken d (alter N.succ index (dc_taken d)) in
    (if decide (ar_to arrow = DONE) then NextDone else NextStage (ar_to arrow) (ar_reset arrow), d)
  end.

(** ** Budgets *)

(** Two digits, [{:02}] *)
Definition pad2 (n : N) : string := if (n <? 10)%N then "0" +:+ pretty n else pretty n.

(** A [Duration] is its nanoseconds. *)
Definition second : N := 1000000000.

Definition clock (time : N) : string :=
  let s := (time / second)%N in
  let '(h, m, s) := (s / 3600, s mod 3600 / 60, s mod 60)%N in
  if (h =? 0)%N then
    if (m =? 0)%N then pretty s +:+ "s" else pretty m +:+ "m " +:+ pad2 s +:+ "s"
  else pretty h +:+ "h " +:+ pad2 m +:+ "m".

(** [None]: the panic of an overflow in what the stage costs. *)
Definition stage_cost (s : Stage) : option N := match stage_sessions ∅ s with Good n => Some n | _ => None end.

Definition over_budget (p : Pipeline) (d : Doc) (s : Stage) (elapsed : N) : option (option string) :=
  match pl_budget p with
  | None => Some None
  | Some budget =>
    cost ← stage_cost s;
    let session := (dc_sessions d + cost)%N in
    let over max := (0 <? cost)%N && (max <? session)%N in
    Some match (max ← bu_sessions budget; if over max then Some max else None) with
         | Some max => Some ("over budget: " +:+ st_name s +:+ " would be session " +:+ pretty session +:+ " of " +:+ pretty max)
         | None =>
           time ← bu_time budget;
           if (time * second <=? elapsed)%N
           then Some ("over budget: " +:+ clock elapsed +:+ " of " +:+ clock (time * second) +:+ " spent before " +:+ st_name s)
           else None
         end
  end.

(** ** What runs cannot do yet *)

Definition unbuilt_parts (s : Stage) : list string :=
  match st_kind s with
  | KAgent a =>
    (if bool_decide (is_Some (ag_each a)) then ["each"] else [])
    ++ (if bool_decide (is_Some (ag_attempts a)) then ["xN by"] else [])
    ++ (if bool_decide (is_Some (ag_guard a)) then ["guard"] else [])
    ++ (if ag_emits a then ["emits"] else [])
    ++ (if bool_decide (is_Some (ag_resume a)) then ["resume"] else [])
  | KAsk _ => ["ask"]
  | KMerge _ => ["merge STAGE"]
  | KRun _ => []
  end
  ++ match st_on s with
     | Some on => if decide (on = "here") then [] else ["on (stages run here until machines are built)"]
     | None => []
     end.

Definition unbuilt (p : Pipeline) : list string :=
  flat_map (fun s => map (fun what => pretty (st_line s) +:+ ": " +:+ st_name s +:+ " uses " +:+ what +:+ ", which runs can't do yet")
                       (unbuilt_parts s)) (pl_stages p).

(** ** Texts *)

Section Texts.
Context `{RunWorld}.

Definition prompt (s : Stage) (file request : string) (feedback : option Feedback) (answers : gmap string string) (answer : string) : string :=
  let named a b := default "" (answers !! (if decide (b = "answer") then a else a +:+ "." +:+ b)) in
  let out := str_trim_end (replace_named named file) in
  let out := out +:+ newline +:+ newline +:+ "# The task" +:+ newline +:+ newline +:+ str_trim request +:+ newline in
  let out := match feedback with
             | Some f => out +:+ newline +:+ "# Feedback from " +:+ fb_stage f +:+ newline +:+ newline +:+ str_trim_end (fb_text f) +:+ newline
             | None => out
             end in
  let cli := "`" +:+ dq +:+ "$KANNA_CLI" +:+ dq in
  let done := if verdicts s
              then cli +:+ " run done pass` if it passes, or " +:+ cli +:+ " run done fail` if it doesn't"
              else cli +:+ " run done`" in
  out +:+ newline +:+ "# When you're done" +:+ newline +:+ newline +:+ "Write your final answer to `" +:+ answer +:+ "`, then run " +:+ done
  +:+ ". Kanna ends this session once your turn ends. If you need something from the user before you can finish, run "
  +:+ cli +:+ " run need " +:+ dq +:+ "WHAT YOU NEED" +:+ dq
  +:+ "` and end your turn: Kanna stops this session and resumes it with their answer." +:+ newline.

(** [outputs]: the named JSON blocks of an answer.  [take_while] takes its closing line too. *)
Fixpoint outputs_of (lines : list string) (block : option (string * list string)) : list (string * string) :=
  match lines, block with
  | [], None => []
  | [], Some (key, body) => [(key, join newline (rev body))]
  | line :: lines, Some (key, body) =>
    if starts_with "```" (str_trim_start line) then (key, join newline (rev body)) :: outputs_of lines None
    else outputs_of lines (Some (key, line :: body))
  | line :: lines, None =>
    match strip_prefix "```" (str_trim_start line) with
    | None => outputs_of lines None
    | Some info =>
      match split_whitespace info with
      | first :: words =>
        if decide (first = "json") then
          match find_map (strip_prefix "name=") words with
          | Some key => outputs_of lines (Some (key, []))
          | None => outputs_of lines None
          end
        else outputs_of lines None
      | [] => outputs_of lines None
      end
    end
  end.

Definition outputs (answer : string) : list (string * string) := outputs_of (str_lines answer) None.

(** [plain]: without escape sequences and carriage returns. *)
Fixpoint without (a : ascii) (s : string) : string :=
  match s with
  | EmptyString => ""
  | String b s => if decide (b = a) then without a s else String b (without a s)
  end.
Definition plain (text : string) : string := without "013" (strip_escapes text).

Definition tail_lines (text : string) : list string :=
  let lines := str_lines text in drop (length lines - FEEDBACK_LINES) lines.
Definition failing (line : string) : bool := existsb (fun mark => str_contains mark line) FAILURE_MARKS.

Definition failure_lines (output : string) : list string := retain failing (tail_lines (plain output)).

(** The greatest char boundary at or below [cut]: a byte that does not continue a character. *)
Definition is_cont (a : ascii) : bool := (128 <=? N_of_ascii a)%N && (N_of_ascii a <? 192)%N.
Fixpoint floor_boundary (s : string) (cut : nat) : nat :=
  match cut with
  | 0 => 0
  | S n => match String.get cut s with Some a => if is_cont a then floor_boundary s n else cut | None => cut end
  end.
(** [truncate] to a limit, at a char boundary. *)
Definition truncated (limit : nat) (s : string) : string :=
  if decide (limit < String.length s) then String.substring 0 (floor_boundary s limit) s else s.

Definition command_feedback (output : string) : string :=
  let tail := tail_lines (plain output) in
  truncated FEEDBACK_CHARS (join newline (retain failing tail ++ retain (fun l => negb (failing l)) tail)).
End Texts.

(** [hash]: FNV-1a on 64 bits. *)
Definition fnv (h : N) (a : ascii) : N := (N.lxor h (N_of_ascii a) * 1099511628211 mod 2 ^ 64)%N.
Definition hex_digit (n : N) : ascii := default "0"%char (String.get (N.to_nat n) "0123456789abcdef").
Fixpoint hex_text (digits : nat) (n : N) : string :=
  match digits with 0 => "" | S k => hex_text k (n / 16) +:+ String (hex_digit (n mod 16)) "" end.
Definition hash (text : string) : string := hex_text 16 (foldl fnv 14695981039346656037%N (string_bytes text)).

(** [quote]: a shell word. *)
Fixpoint escaped (s : string) : string :=
  match s with
  | EmptyString => ""
  | String a s => if decide (a = "'"%char) then "'\''" +:+ escaped s else String a (escaped s)
  end.
Definition quote (text : string) : string := "'" +:+ escaped text +:+ "'".
