(* ===== verification/RunEngine.v ===== *)
(** * The engine of runs: [Runs] of [crates/kanna-daemon/src/runs.rs]

    The daemon steps its live runs: it begins a stage's visit in a new terminal, waits for the
    agent to report or the command to end, and takes the next arrow.  What it starts answers
    later: the terminal that was asked for opens or does not, an agent that was asked to quit
    has ended.  These answers are the pending [Callback]s, and they may come in any order, with
    ticks, requests and reports between them; one that comes at once comes before anything else.

    A handler reads the clock once here.  [Env] has what a handler asks of the outside while it
    runs: the clock, the panes, files, git.  Saves that fail are only logged in the source; here
    they succeed. *)

From S2P Require Import Prelude Text F64 Json Pipe PipeCheck PipeWalk Runs.
From Stdlib Require Import Ascii SpecFloat.

Definition SCRATCH : string := ".kanna/tmp".
Definition CARRY_ON : string := "Carry on.".
Definition TIMED_OUT : Z := 142.

(** ** Rows of the database *)

Record RunRow := mkRunRow {
  rr_id : string;
  rr_task : string;
  rr_repo : string;
  rr_pipeline : string;
  rr_hash : string;
  rr_branch : string;
  rr_state : string;
  rr_started : f64;
  rr_ended : option f64;
  rr_outcome : option string;
  rr_doc : Value }.

Record StageRow := mkStageRow {
  sr_id : N;
  sr_run : string;
  sr_stage : string;
  sr_visit : N;
  sr_instance : option string;
  sr_kind : string;
  sr_agent : option string;
  sr_machine : string;
  sr_started : f64;
  sr_ended : option f64;
  sr_verdict : option string;
  sr_session : option string;
  sr_terminal : option string;
  sr_worktree : option string;
  sr_branch : option string;
  sr_doc : Value }.

Definition set_rr_doc (r : RunRow) (x : Value) : RunRow :=
  mkRunRow (rr_id r) (rr_task r) (rr_repo r) (rr_pipeline r) (rr_hash r) (rr_branch r) (rr_state r) (rr_started r) (rr_ended r) (rr_outcome r) x.
Definition set_rr_state (r : RunRow) (x : string) : RunRow :=
  mkRunRow (rr_id r) (rr_task r) (rr_repo r) (rr_pipeline r) (rr_hash r) (rr_branch r) x (rr_started r) (rr_ended r) (rr_outcome r) (rr_doc r).
Definition set_rr_end (r : RunRow) (ended : option f64) (outcome : option string) : RunRow :=
  mkRunRow (rr_id r) (rr_task r) (rr_repo r) (rr_pipeline r) (rr_hash r) (rr_branch r) (rr_state r) (rr_started r) ended outcome (rr_doc r).

Definition set_sr_id (r : StageRow) (x : N) : StageRow :=
  mkStageRow x (sr_run r) (sr_stage r) (sr_visit r) (sr_instance r) (sr_kind r) (sr_agent r) (sr_machine r) (sr_started r) (sr_ended r)
    (sr_verdict r) (sr_session r) (sr_terminal r) (sr_worktree r) (sr_branch r) (sr_doc r).
Definition set_sr_end (r : StageRow) (ended : option f64) (verdict : option string) : StageRow :=
  mkStageRow (sr_id r) (sr_run r) (sr_stage r) (sr_visit r) (sr_instance r) (sr_kind r) (sr_agent r) (sr_machine r) (sr_started r) ended
    verdict (sr_session r) (sr_terminal r) (sr_worktree r) (sr_branch r) (sr_doc r).
Definition set_sr_terminal (r : StageRow) (x : option string) : StageRow :=
  mkStageRow (sr_id r) (sr_run r) (sr_stage r) (sr_visit r) (sr_instance r) (sr_kind r) (sr_agent r) (sr_machine r) (sr_started r) (sr_ended r)
    (sr_verdict r) (sr_session r) x (sr_worktree r) (sr_branch r) (sr_doc r).
Definition set_sr_doc (r : StageRow) (x : Value) : StageRow :=
  mkStageRow (sr_id r) (sr_run r) (sr_stage r) (sr_visit r) (sr_instance r) (sr_kind r) (sr_agent r) (sr_machine r) (sr_started r) (sr_ended r)
    (sr_verdict r) (sr_session r) (sr_terminal r) (sr_worktree r) (sr_branch r) x.

(** ** Visits and live runs *)

Inductive Work :=
| WAgent (agent : string)
| WCommand (log exit : string).

Record Ended := mkEnded {
  ed_verdict : option Verdict;
  ed_shown : string;
  ed_answer : string;
  ed_feedback : string;
  ed_full : string;
  ed_failures : option (list string);
  ed_note : option string }.

Record Visit := mkVisit {
  vs_row : StageRow;
  vs_work : Work;
  vs_within : option N;
  vs_opening : bool;
  vs_ending : bool;
  vs_reported : option (Ended * f64);
  vs_needs : option f64;
  vs_paused : bool }.

Record Live := mkLive {
  lv_row : RunRow;
  lv_doc : Doc;
  lv_pipeline : Pipeline;
  lv_visit : option Visit }.

Definition set_vs_row (v : Visit) (x : StageRow) : Visit :=
  mkVisit x (vs_work v) (vs_within v) (vs_opening v) (vs_ending v) (vs_reported v) (vs_needs v) (vs_paused v).
Definition set_vs_opening (v : Visit) (x : bool) : Visit :=
  mkVisit (vs_row v) (vs_work v) (vs_within v) x (vs_ending v) (vs_reported v) (vs_needs v) (vs_paused v).
Definition set_vs_ending (v : Visit) (x : bool) : Visit :=
  mkVisit (vs_row v) (vs_work v) (vs_within v) (vs_opening v) x (vs_reported v) (vs_needs v) (vs_paused v).
Definition set_vs_reported (v : Visit) (x : option (Ended * f64)) : Visit :=
  mkVisit (vs_row v) (vs_work v) (vs_within v) (vs_opening v) (vs_ending v) x (vs_needs v) (vs_paused v).
Definition set_vs_needs (v : Visit) (x : option f64) : Visit :=
  mkVisit (vs_row v) (vs_work v) (vs_within v) (vs_opening v) (vs_ending v) (vs_reported v) x (vs_paused v).
Definition set_vs_paused (v : Visit) (x : bool) : Visit :=
  mkVisit (vs_row v) (vs_work v) (vs_within v) (vs_opening v) (vs_ending v) (vs_reported v) (vs_needs v) x.

Definition set_lv_row (l : Live) (x : RunRow) : Live := mkLive x (lv_doc l) (lv_pipeline l) (lv_visit l).
Definition set_lv_doc (l : Live) (x : Doc) : Live := mkLive (lv_row l) x (lv_pipeline l) (lv_visit l).
Definition set_lv_visit (l : Live) (x : option Visit) : Live := mkLive (lv_row l) (lv_doc l) (lv_pipeline l) x.
Definition set_lv_state (l : Live) (x : string) : Live := set_lv_row l (set_rr_state (lv_row l) x).
(** [if let Some(visit) = live.visit.as_mut() { .. }] *)
Definition on_visit (l : Live) (f : Visit -> Visit) : Live := set_lv_visit l (f <$> lv_visit l).

Definition lv_id (l : Live) : string := rr_id (lv_row l).
Definition lv_state (l : Live) : string := rr_state (lv_row l).
Definition is_live (l : Live) : bool := contains LIVE (lv_state l).

Definition waited (v : Visit) : f64 := default f0 (w ← get (sr_doc (vs_row v)) "waited"; as_f64 w).
Definition due (v : Visit) : option f64 :=
  (fun within => fadd (fadd (sr_started (vs_row v)) (waited v)) (f_of_N within)) <$> vs_within v.

(** [json!] of an [f64] *)
Definition json_f64 (x : f64) : Value := match from_f64 x with Some n => JNumber n | None => JNull end.

(** [patch]: a null takes a field away. *)
Fixpoint map_remove (m : Map) (key : string) : Map :=
  match m with
  | [] => []
  | (k, v) :: m => if decide (k = key) then m else (k, v) :: map_remove m key
  end.
Definition patch (doc with_ : Value) : Value :=
  let fields := match doc with JObject m => m | _ => [] end in
  match with_ with
  | JObject with_ => JObject (foldl (fun m '(k, v) => if is_null v then map_remove m k else map_insert m k v) fields with_)
  | _ => JObject fields
  end.

Definition is_agent (w : Work) : bool := match w with WAgent _ => true | WCommand _ _ => false end.
Definition terminal_is (v : Visit) (pane : string) : bool := bool_decide (sr_terminal (vs_row v) = Some pane).

(** ** The engine *)

(** What answers later, with what is done then. *)
Inductive Callback :=
| CbOpened (id : string) (row : StageRow)
| CbResumed (id : string)
| CbConclude (id pane : string) (ended : Ended)
| CbParked (id pane : string)
| CbClose (pane : string)
| CbScreen (id stage pane : string).

(** What a handler does outside. *)
Inductive Effect :=
| EPutRun (row : RunRow) (event : option (string * option string * Value))
| ERunEvent (id what by_ : string) (doc : Value)
| EPutStage (row : StageRow)
| EOpen (id cwd command : string)
| EClose (pane : string)
| EEndAgent (pane agent : string)
| EEndPane (pane : string)
| ERead (pane : string)
| ETell (id text : string)
| EGit (folder : string) (args : list string)
| EWrite (path text : string)
| ERemove (path : string)
| EAddRevision (id by_ hash : string) (doc : Value).

Record Engine := mkEngine {
  en_live : list Live;
  en_soon : bool;
  en_host : string;
  en_stages : list StageRow;
  en_calls : list Callback;
  en_out : list Effect }.

Definition set_en_live (s : Engine) (x : list Live) : Engine := mkEngine x (en_soon s) (en_host s) (en_stages s) (en_calls s) (en_out s).
Definition set_en_soon (s : Engine) (x : bool) : Engine := mkEngine (en_live s) x (en_host s) (en_stages s) (en_calls s) (en_out s).
Definition set_en_stages (s : Engine) (x : list StageRow) : Engine := mkEngine (en_live s) (en_soon s) (en_host s) x (en_calls s) (en_out s).
Definition set_en_calls (s : Engine) (x : list Callback) : Engine := mkEngine (en_live s) (en_soon s) (en_host s) (en_stages s) x (en_out s).
Definition set_en_out (s : Engine) (x : list Effect) : Engine := mkEngine (en_live s) (en_soon s) (en_host s) (en_stages s) (en_calls s) x.

(** A pane as the core has it: whether it starts or runs, and its exit code. *)
Record PaneNow := mkPaneNow { pn_alive : bool; pn_exit : option Z }.

(** The outside as a handler finds it.  [ev_line] and [ev_command] write the command lines that
    tasks.rs and task_scripts.rs make of a stage. *)
Record Env := mkEnv {
  ev_now : f64;
  ev_pane : string -> option PaneNow;
  ev_is_file : string -> bool;
  ev_is_dir : string -> bool;
  ev_read : string -> option string;
  ev_write : string -> option string;
  ev_mkdir : string -> option string;
  ev_head : string -> string;
  ev_commits : string -> string -> string -> option N;
  ev_prompt : Stage -> string;
  ev_session : string -> option string;
  ev_line : RunRow -> Doc -> Stage -> option string -> N -> string;
  ev_reply : RunRow -> Doc -> Stage -> option string -> string -> string;
  ev_command : RunRow -> Doc -> Stage -> string -> string -> string -> string }.

Definition emit (e : Effect) : act Engine unit := act_modify (fun s => set_en_out s (en_out s ++ [e])).
Definition later_do (cb : Callback) : act Engine unit := act_modify (fun s => set_en_calls s (en_calls s ++ [cb])).
Definition set_soon : act Engine unit := act_modify (fun s => set_en_soon s true).

Definition find_live (s : Engine) (id : string) : option Live := List.find (fun l => bool_decide (lv_id l = id)) (en_live s).
Definition the_live (id : string) : act Engine (option Live) := act_gets (fun s => find_live s id).

(** The first run of this id, changed. *)
Fixpoint alter_live (id : string) (f : Live -> Live) (l : list Live) : list Live :=
  match l with
  | [] => []
  | x :: l => if decide (lv_id x = id) then f x :: l else x :: alter_live id f l
  end.

(** Where there is no run, nothing. *)
Definition if_live {A} (o : option A) (k : A -> act Engine unit) : act Engine unit := match o with Some a => k a | None => act_ret tt end.

Definition Event : Type := option (string * option string * Value).

(** [update]: the edit, the saved doc with the budget it had, and the save. *)
Definition saved_row (l : Live) : RunRow :=
  let doc := doc_to_value (lv_doc l) in
  set_rr_doc (lv_row l)
    match get (rr_doc (lv_row l)) "budget", doc with
    | Some budget, JObject m => JObject (map_insert m "budget" budget)
    | _, _ => doc
    end.

Definition update (id : string) (edit : Live -> Live * Event) : act Engine unit :=
  let! found := the_live id in
  if_live found (fun l =>
    let '(l', event) := edit l in
    let row := saved_row l' in
    act_modify (fun s => set_en_live s (alter_live id (fun _ => set_lv_row l' row) (en_live s))) ;;;
    emit (EPutRun row event)).

Definition edit_only (f : Live -> Live) (l : Live) : Live * Event := (f l, None).

(** [put_stage]: a row without an id is inserted and gets the next one; another is updated. *)
Definition next_stage_id (rows : list StageRow) : N := N.succ (foldr (fun r n => N.max (sr_id r) n) 0%N rows).

Section Steps.
Context `{RunWorld}.

Definition stage_updated (row old : StageRow) : StageRow :=
  if decide (sr_id old = sr_id row) then
    mkStageRow (sr_id old) (sr_run old) (sr_stage old) (sr_visit old) (sr_instance old) (sr_kind old) (sr_agent old) (sr_machine old)
      (sr_started old) (sr_ended row) (sr_verdict row) (sr_session row) (sr_terminal row) (sr_worktree row) (sr_branch row)
      (json_patch (sr_doc old) (sr_doc row))
  else old.

Definition put_stage (row : StageRow) : act Engine N :=
  emit (EPutStage row) ;;;
  act_state (fun s =>
    if decide (sr_id row = 0%N) then
      let id := next_stage_id (en_stages s) in (id, set_en_stages s (en_stages s ++ [set_sr_id row id]))
    else (sr_id row, set_en_stages s (map (stage_updated row) (en_stages s)))).

Definition stages_of (s : Engine) (id : string) : list StageRow := retain (fun r => bool_decide (sr_run r = id)) (en_stages s).

(** ** Small steps *)

Definition alive (env : Env) (pane : string) : bool := match ev_pane env pane with Some p => pn_alive p | None => false end.

Definition close (pane : string) : act Engine unit := emit (EClose pane).
Definition tell (id text : string) : act Engine unit :=
  let! found := the_live id in if_live found (fun _ => emit (ETell id text)).

(** [tasks.end_agent(pane, agent, then)] *)
Definition end_agent (pane agent : string) (cb : Callback) : act Engine unit := emit (EEndAgent pane agent) ;;; later_do cb.

(** [mark_ending]: false where there is no visit, or it ends already. *)
Definition mark_ending (id : string) : act Engine bool :=
  act_state (fun s =>
    match l ← find_live s id; lv_visit l with
    | Some v => if vs_ending v then (false, s)
                else (true, set_en_live s (alter_live id (fun l => on_visit l (fun v => set_vs_ending v true)) (en_live s)))
    | None => (false, s)
    end).

Definition by_daemon : option string := Some "daemon".

Definition wait (id why : string) : act Engine unit :=
  update id (fun l => (set_lv_doc (set_lv_state l "waiting") (set_dc_why (lv_doc l) (Some why)),
                       Some ("waiting", by_daemon, obj [("why", JString why)]))) ;;;
  tell id ("waiting: " +:+ why +:+ ". `kanna run show " +:+ id +:+ "` says where it is; `kanna run stop " +:+ id +:+ "` ends it.").

(** [stop]: the visit's row is closed and its worker ended, then the run is over. *)
Definition stop_visit (env : Env) (v : Visit) : act Engine unit :=
  let row := vs_row v in
  (if decide (sr_id row = 0%N) then act_ret tt
   else let! _ := put_stage (set_sr_end row (Some (ev_now env)) (Some "stopped")) in act_ret tt) ;;;
  match sr_terminal row with
  | Some pane =>
    if vs_ending v || vs_paused v then act_ret tt
    else match vs_work v with
         | WAgent agent => end_agent pane agent (CbClose pane)
         | WCommand _ _ => close pane
         end
  | None => act_ret tt
  end.

Definition stopped (env : Env) (state why : string) (l : Live) : Live :=
  let outcome := if starts_with "stuck" why then "stuck" else "stopped" in
  mkLive (set_rr_end (set_rr_state (lv_row l) state) (Some (ev_now env)) (Some outcome))
    (set_dc_next (set_dc_why (lv_doc l) (Some why)) None) (lv_pipeline l) None.

Definition stop (env : Env) (id state why : string) (by_ : option string) (telling : bool) : act Engine unit :=
  let! found := the_live id in
  if_live (l ← found; lv_visit l) (stop_visit env) ;;;
  update id (fun l => (stopped env state why l, Some ("stopped", by_, obj [("why", JString why)]))) ;;;
  if telling then
    let! found := the_live id in
    tell id (why +:+ ". The run's branch " +:+ default "" ((fun l => rr_branch (lv_row l)) <$> found)
             +:+ " is kept for you to look at; `kanna run show " +:+ id +:+ "` has its visits.")
  else act_ret tt.

Definition pause (id why : string) (by_ : option string) (text : string) : act Engine unit :=
  let by_ := default "daemon" by_ in
  update id (fun l => (set_lv_doc (set_lv_state l "paused") (set_dc_why (lv_doc l) (Some why)),
    Some ("paused", Some by_, obj [("stage", opt ((fun v => sr_stage (vs_row v)) <$> lv_visit l)); ("why", JString why)]))) ;;;
  tell id text.

(** [open_worker]: the answer comes later. *)
Definition open_worker (id cwd command : string) (cb : Callback) : act Engine unit := emit (EOpen id cwd command) ;;; later_do cb.

(** [quit_then] *)
Definition quit_then (id pane agent : string) (ended : Ended) : act Engine unit := end_agent pane agent (CbConclude id pane ended).

(** [park]: the agent quits, and its session is kept. *)
Definition park (id : string) : act Engine unit :=
  let! found := the_live id in
  if_live (l ← found; lv_visit l) (fun v =>
    match vs_work v, sr_terminal (vs_row v) with
    | WAgent agent, Some pane =>
      if vs_paused v || bool_decide (is_Some (vs_reported v)) then act_ret tt
      else let! mine := mark_ending id in if mine : bool then end_agent pane agent (CbParked id pane) else act_ret tt
    | _, _ => act_ret tt
    end).

Definition parked (env : Env) (said : option string) (v : Visit) : Visit :=
  let session := match sr_session (vs_row v) with Some s => Some s | None => said end in
  let row := set_sr_doc (vs_row v)
               (patch (sr_doc (vs_row v)) (obj [("paused", obj [("at", json_f64 (ev_now env)); ("session", opt session)])])) in
  set_vs_needs (set_vs_ending (set_vs_paused (set_vs_row v row) true) false) None.

(** What [park] does when the agent has ended. *)
Definition park_finish (env : Env) (id pane : string) (said : option string) : act Engine unit :=
  close pane ;;;
  update id (edit_only (fun l => on_visit l (parked env said))) ;;;
  let! found := the_live id in
  if_live (l ← found; lv_visit l) (fun v => let! _ := put_stage (vs_row v) in act_ret tt).

(** ** Ends of a visit *)

(** [interrupted]: the visit is over and its stage is next again. *)
Definition interrupted (env : Env) (id : string) (v : Visit) : act Engine unit :=
  let row := set_sr_end (vs_row v) (Some (ev_now env)) (Some "interrupted") in
  let! _ := put_stage row in
  let stage := sr_stage row in
  update id (fun l => (set_lv_doc (set_lv_visit l None) (set_dc_next (lv_doc l) (Some stage)),
    Some ("verdict", by_daemon, obj [("stage", JString stage); ("visit", from_usize (sr_visit row)); ("verdict", JString "interrupted")]))) ;;;
  set_soon.

Definition timed_out_end : Ended := mkEnded (Some Fail_) "fail" "" "timed out" "" None (Some "timed out").

Definition timed_out (env : Env) (id pane agent : string) : act Engine unit :=
  let! mine := mark_ending id in
  if negb mine then act_ret tt
  else
    let! found := the_live id in
    if_live (l ← found; v ← lv_visit l; Some (l, v)) (fun '(l, v) =>
      let stage := sr_stage (vs_row v) in
      let gives := match pipeline_stage (lv_pipeline l) stage with Some s => verdicts s | None => false end in
      let start := default "" (string_of (sr_doc (vs_row v)) "start") in
      (if str_is_empty start then act_ret tt else emit (EGit (default "" (sr_worktree (vs_row v))) ["reset"; "--hard"; start])) ;;;
      if gives then quit_then id pane agent timed_out_end
      else
        end_agent pane agent (CbClose pane) ;;;
        update id (edit_only (fun l => on_visit l (fun v => set_vs_ending v true))) ;;;
        stop env id "stopped" (stage +:+ " timed out before its agent reported it was done") by_daemon true).

(** [i32::from_str] *)
Definition parse_i32 (s : string) : option Z :=
  match strip_prefix "-" s with
  | Some body => match body with
                 | EmptyString => None
                 | _ => n ← parse_digits 0 body; if (n <=? 2 ^ 31)%N then Some (- Z.of_N n)%Z else None
                 end
  | None => Z.of_N <$> parse_uint (2 ^ 31 - 1) s
  end.

Definition command_end (env : Env) (log exit : string) : Ended :=
  let code := default 1%Z (t ← ev_read env exit; parse_i32 (str_trim t)) in
  let output := default "" (ev_read env log) in
  let late := bool_decide (code = TIMED_OUT) in
  let feedback := if late then "timed out" +:+ newline +:+ command_feedback output else command_feedback output in
  let verdict := if decide (code = 0%Z) then Pass else Fail_ in
  mkEnded (Some verdict) (verdict_name verdict) "" feedback log (Some (failure_lines output)) (if late then Some "timed out" else None).

(** ** [begin] *)

(** [Duration::from_secs_f64] of a time that is not negative, in nanoseconds, rounded half to
    even.  [None]: the panic of one too long. *)
Definition duration_of (x : f64) : option N :=
  match x with
  | S754_zero _ => Some 0%N
  | S754_finite false m e =>
    let ns := match e with
              | Z0 => (Npos m * second)%N
              | Zpos k => (Npos m * second * 2 ^ Npos k)%N
              | Zneg k => let d := (2 ^ Npos k)%N in
                          let q := (Npos m * second / d)%N in
                          let r := (Npos m * second mod d)%N in
                          if (d <? 2 * r)%N || ((2 * r =? d)%N && N.odd q) then N.succ q else q
              end in
    if (ns <? 2 ^ 64 * second)%N then Some ns else None
  | _ => None
  end.

(** [(now - started).max(0.0)] *)
Definition elapsed_since (now started : f64) : f64 :=
  let d := fsub now started in if fle f0 d then d else f0.

Definition scratch_path (d : Doc) (name : string) : string := dc_worker d +:+ "/" +:+ SCRATCH +:+ "/" +:+ name.

Definition new_stage_row (env : Env) (l : Live) (host name : string) (visit : N) : StageRow :=
  mkStageRow 0 (lv_id l) name visit None "" None host (ev_now env) None None None None (Some (dc_worker (lv_doc l)))
    (Some (rr_branch (lv_row l))) JNull.

Definition started_row (row : StageRow) (kind : string) (agent session : option string) (doc : Value) : StageRow :=
  mkStageRow (sr_id row) (sr_run row) (sr_stage row) (sr_visit row) (sr_instance row) kind agent (sr_machine row) (sr_started row) (sr_ended row)
    (sr_verdict row) session (sr_terminal row) (sr_worktree row) (sr_branch row) doc.

(** The changes to the run when a visit begins, and the opening of its worker. *)
Definition begin_visit (env : Env) (l : Live) (s : Stage) (head command : string) (row : StageRow) (work : Work) (sessions : N) : act Engine unit :=
  let id := lv_id l in
  let n := N.succ (dc_visits (lv_doc l)) in
  update id (edit_only (fun l =>
    let d := lv_doc l in
    let starts := match dc_starts d !! st_name s with Some _ => dc_starts d | None => <[st_name s := head]> (dc_starts d) end in
    mkLive (lv_row l) (set_dc_counts (set_dc_starts d starts) (dc_sessions d + sessions) n) (lv_pipeline l)
      (Some (mkVisit row work (st_within s) true false None None false)))) ;;;
  open_worker id (dc_worker (lv_doc l)) command (CbOpened id row).

Definition begin_agent (env : Env) (l : Live) (s : Stage) (a : Agent) (head : string) (row : StageRow) : act Engine unit :=
  let d := lv_doc l in
  let n := N.succ (dc_visits d) in
  let answer := SCRATCH +:+ "/answer-" +:+ pretty n +:+ ".md" in
  let text := prompt s (ev_prompt env s) (dc_request d) (dc_feedback d) (dc_answers d) answer in
  let path := scratch_path d ("stage-" +:+ pretty n +:+ ".md") in
  match ev_write env path with
  | Some error => stop env (lv_id l) "stopped" ("can't write " +:+ path +:+ ": " +:+ error) by_daemon true
  | None =>
    emit (EWrite path text) ;;;
    let session := ev_session env (ag_agent a) in
    let! sessions := act_get (fun _ => stage_cost s) in
    begin_visit env l s head (ev_line env (lv_row l) d s session n)
      (started_row row "agent" (Some (ag_agent a)) session (obj [("n", from_usize n); ("start", JString head); ("prompt", JString path)]))
      (WAgent (ag_agent a)) sessions
  end.

Definition begin_command (env : Env) (l : Live) (s : Stage) (head : string) (row : StageRow) : act Engine unit :=
  let d := lv_doc l in
  let n := N.succ (dc_visits d) in
  let log := scratch_path d ("stage-" +:+ pretty n +:+ ".log") in
  let exit := scratch_path d ("stage-" +:+ pretty n +:+ ".exit") in
  let feedback := scratch_path d ("feedback-" +:+ pretty n +:+ ".txt") in
  let previous := match dc_feedback d with Some f => default (fb_text f) (ev_read env (fb_full f)) | None => "" end in
  emit (ERemove exit) ;;;
  emit (EWrite feedback previous) ;;;
  begin_visit env l s head (ev_command env (lv_row l) d s feedback log exit)
    (started_row row "run" None None (obj [("n", from_usize n); ("start", JString head); ("log", JString log); ("exit", JString exit)]))
    (WCommand log exit) 0.

Definition begin (env : Env) (id name : string) : act Engine unit :=
  let! found := the_live id in
  if_live (l ← found; s ← pipeline_stage (lv_pipeline l) name; Some (l, s)) (fun '(l, s) =>
    let! elapsed := act_get (fun _ => duration_of (elapsed_since (ev_now env) (rr_started (lv_row l)))) in
    let! over := act_get (fun _ => over_budget (lv_pipeline l) (lv_doc l) s elapsed) in
    match over with
    | Some why => wait id why
    | None =>
      let head := ev_head env (dc_worker (lv_doc l)) in
      let! visit := act_gets (fun e => N.of_nat (S (length (retain (fun r => bool_decide (sr_stage r = name)) (stages_of e id))))) in
      let! host := act_gets en_host in
      let folder := dc_worker (lv_doc l) +:+ "/" +:+ SCRATCH in
      match ev_mkdir env folder with
      | Some error => stop env id "stopped" ("can't make " +:+ folder +:+ ": " +:+ error) by_daemon true
      | None =>
        let row := new_stage_row env l host name visit in
        match st_kind s with
        | KAgent a => begin_agent env l s a head row
        | KRun _ => begin_command env l s head row
        | _ => stop env id "stopped" (name +:+ " is a kind of stage runs can't do yet") by_daemon true
        end
      end
    end).

(** What [begin] does when the worker's terminal is open. *)
Definition opened (id pane : string) (row : StageRow) : act Engine unit :=
  let row := set_sr_terminal row (Some pane) in
  let! row_id := put_stage row in
  let row := set_sr_id row row_id in
  update id (fun l =>
    (set_lv_doc (on_visit l (fun v => set_vs_opening (set_vs_row v row) false)) (set_dc_next (lv_doc l) None),
     Some ("stage", by_daemon, obj [("stage", JString (sr_stage row)); ("visit", from_usize (sr_visit row)); ("kind", JString (sr_kind row));
                                    ("terminal", JString pane)]))).

(** What [resume_run] does then. *)
Definition resumed (id pane : string) : act Engine unit :=
  update id (edit_only (fun l => on_visit l (fun v => set_vs_opening (set_vs_row v (set_sr_terminal (vs_row v) (Some pane))) false))) ;;;
  let! found := the_live id in
  if_live (l ← found; lv_visit l) (fun v =>
    let doc := match sr_doc (vs_row v) with JObject m => JObject (map_insert m "paused" JNull) | other => other end in
    let! _ := put_stage (set_sr_doc (vs_row v) doc) in act_ret tt).

(** The reply to [open_worker]: the pane, or why there is none. *)
Definition open_answered (env : Env) (id : string) (reply : string + string) (k : string -> act Engine unit) : act Engine unit :=
  match reply with
  | inl pane => k pane ;;; set_soon
  | inr why =>
    let! found := the_live id in
    let stage := default "" (l ← found; (fun v => sr_stage (vs_row v)) <$> lv_visit l) in
    update id (edit_only (fun l => on_visit l (fun v => set_vs_ending v true))) ;;;
    stop env id "stopped" ("can't open a terminal for " +:+ stage +:+ ": " +:+ why) by_daemon true
  end.

(** ** [conclude] and [hand_back] *)

Definition hand_back (env : Env) (id : string) : act Engine unit :=
  let! found := the_live id in
  if_live found (fun l =>
    let branch := rr_branch (lv_row l) in
    let note := branch +:+ " is ready: take it with `git merge --ff-only " +:+ branch +:+ "` in your worktree, or look first with `git log HEAD.."
                +:+ branch +:+ "` and `git diff HEAD..." +:+ branch +:+ "`" in
    let worker := dc_worker (lv_doc l) in
    (if ev_is_dir env worker then emit (EGit (rr_repo (lv_row l)) ["worktree"; "remove"; worker]) else act_ret tt) ;;;
    let! stages := act_gets (fun s => stages_of s id) in
    let distinct := length (remove_dups (map sr_stage stages)) in
    let! took := act_get (fun _ => duration_of (elapsed_since (ev_now env) (rr_started (lv_row l)))) in
    let summary := pretty (N.of_nat (length stages)) +:+ " visits of " +:+ pretty (N.of_nat distinct) +:+ " stages, " +:+ clock took +:+ ", "
                   +:+ pretty (dc_sessions (lv_doc l)) +:+ " sessions" in
    update id (edit_only (fun l =>
      set_lv_doc (set_lv_row l (set_rr_end (set_rr_state (lv_row l) "done") (Some (ev_now env)) (Some "handed back")))
        (set_dc_note (lv_doc l) (Some note)))) ;;;
    emit (ERunEvent id "handed_back" "daemon" (obj [("note", JString note)])) ;;;
    tell id ("handed back: " +:+ summary +:+ ". " +:+ note +:+ ". `kanna run show " +:+ id +:+ "` has its visits.")).

Definition next_arrow (next : Next) : Value :=
  match next with NextStage name _ => JString name | NextDone => JString DONE | NextStuck => JNull end.

(** The run's doc after a visit has ended, and what comes next. *)
Definition concluded (p : Pipeline) (d : Doc) (row : StageRow) (ended : Ended) : Next * Doc :=
  let stage := sr_stage row in
  let d := if decide (sr_kind row = "agent")
           then set_dc_answers d (foldl (fun m '(k, v) => <[stage +:+ "." +:+ k := v]> m) (<[stage := ed_answer ended]> (dc_answers d))
                                   (outputs (ed_answer ended)))
           else d in
  let '(next, d) := run_decide p d stage (ed_verdict ended) (ed_failures ended) in
  let d := set_dc_feedback d match next, ed_verdict ended with
                             | NextStage _ false, Some Fail_ => Some (mkFeedback stage (ed_feedback ended) (ed_full ended))
                             | _, _ => None
                             end in
  (next, set_dc_next d match next with NextStage name _ => Some name | _ => None end).

Definition conclude (env : Env) (id : string) (ended : Ended) : act Engine unit :=
  let! found := the_live id in
  if_live (l ← found; v ← lv_visit l; Some (l, v)) (fun '(l, v) =>
    let d := lv_doc l in
    let row := vs_row v in
    let end_ := ev_head env (dc_worker d) in
    let start := default "" (string_of (sr_doc row) "start") in
    let commits := if str_is_empty start || str_is_empty end_ then 0%N else default 0%N (ev_commits env (dc_worker d) start end_) in
    let row := set_sr_doc (set_sr_end row (Some (ev_now env)) (Some (ed_shown ended)))
      (obj [("answer", JString (truncated ANSWER_CHARS (ed_answer ended))); ("feedback", JString (ed_feedback ended));
            ("failures", match ed_failures ended with Some l => JArray (map JString l) | None => JNull end);
            ("note", opt (ed_note ended)); ("end", JString end_); ("commits", from_usize commits)]) in
    let! _ := put_stage row in
    let stage := sr_stage row in
    let '(next, d) := concluded (lv_pipeline l) d row ended in
    let event := obj [("stage", JString stage); ("visit", from_usize (sr_visit row)); ("verdict", JString (ed_shown ended));
                      ("next", next_arrow next); ("commits", from_usize commits); ("note", opt (ed_note ended))] in
    match next with
    | NextStage name true =>
      if_live (dc_starts d !! name) (fun start =>
        emit (EGit (dc_worker d) ["branch"; default "" (sr_branch row) +:+ "-reset-" +:+ pretty (dc_visits d); "HEAD"]) ;;;
        emit (EGit (dc_worker d) ["reset"; "--hard"; start]))
    | _ => act_ret tt
    end ;;;
    update id (fun l => (set_lv_doc (set_lv_visit l None) d, Some ("verdict", by_daemon, event))) ;;;
    match next with
    | NextStage _ _ => set_soon
    | NextDone => hand_back env id
    | NextStuck => stop env id "stopped" ("stuck: no arrow leaves " +:+ stage +:+ " after " +:+ ed_shown ended) by_daemon true
    end).

(** [command_ended]: a pane that still runs is ended first, and the visit concludes after. *)
Definition command_ended (env : Env) (id pane log exit : string) : act Engine unit :=
  let! mine := mark_ending id in
  if negb mine then act_ret tt
  else
    let ended := command_end env log exit in
    if alive env pane then emit (EEndPane pane) ;;; later_do (CbConclude id pane ended)
    else close pane ;;; conclude env id ended.

(** ** [step] and [tick] *)

(** A visit whose agent reported or needs the user is settled for a while first. *)
Definition settled_for (env : Env) (at_ : f64) : bool := fle SETTLE (fsub (ev_now env) at_).

Definition step_agent (env : Env) (id pane agent : string) (v : Visit) : act Engine unit :=
  match vs_reported v with
  | Some (ended, at_) =>
    if settled_for env at_ then let! mine := mark_ending id in if mine : bool then quit_then id pane agent ended else act_ret tt
    else act_ret tt
  | None =>
    match vs_needs v with
    | Some at_ => if settled_for env at_ then park id else act_ret tt
    | None =>
      match ev_pane env pane with
      | None => interrupted env id v
      | Some p =>
        if negb (pn_alive p) then
          close pane ;;;
          stop env id "stopped" (sr_stage (vs_row v) +:+ "'s agent exited without reporting it was done") by_daemon true
        else if match due v with Some due => fle due (ev_now env) | None => false end then timed_out env id pane agent
        else act_ret tt
      end
    end
  end.

Definition step_command (env : Env) (id pane log exit : string) (v : Visit) : act Engine unit :=
  if ev_is_file env exit then command_ended env id pane log exit
  else match ev_pane env pane with
       | None => interrupted env id v
       | Some p =>
         if pn_alive p then act_ret tt
         else
           let code := default 1%Z (pn_exit p) in
           emit (EWrite exit (pretty code +:+ newline)) ;;;
           command_ended env id pane log exit
       end.

Definition step (env : Env) (id : string) : act Engine unit :=
  let! found := the_live id in
  if_live found (fun l =>
    match lv_visit l with
    | None => match dc_next (lv_doc l) with
              | Some next => if decide (lv_state l = "running") then begin env id next else act_ret tt
              | None => act_ret tt
              end
    | Some v =>
      if vs_opening v || vs_ending v || vs_paused v then act_ret tt
      else match sr_terminal (vs_row v) with
           | None => act_ret tt
           | Some pane => match vs_work v with
                          | WAgent agent => step_agent env id pane agent v
                          | WCommand log exit => step_command env id pane log exit v
                          end
           end
    end).

(** The time a visit waits for *)
Definition visit_deadline (v : Visit) : option f64 :=
  if vs_opening v || vs_ending v || vs_paused v then None
  else match vs_reported v with
       | Some (_, at_) => Some (fadd at_ SETTLE)
       | None => match vs_needs v with Some at_ => Some (fadd at_ SETTLE) | None => due v end
       end.

(** [f64::total_cmp] says [x] is the greater; a NaN is taken to be the greatest. *)
Definition total_gt (x y : f64) : bool :=
  match x, y with
  | S754_nan, S754_nan => false
  | S754_nan, _ => true
  | _, S754_nan => false
  | S754_zero false, S754_zero true => true
  | _, _ => flt y x
  end.

(** [min_by(f64::total_cmp)] *)
Definition total_min (l : list f64) : option f64 :=
  match l with
  | [] => None
  | x :: l => Some (foldl (fun least y => if total_gt least y then y else least) x l)
  end.

Definition deadline (s : Engine) : option f64 := total_min (omap (fun l => v ← lv_visit l; visit_deadline v) (en_live s)).

Definition deadline_past (env : Env) (s : Engine) : bool :=
  match deadline s with Some at_ => fle at_ (ev_now env) | None => false end.

Definition to_step (l : Live) : bool :=
  bool_decide (lv_state l = "running") || match lv_visit l with Some v => negb (vs_paused v) | None => false end.

Fixpoint step_each (env : Env) (ids : list string) : act Engine unit :=
  match ids with
  | [] => act_ret tt
  | id :: ids => step env id ;;; step_each env ids
  end.

Definition tick_steps (env : Env) : act Engine unit :=
  let! soon := act_gets en_soon in
  act_modify (fun s => set_en_soon s false) ;;;
  let! late := act_gets (deadline_past env) in
  if soon || late then
    let! ids := act_gets (fun s => map lv_id (retain to_step (en_live s))) in
    step_each env ids ;;;
    act_modify (fun s => set_en_live s (retain is_live (en_live s)))
  else act_ret tt.

(** How long until the next tick, in nanoseconds; the outer [None] is the panic of
    [Duration::from_secs_f64]. *)
Definition next_tick (env : Env) (s : Engine) : option (option N) :=
  if en_soon s then Some (Some 0%N)
  else match deadline s with
       | Some at_ => Some <$> duration_of (elapsed_since at_ (ev_now env))
       | None => Some None
       end.

Definition tick (env : Env) : act Engine (option N) := tick_steps env ;;; act_get (next_tick env).

(** ** What the agents and the user say *)

Definition by_terminal (s : Engine) (pane : string) : option (Live * Visit) :=
  find_map (fun l => v ← lv_visit l; if terminal_is v pane && is_agent (vs_work v) then Some (l, v) else None) (en_live s).

Definition not_a_stage : KmuxError := mkError "not_a_stage" "kanna run done and need are for a stage's agent, in its worker's terminal".

Definition reporting (by_ : option string) : act Engine (Live * Visit) :=
  let! pane := act_lift (ok_or by_ not_a_stage) in
  let! found := act_gets (fun s => by_terminal s pane) in
  let! '(l, v) := act_lift (ok_or found not_a_stage) in
  if vs_ending v || bool_decide (is_Some (vs_reported v)) || vs_paused v
  then act_fail (mkError "ended" (sr_stage (vs_row v) +:+ " has reported already"))
  else act_ret (l, v).

Definition gives_verdicts (l : Live) (v : Visit) : bool :=
  match pipeline_stage (lv_pipeline l) (sr_stage (vs_row v)) with Some s => verdicts s | None => false end.

Definition bad_request (message : string) : KmuxError := mkError "bad_request" message.

Definition verdict_given (stage : string) (given : option string) (gives : bool) : res (option Verdict) :=
  match given, gives with
  | Some "pass", true => Ok (Some Pass)
  | Some "fail", true => Ok (Some Fail_)
  | None, false => Ok None
  | _, true => Err (bad_request (stage +:+ " gives a verdict: kanna run done pass, or kanna run done fail"))
  | Some _, false => Err (bad_request (stage +:+ " gives no verdict: kanna run done"))
  end.

Definition shown_as (v : option Verdict) : string := match v with Some v => verdict_name v | None => "done" end.

Definition done (env : Env) (by_ verdict answer : option string) : act Engine unit :=
  let! '(l, v) := reporting by_ in
  let id := lv_id l in
  let stage := sr_stage (vs_row v) in
  let! verdict := act_lift (verdict_given stage verdict (gives_verdicts l v)) in
  let answer := default "" answer in
  let ended := mkEnded verdict (shown_as verdict) answer answer "" None None in
  let! _ := put_stage (set_sr_doc (vs_row v) (obj [("reported", obj [("verdict", JString (ed_shown ended)); ("answer", JString answer)])])) in
  let state := lv_state l in
  update id (fun l =>
    let l := on_visit l (fun v => set_vs_needs (set_vs_reported v (Some (ended, ev_now env))) None) in
    if bool_decide (state = "waiting") || bool_decide (state = "paused") then
      (set_lv_doc (set_lv_state l "running") (set_dc_why (lv_doc l) None), Some ("resumed", None, obj [("stage", JString stage)]))
    else (l, None)) ;;;
  set_soon.

Definition given_text (text : option string) : option string :=
  match str_trim <$> text with Some t => if str_is_empty t then None else Some t | None => None end.

Definition need (env : Env) (by_ text : option string) : act Engine unit :=
  let! '(l, v) := reporting by_ in
  let! text := act_lift (ok_or (given_text text) (bad_request "say what you need: kanna run need TEXT")) in
  let id := lv_id l in
  let stage := sr_stage (vs_row v) in
  update id (edit_only (fun l => on_visit l (fun v => set_vs_needs v (Some (ev_now env))))) ;;;
  pause id (stage +:+ " needs: " +:+ text) (Some (default "" (sr_terminal (vs_row v))))
    (stage +:+ " needs you: " +:+ text +:+ newline +:+ "Its agent stops once its turn ends, and its session is kept: `kanna run resume "
     +:+ id +:+ " " +:+ in_quotes (of_chars [8230%N]) +:+ "` carries it on with your answer.") ;;;
  set_soon.

(** [status]: the agent's turn has ended. *)
Definition status (pane : string) (ended : bool) : act Engine unit :=
  if negb ended then act_ret tt
  else
    let! found := act_gets (fun s => find_map (fun l =>
      v ← lv_visit l;
      if terminal_is v pane && is_agent (vs_work v) && negb (vs_opening v) && negb (vs_ending v) && negb (vs_paused v) then Some (l, v) else None)
      (en_live s)) in
    if_live found (fun '(l, v) =>
      let id := lv_id l in
      match vs_reported v, vs_work v with
      | Some (ended, _), WAgent agent => let! mine := mark_ending id in if mine : bool then quit_then id pane agent ended else act_ret tt
      | Some _, WCommand _ _ => act_ret tt
      | None, _ =>
        if bool_decide (is_Some (vs_needs v)) then park id
        else if decide (lv_state l = "running") then emit (ERead pane) ;;; later_do (CbScreen id (sr_stage (vs_row v)) pane)
        else act_ret tt
      end).

(** What [status] does when the screen was read. *)
Definition screen_read (id stage pane screen : string) : act Engine unit :=
  let! still := act_gets (fun s => existsb (fun l =>
    bool_decide (lv_id l = id) &&
    match lv_visit l with
    | Some v => terminal_is v pane && negb (bool_decide (is_Some (vs_reported v))) && negb (bool_decide (is_Some (vs_needs v)))
                && negb (vs_ending v) && negb (vs_paused v)
    | None => false
    end) (en_live s)) in
  if still : bool then
    let lines := retain (fun l => negb (str_is_empty l)) (map str_trim_end (str_lines screen)) in
    pause id (stage +:+ " stopped without reporting") None
      (stage +:+ "'s turn ended without it reporting it was done or what it needs, so the run is paused and its session kept. Its screen ended:"
       +:+ newline +:+ newline +:+ join newline lines +:+ newline +:+ newline +:+ "`kanna run resume " +:+ id +:+ " "
       +:+ in_quotes (of_chars [8230%N]) +:+ "` carries it on with your answer.") ;;;
    park id
  else act_ret tt.

Definition too_old (env : Env) (pane why : string) : act Engine bool :=
  let! found := act_gets (fun s => by_terminal s pane) in
  match found with
  | None => act_ret false
  | Some (l, _) => stop env (lv_id l) "stopped" why by_daemon true ;;; act_ret true
  end.

(** [close_run] of a run whose task was closed *)
Definition close_run (env : Env) (id repo worker : string) (terminal : option string) : act Engine unit :=
  update id (edit_only (fun l => on_visit l (fun v => set_vs_ending v true))) ;;;
  if_live terminal close ;;;
  stop env id "stopped" "the task was closed" by_daemon false ;;;
  if ev_is_dir env worker then emit (EGit repo ["worktree"; "remove"; "--force"; worker]) else act_ret tt.

Fixpoint close_runs (env : Env) (runs : list Live) : act Engine unit :=
  match runs with
  | [] => act_ret tt
  | l :: runs =>
    close_run env (lv_id l) (rr_repo (lv_row l)) (dc_worker (lv_doc l)) (v ← lv_visit l; sr_terminal (vs_row v)) ;;; close_runs env runs
  end.

Definition task_closed (env : Env) (task : string) : act Engine unit :=
  let! found := act_gets (fun s => retain (fun l => bool_decide (rr_task (lv_row l) = task) && is_live l) (en_live s)) in
  close_runs env found.

(** ** Requests on a run

    [row] is the run that [find_live] found in the database. *)

Definition stop_run (env : Env) (row : RunRow) (by_ : option string) : act Engine unit :=
  if contains LIVE (rr_state row) then stop env (rr_id row) "stopped" "stopped" (Some (default "user" by_)) false
  else act_fail (mkError "ended" (rr_id row +:+ " has ended already (" +:+ default (rr_state row) (rr_outcome row) +:+ ")")).

Definition resume_run (env : Env) (row : RunRow) (text by_ : option string) : act Engine unit :=
  let text := default CARRY_ON (given_text text) in
  let! found := the_live (rr_id row) in
  let! l := act_lift (ok_or found (mkError "ended" (rr_id row +:+ " has ended (" +:+ default (rr_state row) (rr_outcome row) +:+ ")"))) in
  let! v := act_lift (ok_or (if decide (lv_state l = "paused") then lv_visit l else None)
                        (mkError "not_paused" (rr_id row +:+ " isn't paused (" +:+ lv_state l +:+ ")"))) in
  if negb (vs_paused v) then act_fail (mkError "busy" (sr_stage (vs_row v) +:+ "'s agent is still stopping: try again in a moment"))
  else
    let! s := act_lift (ok_or (pipeline_stage (lv_pipeline l) (sr_stage (vs_row v)))
                          (mkError "failed" (sr_stage (vs_row v) +:+ " isn't in the pipeline any more"))) in
    match st_kind s with
    | KAgent _ =>
      let d := lv_doc l in
      let n := default (dc_visits d) (x ← get (sr_doc (vs_row v)) "n"; as_u64 x) in
      let replies := N.succ (default 0%N (x ← get (sr_doc (vs_row v)) "replies"; as_u64 x)) in
      let reply := SCRATCH +:+ "/reply-" +:+ pretty n +:+ "-" +:+ pretty replies +:+ ".md" in
      let path := dc_worker d +:+ "/" +:+ reply in
      match ev_write env path with
      | Some error => act_fail (mkError "failed" ("can't write " +:+ reply +:+ ": " +:+ error))
      | None =>
        emit (EWrite path text) ;;;
        let pause := default JNull (get (sr_doc (vs_row v)) "paused") in
        let session := string_of pause "session" in
        let paused_at := default (ev_now env) (x ← get pause "at"; as_f64 x) in
        update (lv_id l) (fun l =>
          (set_lv_doc (on_visit (set_lv_state l "running") (fun v =>
             let more := elapsed_since (ev_now env) paused_at in
             let doc := patch (sr_doc (vs_row v)) (obj [("paused", JNull); ("waited", json_f64 (fadd (waited v) more)); ("replies", from_usize replies)]) in
             set_vs_opening (set_vs_paused (set_vs_row v (set_sr_doc (vs_row v) doc)) false) true))
             (set_dc_why (lv_doc l) None),
           Some ("resumed", Some (default "user" by_), obj [("stage", JString (st_name s)); ("reply", JString text)]))) ;;;
        open_worker (lv_id l) (dc_worker d) (ev_reply env (lv_row l) d s session reply) (CbResumed (lv_id l))
      end
    | _ => act_fail (mkError "failed" (st_name s +:+ " isn't an agent stage"))
    end.

(** [start_run], once the task is known and the pipeline's file is read: [base] is what git says
    its branch is at, [made] the run's new worktree and branch, [id] the new run's. *)
Record StartArgs := mkStartArgs {
  sa_task : string;
  sa_repo : string;
  sa_message : option string;
  sa_request : option string;
  sa_shown : string;
  sa_name : string;
  sa_text : string;
  sa_prompts : gmap string string;
  sa_by : option string }.

Definition loaded (text shown : string) (cx : Context) : res Pipeline :=
  match load text cx with
  | Some (Good p) => Ok p
  | Some (Bad errors) => Err (mkError "invalid" (join newline (map (fun e => error_at e shown) errors)))
  | _ => Panic
  end.

Definition budget_value (p : Pipeline) : Value :=
  match pl_budget p with
  | None => JNull
  | Some b => obj [("sessions", match bu_sessions b with Some n => from_usize n | None => JNull end);
                   ("seconds", match bu_time b with Some n => from_usize n | None => JNull end)]
  end.

Definition new_doc (a : StartArgs) (p : Pipeline) (worker base : string) : Doc :=
  let request := match sa_request a with
                 | Some r => if str_is_empty (str_trim r) then default "" (sa_message a) else r
                 | None => default "" (sa_message a)
                 end in
  mkDoc request (sa_shown a) worker base 1 (replicate (length (pl_arrows p)) 0%N) None ∅ ∅ ∅ 0 0 (Some (pl_start p)) None None.

Definition start_run (env : Env) (a : StartArgs) (base : res string) (made : res (string * string)) (id : string) : act Engine N :=
  let! host := act_gets en_host in
  let! p := act_lift (loaded (sa_text a) (sa_shown a) (mkContext (sa_prompts a) (Some host) [] [] ∅)) in
  match unbuilt p with
  | [] =>
    let! base := act_lift base in
    let! '(worker, branch) := act_lift made in
    let d := new_doc a p worker base in
    let value := match doc_to_value d with JObject m => JObject (map_insert m "budget" (budget_value p)) | other => other end in
    let row := mkRunRow id (sa_task a) (sa_repo a) (sa_name a) (hash (sa_text a)) branch "running" (ev_now env) None None value in
    emit (EPutRun row (Some ("started", Some (default "user" (sa_by a)),
            obj [("pipeline", JString (sa_name a)); ("branch", JString branch); ("base", JString base)]))) ;;;
    emit (EAddRevision id "file" (rr_hash row)
            (obj [("text", JString (sa_text a)); ("file", JString (sa_shown a)); ("prompts", map_value JString (sa_prompts a))])) ;;;
    let! worst := act_get (fun _ => match max_sessions p ∅ with Some (Good n) => Some n | _ => None end) in
    act_modify (fun s => set_en_live s (en_live s ++ [mkLive row d p None])) ;;;
    set_soon ;;;
    act_ret worst
  | parts => act_fail (mkError "unsupported" (join newline (map (fun u => sa_shown a +:+ ":" +:+ u) parts)))
  end.

(** ** Answers *)

(** What comes with an answer: the reply to the opening of a terminal, the session an agent said
    it had, the screen. *)
Inductive Answer :=
| AnOpen (reply : string + string)
| AnSession (said : option string)
| AnScreen (screen : string).

Definition answered (env : Env) (cb : Callback) (answer : Answer) : act Engine unit :=
  match cb, answer with
  | CbOpened id row, AnOpen reply => open_answered env id reply (fun pane => opened id pane row)
  | CbResumed id, AnOpen reply => open_answered env id reply (resumed id)
  | CbConclude id pane ended, _ => close pane ;;; conclude env id ended
  | CbParked id pane, AnSession said => park_finish env id pane said
  | CbClose pane, _ => close pane
  | CbScreen id stage pane, AnScreen screen => screen_read id stage pane screen
  | _, _ => act_ret tt
  end.
End Steps.
