(* ===== verification/RunFacts.v ===== *)
(** * What the engine of runs keeps: [crates/kanna-daemon/src/runs.rs]

    The engine is a way to run a pipeline: wherever ticks, answers, reports and requests take a
    run, its stage and its counts are ones that [pick] leads to, and it has not begun more
    sessions than its budget has. *)

From S2P Require Import Prelude Text F64 Json Pipe PipeParse PipeWalk PipeCheck PipeFacts PipeWalkFacts Runs RunEngine.
From stdpp Require Import relations.

(** ** Handlers as changes to the runs and to what is pending *)

Section Lives.
Context {A B : Type} (X : Prop) (E : list Live -> list Callback -> Prop).

(** [lruns X E m Q ls cs]: where the live runs are [ls] and the callbacks [cs] pend, [m] ends
    with runs and callbacks that satisfy [Q], or with an error and ones that satisfy [E]; [X]
    is what a panic needs. *)
Definition lruns {A} (m : act Engine A) (Q : A -> list Live -> list Callback -> Prop) (ls : list Live) (cs : list Callback) : Prop :=
  forall s, en_live s = ls -> en_calls s = cs ->
    runs X (fun s' => E (en_live s') (en_calls s')) m (fun a s' => Q a (en_live s') (en_calls s')) s.

Lemma lruns_bind (m : act Engine A) (k : A -> act Engine B) Q ls cs :
  lruns m (fun a => lruns (k a) Q) ls cs -> lruns (act_bind m k) Q ls cs.
Proof. intros Hm s Hs Hc. apply runs_bind. eapply runs_weaken; [by apply Hm|]. intros a s' Hk. by apply Hk. Qed.

Lemma lruns_ret (a : A) (Q : A -> list Live -> list Callback -> Prop) ls cs : Q a ls cs -> lruns (act_ret a) Q ls cs.
Proof. by intros HQ s <- <-. Qed.
Lemma lruns_fail e (Q : A -> list Live -> list Callback -> Prop) ls cs : E ls cs -> lruns (act_fail e) Q ls cs.
Proof. by intros HQ s <- <-. Qed.
Lemma lruns_gets (f : Engine -> A) (Q : A -> list Live -> list Callback -> Prop) ls cs :
  (forall s, en_live s = ls -> Q (f s) ls cs) -> lruns (act_gets f) Q ls cs.
Proof. intros HQ s <- <-. apply runs_gets. by apply HQ. Qed.
Lemma lruns_lift (r : res A) (Q : A -> list Live -> list Callback -> Prop) ls cs :
  E ls cs -> (forall a, r = Ok a -> Q a ls cs) -> (r = Panic -> X) -> lruns (act_lift r) Q ls cs.
Proof. intros HE HQ HX s <- <-. apply runs_lift; auto. Qed.
Lemma lruns_lift_ok_or (o : option A) e (Q : A -> list Live -> list Callback -> Prop) ls cs :
  E ls cs -> (forall a, o = Some a -> Q a ls cs) -> lruns (act_lift (ok_or o e)) Q ls cs.
Proof. intros HE HQ s <- <-. apply runs_lift_ok_or; auto. Qed.
Lemma lruns_get (f : Engine -> option A) (Q : A -> list Live -> list Callback -> Prop) ls cs :
  (forall s, en_live s = ls -> match f s with Some a => Q a ls cs | None => X end) -> lruns (act_get f) Q ls cs.
Proof. intros HQ s <- <-. specialize (HQ s eq_refl). unfold runs, act_get. by destruct (f s). Qed.
End Lives.

Section Frame.
Context (X : Prop) (E : list Live -> list Callback -> Prop).
Implicit Types (Q : unit -> list Live -> list Callback -> Prop).

Lemma lruns_emit e Q ls cs : Q tt ls cs -> lruns X E (emit e) Q ls cs.
Proof. by intros HQ s <- <-. Qed.
Lemma lruns_modify (f : Engine -> Engine) g Q ls cs :
  (forall s, en_live (f s) = g (en_live s) /\ en_calls (f s) = en_calls s) -> Q tt (g ls) cs -> lruns X E (act_modify f) Q ls cs.
Proof. intros Hf HQ s <- <-. destruct (Hf s) as [El Ec]. unfold runs, act_modify. cbn. by rewrite El, Ec. Qed.
Lemma lruns_weaken {A} (m : act Engine A) (Q Q' : A -> list Live -> list Callback -> Prop) ls cs :
  lruns X E m Q ls cs -> (forall a ls' cs', Q a ls' cs' -> Q' a ls' cs') -> lruns X E m Q' ls cs.
Proof. intros Hm HQ s Hs Hc. eapply runs_weaken; [by apply Hm|]. intros a s'. apply HQ. Qed.
Lemma lruns_maybe (b : bool) e Q ls cs : Q tt ls cs -> lruns X E (if b then emit e else act_ret tt) Q ls cs.
Proof. destruct b; [apply lruns_emit|apply lruns_ret]. Qed.
Lemma lruns_unless (b : bool) e Q ls cs : Q tt ls cs -> lruns X E (if b then act_ret tt else emit e) Q ls cs.
Proof. destruct b; [apply lruns_ret|apply lruns_emit]. Qed.
Lemma lruns_later cb Q ls cs : Q tt ls (cs ++ [cb]) -> lruns X E (later_do cb) Q ls cs.
Proof. by intros HQ s <- <-. Qed.
Lemma lruns_soon Q ls cs : Q tt ls cs -> lruns X E set_soon Q ls cs.
Proof. by intros HQ s <- <-. Qed.
Lemma lruns_live id (Q : option Live -> list Live -> list Callback -> Prop) ls cs :
  Q (List.find (fun l => bool_decide (lv_id l = id)) ls) ls cs -> lruns X E (the_live id) Q ls cs.
Proof. by intros HQ s <- <-. Qed.
Lemma lruns_put_stage `{RunWorld} row (Q : N -> list Live -> list Callback -> Prop) ls cs :
  (forall n, Q n ls cs) -> lruns X E (put_stage row) Q ls cs.
Proof. intros HQ s <- <-. unfold put_stage, runs. cbn. case_decide; apply HQ. Qed.
Lemma lruns_close pane Q ls cs : Q tt ls cs -> lruns X E (close pane) Q ls cs.
Proof. apply lruns_emit. Qed.
Lemma lruns_if_live {A} (o : option A) (k : A -> act Engine unit) Q ls cs :
  (o = None -> Q tt ls cs) -> (forall a, o = Some a -> lruns X E (k a) Q ls cs) -> lruns X E (if_live o k) Q ls cs.
Proof. intros HN HS. destruct o; [by apply HS|]. by apply lruns_ret, HN. Qed.
Lemma lruns_tell id text Q ls cs : Q tt ls cs -> lruns X E (tell id text) Q ls cs.
Proof. intros HQ. apply lruns_bind, lruns_live, lruns_if_live; [done|]. intros. by apply lruns_emit. Qed.
Lemma lruns_end_agent pane agent cb Q ls cs : Q tt ls (cs ++ [cb]) -> lruns X E (end_agent pane agent cb) Q ls cs.
Proof. intros HQ. by apply lruns_bind, lruns_emit, lruns_later. Qed.
Lemma lruns_open_worker id cwd command cb Q ls cs : Q tt ls (cs ++ [cb]) -> lruns X E (open_worker id cwd command cb) Q ls cs.
Proof. intros HQ. by apply lruns_bind, lruns_emit, lruns_later. Qed.
End Frame.

(** ** One run among the others *)

Definition find_id (id : string) (ls : list Live) : option Live := List.find (fun l => bool_decide (lv_id l = id)) ls.

Lemma find_id_Some id ls l : find_id id ls = Some l -> l ∈ ls /\ lv_id l = id.
Proof. intros [Hin He]%List.find_some. split; [by apply list_elem_of_In|]. by apply bool_decide_eq_true in He. Qed.

Lemma find_id_elem ls l : NoDup (map lv_id ls) -> l ∈ ls -> find_id (lv_id l) ls = Some l.
Proof.
  unfold find_id. induction ls as [|x ls IH]; simpl; [by intros _ ?%elem_of_nil|]. intros [Hn Hnd]%NoDup_cons [->|Hl]%elem_of_cons.
  - by rewrite bool_decide_eq_true_2.
  - rewrite bool_decide_eq_false_2; [by apply IH|]. intros E. apply Hn. rewrite E. apply list_elem_of_In, in_map, list_elem_of_In, Hl.
Qed.

(** The run [id] satisfies [P] and every other run [R]. *)
Definition but_one (id : string) (P R : Live -> Prop) (ls : list Live) : Prop :=
  NoDup (map lv_id ls) /\ forall l, l ∈ ls -> if decide (lv_id l = id) then P l else R l.

Definition all_runs (R : Live -> Prop) (ls : list Live) : Prop := NoDup (map lv_id ls) /\ forall l, l ∈ ls -> R l.

Lemma but_one_all id R ls : all_runs R ls <-> but_one id R R ls.
Proof. unfold all_runs, but_one. split; intros [? HR]; (split; [done|]); intros l Hl; specialize (HR l Hl); by case_decide. Qed.

Lemma but_one_weaken id (P P' R R' : Live -> Prop) ls :
  (forall l, lv_id l = id -> P l -> P' l) -> (forall l, lv_id l ≠ id -> R l -> R' l) -> but_one id P R ls -> but_one id P' R' ls.
Proof. intros HP HR' [? HR]. split; [done|]. intros l Hl. specialize (HR l Hl). case_decide; auto. Qed.

Lemma but_one_find id P R ls l : but_one id P R ls -> find_id id ls = Some l -> P l.
Proof. intros [_ HR] [Hin Hid]%find_id_Some. specialize (HR l Hin). by rewrite decide_True in HR. Qed.

(** No run has the id. *)
Lemma but_one_none id (P P' R : Live -> Prop) ls : find_id id ls = None -> but_one id P R ls -> but_one id P' R ls.
Proof.
  intros Hn [Hnd HR]. split; [done|]. intros l Hl. specialize (HR l Hl). case_decide as Ed; [|done].
  apply List.find_none with (x := l) in Hn; [|by apply list_elem_of_In]. by rewrite bool_decide_eq_true_2 in Hn.
Qed.

(** A change that keeps the run's id *)
Definition keeps_id (id : string) (f : Live -> Live) : Prop := forall l, lv_id l = id -> lv_id (f l) = id.

Lemma alter_live_ids id f ls : keeps_id id f -> map lv_id (alter_live id f ls) = map lv_id ls.
Proof. intros Hf. induction ls as [|x ls IH]; simpl; [done|]. case_decide as E; simpl; [by rewrite (Hf x E), E|by rewrite IH]. Qed.

Lemma elem_of_alter_live id f ls l :
  NoDup (map lv_id ls) -> l ∈ alter_live id f ls -> (l ∈ ls /\ lv_id l ≠ id) \/ exists x, find_id id ls = Some x /\ l = f x.
Proof.
  unfold find_id. induction ls as [|x ls IH]; simpl; [by intros _ ?%elem_of_nil|]. intros [Hn Hnd]%NoDup_cons.
  case_decide as E.
  - rewrite bool_decide_eq_true_2 by done. intros [->|Hl]%elem_of_cons; [right; by exists x|]. left. split; [by right|].
    intros E'. apply Hn. rewrite E, <- E'. apply list_elem_of_In, in_map, list_elem_of_In, Hl.
  - rewrite bool_decide_eq_false_2 by done. intros [->|Hl]%elem_of_cons; [left; split; [by left|done]|].
    destruct (IH Hnd Hl) as [[? ?]|?]; [left; split; [by right|done]|by right].
Qed.

Lemma but_one_alter id (P P' R : Live -> Prop) f ls :
  keeps_id id f -> (forall l, find_id id ls = Some l -> P l -> P' (f l)) ->
  but_one id P R ls -> but_one id P' R (alter_live id f ls).
Proof.
  intros Hf HP [Hnd HR]. split; [by rewrite alter_live_ids|]. intros l [[Hin Hne]|(x & Hx & ->)]%elem_of_alter_live; [| |done].
  - specialize (HR l Hin). by rewrite decide_False in HR |- *.
  - pose proof (find_id_Some _ _ _ Hx) as [Hin Hid]. specialize (HR x Hin). rewrite decide_True in HR by done.
    rewrite decide_True by by apply Hf. by apply HP.
Qed.

(** The run is the one it is. *)
Lemma pin R ls l : all_runs R ls -> l ∈ ls -> but_one (lv_id l) (eq l) R ls.
Proof.
  intros [Hnd HR] Hl. split; [done|]. intros x Hx. case_decide as E; [|by apply HR].
  pose proof (find_id_elem ls l Hnd Hl) as H1. pose proof (find_id_elem ls x Hnd Hx) as H2. rewrite E in H2. congruence.
Qed.

Lemma but_one_pin id P R ls l : but_one id P R ls -> find_id id ls = Some l -> but_one id (eq l) R ls /\ P l.
Proof.
  intros Hb Hl. split; [|by eapply but_one_find]. destruct Hb as [Hnd HR]. split; [done|]. intros x Hx. specialize (HR x Hx).
  case_decide as E; [|done]. pose proof (find_id_elem ls x Hnd Hx) as H2. rewrite E in H2. congruence.
Qed.

(** ** [update] and [mark_ending] *)

(** A run as [update] leaves it: its row has the doc that was saved. *)
Definition kept (l : Live) : Live := set_lv_row l (saved_row l).

Section Update.
Context (X : Prop) (E : list Live -> list Callback -> Prop).

(** An edit that takes the run from [P] to [P'] leaves the others as they are. *)
Lemma lruns_update id (P P' R : Live -> Prop) edit (Q : unit -> list Live -> list Callback -> Prop) ls cs :
  (forall l, lv_id (edit l).1 = lv_id l) -> (forall l, lv_id l = id -> P l -> P' (kept (edit l).1)) ->
  but_one id P R ls -> (forall ls', but_one id P' R ls' -> Q tt ls' cs) -> lruns X E (update id edit) Q ls cs.
Proof.
  intros Hid HP Hb HQ. apply lruns_bind, lruns_live. fold (find_id id ls). apply lruns_if_live.
  - intros Hn. apply HQ. by eapply but_one_none.
  - intros l Hl. pose proof (find_id_Some _ _ _ Hl) as [_ El].
    assert (but_one id P' R (alter_live id (fun _ => kept (edit l).1) ls)) as Hb'.
    { eapply but_one_alter; [| |exact Hb].
      - intros x _. change (lv_id (edit l).1 = id). by rewrite Hid.
      - intros x Hx Px. rewrite Hl in Hx. simplify_eq. by apply HP. }
    apply HQ in Hb'. destruct (edit l) as [l' event]. simpl in Hb'. intros s <- <-. unfold runs. cbn. exact Hb'.
Qed.

Lemma lruns_mark id (P P' R : Live -> Prop) (Q : bool -> list Live -> list Callback -> Prop) ls cs :
  (forall l v, lv_id l = id -> P l -> lv_visit l = Some v -> vs_ending v = false -> P' (on_visit l (fun v => set_vs_ending v true))) ->
  but_one id P R ls -> (forall ls', but_one id P' R ls' -> Q true ls' cs) -> Q false ls cs -> lruns X E (mark_ending id) Q ls cs.
Proof.
  intros HP Hb HT HF s <- <-. unfold mark_ending, runs, act_state. destruct (find_live s id) as [l|] eqn:Hl; simpl; [|done].
  destruct (lv_visit l) as [v|] eqn:Hv; [|done]. destruct (vs_ending v) eqn:He; [done|]. simpl. apply HT.
  pose proof (find_id_Some _ _ _ Hl) as [_ El]. eapply but_one_alter; [| |exact Hb]; [by intros x Ex|].
  intros x Hx Px. change (find_live s id = Some x) in Hx. rewrite Hl in Hx. simplify_eq. by eapply HP.
Qed.
End Update.

(** ** The invariant of a run *)

(** Where a run is: at the stage it visits, or before the one that is next. *)
Definition place (l : Live) : option string :=
  match lv_visit l with Some v => Some (sr_stage (vs_row v)) | None => dc_next (lv_doc l) end.

Definition arrows_taken (taken : list N) : nat := sum_list_with N.to_nat taken.

Definition within_max (p : Pipeline) (taken : list N) : Prop :=
  forall i a n max, pl_arrows p !! i = Some a -> ar_max a = Some max -> taken !! i = Some n -> (n <= max)%N.

Definition within_budget (p : Pipeline) (sessions : N) : Prop :=
  forall b max, pl_budget p = Some b -> bu_sessions b = Some max -> (sessions <= max)%N.

Definition fresh_counts (p : Pipeline) : list N := replicate (length (pl_arrows p)) 0%N.

(** The run's place and counts are ones that steps of the pipeline lead to. *)
Definition on_course (p : Pipeline) (here : option string) (taken : list N) : Prop :=
  exists n c, nsteps (pipe_step p) n (pl_start p, fresh_counts p) c /\ (forall x, here = Some x -> c = (x, taken)) /\
    arrows_taken taken <= S n /\ within_max p taken.

(** The times that the daemon's clock has shown *)
Class Clock := clock_shows : f64 -> Prop.

Section Invariant.
Context {clk : Clock}.

Record live_base (l : Live) : Prop := {
  lb_checked : exists cx, check (lv_pipeline l) cx = Some (Good tt);
  lb_built : unbuilt (lv_pipeline l) = [];
  lb_stage : forall v, lv_visit l = Some v -> is_Some (pipeline_stage (lv_pipeline l) (sr_stage (vs_row v)));
  lb_course : on_course (lv_pipeline l) (place l) (dc_taken (lv_doc l));
  lb_sessions : within_budget (lv_pipeline l) (dc_sessions (lv_doc l));
  lb_started : clock_shows (rr_started (lv_row l)) }.

(** A live run is somewhere; one that is over is nowhere. *)
Record live_ok (l : Live) : Prop := {
  lk_base : live_base l;
  lk_place : is_live l = true -> is_Some (place l);
  lk_over : is_live l = false -> lv_visit l = None /\ place l = None }.

(** An edit that leaves the run where it is *)
Record same_course (l l' : Live) : Prop := {
  sc_pipeline : lv_pipeline l' = lv_pipeline l;
  sc_visit : (fun v => sr_stage (vs_row v)) <$> lv_visit l' = (fun v => sr_stage (vs_row v)) <$> lv_visit l;
  sc_next : lv_visit l = None -> dc_next (lv_doc l') = dc_next (lv_doc l);
  sc_taken : dc_taken (lv_doc l') = dc_taken (lv_doc l);
  sc_sessions : dc_sessions (lv_doc l') = dc_sessions (lv_doc l);
  sc_started : rr_started (lv_row l') = rr_started (lv_row l) }.

Lemma same_place l l' : same_course l l' -> place l' = place l.
Proof.
  intros [_ Hv Hn _ _ _]. unfold place. destruct (lv_visit l), (lv_visit l'); simplify_eq/=; auto; congruence.
Qed.

Lemma same_base l l' : same_course l l' -> live_base l -> live_base l'.
Proof.
  intros Hs [H1 H2 H3 H4 H5 H6]. pose proof (same_place _ _ Hs) as Hp. destruct Hs as [E1 E2 E3 E4 E5 E6].
  split; rewrite ?E1, ?E4, ?E5, ?E6, ?Hp; try done. intros v Ev. rewrite Ev in E2. destruct (lv_visit l) as [w|] eqn:Ew; [|done].
  simplify_eq/=. rewrite E2. by apply H3.
Qed.

Lemma same_ok l l' : same_course l l' -> is_live l' = is_live l -> live_ok l -> live_ok l'.
Proof.
  intros Hs Hl [H1 H2 H3]. pose proof (same_place _ _ Hs) as Hp. split; [by eapply same_base|by rewrite Hl, Hp|].
  rewrite Hl, Hp. intros Hf. destruct (H3 Hf) as [Hv ?]. split; [|done]. pose proof (sc_visit _ _ Hs) as E. rewrite Hv in E.
  by destruct (lv_visit l').
Qed.

Lemma kept_ok l : live_ok l -> live_ok (kept l).
Proof. apply same_ok; done. Qed.

(** A visit's stage stays. *)
Lemma on_visit_same f l : (forall v, sr_stage (vs_row (f v)) = sr_stage (vs_row v)) -> same_course l (on_visit l f).
Proof. intros Hf. split; try done. simpl. destruct (lv_visit l); simpl; [by rewrite Hf|done]. Qed.

Lemma same_refl l : same_course l l.
Proof. by split. Qed.

Lemma live_visit l v : live_ok l -> lv_visit l = Some v -> is_live l = true.
Proof. intros Hok Hv. destruct (is_live l) eqn:E; [done|]. destruct (lk_over _ Hok E) as [Hn _]. congruence. Qed.

(** ** What is pending

    While a visit opens, one answer to an opening is pending for its run; while it ends, one
    end of its agent or command; otherwise none.  An opening is the one of the visit, and a
    pending conclusion is the visit's own. *)

Definition opens_for (id : string) (cb : Callback) : bool :=
  match cb with CbOpened i _ | CbResumed i => bool_decide (i = id) | _ => false end.
Definition ends_for (id : string) (cb : Callback) : bool :=
  match cb with CbConclude i _ _ | CbParked i _ => bool_decide (i = id) | _ => false end.
Definition concerns (id : string) (cb : Callback) : bool := opens_for id cb || ends_for id cb.

Definition opens (id : string) (cs : list Callback) : nat := length (retain (opens_for id) cs).
Definition ends (id : string) (cs : list Callback) : nat := length (retain (ends_for id) cs).

(** The end is the one the visit's agent reported, or a time-out; a command's has a verdict. *)
Definition own_end (v : Visit) (pane : string) (ended : Ended) : Prop :=
  vs_paused v = false /\ sr_terminal (vs_row v) = Some pane /\
  match vs_work v with
  | WAgent _ => (exists at_, vs_reported v = Some (ended, at_)) \/ ended = timed_out_end
  | WCommand _ _ => is_Some (ed_verdict ended)
  end.

Record fits_visit (cs : list Callback) (id : string) (v : Visit) : Prop := {
  fv_opens : opens id cs = if vs_opening v then 1 else 0;
  fv_ends : ends id cs = if vs_ending v then 1 else 0;
  fv_opening : vs_opening v = true -> vs_ending v = false /\ vs_paused v = false;
  fv_paused : vs_paused v = true -> vs_ending v = false;
  fv_row : forall row, CbOpened id row ∈ cs -> sr_stage row = sr_stage (vs_row v);
  fv_end : forall pane ended, CbConclude id pane ended ∈ cs -> own_end v pane ended }.

Definition fits (cs : list Callback) (l : Live) : Prop :=
  match lv_visit l with
  | Some v => fits_visit cs (lv_id l) v
  | None => is_live l = true -> opens (lv_id l) cs = 0 /\ ends (lv_id l) cs = 0
  end.

Definition sound (cs : list Callback) (l : Live) : Prop := live_ok l /\ fits cs l.
Definition all_sound (ls : list Live) (cs : list Callback) : Prop := all_runs (sound cs) ls.

Lemma opens_mid id pre cb post : opens id (pre ++ cb :: post) = opens id (pre ++ post) + if opens_for id cb then 1 else 0.
Proof. unfold opens, retain. rewrite !List.filter_app, !length_app. simpl. destruct (opens_for id cb); simpl; lia. Qed.

Lemma ends_mid id pre cb post : ends id (pre ++ cb :: post) = ends id (pre ++ post) + if ends_for id cb then 1 else 0.
Proof. unfold ends, retain. rewrite !List.filter_app, !length_app. simpl. destruct (ends_for id cb); simpl; lia. Qed.

Lemma elem_of_mid (pre post : list Callback) cb x : x ∈ pre ++ cb :: post <-> x = cb \/ x ∈ pre ++ post.
Proof. rewrite !elem_of_app, elem_of_cons. tauto. Qed.

Lemma opens_elem id cs cb : cb ∈ cs -> opens_for id cb = true -> opens id cs ≠ 0.
Proof. intros Hin Hf Hz. apply length_zero_iff_nil in Hz. assert (cb ∈ retain (opens_for id) cs) as Hr by by apply elem_of_retain. rewrite Hz in Hr. by apply elem_of_nil in Hr. Qed.

Lemma ends_elem id cs cb : cb ∈ cs -> ends_for id cb = true -> ends id cs ≠ 0.
Proof. intros Hin Hf Hz. apply length_zero_iff_nil in Hz. assert (cb ∈ retain (ends_for id) cs) as Hr by by apply elem_of_retain. rewrite Hz in Hr. by apply elem_of_nil in Hr. Qed.

Lemma no_ends id cs pane ended : ends id cs = 0 -> ¬ CbConclude id pane ended ∈ cs.
Proof. intros Hz Hin. apply (ends_elem id cs _ Hin); [|done]. simpl. by apply bool_decide_eq_true_2. Qed.

Lemma no_opens id cs row : opens id cs = 0 -> ¬ CbOpened id row ∈ cs.
Proof. intros Hz Hin. apply (opens_elem id cs _ Hin); [|done]. simpl. by apply bool_decide_eq_true_2. Qed.

(** A callback that does not concern a run can come and go. *)
Lemma fits_mid pre cb post l : concerns (lv_id l) cb = false -> fits (pre ++ cb :: post) l <-> fits (pre ++ post) l.
Proof.
  unfold concerns. intros [Ho He]%orb_false_iff. unfold fits.
  assert (opens (lv_id l) (pre ++ cb :: post) = opens (lv_id l) (pre ++ post)) as Eo by (rewrite opens_mid, Ho; lia).
  assert (ends (lv_id l) (pre ++ cb :: post) = ends (lv_id l) (pre ++ post)) as Ee by (rewrite ends_mid, He; lia).
  destruct (lv_visit l) as [v|]; [|by rewrite Eo, Ee].
  assert (forall row, CbOpened (lv_id l) row ∈ pre ++ cb :: post <-> CbOpened (lv_id l) row ∈ pre ++ post) as Er.
  { intros row. rewrite elem_of_mid. split; [|tauto]. intros [<-|?]; [|done]. simpl in Ho. by rewrite bool_decide_eq_true_2 in Ho. }
  assert (forall pane ended, CbConclude (lv_id l) pane ended ∈ pre ++ cb :: post <-> CbConclude (lv_id l) pane ended ∈ pre ++ post) as Ec.
  { intros pane ended. rewrite elem_of_mid. split; [|tauto]. intros [<-|?]; [|done]. simpl in He. by rewrite bool_decide_eq_true_2 in He. }
  split; intros [H1 H2 H3 H3' H4 H5]; split; rewrite ?Eo, ?Ee in *; try done; intros; (apply H4 || apply H5); by rewrite ?Er, ?Ec in *.
Qed.

Lemma fits_push cs cb l : concerns (lv_id l) cb = false -> fits cs l -> fits (cs ++ [cb]) l.
Proof. intros Hc Hf. apply fits_mid; [done|]. by rewrite app_nil_r. Qed.

(** A new callback for the run [id] leaves the others sound. *)
Lemma push_one id (P P' : Live -> Prop) cs cb ls :
  (forall i, i ≠ id -> concerns i cb = false) -> (forall l, lv_id l = id -> P l -> P' l) ->
  but_one id P (sound cs) ls -> but_one id P' (sound (cs ++ [cb])) ls.
Proof.
  intros Hc HP. apply but_one_weaken; [done|]. intros l Hne [Hok Hf]. split; [done|]. apply fits_push; [|done]. by apply Hc.
Qed.

(** One that concerns no run is no matter. *)
Lemma push_idle cs cb ls : (forall i, concerns i cb = false) -> all_sound ls cs -> all_sound ls (cs ++ [cb]).
Proof. intros Hc [Hnd Hs]. split; [done|]. intros l Hl. destruct (Hs l Hl) as [Hok Hf]. split; [done|]. by apply fits_push. Qed.

Lemma fits_same cs l l' :
  lv_id l' = lv_id l -> lv_visit l' = lv_visit l -> (is_live l' = true -> is_live l = true) -> fits cs l -> fits cs l'.
Proof. intros Ei Ev Hl. unfold fits. rewrite Ei, Ev. destruct (lv_visit l); [done|]. intros Hf Hl'. auto. Qed.

Lemma kept_sound cs l : sound cs l -> sound cs (kept l).
Proof. intros [Hok Hf]. split; [by apply kept_ok|]. by apply (fits_same cs l). Qed.

End Invariant.

(** ** Counts along a course *)

Lemma alter_as_insert {A} (f : A -> A) i (l : list A) x : l !! i = Some x -> alter f i l = <[i := f x]> l.
Proof. revert i. induction l as [|y l IH]; intros [|i]; simpl; try done; [by intros [= ->]|]. intros Hx. f_equal. by apply IH. Qed.

Lemma arrows_taken_insert i (taken : list N) n : taken !! i = Some n -> arrows_taken (<[i := (n + 1)%N]> taken) = S (arrows_taken taken).
Proof.
  unfold arrows_taken. revert i. induction taken as [|y l IH]; intros [|i]; simpl; try done; [intros [= ->]; lia|].
  intros Hx. rewrite (IH i Hx). lia.
Qed.

Lemma within_max_insert p s verdict stalled taken i a n :
  within_max p taken -> pick p s verdict taken stalled = Some (i, a) -> taken !! i = Some n -> within_max p (<[i := (n + 1)%N]> taken).
Proof.
  intros Hw Hp Hn j b m max Hb Hmax. destruct (decide (i = j)) as [->|Hne]; [|rewrite list_lookup_insert_ne by done; by eapply Hw].
  rewrite list_lookup_insert_eq by by eapply lookup_lt_Some. intros [= <-]. destruct (pick_Some _ _ _ _ _ _ _ Hp) as [Ha He]. simplify_eq.
  apply eligible_true in He as (_ & _ & _ & Hlt). specialize (Hlt max Hmax). rewrite Hn in Hlt. simpl in Hlt. lia.
Qed.

Lemma course_counts p n c0 c :
  nsteps (pipe_step p) n c0 c -> within_max p c0.2 ->
  length c.2 = length c0.2 /\ arrows_taken c.2 = n + arrows_taken c0.2 /\ within_max p c.2.
Proof.
  induction 1 as [c|n c1 c2 c3 Hs Hn IH]; [done|]. intros Hw. destruct Hs as [s here taken verdict stalled i a m Hst Hp Hd Hm]. simpl in *.
  destruct IH as (Hl & Ha & Hw'); [by eapply within_max_insert|]. rewrite Hl, Ha, length_insert, arrows_taken_insert by done. split_and!; [done|lia|done].
Qed.

Lemma fresh_within p : within_max p (fresh_counts p).
Proof. intros i a n max _ _ Hn. apply lookup_replicate in Hn as [-> _]. lia. Qed.

Lemma fresh_taken p : arrows_taken (fresh_counts p) = 0.
Proof. unfold arrows_taken, fresh_counts. induction (length (pl_arrows p)) as [|n IH]; simpl; [done|]. by rewrite IH. Qed.

Lemma course_start p n c :
  nsteps (pipe_step p) n (pl_start p, fresh_counts p) c ->
  length c.2 = length (pl_arrows p) /\ arrows_taken c.2 = n /\ within_max p c.2.
Proof.
  intros Hn. destruct (course_counts p n _ c Hn (fresh_within p)) as (Hl & Ha & Hw). simpl in *. rewrite fresh_taken in Ha.
  unfold fresh_counts in Hl. rewrite length_replicate in Hl. split_and!; [done|lia|done].
Qed.

(** ** [run_decide] takes a step of the pipeline *)

Lemma run_decide_course p d stage verdict failures next d' :
  on_course p (Some stage) (dc_taken d) -> is_Some (pipeline_stage p stage) ->
  run_decide p d stage verdict failures = (next, d') ->
  on_course p match next with NextStage name _ => Some name | _ => None end (dc_taken d') /\
  dc_sessions d' = dc_sessions d /\ (forall name reset, next = NextStage name reset -> name ≠ DONE).
Proof.
  intros (n & c & Hn & Hc & _ & _) [here Hst]. specialize (Hc stage eq_refl). subst c.
  destruct (course_start p n _ Hn) as (Hlen & Ht & Hw). simpl in Hlen, Ht, Hw. unfold run_decide.
  set (stalled := match failures, verdict with Some now, Some Fail_ => bool_decide (dc_failures d !! stage = Some now) | _, _ => false end).
  set (d1 := match failures with Some now => _ | None => d end).
  assert (dc_taken d1 = dc_taken d /\ dc_sessions d1 = dc_sessions d) as [E1 E2] by (unfold d1; by destruct failures).
  cbn [dc_taken set_dc_taken]. rewrite E1. unfold resized. rewrite decide_False by lia.
  destruct (pick p stage verdict (dc_taken d) stalled) as [[i a]|] eqn:Hp.
  - destruct (pick_Some _ _ _ _ _ _ _ Hp) as [Ha _]. assert (is_Some (dc_taken d !! i)) as [m Hm].
    { apply lookup_lt_is_Some. rewrite Hlen. by eapply lookup_lt_Some. }
    rewrite (alter_as_insert _ _ _ _ Hm). replace (N.succ m) with (m + 1)%N by lia.
    assert (within_max p (<[i := (m + 1)%N]> (dc_taken d))) as Hw' by by eapply within_max_insert.
    case_decide as Hd; intros [= <- <-]; simpl; (split; [|split; [done|]]).
    + exists n, (stage, dc_taken d). split_and!; [done|done| |done]. rewrite arrows_taken_insert by done. lia.
    + done.
    + exists (S n), (ar_to a, <[i := (m + 1)%N]> (dc_taken d)). split_and!; [|by intros x [= <-]| |done].
      * eapply nsteps_r; [exact Hn|]. by eapply take_step.
      * rewrite arrows_taken_insert by done. lia.
    + intros name reset [= <- <-]. done.
  - intros [= <- <-]. simpl. split; [|done]. exists n, (stage, dc_taken d). split_and!; [done|done|lia|done].
Qed.

(** ** What a stage costs *)

Lemma unbuilt_nil p s : unbuilt p = [] -> s ∈ pl_stages p -> unbuilt_parts s = [].
Proof. intros Hu Hs. apply (flat_map_nil _ _ s) in Hu; [|done]. by apply map_eq_nil in Hu. Qed.

Lemma built_cost p s : unbuilt p = [] -> s ∈ pl_stages p -> exists c, stage_cost s = Some c /\ (c <= 1)%N.
Proof.
  intros Hu Hs. pose proof (unbuilt_nil p s Hu Hs) as Hp. unfold unbuilt_parts in Hp. apply app_eq_nil in Hp as [Hp _].
  unfold stage_cost, stage_sessions, stage_agent. destruct (st_kind s) as [a|c|q|f]; try (exists 0%N; split; [done|lia]).
  apply app_eq_nil in Hp as [He Hp]. apply app_eq_nil in Hp as [Ha _].
  destruct (ag_each a); [done|]. destruct (ag_attempts a); [done|]. exists 1%N. split; [done|lia].
Qed.

Lemma over_budget_within p d s elapsed c :
  over_budget p d s elapsed = Some None -> within_budget p (dc_sessions d) -> stage_cost s = Some c ->
  within_budget p (dc_sessions d + c).
Proof.
  unfold over_budget. intros Ho Hw Hc b max Hb Hmax. rewrite Hb, Hc in Ho. simpl in Ho. rewrite Hmax in Ho. simpl in Ho.
  destruct (0 <? c)%N eqn:E0; simpl in Ho; [|apply N.ltb_ge in E0; specialize (Hw b max Hb Hmax); lia].
  destruct (max <? dc_sessions d + c)%N eqn:E1; [done|]. by apply N.ltb_ge in E1.
Qed.

Lemma over_budget_total p d s elapsed : is_Some (stage_cost s) -> is_Some (over_budget p d s elapsed).
Proof. unfold over_budget. intros [c ->]. destruct (pl_budget p); simpl; by eexists. Qed.
