(* ===== verification/RunSteps.v ===== *)
(** * Each step of the engine keeps its runs sound: [crates/kanna-daemon/src/runs.rs] *)

From S2P Require Import Prelude Text F64 Json Pipe PipeParse PipeWalk PipeCheck PipeFacts PipeWalkFacts Runs RunEngine RunFacts.
From stdpp Require Import relations.

(** The rules of [lruns], one per kind of step. *)
Ltac lstep :=
  lazymatch goal with
  | |- lruns _ _ (act_bind _ _) _ _ _ => apply lruns_bind
  | |- lruns _ _ (act_ret _) _ _ _ => apply lruns_ret
  | |- lruns _ _ (act_fail _) _ _ _ => apply lruns_fail
  | |- lruns _ _ (emit _) _ _ _ => apply lruns_emit
  | |- lruns _ _ (if _ then emit _ else act_ret tt) _ _ _ => apply lruns_maybe
  | |- lruns _ _ (if _ then act_ret tt else emit _) _ _ _ => apply lruns_unless
  | |- lruns _ _ (later_do _) _ _ _ => apply lruns_later
  | |- lruns _ _ set_soon _ _ _ => apply lruns_soon
  | |- lruns _ _ (close _) _ _ _ => apply lruns_close
  | |- lruns _ _ (tell _ _) _ _ _ => apply lruns_tell
  | |- lruns _ _ (end_agent _ _ _) _ _ _ => apply lruns_end_agent
  | |- lruns _ _ (quit_then _ _ _ _) _ _ _ => apply lruns_end_agent
  | |- lruns _ _ (open_worker _ _ _ _) _ _ _ => apply lruns_open_worker
  | |- lruns _ _ (put_stage _) _ _ _ => apply lruns_put_stage; intros ?
  | |- lruns _ _ (the_live _) _ _ _ => apply lruns_live
  | |- lruns _ _ (if ?b then _ else _) _ _ _ => destruct b eqn:?
  | |- lruns _ _ (match ?o with _ => _ end) _ _ _ => case_match
  end.

Section Steps.
Context `{RunWorld} {clk : Clock} (env : Env).

(** The one panic: a clock so far from a time it showed that what is between is no [Duration]. *)
Definition clock_breaks : Prop := exists started, clock_shows started /\ duration_of (elapsed_since (ev_now env) started) = None.

Abbreviation steps := (lruns clock_breaks all_sound).
Abbreviation keeps m ls cs := (steps m (fun _ => all_sound) ls cs).

Lemma sound_one id ls cs : all_sound ls cs <-> but_one id (sound cs) (sound cs) ls.
Proof. apply but_one_all. Qed.

Lemma base_of ls cs id : all_sound ls cs -> but_one id live_base (sound cs) ls.
Proof. intros Hok. eapply but_one_weaken; [| |by apply sound_one]; [|done]. by intros ? _ [[]]. Qed.

(** An [update] after which the run is sound again *)
Lemma update_sound id (P : Live -> Prop) edit (Q : unit -> list Live -> list Callback -> Prop) ls cs :
  (forall l, lv_id (edit l).1 = lv_id l) -> (forall l, lv_id l = id -> P l -> sound cs (edit l).1) ->
  but_one id P (sound cs) ls -> (forall ls', all_sound ls' cs -> Q tt ls' cs) -> steps (update id edit) Q ls cs.
Proof.
  intros Hid HP Hb HQ. eapply (lruns_update _ _ id P (sound cs) (sound cs)); [done| |done|].
  - intros l El Pl. apply kept_sound. by apply HP.
  - intros ls' Hb'. apply HQ. by apply (sound_one id).
Qed.

(** *** Stopping *)

Lemma stopped_sound state why cs l : contains LIVE state = false -> live_base l -> sound cs (stopped env state why l).
Proof.
  intros Hs [H1 H2 H3 (n & c & Hn & Hc & Ha & Hm) H5]. split; [split; [split| |]|]; simpl; try done.
  - by exists n, c.
  - intros E. change (contains LIVE state = true) in E. congruence.
  - unfold fits. simpl. intros E. change (contains LIVE state = true) in E. congruence.
Qed.

Lemma stop_visit_ok v (Q : unit -> list Live -> list Callback -> Prop) ls cs :
  (forall cs', cs' = cs \/ (exists pane, cs' = cs ++ [CbClose pane]) -> Q tt ls cs') -> steps (stop_visit env v) Q ls cs.
Proof. intros HQ. unfold stop_visit. repeat lstep; apply HQ; auto; right; by eexists. Qed.

Lemma idle_one id (P : Live -> Prop) cs cb ls :
  (forall i, concerns i cb = false) -> but_one id P (sound cs) ls -> but_one id P (sound (cs ++ [cb])) ls.
Proof. intros Hc. by apply push_one. Qed.

Lemma stop_ok id state why by_ telling ls cs :
  contains LIVE state = false -> but_one id live_base (sound cs) ls -> keeps (stop env id state why by_ telling) ls cs.
Proof.
  intros Hs Hb. unfold stop. do 2 lstep. lstep.
  assert (forall cs', but_one id live_base (sound cs') ls ->
    keeps (update id (fun l => (stopped env state why l, Some ("stopped", by_, obj [("why", JString why)])));;;
     (if telling then let! found := the_live id in
        tell id (why +:+ ". The run's branch " +:+ default "" ((fun l => rr_branch (lv_row l)) <$> found)
             +:+ " is kept for you to look at; `kanna run show " +:+ id +:+ "` has its visits.") else act_ret tt)) ls cs') as Hrest.
  { intros cs' Hb'. lstep. eapply update_sound; [done| |exact Hb'|].
    - intros l _. by apply stopped_sound.
    - intros ls' Hok. repeat lstep; done. }
  apply lruns_if_live; [intros _; by apply Hrest|]. intros v _. apply stop_visit_ok.
  intros cs' [->|[pane ->]]; apply Hrest; [done|]. by apply idle_one.
Qed.

Lemma stop_sound id why by_ telling ls cs : all_sound ls cs -> keeps (stop env id "stopped" why by_ telling) ls cs.
Proof. intros Hok. apply stop_ok; [done|]. by apply base_of. Qed.

(** *** Waiting and pausing *)

Definition going (cs : list Callback) (l : Live) : Prop := sound cs l /\ is_live l = true.

Lemma going_pin ls cs l : all_sound ls cs -> l ∈ ls -> is_live l = true -> but_one (lv_id l) (going cs) (sound cs) ls.
Proof.
  intros Hok Hin Hl. eapply but_one_weaken; [| |by apply pin]; [|done]. intros x _ <-. split; [|done]. by apply (proj2 Hok).
Qed.

Lemma restate_sound cs l state why :
  going cs l -> contains LIVE state = true -> going cs (set_lv_doc (set_lv_state l state) (set_dc_why (lv_doc l) why)).
Proof.
  intros [[Hok Hf] Hl] Hs. split; [|done]. split; [by apply (same_ok l); [by split|by rewrite Hl|]|].
  by apply (fits_same cs l).
Qed.

Lemma wait_ok id why ls cs : but_one id (going cs) (sound cs) ls -> keeps (wait id why) ls cs.
Proof.
  intros Hb. unfold wait. lstep. eapply update_sound; [done| |exact Hb|].
  - intros l _ Hg. by apply (restate_sound cs l "waiting" (Some why)).
  - intros ls' Hok. by lstep.
Qed.

(** Pausing leaves the visit as it is. *)
Lemma pause_ok id why by_ text (o : option Visit -> Prop) (Q : unit -> list Live -> list Callback -> Prop) ls cs :
  but_one id (fun l => going cs l /\ o (lv_visit l)) (sound cs) ls ->
  (forall ls', but_one id (fun l => sound cs l /\ o (lv_visit l)) (sound cs) ls' -> Q tt ls' cs) -> steps (pause id why by_ text) Q ls cs.
Proof.
  intros Hb HQ. unfold pause. lstep. eapply (lruns_update _ _ id _ (fun l => sound cs l /\ o (lv_visit l))); [done| |exact Hb|].
  - intros l _ [Hg Ho]. split; [|exact Ho]. apply kept_sound. by apply (restate_sound cs l "paused" (Some why)).
  - intros ls' Hok. lstep. by apply HQ.
Qed.

(** *** Ending a visit

    [mark_ending] and the callback that follows it are one step: between them the run is marked
    and nothing is pending for it. *)

(** The visit's end was marked and is not pending yet. *)
Definition marked (cs : list Callback) (l : Live) (v : Visit) (l' : Live) : Prop :=
  sound cs l /\ lv_visit l = Some v /\ vs_ending v = false /\ l' = on_visit l (fun v => set_vs_ending v true).

Lemma marked_end cs l v l' cb :
  marked cs l v l' -> vs_opening v = false -> vs_paused v = false ->
  (exists pane, cb = CbParked (lv_id l) pane) \/ (exists pane ended, cb = CbConclude (lv_id l) pane ended /\ own_end v pane ended) ->
  sound (cs ++ [cb]) l'.
Proof.
  intros ([Hok Hf] & Hv & He & ->) Ho Hp Hcb. split; [apply (same_ok l); [by apply on_visit_same|done|done]|].
  unfold fits in *. change (lv_id (on_visit l _)) with (lv_id l). simpl. rewrite Hv in *. simpl.
  destruct Hf as [H1 H2 H3 H3' H4 H5]. rewrite He in H2. rewrite Ho in H1.
  assert (opens_for (lv_id l) cb = false /\ ends_for (lv_id l) cb = true) as [Eo Ee].
  { destruct Hcb as [[pane ->]|(pane & ended & -> & _)]; simpl; by rewrite bool_decide_eq_true_2. }
  split; cbn [set_vs_ending vs_opening vs_ending vs_paused vs_row].
  - rewrite opens_mid, Eo, app_nil_r, Ho. lia.
  - rewrite ends_mid, Ee, app_nil_r. lia.
  - congruence.
  - congruence.
  - intros row [Hin|<-%list_elem_of_singleton]%elem_of_app; [by apply H4|]. destruct Hcb as [[pane ?]|(pane & ended & ? & _)]; done.
  - intros pane ended [Hin|<-%list_elem_of_singleton]%elem_of_app; [exfalso; by eapply no_ends|].
    destruct Hcb as [[p ?]|(p & e & ? & Hown)]; simplify_eq. done.
Qed.

Lemma mark_ok id l v (Q : bool -> list Live -> list Callback -> Prop) ls cs :
  all_sound ls cs -> find_id id ls = Some l -> lv_visit l = Some v ->
  (forall ls', but_one id (marked cs l v) (sound cs) ls' -> Q true ls' cs) -> Q false ls cs ->
  steps (mark_ending id) Q ls cs.
Proof.
  intros Hok Hl Hv HT HF. pose proof (find_id_Some _ _ _ Hl) as [Hin <-].
  eapply (lruns_mark _ _ (lv_id l) (eq l) (marked cs l v) (sound cs)); [|by apply pin|done|done].
  intros x w _ <- Hw He. rewrite Hv in Hw. simplify_eq. split_and!; [by apply (proj2 Hok)|done|done|done].
Qed.

(** Marked, and its end pending *)
Lemma mark_end_ok id l v cb ls cs :
  but_one id (marked cs l v) (sound cs) ls -> lv_id l = id -> vs_opening v = false -> vs_paused v = false ->
  (exists pane, cb = CbParked id pane) \/ (exists pane ended, cb = CbConclude id pane ended /\ own_end v pane ended) ->
  all_sound ls (cs ++ [cb]).
Proof.
  intros Hb Hid Ho Hp Hcb. apply (sound_one id). eapply push_one; [|..|exact Hb].
  - intros i Hi. destruct Hcb as [[pane ->]|(pane & ended & -> & _)]; unfold concerns; simpl; by rewrite bool_decide_eq_false_2.
  - intros x _ Hm. eapply marked_end; [done|done|done|]. by rewrite Hid.
Qed.

(** The run [id] is not marked while it opens. *)
Definition not_opening (id : string) (ls : list Live) : Prop :=
  forall l v, find_id id ls = Some l -> lv_visit l = Some v -> vs_opening v = false.

Lemma park_ok id ls cs : all_sound ls cs -> not_opening id ls -> keeps (park id) ls cs.
Proof.
  intros Hok Ho. unfold park. do 2 lstep. fold (find_id id ls). apply lruns_if_live; [done|]. intros v (l & Hl & Hv)%bind_Some.
  destruct (vs_work v); [|by repeat lstep]. destruct (sr_terminal (vs_row v)) as [pane|]; [|by repeat lstep].
  destruct (vs_paused v) eqn:Hp; simpl; [by lstep|]. case_bool_decide; [by lstep|].
  lstep. eapply mark_ok; [done|done|done| |by lstep]. intros ls' Hb. pose proof (find_id_Some _ _ _ Hl) as [_ Hid].
  lstep. eapply mark_end_ok; [done|done|by eapply Ho|done|left; by eexists].
Qed.

(** Asking the agent to quit with its report, or with a time-out *)
Lemma quit_ok id l v pane agent ended ls cs :
  all_sound ls cs -> find_id id ls = Some l -> lv_visit l = Some v -> vs_opening v = false -> own_end v pane ended ->
  keeps (let! mine := mark_ending id in if mine : bool then quit_then id pane agent ended else act_ret tt) ls cs.
Proof.
  intros Hok Hl Hv Ho Hown. pose proof (find_id_Some _ _ _ Hl) as [_ Hid]. lstep.
  eapply mark_ok; [done|done|done| |by lstep]. intros ls' Hb. lstep.
  eapply mark_end_ok; [done|done|done|by destruct Hown|right; by eexists _, _].
Qed.

(** *** Parked *)

Lemma parked_row said v : sr_stage (vs_row (parked env said v)) = sr_stage (vs_row v).
Proof. done. Qed.

(** The agent of the run [id] has ended, and its callback is gone. *)
Definition unmarked (cs : list Callback) (id : string) (l : Live) : Prop :=
  live_ok l /\
  match lv_visit l with
  | Some v => vs_opening v = false /\ vs_ending v = true /\ opens id cs = 0 /\ ends id cs = 0
  | None => is_live l = false
  end.

Lemma taken_end pre cb post id ls :
  ends_for id cb = true -> all_sound ls (pre ++ cb :: post) -> but_one id (unmarked (pre ++ post) id) (sound (pre ++ post)) ls.
Proof.
  intros He [Hnd Hs]. assert (opens_for id cb = false) as Hno by by destruct cb.
  split; [done|]. intros l Hl. destruct (Hs l Hl) as [Hok Hf]. case_decide as Hid.
  - split; [done|]. unfold fits in Hf. rewrite Hid in Hf. destruct (lv_visit l) as [v|].
    + destruct Hf as [H1 H2 H3 _ _ _]. rewrite opens_mid, Hno in H1. rewrite ends_mid, He in H2.
      destruct (vs_ending v) eqn:E; [|lia]. destruct (vs_opening v) eqn:E'; [by destruct H3|]. split_and!; try done; lia.
    + destruct (is_live l) eqn:E; [|done]. destruct Hf as [_ H2]; [done|]. rewrite ends_mid, He in H2. lia.
  - split; [done|]. apply (fits_mid pre cb post); [|done]. unfold concerns. apply orb_false_iff.
    destruct cb; simpl in *; try done; apply bool_decide_eq_true in He; subst; split; try done; by apply bool_decide_eq_false_2.
Qed.

Lemma parked_sound cs said l : unmarked cs (lv_id l) l -> sound cs (on_visit l (parked env said)).
Proof.
  intros [Hok Hu]. split; [apply (same_ok l); [by apply on_visit_same|done|done]|].
  unfold fits. change (lv_id (on_visit l _)) with (lv_id l). simpl. destruct (lv_visit l) as [v|]; simpl.
  - destruct Hu as (Ho & He & H1 & H2). split; simpl; rewrite ?Ho; try done.
    + intros row Hin. by apply no_opens in Hin.
    + intros pane ended Hin. by apply no_ends in Hin.
  - change (is_live (on_visit l (parked env said))) with (is_live l). congruence.
Qed.

Lemma park_finish_ok id pane said pre post ls :
  all_sound ls (pre ++ CbParked id pane :: post) -> keeps (park_finish env id pane said) ls (pre ++ post).
Proof.
  intros Hok. apply (taken_end _ _ _ id) in Hok; [|simpl; by apply bool_decide_eq_true_2].
  unfold park_finish. do 3 lstep. eapply update_sound; [done| |exact Hok|].
  - intros l <-. apply parked_sound.
  - intros ls' Hok'. lstep. lstep. apply lruns_if_live; [done|]. intros v _. do 2 lstep. by lstep.
Qed.

(** *** Concluding a visit *)

Lemma concluded_course p d row ended next d' :
  on_course p (Some (sr_stage row)) (dc_taken d) -> is_Some (pipeline_stage p (sr_stage row)) ->
  concluded p d row ended = (next, d') ->
  on_course p (dc_next d') (dc_taken d') /\ dc_sessions d' = dc_sessions d /\
  dc_next d' = match next with NextStage name _ => Some name | _ => None end.
Proof.
  unfold concluded. intros Hc Hs. set (d1 := if decide _ then _ else d).
  assert (dc_taken d1 = dc_taken d /\ dc_sessions d1 = dc_sessions d) as [E1 E2] by (unfold d1; by case_decide).
  rewrite <- E1 in Hc. destruct (run_decide p d1 (sr_stage row) (ed_verdict ended) (ed_failures ended)) as [n d2] eqn:Hd.
  destruct (run_decide_course _ _ _ _ _ _ _ Hc Hs Hd) as (Hc' & Hs' & _). intros [= <- <-]. simpl. split_and!; congruence.
Qed.

(** A run between its last visit and its end *)
Definition nowhere (l : Live) : Prop := live_base l /\ lv_visit l = None /\ dc_next (lv_doc l) = None.

Lemma over_sound cs l : live_base l -> is_live l = false -> lv_visit l = None -> dc_next (lv_doc l) = None -> sound cs l.
Proof.
  intros Hb Hl Hv Hn. split; [split; [done|congruence|]|].
  - intros _. unfold place. by rewrite Hv, Hn.
  - unfold fits. rewrite Hv. congruence.
Qed.

Lemma hand_back_ok id ls cs : but_one id nowhere (sound cs) ls -> keeps (hand_back env id) ls cs.
Proof.
  intros Hb. unfold hand_back. do 2 lstep. fold (find_id id ls). apply lruns_if_live.
  { intros Hn. apply (sound_one id). by eapply but_one_none. }
  intros l Hl. pose proof (but_one_find _ _ _ _ _ Hb Hl) as [[_ _ _ _ _ Hst] _].
  do 2 lstep. lstep. apply lruns_gets. intros s _. lstep. apply lruns_get. intros _ _.
  destruct (duration_of _) eqn:Hd; [|by eexists]. lstep. eapply update_sound; [done| |exact Hb|].
  - intros x _ (Hx & Hv & Hn). apply over_sound; [|done..]. apply (same_base x); [by split|done].
  - intros ls' Hok. by repeat lstep.
Qed.

(** The run's visit is gone, and where it goes next is on its course. *)
Lemma concluded_base l v row ended next d :
  live_base l -> lv_visit l = Some v -> sr_stage row = sr_stage (vs_row v) ->
  concluded (lv_pipeline l) (lv_doc l) row ended = (next, d) ->
  live_base (set_lv_doc (set_lv_visit l None) d) /\ dc_next d = match next with NextStage name _ => Some name | _ => None end.
Proof.
  intros [H1 H2 H3 H4 H5] Hv Hr Hc. unfold place in H4. rewrite Hv, <- Hr in H4. specialize (H3 v Hv). rewrite <- Hr in H3.
  destruct (concluded_course _ _ _ _ _ _ H4 H3 Hc) as (Hc' & Hs & Hn). split; [|done]. split; simpl; try done. by rewrite Hs.
Qed.

Lemma idle_fits cs l : opens (lv_id l) cs = 0 -> ends (lv_id l) cs = 0 -> lv_visit l = None -> fits cs l.
Proof. intros Ho He Hv. unfold fits. by rewrite Hv. Qed.

Lemma conclude_ok id ended pre post pane ls :
  all_sound ls (pre ++ CbConclude id pane ended :: post) -> keeps (conclude env id ended) ls (pre ++ post).
Proof.
  intros Hok. apply (taken_end _ _ _ id) in Hok; [|simpl; by apply bool_decide_eq_true_2].
  unfold conclude. do 2 lstep. fold (find_id id ls). destruct (find_id id ls) as [l|] eqn:Hl; simpl.
  2: { lstep. apply (sound_one id). by eapply but_one_none. }
  destruct (but_one_pin _ _ _ _ _ Hok Hl) as [Hb [Hlok Hu]]. pose proof (find_id_Some _ _ _ Hl) as [_ <-].
  destruct (lv_visit l) as [v|] eqn:Hv; simpl.
  2: { lstep. apply (sound_one (lv_id l)). eapply but_one_weaken; [|done|exact Hb]. intros x _ <-. split; [done|]. unfold fits. rewrite Hv. congruence. }
  destruct Hu as (_ & _ & Ho & He). pose proof (live_visit _ _ Hlok Hv) as Hlive. set (row := set_sr_doc _ _).
  do 2 lstep. destruct (concluded (lv_pipeline l) (lv_doc l) row ended) as [next d] eqn:Hc.
  destruct (concluded_base l v row _ _ _ (lk_base _ Hlok) Hv eq_refl Hc) as [Hbase Hnext].
  assert (forall Q : unit -> list Live -> list Callback -> Prop,
    (forall ls', but_one (lv_id l) (fun x => x = kept (set_lv_doc (set_lv_visit l None) d)) (sound (pre ++ post)) ls' -> Q tt ls' (pre ++ post)) ->
    forall event, steps (update (lv_id l) (fun l => (set_lv_doc (set_lv_visit l None) d, event))) Q ls (pre ++ post)) as Hup.
  { intros Q HQ event. eapply lruns_update; [done| |exact Hb|exact HQ]. by intros x _ <-. }
  lstep. assert (forall Q : unit -> list Live -> list Callback -> Prop, Q tt ls (pre ++ post) -> steps match next with
    | NextStage name true => if_live (dc_starts d !! name) (fun start =>
        emit (EGit (dc_worker d) ["branch"; default "" (sr_branch row) +:+ "-reset-" +:+ pretty (dc_visits d); "HEAD"]) ;;;
        emit (EGit (dc_worker d) ["reset"; "--hard"; start]))
    | _ => act_ret tt end Q ls (pre ++ post)) as Hreset.
  { intros Q HQ. destruct next as [name [|]| |]; try by lstep. apply lruns_if_live; [done|]. intros. by repeat lstep. }
  apply Hreset. lstep. apply Hup. intros ls' Hb'.
  destruct next as [name reset| |].
  - lstep. apply (sound_one (lv_id l)). eapply but_one_weaken; [|done|exact Hb']. intros x _ ->. apply kept_sound.
    split; [|by apply idle_fits]. split; [done| |].
    + intros _. unfold place. simpl. by rewrite Hnext.
    + change (is_live l = false -> lv_visit (set_lv_doc (set_lv_visit l None) d) = None /\ place (set_lv_doc (set_lv_visit l None) d) = None). congruence.
  - apply hand_back_ok. eapply but_one_weaken; [|done|exact Hb']. intros x _ ->. split_and!; [|done|done]. by apply (same_base (set_lv_doc (set_lv_visit l None) d)).
  - apply stop_ok; [done|]. eapply but_one_weaken; [|done|exact Hb']. intros x _ ->. by apply (same_base (set_lv_doc (set_lv_visit l None) d)).
Qed.

(** *** Ends that a tick sees *)

(** The visit of a run that steps: nothing is pending for it. *)
Record stepping (ls : list Live) (cs : list Callback) (id : string) (l : Live) (v : Visit) : Prop := {
  sg_sound : all_sound ls cs;
  sg_live : find_id id ls = Some l;
  sg_visit : lv_visit l = Some v;
  sg_opening : vs_opening v = false;
  sg_ending : vs_ending v = false;
  sg_paused : vs_paused v = false }.

Lemma stepping_pin ls cs id l v : stepping ls cs id l v ->
  lv_id l = id /\ but_one id (eq l) (sound cs) ls /\ live_ok l /\ is_live l = true /\ opens id cs = 0 /\ ends id cs = 0.
Proof.
  intros [Hok Hl Hv Ho He _]. pose proof (find_id_Some _ _ _ Hl) as [Hin <-]. pose proof (proj2 Hok l Hin) as [Hlok Hf].
  unfold fits in Hf. rewrite Hv in Hf. destruct Hf as [H1 H2 _ _ _ _]. rewrite Ho in H1. rewrite He in H2.
  split_and!; try done; [by apply pin|by eapply live_visit].
Qed.

Lemma interrupted_ok id l v ls cs : stepping ls cs id l v -> keeps (interrupted env id v) ls cs.
Proof.
  intros Hs. destruct (stepping_pin _ _ _ _ _ Hs) as (<- & Hb & Hlok & Hlive & Ho & He). pose proof (sg_visit _ _ _ _ _ Hs) as Hv.
  unfold interrupted. do 3 lstep. eapply update_sound; [done| |exact Hb|by intros; lstep].
  intros x _ <-. split; [|by apply idle_fits]. destruct Hlok as [[H1 H2 H3 H4 H5] _ _]. split; [split; simpl; try done| |].
  - unfold place in *. by rewrite Hv in H4.
  - by eexists.
  - intros Hn. change (is_live l = false) in Hn. congruence.
Qed.

(** A run whose visit was only marked stops. *)
Lemma mark_base id (Q : unit -> list Live -> list Callback -> Prop) ls cs :
  but_one id live_base (sound cs) ls -> (forall ls', but_one id live_base (sound cs) ls' -> Q tt ls' cs) ->
  steps (update id (edit_only (fun l => on_visit l (fun v => set_vs_ending v true)))) Q ls cs.
Proof.
  intros Hb HQ. eapply (lruns_update _ _ id live_base live_base); [done| |exact Hb|exact HQ].
  intros l _ Hl. apply (same_base (on_visit l (fun v => set_vs_ending v true))); [done|]. by apply (same_base l); [apply on_visit_same|].
Qed.

Lemma mark_stop_ok id why by_ telling ls cs :
  but_one id live_base (sound cs) ls ->
  keeps (update id (edit_only (fun l => on_visit l (fun v => set_vs_ending v true))) ;;; stop env id "stopped" why by_ telling) ls cs.
Proof. intros Hb. lstep. apply mark_base; [done|]. intros ls' Hb'. by apply stop_ok. Qed.

Lemma timed_out_ok id l v pane agent ls cs :
  stepping ls cs id l v -> sr_terminal (vs_row v) = Some pane -> is_agent (vs_work v) = true ->
  keeps (timed_out env id pane agent) ls cs.
Proof.
  intros [Hok Hl Hv Ho He Hp] Ht Ha. pose proof (find_id_Some _ _ _ Hl) as [_ Hid]. unfold timed_out. lstep.
  eapply mark_ok; [done|done|done| |by simpl; lstep]. intros ls' Hb. simpl. do 2 lstep. fold (find_id id ls').
  apply lruns_if_live.
  { intros Hn. apply (sound_one id). destruct (find_id id ls') as [x|] eqn:Hx; [|by eapply but_one_none].
    destruct (but_one_find _ _ _ _ _ Hb Hx) as (_ & _ & _ & ->). simpl in Hn. by rewrite Hv in Hn. }
  intros [x w] _. do 2 lstep. lstep.
  - lstep. eapply mark_end_ok; [exact Hb|done..|]. right. eexists _, _. split; [done|]. split_and!; [done|done|].
    destruct (vs_work v); [by right|done].
  - do 2 lstep. apply mark_stop_ok. eapply push_one; [done| |exact Hb].
    intros y _ ([Hy _] & _ & _ & ->). apply (same_base l); [by apply on_visit_same|by destruct Hy].
Qed.

Lemma command_end_verdict log exit : is_Some (ed_verdict (command_end env log exit)).
Proof. by eexists. Qed.

Lemma command_ended_ok id l v pane log exit ls cs :
  stepping ls cs id l v -> sr_terminal (vs_row v) = Some pane -> is_agent (vs_work v) = false ->
  keeps (command_ended env id pane log exit) ls cs.
Proof.
  intros [Hok Hl Hv Ho He Hp] Ht Ha. pose proof (find_id_Some _ _ _ Hl) as [_ Hid]. unfold command_ended. lstep.
  eapply mark_ok; [done|done|done| |by simpl; lstep]. intros ls' Hb. simpl.
  assert (all_sound ls' (cs ++ [CbConclude id pane (command_end env log exit)])) as Hend.
  { eapply mark_end_ok; [exact Hb|done..|]. right. eexists _, _. split; [done|]. split_and!; [done|done|].
    destruct (vs_work v); [done|apply command_end_verdict]. }
  lstep; [do 2 lstep; by lstep|]. do 2 lstep. rewrite <- (app_nil_r cs). by eapply conclude_ok.
Qed.

Lemma step_agent_ok id l v pane agent ls cs :
  stepping ls cs id l v -> sr_terminal (vs_row v) = Some pane -> vs_work v = WAgent agent -> keeps (step_agent env id pane agent v) ls cs.
Proof.
  intros Hs Ht Hw. pose proof Hs as [Hok Hl Hv Ho He Hp]. unfold step_agent.
  destruct (vs_reported v) as [[ended at_]|] eqn:Hr.
  { lstep; [|by lstep]. eapply quit_ok; try done. split_and!; [done|done|]. rewrite Hw. left. by eexists. }
  destruct (vs_needs v) as [at_|].
  { lstep; [|by lstep]. apply park_ok; [done|]. intros l' v' Hl' Hv'. congruence. }
  destruct (ev_pane env pane) as [p|]; [|by eapply interrupted_ok].
  destruct (negb (pn_alive p)); [do 2 lstep; by apply stop_sound|]. destruct (match due v with Some _ => _ | None => _ end); [|by lstep].
  eapply timed_out_ok; [done|done|by rewrite Hw].
Qed.

Lemma step_command_ok id l v pane log exit ls cs :
  stepping ls cs id l v -> sr_terminal (vs_row v) = Some pane -> vs_work v = WCommand log exit ->
  keeps (step_command env id pane log exit v) ls cs.
Proof.
  intros Hs Ht Hw. unfold step_command. lstep; [eapply command_ended_ok; [done|done|by rewrite Hw]|].
  destruct (ev_pane env pane) as [p|]; [|by eapply interrupted_ok]. lstep; [lstep; by destruct Hs|]. do 2 lstep.
  eapply command_ended_ok; [done|done|by rewrite Hw].
Qed.

(** *** Beginning a visit *)

(** A run that is to begin its next stage: nothing is pending for it. *)
Record ready (ls : list Live) (cs : list Callback) (l : Live) (name : string) : Prop := {
  rd_sound : all_sound ls cs;
  rd_in : l ∈ ls;
  rd_live : is_live l = true;
  rd_visit : lv_visit l = None;
  rd_next : dc_next (lv_doc l) = Some name }.

Lemma begun_sound cs l s row work sessions starts n :
  sound cs l -> is_live l = true -> lv_visit l = None -> dc_next (lv_doc l) = Some (sr_stage row) ->
  pipeline_stage (lv_pipeline l) (sr_stage row) = Some s -> within_budget (lv_pipeline l) (dc_sessions (lv_doc l) + sessions) ->
  sound (cs ++ [CbOpened (lv_id l) row])
    (mkLive (lv_row l) (set_dc_counts (set_dc_starts (lv_doc l) starts) (dc_sessions (lv_doc l) + sessions) n) (lv_pipeline l)
       (Some (mkVisit row work (st_within s) true false None None false))).
Proof.
  intros [[[H1 H2 H3 H4 H5] Hp Hov] Hf] Hl Hv Hn Hs Hw. unfold fits in Hf. rewrite Hv in Hf. destruct (Hf Hl) as [Ho He].
  split; [split; [split; simpl; try done| |]|].
  - intros v [= <-]. simpl. by rewrite Hs.
  - unfold place in *. simpl. by rewrite Hv, Hn in H4.
  - by eexists.
  - intros Hn'. change (is_live l = false) in Hn'. congruence.
  - unfold fits. simpl. change (lv_id (mkLive _ _ _ _)) with (lv_id l). split; simpl; try done.
    + rewrite opens_mid, app_nil_r, Ho. simpl. by rewrite bool_decide_eq_true_2.
    + by rewrite ends_mid, app_nil_r, He.
    + intros r [Hin|[= <-]%list_elem_of_singleton]%elem_of_app; [|done]. by apply no_opens in Hin.
    + intros pane ended [Hin|[=]%list_elem_of_singleton]%elem_of_app. by apply no_ends in Hin.
Qed.

Lemma begin_visit_ok ls cs l name s head command row work sessions :
  ready ls cs l name -> pipeline_stage (lv_pipeline l) name = Some s -> sr_stage row = name ->
  within_budget (lv_pipeline l) (dc_sessions (lv_doc l) + sessions) ->
  keeps (begin_visit env l s head command row work sessions) ls cs.
Proof.
  intros [Hok Hin Hl Hv Hn] Hs Hr Hw. subst name. unfold begin_visit. lstep.
  eapply (lruns_update _ _ (lv_id l) (eq l) (sound (cs ++ [CbOpened (lv_id l) row])) (sound cs)); [done| |by apply pin|].
  - intros x _ <-. apply kept_sound. apply begun_sound; try done. by apply (proj2 Hok).
  - intros ls' Hb. lstep. apply (sound_one (lv_id l)). eapply push_one; [|done|exact Hb].
    intros i Hi. unfold concerns. simpl. by rewrite bool_decide_eq_false_2.
Qed.

Lemma begin_ok ls cs l name : ready ls cs l name -> keeps (begin env (lv_id l) name) ls cs.
Proof.
  intros Hr. pose proof Hr as [Hok Hin Hl Hv Hn]. pose proof (proj2 Hok l Hin) as [[[_ Hu _ _ Hw Hst] _ _] _].
  unfold begin. do 2 lstep. fold (find_id (lv_id l) ls). rewrite (find_id_elem ls l) by (done || apply Hok). simpl.
  destruct (pipeline_stage (lv_pipeline l) name) as [s|] eqn:Hs; simpl; [|by lstep].
  destruct (built_cost _ s Hu) as (c & Hc & _); [by eapply pipeline_stage_Some|].
  lstep. apply lruns_get. intros _ _. destruct (duration_of _) as [elapsed|] eqn:Hd; [|by eexists].
  lstep. apply lruns_get. intros _ _. destruct (over_budget_total (lv_pipeline l) (lv_doc l) s elapsed) as [over Hover]; [by eexists|].
  rewrite Hover. destruct over as [why|]; [apply wait_ok; by apply going_pin|].
  lstep. apply lruns_gets. intros s1 _. lstep. apply lruns_gets. intros s2 _. lstep; [by apply stop_sound|].
  destruct (st_kind s) as [a|cmd|q|f]; [| |by apply stop_sound..].
  - unfold begin_agent. lstep; [by apply stop_sound|]. do 2 lstep. lstep. apply lruns_get. intros _ _. rewrite Hc.
    eapply begin_visit_ok; [done|done|done|]. by eapply over_budget_within.
  - unfold begin_command. do 4 lstep. eapply begin_visit_ok; [done|done|done|]. by rewrite N.add_0_r.
Qed.

Lemma step_ok id ls cs : all_sound ls cs -> keeps (step env id) ls cs.
Proof.
  intros Hok. unfold step. do 2 lstep. fold (find_id id ls). apply lruns_if_live; [done|]. intros l Hl.
  pose proof (find_id_Some _ _ _ Hl) as [Hin Hid]. destruct (lv_visit l) as [v|] eqn:Hv.
  - destruct (vs_opening v) eqn:Ho; simpl; [by lstep|]. destruct (vs_ending v) eqn:He; simpl; [by lstep|].
    destruct (vs_paused v) eqn:Hp; simpl; [by lstep|]. assert (stepping ls cs id l v) as Hs by done.
    destruct (sr_terminal (vs_row v)) as [pane|] eqn:Ht; [|by lstep].
    destruct (vs_work v) eqn:Hw; [by eapply step_agent_ok|by eapply step_command_ok].
  - destruct (dc_next (lv_doc l)) as [next|] eqn:Hn; [|by lstep]. case_decide as Hr; [|by lstep].
    rewrite <- Hid. apply begin_ok. split; try done. unfold is_live. by rewrite Hr.
Qed.

Lemma step_each_ok ids ls cs : all_sound ls cs -> keeps (step_each env ids) ls cs.
Proof.
  revert ls cs. induction ids as [|id ids IH]; intros ls cs Hok; simpl; [by lstep|]. lstep.
  eapply lruns_weaken; [by apply step_ok|]. intros u ls' cs'. apply IH.
Qed.

Lemma retain_sound f ls cs : all_sound ls cs -> all_sound (retain f ls) cs.
Proof.
  intros [Hnd Hs]. split; [|by intros l [_ Hl]%elem_of_retain; apply Hs].
  clear Hs. unfold retain. induction ls as [|l ls IH]; simpl; [done|]. apply NoDup_cons in Hnd as [Hn Hnd].
  destruct (f l); simpl; [|by apply IH]. apply NoDup_cons. split; [|by apply IH]. intros Hin. apply Hn.
  apply list_elem_of_In, in_map_iff in Hin as (x & <- & Hx). apply filter_In in Hx as [Hx _]. apply list_elem_of_In. by apply in_map.
Qed.

Lemma tick_steps_ok ls cs : all_sound ls cs -> keeps (tick_steps env) ls cs.
Proof.
  intros Hok. unfold tick_steps. lstep. apply lruns_gets. intros s1 _. lstep. apply (lruns_modify _ _ _ id); [done|].
  lstep. apply lruns_gets. intros s2 _. lstep; [|by lstep]. lstep. apply lruns_gets. intros s3 _. lstep.
  eapply lruns_weaken; [by apply step_each_ok|]. intros u ls' cs' Hok'. apply (lruns_modify _ _ _ (retain is_live)); [done|].
  by apply retain_sound.
Qed.

(** *** A terminal that opened *)

(** The answer to an opening for the run [id] is there, and its callback is gone. *)
Definition unopened (cs : list Callback) (id : string) (cb : Callback) (l : Live) : Prop :=
  live_ok l /\
  match lv_visit l with
  | Some v => vs_opening v = true /\ vs_ending v = false /\ vs_paused v = false /\ opens id cs = 0 /\ ends id cs = 0 /\
              forall row, cb = CbOpened id row -> sr_stage row = sr_stage (vs_row v)
  | None => is_live l = false
  end.

Lemma taken_open pre cb post id ls :
  opens_for id cb = true -> all_sound ls (pre ++ cb :: post) -> but_one id (unopened (pre ++ post) id cb) (sound (pre ++ post)) ls.
Proof.
  intros Ho [Hnd Hs]. assert (ends_for id cb = false) as Hne by by destruct cb.
  split; [done|]. intros l Hl. destruct (Hs l Hl) as [Hok Hf]. case_decide as Hid.
  - split; [done|]. unfold fits in Hf. rewrite Hid in Hf. destruct (lv_visit l) as [v|].
    + destruct Hf as [H1 H2 H3 _ H4 _]. rewrite opens_mid, Ho in H1. rewrite ends_mid, Hne in H2.
      destruct (vs_opening v) eqn:E; [|lia]. destruct (H3 eq_refl) as [E1 E2]. rewrite E1 in H2. split_and!; try done; try lia.
      intros row ->. apply H4. apply elem_of_mid. by left.
    + destruct (is_live l) eqn:E; [|done]. destruct Hf as [H1 _]; [done|]. rewrite opens_mid, Ho in H1. lia.
  - split; [done|]. apply (fits_mid pre cb post); [|done]. unfold concerns. apply orb_false_iff.
    destruct cb; simpl in *; try done; apply bool_decide_eq_true in Ho; subst; split; try done; by apply bool_decide_eq_false_2.
Qed.

(** What the answer makes of the visit *)
Lemma open_visit_sound cs id cb l f :
  unopened cs id cb l -> lv_id l = id ->
  (forall v, lv_visit l = Some v -> sr_stage (vs_row (f v)) = sr_stage (vs_row v) /\
     vs_opening (f v) = false /\ vs_ending (f v) = vs_ending v /\ vs_paused (f v) = vs_paused v) ->
  sound cs (on_visit l f).
Proof.
  intros [Hok Hu] Hid Hf. split.
  - apply (same_ok l); [|done|done]. split; try done. simpl. destruct (lv_visit l) as [v|]; [|done]. simpl. by destruct (Hf v eq_refl) as [-> _].
  - unfold fits. change (lv_id (on_visit l f)) with (lv_id l). rewrite Hid. simpl. destruct (lv_visit l) as [v|]; simpl.
    + destruct Hu as (Ho & He & Hp & H1 & H2 & _). destruct (Hf v eq_refl) as (_ & E1 & E2 & E3). split; rewrite ?E1, ?E2, ?E3, ?He, ?Hp; try done.
      * intros row Hin. by apply no_opens in Hin.
      * intros pane ended Hin. by apply no_ends in Hin.
    + change (is_live (on_visit l f)) with (is_live l). congruence.
Qed.

Lemma next_none_sound cs l : sound cs l -> (is_live l = true -> is_Some (lv_visit l)) -> sound cs (set_lv_doc l (set_dc_next (lv_doc l) None)).
Proof.
  intros [Hok Hf] Hv. split; [|by apply (fits_same cs l)]. apply (same_ok l); [|done|done]. split; try done. simpl. intros Hn.
  destruct (is_live l) eqn:Hl; [destruct (Hv eq_refl); congruence|]. destruct (lk_over _ Hok Hl) as [_ Hp].
  unfold place in Hp. by rewrite Hn in Hp.
Qed.

Lemma opened_ok id pane row pre post ls :
  all_sound ls (pre ++ CbOpened id row :: post) -> keeps (opened id pane row) ls (pre ++ post).
Proof.
  intros Hok. apply (taken_open _ _ _ id) in Hok; [|simpl; by apply bool_decide_eq_true_2].
  unfold opened. do 2 lstep. eapply update_sound; [done| |exact Hok|done].
  intros l Hid Hu. apply (next_none_sound _ (on_visit l (fun v => set_vs_opening (set_vs_row v _) false))).
  - eapply open_visit_sound; [exact Hu|done|]. intros v Hv. destruct Hu as [_ Hu]. rewrite Hv in Hu.
    destruct Hu as (_ & _ & _ & _ & _ & Hrow). split_and!; try done. by apply (Hrow row).
  - intros Hl. change (is_live l = true) in Hl. destruct Hu as [_ Hu]. simpl. destruct (lv_visit l); [by eexists|congruence].
Qed.

Lemma resumed_ok id pane pre post ls : all_sound ls (pre ++ CbResumed id :: post) -> keeps (resumed id pane) ls (pre ++ post).
Proof.
  intros Hok. apply (taken_open _ _ _ id) in Hok; [|simpl; by apply bool_decide_eq_true_2].
  unfold resumed. lstep. eapply update_sound; [done| |exact Hok|].
  - intros l Hid Hu. by eapply open_visit_sound.
  - intros ls' Hok'. do 2 lstep. apply lruns_if_live; [done|]. intros v _. do 2 lstep. by lstep.
Qed.

Lemma open_answered_ok id cb reply k pre post ls :
  opens_for id cb = true -> all_sound ls (pre ++ cb :: post) -> (forall pane, keeps (k pane) ls (pre ++ post)) ->
  keeps (open_answered env id reply k) ls (pre ++ post).
Proof.
  intros Ho Hok Hk. unfold open_answered. destruct reply as [pane|why].
  - lstep. eapply lruns_weaken; [apply Hk|]. intros u ls' cs' Hok'. by lstep.
  - do 2 lstep. apply mark_stop_ok. apply (taken_open _ _ _ id) in Hok; [|done]. eapply but_one_weaken; [|done|exact Hok]. by intros l _ [[] _].
Qed.
End Steps.
