(* ===== verification/RunRequests.v ===== *)
(** * Requests, reports and answers keep the runs sound: [crates/kanna-daemon/src/runs.rs] *)

From S2P Require Import Prelude Text F64 Json Pipe PipeParse PipeWalk PipeCheck PipeFacts PipeWalkFacts Runs RunEngine RunFacts RunSteps.
From stdpp Require Import relations.

Section Requests.
Context `{RunWorld} {clk : Clock} (env : Env).

Abbreviation steps := (lruns (clock_breaks env) all_sound).
Abbreviation keeps m ls cs := (steps m (fun _ => all_sound) ls cs).

(** ** What an agent reports *)

(** An edit of a visit that does not end: nothing is pending that tells of its end. *)
Definition light_edit (v v' : Visit) : Prop :=
  vs_row v' = vs_row v /\ vs_opening v' = vs_opening v /\ vs_ending v' = vs_ending v /\ vs_paused v' = vs_paused v.

Lemma light_sound cs l v f :
  sound cs l -> lv_visit l = Some v -> vs_ending v = false -> light_edit v (f v) -> sound cs (on_visit l f).
Proof.
  intros [Hok Hf] Hv He (E0 & E1 & E2 & E3). split.
  - apply (same_ok l); [|done|done]. split; try done. simpl. rewrite Hv. simpl. by rewrite E0.
  - unfold fits in *. change (lv_id (on_visit l f)) with (lv_id l). simpl. rewrite Hv in *. simpl.
    destruct Hf as [H1 H2 H3 H3' H4 H5]. split; rewrite ?E0, ?E1, ?E2, ?E3; try done.
    intros pane ended Hin. rewrite He in H2. by apply no_ends in Hin.
Qed.

Lemma by_terminal_Some s pane l v :
  by_terminal s pane = Some (l, v) -> l ∈ en_live s /\ lv_visit l = Some v /\ terminal_is v pane = true /\ is_agent (vs_work v) = true.
Proof.
  intros (x & Hx & Hf)%find_map_Some. apply bind_Some in Hf as (w & Hw & Hf).
  destruct (terminal_is w pane) eqn:Ht; [|done]. simpl in Hf. destruct (is_agent (vs_work w)) eqn:Ha; [|done]. by simplify_eq.
Qed.

(** The run whose agent may report *)
Definition reports (ls : list Live) (l : Live) (v : Visit) : Prop :=
  l ∈ ls /\ lv_visit l = Some v /\ vs_ending v = false /\ vs_reported v = None /\ vs_paused v = false.

Lemma reporting_ok by_ (Q : Live * Visit -> list Live -> list Callback -> Prop) ls cs :
  all_sound ls cs -> (forall l v, reports ls l v -> Q (l, v) ls cs) -> steps (reporting by_) Q ls cs.
Proof.
  intros Hok HQ. unfold reporting. lstep. apply lruns_lift_ok_or; [done|]. intros pane _. lstep. apply lruns_gets. intros s Hs.
  lstep. apply lruns_lift_ok_or; [done|]. intros [l v] (Hin & Hv & _ & _)%by_terminal_Some. rewrite Hs in Hin.
  destruct (vs_ending v) eqn:He; simpl; [by lstep|]. case_bool_decide as Hr; simpl; [by lstep|].
  destruct (vs_paused v) eqn:Hp; simpl; [by lstep|]. lstep. apply HQ. split_and!; try done.
  destruct (vs_reported v); [|done]. destruct Hr. by eexists.
Qed.

Lemma verdict_given_safe stage given gives : verdict_given stage given gives ≠ Panic.
Proof. unfold verdict_given. destruct given, gives; repeat case_match; done. Qed.

Lemma done_ok by_ verdict answer ls cs : all_sound ls cs -> keeps (done env by_ verdict answer) ls cs.
Proof.
  intros Hok. unfold done. lstep. apply reporting_ok; [done|]. intros l v (Hin & Hv & He & Hr & Hp). cbn beta iota.
  lstep. apply lruns_lift; [done| |by intros ?%verdict_given_safe].
  intros given _. do 3 lstep. eapply update_sound; [| |by apply pin|by intros; lstep].
  - intros x. by case_match.
  - intros x _ <-. pose proof (proj2 Hok l Hin) as Hs. pose proof (live_visit _ _ (proj1 Hs) Hv) as Hlive.
    assert (sound cs (on_visit l (fun v => set_vs_needs (set_vs_reported v (Some (mkEnded given (shown_as given) (default "" answer)
      (default "" answer) "" None None, ev_now env))) None))) as Hs' by by eapply light_sound.
    case_match; [|done]. by apply (restate_sound cs (on_visit l _) "running" None).
Qed.

Lemma need_ok by_ text ls cs : all_sound ls cs -> keeps (need env by_ text) ls cs.
Proof.
  intros Hok. unfold need. lstep. apply reporting_ok; [done|]. intros l v (Hin & Hv & He & Hr & Hp). cbn beta iota.
  lstep. apply lruns_lift_ok_or; [done|]. intros given _. lstep.
  pose proof (proj2 Hok l Hin) as Hs. pose proof (live_visit _ _ (proj1 Hs) Hv) as Hlive.
  eapply (lruns_update _ _ (lv_id l) (eq l) (fun x => going cs x /\ True)); [done| |by apply pin|].
  - intros x _ <-. split; [|done]. split; [|done]. apply kept_sound. by eapply light_sound.
  - intros ls' Hb. lstep. apply (pause_ok env _ _ _ _ (fun _ => True)); [done|]. intros ls2 Hb2. lstep. apply (sound_one (lv_id l)).
    eapply but_one_weaken; [| |exact Hb2]; [by intros ? _ []|done].
Qed.

Lemma status_ok pane ended ls cs : all_sound ls cs -> keeps (status pane ended) ls cs.
Proof.
  intros Hok. unfold status. lstep; [by lstep|]. lstep. apply lruns_gets. intros s Hs. apply lruns_if_live; [done|].
  intros [l v] (x & Hx & Hf)%find_map_Some. apply bind_Some in Hf as (w & Hw & Hf). rewrite Hs in Hx.
  destruct (terminal_is w pane) eqn:Ht; simpl in Hf; [|done]. destruct (is_agent (vs_work w)) eqn:Ha; simpl in Hf; [|done].
  destruct (vs_opening w) eqn:Ho; simpl in Hf; [done|]. destruct (vs_ending w) eqn:He; simpl in Hf; [done|].
  destruct (vs_paused w) eqn:Hp; simpl in Hf; [done|]. clear Hs. simplify_eq. apply bool_decide_eq_true in Ht.
  assert (find_id (lv_id l) ls = Some l) as Hl by (by apply find_id_elem; [apply Hok|]).
  destruct (vs_reported v) as [[end_ at_]|] eqn:Hr.
  - destruct (vs_work v) as [agent|] eqn:Hwk; [|by lstep]. eapply quit_ok; try done. split_and!; [done|done|]. rewrite Hwk. left. by eexists.
  - case_bool_decide; [apply park_ok; [done|]; intros l' v' Hl' Hv'; congruence|].
    case_decide; [|by lstep]. do 2 lstep. lstep. by apply push_idle.
Qed.

(** The screen was read while the visit's terminal stood open. *)
Lemma screen_read_ok id stage pane screen pre post ls :
  all_sound ls (pre ++ CbScreen id stage pane :: post) -> not_opening id ls -> keeps (screen_read id stage pane screen) ls (pre ++ post).
Proof.
  intros Hok' Ho. assert (all_sound ls (pre ++ post)) as Hok.
  { destruct Hok' as [Hnd Hs]. split; [done|]. intros l Hl. destruct (Hs l Hl) as [? Hf]. split; [done|]. by apply fits_mid in Hf. }
  unfold screen_read. lstep. apply lruns_gets. intros s Hs. destruct (existsb _ _) eqn:Hex; [|by lstep].
  apply existsb_exists in Hex as (l & Hl & Hc). rewrite Hs in Hl. apply list_elem_of_In in Hl.
  apply andb_true_iff in Hc as [Hid Hc]. apply bool_decide_eq_true in Hid. subst id.
  destruct (lv_visit l) as [v|] eqn:Hv; [|done]. pose proof (proj2 Hok l Hl) as [Hlok _].
  assert (find_id (lv_id l) ls = Some l) as Hf by (by apply find_id_elem; [apply Hok|]).
  lstep. apply (pause_ok env _ _ _ _ (fun o => o = Some v)).
  { eapply but_one_weaken; [| |by apply (pin (sound (pre ++ post)) ls l)]; [|done]. intros x _ <-. split; [|done]. split; [|by eapply live_visit].
    by apply (proj2 Hok). }
  intros ls' Hb. apply park_ok.
  - apply (sound_one (lv_id l)). eapply but_one_weaken; [| |exact Hb]; [by intros ? _ []|done].
  - intros l' v' Hl' Hv'. destruct (but_one_find _ _ _ _ _ Hb Hl') as [_ Hv2]. rewrite Hv2 in Hv'. simplify_eq. by eapply Ho.
Qed.

Lemma too_old_ok pane why ls cs : all_sound ls cs -> keeps (too_old env pane why) ls cs.
Proof.
  intros Hok. unfold too_old. lstep. apply lruns_gets. intros s _. destruct (by_terminal s pane) as [[l v]|]; [|by lstep].
  lstep. eapply lruns_weaken; [by apply stop_sound|]. intros u ls' cs' Hok'. by lstep.
Qed.

(** ** The user's requests *)

Lemma close_run_ok id repo worker terminal ls cs : all_sound ls cs -> keeps (close_run env id repo worker terminal) ls cs.
Proof.
  intros Hok. unfold close_run. lstep. apply mark_base; [by apply base_of|]. intros ls' Hb. lstep.
  apply (lruns_if_live _ _ terminal close); [intros _|intros pane _; lstep].
  all: lstep; eapply lruns_weaken; [by apply stop_ok|]; intros u ls2 cs2 Hok2; by lstep.
Qed.

Lemma close_runs_ok runs ls cs : all_sound ls cs -> keeps (close_runs env runs) ls cs.
Proof.
  revert ls cs. induction runs as [|l runs IH]; intros ls cs Hok; simpl; [by lstep|]. lstep.
  eapply lruns_weaken; [by apply close_run_ok|]. intros u ls' cs'. apply IH.
Qed.

Lemma task_closed_ok task ls cs : all_sound ls cs -> keeps (task_closed env task) ls cs.
Proof. intros Hok. unfold task_closed. lstep. apply lruns_gets. intros s _. by apply close_runs_ok. Qed.

Lemma stop_run_ok row by_ ls cs : all_sound ls cs -> keeps (stop_run env row by_) ls cs.
Proof. intros Hok. unfold stop_run. lstep; [by apply stop_sound|by lstep]. Qed.

(** A paused visit whose worker opens again *)
Lemma reopened_sound cs l v f :
  sound cs l -> lv_visit l = Some v -> vs_paused v = true ->
  sr_stage (vs_row (f v)) = sr_stage (vs_row v) -> vs_opening (f v) = true -> vs_ending (f v) = vs_ending v -> vs_paused (f v) = false ->
  sound (cs ++ [CbResumed (lv_id l)])
    (set_lv_doc (on_visit (set_lv_state l "running") f) (set_dc_why (lv_doc l) None)).
Proof.
  intros [Hok Hf] Hv Hp E0 E1 E2 E3. pose proof (live_visit _ _ Hok Hv) as Hl. split.
  - apply (same_ok l); [|by rewrite Hl|done]. split; try done; simpl; rewrite Hv; simpl; by rewrite E0.
  - unfold fits in *. change (lv_id (set_lv_doc _ _)) with (lv_id l). simpl. rewrite Hv in *. simpl.
    destruct Hf as [H1 H2 H3 H3' H4 H5]. assert (vs_opening v = false) as Ho by (destruct (vs_opening v); [destruct H3; congruence|done]).
    rewrite Ho in H1. rewrite (H3' Hp) in H2. split; rewrite ?E0, ?E1, ?E2, ?E3, ?(H3' Hp); try done.
    + rewrite opens_mid, app_nil_r, H1. simpl. by rewrite bool_decide_eq_true_2.
    + by rewrite ends_mid, app_nil_r, H2.
    + intros row [Hin|[=]%list_elem_of_singleton]%elem_of_app. by apply no_opens in Hin.
    + intros pane ended [Hin|[=]%list_elem_of_singleton]%elem_of_app. by apply no_ends in Hin.
Qed.

Lemma resume_run_ok row text by_ ls cs : all_sound ls cs -> keeps (resume_run env row text by_) ls cs.
Proof.
  intros Hok. unfold resume_run. do 2 lstep. fold (find_id (rr_id row) ls). lstep. apply lruns_lift_ok_or; [done|]. intros l Hl.
  pose proof (find_id_Some _ _ _ Hl) as [Hin _]. lstep. apply lruns_lift_ok_or; [done|]. intros v Hv.
  case_decide as Hpd; [|done]. lstep; [by lstep|]. rename Heqb into Hp. apply negb_false_iff in Hp.
  lstep. apply lruns_lift_ok_or; [done|]. intros s Hs. destruct (st_kind s) as [a|c|q|f]; [|by lstep..].
  lstep; [by lstep|]. do 3 lstep.
  eapply (lruns_update _ _ (lv_id l) (eq l) (sound (cs ++ [CbResumed (lv_id l)])) (sound cs)); [done| |by apply pin|].
  - intros x _ <-. apply kept_sound. eapply reopened_sound; try done. by apply (proj2 Hok).
  - intros ls' Hb. lstep. apply (sound_one (lv_id l)). eapply push_one; [|done|exact Hb].
    intros i Hi. unfold concerns. simpl. by rewrite bool_decide_eq_false_2.
Qed.

(** ** Answers *)

(** The answer to a read of the screen comes while the visit's terminal stands open. *)
Definition timely (cb : Callback) (ls : list Live) : Prop :=
  match cb with CbScreen id _ _ => not_opening id ls | _ => True end.

Lemma taken_idle pre cb post ls : (forall i, concerns i cb = false) -> all_sound ls (pre ++ cb :: post) -> all_sound ls (pre ++ post).
Proof. intros Hc [Hnd Hs]. split; [done|]. intros l Hl. destruct (Hs l Hl) as [? Hf]. split; [done|]. by apply fits_mid in Hf. Qed.

(** The answer is of the callback's kind. *)
Definition answers (cb : Callback) (answer : Answer) : Prop :=
  match cb, answer with
  | (CbOpened _ _ | CbResumed _), AnOpen _ | CbParked _ _, AnSession _ | CbScreen _ _ _, AnScreen _ | CbConclude _ _ _, _ | CbClose _, _ => True
  | _, _ => False
  end.

Lemma answered_ok cb answer pre post ls :
  answers cb answer -> timely cb ls -> all_sound ls (pre ++ cb :: post) -> keeps (answered env cb answer) ls (pre ++ post).
Proof.
  intros Ha Ht Hok. destruct cb; simpl in *.
  - destruct answer; [|done..]. eapply open_answered_ok; [|exact Hok|]; [by apply bool_decide_eq_true_2|]. intros pane. by apply opened_ok.
  - destruct answer; [|done..]. eapply open_answered_ok; [|exact Hok|]; [by apply bool_decide_eq_true_2|]. intros pane. by apply resumed_ok.
  - do 2 lstep. by eapply conclude_ok.
  - destruct answer; [done| |done]. by apply park_finish_ok.
  - lstep. by eapply taken_idle; [|exact Hok].
  - destruct answer; [done..|]. by apply screen_read_ok.
Qed.
End Requests.

(** ** A new run *)

Lemma load_total text cx : is_Some (load text cx).
Proof. unfold load. destruct (parse text) as [p| |]; [|by eexists..]. destruct (check_total p cx) as [r ->]. by eexists. Qed.

Lemma load_Good text cx p : load text cx = Some (Good p) -> check p cx = Some (Good tt).
Proof.
  unfold load. destruct (parse text) as [q| |]; [|done..]. destruct (check q cx) as [[[]| |]|] eqn:E; simpl; try done. by intros [= ->].
Qed.

Lemma load_loopless text cx p : load text cx = Some (Good p) -> loop_line p = None.
Proof. intros (He & _)%load_Good%check_Good. by apply check_errors_nil in He as (_ & _ & Hl & _). Qed.

Lemma stage_sessions_never_bad sizes s e : stage_sessions sizes s ≠ Bad e.
Proof.
  unfold stage_sessions, mul_u32. destruct (stage_agent s); [|done]. cbv zeta. by destruct (_ <=? _)%N.
Qed.

Section Start.
Context `{RunWorld} {clk : Clock} (env : Env) (a : StartArgs).

Definition start_context (host : string) : Context := mkContext (sa_prompts a) (Some host) [] [] ∅.

(** A pipeline's text in which a duration overflows as it is read, or whose worst case is past [u32] sessions *)
Definition start_overflows : Prop :=
  parse (sa_text a) = Crash \/ exists p, parse (sa_text a) = Good p /\ max_sessions p ∅ = Some Crash.

Lemma take_arrow_never_bad taken i e : take_arrow taken i ≠ Bad e.
Proof. unfold take_arrow, add_u32. destruct (taken !! i); [|done]. by destruct (_ <=? _)%N. Qed.

Lemma walk_never_bad p cost fuel s taken seen e : (forall s e, cost s ≠ Bad e) -> walk fuel p cost s taken seen ≠ Some (Bad e).
Proof.
  intros Hcost. revert s taken seen. induction fuel as [|fuel IH]; intros s taken seen; simpl; [done|].
  destruct (seen !! (s, taken)); [done|]. destruct (pipeline_stage p s) as [here|]; [|done].
  assert (forall cases best seen, walk_cases (walk fuel p cost) p s taken cases best seen ≠ Some (Bad e)) as Hc.
  { induction cases as [|[v stalled] cases IHc]; intros best seen'; simpl; [done|].
    destruct (pick p s v taken stalled) as [[i x]|]; [|apply IHc]. case_decide; [apply IHc|].
    pose proof (take_arrow_never_bad taken i) as Ht. destruct (take_arrow taken i) as [next|e'|]; [|by destruct (Ht e')|done].
    specialize (IH (ar_to x) next seen'). destruct (walk fuel p cost (ar_to x) next seen') as [[[m seen1]|e'|]|]; [apply IHc|congruence|done..]. }
  specialize (Hc (verdict_cases p here) 0%N seen). destruct (walk_cases _ p s taken _ _ seen) as [[[best seen1]|e'|]|]; [|done..].
  specialize (Hcost here). destruct (cost here) as [c|e'|]; simpl; [|by specialize (Hcost e')|done]. unfold add_u32. by destruct (_ <=? _)%N.
Qed.

Lemma max_sessions_total p sizes : loop_line p = None -> (exists n, max_sessions p sizes = Some (Good n)) \/ max_sessions p sizes = Some Crash.
Proof.
  intros Hl. unfold max_sessions. destruct (worst_total p (stage_sessions sizes) Hl) as [r Hr]. rewrite Hr. revert Hr. unfold worst.
  destruct (walk _ _ _ _ _ _) as [[[n seen]|e|]|] eqn:E; simpl; intros [= <-]; [by left; eexists| |by right].
  exfalso. eapply walk_never_bad; [|exact E]. intros s e'. apply stage_sessions_never_bad.
Qed.

Lemma load_crash host : load (sa_text a) (start_context host) = Some Crash -> start_overflows.
Proof.
  unfold load, start_overflows. destruct (parse (sa_text a)) as [p| |]; [|done|by left]. intros Hc. right. exists p. split; [done|].
  destruct (check p (start_context host)) as [[[]| |]|] eqn:E; simplify_eq/=. revert E. unfold check.
  destruct (check_budget _ _ _) as [[over| |]|] eqn:Eb; simpl; [by case_decide|done| |done]. intros _. revert Eb. unfold check_budget.
  destruct (existsb _ _); [done|]. destruct (pl_budget p); [|done]. simpl. by destruct (max_sessions p ∅) as [[| |]|].
Qed.

Lemma load_overflows p host : load (sa_text a) (start_context host) = Some (Good p) -> (exists n, max_sessions p ∅ = Some (Good n)) \/ start_overflows.
Proof.
  intros Hl. pose proof (load_loopless _ _ _ Hl) as Hn. destruct (max_sessions_total p ∅ Hn) as [|Hc]; [by left|]. right. right. exists p. split; [|done].
  revert Hl. unfold load. destruct (parse (sa_text a)) as [q| |]; [|done..]. destruct (check q _) as [[[]| |]|]; simpl; try done. by intros [= ->].
Qed.

(** No run and nothing pending has this id. *)
Definition fresh_id (id : string) (ls : list Live) (cs : list Callback) : Prop :=
  id ∉ map lv_id ls /\ Forall (fun cb => concerns id cb = false) cs.

Lemma fresh_none id ls cs : fresh_id id ls cs -> opens id cs = 0 /\ ends id cs = 0.
Proof.
  intros [_ Hc]. unfold opens, ends, retain. induction Hc as [|cb cs Hcb Hc IH]; [done|]. unfold concerns in Hcb.
  apply orb_false_iff in Hcb as [Ho He]. simpl. by rewrite Ho, He.
Qed.

(** The run as it starts: before its first stage. *)
Lemma started_ok cs p row worker base :
  (exists cx, check p cx = Some (Good tt)) -> unbuilt p = [] -> rr_state row = "running" -> clock_shows (rr_started row) -> opens (rr_id row) cs = 0 -> ends (rr_id row) cs = 0 ->
  sound cs (mkLive row (new_doc a p worker base) p None).
Proof.
  intros Hc Hu Hs Hst Ho He. split; [split; [split; simpl; try done| |]|by intros _].
  - exists 0, (pl_start p, fresh_counts p). split_and!; [by constructor|by intros x [= <-]| |apply fresh_within].
    fold (fresh_counts p). rewrite fresh_taken. lia.
  - intros b max _ _. simpl. lia.
  - by eexists.
  - unfold is_live, lv_state. simpl. by rewrite Hs.
Qed.

Lemma add_sound ls cs l : all_sound ls cs -> lv_id l ∉ map lv_id ls -> sound cs l -> all_sound (ls ++ [l]) cs.
Proof.
  intros [Hnd Hs] Hn Hl. split.
  - rewrite map_app. apply NoDup_app. split_and!; [done| |simpl; apply NoDup_singleton]. by intros x Hx [= ->]%list_elem_of_singleton.
  - intros x [Hx| ->%list_elem_of_singleton]%elem_of_app; [by apply Hs|done].
Qed.

Lemma lruns_add X E l (Q : unit -> list Live -> list Callback -> Prop) ls cs :
  Q tt (ls ++ [l]) cs -> lruns X E (act_modify (fun s => set_en_live s (en_live s ++ [l]))) Q ls cs.
Proof. by apply (lruns_modify _ _ _ (fun ls => ls ++ [l])). Qed.

Lemma start_run_ok base made id ls cs s :
  all_sound ls cs -> fresh_id id ls cs -> clock_shows (ev_now env) -> base ≠ Panic -> made ≠ Panic -> en_live s = ls -> en_calls s = cs ->
  runs start_overflows (fun s' => all_sound (en_live s') (en_calls s')) (start_run env a base made id)
    (fun _ s' => all_sound (en_live s') (en_calls s')) s.
Proof.
  intros Hok Hid Hnow Hb Hm Hs Hc. apply runs_bind, runs_gets. unfold loaded. fold (start_context (en_host s)).
  generalize (en_host s) as host. intros host. revert s Hs Hc.
  refine (_ : lruns start_overflows all_sound _ (fun _ => all_sound) ls cs).
  destruct (load_total (sa_text a) (start_context host)) as [r Hr]. rewrite Hr. lstep.
  apply lruns_lift; [done| |destruct r; [done..|intros _; by eapply load_crash]]. intros q Hq. assert (r = Good q) as -> by (destruct r; by simplify_eq). clear Hq.
  pose proof (load_Good _ _ _ Hr) as Hchk. destruct (unbuilt q) eqn:Hu; [|by lstep].
  lstep. apply lruns_lift; [done| |done]. intros from _. lstep. apply lruns_lift; [done| |done]. intros [worker branch] _.
  do 4 lstep. lstep. apply lruns_get. intros _ _.
  destruct (max_sessions q ∅) as [[n| |]|] eqn:Hn; [|by destruct (load_overflows _ _ Hr) as [[? ?]|]; [congruence|]..].
  lstep. apply lruns_add. do 3 lstep. destruct (fresh_none _ _ _ Hid). apply add_sound; [done|by apply Hid|].
  apply started_ok; try done. by eexists.
Qed.
End Start.
