(* ===== verification/RunDoc.v ===== *)
(** * A run's doc survives being saved: [Doc::to_value] and [Doc::from_value] of runs.rs *)

From S2P Require Import Prelude Text F64 Json Pipe Runs RunEngine.

(** ** Maps *)

Lemma collect_back {A} (m m0 : gmap string A) (ks : list string) :
  m0 ⊆ m -> (forall k v, m !! k = Some v -> k ∈ ks \/ m0 !! k = Some v) ->
  foldl (fun m '(k, v) => <[k := v]> m) m0 (omap (fun k => (fun v => (k, v)) <$> m !! k) ks) = m.
Proof.
  revert m0. induction ks as [|k ks IH]; intros m0 Hsub Hall; simpl.
  - apply map_eq. intros k. apply option_eq. intros v. split; [intros Hk; by eapply lookup_weaken|]. intros Hk.
    by destruct (Hall k v Hk) as [?%elem_of_nil|].
  - destruct (m !! k) as [v|] eqn:Hk; simpl.
    + apply IH; [by apply insert_subseteq_l|]. intros j w Hj. destruct (decide (j = k)) as [->|Hne]; [right; simplify_map_eq; congruence|].
      destruct (Hall j w Hj) as [[->|?]%elem_of_cons|?]; [done|by left|right; by rewrite lookup_insert_ne].
    + apply IH; [done|]. intros j w Hj. destruct (Hall j w Hj) as [[->|?]%elem_of_cons|?]; [congruence|by left|by right].
Qed.

Lemma collect_all {A} (m : gmap string A) : collect_map (omap (fun k => (fun v => (k, v)) <$> m !! k) (sorted_keys m)) = m.
Proof. apply collect_back; [apply map_empty_subseteq|]. intros k v Hk. left. apply elem_of_sorted_keys. by eexists. Qed.

Lemma map_back {A} (f : A -> Value) (g : string * Value -> option (string * A)) (m : gmap string A) (ks : list string) :
  (forall k v, g (k, f v) = Some (k, v)) ->
  omap g (omap (fun k => (fun v => (k, f v)) <$> m !! k) ks) = omap (fun k => (fun v => (k, v)) <$> m !! k) ks.
Proof. intros Hg. induction ks as [|k ks IH]; simpl; [done|]. destruct (m !! k) as [v|]; simpl; [|exact IH]. rewrite Hg. f_equal. exact IH. Qed.

Lemma strings_back l : strings_of (JArray (map JString l)) = l.
Proof. unfold strings_of. simpl. induction l as [|x l IH]; simpl; [done|]. f_equal. exact IH. Qed.

Lemma map_omap {A B} (f : A -> B) (l : list A) : map f l = omap (fun x => Some (f x)) l.
Proof. induction l as [|x l IH]; simpl; [done|]. by rewrite IH. Qed.

(** ** Numbers *)

Lemma wrap_u32_small n : (n < 2 ^ 32)%N -> wrap_u32 n = n.
Proof. apply N.mod_small. Qed.

Lemma counts_back l : Forall (fun n => (n < 2 ^ 32)%N) l -> map (fun n => wrap_u32 (default 0%N (as_u64 n))) (map from_usize l) = l.
Proof. induction 1 as [|n l Hn Hl IH]; simpl; [done|]. by rewrite IH, wrap_u32_small. Qed.

Lemma i64_back z : (- 2 ^ 63 <= z < 2 ^ 63)%Z -> value_as_i64 (from_i64 z) = Some z.
Proof.
  intros Hz. unfold from_i64. destruct (0 <=? z)%Z eqn:E; [|done]. apply Z.leb_le in E. simpl. rewrite Z2N.id by done.
  destruct (z <? 2 ^ 63)%Z eqn:E'; [done|]. apply Z.ltb_ge in E'. lia.
Qed.

(** ** The doc *)

(** A doc whose numbers have their widths *)
Record doc_fits (d : Doc) : Prop := {
  df_revision : (- 2 ^ 63 <= dc_revision d < 2 ^ 63)%Z;
  df_taken : Forall (fun n => (n < 2 ^ 32)%N) (dc_taken d);
  df_sessions : (dc_sessions d < 2 ^ 32)%N;
  df_visits : (dc_visits d < 2 ^ 32)%N }.

Lemma default_Some {A} (x y : A) : default x (Some y) = y.
Proof. done. Qed.

(** Any object with the fields of the doc gives it back. *)
Lemma doc_back m d :
  doc_fits d ->
  (forall key v, get (doc_to_value d) key = Some v -> map_get m key = Some v) ->
  doc_from_value (JObject m) = d.
Proof.
  intros [H1 H2 H3 H4] Hm.
  assert (forall key v, get (doc_to_value d) key = Some v -> get (JObject m) key = Some v) as Hg by exact Hm.
  unfold doc_from_value, doc_feedback, doc_failures, doc_map, doc_u32, string_of.
  erewrite !Hg by reflexivity. unfold map_value. cbn [mbind option_bind as_array as_object].
  change (as_u64 (from_usize (dc_sessions d))) with (Some (dc_sessions d)). change (as_u64 (from_usize (dc_visits d))) with (Some (dc_visits d)).
  rewrite i64_back by done. rewrite !default_Some, counts_back, !wrap_u32_small by done.
  rewrite (map_omap (fun '(k, v) => (k, strings_of v))), !(map_back (A := string) JString) by done.
  rewrite (map_back (fun l => JArray (map JString l))) by (intros; by rewrite strings_back). rewrite !collect_all.
  destruct d as [request file worker base revision taken feedback failures starts answers sessions visits next why note]. simpl.
  by destruct feedback as [[]|], next, why, note.
Qed.

(** What is saved of a run reads back: the doc that [update] saves, with the budget that
    it keeps beside it, gives back the run's doc, counts, failures, answers and all. *)
Theorem saved_doc_reads_back l : doc_fits (lv_doc l) -> doc_from_value (rr_doc (saved_row l)) = lv_doc l.
Proof.
  intros Hd. unfold saved_row. cbn [rr_doc set_rr_doc]. destruct (get (rr_doc (lv_row l)) "budget") as [budget|].
  - apply (doc_back (map_insert _ "budget" budget)); [done|]. intros key v Hk. rewrite map_get_insert_ne; [exact Hk|]. by intros <-.
  - by apply doc_back.
Qed.

Definition doc_sample : Doc :=
  mkDoc "Build it." ".kanna/build.kojo" "/repo/worker" "base" 1 [2%N; 0%N; 1%N] (Some (mkFeedback "check" "it failed" "/repo/log"))
    (<["check" := ["FAILED a"; "FAILED b"]]> ∅) (<["build" := "abc"]> ∅) (<["build" := "built"]> (<["build.plan" := "none"]> ∅)) 3 4
    (Some "build") None (Some "note").
Definition live_sample : Live :=
  mkLive (mkRunRow "run-1" "task" "/repo" "build" "hash" "task/run" "running" f0 None None (obj [("budget", JNull)])) doc_sample
    (mkPipeline [] [] None "" "") None.

Lemma saved_doc_reads_back_witness : doc_from_value (rr_doc (saved_row live_sample)) = doc_sample.
Proof.
  apply (saved_doc_reads_back live_sample). split; simpl; [lia| |lia|lia]. repeat constructor; lia.
Defined.
