(* ===== verification/RunTheorems.v ===== *)
(** * Runs: what the engine shows

    The theorems on the daemon's engine of runs, for every order in which ticks, requests,
    reports and answers come, with a small run on which they are seen to apply. *)

From stdpp Require Import relations.
From S2P Require Import Prelude Text F64 Json Pipe PipeParse PipeWalk PipeCheck PipeFacts PipeWalkFacts.
From S2P Require Import Runs RunEngine RunFacts RunSteps RunRequests.

(** ** What comes to the engine *)

Inductive RunEvent :=
| EvTick
| EvDone (by_ verdict answer : option string)
| EvNeed (by_ text : option string)
| EvStatus (pane : string) (ended : bool)
| EvTooOld (pane why : string)
| EvTaskClosed (task : string)
| EvStopRun (row : RunRow) (by_ : option string)
| EvResumeRun (row : RunRow) (text by_ : option string)
| EvStartRun (a : StartArgs) (base : res string) (made : res (string * string)) (id : string)
| EvAnswer (i : nat) (answer : Answer).

Section Engine.
Context `{RunWorld}.

(** The answer to the [i]th pending callback: it is taken from what is pending. *)
Definition take_answer (env : Env) (i : nat) (answer : Answer) : act Engine unit :=
  let! found := act_state (fun s => (en_calls s !! i, set_en_calls s (base.delete i (en_calls s)))) in
  if_live found (fun cb => answered env cb answer).

Definition no_result {A} (m : act Engine A) : act Engine unit := let! _ := m in act_ret tt.

Definition handle (env : Env) (ev : RunEvent) : act Engine unit :=
  match ev with
  | EvTick => no_result (tick env)
  | EvDone by_ verdict answer => done env by_ verdict answer
  | EvNeed by_ text => need env by_ text
  | EvStatus pane ended => status pane ended
  | EvTooOld pane why => no_result (too_old env pane why)
  | EvTaskClosed task => task_closed env task
  | EvStopRun row by_ => stop_run env row by_
  | EvResumeRun row text by_ => resume_run env row text by_
  | EvStartRun a base made id => no_result (start_run env a base made id)
  | EvAnswer i answer => take_answer env i answer
  end.

(** What may come: a new run has a new id; an answer is of its callback's kind, and a screen is
    read before its visit's terminal is closed and another opens. *)
Definition may_come (s : Engine) (ev : RunEvent) : Prop :=
  match ev with
  | EvStartRun a base made id => fresh_id id (en_live s) (en_calls s) /\ base ≠ Panic /\ made ≠ Panic
  | EvAnswer i answer => forall cb, en_calls s !! i = Some cb -> answers cb answer /\ timely cb (en_live s)
  | _ => True
  end.

(** One event, at a time the clock may show; an error is answered and the engine goes on. *)
Inductive run_step (T : f64 -> Prop) (s : Engine) : Engine -> Prop :=
| step_event env ev r s' :
    T (ev_now env) -> may_come s ev -> handle env ev s = (r, s') -> r ≠ Panic -> run_step T s s'.

(** An engine that starts with nothing live *)
Definition idle_engine (s : Engine) : Prop := en_live s = [] /\ en_calls s = [].
Definition reached (T : f64 -> Prop) (s : Engine) : Prop := exists s0, idle_engine s0 /\ rtc (run_step T) s0 s.

Lemma delete_none {A} (l : list A) i : l !! i = None -> base.delete i l = l.
Proof. revert i. induction l as [|x l IH]; intros [|i]; simpl; try done. intros Hi. f_equal. by apply IH. Qed.

Lemma handles {clk : Clock} {A} X (m : act Engine A) s :
  lruns X all_sound m (fun _ => all_sound) (en_live s) (en_calls s) ->
  runs X (fun s' => all_sound (en_live s') (en_calls s')) m (fun _ s' => all_sound (en_live s') (en_calls s')) s.
Proof. intros Hm. by apply Hm. Qed.

(** Only a clock that breaks makes it panic. *)
Ltac left_panics env := apply (runs_mono (clock_breaks env)) with (E := fun s' => all_sound (en_live s') (en_calls s'))
  (Q := fun _ s' => all_sound (en_live s') (en_calls s')); [|by left|done|done].

(** The start of a run whose pipeline overflows. *)
Definition overflowing (ev : RunEvent) : Prop :=
  match ev with EvStartRun a _ _ _ => start_overflows a | _ => False end.

Lemma handle_ok {clk : Clock} env ev s :
  clock_shows (ev_now env) -> may_come s ev -> all_sound (en_live s) (en_calls s) ->
  runs (clock_breaks env \/ ev = EvTick \/ overflowing ev) (fun s' => all_sound (en_live s') (en_calls s')) (handle env ev)
    (fun _ s' => all_sound (en_live s') (en_calls s')) s.
Proof.
  intros HT Hm Hok. destruct ev; simpl in *.
  - apply runs_bind, runs_bind. eapply runs_mono; [by apply handles, tick_steps_ok|by left|done|]. intros u s' Hok'.
    unfold runs, act_get. destruct (next_tick env s'); [done|by right; left].
  - by left_panics env; apply handles, done_ok.
  - by left_panics env; apply handles, need_ok.
  - by left_panics env; apply handles, status_ok.
  - left_panics env. apply runs_bind. eapply runs_weaken; [by apply handles, too_old_ok|]. done.
  - by left_panics env; apply handles, task_closed_ok.
  - by left_panics env; apply handles, stop_run_ok.
  - by left_panics env; apply handles, resume_run_ok.
  - destruct Hm as (Hid & Hb & Hd). apply runs_bind. eapply runs_mono; [by eapply start_run_ok|by right; right|done|done].
  - left_panics env. unfold take_answer. apply runs_bind. apply runs_state. intros found s' [= <- <-].
    destruct (en_calls s !! i) as [cb|] eqn:Hi; simpl.
    + destruct (Hm cb eq_refl) as [Ha Ht]. pose proof Hi as Hsplit. apply list_elem_of_split_length in Hsplit as (pre & post & E & Hlen).
      rewrite E in Hok. rewrite E, Hlen, delete_middle. apply handles. by apply answered_ok.
    + apply runs_ret. simpl. by rewrite delete_none.
Qed.

Lemma reached_sound T s : reached T s -> @all_sound T (en_live s) (en_calls s).
Proof.
  intros (s0 & [Hl Hc] & Hr). assert (@all_sound T (en_live s0) (en_calls s0)) as Hok.
  { rewrite Hl. split; [constructor|]. by intros l ?%elem_of_nil. }
  clear Hl Hc. induction Hr as [s|s1 s2 s3 [env ev r s' HT Hm Hh Hp] Hr IH]; [done|]. apply IH.
  pose proof (handle_ok (clk := T) env ev s1 HT Hm Hok) as Hx. unfold runs in Hx. rewrite Hh in Hx. by destruct r.
Qed.

Lemma reached_live T s l : reached T s -> l ∈ en_live s -> @sound T (en_calls s) l.
Proof. intros Hr Hl. by apply (reached_sound T s Hr). Qed.

(** ** The theorems *)

(** C22 The engine runs pipelines: whatever comes and in whatever order, every run the daemon
    has is at a stage and with counts of arrows that steps of its pipeline lead to from its
    start; a live run is at a stage or before one, and one that is over is nowhere.  No two
    runs have the same id. *)
Theorem runs_follow_pipeline (T : f64 -> Prop) s :
  reached T s ->
  NoDup (map lv_id (en_live s)) /\
  forall l, l ∈ en_live s ->
    (exists n c, nsteps (pipe_step (lv_pipeline l)) n (pl_start (lv_pipeline l), fresh_counts (lv_pipeline l)) c /\
       forall x, place l = Some x -> c = (x, dc_taken (lv_doc l))) /\
    (is_live l = true <-> is_Some (place l)).
Proof.
  intros Hr. split; [apply (reached_sound T s Hr)|]. intros l Hl. destruct (reached_live T s l Hr Hl) as [[Hb Hp Ho] _]. split.
  - destruct (lb_course _ Hb) as (n & c & Hn & Hc & _). by exists n, c.
  - split; [done|]. intros [x Hx]. destruct (is_live l) eqn:E; [done|]. destruct (Ho eq_refl). congruence.
Qed.

(** C23 A run is bounded: from when the daemon starts with no runs, and whatever comes until it ends, the
    arrows of a run are taken no more often than their [max]es allow and in all at most as often as the
    walk of its pipeline has fuel, and it has not begun more sessions than its budget has. *)
Theorem runs_are_bounded (T : f64 -> Prop) s l :
  reached T s -> l ∈ en_live s ->
  within_max (lv_pipeline l) (dc_taken (lv_doc l)) /\ arrows_taken (dc_taken (lv_doc l)) <= walk_fuel (lv_pipeline l) /\
  within_budget (lv_pipeline l) (dc_sessions (lv_doc l)).
Proof.
  intros Hr Hl. destruct (reached_live T s l Hr Hl) as [[[[cx Hchk] _ _ Hc Hs _] _ _] _]. destruct Hc as (n & c & Hn & _ & Ha & Hw).
  split_and!; [done| |done]. pose proof (checked_steps _ _ _ _ _ Hchk Hn). lia.
Qed.

(** C24 What is pending is the visit's own: while the visit of a run opens, one answer to an
    opening is pending for it, and while it ends, one end, otherwise none; a conclusion that is
    pending is of the visit's terminal and is what its agent reported, or a time-out, or a
    command's verdict.  So no visit is concluded twice, nor with the report of another. *)
Theorem conclusions_are_own (T : f64 -> Prop) s l v :
  reached T s -> l ∈ en_live s -> lv_visit l = Some v ->
  opens (lv_id l) (en_calls s) = (if vs_opening v then 1 else 0) /\ ends (lv_id l) (en_calls s) = (if vs_ending v then 1 else 0) /\
  forall pane ended, CbConclude (lv_id l) pane ended ∈ en_calls s -> own_end v pane ended.
Proof.
  intros Hr Hl Hv. destruct (reached_live T s l Hr Hl) as [_ Hf]. unfold fits in Hf. rewrite Hv in Hf. by destruct Hf.
Qed.

(** A deadline of a visit that is too far for the time until it to be a [Duration] *)
Definition deadline_too_far (env : Env) (s : Engine) : Prop :=
  exists at_, deadline s = Some at_ /\ duration_of (elapsed_since at_ (ev_now env)) = None.

(** C25 The engine panics in two cases only: where no two times of the clock are further apart than a
    [Duration] holds, what comes panics, in any state the engine gets to, only if it is a tick
    after which the nearest deadline of a visit is too far away, or the start of a run whose pipeline
    overflows: reading its text does, or its worst case is past [u32] sessions. *)
Theorem engine_never_panics (T : f64 -> Prop) s env ev :
  (forall now started, T now -> T started -> is_Some (duration_of (elapsed_since now started))) ->
  reached T s -> T (ev_now env) -> may_come s ev ->
  (handle env ev s).1 = Panic -> (ev = EvTick /\ deadline_too_far env (handle env ev s).2) \/ overflowing ev.
Proof.
  intros HT Hr Hnow Hm Hp. assert (¬ @clock_breaks T env) as Hclock.
  { intros (started & Hst & Hd). destruct (HT _ _ Hnow Hst). congruence. }
  pose proof (reached_sound T s Hr) as Hok. assert (ev = EvTick \/ overflowing ev) as [->|?]; [|left|by right].
  { pose proof (handle_ok (clk := T) env ev s Hnow Hm Hok) as Hx. unfold runs in Hx.
    destruct (handle env ev s) as [r s']. simpl in Hp. subst r. by destruct Hx. }
  split; [done|]. pose proof (tick_steps_ok (clk := T) env _ _ Hok s eq_refl eq_refl) as Hx. unfold runs in Hx. revert Hp.
  simpl. unfold no_result, tick, act_bind. destruct (tick_steps env s) as [[u|e|] s']; [|done|done]. unfold act_get.
  destruct (next_tick env s') eqn:Hn; [done|]. intros _. simpl. unfold next_tick in Hn. destruct (en_soon s'); [done|].
  unfold deadline_too_far. destruct (deadline s') as [at_|]; [|done]. exists at_. split; [done|]. by destruct (duration_of _).
Qed.
End Engine.

(** ** A run *)

#[local] Instance sample_run_world : RunWorld :=
  {| strip_escapes := fun s => s; replace_named := fun _ s => s; json_patch := fun _ doc => doc |}.

(** A pipeline whose agent has the time [within]. *)
Definition run_kojo (within : string) : string :=
  Text.join newline ["budget = 2 sessions, 8h"; "b = claude within " +:+ within; "c = run make"; "b -> c"; "c -[fail, max 1]-> b"; "c -[pass]-> done"].
Definition run_args (within : string) : StartArgs :=
  mkStartArgs "task" "/repo" (Some "Build it.") None ".kanna/build.kojo" "build" (run_kojo within) (<["b" := "build it"]> ∅) None.

(** Everything stands and works, at the second [now]. *)
Definition run_env (now : Z) : Env :=
  mkEnv (f_of_Z now) (fun _ => Some (mkPaneNow true None)) (fun _ => false) (fun _ => true) (fun _ => None) (fun _ => None) (fun _ => None)
    (fun _ => "head") (fun _ _ _ => Some 1%N) (fun _ => "build it") (fun _ => Some "session") (fun _ _ _ _ _ => "claude") (fun _ _ _ _ _ => "claude --resume")
    (fun _ _ _ _ _ _ => "make").

Definition run_seconds : list Z := [100; 101; 150; 170]%Z.
Definition run_times (t : f64) : Prop := t ∈ map f_of_Z run_seconds.

Lemma run_times_fit now started : run_times now -> run_times started -> is_Some (duration_of (elapsed_since now started)).
Proof.
  unfold run_times. rewrite !list_elem_of_In, !in_map_iff. intros (a & <- & Ha) (b & <- & Hb). simpl in Ha, Hb.
  repeat destruct Ha as [<-|Ha]; try destruct Ha; repeat destruct Hb as [<-|Hb]; try destruct Hb; vm_compute; by eexists.
Qed.

Lemma run_time (z : Z) : z ∈ run_seconds -> run_times (ev_now (run_env z)).
Proof. intros Hz. change (f_of_Z z ∈ map f_of_Z run_seconds). apply list_elem_of_In, in_map, list_elem_of_In, Hz. Qed.

(** Events, each at its second *)
Definition trace (evs : list (Z * RunEvent)) (s : Engine) : Engine := foldl (fun s '(t, ev) => (handle (run_env t) ev s).2) s evs.

Lemma trace_app evs evs' s : trace (evs ++ evs') s = trace evs' (trace evs s).
Proof. apply foldl_app. Qed.

Fixpoint may_run (evs : list (Z * RunEvent)) (s : Engine) : Prop :=
  match evs with
  | [] => True
  | (t, ev) :: evs =>
    t ∈ run_seconds /\ may_come s ev /\ (handle (run_env t) ev s).1 ≠ Panic /\ may_run evs (handle (run_env t) ev s).2
  end.

Lemma trace_reached evs s : reached run_times s -> may_run evs s -> reached run_times (trace evs s).
Proof.
  revert s. induction evs as [|[t ev] evs IH]; intros s Hr; simpl; [done|]. intros (Ht & Hm & Hp & Hrest). apply IH; [|done].
  destruct Hr as (s0 & Hs0 & Hr). exists s0. split; [done|]. eapply rtc_r; [exact Hr|].
  eapply (step_event _ _ (run_env t) ev); [by apply run_time|done| |exact Hp]. by destruct (handle (run_env t) ev s).
Qed.

(** A run starts, its first stage's terminal opens, its agent reports, and it is asked to quit. *)
Definition engine0 : Engine := mkEngine [] false "host" [] [] [].
Definition run_start (within : string) : RunEvent := EvStartRun (run_args within) (Ok "base") (Ok ("/repo/worker", "task/run")) "run-1".
Definition begins (within : string) : list (Z * RunEvent) := [(100%Z, run_start within); (100%Z, EvTick)].
Definition opens_run (within : string) : list (Z * RunEvent) := begins within ++ [(101%Z, EvAnswer 0 (AnOpen (inl "p1")))].
Definition reports_run : list (Z * RunEvent) :=
  opens_run "30m" ++ [(150%Z, EvDone (Some "p1") None (Some "built")); (170%Z, EvTick)].

Definition engine2 : Engine := trace (begins "30m") engine0.
Definition engine5 : Engine := trace reports_run engine0.

Lemma engine0_reached : reached run_times engine0.
Proof. exists engine0. split; [done|apply rtc_refl]. Qed.

Lemma start_may_come within : may_come engine0 (run_start within).
Proof.
  split_and!; [split; [by intros ?%elem_of_nil|constructor]|done..].
Qed.

Lemma not_panic {A} (r : res A) a : r = Ok a -> r ≠ Panic.
Proof. by intros ->. Qed.

Lemma opening_may_come s reply : match en_calls s with [CbOpened _ _] => True | _ => False end -> may_come s (EvAnswer 0 (AnOpen reply)).
Proof. intros Hc cb Hcb. destruct (en_calls s) as [|[] []]; simplify_eq/=; done. Qed.

Lemma opens_may_run within :
  (handle (run_env 100) (run_start within) engine0).1 = Ok tt ->
  (handle (run_env 100) EvTick (trace (take 1 (begins within)) engine0)).1 = Ok tt ->
  match en_calls (trace (begins within) engine0) with [CbOpened _ _] => True | _ => False end ->
  (handle (run_env 101) (EvAnswer 0 (AnOpen (inl "p1"))) (trace (begins within) engine0)).1 = Ok tt ->
  reached run_times (trace (opens_run within) engine0).
Proof.
  intros H1 H2 Hc H3. apply trace_reached; [apply engine0_reached|].
  unfold opens_run, begins. cbn [app may_run].
  split_and!; [by apply list_elem_of_here|apply start_may_come|exact (not_panic _ _ H1)|by apply list_elem_of_here|done|exact (not_panic _ _ H2)|
    by apply list_elem_of_further, list_elem_of_here| |exact (not_panic _ _ H3)|done].
  exact (opening_may_come _ _ Hc).
Qed.

Lemma engine3_reached : reached run_times (trace (opens_run "30m") engine0).
Proof. apply (opens_may_run "30m"); by vm_compute. Qed.

Lemma engine5_reached : reached run_times engine5.
Proof.
  unfold engine5, reports_run. rewrite trace_app. apply trace_reached; [apply engine3_reached|].
  cbn [may_run]. split_and!; [apply (bool_decide_unpack _); by vm_compute|done|by vm_compute|apply (bool_decide_unpack _); by vm_compute|done|by vm_compute|done].
Qed.

Definition no_live : Live :=
  mkLive (mkRunRow "" "" "" "" "" "" "" f0 None None JNull)
    (mkDoc "" "" "" "" 1 [] None ∅ ∅ ∅ 0 0 None None None) (mkPipeline [] [] None "" "") None.
Definition run1 : Live := default no_live (head (en_live engine5)).
Definition no_visit : Visit :=
  mkVisit (mkStageRow 0 "" "" 0 None "" None "" f0 None None None None None None JNull) (WAgent "") None false false None None false.
Definition visit1 : Visit := default no_visit (lv_visit run1).

Lemma run1_in : run1 ∈ en_live engine5.
Proof. vm_compute. left. Qed.

Lemma runs_follow_pipeline_witness : reached run_times engine5 /\ NoDup (map lv_id (en_live engine5)).
Proof. split; [exact engine5_reached|]. apply (runs_follow_pipeline run_times engine5 engine5_reached). Defined.

Lemma runs_are_bounded_witness :
  reached run_times engine5 /\ within_budget (lv_pipeline run1) 1.
Proof. split; [exact engine5_reached|]. apply (runs_are_bounded run_times engine5 run1 engine5_reached run1_in). Defined.

Lemma conclusions_are_own_witness :
  vs_ending visit1 = true /\ ends (lv_id run1) (en_calls engine5) = (if vs_ending visit1 then 1 else 0).
Proof.
  split; [vm_compute; reflexivity|]. assert (lv_visit run1 = Some visit1) as Hv by (vm_compute; reflexivity).
  exact (proj1 (proj2 (conclusions_are_own run_times engine5 run1 visit1 engine5_reached run1_in Hv))).
Defined.

(** A tick that panics: a stage with the longest [within] that its pipeline may give. *)
Definition far_within : string := "18446744073709551615s".
Definition far_engine : Engine := trace (opens_run far_within) engine0.

Lemma far_reached : reached run_times far_engine.
Proof. apply (opens_may_run far_within); by vm_compute. Qed.

Lemma engine_never_panics_witness :
  (handle (run_env 150) EvTick far_engine).1 = Panic /\ deadline_too_far (run_env 150) (handle (run_env 150) EvTick far_engine).2.
Proof.
  assert ((handle (run_env 150) EvTick far_engine).1 = Panic) as Hp by (vm_compute; reflexivity). split; [exact Hp|].
  destruct (engine_never_panics run_times far_engine (run_env 150) EvTick run_times_fit far_reached) as [[_ Hfar]|[]];
    [|exact I|exact Hp|exact Hfar]. apply run_time, list_elem_of_further, list_elem_of_further, list_elem_of_here.
Defined.

(** A start that panics: a duration of the pipeline that does not fit. *)
Example overflowing_start :
  (handle (run_env 100) (run_start "9999999999999999999h") engine0).1 = Panic /\ overflowing (run_start "9999999999999999999h").
Proof. split; [by vm_compute|left; by vm_compute]. Qed.

(** ** A run stopped while its terminal opens

    The terminal that opens afterwards stays: nothing closes it or ends its agent, no visit
    holds it, and its stage's row is saved as one that has not ended. *)

Definition ends_pane (pane : string) (e : Effect) : bool :=
  match e with EClose p | EEndAgent p _ | EEndPane p => bool_decide (p = pane) | _ => false end.
Definition stopped_early : Engine :=
  (handle (run_env 101) (EvStopRun (lv_row (default no_live (head (en_live engine2)))) None) engine2).2.
Definition opened_late : Engine := (handle (run_env 102) (EvAnswer 0 (AnOpen (inl "p1"))) stopped_early).2.

Lemma opened_late_stays :
  existsb (ends_pane "p1") (en_out opened_late) = false /\ en_calls opened_late = [] /\
  map lv_visit (en_live opened_late) = [None] /\
  map (fun r => (sr_terminal r, sr_ended r)) (en_stages opened_late) = [(Some "p1", None)].
Proof. by vm_compute. Qed.
