(* ===== verification/Schedule.v ===== *)
(** * The rules of schedules: [crates/kanna-daemon/src/schedule.rs]

    A schedule's rule says when it is next due: at a time of some days of the week on the
    local clock, or every so many minutes or hours.  [Zone] gives the local clock's offset.
    Sums of seconds are of [i64] and wrap around, as they do in the release build. *)

From S2P Require Import Prelude Text F64.
From Stdlib Require Import Ascii SpecFloat.

Definition EXAMPLES : string :=
  in_quotes "daily 09:00" +:+ ", " +:+ in_quotes "weekdays 18:00" +:+ ", " +:+ in_quotes "mon,thu 10:30" +:+ " or " +:+ in_quotes "every 2h".
Definition DAYS : list string := ["mon"; "tue"; "wed"; "thu"; "fri"; "sat"; "sun"].
Definition MONTHS : list string := ["Jan"; "Feb"; "Mar"; "Apr"; "May"; "Jun"; "Jul"; "Aug"; "Sep"; "Oct"; "Nov"; "Dec"].
Definition DAY : Z := 86400.

(** [Zone]: the seconds that the local clock is ahead at a time. *)
Class Zone := offset : Z -> Z.

(** [str::to_lowercase] of a text that is not ASCII *)
Class Lowercase := lowercase_other : string -> string.

(** ** The calendar *)

#[local] Open Scope Z_scope.

Definition civil_from_days (z : Z) : Z * Z * Z :=
  let z := z + 719468 in
  let era := z / 146097 in
  let doe := z - era * 146097 in
  let yoe := (doe - doe / 1460 + doe / 36524 - doe / 146096) / 365 in
  let doy := doe - (365 * yoe + yoe / 4 - yoe / 100) in
  let mp := (5 * doy + 2) / 153 in
  let d := doy - (153 * mp + 2) / 5 + 1 in
  let m := if mp <? 10 then mp + 3 else mp - 9 in
  (if m <=? 2 then yoe + era * 400 + 1 else yoe + era * 400, m, d).

(** [i64] sums and products, which wrap around *)
Definition wrap64 (z : Z) : Z := (z + 2 ^ 63) mod 2 ^ 64 - 2 ^ 63.

Definition weekday (day : Z) : nat := Z.to_nat ((day + 3) mod 7).

(** [x.floor() as i64] *)
Definition f_floor_Z (x : f64) : Z :=
  match x with
  | S754_zero _ => 0
  | S754_finite s m e =>
    let v := if s then Z.neg m else Z.pos m in
    Z.max (- 2 ^ 63) (Z.min (2 ^ 63 - 1) (if 0 <=? e then v * 2 ^ e else v / 2 ^ (- e)))
  | S754_infinity s => if s then - 2 ^ 63 else 2 ^ 63 - 1
  | S754_nan => 0
  end.

Definition pad2 (z : Z) : string := if z <? 10 then "0" +:+ pretty z else pretty z.
Definition hour_minute (minute : Z) : string := pad2 (minute / 60) +:+ ":" +:+ pad2 (minute mod 60).

Definition upper_ascii (a : ascii) : ascii :=
  let n := N_of_ascii a in if ((97 <=? n) && (n <=? 122))%N then ascii_of_N (n - 32) else a.
Definition lower_ascii (a : ascii) : ascii :=
  let n := N_of_ascii a in if ((65 <=? n) && (n <=? 90))%N then ascii_of_N (n + 32) else a.
Fixpoint map_bytes (f : ascii -> ascii) (s : string) : string :=
  match s with EmptyString => EmptyString | String a s => String (f a) (map_bytes f s) end.
Definition is_ascii (s : string) : bool := forallb (fun a => N_of_ascii a <? 128)%N (string_bytes s).

(** [(name[..1].to_uppercase(), &name[1..])] of a day's name *)
Definition titled (name : string) : string := match name with EmptyString => EmptyString | String a s => String (upper_ascii a) s end.

Section Rules.
Context {zone : Zone} {lower : Lowercase}.

(** [iter.min()] *)
Definition least (l : list Z) : option Z := match l with [] => None | x :: l => Some (foldl Z.min x l) end.

Definition resolve (day minute : Z) : Z :=
  let wall := wrap64 (wrap64 (day * DAY) + minute * 60) in
  let before := offset (wrap64 (wall - DAY)) in
  let after := offset (wrap64 (wall + DAY)) in
  default (wrap64 (wall - before)) (least (retain (fun t => wrap64 (t + offset t) =? wall) (map (fun o => wrap64 (wall - o)) [before; after]))).

Definition local_text (at_ : f64) : string :=
  let at_ := f_floor_Z at_ in
  let wall := wrap64 (at_ + offset at_) in
  let day := wall / DAY in
  let minute := (wall mod DAY) / 60 in
  let '(_, m, d) := civil_from_days day in
  titled (default "" (DAYS !! weekday day)) +:+ " " +:+ pretty d +:+ " " +:+ default "" (MONTHS !! Z.to_nat (m - 1)) +:+ " " +:+ hour_minute minute.

(** ** Rules *)

Inductive Rule :=
| At (days : list bool) (minute : Z)
| Every (secs : Z).

Definition all_digits (s : string) : bool := forallb is_digit (string_bytes s).

Definition digits (s : string) (most : nat) : option Z :=
  if negb (str_is_empty s) && bool_decide (String.length s <= most)%nat && all_digits s then Z.of_N <$> parse_digits 0 s else None.

Definition clock_minute (text : string) : option Z :=
  '(h, m) ← split_once ":" text;
  hours ← digits h 2;
  minutes ← (if decide (String.length m = 2%nat) then digits m 2 else None);
  if (hours <? 24) && (minutes <? 60) then Some (hours * 60 + minutes) else None.

(** [i64::from_str] *)
Definition parse_i64 (s : string) : option Z :=
  match strip_prefix "-" s with
  | Some EmptyString => None
  | Some body => n ← parse_digits 0 body; if (n <=? 2 ^ 63)%N then Some (- Z.of_N n) else None
  | None => Z.of_N <$> parse_uint (2 ^ 63 - 1) s
  end.

(** A byte that goes on with a character: [split_at] before it panics. *)
Definition goes_on (a : ascii) : bool := ((128 <=? N_of_ascii a) && (N_of_ascii a <? 192))%N.

Definition last_byte (s : string) : option ascii := String.get (String.length s - 1) s.

(** [Crash]: [split_at] inside the last character. *)
Definition interval (text : string) : outcome unit Z :=
  match last_byte text with
  | None => Bad tt
  | Some unit_ =>
    if goes_on unit_ then Crash
    else
      let count := String.substring 0 (String.length text - 1) text in
      match (n ← parse_i64 count; if (1 <=? n) && (n <=? 10000) then Some n else None) with
      | None => Bad tt
      | Some count =>
        if decide (unit_ = "m"%char) then Good (count * 60) else if decide (unit_ = "h"%char) then Good (count * 3600) else Bad tt
      end
  end.

Fixpoint day_index (name : string) (days : list string) : option nat :=
  match days with
  | [] => None
  | d :: days => if decide (d = name) then Some 0%nat else S <$> day_index name days
  end.

Fixpoint set_days (names : list string) (days : list bool) : option (list bool) :=
  match names with
  | [] => Some days
  | name :: names => i ← day_index name DAYS; set_days names (<[i := true]> days)
  end.
Definition day_list (text : string) : option (list bool) := set_days (split_on "," text) (replicate 7 false).

Definition lowercase (s : string) : string := if is_ascii s then map_bytes lower_ascii s else lowercase_other s.

(** [str::split_whitespace] *)
Fixpoint words_of (word : list N) (cs : list N) : list (list N) :=
  match cs with
  | [] => match word with [] => [] | _ => [rev word] end
  | c :: cs => if is_whitespace c then match word with [] => words_of [] cs | _ => rev word :: words_of [] cs end else words_of (c :: word) cs
  end.
Definition split_whitespace (s : string) : list string := map of_chars (words_of [] (chars s)).

Definition daily : list bool := [true; true; true; true; true; true; true].
Definition weekdays : list bool := [true; true; true; true; true; false; false].
Definition weekends : list bool := [false; false; false; false; false; true; true].

Definition days_named (first : string) : option (list bool) :=
  if decide (first = "daily") then Some daily
  else if decide (first = "weekdays") then Some weekdays
  else if decide (first = "weekends") then Some weekends
  else day_list first.

Definition rule_parse (text : string) : outcome string Rule :=
  let refuse why := in_quotes (str_trim text) +:+ " isn't a rule (" +:+ why +:+ "): try " +:+ EXAMPLES in
  match map lowercase (split_whitespace text) with
  | [first; second] =>
    if decide (first = "every") then
      match interval second with
      | Good secs => Good (Every secs)
      | Bad _ => Bad (refuse "every takes minutes or hours, like 30m or 2h")
      | Crash => Crash
      end
    else
      match days_named first with
      | None => Bad (refuse "days are daily, weekdays, weekends, or some of mon,tue,wed,thu,fri,sat,sun")
      | Some days =>
        match clock_minute second with
        | None => Bad (refuse "a time is HH:MM, from 00:00 to 23:59")
        | Some minute => Good (At days minute)
        end
      end
  | _ => Bad (refuse "a rule is two words")
  end.

Definition days_text (days : list bool) : string :=
  if decide (days = daily) then "daily"
  else if decide (days = weekdays) then "weekdays"
  else if decide (days = weekends) then "weekends"
  else join "," (map fst (retain snd (zip DAYS days))).

Definition rule_text (r : Rule) : string :=
  match r with
  | Every secs => if secs mod 3600 =? 0 then "every " +:+ pretty (secs / 3600) +:+ "h" else "every " +:+ pretty (secs / 60) +:+ "m"
  | At days minute => days_text days +:+ " " +:+ hour_minute minute
  end.

(** [(first..first + n)] *)
Definition day_range (first : Z) (n : nat) : list Z := map (fun i => first + Z.of_nat i) (seq 0 n).

Definition f_floor (x : f64) : f64 :=
  match x with
  | S754_finite s m e =>
    if 0 <=? e then x else let q := (if s then Z.neg m else Z.pos m) / 2 ^ (- e) in binary_normalize 53 1024 q 0 s
  | _ => x
  end.

Definition rule_next (r : Rule) (due now : f64) : f64 :=
  match r with
  | Every secs =>
    let secs := f_of_Z secs in
    let next := fadd due secs in
    if flt now next then next else fadd (fadd next (fmul (f_floor (fdiv (fsub now next) secs)) secs)) secs
  | At days minute =>
    let at_ := f_floor_Z now in
    let today := wrap64 (at_ + offset at_) / DAY in
    let candidates := map (fun day => f_of_Z (resolve day minute)) (retain (fun day => default false (days !! weekday day)) (day_range (today - 1) 10)) in
    default (fadd now (f_of_Z DAY)) (List.find (fun t => flt now t) candidates)
  end.
End Rules.

(** * [civil_from_days] is the Gregorian calendar: [crates/kanna-daemon/src/schedule.rs] *)

#[local] Open Scope Z_scope.

(** ** The calendar *)

Definition is_leap (y : Z) : bool := (y mod 4 =? 0) && negb (y mod 100 =? 0) || (y mod 400 =? 0).

Definition month_days (y m : Z) : Z :=
  if m =? 2 then if is_leap y then 29 else 28
  else if (m =? 4) || (m =? 6) || (m =? 9) || (m =? 11) then 30 else 31.

Definition is_date (date : Z * Z * Z) : Prop := let '(y, m, d) := date in 1 <= m <= 12 /\ 1 <= d <= month_days y m.

Definition next_day (date : Z * Z * Z) : Z * Z * Z :=
  let '(y, m, d) := date in
  if d <? month_days y m then (y, m, d + 1) else if m <? 12 then (y, m + 1, 1) else (y + 1, 1, 1).

(** ** Years that start in March, in eras of 400 *)

Definition year_start (y : Z) : Z := 365 * y + y / 4 - y / 100.
Definition year_length (y : Z) : Z := if is_leap (y + 1) then 366 else 365.

Definition civil_of (era yoe doy : Z) : Z * Z * Z :=
  let mp := (5 * doy + 2) / 153 in
  let d := doy - (153 * mp + 2) / 5 + 1 in
  let m := if mp <? 10 then mp + 3 else mp - 9 in
  (if m <=? 2 then yoe + era * 400 + 1 else yoe + era * 400, m, d).

Definition day_of (era yoe doy : Z) : Z := era * 146097 + year_start yoe + doy - 719468.

#[local] Ltac Zify.zify_post_hook ::= Z.div_mod_to_equations.

Lemma is_leap_era era y : is_leap (y + era * 400) = is_leap y.
Proof.
  unfold is_leap. replace (y + era * 400) with (y + era * 100 * 4) at 1 by lia. replace (y + era * 400) with (y + era * 4 * 100) at 1 by lia.
  by rewrite !Z.mod_add.
Qed.

Lemma year_length_bounds y : 365 <= year_length y <= 366.
Proof. unfold year_length. destruct (is_leap (y + 1)); lia. Qed.

Lemma year_length_step y : 0 <= y < 399 -> year_start (y + 1) = year_start y + year_length y.
Proof.
  intros Hy. unfold year_start, year_length, is_leap.
  destruct (Z.eqb_spec ((y + 1) mod 4) 0), (Z.eqb_spec ((y + 1) mod 100) 0), (Z.eqb_spec ((y + 1) mod 400) 0); simpl; lia.
Qed.

Lemma civil_join era yoe doy : 0 <= yoe < 400 -> 0 <= doy < year_length yoe -> civil_from_days (day_of era yoe doy) = civil_of era yoe doy.
Proof.
  intros Hy Hd. assert (0 <= doy <= 365) as Hd' by (pose proof (year_length_bounds yoe); lia).
  assert (yoe < 399 -> year_start yoe + doy < year_start (yoe + 1)) as Hnext by (intros; rewrite year_length_step; lia).
  assert (yoe = 399 -> year_start yoe + doy < 146097) as Hlast by (unfold year_start; lia).
  assert (0 <= year_start yoe) as Hpos by (unfold year_start; lia).
  assert (year_start (yoe + 1) <= 146097) as Hend by (unfold year_start; lia).
  unfold civil_from_days, day_of. set (doe := year_start yoe + doy).
  replace (era * 146097 + year_start yoe + doy - 719468 + 719468) with (doe + era * 146097) by (unfold doe; lia).
  rewrite Z.div_add by lia. rewrite (Z.div_small doe) by (unfold doe; lia).
  replace (doe + era * 146097 - (0 + era) * 146097) with doe by lia. replace (0 + era) with era by lia.
  assert ((doe - doe / 1460 + doe / 36524 - doe / 146096) / 365 = yoe) as ->.
  { unfold doe, year_start in *. lia. }
  by replace (doe - (365 * yoe + yoe / 4 - yoe / 100)) with doy by (unfold doe, year_start; lia).
Qed.

Lemma civil_split z : exists era yoe doy, 0 <= yoe < 400 /\ 0 <= doy < year_length yoe /\ z = day_of era yoe doy.
Proof.
  set (era := (z + 719468) / 146097). set (doe := z + 719468 - era * 146097).
  assert (0 <= doe < 146097) as Hdoe by (unfold doe, era; lia).
  set (yoe := (doe - doe / 1460 + doe / 36524 - doe / 146096) / 365).
  assert (0 <= yoe < 400 /\ year_start yoe <= doe /\ (yoe < 399 -> doe < year_start (yoe + 1))) as (Hy & Hlo & Hhi).
  { unfold yoe, year_start. clearbody doe. clear era. lia. }
  exists era, yoe, (doe - year_start yoe). split_and!; try lia.
  - destruct (decide (yoe < 399)) as [Hlt|Hge]; [specialize (Hhi Hlt); rewrite year_length_step in Hhi; lia|].
    replace yoe with 399 in * by lia. change (year_length 399) with 366. change (year_start 399) with 145731 in *. lia.
  - unfold day_of, doe. lia.
Qed.

(** ** Days *)

Lemma is_leap_next era yoe : is_leap (yoe + era * 400 + 1) = is_leap (yoe + 1).
Proof. replace (yoe + era * 400 + 1) with (yoe + 1 + era * 400) by lia. apply is_leap_era. Qed.

(** The months of a year that starts in March *)
Lemma month_of doy : 0 <= doy <= 365 -> 0 <= (5 * doy + 2) / 153 <= 11.
Proof. lia. Qed.

Ltac each_month mp := assert (mp = 0 \/ mp = 1 \/ mp = 2 \/ mp = 3 \/ mp = 4 \/ mp = 5 \/ mp = 6 \/ mp = 7 \/ mp = 8 \/ mp = 9 \/ mp = 10 \/ mp = 11)
  as Hmonths by lia; repeat destruct Hmonths as [Hmonths|Hmonths].

Lemma civil_of_date era yoe doy : 0 <= doy < year_length yoe -> is_date (civil_of era yoe doy).
Proof.
  intros Hd. assert (0 <= doy <= 365) as Hd' by (unfold year_length in Hd; destruct (is_leap _); lia).
  unfold civil_of, is_date, month_days. remember ((5 * doy + 2) / 153) as mp eqn:Hmp. pose proof (month_of doy Hd') as Hb. rewrite <- Hmp in Hb.
  each_month mp; subst mp; rewrite Hmonths; simpl; rewrite ?is_leap_next; unfold year_length in Hd; destruct (is_leap (yoe + 1)); lia.
Qed.

(** A day later in the same year *)
Lemma civil_of_next era yoe doy : 0 <= doy -> doy + 1 < year_length yoe -> civil_of era yoe (doy + 1) = next_day (civil_of era yoe doy).
Proof.
  intros Hd Hd1. assert (0 <= doy /\ doy + 1 <= 365) as [_ Hd'] by (unfold year_length in Hd1; destruct (is_leap _); lia).
  unfold civil_of, next_day, month_days.
  remember ((5 * doy + 2) / 153) as mp eqn:Hmp. remember ((5 * (doy + 1) + 2) / 153) as mp' eqn:Hmp'.
  assert (mp' = mp \/ mp' = mp + 1) as Hor by lia. pose proof (month_of doy ltac:(lia)) as Hb. rewrite <- Hmp in Hb.
  unfold year_length in Hd1. destruct (is_leap (yoe + 1)) eqn:Hleap.
  all: destruct Hor as [Hor|Hor]; each_month mp; rewrite Hor, Hmonths in *; simpl; rewrite ?is_leap_next, ?Hleap;
    try (exfalso; lia); case_match; rewrite ?Z.ltb_lt, ?Z.ltb_ge in *; try (exfalso; lia); repeat f_equal; lia.
Qed.

(** The last day of the year that starts in March, and the first of the next *)
Lemma civil_of_new_year era yoe : 0 <= yoe < 400 -> next_day (civil_of era yoe (year_length yoe - 1)) = (yoe + era * 400 + 1, 3, 1).
Proof.
  intros Hy. unfold civil_of, next_day, month_days, year_length. destruct (is_leap (yoe + 1)) eqn:Hleap; simpl; by rewrite ?is_leap_next, ?Hleap.
Qed.

(** [civil_from_days] is the Gregorian calendar, for every day before and after 1970: day 0
    is 1 January 1970, each day has a date there is, and the date of the next day is the next
    date, by the lengths of the months and the leap years of 400. *)
Theorem civil_exact :
  civil_from_days 0 = (1970, 1, 1) /\
  forall z, is_date (civil_from_days z) /\ civil_from_days (z + 1) = next_day (civil_from_days z).
Proof.
  split; [done|]. intros z. destruct (civil_split z) as (era & yoe & doy & Hy & Hd & ->).
  rewrite civil_join by done. split; [by apply civil_of_date|].
  destruct (decide (doy + 1 < year_length yoe)) as [Hlt|Hge].
  - rewrite <- civil_of_next, <- civil_join by lia. f_equal. unfold day_of. lia.
  - assert (doy = year_length yoe - 1) as -> by lia. rewrite civil_of_new_year by done.
    destruct (decide (yoe < 399)) as [Hl|Hg].
    + replace (day_of era yoe (year_length yoe - 1) + 1) with (day_of era (yoe + 1) 0) by (unfold day_of; rewrite year_length_step; lia).
      pose proof (year_length_bounds (yoe + 1)). rewrite civil_join by lia. unfold civil_of. simpl. f_equal. f_equal. lia.
    + replace yoe with 399 by lia. change (year_length 399) with 366.
      replace (day_of era 399 (366 - 1) + 1) with (day_of (era + 1) 0 0) by (unfold day_of; change (year_start 399) with 145731; change (year_start 0) with 0; lia).
      rewrite civil_join by (change (year_length 0) with 365; lia). unfold civil_of. simpl. f_equal. f_equal. lia.
Qed.
