(* ===== verification/ScheduleFacts.v ===== *)
(** * A rule's text and back: [crates/kanna-daemon/src/schedule.rs] *)

From S2P Require Import Prelude Text F64 Pipe PipeParse PipeText Schedule.
From Stdlib Require Import Ascii SpecFloat.

#[local] Open Scope Z_scope.

(** ** Words *)

(** A byte of a word that is not changed when the word is split off and lowercased *)
Definition word_byte (a : ascii) : bool := (N_of_ascii a <? 128)%N && negb (is_whitespace (N_of_ascii a)) && bool_decide (lower_ascii a = a).
Definition is_word (s : string) : bool := negb (str_is_empty s) && forallb word_byte (string_bytes s).

Lemma forallb_all {A} (f : A -> bool) l : forallb f l = true <-> Forall (fun x => f x = true) l.
Proof. rewrite forallb_forall, Forall_forall. by setoid_rewrite list_elem_of_In. Qed.

Lemma word_bytes s : is_word s = true -> Forall (fun a => word_byte a = true) (string_bytes s).
Proof. unfold is_word. intros [_ Hs]%andb_true_iff. by apply forallb_all. Qed.

Lemma word_ascii s : is_word s = true -> ascii_text s.
Proof.
  intros Hs%word_bytes. eapply Forall_impl; [exact Hs|]. intros a Ha. unfold word_byte in Ha. apply N.ltb_lt.
  by destruct (N_of_ascii a <? 128)%N.
Qed.

Lemma word_dark s : is_word s = true -> Forall (fun c => is_whitespace c = false) (chars s).
Proof.
  intros Hs. rewrite chars_bytes by by apply word_ascii. apply Forall_map. eapply Forall_impl; [by apply word_bytes|]. intros a Ha. simpl.
  unfold word_byte in Ha. by destruct (N_of_ascii a <? 128)%N, (is_whitespace (N_of_ascii a)).
Qed.

Lemma word_lower `{Lowercase} s : is_word s = true -> lowercase s = s.
Proof.
  intros Hs. unfold lowercase. assert (is_ascii s = true) as ->.
  { apply forallb_forall. intros a Ha%list_elem_of_In. apply N.ltb_lt. exact (proj1 (Forall_forall _ _) (word_ascii s Hs) a Ha). }
  apply word_bytes in Hs. induction s as [|a s IH]; simpl in *; [done|]. apply Forall_cons in Hs as [Ha Hs]. rewrite IH by done. f_equal.
  unfold word_byte in Ha. apply andb_true_iff in Ha as [_ Ha]. by apply bool_decide_eq_true in Ha.
Qed.

Lemma words_of_dark word cs rest : Forall (fun c => is_whitespace c = false) cs -> words_of word (cs ++ rest) = words_of (rev cs ++ word) rest.
Proof.
  intros Hcs. revert word. induction Hcs as [|c cs Hc Hcs IH]; intros word; simpl; [done|]. rewrite Hc, IH. simpl. by rewrite <- app_assoc.
Qed.

Lemma word_chars s : is_word s = true -> chars s ≠ [].
Proof. intros Hs. rewrite chars_bytes by by apply word_ascii. unfold is_word in Hs. by destruct s. Qed.

(** Two words with a space between are split into the two. *)
Lemma split_words a b : is_word a = true -> is_word b = true -> split_whitespace (a +:+ " " +:+ b) = [a; b].
Proof.
  intros Ha Hb. unfold split_whitespace. rewrite chars_app by by apply word_ascii.
  change (chars (" " +:+ b)) with (32%N :: chars b). rewrite words_of_dark by by apply word_dark.
  rewrite app_nil_r. simpl. rewrite <- (app_nil_r (chars b)), words_of_dark by by apply word_dark. rewrite app_nil_r.
  assert (forall s, is_word s = true -> rev (chars s) ≠ []) as Hne.
  { intros s Hs E. apply (word_chars s Hs). by rewrite <- (rev_involutive (chars s)), E. }
  destruct (rev (chars a)) as [|x l] eqn:Ea; [by apply Hne in Ea|]. rewrite <- Ea, rev_involutive.
  destruct (rev (chars b)) as [|y k] eqn:Eb; [by apply Hne in Eb|]. cbn [words_of]. rewrite <- Eb, rev_involutive. simpl.
  by rewrite !of_chars_chars by by apply word_ascii.
Qed.

(** ** The parts of a rule *)

(** A rule that the parser may give *)
Definition rule_ok (r : Rule) : Prop :=
  match r with
  | At days minute => length days = 7%nat /\ true ∈ days /\ 0 <= minute < 1440
  | Every secs => exists n, 1 <= n <= 10000 /\ (secs = n * 60 \/ secs = n * 3600)
  end.

Lemma days_read days :
  length days = 7%nat -> true ∈ days ->
  is_word (days_text days) = true /\ days_named (days_text days) = Some days /\ days_text days ≠ "every".
Proof.
  intros Hl Ht. destruct days as [|d0 [|d1 [|d2 [|d3 [|d4 [|d5 [|d6 [|]]]]]]]]; try discriminate Hl.
  destruct d0, d1, d2, d3, d4, d5, d6; [vm_compute; (split; [reflexivity|]; split; [reflexivity|discriminate])..|].
  exfalso. clear -Ht. repeat (apply elem_of_cons in Ht as [Ht|Ht]; [discriminate Ht|]). by apply elem_of_nil in Ht.
Qed.

Lemma pad2_read z : 0 <= z < 60 ->
  digits (pad2 z) 2 = Some z /\ String.length (pad2 z) = 2%nat /\ forallb (fun a => word_byte a && negb (bool_decide (a = ":"%char))) (string_bytes (pad2 z)) = true.
Proof.
  intros Hz. assert (forallb (fun n => let z := Z.of_nat n in bool_decide (digits (pad2 z) 2 = Some z) && bool_decide (String.length (pad2 z) = 2%nat)
    && forallb (fun a => word_byte a && negb (bool_decide (a = ":"%char))) (string_bytes (pad2 z))) (seq 0 60) = true) as Hall by by vm_compute.
  apply forallb_forall with (x := Z.to_nat z) in Hall; [|apply in_seq; lia]. rewrite Z2Nat.id in Hall by lia.
  apply andb_true_iff in Hall as [[H1 H2]%andb_true_iff H3]. apply bool_decide_eq_true in H1, H2. done.
Qed.

Lemma hour_minute_read minute : 0 <= minute < 1440 -> is_word (hour_minute minute) = true /\ clock_minute (hour_minute minute) = Some minute.
Proof.
  intros Hm. assert (0 <= minute / 60 < 60 /\ minute / 60 < 24) as [Hh Hh'] by (split; [split; [apply Z.div_pos; lia|]|]; apply Z.div_lt_upper_bound; lia).
  assert (0 <= minute mod 60 < 60) as Hr by (apply Z.mod_pos_bound; lia).
  destruct (pad2_read _ Hh) as (D1 & L1 & W1%forallb_all). destruct (pad2_read _ Hr) as (D2 & L2 & W2%forallb_all).
  assert (forall s, Forall (fun a => word_byte a && negb (bool_decide (a = ":"%char)) = true) (string_bytes s) ->
    Forall (fun a => word_byte a = true) (string_bytes s) /\ no_byte ":" s) as Hsplit.
  { intros s Hs. split; (eapply Forall_impl; [exact Hs|]); intros a [Ha Hb]%andb_true_iff; [done|]. by apply negb_true_iff, bool_decide_eq_false in Hb. }
  apply Hsplit in W1 as [W1 N1]. apply Hsplit in W2 as [W2 _]. unfold hour_minute. split.
  - unfold is_word. apply andb_true_iff. split; [by destruct (pad2 (minute / 60))|]. apply forallb_all.
    rewrite !string_bytes_app, !Forall_app. split_and!; [done| |done]. by repeat constructor.
  - unfold clock_minute. rewrite (split_once_app ":" "") by done. cbn [mbind option_bind]. rewrite D1. cbn [mbind option_bind].
    rewrite decide_True by done. rewrite D2. cbn [mbind option_bind].
    rewrite (proj2 (Z.ltb_lt _ _) Hh'), (proj2 (Z.ltb_lt _ _) (proj2 Hr)). simpl. f_equal. rewrite (Z.div_mod minute 60) at 3 by lia. lia.
Qed.

(** ** Numbers *)

Lemma pretty_Z_N z : 0 <= z -> pretty z = pretty (Z.to_N z).
Proof. by destruct z. Qed.

Lemma parse_i64_pretty z : 0 <= z < 2 ^ 63 -> parse_i64 (pretty z) = Some z.
Proof.
  intros Hz. rewrite pretty_Z_N by lia. unfold parse_i64. destruct (pretty_N_head (Z.to_N z)) as (a & s & E & Ha).
  assert (strip_prefix "-" (pretty (Z.to_N z)) = None) as ->.
  { rewrite E. simpl. rewrite decide_False; [done|]. intros <-. done. }
  rewrite parse_uint_pretty by lia. simpl. f_equal. lia.
Qed.

Lemma get_app (s : string) a : String.get (String.length s) (s +:+ String a "") = Some a.
Proof. induction s as [|b s IH]; [done|]. exact IH. Qed.

Lemma length_snoc (s : string) a : String.length (s +:+ String a "") = S (String.length s).
Proof. induction s as [|b s IH]; [done|]. change (S (String.length (s +:+ String a "")) = S (S (String.length s))). by rewrite IH. Qed.

Lemma substring_app (s : string) a : String.substring 0 (String.length s) (s +:+ String a "") = s.
Proof. induction s as [|b s IH]; [done|]. change (String b (String.substring 0 (String.length s) (s +:+ String a "")) = String b s). by rewrite IH. Qed.

Lemma interval_read n a secs :
  1 <= n <= 10000 -> a = "m"%char /\ secs = n * 60 \/ a = "h"%char /\ secs = n * 3600 -> interval (pretty n +:+ String a "") = Good secs.
Proof.
  intros Hn Ha. unfold interval, last_byte. rewrite length_snoc. replace (S (String.length (pretty n)) - 1)%nat with (String.length (pretty n)) by lia.
  rewrite get_app, substring_app, parse_i64_pretty by lia. cbn [mbind option_bind].
  rewrite (proj2 (Z.leb_le 1 n)), (proj2 (Z.leb_le n 10000)) by lia. simpl.
  by destruct Ha as [[-> ->]|[-> ->]].
Qed.

Lemma number_word n a : word_byte a = true -> 0 <= n -> is_word (pretty n +:+ String a "") = true.
Proof.
  intros Ha Hn. rewrite pretty_Z_N by done. unfold is_word. apply andb_true_iff. split.
  - destruct (pretty_N_head (Z.to_N n)) as (b & s & -> & _). done.
  - apply forallb_all. rewrite string_bytes_app. apply Forall_app. split; [|by repeat constructor].
    eapply Forall_impl; [apply pretty_digits|]. intros b Hb. unfold is_digit in Hb. destruct b as [[] [] [] [] [] [] [] []]; try done.
Qed.

(** ** What the parser gives *)

Lemma day_index_lt name days i : day_index name days = Some i -> (i < length days)%nat.
Proof.
  revert i. induction days as [|d days IH]; intros i; simpl; [done|]. case_decide; [intros [= <-]; lia|].
  intros (j & Hj & ->)%fmap_Some. apply IH in Hj. lia.
Qed.

Lemma set_days_ok names days days' :
  set_days names days = Some days' -> length days = 7%nat ->
  length days' = 7%nat /\ (names ≠ [] \/ true ∈ days -> true ∈ days').
Proof.
  revert days. induction names as [|name names IH]; intros days; cbn [set_days]; [intros [= ->]; naive_solver|].
  intros (i & Hi & Hs)%bind_Some Hl. apply day_index_lt in Hi. change (length DAYS) with 7%nat in Hi.
  destruct (IH _ Hs) as [Hl' Ht]; [by rewrite length_insert|]. split; [done|]. intros _. apply Ht. right.
  apply list_elem_of_lookup. exists i. apply list_lookup_insert_eq. lia.
Qed.

Lemma split_on_nonempty c s : split_on c s ≠ [].
Proof. unfold split_on. destruct s as [|a s]; simpl; [done|]. destruct (bool_decide (c = a)); [done|]. by destruct (split_bytes _ s). Qed.

Lemma days_named_ok first days : days_named first = Some days -> length days = 7%nat /\ true ∈ days.
Proof.
  unfold days_named. repeat case_decide; [intros [= <-]; split; [done|set_solver]..|]. intros Hd.
  destruct (set_days_ok _ _ _ Hd) as [Hl Ht]; [done|]. split; [done|]. apply Ht. left. apply split_on_nonempty.
Qed.

Lemma digits_pos s most z : digits s most = Some z -> 0 <= z.
Proof. unfold digits. case_match; [|done]. intros (n & _ & ->)%fmap_Some. lia. Qed.

Lemma clock_minute_ok text minute : clock_minute text = Some minute -> 0 <= minute < 1440.
Proof.
  unfold clock_minute. intros ([h m] & _ & Hr)%bind_Some. apply bind_Some in Hr as (hours & Hh%digits_pos & Hr).
  apply bind_Some in Hr as (minutes & Hm & Hr). case_decide; [|done]. apply digits_pos in Hm.
  destruct (hours <? 24) eqn:E1; [|done]. destruct (minutes <? 60) eqn:E2; [|done]. simplify_eq/=. lia.
Qed.

Lemma interval_ok text secs : interval text = Good secs -> exists n, 1 <= n <= 10000 /\ (secs = n * 60 \/ secs = n * 3600).
Proof.
  unfold interval. destruct (last_byte text) as [a|]; [|done]. destruct (goes_on a); [done|].
  destruct (_ ≫= _) as [n|] eqn:E; [|done]. apply bind_Some in E as (n' & _ & E). destruct ((1 <=? n') && (n' <=? 10000)) eqn:Eb; [|done].
  injection E as ->. apply andb_true_iff in Eb as [?%Z.leb_le ?%Z.leb_le].
  case_decide; [intros [= <-]; exists n; split; [lia|by left]|]. case_decide; [|done]. intros [= <-]. exists n. split; [lia|by right].
Qed.

Section Rules.
Context `{Lowercase}.

Lemma rule_parse_ok text r : rule_parse text = Good r -> rule_ok r.
Proof.
  unfold rule_parse. destruct (map lowercase (split_whitespace text)) as [|first [|second []]]; try done.
  case_decide.
  - destruct (interval second) as [secs| |] eqn:E; try done. intros [= <-]. by apply interval_ok in E.
  - destruct (days_named first) as [days|] eqn:Ed; [|done]. destruct (clock_minute second) as [minute|] eqn:Em; [|done].
    intros [= <-]. apply days_named_ok in Ed as [? ?]. apply clock_minute_ok in Em. done.
Qed.

Lemma rule_parse_words a b :
  is_word a = true -> is_word b = true ->
  forall text, text = a +:+ " " +:+ b -> map lowercase (split_whitespace text) = [a; b].
Proof. intros Ha Hb text ->. rewrite split_words by done. simpl. by rewrite !word_lower. Qed.

Lemma rule_text_read r : rule_ok r -> rule_parse (rule_text r) = Good r.
Proof.
  destruct r as [days minute|secs]; simpl.
  - intros (Hl & Ht & Hm). destruct (days_read days Hl Ht) as (Wd & Rd & Ne). destruct (hour_minute_read minute Hm) as [Wm Rm].
    unfold rule_parse. rewrite (rule_parse_words _ _ Wd Wm) by done. rewrite decide_False by done. by rewrite Rd, Rm.
  - intros (n & Hn & Hs).
    assert (forall k a, 1 <= k <= 10000 -> a = "m"%char /\ secs = k * 60 \/ a = "h"%char /\ secs = k * 3600 ->
      rule_parse ("every " +:+ pretty k +:+ String a "") = Good (Every secs)) as Hgo.
    { intros k a Hk Ha. unfold rule_parse. assert (is_word (pretty k +:+ String a "") = true) as Wk by (apply number_word; [destruct Ha as [[-> _]|[-> _]]; done|lia]).
      rewrite (rule_parse_words "every" _ eq_refl Wk) by done. rewrite decide_True by done. by rewrite (interval_read k a secs). }
    destruct (Z.eqb_spec (secs mod 3600) 0) as [Ez|Ez].
    + apply Hgo; [|right; split; [done|]]; pose proof (Z.div_mod secs 3600); lia.
    + destruct Hs as [->| ->]; [|by rewrite Z.mod_mul in Ez]. rewrite Z.div_mul by lia. apply Hgo; [lia|by left].
Qed.
End Rules.

(** * When a rule is next due: [crates/kanna-daemon/src/schedule.rs] *)

(** ** Whole seconds after a time *)

Lemma canonical_53 m e : canonical_mantissa 53 1024 m e = true -> -1074 < e -> 2 ^ 52 <= Z.pos m.
Proof.
  unfold canonical_mantissa. intros Hc%Z.eqb_eq He. pose proof (digits2_pos_bounds m) as [Hlo _].
  assert (Z.pos (digits2_pos m) = 53) as Hd by (unfold fexp, emin in Hc; lia). by rewrite Hd in Hlo.
Qed.

(** A number of the clock: a finite double, from 1970 on *)
Definition clock_time (now : f64) : Prop := is_finite now = true /\ valid_binary 53 1024 now = true /\ 0 <= f_floor_Z now < 2 ^ 52.

Lemma floor_finite m e : f_floor_Z (S754_finite false m e) < 2 ^ 53 ->
  f_floor_Z (S754_finite false m e) = if 0 <=? e then Z.pos m * 2 ^ e else Z.pos m / 2 ^ (- e).
Proof.
  unfold f_floor_Z. set (v := if 0 <=? e then _ else _). intros Hv.
  assert (0 <= v); [|lia]. unfold v. destruct (0 <=? e); [apply Z.mul_nonneg_nonneg; [lia|apply Z.pow_nonneg; lia]|].
  apply Z_div_nonneg_nonneg; [lia|apply Z.pow_nonneg; lia].
Qed.

(** A time is before every whole second above its floor. *)
Lemma flt_after now t : clock_time now -> f_floor_Z now < t < 2 ^ 53 -> flt now (f_of_Z t) = true.
Proof.
  intros (Hfin & Hv & Hf) Ht. destruct t as [|p|p]; [lia| |lia]. destruct (f_of_pos_exact false p) as (m' & e' & Hp & De' & Be' & Hm'); [lia|].
  unfold f_of_Z. rewrite Hp. clear Hp. destruct now as [s|s| |s m e]; try done. destruct s.
  { exfalso. simpl in Hf. destruct (Z.leb_spec 0 e); [assert (Z.neg m * 2 ^ e < 0) by (apply Z.mul_neg_pos; [lia|apply Z.pow_pos_nonneg; lia]); lia|].
    assert (Z.neg m / 2 ^ (- e) < 0) by (apply Z.div_lt_upper_bound; [apply Z.pow_pos_nonneg; lia|lia]). lia. }
  rewrite floor_finite in Ht by lia. rewrite floor_finite in Hf by lia.
  unfold flt, SFltb, SFcompare. simpl in Hv. apply andb_true_iff in Hv as [Hcan _].
  destruct (Z.compare_spec e e') as [Ee|Hlt|Hgt]; [|done|exfalso].
  - change (Pos.compare_cont Eq m m') with (Pos.compare m m'). replace (Pos.compare m m') with Lt; [done|]. symmetry. apply Pos.compare_lt_iff.
    assert (Z.pos m < Z.pos m'); [|lia]. rewrite Hm', <- Ee. destruct (Z.leb_spec 0 e).
    + replace e with 0 in * by lia. simpl in *. lia.
    + assert (0 < 2 ^ (- e)) by (apply Z.pow_pos_nonneg; lia). pose proof (Z.mul_succ_div_gt (Z.pos m) (2 ^ (- e))).
      assert (2 ^ (- e) * Z.succ (Z.pos m / 2 ^ (- e)) <= 2 ^ (- e) * Z.pos p) by (apply Z.mul_le_mono_nonneg_l; lia). lia.
  - pose proof (canonical_53 m e Hcan ltac:(lia)) as Hm. pose proof (digits2_pos_bounds p) as [_ Hpb].
    destruct (Z.leb_spec 0 e).
    + assert (2 ^ 52 * 1 <= Z.pos m * 2 ^ e) by (apply Z.mul_le_mono_nonneg; [lia|done|lia|]; pose proof (Z.pow_pos_nonneg 2 e); lia). lia.
    + assert (2 ^ (52 + e) <= Z.pos m / 2 ^ (- e)).
      { apply Z.div_le_lower_bound; [apply Z.pow_pos_nonneg; lia|]. rewrite <- Z.pow_add_r by lia. by replace (- e + (52 + e)) with 52 by lia. }
      assert (2 ^ Z.pos (digits2_pos p) <= 2 ^ (52 + e)) by (apply Z.pow_le_mono_r; lia). lia.
Qed.

(** ** The time of a day *)

Lemma foldl_min_le l x y : foldl Z.min x l <= y <-> x <= y \/ exists z, z ∈ l /\ z <= y.
Proof.
  revert x. induction l as [|z l IH]; intros x; simpl.
  - split; [by left|]. intros [?|(z & Hz%elem_of_nil & _)]; done.
  - rewrite IH. split.
    + intros [Hx|(w & Hw & Hy)]; [destruct (Z.min_spec x z) as [[_ E]|[_ E]]; rewrite E in Hx; [by left|right; exists z; split; [left|done]]|].
      right. exists w. split; [by right|done].
    + intros [Hx|(w & [->|Hw]%elem_of_cons & Hy)]; [left; lia|left; lia|right; by exists w].
Qed.

Lemma foldl_min_in l x : foldl Z.min x l = x \/ foldl Z.min x l ∈ l.
Proof.
  revert x. induction l as [|z l IH]; intros x; simpl; [by left|]. destruct (IH (Z.min x z)) as [E|Hin]; [|by right; right].
  destruct (Z.min_spec x z) as [[_ Em]|[_ Em]]; rewrite E, Em; [by left|right; left].
Qed.

Lemma least_Some l x : least l = Some x -> x ∈ l /\ forall y, y ∈ l -> x <= y.
Proof.
  destruct l as [|z l]; [done|]. simpl. intros [= <-]. split.
  - destruct (foldl_min_in l z) as [->|Hin]; [left|by right].
  - intros y [->|Hy]%elem_of_cons; apply foldl_min_le; [by left|right; by exists y].
Qed.

Lemma least_None l : least l = None -> l = [].
Proof. by destruct l. Qed.

Section Zone.
Context {zone : Zone}.

(** The time on the local clock *)
Definition wall_clock (t : Z) : Z := t + offset t.

Definition wall_time (day minute : Z) : Z := day * DAY + minute * 60.

(** No two offsets of the clock are more than a day apart, nor is one more than a day. *)
Definition zone_ok : Prop := forall a b, offset a - offset b <= DAY /\ - DAY <= offset a <= DAY.

(** A day whose times do not overflow *)
Definition day_fits (day : Z) : Prop := - 2 ^ 40 <= day <= 2 ^ 40.

Lemma wrap64_id z : - 2 ^ 63 <= z < 2 ^ 63 -> wrap64 z = z.
Proof. intros Hz. unfold wrap64. rewrite Z.mod_small; lia. Qed.

(** [resolve] where nothing wraps *)
Lemma resolve_plain day minute :
  zone_ok -> day_fits day -> 0 <= minute < 1440 ->
  let wall := wall_time day minute in
  let before := offset (wall - DAY) in
  let after := offset (wall + DAY) in
  resolve day minute = default (wall - before) (least (retain (fun t => wall_clock t =? wall) [wall - before; wall - after])).
Proof.
  intros Hz Hd Hm wall before after. unfold resolve. unfold day_fits in Hd.
  assert (- 2 ^ 60 <= wall <= 2 ^ 60) as Hw by (unfold wall, wall_time, DAY; lia).
  rewrite (wrap64_id (day * DAY)), (wrap64_id (day * DAY + _)) by (unfold DAY; lia). fold (wall_time day minute). fold wall.
  rewrite (wrap64_id (wall - DAY)), (wrap64_id (wall + DAY)) by (unfold DAY; lia). fold before. fold after. cbn [map].
  destruct (Hz (wall - DAY) (wall + DAY)) as [_ Hb]. destruct (Hz (wall + DAY) (wall - DAY)) as [_ Ha]. fold before in Hb. fold after in Ha. unfold DAY in Hb, Ha.
  rewrite (wrap64_id (wall - before)), (wrap64_id (wall - after)) by lia. f_equal. f_equal.
  assert (forall t, t = wall - before \/ t = wall - after -> wrap64 (t + offset t) = wall_clock t) as Hwrap.
  { intros t Ht. unfold wall_clock. apply wrap64_id. destruct (Hz t t) as [_ Ho]. unfold DAY in Ho. clearbody wall before after. destruct Ht as [-> | ->]; lia. }
  unfold retain. cbn [List.filter]. by rewrite !Hwrap by auto.
Qed.

Lemma resolve_cases day minute :
  zone_ok -> day_fits day -> 0 <= minute < 1440 ->
  let wall := wall_time day minute in
  let before := offset (wall - DAY) in
  let after := offset (wall + DAY) in
  let t := resolve day minute in
  (wall_clock t = wall /\ (t = wall - before \/ t = wall - after) /\
     forall u, wall_clock u = wall -> (u = wall - before \/ u = wall - after) -> t <= u) \/
  (t = wall - before /\ wall_clock (wall - before) ≠ wall /\ wall_clock (wall - after) ≠ wall).
Proof.
  intros Hz Hd Hm wall before after t. unfold t. rewrite resolve_plain by done. fold wall. fold before. fold after.
  set (l := retain _ _). assert (forall u, u ∈ l <-> (u = wall - before \/ u = wall - after) /\ wall_clock u = wall) as Hl.
  { intros u. unfold l. rewrite elem_of_retain, Z.eqb_eq. rewrite !elem_of_cons, elem_of_nil. naive_solver. }
  destruct (least l) as [u|] eqn:E; simpl.
  - apply least_Some in E as [Hu Hmin]. left. apply Hl in Hu as [Hu Hw]. split_and!; [done|done|]. intros v Hv Hor. apply Hmin, Hl. done.
  - right. apply least_None in E. split; [done|]. split; intros Hw.
    + assert (wall - before ∈ l) as Hin by (apply Hl; auto). rewrite E in Hin. by apply elem_of_nil in Hin.
    + assert (wall - after ∈ l) as Hin by (apply Hl; auto). rewrite E in Hin. by apply elem_of_nil in Hin.
Qed.

(** Whatever the zone, the time is the wall's less an offset that the clock has a day before or after. *)
Lemma resolve_offset day minute :
  zone_ok -> day_fits day -> 0 <= minute < 1440 -> exists u, resolve day minute = wall_time day minute - offset u.
Proof.
  intros Hz Hd Hm. destruct (resolve_cases day minute Hz Hd Hm) as [(_ & [E|E] & _)|(E & _ & _)]; rewrite E; by eexists.
Qed.

(** ** The next time of a day of the week *)

Lemma weekday_lt day : (weekday day < 7)%nat.
Proof. unfold weekday. pose proof (Z.mod_pos_bound (day + 3) 7). lia. Qed.

(** Each day of the week is among any seven days in a row. *)
Lemma weekday_covers first i : (i < 7)%nat -> exists day, first <= day < first + 7 /\ weekday day = i.
Proof.
  intros Hi. exists (first + (Z.of_nat i - (first + 3)) mod 7). pose proof (Z.mod_pos_bound (Z.of_nat i - (first + 3)) 7) as Hb.
  split; [lia|]. unfold weekday.
  replace ((first + (Z.of_nat i - (first + 3)) mod 7 + 3) mod 7) with (Z.of_nat i); [by rewrite Nat2Z.id|].
  rewrite <- (Z.mod_small (Z.of_nat i) 7) at 1 by lia.
  replace (first + (Z.of_nat i - (first + 3)) mod 7 + 3) with (first + 3 + (Z.of_nat i - (first + 3)) mod 7) by lia.
  rewrite Z.add_mod_idemp_r by lia. f_equal. lia.
Qed.

Lemma elem_of_day_range first n day : day ∈ day_range first n <-> first <= day < first + Z.of_nat n.
Proof.
  unfold day_range. rewrite list_elem_of_In, in_map_iff. setoid_rewrite in_seq. split.
  - intros (i & <- & Hi). lia.
  - intros Hd. exists (Z.to_nat (day - first)). lia.
Qed.

Lemma day_range_S first n : day_range first (S n) = first :: day_range (first + 1) n.
Proof.
  unfold day_range. cbn [seq map]. f_equal; [lia|]. rewrite <- seq_shift, map_map. apply map_ext. intros i. lia.
Qed.

(** The search of [rule_next] over days: the first day that is one of the rule's and is late enough *)
Lemma find_day (p h : Z -> bool) first n :
  (exists day, first <= day < first + Z.of_nat n /\ p day = true /\ h day = true) ->
  exists day, List.find h (retain p (day_range first n)) = Some day /\ first <= day < first + Z.of_nat n /\ p day = true /\ h day = true /\
    forall d, first <= d < day -> p d = true -> h d = false.
Proof.
  revert first. induction n as [|n IH]; intros first (day & Hd & Hp & Hh); [lia|]. rewrite day_range_S. unfold retain. simpl. fold (retain p (day_range (first + 1) n)).
  destruct (p first && h first) eqn:E.
  - apply andb_true_iff in E as [E1 E2]. rewrite E1. simpl. rewrite E2. exists first. split_and!; try done; try lia.
  - destruct (IH (first + 1)) as (day' & Hf & Hd' & Hp' & Hh' & Hall).
    { exists day. split_and!; try done; [|lia]. destruct (decide (day = first)) as [->|]; [by rewrite Hp, Hh in E|lia]. }
    exists day'. split_and!; try done; [|lia|lia|].
    + destruct (p first) eqn:E1; simpl; [|done]. simpl in E. by rewrite E.
    + intros d Hd2 Hpd. destruct (decide (d = first)) as [->|]; [by rewrite Hpd in E|]. apply Hall; [lia|done].
Qed.

Lemma find_map_list {A B} (g : A -> B) (f : B -> bool) l : List.find f (map g l) = g <$> List.find (fun x => f (g x)) l.
Proof. induction l as [|x l IH]; simpl; [done|]. by destruct (f (g x)). Qed.

(** A day at least two after today is due after now. *)
Lemma resolve_late at_ day minute :
  zone_ok -> day_fits day -> 0 <= minute < 1440 -> wall_clock at_ / DAY + 2 <= day -> at_ < resolve day minute.
Proof.
  intros Hz Hf Hm Hd. destruct (resolve_offset day minute Hz Hf Hm) as [u ->]. destruct (Hz u at_) as [Ho _].
  pose proof (Z.mul_succ_div_gt (wall_clock at_) DAY ltac:(done)) as Hw. unfold wall_clock, wall_time, DAY in *. lia.
Qed.

Lemma resolve_bound at_ day minute :
  zone_ok -> day_fits day -> 0 <= minute < 1440 -> day <= wall_clock at_ / DAY + 8 -> resolve day minute <= at_ + 12 * DAY.
Proof.
  intros Hz Hf Hm Hd. destruct (resolve_offset day minute Hz Hf Hm) as [u ->]. destruct (Hz at_ u) as [_ Ha]. destruct (Hz u u) as [_ Hu].
  pose proof (Z.mul_div_le (wall_clock at_) DAY ltac:(done)) as Hw. unfold wall_clock, wall_time, DAY in *. lia.
Qed.

Definition rule_day (days : list bool) (day : Z) : bool := default false (days !! weekday day).

(** The days that are looked at from a time of the clock *)
Lemma today_fits now day :
  zone_ok -> clock_time now -> let today := wall_clock (f_floor_Z now) / DAY in
  wrap64 (wall_clock (f_floor_Z now)) = wall_clock (f_floor_Z now) /\ (today - 1 <= day <= today + 9 -> day_fits day).
Proof.
  intros Hz (_ & _ & Hn) today. destruct (Hz (f_floor_Z now) 0) as [_ Ho]. unfold wall_clock in *. unfold DAY in Ho. split; [apply wrap64_id; lia|].
  unfold today, DAY, day_fits. intros Hd.
  assert ((f_floor_Z now + offset (f_floor_Z now)) / 86400 <= 2 ^ 53 / 86400) as H1 by (apply Z.div_le_mono; lia).
  assert (- 2 ^ 53 / 86400 <= (f_floor_Z now + offset (f_floor_Z now)) / 86400) as H2 by (apply Z.div_le_mono; lia).
  change (2 ^ 53 / 86400) with 104249991374 in H1. change (- 2 ^ 53 / 86400) with (-104249991375) in H2. lia.
Qed.

Lemma next_at_spec days minute due now :
  zone_ok -> rule_ok (At days minute) -> clock_time now ->
  let today := wall_clock (f_floor_Z now) / DAY in
  exists day, rule_next (At days minute) due now = f_of_Z (resolve day minute) /\
    today - 1 <= day <= today + 8 /\ rule_day days day = true /\ flt now (f_of_Z (resolve day minute)) = true /\
    forall d, today - 1 <= d < day -> rule_day days d = true -> flt now (f_of_Z (resolve d minute)) = false.
Proof.
  intros Hz (Hlen & Hin & Hm) Hnow today. unfold rule_next. fold (wall_clock (f_floor_Z now)).
  rewrite (proj1 (today_fits now 0 Hz Hnow)). fold today.
  change (fun day => default false (days !! weekday day)) with (rule_day days).
  rewrite find_map_list. apply list_elem_of_lookup in Hin as [i Hi]. pose proof (lookup_lt_Some _ _ _ Hi) as Hlt. rewrite Hlen in Hlt.
  destruct (weekday_covers (today + 2) i Hlt) as (day & Hd & Hw).
  destruct (find_day (rule_day days) (fun d => flt now (f_of_Z (resolve d minute))) (today - 1) 10) as (first & Hf & Hr & Hp & Hh & Hall).
  { assert (day_fits day) as Hfit by (apply (today_fits now day Hz Hnow); fold today; lia).
    exists day. split_and!; [lia|lia|unfold rule_day; by rewrite Hw, Hi|]. apply flt_after; [done|].
    pose proof (resolve_late (f_floor_Z now) day minute Hz Hfit Hm ltac:(unfold today in Hd; lia)).
    pose proof (resolve_bound (f_floor_Z now) day minute Hz Hfit Hm ltac:(unfold today in Hd; lia)).
    destruct Hnow as (_ & _ & Hn). unfold DAY in *. lia. }
  exists first. rewrite Hf. simpl. split_and!; try done; lia.
Qed.
End Zone.
