(* ===== verification/Schedules.v ===== *)
(** * The schedules of the daemon: [Schedules] of [crates/kanna-daemon/src/schedule.rs]

    Schedules are rows of the database: on [fire], those that are due leave their prompt as a
    message and their next time is set.  The rows are read once and kept until something
    changes ([known]).  Messages are the [Mailbox]'s, which the daemon's tasks implement; the
    clock and the repository of a folder are [Outside].  Statements on the database do not
    fail here, but for the unique index on names. *)

From S2P Require Import Prelude Text F64 Json Schedule.
From Stdlib Require Import Ascii SpecFloat.

Definition QUIZ : string := "quiz".
Definition QUIZ_RULE : string := "daily 09:00".
Definition QUIZ_PROMPT : string :=
  "Morning quiz check (the kanna-quiz skill's Offering): if anything landed on main since the last quiz round (kanna quiz history), offer me a round; if nothing has, say nothing.".
Definition PLANNER : string := "planner".
Definition SCHEDULE : string := "schedule ".
Definition FIRINGS_SHOWN : nat := 3.
Definition FIRINGS_KEPT : nat := 20.

(** ** Rows *)

Record Schedule := mkSchedule {
  sc_id : Z;
  sc_repo : option string;
  sc_name : option string;
  sc_target : string;
  sc_rule : string;
  sc_prompt : string;
  sc_next : f64;
  sc_message : option Z;
  sc_made_at : f64;
  sc_paused : option f64;
  sc_doc : Value }.

Definition set_sc_id (s : Schedule) (x : Z) : Schedule :=
  mkSchedule x (sc_repo s) (sc_name s) (sc_target s) (sc_rule s) (sc_prompt s) (sc_next s) (sc_message s) (sc_made_at s) (sc_paused s) (sc_doc s).
Definition set_sc_fired (s : Schedule) (next : f64) (message : option Z) : Schedule :=
  mkSchedule (sc_id s) (sc_repo s) (sc_name s) (sc_target s) (sc_rule s) (sc_prompt s) next message (sc_made_at s) (sc_paused s) (sc_doc s).
Definition set_sc_paused (s : Schedule) (x : option f64) : Schedule :=
  mkSchedule (sc_id s) (sc_repo s) (sc_name s) (sc_target s) (sc_rule s) (sc_prompt s) (sc_next s) (sc_message s) (sc_made_at s) x (sc_doc s).

Inductive How := HRule | HRun.
Definition how_as_str (h : How) : string := match h with HRule => "rule" | HRun => "run" end.

Inductive Left :=
| LMessage (id : Z)
| LSkipped
| LFailed (why : string).

(** A row of [schedule_firings]; when its message was delivered is the mailbox's. *)
Record Firing := mkFiring {
  fi_id : Z;
  fi_schedule : Z;
  fi_at : f64;
  fi_how : string;
  fi_state : string;
  fi_message : option Z;
  fi_detail : option string;
  fi_reply : option string;
  fi_replied_at : option f64 }.

Definition set_fi_reply (f : Firing) (text : string) (at_ : f64) : Firing :=
  mkFiring (fi_id f) (fi_schedule f) (fi_at f) (fi_how f) (fi_state f) (fi_message f) (fi_detail f) (Some text) (Some at_).

(** ** The trait [Mailbox] *)

Class Mailbox (M : Type) := {
  mb_recipient : M -> string -> KmuxError + string;
  mb_post : M -> string -> option string -> string -> string -> (KmuxError + Z) * M;
  mb_waiting : M -> Z -> bool;
  mb_delivered : M -> Z -> option f64;
  mb_label : M -> string -> string;
  mb_caller : M -> Value -> string * option string;
  mb_title : M -> string -> string }.

Record Outside := mkOutside { ou_now : f64; ou_repo_of : string -> option string }.

Record Schedules (M : Type) := mkSchedules {
  ss_rows : list Schedule;
  ss_firings : list Firing;
  ss_meta : gset string;
  ss_known : option (list Schedule);
  ss_skew : f64;
  ss_mail : M;
  ss_changes : N }.
Arguments mkSchedules {M}.
Arguments ss_rows {M}.
Arguments ss_firings {M}.
Arguments ss_meta {M}.
Arguments ss_known {M}.
Arguments ss_skew {M}.
Arguments ss_mail {M}.
Arguments ss_changes {M}.

(** The next id of a table without [autoincrement] *)
Definition next_rowid (ids : list Z) : Z := (foldr Z.max 0 ids + 1)%Z.

Section Engine.
Context {M : Type} `{Mailbox M} {zone : Zone} {lower : Lowercase}.
Implicit Types (s : Schedules M).

Definition set_ss_rows s (x : list Schedule) : Schedules M := mkSchedules x (ss_firings s) (ss_meta s) (ss_known s) (ss_skew s) (ss_mail s) (ss_changes s).
Definition set_ss_firings s (x : list Firing) : Schedules M := mkSchedules (ss_rows s) x (ss_meta s) (ss_known s) (ss_skew s) (ss_mail s) (ss_changes s).
Definition set_ss_meta s (x : gset string) : Schedules M := mkSchedules (ss_rows s) (ss_firings s) x (ss_known s) (ss_skew s) (ss_mail s) (ss_changes s).
Definition set_ss_known s (x : option (list Schedule)) : Schedules M :=
  mkSchedules (ss_rows s) (ss_firings s) (ss_meta s) x (ss_skew s) (ss_mail s) (ss_changes s).
Definition set_ss_skew s (x : f64) : Schedules M := mkSchedules (ss_rows s) (ss_firings s) (ss_meta s) (ss_known s) x (ss_mail s) (ss_changes s).
Definition set_ss_mail s (x : M) : Schedules M := mkSchedules (ss_rows s) (ss_firings s) (ss_meta s) (ss_known s) (ss_skew s) x (ss_changes s).
Definition set_ss_changes s (x : N) : Schedules M := mkSchedules (ss_rows s) (ss_firings s) (ss_meta s) (ss_known s) (ss_skew s) (ss_mail s) x.

(** ** The database *)

Definition same_name (repo name : option string) (row : Schedule) : bool :=
  bool_decide (default "" (sc_repo row) = default "" repo) &&
  match name, sc_name row with Some a, Some b => bool_decide (a = b) | _, _ => false end.

(** [insert_schedule]: the unique index refuses a name that is taken. *)
Definition insert_schedule (schedule : Schedule) : act (Schedules M) Z :=
  let! rows := act_gets ss_rows in
  if existsb (same_name (sc_repo schedule) (sc_name schedule)) rows
  then act_fail (mkError "failed" "couldn't save the schedule: UNIQUE constraint failed")
  else
    let id := next_rowid (map sc_id rows) in
    act_modify (fun s => set_ss_rows s (ss_rows s ++ [set_sc_id schedule id])) ;;; act_ret id.

Definition remove_schedule (id : Z) : act (Schedules M) unit :=
  act_modify (fun s => set_ss_firings (set_ss_rows s (retain (fun r => negb (bool_decide (sc_id r = id))) (ss_rows s)))
                         (retain (fun f => negb (bool_decide (fi_schedule f = id))) (ss_firings s))).

Definition change_row (id : Z) (f : Schedule -> Schedule) (rows : list Schedule) : list Schedule :=
  map (fun r => if decide (sc_id r = id) then f r else r) rows.

(** The newest [n] firings of a schedule, newest first *)
Definition newest (n : nat) (schedule : Z) (firings : list Firing) : list Firing :=
  take n (rev (retain (fun f => bool_decide (fi_schedule f = schedule)) firings)).

(** Keeps the newest firings of the schedule, and those of the others. *)
Definition prune (schedule : Z) (firings : list Firing) : list Firing :=
  retain (fun f => negb (bool_decide (fi_schedule f = schedule)) ||
                   existsb (fun k => bool_decide (fi_id k = fi_id f)) (newest FIRINGS_KEPT schedule firings)) firings.

Definition schedule_fired (id : Z) (at_ : f64) (how : How) (left_ : Left) (next : f64) : act (Schedules M) unit :=
  let '(state, message, detail) := match left_ with
                                   | LMessage m => ("left", Some m, None)
                                   | LSkipped => ("skipped", None, None)
                                   | LFailed why => ("failed", None, Some why)
                                   end in
  act_modify (fun s => set_ss_rows s
    (change_row id (fun r => set_sc_fired r next (match message with Some m => Some m | None => sc_message r end)) (ss_rows s))) ;;;
  act_modify (fun s => set_ss_firings s (ss_firings s ++
    [mkFiring (next_rowid (map fi_id (ss_firings s))) id at_ (how_as_str how) state message detail None None])) ;;;
  act_modify (fun s => set_ss_firings s (prune id (ss_firings s))).

Definition schedule_paused (id : Z) (paused : option f64) : act (Schedules M) unit :=
  act_modify (fun s => set_ss_rows s (change_row id (fun r => set_sc_paused r paused) (ss_rows s))).

Definition firing_reply (firing : Z) (text : string) (at_ : f64) : act (Schedules M) unit :=
  act_modify (fun s => set_ss_firings s (map (fun f => if decide (fi_id f = firing) then set_fi_reply f text at_ else f) (ss_firings s))).

Definition seed_once (key : string) (schedule : Schedule) : act (Schedules M) bool :=
  let! meta := act_gets ss_meta in
  if bool_decide (key ∈ meta) then act_ret false
  else
    act_modify (fun s => set_ss_meta s ({[key]} ∪ ss_meta s)) ;;;
    let! taken := act_gets (fun s => existsb (same_name (sc_repo schedule) (sc_name schedule)) (ss_rows s)) in
    if taken : bool then act_ret false else let! _ := insert_schedule schedule in act_ret true.

(** ** [Schedules] *)

Definition current (out : Outside) : act (Schedules M) f64 := act_gets (fun s => fadd (ou_now out) (ss_skew s)).
Definition advance (secs : f64) : act (Schedules M) unit := act_modify (fun s => set_ss_skew s (fadd (ss_skew s) secs)).

Definition all : act (Schedules M) (list Schedule) :=
  let! known := act_gets ss_known in
  match known with
  | Some rows => act_ret rows
  | None => let! rows := act_gets ss_rows in act_modify (fun s => set_ss_known s (Some rows)) ;;; act_ret rows
  end.

Definition forget : act (Schedules M) unit := act_modify (fun s => set_ss_known s None).
Definition changed : act (Schedules M) unit := forget ;;; act_modify (fun s => set_ss_changes s (N.succ (ss_changes s))).

Definition bad {A} (message : string) : act (Schedules M) A := act_fail (mkError "bad_request" message).

Definition id_of (text : string) : option Z :=
  digits ← strip_prefix "s" text;
  if negb (str_is_empty digits) && all_digits digits then Z.of_N <$> parse_uint (2 ^ 63 - 1) digits else None.

Definition label (schedule : Schedule) : string := default ("s" +:+ pretty (sc_id schedule)) (sc_name schedule).

Definition waiting (m : M) (schedule : Schedule) : bool := match sc_message schedule with Some id => mb_waiting m id | None => false end.

Definition delivered (m : M) (f : Firing) : option f64 := id ← fi_message f; mb_delivered m id.

(** ** What is shown *)

Definition firing_state (m : M) (f : Firing) : string :=
  if decide (fi_state f = "left") then
    match delivered m f, fi_message f with
    | Some _, _ => "delivered"
    | None, Some message => if mb_waiting m message then "waiting" else "undelivered"
    | None, None => "undelivered"
    end
  else fi_state f.

Definition firing_value (m : M) (f : Firing) : Value :=
  obj [("at", num (fi_at f)); ("atText", JString (local_text (fi_at f))); ("how", JString (fi_how f)); ("state", JString (firing_state m f));
       ("deliveredText", opt (local_text <$> delivered m f)); ("detail", opt (fi_detail f)); ("reply", opt (fi_reply f))].

Definition schedule_value (s : Schedules M) (r : Schedule) : Value :=
  let m := ss_mail s in
  obj [("schedule", JString ("s" +:+ pretty (sc_id r)));
       ("name", opt (sc_name r));
       ("repo", opt (sc_repo r));
       ("rule", JString (sc_rule r));
       ("target", JString (mb_label m (sc_target r)));
       ("targetName", JString (mb_title m (sc_target r)));
       ("task", JString (sc_target r));
       ("prompt", JString (sc_prompt r));
       ("next", num (sc_next r));
       ("nextText", JString (local_text (sc_next r)));
       ("message", opt (pretty <$> sc_message r));
       ("waiting", JBool (waiting m r));
       ("paused", JBool (bool_decide (is_Some (sc_paused r))));
       ("firings", JArray (map (firing_value m) (newest FIRINGS_SHOWN (sc_id r) (ss_firings s))))].

Definition as_map (v : Value) : Map := match v with JObject map => map | _ => [] end.

Definition named (schedule : Schedule) : Map := [("schedule", JString ("s" +:+ pretty (sc_id schedule))); ("name", opt (sc_name schedule))].

(** ** Requests *)

(** [leave] *)
Definition leave (schedule : Schedule) : act (Schedules M) Left :=
  let! m := act_gets ss_mail in
  if waiting m schedule then act_ret LSkipped
  else
    let '(posted, m') := mb_post m (sc_target schedule) (sc_repo schedule) (SCHEDULE +:+ label schedule) (sc_prompt schedule) in
    act_modify (fun s => set_ss_mail s m') ;;;
    act_ret match posted with inr id => LMessage id | inl error => LFailed (err_message error) end.

(** [.expect("the quiz's rule parses")] *)
Definition seed (out : Outside) (repo : string) : act (Schedules M) unit :=
  match rule_parse QUIZ_RULE with
  | Good rule =>
    let! now := current out in
    let schedule := mkSchedule 0 (Some repo) (Some QUIZ) PLANNER (rule_text rule) QUIZ_PROMPT (rule_next rule now now) None now None
                      (obj [("by", JString "kanna")]) in
    let! added := seed_once ("quiz_schedule:" +:+ repo) schedule in
    if added : bool then changed else act_ret tt
  | _ => act_lift Panic
  end.

Definition repo_arg (out : Outside) (args : Value) : act (Schedules M) (option string) :=
  match string_of args "repo" with
  | Some folder =>
    if str_is_empty folder then act_ret None
    else if negb (starts_with "/" folder) then bad "say which repo: an absolute path to its folder"
    else match ou_repo_of out folder with
         | None => bad (folder +:+ " isn't in a git repo")
         | Some repo => seed out repo ;;; act_ret (Some repo)
         end
  | None => act_ret None
  end.

Definition has_space (s : string) : bool := existsb is_whitespace (chars s).

Definition name_arg (args : Value) : act (Schedules M) (option string) :=
  match string_of args "name" with
  | None => act_ret None
  | Some name =>
    if str_is_empty name || has_space name then bad "a schedule's name is one word"
    else if bool_decide (is_Some (id_of name)) then bad (name +:+ " looks like a schedule's ID; pick another name")
    else act_ret (Some name)
  end.

(** A text that is not empty, or the refusal *)
Definition text_arg (text : option string) (refusal : string) : act (Schedules M) string :=
  match text with
  | Some t => if str_is_empty t then bad refusal else act_ret t
  | None => bad refusal
  end.

Definition target_arg (args : Value) : act (Schedules M) string :=
  match string_of args "target" with
  | Some t => if str_is_empty t || has_space t then bad "say who to prompt: a task, or planner" else act_ret t
  | None => bad "say who to prompt: a task, or planner"
  end.

Definition rule_arg (args : Value) : act (Schedules M) Rule :=
  match rule_parse (default "" (string_of args "rule")) with
  | Good rule => act_ret rule
  | Bad why => bad why
  | Crash => act_lift Panic
  end.

Definition add (out : Outside) (args : Value) : act (Schedules M) Map :=
  let! rule := rule_arg args in
  let! target := target_arg args in
  let! prompt := text_arg (Some (join " " (split_whitespace (default "" (string_of args "prompt"))))) "say what to prompt the agent with" in
  let! name := name_arg args in
  let! repo := repo_arg out args in
  let! m := act_gets ss_mail in
  let! recipient := act_lift match mb_recipient m target with inr r => Ok r | inl e => Err e end in
  if bool_decide (recipient = PLANNER) && bool_decide (repo = None)
  then bad "planner is a repo's planning agent: run this in the repo, or say which with --repo"
  else
    let! rows := match name with Some _ => all | None => act_ret [] end in
    if existsb (fun r => bool_decide (sc_repo r = repo) && bool_decide (sc_name r = name)) rows
    then bad ("there's a schedule named " +:+ default "" name +:+ " here already")
    else
      let! now := current out in
      let doc := match string_of args "by" with Some by_ => if str_is_empty by_ then obj [] else obj [("by", JString by_)] | None => obj [] end in
      let schedule := mkSchedule 0 repo name recipient (rule_text rule) prompt (rule_next rule now now) None now None doc in
      let! id := insert_schedule schedule in
      changed ;;;
      act_gets (fun s => as_map (schedule_value s (set_sc_id schedule id))).

Definition list_schedules (out : Outside) (args : Value) : act (Schedules M) Map :=
  let! repo := repo_arg out args in
  let! rows := all in
  let! values := act_gets (fun s => map (schedule_value s) rows) in
  act_ret [("repo", opt repo); ("schedules", JArray values)].

(** The rows that are meant: the one of the id, or those of the name, in the repo where it has any. *)
Definition rows_meant (which : string) (repo : option string) (rows : list Schedule) : list Schedule :=
  match id_of which with
  | Some id => retain (fun r => bool_decide (sc_id r = id)) rows
  | None =>
    let named := retain (fun r => bool_decide (sc_name r = Some which)) rows in
    let here := retain (fun r => bool_decide (sc_repo r = repo)) named in
    match here with [] => named | _ => here end
  end.

Definition find_schedule (out : Outside) (args : Value) : act (Schedules M) Schedule :=
  let! which := text_arg (string_of args "schedule") "say which schedule: its name or ID (s3)" in
  let! repo := repo_arg out args in
  let! rows := all in
  match rows_meant which repo rows with
  | [one] => act_ret one
  | [] => act_fail (mkError "not_found" ("no schedule " +:+ which))
  | many => bad (which +:+ " names " +:+ pretty (N.of_nat (length many)) +:+ " schedules ("
                 +:+ join ", " (map (fun r => "s" +:+ pretty (sc_id r)) many) +:+ "): say which by ID")
  end.

Definition remove (out : Outside) (args : Value) : act (Schedules M) Map :=
  let! schedule := find_schedule out args in remove_schedule (sc_id schedule) ;;; changed ;;; act_ret (named schedule).

Definition pause_schedule (out : Outside) (args : Value) : act (Schedules M) Map :=
  let! schedule := find_schedule out args in
  match sc_paused schedule with
  | None => let! now := current out in schedule_paused (sc_id schedule) (Some now) ;;; changed
  | Some _ => act_ret tt
  end ;;;
  act_ret (named schedule).

Definition resume_schedule (out : Outside) (args : Value) : act (Schedules M) Map :=
  let! schedule := find_schedule out args in
  match sc_paused schedule with
  | Some _ => schedule_paused (sc_id schedule) None ;;; changed
  | None => act_ret tt
  end ;;;
  let! now := current out in
  act_ret (named schedule ++ [("nextText", JString (local_text (sc_next schedule))); ("missed", JBool (fle (sc_next schedule) now))]).

Definition run_schedule (out : Outside) (args : Value) : act (Schedules M) Map :=
  let! schedule := find_schedule out args in
  let! now := current out in
  let! left_ := leave schedule in
  schedule_fired (sc_id schedule) now HRun left_ (sc_next schedule) ;;;
  changed ;;;
  match left_ with
  | LFailed why => act_fail (mkError "failed" why)
  | LMessage _ => act_ret (named schedule ++ [("left", JBool true)])
  | LSkipped => act_ret (named schedule ++ [("left", JBool false)])
  end.

Definition reply_schedule (out : Outside) (args : Value) : act (Schedules M) Map :=
  let! text := text_arg (str_trim <$> string_of args "text") "say what: kanna schedule reply NAME TEXT" in
  let! schedule := find_schedule out args in
  let! m := act_gets ss_mail in
  let '(caller, repo) := mb_caller m args in
  if negb (bool_decide (caller = sc_target schedule)) || bool_decide (caller = PLANNER) && negb (bool_decide (repo = sc_repo schedule))
  then bad ("only " +:+ mb_label m (sc_target schedule) +:+ ", the schedule's target, replies to it")
  else
    let! firings := act_gets (fun s => newest FIRINGS_KEPT (sc_id schedule) (ss_firings s)) in
    match List.find (fun f => bool_decide (is_Some (delivered m f))) firings with
    | None => bad (label schedule +:+ " has no delivered message to reply to")
    | Some f =>
      let! now := current out in
      firing_reply (fi_id f) text now ;;; changed ;;; act_ret (named schedule)
    end.

Definition handle (out : Outside) (args : Value) : act (Schedules M) Map :=
  match string_of args "action" with
  | Some action =>
    if decide (action = "add") then add out args
    else if decide (action = "list") then list_schedules out args
    else if decide (action = "remove") then remove out args
    else if decide (action = "pause") then pause_schedule out args
    else if decide (action = "resume") then resume_schedule out args
    else if decide (action = "run") then run_schedule out args
    else if decide (action = "reply") then reply_schedule out args
    else bad "schedule needs an action: add, list, remove, pause, resume, run or reply"
  | None => bad "schedule needs an action: add, list, remove, pause, resume, run or reply"
  end.

(** ** [fire] *)

Definition is_due (now : f64) (row : Schedule) : bool := fle (sc_next row) now && bool_decide (sc_paused row = None).

Fixpoint fire_each (now : f64) (due : list Schedule) (fired : N) : act (Schedules M) N :=
  match due with
  | [] => act_ret fired
  | schedule :: due =>
    match rule_parse (sc_rule schedule) with
    | Good rule =>
      let! left_ := leave schedule in
      schedule_fired (sc_id schedule) now HRule left_ (rule_next rule (sc_next schedule) now) ;;;
      fire_each now due (N.succ fired)
    | Bad _ => fire_each now due fired
    | Crash => act_lift Panic
    end
  end.

Definition fire (out : Outside) : act (Schedules M) N :=
  let! now := current out in
  let! rows := all in
  match retain (is_due now) rows with
  | [] => act_ret 0%N
  | due => forget ;;; let! fired := fire_each now due 0 in changed ;;; act_ret fired
  end.

(** [f64::min], where one that is no number is not taken *)
Definition f_min (x y : f64) : f64 := match x, y with S754_nan, _ => y | _, S754_nan => x | _, _ => if flt y x then y else x end.

Definition next_due : act (Schedules M) (option f64) :=
  let! rows := all in
  act_ret match map sc_next (retain (fun r => bool_decide (sc_paused r = None)) rows) with
          | [] => None
          | x :: l => Some (foldl f_min x l)
          end.

(** ** [Scheduler] *)

Definition LONGEST_WAIT : f64 := f_of_Z 60.

(** [f64::max] *)
Definition f_max (x y : f64) : f64 := match x, y with S754_nan, _ => y | _, S754_nan => x | _, _ => if flt x y then y else x end.

(** The seconds to wait: [Duration::from_secs_f64] panics from 2^64 on. *)
Definition wait_for (at_ now : f64) : res f64 :=
  let secs := f_max (fsub at_ now) (S754_zero false) in
  if flt secs (f_of_Z (2 ^ 64)) then Ok (f_min secs LONGEST_WAIT) else Panic.

Definition tick (out : Outside) : act (Schedules M) (option f64) :=
  fire out ;;;
  let! due := next_due in
  match due with
  | None => act_ret None
  | Some at_ => let! now := current out in let! secs := act_lift (wait_for at_ now) in act_ret (Some secs)
  end.

(** [Schedules::new], on the rows, firings and marks of a database *)
Definition schedules_new (rows : list Schedule) (firings : list Firing) (meta : gset string) (mail : M) : Schedules M :=
  mkSchedules rows firings meta None (S754_zero false) mail 0.

(** [Scheduler::new]: each repo that the database knows is seeded. *)
Fixpoint scheduler_new (out : Outside) (repos : list string) : act (Schedules M) unit :=
  match repos with
  | [] => act_ret tt
  | folder :: repos => match ou_repo_of out folder with Some repo => seed out repo | None => act_ret tt end ;;; scheduler_new out repos
  end.

(** What [watch_deliveries] has the tasks call, with the senders of the messages *)
Definition on_delivered (senders : list string) : act (Schedules M) unit :=
  if existsb (starts_with SCHEDULE) senders then changed else act_ret tt.

(** The command [debug.clock] *)
Definition debug_clock (out : Outside) (args : Value) : act (Schedules M) Map :=
  advance (default (S754_zero false) (get args "advance" ≫= as_f64)) ;;;
  let! now := current out in act_ret [("now", num now)].
End Engine.
