(* ===== verification/ScheduleKeeps.v ===== *)
(** * What the schedules keep: [Schedules] of [crates/kanna-daemon/src/schedule.rs] *)

From S2P Require Import Prelude Text F64 Json Pipe PipeParse PipeText Schedule ScheduleFacts Schedules.
From Stdlib Require Import Ascii.

#[local] Open Scope Z_scope.

(** ** The invariant *)

(** What the unique index is on *)
Definition name_key (r : Schedule) : option (string * string) := (fun n => (default "" (sc_repo r), n)) <$> sc_name r.

(** The rule that a row has: the text of one that parses *)
Definition has_rule (r : Schedule) : Prop := exists rule, rule_ok rule /\ sc_rule r = rule_text rule.

(** A name is one word, and never reads as an id. *)
Definition name_fine (n : string) : Prop := str_is_empty n = false /\ has_space n = false /\ id_of n = None.
Definition named_fine (r : Schedule) : Prop := forall n, sc_name r = Some n -> name_fine n.

Record rows_ok (rows : list Schedule) : Prop := {
  ro_ids : NoDup (map sc_id rows);
  ro_names : NoDup (omap name_key rows);
  ro_rules : Forall has_rule rows;
  ro_named : Forall named_fine rows;
  ro_pos : Forall (fun r => 0 < sc_id r) rows }.

Definition firings_of (schedule : Z) (firings : list Firing) : list Firing := retain (fun f => bool_decide (fi_schedule f = schedule)) firings.

Record firings_ok (rows : list Schedule) (firings : list Firing) : Prop := {
  fo_ids : NoDup (map fi_id firings);
  fo_rows : Forall (fun f => fi_schedule f ∈ map sc_id rows) firings;
  fo_few : forall schedule, (length (firings_of schedule firings) <= FIRINGS_KEPT)%nat }.

Section Keeps.
Context {M : Type} `{Mailbox M} {zone : Zone} {lower : Lowercase}.
Implicit Types (s : Schedules M).

Definition db_ok s : Prop := rows_ok (ss_rows s) /\ firings_ok (ss_rows s) (ss_firings s).
(** The rows that are kept are the database's. *)
Definition known_ok s : Prop := ss_known s = None \/ ss_known s = Some (ss_rows s).
Definition sched_ok s : Prop := db_ok s /\ known_ok s.

(** ** Rows *)

Lemma next_rowid_fresh (ids : list Z) : next_rowid ids ∉ ids.
Proof.
  assert (forall x, x ∈ ids -> x <= foldr Z.max 0 ids) as Hle.
  { induction ids as [|y ids IH]; intros x; [by intros ?%elem_of_nil|]. intros [->|Hx]%elem_of_cons; simpl; [lia|]. specialize (IH x Hx). lia. }
  intros Hin. apply Hle in Hin. unfold next_rowid in Hin. lia.
Qed.

Lemma next_rowid_pos (ids : list Z) : 0 < next_rowid ids.
Proof. unfold next_rowid. assert (0 <= foldr Z.max 0 ids); [|lia]. induction ids; simpl; lia. Qed.

Lemma same_name_key repo name rows r :
  existsb (same_name repo name) rows = false -> sc_repo r = repo -> sc_name r = name ->
  forall k, name_key r = Some k -> k ∉ omap name_key rows.
Proof.
  intros He Hr Hn k Hk (x & Hx & Hkx)%list_elem_of_omap.
  assert (same_name repo name x = true) as Hsame; [|assert (existsb (same_name repo name) rows = true); [|congruence]].
  - unfold name_key in *. destruct (sc_name r) as [n|] eqn:E1; [|done]. destruct (sc_name x) as [n'|] eqn:E2; [|done]. simplify_eq/=.
    unfold same_name. rewrite E2. apply andb_true_iff. split; by apply bool_decide_eq_true_2.
  - apply existsb_exists. exists x. split; [by apply list_elem_of_In|done].
Qed.

Lemma omap_app {A B} (f : A -> option B) (l k : list A) : omap f (l ++ k) = omap f l ++ omap f k.
Proof. induction l as [|x l IH]; [done|]. simpl. destruct (f x); [simpl; by f_equal|done]. Qed.

Lemma rows_ok_insert rows r :
  rows_ok rows -> has_rule r -> named_fine r -> existsb (same_name (sc_repo r) (sc_name r)) rows = false ->
  rows_ok (rows ++ [set_sc_id r (next_rowid (map sc_id rows))]).
Proof.
  intros [H1 H2 H3 H4 H5] Hr Hn He. split.
  - rewrite map_app. apply NoDup_app. split_and!; [done| |apply NoDup_singleton]. intros x Hx [= ->]%list_elem_of_singleton. by apply next_rowid_fresh in Hx.
  - rewrite omap_app. apply NoDup_app. split; [done|]. simpl. change (name_key (set_sc_id r _)) with (name_key r).
    destruct (name_key r) as [k|] eqn:Ek; simpl; [|split; [by intros ? ? ?%elem_of_nil|constructor]].
    split; [|apply NoDup_singleton]. intros x Hx ->%list_elem_of_singleton. by eapply (same_name_key _ _ rows r).
  - apply Forall_app. split; [done|]. by apply Forall_singleton.
  - apply Forall_app. split; [done|]. by apply Forall_singleton.
  - apply Forall_app. split; [done|]. apply Forall_singleton, next_rowid_pos.
Qed.

(** A change that keeps ids, names and rules *)
Definition mild (f : Schedule -> Schedule) : Prop := forall r, sc_id (f r) = sc_id r /\ name_key (f r) = name_key r /\ sc_rule (f r) = sc_rule r /\ sc_name (f r) = sc_name r.

Lemma change_row_ids id f rows : mild f -> map sc_id (change_row id f rows) = map sc_id rows.
Proof. intros Hf. unfold change_row. rewrite map_map. apply map_ext. intros r. case_decide; [|done]. by destruct (Hf r). Qed.

Lemma rows_ok_change id f rows : mild f -> rows_ok rows -> rows_ok (change_row id f rows).
Proof.
  intros Hf [H1 H2 H3 H4 H5]. split.
  - by rewrite change_row_ids.
  - assert (omap name_key (change_row id f rows) = omap name_key rows) as ->; [|done].
    unfold change_row. clear -Hf. induction rows as [|r rows IH]; [done|]. simpl.
    assert (name_key (if decide (sc_id r = id) then f r else r) = name_key r) as -> by (case_decide; [by destruct (Hf r) as (_ & ? & _)|done]).
    by destruct (name_key r); [f_equal|].
  - unfold change_row. apply Forall_map. eapply Forall_impl; [exact H3|]. intros r Hr. simpl. case_decide; [|done].
    unfold has_rule. by destruct (Hf r) as (_ & _ & -> & _).
  - unfold change_row. apply Forall_map. eapply Forall_impl; [exact H4|]. intros r Hr. simpl. case_decide; [|done].
    unfold named_fine. by destruct (Hf r) as (_ & _ & _ & ->).
  - unfold change_row. apply Forall_map. eapply Forall_impl; [exact H5|]. intros r Hr. simpl. case_decide; [|done]. by destruct (Hf r) as (-> & _).
Qed.

Lemma NoDup_map_retain {A B} (f : A -> B) (p : A -> bool) l : NoDup (map f l) -> NoDup (map f (retain p l)).
Proof.
  unfold retain. induction l as [|x l IH]; simpl; [done|]. intros [Hn Hd]%NoDup_cons. destruct (p x); simpl; [|by apply IH].
  apply NoDup_cons. split; [|by apply IH]. intros Hin. apply Hn. apply list_elem_of_In, in_map_iff in Hin as (y & <- & Hy).
  apply filter_In in Hy as [Hy _]. apply list_elem_of_In, in_map, Hy.
Qed.

Lemma NoDup_omap_retain {A B} (f : A -> option B) (p : A -> bool) (l : list A) : NoDup (omap f l) -> NoDup (omap f (retain p l)).
Proof.
  unfold retain. induction l as [|x l IH]; simpl; [done|]. destruct (f x) as [y|] eqn:E.
  - intros [Hn Hd]%NoDup_cons. destruct (p x); simpl; [|by apply IH]. rewrite E. apply NoDup_cons. split; [|by apply IH].
    intros (z & Hz & Hy)%list_elem_of_omap. apply Hn. apply list_elem_of_omap. exists z. split; [|done].
    apply list_elem_of_In in Hz. apply filter_In in Hz as [Hz _]. by apply list_elem_of_In.
  - intros Hd. destruct (p x); simpl; [rewrite E|]; by apply IH.
Qed.

Lemma rows_ok_retain p rows : rows_ok rows -> rows_ok (retain p rows).
Proof.
  intros [H1 H2 H3 H4 H5]. split; [by apply NoDup_map_retain|by apply NoDup_omap_retain|by apply Forall_retain..].
Qed.

(** ** Firings *)

Lemma prune_few schedule l : NoDup (map fi_id l) -> (length (firings_of schedule (prune schedule l)) <= FIRINGS_KEPT)%nat.
Proof.
  intros Hnd. unfold prune. set (kept := newest FIRINGS_KEPT schedule l).
  assert (length kept <= FIRINGS_KEPT)%nat as Hk by (unfold kept, newest; rewrite length_take; lia).
  etransitivity; [|exact Hk]. rewrite <- !(length_map fi_id). apply NoDup_incl_length.
  - apply NoDup_ListNoDup. by do 2 apply NoDup_map_retain.
  - intros x (f & <- & Hf)%in_map_iff. apply list_elem_of_In in Hf. apply elem_of_retain in Hf as [Hs Hf].
    apply elem_of_retain in Hf as [Hp _]. rewrite Hs in Hp. simpl in Hp. apply existsb_exists in Hp as (k & Hk' & Ek).
    apply bool_decide_eq_true in Ek. rewrite <- Ek. by apply in_map.
Qed.

Lemma prune_others schedule other l : other ≠ schedule -> firings_of other (prune schedule l) = firings_of other l.
Proof.
  intros Hne. unfold prune, firings_of. rewrite retain_comm. rewrite retain_all; [done|].
  apply Forall_forall. intros f [Hf _]%elem_of_retain. apply bool_decide_eq_true in Hf. rewrite bool_decide_eq_false_2 by congruence. done.
Qed.

Lemma firings_ok_prune rows schedule l :
  NoDup (map fi_id l) -> Forall (fun f => fi_schedule f ∈ map sc_id rows) l ->
  (forall other, other ≠ schedule -> (length (firings_of other l) <= FIRINGS_KEPT)%nat) -> firings_ok rows (prune schedule l).
Proof.
  intros H1 H2 H3. split.
  - by apply NoDup_map_retain.
  - by apply Forall_retain.
  - intros other. destruct (decide (other = schedule)) as [->|Hne]; [by apply prune_few|]. rewrite prune_others by done. by apply H3.
Qed.

Lemma firings_of_app schedule l k : firings_of schedule (l ++ k) = firings_of schedule l ++ firings_of schedule k.
Proof. apply List.filter_app. Qed.

Lemma firings_ok_add rows l f :
  firings_ok rows l -> fi_id f = next_rowid (map fi_id l) -> fi_schedule f ∈ map sc_id rows -> firings_ok rows (prune (fi_schedule f) (l ++ [f])).
Proof.
  intros [H1 H2 H3] Hid Hin. apply firings_ok_prune.
  - rewrite map_app. apply NoDup_app. split_and!; [done| |apply NoDup_singleton]. intros x Hx ->%list_elem_of_singleton. rewrite Hid in Hx.
    by apply next_rowid_fresh in Hx.
  - apply Forall_app. split; [done|]. by repeat constructor.
  - intros other Hne. rewrite firings_of_app, length_app. simpl. rewrite bool_decide_eq_false_2 by congruence. simpl. specialize (H3 other). lia.
Qed.

Lemma firings_ok_remove rows id l :
  firings_ok rows l ->
  firings_ok (retain (fun r => negb (bool_decide (sc_id r = id))) rows) (retain (fun f => negb (bool_decide (fi_schedule f = id))) l).
Proof.
  intros [H1 H2 H3]. split.
  - by apply NoDup_map_retain.
  - apply Forall_forall. intros f [Hf Hin]%elem_of_retain. rewrite Forall_forall in H2. specialize (H2 f Hin).
    apply list_elem_of_In, in_map_iff in H2 as (r & E & Hr). apply list_elem_of_In, in_map_iff. exists r. split; [done|].
    apply list_elem_of_In, elem_of_retain. rewrite E. split; [done|]. by apply list_elem_of_In.
  - intros schedule. unfold firings_of. rewrite retain_comm. etransitivity; [apply length_retain_le|apply H3].
Qed.

Lemma firings_ok_rows rows rows' l : map sc_id rows' = map sc_id rows -> firings_ok rows l -> firings_ok rows' l.
Proof. intros E [H1 H2 H3]. split; [done| |done]. by rewrite E. Qed.

Lemma firings_ok_grow rows r l : firings_ok rows l -> firings_ok (rows ++ [r]) l.
Proof.
  intros [H1 H2 H3]. split; [done| |done]. eapply Forall_impl; [exact H2|]. intros f Hf. simpl. rewrite map_app. apply elem_of_app. by left.
Qed.

Lemma length_filter_map {A B} (g : A -> B) (p : B -> bool) l : length (List.filter p (map g l)) = length (List.filter (fun x => p (g x)) l).
Proof. induction l as [|x l IH]; simpl; [done|]. destruct (p (g x)); simpl; by rewrite IH. Qed.

Lemma firings_ok_reply rows firing text at_ l :
  firings_ok rows l -> firings_ok rows (map (fun f => if decide (fi_id f = firing) then set_fi_reply f text at_ else f) l).
Proof.
  intros [H1 H2 H3]. set (g := fun f => _). assert (forall f, fi_id (g f) = fi_id f /\ fi_schedule (g f) = fi_schedule f) as Hg by (intros f; unfold g; by case_decide).
  split.
  - rewrite map_map. erewrite map_ext; [exact H1|]. intros f. apply Hg.
  - apply Forall_map. eapply Forall_impl; [exact H2|]. intros f Hf. simpl. by destruct (Hg f) as [_ ->].
  - intros schedule. specialize (H3 schedule). unfold firings_of, retain in *. rewrite length_filter_map. erewrite List.filter_ext; [exact H3|].
    intros f. simpl. by destruct (Hg f) as [_ ->].
Qed.

(** ** Handlers *)

Section Runs.
Context (P : Prop).

Abbreviation holds m Q s := (runs P sched_ok m Q s).
Abbreviation keeps m := (forall s, sched_ok s -> runs P sched_ok m (fun _ => sched_ok) s).

(** What changes nothing but the rows that are kept *)
Definition same_db s s' : Prop :=
  ss_rows s' = ss_rows s /\ ss_firings s' = ss_firings s /\ ss_mail s' = ss_mail s /\ ss_skew s' = ss_skew s.

Lemma all_ok (Q : list Schedule -> Schedules M -> Prop) s :
  sched_ok s -> (forall s', sched_ok s' -> same_db s s' -> Q (ss_rows s) s') -> holds all Q s.
Proof.
  intros [Hdb Hk] HQ. unfold all. apply runs_bind, runs_gets. destruct (ss_known s) as [rows|] eqn:E.
  - apply runs_ret. destruct Hk as [Hk|Hk]; [congruence|]. assert (rows = ss_rows s) as -> by congruence. apply HQ; [|done]. split; [done|]. by right.
  - apply runs_bind, runs_gets. apply runs_bind, runs_modify, runs_ret. apply HQ; [|done]. split; [done|]. by right.
Qed.

Lemma changed_ok (Q : unit -> Schedules M -> Prop) s :
  db_ok s -> (forall s', sched_ok s' -> same_db s s' -> Q tt s') -> holds changed Q s.
Proof. intros Hdb HQ. unfold changed, forget. apply runs_bind, runs_modify, runs_modify. apply HQ; [|done]. split; [done|]. by left. Qed.

Lemma current_ok out (Q : f64 -> Schedules M -> Prop) s : Q (fadd (ou_now out) (ss_skew s)) s -> holds (current out) Q s.
Proof. done. Qed.

Lemma bad_ok {A} message (Q : A -> Schedules M -> Prop) s : sched_ok s -> holds (bad message) Q s.
Proof. done. Qed.

Lemma insert_ok r (Q : Z -> Schedules M -> Prop) s :
  sched_ok s -> has_rule r -> named_fine r ->
  (forall s', db_ok s' -> Q (next_rowid (map sc_id (ss_rows s))) s') -> holds (insert_schedule r) Q s.
Proof.
  intros [[Hr Hf] Hk] Hrule Hname HQ. unfold insert_schedule. apply runs_bind, runs_gets. destruct (existsb _ _) eqn:E; [by apply runs_fail|].
  apply runs_bind, runs_modify, runs_ret. apply HQ. split; simpl; [by apply rows_ok_insert|by apply firings_ok_grow].
Qed.

Lemma leave_ok r (Q : Left -> Schedules M -> Prop) s :
  (forall left_ m', Q left_ (set_ss_mail s m')) -> holds (leave r) Q s.
Proof.
  intros HQ. unfold leave. apply runs_bind, runs_gets. destruct (waiting _ _).
  - apply runs_ret. specialize (HQ LSkipped (ss_mail s)). by destruct s.
  - destruct (mb_post _ _ _ _ _) as [posted m']. apply runs_bind, runs_modify, runs_ret. apply HQ.
Qed.

Lemma fired_mild next message : mild (fun r => set_sc_fired r next (match message with Some m => Some m | None => sc_message r end)).
Proof. by intros r. Qed.

Lemma fired_ok id at_ how left_ next (Q : unit -> Schedules M -> Prop) s :
  db_ok s -> id ∈ map sc_id (ss_rows s) -> (forall s', db_ok s' -> ss_known s' = ss_known s -> Q tt s') ->
  holds (schedule_fired id at_ how left_ next) Q s.
Proof.
  intros [Hr Hf] Hin HQ. unfold schedule_fired.
  destruct (match left_ with LMessage m => _ | LSkipped => _ | LFailed why => _ end) as [[state message] detail].
  apply runs_bind, runs_modify, runs_bind, runs_modify, runs_modify. apply HQ; [|done]. split; simpl.
  - apply rows_ok_change; [apply fired_mild|done].
  - match goal with |- firings_ok _ (prune id (_ ++ [?f])) => apply (firings_ok_add _ _ f) end; [|done|].
    + eapply firings_ok_rows; [|exact Hf]. apply change_row_ids, fired_mild.
    + by rewrite change_row_ids by apply fired_mild.
Qed.

Lemma seed_ok out repo : keeps (seed out repo).
Proof.
  intros s Hok. unfold seed. destruct (rule_parse QUIZ_RULE) as [rule| |] eqn:Er; [|done..]. apply rule_parse_ok in Er.
  apply runs_bind, current_ok. apply runs_bind. unfold seed_once. apply runs_bind, runs_gets. case_bool_decide; [by do 2 apply runs_ret|].
  apply runs_bind, runs_modify. apply runs_bind, runs_gets. simpl. set (s1 := set_ss_meta _ _).
  assert (sched_ok s1) as Hok1 by exact Hok. destruct (existsb _ _) eqn:E; [by do 2 apply runs_ret|].
  apply runs_bind. apply insert_ok; [done|by exists rule|by intros n [= <-]|]. intros s' Hs'. apply runs_ret. by apply changed_ok.
Qed.

Lemma repo_arg_ok out args (Q : option string -> Schedules M -> Prop) s :
  sched_ok s -> (forall repo s', sched_ok s' -> Q repo s') -> holds (repo_arg out args) Q s.
Proof.
  intros Hok HQ. unfold repo_arg. destruct (string_of args "repo") as [folder|]; [|by apply runs_ret, HQ].
  destruct (str_is_empty folder); [by apply runs_ret, HQ|]. destruct (negb _); [by apply bad_ok|].
  destruct (ou_repo_of out folder) as [repo|]; [|by apply bad_ok]. apply runs_bind. eapply runs_weaken; [by apply seed_ok|].
  intros u s' Hs'. by apply runs_ret, HQ.
Qed.

Lemma text_arg_ok text refusal (Q : string -> Schedules M -> Prop) s :
  sched_ok s -> (forall t, Q t s) -> holds (text_arg text refusal) Q s.
Proof. intros Hok HQ. unfold text_arg. destruct text as [t|]; [|by apply bad_ok]. destruct (str_is_empty t); [by apply bad_ok|apply runs_ret, HQ]. Qed.

Lemma rows_meant_sub which repo rows r : r ∈ rows_meant which repo rows -> r ∈ rows.
Proof.
  unfold rows_meant. destruct (id_of which); [by intros [_ ?]%elem_of_retain|].
  destruct (retain (fun r => bool_decide (sc_repo r = repo)) _) as [|x l] eqn:E; [by intros [_ ?]%elem_of_retain|].
  rewrite <- E. by intros [_ [_ ?]%elem_of_retain]%elem_of_retain.
Qed.

(** The row that is found is one of the database. *)
Lemma find_ok out args (Q : Schedule -> Schedules M -> Prop) s :
  sched_ok s -> (forall r s', sched_ok s' -> r ∈ ss_rows s' -> Q r s') -> holds (find_schedule out args) Q s.
Proof.
  intros Hok HQ. unfold find_schedule. apply runs_bind, text_arg_ok; [done|]. intros which. apply runs_bind, repo_arg_ok; [done|].
  intros repo s1 Hs1. apply runs_bind, all_ok; [done|]. intros s2 Hs2 (Er & _). rewrite <- Er.
  pose proof (rows_meant_sub which repo (ss_rows s2)) as Hsub. destruct (rows_meant _ _ _) as [|one [|two rest]]; [by apply runs_fail| |by apply bad_ok].
  apply runs_ret, HQ; [done|]. apply Hsub. left.
Qed.

Lemma name_arg_ok args (Q : option string -> Schedules M -> Prop) s : sched_ok s -> (forall name, (forall n, name = Some n -> name_fine n) -> Q name s) -> holds (name_arg args) Q s.
Proof.
  intros Hok HQ. unfold name_arg. destruct (string_of args "name") as [n|]; [|by apply runs_ret, HQ].
  destruct (str_is_empty n || has_space n) eqn:E; [by apply bad_ok|]. case_bool_decide as Hid; [by apply bad_ok|].
  apply runs_ret, HQ. intros n' [= <-]. apply orb_false_iff in E as [E1 E2]. split_and!; [done|done|]. by apply eq_None_not_Some.
Qed.

Lemma target_arg_ok args (Q : string -> Schedules M -> Prop) s : sched_ok s -> (forall t, Q t s) -> holds (target_arg args) Q s.
Proof. intros Hok HQ. unfold target_arg. repeat case_match; (by apply bad_ok) || apply runs_ret, HQ. Qed.

(** What makes [add] panic: the text of a rule that [interval] splits inside a character. *)
Definition rule_breaks (args : Value) : Prop := rule_parse (default "" (string_of args "rule")) = Crash.

Lemma rule_arg_ok args (Q : Rule -> Schedules M -> Prop) s :
  (rule_breaks args -> P) -> sched_ok s -> (forall rule, rule_ok rule -> Q rule s) -> holds (rule_arg args) Q s.
Proof.
  intros HP Hok HQ. unfold rule_arg, rule_breaks in *. destruct (rule_parse _) as [rule| |] eqn:E; [|by apply bad_ok|by apply runs_lift; auto].
  apply runs_ret, HQ. by eapply rule_parse_ok.
Qed.

Lemma add_ok out args : (rule_breaks args -> P) -> keeps (add out args).
Proof.
  intros HP s Hok. unfold add. apply runs_bind, rule_arg_ok; [done|done|]. intros rule Hrule. apply runs_bind, target_arg_ok; [done|]. intros target.
  apply runs_bind, text_arg_ok; [done|]. intros prompt. apply runs_bind, name_arg_ok; [done|]. intros name Hname.
  apply runs_bind, repo_arg_ok; [done|]. intros repo s1 Hs1. apply runs_bind, runs_gets. apply runs_bind.
  apply runs_lift; [|by intros|by destruct (mb_recipient _ _)]. intros recipient _. destruct (_ && _); [by apply bad_ok|].
  assert (holds (match name with Some _ => all | None => act_ret [] end) (fun _ => sched_ok) s1) as Hrows.
  { destruct name; [by apply all_ok|by apply runs_ret]. }
  apply runs_bind. eapply runs_weaken; [exact Hrows|]. intros rows s2 Hs2. destruct (existsb _ rows); [by apply bad_ok|].
  apply runs_bind, current_ok. apply runs_bind, insert_ok; [done|by exists rule|done|]. intros s3 Hs3.
  apply runs_bind, changed_ok; [done|]. intros s4 Hs4 _. by apply runs_gets.
Qed.

Lemma db_remove id s : db_ok s -> db_ok (set_ss_firings (set_ss_rows s (retain (fun r => negb (bool_decide (sc_id r = id))) (ss_rows s)))
                         (retain (fun f => negb (bool_decide (fi_schedule f = id))) (ss_firings s))).
Proof. intros [Hr Hf]. split; simpl; [by apply rows_ok_retain|by apply firings_ok_remove]. Qed.

Lemma remove_ok out args : keeps (remove out args).
Proof.
  intros s Hok. unfold remove. apply runs_bind, find_ok; [done|]. intros r s1 [Hdb _] _. apply runs_bind, runs_modify.
  apply runs_bind, changed_ok; [by apply db_remove|]. intros s2 Hs2 _. by apply runs_ret.
Qed.

Lemma db_pause id paused s : db_ok s -> db_ok (set_ss_rows s (change_row id (fun r => set_sc_paused r paused) (ss_rows s))).
Proof.
  intros [Hr Hf]. split; simpl; [by apply rows_ok_change|]. eapply firings_ok_rows; [|exact Hf]. by apply change_row_ids.
Qed.

Lemma pause_schedule_ok out args : keeps (pause_schedule out args).
Proof.
  intros s Hok. unfold pause_schedule. apply runs_bind, find_ok; [done|]. intros r s1 Hs1 _. apply runs_bind.
  destruct (sc_paused r); [by do 2 apply runs_ret|]. apply runs_bind, current_ok. apply runs_bind, runs_modify.
  apply changed_ok; [by apply db_pause, Hs1|]. intros s2 Hs2 _. by apply runs_ret.
Qed.

Lemma resume_schedule_ok out args : keeps (resume_schedule out args).
Proof.
  intros s Hok. unfold resume_schedule. apply runs_bind, find_ok; [done|]. intros r s1 Hs1 _. apply runs_bind.
  destruct (sc_paused r); [|apply runs_ret; by apply runs_bind, current_ok, runs_ret]. apply runs_bind, runs_modify.
  apply changed_ok; [by apply db_pause, Hs1|]. intros s2 Hs2 _. by apply runs_bind, current_ok, runs_ret.
Qed.

Lemma run_schedule_ok out args : keeps (run_schedule out args).
Proof.
  intros s Hok. unfold run_schedule. apply runs_bind, find_ok; [done|]. intros r s1 [Hdb _] Hr. apply runs_bind, current_ok.
  apply runs_bind, leave_ok. intros left_ m'. apply runs_bind, fired_ok; [exact Hdb|simpl; by apply list_elem_of_In, in_map, list_elem_of_In|].
  intros s2 Hs2 _. apply runs_bind, changed_ok; [done|]. intros s3 Hs3 _. destruct left_; [by apply runs_ret..|by apply runs_fail].
Qed.

Lemma reply_schedule_ok out args : keeps (reply_schedule out args).
Proof.
  intros s Hok. unfold reply_schedule. apply runs_bind, text_arg_ok; [done|]. intros text. apply runs_bind, find_ok; [done|]. intros r s1 Hs1 _.
  apply runs_bind, runs_gets. destruct (mb_caller _ _) as [caller repo]. destruct (_ || _); [by apply bad_ok|].
  apply runs_bind, runs_gets. destruct (List.find _ _) as [f|]; [|by apply bad_ok]. apply runs_bind, current_ok. apply runs_bind, runs_modify.
  apply runs_bind, changed_ok; [|intros s2 Hs2 _; by apply runs_ret]. destruct Hs1 as [[Hr Hf] _]. split; [done|]. by apply firings_ok_reply.
Qed.

Lemma list_schedules_ok out args : keeps (list_schedules out args).
Proof.
  intros s Hok. unfold list_schedules. apply runs_bind, repo_arg_ok; [done|]. intros repo s1 Hs1. apply runs_bind, all_ok; [done|].
  intros s2 Hs2 _. by apply runs_bind, runs_gets, runs_ret.
Qed.
End Runs.
End Keeps.
