(* ===== verification/ScheduleFire.v ===== *)
(** * What the schedules do when they are due: [Schedules::fire] of [crates/kanna-daemon/src/schedule.rs] *)

From S2P Require Import Prelude Text F64 Json Schedule ScheduleFacts Schedules ScheduleKeeps.
From Stdlib Require Import Ascii.

#[local] Open Scope Z_scope.

(** ** The firings that are kept *)

(** The last [n] of a list *)
Definition lastn {A} (n : nat) (l : list A) : list A := drop (length l - n) l.

Lemma existsb_id x l : existsb (fun k => bool_decide (fi_id k = x)) l = true <-> x ∈ map fi_id l.
Proof.
  rewrite existsb_exists, list_elem_of_In, in_map_iff. setoid_rewrite bool_decide_eq_true. naive_solver.
Qed.

Lemma retain_lastn (n : nat) (l : list Firing) :
  NoDup (map fi_id l) -> retain (fun f => existsb (fun k => bool_decide (fi_id k = fi_id f)) (rev (lastn n l))) l = lastn n l.
Proof.
  unfold lastn. set (i := (length l - n)%nat). clearbody i. intros Hnd. rewrite <- (take_drop i l), map_app in Hnd.
  apply NoDup_app in Hnd as (_ & Hdis & _).
  assert (forall f, existsb (fun k => bool_decide (fi_id k = fi_id f)) (rev (drop i l)) = true <-> fi_id f ∈ map fi_id (drop i l)) as Hex.
  { intros f. rewrite existsb_id, map_rev, !list_elem_of_In. symmetry. apply in_rev. }
  set (p := fun f => _) in *. transitivity (retain p (take i l ++ drop i l)); [by rewrite take_drop|]. rewrite retain_app, retain_none, retain_all; [done| |].
  - apply Forall_forall. intros f Hf. apply Hex, list_elem_of_In, in_map, list_elem_of_In, Hf.
  - apply Forall_forall. intros f Hf. apply not_true_iff_false. intros Hp%Hex. revert Hp. apply Hdis. by apply list_elem_of_In, in_map, list_elem_of_In.
Qed.

(** Of its own, [prune] keeps the last. *)
Lemma prune_own schedule l : NoDup (map fi_id l) -> firings_of schedule (prune schedule l) = lastn FIRINGS_KEPT (firings_of schedule l).
Proof.
  intros Hnd. unfold prune, newest, firings_of. rewrite retain_comm. rewrite firstn_rev. fold (firings_of schedule l).
  etransitivity; [|apply retain_lastn; by apply NoDup_map_retain]. apply retain_ext.
  intros f [Hf _]%elem_of_retain. by rewrite Hf.
Qed.

Section Fire.
Context {M : Type} `{Mailbox M} {zone : Zone} {lower : Lowercase}.
Implicit Types (s : Schedules M).

(** ** One schedule *)

(** What [leave] leaves, and the mailbox after it *)
Definition leave_of (m : M) (r : Schedule) : Left * M :=
  if waiting m r then (LSkipped, m)
  else let '(posted, m') := mb_post m (sc_target r) (sc_repo r) (SCHEDULE +:+ label r) (sc_prompt r) in
       (match posted with inr id => LMessage id | inl error => LFailed (err_message error) end, m').

Definition fired_row (next : f64) (left_ : Left) (r : Schedule) : Schedule :=
  set_sc_fired r next (match left_ with LMessage m => Some m | _ => sc_message r end).

Definition firing_row (id schedule : Z) (at_ : f64) (how : How) (left_ : Left) : Firing :=
  let '(state, message, detail) := match left_ with
                                   | LMessage m => ("left", Some m, None)
                                   | LSkipped => ("skipped", None, None)
                                   | LFailed why => ("failed", None, Some why)
                                   end in
  mkFiring id schedule at_ (how_as_str how) state message detail None None.

Lemma leave_run r s : leave r s = (Ok (leave_of (ss_mail s) r).1, set_ss_mail s (leave_of (ss_mail s) r).2).
Proof.
  unfold leave, leave_of, act_bind, act_gets, act_ret, act_modify. destruct (waiting _ r); [by destruct s|]. by destruct (mb_post _ _ _ _ _).
Qed.

(** The database after a schedule has fired *)
Definition after_fired (id : Z) (at_ : f64) (how : How) (left_ : Left) (next : f64) s : Schedules M :=
  set_ss_firings (set_ss_rows s (change_row id (fired_row next left_) (ss_rows s)))
    (prune id (ss_firings s ++ [firing_row (next_rowid (map fi_id (ss_firings s))) id at_ how left_])).

Lemma schedule_fired_run id at_ how left_ next s : schedule_fired id at_ how left_ next s = (Ok tt, after_fired id at_ how left_ next s).
Proof. by destruct left_. Qed.

Lemma firing_row_schedule id schedule at_ how left_ : fi_schedule (firing_row id schedule at_ how left_) = schedule.
Proof. by destruct left_. Qed.
Lemma firing_row_id id schedule at_ how left_ : fi_id (firing_row id schedule at_ how left_) = id.
Proof. by destruct left_. Qed.

Lemma fired_row_mild next left_ : mild (fired_row next left_).
Proof. by intros r. Qed.

Lemma db_ok_fired id at_ how left_ next s : db_ok s -> id ∈ map sc_id (ss_rows s) -> db_ok (after_fired id at_ how left_ next s).
Proof.
  intros Hdb Hin. pose proof (fired_ok False id at_ how left_ next (fun _ => db_ok) s Hdb Hin ltac:(auto)) as Hf.
  unfold runs in Hf. by rewrite schedule_fired_run in Hf.
Qed.

(** What becomes of a row and its firings: it fires at [now], by its rule. *)
Definition row_fires (now : f64) (l l' : list Firing) (r r' : Schedule) : Prop :=
  exists rule m i, rule_parse (sc_rule r) = Good rule /\
    r' = fired_row (rule_next rule (sc_next r) now) (leave_of m r).1 r /\
    l' = lastn FIRINGS_KEPT (l ++ [firing_row i (sc_id r) now HRule (leave_of m r).1]).

(** Those of the ids in [ids] fire, and the others stay as they are. *)
Definition rows_fire (now : f64) (ids : list Z) s s' : Prop :=
  Forall2 (fun r r' => let l := firings_of (sc_id r) (ss_firings s) in
                       let l' := firings_of (sc_id r) (ss_firings s') in
                       (sc_id r ∈ ids -> row_fires now l l' r r') /\ (sc_id r ∉ ids -> r' = r /\ l' = l)) (ss_rows s) (ss_rows s').

Lemma fired_others id at_ how left_ next other s :
  other ≠ id -> firings_of other (ss_firings (after_fired id at_ how left_ next s)) = firings_of other (ss_firings s).
Proof.
  intros Hne. unfold after_fired. cbn [ss_firings set_ss_firings]. rewrite prune_others by done. rewrite firings_of_app.
  unfold firings_of at 2, retain. simpl. rewrite firing_row_schedule, bool_decide_eq_false_2 by done. by rewrite app_nil_r.
Qed.

Lemma fired_own id at_ how left_ next s :
  NoDup (map fi_id (ss_firings s)) ->
  exists i, firings_of id (ss_firings (after_fired id at_ how left_ next s)) =
    lastn FIRINGS_KEPT (firings_of id (ss_firings s) ++ [firing_row i id at_ how left_]).
Proof.
  intros Hnd. eexists. unfold after_fired. cbn [ss_firings set_ss_firings]. rewrite prune_own.
  - rewrite firings_of_app. unfold firings_of at 2, retain. simpl. by rewrite firing_row_schedule, bool_decide_eq_true_2.
  - rewrite map_app. apply NoDup_app. split_and!; [done| |apply NoDup_singleton]. intros x Hx ->%list_elem_of_singleton.
    rewrite firing_row_id in Hx. by apply next_rowid_fresh in Hx.
Qed.

Lemma row_unique (rows : list Schedule) r r' : NoDup (map sc_id rows) -> r ∈ rows -> r' ∈ rows -> sc_id r = sc_id r' -> r = r'.
Proof.
  intros Hnd (i & Hi)%list_elem_of_lookup (j & Hj)%list_elem_of_lookup E.
  assert (i = j) as ->; [|congruence]. eapply NoDup_lookup; [exact Hnd|..].
  - by rewrite list_lookup_fmap, Hi.
  - by rewrite list_lookup_fmap, Hj, E.
Qed.

Lemma rows_fire_one now r rule s :
  let left_ := (leave_of (ss_mail s) r).1 in
  db_ok s -> r ∈ ss_rows s -> rule_parse (sc_rule r) = Good rule ->
  rows_fire now [sc_id r] s (after_fired (sc_id r) now HRule left_ (rule_next rule (sc_next r) now) (set_ss_mail s (leave_of (ss_mail s) r).2)).
Proof.
  intros left_ [Hr Hf] Hin Hp. unfold rows_fire. apply Forall2_fmap_r, Forall_Forall2_diag, Forall_forall. intros x Hx. cbn zeta. split.
  - intros E%list_elem_of_singleton. assert (x = r) as -> by by eapply row_unique; eauto using ro_ids.
    rewrite decide_True by done.
    destruct (fired_own (sc_id r) now HRule left_ (rule_next rule (sc_next r) now) (set_ss_mail s (leave_of (ss_mail s) r).2)) as [i Hi]; [apply Hf|].
    exists rule, (ss_mail s), i. split_and!; [done|done|]. exact Hi.
  - intros Hne. rewrite list_elem_of_singleton in Hne. rewrite decide_False by done. split; [done|].
    by apply (fired_others _ _ _ _ _ _ (set_ss_mail s (leave_of (ss_mail s) r).2)).
Qed.

Lemma rows_fire_ids now ids s s' : rows_fire now ids s s' -> map sc_id (ss_rows s') = map sc_id (ss_rows s).
Proof.
  intros Hf. apply list_eq. intros i. rewrite !list_lookup_fmap. 
  pose proof (Forall2_length _ _ _ Hf) as Hlen. destruct (ss_rows s !! i) as [r|] eqn:E.
  - destruct (Forall2_lookup_l _ _ _ _ _ Hf E) as (r' & -> & H1 & H2). simpl. f_equal. destruct (decide (sc_id r ∈ ids)) as [Hin|Hin].
    + by destruct (H1 Hin) as (? & ? & ? & _ & -> & _).
    + by destruct (H2 Hin) as [-> _].
  - apply lookup_ge_None in E. by rewrite (proj2 (lookup_ge_None (ss_rows s') i)) by lia.
Qed.

Lemma rows_fire_cons now id ids s s1 s2 :
  id ∉ ids -> rows_fire now [id] s s1 -> rows_fire now ids s1 s2 -> rows_fire now (id :: ids) s s2.
Proof.
  intros Hni H1 H2. pose proof (rows_fire_ids _ _ _ _ H1) as Hids. unfold rows_fire in *.
  apply Forall2_same_length_lookup. split; [by rewrite (Forall2_length _ _ _ H1), (Forall2_length _ _ _ H2)|]. intros i r r2 Hr Hr2.
  destruct (Forall2_lookup_l _ _ _ _ _ H1 Hr) as (r1 & Hr1 & Ha & Hb). destruct (Forall2_lookup_lr _ _ _ _ _ _ H2 Hr1 Hr2) as [Hc Hd].
  assert (sc_id r1 = sc_id r) as Eid.
  { apply (f_equal (fun l => l !! i)) in Hids. rewrite !list_lookup_fmap, Hr, Hr1 in Hids. by injection Hids. }
  rewrite Eid in Hc, Hd. cbn zeta. destruct (decide (sc_id r = id)) as [E|Hne].
  - rewrite <- E in Hni, Ha |- *. split; [|intros Hout; exfalso; apply Hout; left]. intros _. destruct (Hd Hni) as [-> ->]. apply Ha. left.
  - destruct Hb as [-> <-]; [by rewrite list_elem_of_singleton|]. split; [|intros Hout; apply Hd; intros ?; apply Hout; by right].
    intros [?|Hin]%elem_of_cons; [done|]. by apply Hc.
Qed.

(** ** All that are due *)

Lemma has_rule_parses r : has_rule r -> exists rule, rule_parse (sc_rule r) = Good rule.
Proof. intros (rule & Hok & ->). exists rule. by apply rule_text_read. Qed.

(** The rest of the state *)
Definition same_rest s s' : Prop :=
  ss_meta s' = ss_meta s /\ ss_known s' = ss_known s /\ ss_skew s' = ss_skew s /\ ss_changes s' = ss_changes s.

Lemma rows_fire_nil now s : rows_fire now [] s s.
Proof. apply Forall_Forall2_diag, Forall_forall. intros r _. cbn zeta. split; [by intros ?%elem_of_nil|done]. Qed.

Lemma fire_each_run now due n s :
  db_ok s -> NoDup (map sc_id due) -> Forall (fun r => r ∈ ss_rows s) due ->
  exists s', fire_each now due n s = (Ok (n + N.of_nat (length due))%N, s') /\ db_ok s' /\ rows_fire now (map sc_id due) s s' /\
    ss_mail s' = foldl (fun m r => (leave_of m r).2) (ss_mail s) due /\ same_rest s s'.
Proof.
  revert n s. induction due as [|r due IH]; intros n s Hdb Hnd Hin.
  { exists s. simpl. rewrite N.add_0_r. split_and!; [done|done|apply rows_fire_nil|done|done]. }
  apply Forall_cons in Hin as [Hr Hin]. apply NoDup_cons in Hnd as [Hni Hnd].
  destruct (has_rule_parses r) as [rule Hp]; [pose proof (ro_rules _ (proj1 Hdb)) as Hrules; rewrite Forall_forall in Hrules; by apply Hrules|].
  pose proof (rows_fire_one now r rule s Hdb Hr Hp) as Hone. cbn zeta in Hone. set (s1 := after_fired _ _ _ _ _ _) in Hone.
  destruct (IH (N.succ n) s1) as (s2 & Hrun & Hdb2 & Hf2 & Hm2 & Hrest); [|done| |].
  - apply db_ok_fired; [exact Hdb|]. by apply list_elem_of_In, in_map, list_elem_of_In.
  - apply Forall_forall. intros x Hxd. rewrite Forall_forall in Hin. pose proof (Hin x Hxd) as Hx.
    apply list_elem_of_lookup in Hx as [i Hi]. destruct (Forall2_lookup_l _ _ _ _ _ Hone Hi) as (x' & Hx' & _ & Hk).
    destruct Hk as [-> _]; [|by apply list_elem_of_lookup_2 in Hx']. intros E%list_elem_of_singleton. apply Hni. rewrite <- E.
    by apply list_elem_of_In, in_map, list_elem_of_In.
  - exists s2. split_and!; [|done| |exact Hm2|exact Hrest].
    + simpl. rewrite Hp. unfold act_bind at 1. rewrite leave_run. unfold act_bind at 1. rewrite schedule_fired_run. fold s1. rewrite Hrun. 
      do 2 f_equal. lia.
    + simpl. by eapply rows_fire_cons.
Qed.

Lemma all_run s : known_ok s -> all s = (Ok (ss_rows s), set_ss_known s (Some (ss_rows s))).
Proof. intros Hk. unfold all, act_bind, act_gets. destruct s as [rows ? ? known ? ? ?]. simpl in *. destruct Hk as [Hk|Hk]; simpl in Hk; by subst. Qed.

(** [fire], from a state of the invariant *)
Lemma fire_run out s :
  let now := fadd (ou_now out) (ss_skew s) in
  let due := retain (is_due now) (ss_rows s) in
  sched_ok s ->
  exists s', fire out s = (Ok (N.of_nat (length due)), s') /\ sched_ok s' /\ rows_fire now (map sc_id due) s s' /\
    ss_mail s' = foldl (fun m r => (leave_of m r).2) (ss_mail s) due /\ ss_skew s' = ss_skew s /\
    ss_changes s' = (if decide (due = []) then ss_changes s else N.succ (ss_changes s)).
Proof.
  intros now due [Hdb Hk]. unfold fire. unfold act_bind at 1. unfold current, act_gets at 1. fold now.
  unfold act_bind at 1. rewrite all_run by done. fold due. destruct due as [|r l] eqn:E.
  { eexists. split_and!; [done|by split; [|right]|exact (rows_fire_nil now s)|done|done|done]. }
  rewrite <- E. set (s1 := set_ss_known s None).
  destruct (fire_each_run now due 0 s1) as (s2 & Hrun & Hdb2 & Hf & Hm & _ & _ & Hsk & Hch); [exact Hdb|..].
  - unfold due. apply NoDup_map_retain, Hdb.
  - apply Forall_forall. intros x Hx. unfold due in Hx. by apply elem_of_retain in Hx as [_ Hx].
  - unfold forget, act_modify. unfold act_bind at 1. cbn [set_ss_known ss_rows]. change (set_ss_known _ None) with s1. unfold act_bind at 1. rewrite Hrun.
    eexists. split_and!; [done| |done|done|done|]; [by split; [|left]|]. rewrite decide_False by by rewrite E. simpl. by rewrite Hch.
Qed.
End Fire.
