(* ===== verification/ScheduleTheorems.v ===== *)
(** * Schedules: what the daemon's schedules show

    The theorems on rules, on the times they are due and on the schedules of the daemon, for
    every order of requests, ticks and restarts. *)

From stdpp Require Import relations.
From S2P Require Import Prelude Text F64 Json Pipe PipeParse PipeText Schedule ScheduleFacts Schedules ScheduleKeeps ScheduleFire.
From Stdlib Require Import Ascii SpecFloat.

#[local] Open Scope Z_scope.

(** ** What comes to the schedules *)

Section Engine.
Context {M : Type} `{Mailbox M} {zone : Zone} {lower : Lowercase}.
Implicit Types (s : Schedules M).

(** A request, the daemon's timer, the tasks' word that messages were delivered, the command
    [debug.clock], what becomes of the mailbox meanwhile, and a start on the same database *)
Inductive ScheduleEvent :=
| SeRequest (out : Outside) (args : Value)
| SeTick (out : Outside)
| SeDelivered (senders : list string)
| SeClock (out : Outside) (args : Value)
| SeMail (mail : M)
| SeStart (out : Outside) (repos : list string).

Definition no_value {A} (m : act (Schedules M) A) : act (Schedules M) unit := let! _ := m in act_ret tt.

Definition serve_event (e : ScheduleEvent) : act (Schedules M) unit :=
  match e with
  | SeRequest out args => no_value (handle out args)
  | SeTick out => no_value (tick out)
  | SeDelivered senders => on_delivered senders
  | SeClock out args => no_value (debug_clock out args)
  | SeMail mail => act_modify (fun s => set_ss_mail s mail)
  | SeStart out repos => act_modify (fun s => schedules_new (ss_rows s) (ss_firings s) (ss_meta s) (ss_mail s)) ;;; scheduler_new out repos
  end.

(** From a new database on; an error is answered and the daemon goes on. *)
Inductive sched_reached : Schedules M -> Prop :=
| sched_first mail : sched_reached (schedules_new [] [] ∅ mail)
| sched_next s e r s' : sched_reached s -> serve_event e s = (r, s') -> r ≠ Panic -> sched_reached s'.

(** ** Each event keeps the invariant *)

Lemma foldl_f_min x l : foldl f_min x l ∈ x :: l.
Proof.
  revert x. induction l as [|y l IH]; intros x; simpl; [left|].
  assert (f_min x y = x \/ f_min x y = y) as Hor by (unfold f_min; repeat case_match; auto).
  specialize (IH (f_min x y)). apply elem_of_cons in IH as [E|Hin]; [|by right; right]. destruct Hor as [Ho|Ho]; rewrite E, Ho; [left|right; left].
Qed.

(** A schedule so far ahead that the time to wait for it is no [Duration] *)
Definition too_far (now : f64) (r : Schedule) : Prop := sc_paused r = None /\ wait_for (sc_next r) now = Panic.

(** What an event that makes the daemon panic is *)
Definition event_breaks (e : ScheduleEvent) s : Prop :=
  match e with
  | SeRequest out args => string_of args "action" = Some "add" /\ rule_breaks args
  | SeTick out => exists n s' r, fire out s = (Ok n, s') /\ r ∈ ss_rows s' /\ too_far (fadd (ou_now out) (ss_skew s')) r
  | _ => False
  end.

Abbreviation keeps P m := (forall s, sched_ok s -> runs P sched_ok m (fun _ => sched_ok) s).

Lemma no_value_ok {A} P (m : act (Schedules M) A) s :
  runs P sched_ok m (fun _ => sched_ok) s -> runs P sched_ok (no_value m) (fun _ => sched_ok) s.
Proof. intros Hm. unfold no_value. apply runs_bind. eapply runs_weaken; [exact Hm|]. intros a s' Hs'. by apply runs_ret. Qed.

Lemma schedules_handle_ok (P : Prop) out args : (string_of args "action" = Some "add" /\ rule_breaks args -> P) -> keeps P (handle out args).
Proof.
  intros HP s Hok. unfold handle. destruct (string_of args "action") as [action|] eqn:E; [|by apply bad_ok].
  repeat case_decide; subst.
  - apply add_ok; [|done]. intros Hb. by apply HP.
  - by apply list_schedules_ok.
  - by apply remove_ok.
  - by apply pause_schedule_ok.
  - by apply resume_schedule_ok.
  - by apply run_schedule_ok.
  - by apply reply_schedule_ok.
  - by apply bad_ok.
Qed.

Lemma tick_ok out s : sched_ok s -> runs (event_breaks (SeTick out) s) sched_ok (tick out) (fun _ => sched_ok) s.
Proof.
  intros Hok. destruct (fire_run out s Hok) as (s1 & Hf & Hs1 & _). unfold tick. apply runs_bind. unfold runs at 1. rewrite Hf.
  apply runs_bind. unfold next_due. apply runs_bind, all_ok; [done|]. intros s2 Hs2 (Er & _ & _ & Esk). apply runs_ret.
  destruct (map sc_next _) as [|x l] eqn:E; [by apply runs_ret|]. pose proof (foldl_f_min x l) as Hmin. rewrite <- E in Hmin.
  apply runs_bind, current_ok. apply runs_bind, runs_lift; [by intros; apply runs_ret|by intros|]. intros Hw.
  apply list_elem_of_In, in_map_iff in Hmin as (r & En & Hr%list_elem_of_In). apply elem_of_retain in Hr as [Hp%bool_decide_eq_true Hr].
  eexists _, s1, r. split_and!; [exact Hf|done|]. split; [done|]. by rewrite En, <- Esk.
Qed.

Lemma scheduler_new_ok P out repos : keeps P (scheduler_new out repos).
Proof.
  induction repos as [|folder repos IH]; intros s Hok; simpl; [by apply runs_ret|]. apply runs_bind.
  destruct (ou_repo_of out folder); [|by apply runs_ret, IH]. eapply runs_weaken; [by apply seed_ok|]. intros u s' Hs'. by apply IH.
Qed.

Lemma serve_event_ok e s : sched_ok s -> runs (event_breaks e s) sched_ok (serve_event e) (fun _ => sched_ok) s.
Proof.
  intros Hok. destruct e as [out args|out|senders|out args|mail|out repos]; simpl.
  - by apply no_value_ok, schedules_handle_ok.
  - by apply no_value_ok, tick_ok.
  - unfold on_delivered. destruct (existsb _ senders); [|by apply runs_ret]. by apply changed_ok; [apply Hok|].
  - apply no_value_ok. unfold debug_clock, advance. by apply runs_bind, runs_modify, runs_bind, current_ok, runs_ret.
  - by apply runs_modify.
  - apply runs_bind, runs_modify. apply scheduler_new_ok. split; [apply Hok|by left].
Qed.

Lemma sched_reached_ok s : sched_reached s -> sched_ok s.
Proof.
  induction 1 as [mail|s e r s' _ Hok Hs Hr].
  - split; [|by left]. split; [split; constructor|]. split; [constructor|constructor|intros id; simpl; lia].
  - pose proof (serve_event_ok e s Hok) as Hrun. unfold runs in Hrun. rewrite Hs in Hrun. by destruct r.
Qed.

(** ** A schedule's label *)

Lemma id_of_label id : 0 < id < 2 ^ 63 -> id_of ("s" +:+ pretty id) = Some id.
Proof.
  intros Hid. unfold id_of. rewrite strip_prefix_app. cbn [mbind option_bind]. rewrite pretty_Z_N by lia.
  pose proof (pretty_digits (Z.to_N id)) as Hd. destruct (pretty_N_head (Z.to_N id)) as (a & t & E & _).
  assert (all_digits (pretty (Z.to_N id)) = true) as -> by by apply forallb_all.
  assert (str_is_empty (pretty (Z.to_N id)) = false) as -> by by rewrite E.
  rewrite parse_uint_pretty by lia. simpl. f_equal. lia.
Qed.

(** What is alone in having a key is all that is retained of it. *)
Lemma retain_one {A} (p : A -> bool) l x : NoDup l -> x ∈ l -> p x = true -> (forall y, y ∈ l -> p y = true -> y = x) -> retain p l = [x].
Proof.
  intros Hnd Hx Hp Hone. unfold retain. induction l as [|y l IH]; [by apply elem_of_nil in Hx|]. apply NoDup_cons in Hnd as [Hni Hnd]. simpl.
  destruct (p y) eqn:E.
  - assert (y = x) as -> by (apply Hone; [left|done]). f_equal. apply retain_none, Forall_forall. intros z Hz. apply not_true_iff_false. intros Hpz.
    apply Hni. rewrite <- (Hone z); [done|by right|done].
  - apply elem_of_cons in Hx as [->|Hx]; [congruence|]. apply IH; [done|done|]. intros z Hz. apply Hone. by right.
Qed.

Lemma name_key_unique rows r r' k : NoDup (omap name_key rows) -> r ∈ rows -> r' ∈ rows -> name_key r = Some k -> name_key r' = Some k -> r = r'.
Proof.
  intros Hnd. induction rows as [|x rows IH]; [by intros ?%elem_of_nil|]. simpl in Hnd. intros Hr Hr' Hk Hk'.
  assert (forall y, y ∈ rows -> name_key y = Some k -> k ∈ omap name_key rows) as Hin by (intros; apply list_elem_of_omap; eauto).
  destruct (name_key x) as [kx|] eqn:Ex.
  - apply NoDup_cons in Hnd as [Hni Hnd]. apply elem_of_cons in Hr as [->|Hr], Hr' as [->|Hr']; [done| | |by apply IH].
    + exfalso. apply Hni. assert (kx = k) as -> by congruence. eauto.
    + exfalso. apply Hni. assert (kx = k) as -> by congruence. eauto.
  - apply elem_of_cons in Hr as [->|Hr]; [congruence|]. apply elem_of_cons in Hr' as [->|Hr']; [congruence|]. by apply IH.
Qed.

Lemma rows_meant_label rows r : rows_ok rows -> r ∈ rows -> sc_id r < 2 ^ 63 -> rows_meant (label r) (sc_repo r) rows = [r].
Proof.
  intros [Hids Hnames _ Hfine Hpos] Hr Hlt. rewrite Forall_forall in Hfine, Hpos. specialize (Hpos r Hr). pose proof (NoDup_fmap_1 sc_id _ Hids) as Hnd.
  unfold rows_meant, label. destruct (sc_name r) as [n|] eqn:En; simpl.
  - destruct (Hfine r Hr n En) as (_ & _ & ->).
    assert (retain (fun x => bool_decide (sc_repo x = sc_repo r)) (retain (fun x => bool_decide (sc_name x = Some n)) rows) = [r]) as ->; [|done].
    apply retain_one; [by apply NoDup_retain| |by apply bool_decide_eq_true_2|].
    + apply elem_of_retain. split; [by apply bool_decide_eq_true_2|done].
    + intros y [Hy1%bool_decide_eq_true Hy]%elem_of_retain Hy2%bool_decide_eq_true.
      eapply name_key_unique; [exact Hnames|done|done|..]; unfold name_key; [by rewrite Hy1, Hy2|by rewrite En].
  - rewrite id_of_label by lia. apply retain_one; [done|done|by apply bool_decide_eq_true_2|].
    intros y Hy Hid%bool_decide_eq_true. by eapply row_unique.
Qed.

(** ** After firing *)

Lemma SFcompare_swap x y : SFcompare y x = CompOpp <$> SFcompare x y.
Proof.
  destruct x as [[]|[]| |[] m e], y as [[]|[]| |[] m' e']; try done; unfold SFcompare; rewrite (Z.compare_antisym e e');
    destruct (e ?= e')%Z; simpl; try done; rewrite ?CompOpp_involutive;
    change (Pos.compare_cont Eq m m') with (Pos.compare m m'); change (Pos.compare_cont Eq m' m) with (Pos.compare m' m);
    by rewrite (Pos.compare_antisym m m'), ?CompOpp_involutive.
Qed.

Lemma flt_not_fle x y : flt x y = true -> fle y x = false.
Proof. unfold flt, fle, SFltb, SFleb. rewrite (SFcompare_swap x y). by destruct (SFcompare x y) as [[]|]. Qed.

Lemma fired_not_due now s s' r days minute :
  zone_ok -> clock_time now -> rows_fire now (map sc_id (retain (is_due now) (ss_rows s))) s s' ->
  r ∈ ss_rows s' -> rule_parse (sc_rule r) = Good (At days minute) -> is_due now r = false.
Proof.
  intros Hz Hn Hrows [i Hi]%list_elem_of_lookup Hp. destruct (Forall2_lookup_r _ _ _ _ _ Hrows Hi) as (r0 & Hr0 & Hyes & Hno). cbn zeta in Hyes, Hno.
  destruct (decide (sc_id r0 ∈ map sc_id (retain (is_due now) (ss_rows s)))) as [Hin|Hout].
  - destruct (Hyes Hin) as (rule & m & j & Hp0 & -> & _). simpl in Hp. assert (rule = At days minute) as -> by congruence.
    apply rule_parse_ok in Hp. destruct (next_at_spec days minute (sc_next r0) now Hz Hp Hn) as (day & E & _ & _ & Hlt & _).
    unfold is_due. cbn [fired_row set_sc_fired sc_next sc_paused]. by rewrite E, flt_not_fle.
  - destruct (Hno Hout) as [-> _]. apply not_true_iff_false. intros Hdue. apply Hout, list_elem_of_In, in_map, list_elem_of_In, elem_of_retain.
    split; [done|]. by eapply list_elem_of_lookup_2.
Qed.

(** ** The theorems *)

(** C26 Whatever the order of requests, ticks, deliveries and restarts: ids and, within a repo,
    names of schedules are unique, each stored rule is one that parses, each firing is of a
    schedule there is and no schedule has more than twenty, and the rows that are kept in
    memory are the database's.  The daemon, built for release, where sums of [i64] wrap, panics only on
    an [add] whose rule [interval] splits inside a character, and on a tick where a schedule is 2^64
    seconds ahead. *)
Theorem schedules_invariant s :
  sched_reached s ->
  rows_ok (ss_rows s) /\ firings_ok (ss_rows s) (ss_firings s) /\ known_ok s /\
  forall e s', serve_event e s = (Panic, s') -> event_breaks e s.
Proof.
  intros Hs%sched_reached_ok. pose proof Hs as [[Hr Hf] Hk]. split_and!; [done|done|done|].
  intros e s' He. pose proof (serve_event_ok e s ltac:(done)) as Hrun. unfold runs in Hrun. by rewrite He in Hrun.
Qed.


(** Every schedule answers to its label: what is shown of it, its name or the [s] and
    number of its id, finds it and no other, asked from its own repo. *)
Theorem schedule_addressed s r :
  sched_reached s -> r ∈ ss_rows s -> sc_id r < 2 ^ 63 -> rows_meant (label r) (sc_repo r) (ss_rows s) = [r].
Proof. intros [[Hr _] _]%sched_reached_ok. by apply rows_meant_label. Qed.
End Engine.

(** The text of a rule reads back as the rule: whatever text a rule was parsed from, what is
    stored and shown in its place parses to the same rule, and so does that of every rule with
    at least one day and a minute of the day, or of up to 10,000 minutes or hours. *)
Theorem rule_roundtrip `{Lowercase} :
  (forall r, rule_ok r -> rule_parse (rule_text r) = Good r) /\
  (forall text r, rule_parse text = Good r -> rule_ok r /\ rule_parse (rule_text r) = Good r).
Proof.
  split; [apply rule_text_read|]. intros text r Hp%rule_parse_ok. split; [done|]. by apply rule_text_read.
Qed.

(** C28 The next time of a rule of days and a time is the first there is after now: it is the
    rule's time on one of its days, found within the ten days from yesterday on, after now, and
    the time of each of its days before that is not after now.  Where within a day of the rule's time
    the clock has no offsets but the two that it has at the ends of those two days, as where it is
    changed once or not at all, the time reads on the local clock as the rule's time of that day,
    and is the earliest that does; where the clock skips it, it is what the offset from before
    makes of it.  Holds of every zone whose offsets are at most a day and differ by at most a day. *)
Theorem next_exact `{Zone} days minute due now :
  zone_ok -> rule_ok (At days minute) -> clock_time now ->
  let today := wall_clock (f_floor_Z now) / DAY in
  exists day, rule_next (At days minute) due now = f_of_Z (resolve day minute) /\
    today - 1 <= day <= today + 8 /\ rule_day days day = true /\ flt now (f_of_Z (resolve day minute)) = true /\
    (forall d, today - 1 <= d < day -> rule_day days d = true -> flt now (f_of_Z (resolve d minute)) = false) /\
    let wall := wall_time day minute in
    ((forall u, wall - DAY <= u <= wall + DAY -> offset u = offset (wall - DAY) \/ offset u = offset (wall + DAY)) ->
       (forall u, wall_clock u = wall -> wall_clock (resolve day minute) = wall /\ resolve day minute <= u) /\
       ((forall u, wall_clock u ≠ wall) -> resolve day minute = wall - offset (wall - DAY))).
Proof.
  intros Hz Hr Hn today. destruct (next_at_spec days minute due now Hz Hr Hn) as (day & H1 & H2 & H3 & H4 & H5).
  exists day. split_and!; try done; [lia|lia|]. intros wall Htwo. assert (day_fits day) as Hfit by (apply (today_fits now day Hz Hn); lia).
  pose proof (resolve_cases day minute Hz Hfit (proj2 (proj2 Hr))) as Hc. cbn zeta in Hc. fold wall in Hc.
  assert (forall u, wall_clock u = wall -> u = wall - offset (wall - DAY) \/ u = wall - offset (wall + DAY)) as Hcand.
  { intros u Hu. destruct (Hz u u) as [_ Ho]. unfold wall_clock in Hu. destruct (Htwo u) as [E|E]; [lia| |]; rewrite E in Hu; lia. }
  split.
  - intros u Hu. destruct Hc as [(Hw & _ & Hmin)|(_ & Hb & Ha)]; [split; [done|]; apply Hmin; auto|]. by destruct (Hcand u Hu) as [-> | ->].
  - intros Hnone. destruct Hc as [(Hw & _)|(E & _)]; [by destruct (Hnone _ Hw)|done].
Qed.

(** ** On concrete input *)

(** The zone of the eastern United States around March 2026 *)
Definition eastern : Zone := fun at_ => if at_ <? 1772953200 then -18000 else -14400.
Definition plain_case : Lowercase := fun s => s.

(** Messages are in a list; the last of them waits. *)
Definition sample_mailbox : Mailbox (list (string * string)) := {|
  mb_recipient m target := inr target;
  mb_post m recipient repo from text := (inr (Z.of_nat (length m) + 1), m ++ [(recipient, text)]);
  mb_waiting m id := bool_decide (id = Z.of_nat (length m));
  mb_delivered m id := if id <? Z.of_nat (length m) then Some (f_of_Z 0) else None;
  mb_label m recipient := recipient;
  mb_caller m args := ("t1", None);
  mb_title m recipient := recipient |}.
#[local] Existing Instance eastern.
#[local] Existing Instance plain_case.
#[local] Existing Instance sample_mailbox.

(** Noon on Saturday 7 March 2026 in New York *)
Definition sample_now : f64 := f_of_Z 1772902800.
Definition sample_out : Outside := mkOutside sample_now (fun _ => None).
Definition sample_later : Outside := mkOutside (f_of_Z 1772989200) (fun _ => None).

Definition sample_add : Value :=
  obj [("action", JString "add"); ("rule", JString "Sun,sat 09:30"); ("target", JString "t1"); ("prompt", JString "look  again"); ("name", JString "weekend")].
Definition sample_hourly : Value := obj [("action", JString "add"); ("rule", JString "every 120m"); ("target", JString "t2"); ("prompt", JString "go on")].

Definition sample_schedules : Schedules (list (string * string)) :=
  (serve_event (SeRequest sample_out sample_hourly) (serve_event (SeRequest sample_out sample_add) (schedules_new [] [] ∅ [])).2).2.

Lemma sample_reached : sched_reached sample_schedules.
Proof.
  eapply (sched_next _ (SeRequest sample_out sample_hourly)); [|apply surjective_pairing|by vm_compute].
  eapply (sched_next _ (SeRequest sample_out sample_add)); [apply sched_first|apply surjective_pairing|by vm_compute].
Qed.

Lemma eastern_ok : zone_ok.
Proof. intros a b. unfold offset, eastern, DAY. destruct (_ <? _), (_ <? _); lia. Qed.

Lemma schedules_invariant_witness :
  map sc_rule (ss_rows sample_schedules) = ["weekends 09:30"; "every 2h"] /\ NoDup (map sc_id (ss_rows sample_schedules)).
Proof. split; [by vm_compute|]. apply (ro_ids _ (proj1 (schedules_invariant sample_schedules sample_reached))). Defined.

Lemma schedule_addressed_witness : label <$> (ss_rows sample_schedules !! 1%nat) = Some "s2" /\ exists r, rows_meant "s2" None (ss_rows sample_schedules) = [r].
Proof.
  split; [by vm_compute|]. eexists. destruct (ss_rows sample_schedules !! 1%nat) as [r|] eqn:E; [|by vm_compute in E].
  pose proof (schedule_addressed sample_schedules r sample_reached (list_elem_of_lookup_2 _ _ _ E)) as Hr.
  vm_compute in E. injection E as <-. apply Hr. by vm_compute.
Defined.


Lemma rule_roundtrip_witness : rule_parse "  Sun,sat  9:30" = Good (At weekends 570) /\ rule_parse (rule_text (At weekends 570)) = Good (At weekends 570).
Proof. split; [by vm_compute|]. by apply (proj2 rule_roundtrip "Sun,sat 09:30"). Defined.

(** Half past two on the Sunday when the clock skips it: the time of the rule is an hour on. *)
Lemma next_exact_witness :
  exists day, rule_next (At weekends 150) sample_now sample_now = f_of_Z (resolve day 150) /\ flt sample_now (f_of_Z (resolve day 150)) = true /\
    rule_next (At weekends 150) sample_now sample_now = f_of_Z 1772955000 /\ local_text (f_of_Z 1772955000) = "Sun 8 Mar 03:30".
Proof.
  destruct (next_exact weekends 150 sample_now sample_now) as (day & H1 & _ & _ & H2 & _).
  - apply eastern_ok.
  - split_and!; [done|by vm_compute; set_solver|lia|lia].
  - vm_compute. split_and!; congruence.
  - exists day. split_and!; [exact H1|exact H2|by vm_compute|by vm_compute].
Defined.

(** [interval] splits the text before its last byte, here inside a character of two. *)
Example rule_crashes : rule_parse ("every 2" +:+ of_chars [233%N]) = Crash.
Proof. by vm_compute. Qed.
