(* ===== verification/Utf8.v ===== *)
(** * Bytes as UTF-8: [str::from_utf8] and [String::from_utf8_lossy]

    A [Vec<u8>] is a [string] of its bytes.  The text at the start of some bytes, the bytes of
    the first error and the rest are found as the standard library finds them: an error is
    the longest start of a character that cannot be continued, and an unfinished character
    at the end is one error. *)

From S2P Require Import Prelude Text.
From Stdlib Require Import Ascii ZifyN.

#[local] Open Scope N_scope.

Definition between (lo hi : N) (a : ascii) : bool := (lo <=? N_of_ascii a) && (N_of_ascii a <=? hi).
Definition continues : ascii -> bool := between 128 191.

(** Which second bytes a first byte of three, or of four, may have *)
Definition second_of_three (a b : ascii) : bool :=
  if N_of_ascii a =? 224 then between 160 191 b else if N_of_ascii a =? 237 then between 128 159 b else continues b.
Definition second_of_four (a b : ascii) : bool :=
  if N_of_ascii a =? 240 then between 144 191 b else if N_of_ascii a =? 244 then between 128 143 b else continues b.

(** What bytes start with: a character, or an error *)
Inductive Head := HChar (c rest : string) | HBad (bad rest : string).

Definition bytes1 (a : ascii) : string := String a "".
Definition bytes2 (a b : ascii) : string := String a (String b "").
Definition bytes3 (a b c : ascii) : string := String a (String b (String c "")).
Definition bytes4 (a b c d : ascii) : string := String a (String b (String c (String d ""))).

Definition utf8_head (a : ascii) (r : string) : Head :=
  if N_of_ascii a <? 128 then HChar (bytes1 a) r
  else if between 194 223 a then
    match r with
    | String b r1 => if continues b then HChar (bytes2 a b) r1 else HBad (bytes1 a) r
    | EmptyString => HBad (bytes1 a) ""
    end
  else if between 224 239 a then
    match r with
    | String b r1 =>
      if second_of_three a b then
        match r1 with
        | String c r2 => if continues c then HChar (bytes3 a b c) r2 else HBad (bytes2 a b) r1
        | EmptyString => HBad (bytes2 a b) ""
        end
      else HBad (bytes1 a) r
    | EmptyString => HBad (bytes1 a) ""
    end
  else if between 240 244 a then
    match r with
    | String b r1 =>
      if second_of_four a b then
        match r1 with
        | String c r2 =>
          if continues c then
            match r2 with
            | String d r3 => if continues d then HChar (bytes4 a b c d) r3 else HBad (bytes3 a b c) r2
            | EmptyString => HBad (bytes3 a b c) ""
            end
          else HBad (bytes2 a b) r1
        | EmptyString => HBad (bytes2 a b) ""
        end
      else HBad (bytes1 a) r
    | EmptyString => HBad (bytes1 a) ""
    end
  else HBad (bytes1 a) r.

(** [str::from_utf8]: the text up to the first error, its bytes, and what comes after *)
Fixpoint utf8_split_go (fuel : nat) (s : string) : string * string * string :=
  match fuel, s with
  | S fuel, String a r =>
    match utf8_head a r with
    | HChar c rest => let '(good, bad, after) := utf8_split_go fuel rest in (c +:+ good, bad, after)
    | HBad bad rest => ("", bad, rest)
    end
  | _, _ => ("", "", "")
  end.
Definition utf8_split (s : string) : string * string * string := utf8_split_go (String.length s) s.

Definition utf8_valid (s : string) : bool := let '(_, bad, _) := utf8_split s in str_is_empty bad.

(** [String::from_utf8_lossy]: each error is a U+FFFD. *)
Definition replacement : string := encode_char 65533.
Fixpoint lossy_go (fuel : nat) (s : string) : string :=
  match fuel with
  | O => ""
  | S fuel =>
    let '(good, bad, rest) := utf8_split s in
    if str_is_empty bad then good else good +:+ replacement +:+ lossy_go fuel rest
  end.
Definition from_utf8_lossy (s : string) : string := lossy_go (S (String.length s)) s.

(** ** Text *)

(** The bytes of one character *)
Definition is_char (c : string) : Prop := exists a r, c = String a r /\ forall t, utf8_head a (r +:+ t) = HChar c t.

Inductive Utf8 : string -> Prop :=
| utf8_nil : Utf8 ""
| utf8_cons c rest : is_char c -> Utf8 rest -> Utf8 (c +:+ rest).

Lemma string_app_cons a s t : String a s +:+ t = String a (s +:+ t).
Proof. done. Qed.

Lemma length_string_app s t : String.length (s +:+ t) = (String.length s + String.length t)%nat.
Proof. induction s as [|a s IH]; [done|]. rewrite string_app_cons. simpl. by rewrite IH. Qed.

Lemma between_spec lo hi a : between lo hi a = true <-> lo <= N_of_ascii a <= hi.
Proof. unfold between. rewrite andb_true_iff, !N.leb_le. done. Qed.

Lemma ascii_eq_N n a : n = N_of_ascii a -> ascii_of_N n = a.
Proof. intros ->. apply ascii_N_embedding. Qed.

#[local] Ltac Zify.zify_post_hook ::= Z.div_mod_to_equations.

(** A code point and the bytes of its character *)
Record scalar (n : N) (c : string) : Prop := {
  sc_encode : encode_char n = c;
  sc_decode : forall t, chars (c +:+ t) = n :: chars t;
  sc_high : c = bytes1 (ascii_of_N n) /\ n < 128 \/ 128 <= n /\ Forall (fun a => 128 <= N_of_ascii a) (string_bytes c) }.

Lemma scalar1 a : N_of_ascii a < 128 -> scalar (N_of_ascii a) (bytes1 a).
Proof.
  intros Ha. split.
  - unfold encode_char. apply N.ltb_lt in Ha as ->. by rewrite ascii_N_embedding.
  - intros t. unfold bytes1. rewrite string_app_cons. simpl. apply N.ltb_lt in Ha as ->. done.
  - left. by rewrite ascii_N_embedding.
Qed.

Lemma scalar2 a b : between 194 223 a = true -> continues b = true ->
  scalar ((N_of_ascii a - 192) * 64 + cont b) (bytes2 a b).
Proof.
  intros Ha%between_spec Hb%between_spec. unfold cont. split.
  - unfold encode_char. rewrite (proj2 (N.ltb_ge _ 128)), (proj2 (N.ltb_lt _ 2048)) by lia.
    rewrite (ascii_eq_N _ a), (ascii_eq_N _ b) by lia. done.
  - intros t. unfold bytes2. rewrite !string_app_cons. simpl. rewrite (proj2 (N.ltb_ge _ 128)), (proj2 (N.ltb_lt _ 224)) by lia. done.
  - right. split; [lia|]. repeat constructor; lia.
Qed.

Lemma scalar3 a b c : between 224 239 a = true -> second_of_three a b = true -> continues c = true ->
  scalar ((N_of_ascii a - 224) * 4096 + cont b * 64 + cont c) (bytes3 a b c).
Proof.
  intros Ha%between_spec Hb Hc%between_spec. unfold cont.
  assert (128 <= N_of_ascii b <= 191 /\ (N_of_ascii a = 224 -> 160 <= N_of_ascii b)) as [Hb1 Hb2].
  { unfold second_of_three in Hb. destruct (N.eqb_spec (N_of_ascii a) 224); [apply between_spec in Hb; lia|].
    destruct (N.eqb_spec (N_of_ascii a) 237); apply between_spec in Hb; lia. }
  split.
  - unfold encode_char. rewrite (proj2 (N.ltb_ge _ 128)), (proj2 (N.ltb_ge _ 2048)), (proj2 (N.ltb_lt _ 65536)) by lia.
    rewrite (ascii_eq_N _ a), (ascii_eq_N _ b), (ascii_eq_N _ c) by lia. done.
  - intros t. unfold bytes3. rewrite !string_app_cons. simpl.
    rewrite (proj2 (N.ltb_ge _ 128)), (proj2 (N.ltb_ge _ 224)), (proj2 (N.ltb_lt _ 240)) by lia. done.
  - right. split; [lia|]. repeat constructor; lia.
Qed.

Lemma scalar4 a b c d : between 240 244 a = true -> second_of_four a b = true -> continues c = true -> continues d = true ->
  scalar ((N_of_ascii a - 240) * 262144 + cont b * 4096 + cont c * 64 + cont d) (bytes4 a b c d).
Proof.
  intros Ha%between_spec Hb Hc%between_spec Hd%between_spec. unfold cont.
  assert (128 <= N_of_ascii b <= 191 /\ (N_of_ascii a = 240 -> 144 <= N_of_ascii b)) as [Hb1 Hb2].
  { unfold second_of_four in Hb. destruct (N.eqb_spec (N_of_ascii a) 240); [apply between_spec in Hb; lia|].
    destruct (N.eqb_spec (N_of_ascii a) 244); apply between_spec in Hb; lia. }
  split.
  - unfold encode_char. rewrite (proj2 (N.ltb_ge _ 128)), (proj2 (N.ltb_ge _ 2048)), (proj2 (N.ltb_ge _ 65536)) by lia.
    rewrite (ascii_eq_N _ a), (ascii_eq_N _ b), (ascii_eq_N _ c), (ascii_eq_N _ d) by lia. done.
  - intros t. unfold bytes4. rewrite !string_app_cons. simpl.
    rewrite (proj2 (N.ltb_ge _ 128)), (proj2 (N.ltb_ge _ 224)), (proj2 (N.ltb_ge _ 240)) by lia. done.
  - right. split; [lia|]. repeat constructor; lia.
Qed.

Lemma head_char a r c rest : utf8_head a r = HChar c rest -> String a r = c +:+ rest /\ is_char c /\ exists n, scalar n c.
Proof.
  unfold utf8_head at 1. destruct (N.ltb_spec (N_of_ascii a) 128) as [E1|E1].
  { intros [= <- <-]. split_and!; [done| |eexists; by apply scalar1]. exists a, "". split; [done|]. intros t. unfold utf8_head.
    by apply N.ltb_lt in E1 as ->. }
  apply N.ltb_ge in E1. destruct (between 194 223 a) eqn:E2.
  { destruct r as [|b r]; [done|]. destruct (continues b) eqn:Eb; [|done]. intros [= <- <-]. split_and!; [done| |eexists; by apply scalar2].
    exists a, (bytes1 b). split; [done|]. intros t. unfold utf8_head, bytes1. rewrite E1, E2. simpl. by rewrite Eb. }
  destruct (between 224 239 a) eqn:E3.
  { destruct r as [|b [|x r]]; [done|by destruct (second_of_three a b)|]. destruct (second_of_three a b) eqn:Eb; [|done].
    destruct (continues x) eqn:Ec; [|done]. intros [= <- <-]. split_and!; [done| |eexists; by apply scalar3].
    exists a, (bytes2 b x). split; [done|]. intros t. unfold utf8_head, bytes2. rewrite E1, E2, E3. simpl. by rewrite Eb, Ec. }
  destruct (between 240 244 a) eqn:E4; [|done].
  destruct r as [|b [|x [|y r]]]; [done|by destruct (second_of_four a b)|by destruct (second_of_four a b), (continues x)|].
  destruct (second_of_four a b) eqn:Eb; [|done]. destruct (continues x) eqn:Ec; [|done]. destruct (continues y) eqn:Ed; [|done].
  intros [= <- <-]. split_and!; [done| |eexists; by apply scalar4].
  exists a, (bytes3 b x y). split; [done|]. intros t. unfold utf8_head, bytes3. rewrite E1, E2, E3, E4. simpl. by rewrite Eb, Ec, Ed.
Qed.

Lemma char_scalar c : is_char c -> exists n, scalar n c.
Proof. intros (a & r & -> & Hh). by destruct (head_char _ _ _ _ (Hh "")) as (_ & _ & Hn). Qed.

Lemma head_bad a r bad rest : utf8_head a r = HBad bad rest -> String a r = bad +:+ rest /\ bad ≠ "".
Proof. unfold utf8_head. repeat case_match; by intros [= <- <-]. Qed.

(** ** What the split gives *)

Lemma is_char_nonempty c : is_char c -> c ≠ "".
Proof. by intros (a & r & -> & _). Qed.

Lemma split_go_spec fuel s good bad rest :
  (String.length s <= fuel)%nat -> utf8_split_go fuel s = (good, bad, rest) ->
  s = good +:+ bad +:+ rest /\ Utf8 good /\ (bad = "" -> rest = "").
Proof.
  revert s good. induction fuel as [|fuel IH]; intros [|a r] good Hlen Hs; simpl in *; try (injection Hs as <- <- <-; split_and!; [done|constructor|done]); [lia|].
  destruct (utf8_head a r) as [c r'|bad' r'] eqn:E.
  - destruct (utf8_split_go fuel r') as [[good' bad'] rest'] eqn:Er. injection Hs as <- <- <-.
    destruct (head_char _ _ _ _ E) as (Ea & Hc & _).
    assert (String.length r' < String.length (String a r))%nat as Hl.
    { rewrite Ea, length_string_app. apply is_char_nonempty in Hc. destruct c; [done|simpl; lia]. }
    destruct (IH r' good') as (E1 & Hg & Hr); [simpl in Hl; lia|done|]. split_and!; [|by constructor|done].
    rewrite Ea, E1 at 1. by rewrite string_app_assoc.
  - injection Hs as <- <- <-. destruct (head_bad _ _ _ _ E) as [Ea Hne]. split_and!; [by rewrite Ea|constructor|by intros ->].
Qed.

Lemma utf8_split_spec s good bad rest :
  utf8_split s = (good, bad, rest) -> s = good +:+ bad +:+ rest /\ Utf8 good /\ (bad = "" -> rest = "").
Proof. by apply split_go_spec. Qed.

(** The split of text is all of it. *)
Lemma split_go_valid fuel s : Utf8 s -> (String.length s <= fuel)%nat -> utf8_split_go fuel s = (s, "", "").
Proof.
  intros Hs. revert fuel. induction Hs as [|c rest (a & r & -> & Hh) Hrest IH]; intros fuel Hl; [by destruct fuel|].
  rewrite string_app_cons in Hl |- *. destruct fuel as [|fuel]; [simpl in Hl; lia|]. simpl. rewrite Hh.
  rewrite IH; [done|]. simpl in Hl. rewrite length_string_app in Hl. lia.
Qed.

Lemma utf8_split_valid s : Utf8 s -> utf8_split s = (s, "", "").
Proof. intros Hs. by apply split_go_valid. Qed.

Lemma utf8_app s t : Utf8 s -> Utf8 t -> Utf8 (s +:+ t).
Proof. induction 1 as [|c rest Hc _ IH]; intros Ht; [done|]. rewrite <- string_app_assoc. constructor; [done|by apply IH]. Qed.

Lemma utf8_chars_app s t : Utf8 s -> chars (s +:+ t) = chars s ++ chars t.
Proof.
  induction 1 as [|c rest Hc _ IH]; [done|]. destruct (char_scalar _ Hc) as [n Hn].
  rewrite <- string_app_assoc, !(sc_decode _ _ Hn). simpl. by rewrite IH.
Qed.

Lemma utf8_of_chars s : Utf8 s -> of_chars (chars s) = s.
Proof.
  induction 1 as [|c rest Hc _ IH]; [done|]. destruct (char_scalar _ Hc) as [n Hn]. rewrite (sc_decode _ _ Hn). simpl. by rewrite IH, (sc_encode _ _ Hn).
Qed.

(** [from_utf8_lossy] keeps what is text. *)
Lemma lossy_valid s : Utf8 s -> from_utf8_lossy s = s.
Proof. intros Hs. unfold from_utf8_lossy. cbn [lossy_go]. by rewrite utf8_split_valid. Qed.

Lemma is_char_ascii a : N_of_ascii a < 128 -> is_char (bytes1 a).
Proof. intros Ha. exists a, "". split; [done|]. intros t. unfold utf8_head. by apply N.ltb_lt in Ha as ->. Qed.

Lemma utf8_ascii s : Forall (fun a => N_of_ascii a < 128) (string_bytes s) -> Utf8 s.
Proof.
  induction s as [|a s IH]; simpl; [constructor|]. intros [Ha Hs]%Forall_cons. change (String a s) with (bytes1 a +:+ s).
  constructor; [by apply is_char_ascii|by apply IH].
Qed.
