(* ===== verification/Lines.v ===== *)
(** * Lines of a serial port: [crates/kanna-daemon/src/serial/lines.rs]

    The bytes that a port sends are split into lines ([Splitter]) and shown as text
    ([escape]).  The two theorems: however the bytes arrive, the lines are those of the
    whole stream, and what is shown can be read back to the bytes. *)

From S2P Require Import Prelude Text PipeText Json Utf8.
From Stdlib Require Import Ascii ZifyN.

Definition LONGEST : N := (16 * 1024)%N.

Inductive Dir := Rx | Tx | Event.
Definition mark (d : Dir) : string := match d with Rx => "<" | Tx => ">" | Event => "#" end.

Record Row := mkRow { row_seq : N; row_t : Z; row_dir : Dir; row_text : string; row_level : option N }.

Definition row_to_json (r : Row) : Value :=
  JObject ([("n", JNumber (PosInt (row_seq r))); ("t", from_i64 (row_t r)); ("d", JString (mark (row_dir r))); ("text", JString (row_text r))]
           ++ match row_level r with Some level => [("l", JString (encode_char level))] | None => [] end).

Record Line := mkLine { ln_t : Z; ln_bytes : list ascii }.
Record Splitter := mkSplitter { sp_partial : option Line; sp_after_cr : bool }.

Definition LF : ascii := ascii_of_N 10.
Definition CR : ascii := ascii_of_N 13.

(** One byte of [feed] *)
Definition feed_byte (t : Z) (byte : ascii) (s : Splitter) : list Line * Splitter :=
  if sp_after_cr s && bool_decide (byte = LF) then ([], mkSplitter (sp_partial s) false)
  else if decide (byte = LF) then ([default (mkLine t []) (sp_partial s)], mkSplitter None false)
  else if decide (byte = CR) then ([default (mkLine t []) (sp_partial s)], mkSplitter None true)
  else
    let line := default (mkLine t []) (sp_partial s) in
    let line := mkLine (ln_t line) (ln_bytes line ++ [byte]) in
    if (LONGEST <=? N.of_nat (length (ln_bytes line)))%N then ([line], mkSplitter None false) else ([], mkSplitter (Some line) false).

Fixpoint feed (t : Z) (data : list ascii) (s : Splitter) : list Line * Splitter :=
  match data with
  | [] => ([], s)
  | byte :: data => let '(out, s) := feed_byte t byte s in let '(out', s) := feed t data s in (out ++ out', s)
  end.

Definition splitter_default : Splitter := mkSplitter None false.
Definition take_partial (s : Splitter) : option Line * Splitter := (sp_partial s, mkSplitter None (sp_after_cr s)).
Definition reset (s : Splitter) : Splitter := mkSplitter None false.

(** ** [escape] *)

Definition lower_hex (n : N) : ascii := ascii_of_N (if (n <? 10)%N then 48 + n else 87 + n)%N.
(** [format!("\\x{byte:02x}")] *)
Definition hex_escape (a : ascii) : string := "\x" +:+ String (lower_hex (N_of_ascii a / 16)) (String (lower_hex (N_of_ascii a mod 16)) "").

Fixpoint hex_escapes (s : string) : string := match s with EmptyString => "" | String a s => hex_escape a +:+ hex_escapes s end.

Definition escape_char (c : N) : string :=
  if decide (c = 92%N) then "\\"
  else if decide (c = 9%N \/ c = 27%N) then encode_char c
  else if ((c <? 32) || (c =? 127) || (128 <=? c) && (c <? 160))%N then hex_escapes (encode_char c)
  else encode_char c.

Fixpoint escape_chars (cs : list N) : string := match cs with [] => "" | c :: cs => escape_char c +:+ escape_chars cs end.

Fixpoint escape_go (fuel : nat) (rest : string) : string :=
  match fuel with
  | O => ""
  | S fuel =>
    if str_is_empty rest then ""
    else let '(valid, bad, rest) := utf8_split rest in escape_chars (chars valid) +:+ hex_escapes bad +:+ escape_go fuel rest
  end.
Definition escape (bytes : list ascii) : string := escape_go (length bytes) (String.string_of_list_ascii bytes).

(** ** The lines of a stream

    The reference: each byte with the time it came.  Line ends are made one LF, the bytes are
    split there, and each line is cut into pieces of at most [LONGEST]. *)

Definition Timed : Type := Z * ascii.

(** CR LF, and a CR alone, become one LF of the CR's time. *)
Fixpoint unify_ends (l : list Timed) : list Timed :=
  match l with
  | [] => []
  | (t, a) :: l =>
    if decide (a = CR) then (t, LF) :: match l with (u, b) :: l' => if decide (b = LF) then unify_ends l' else unify_ends l | [] => [] end
    else (t, a) :: unify_ends l
  end.

(** The lines that end, with the time of their end, and what is left *)
Fixpoint split_ends (l : list Timed) : list (list Timed * Z) * list Timed :=
  match l with
  | [] => ([], [])
  | (t, a) :: l =>
    let '(ended, rest) := split_ends l in
    if decide (a = LF) then (([], t) :: ended, rest)
    else match ended with
         | [] => ([], (t, a) :: rest)
         | (line, u) :: ended => (((t, a) :: line, u) :: ended, rest)
         end
  end.

(** Pieces of [n], and what is left *)
Fixpoint cut_go (fuel : nat) (n : nat) (l : list Timed) : list (list Timed) * list Timed :=
  match fuel with
  | O => ([], l)
  | S fuel => if decide (n <= length l)%nat then let '(pieces, rest) := cut_go fuel n (drop n l) in (take n l :: pieces, rest) else ([], l)
  end.
Definition cut (l : list Timed) : list (list Timed) * list Timed := cut_go (length l) (N.to_nat LONGEST) l.

(** A line has the time of its first byte, and one without bytes that of its end. *)
Definition line_of (ended : Z) (l : list Timed) : Line := mkLine (match l with (t, _) :: _ => t | [] => ended end) (map snd l).
Definition lines_of (ended : list Timed * Z) : list Line :=
  let '(pieces, rest) := cut (fst ended) in map (line_of (snd ended)) (pieces ++ [rest]).

Definition stream_lines (l : list Timed) : list Line * list Timed :=
  let '(ended, rest) := split_ends (unify_ends l) in
  let '(pieces, rest) := cut rest in
  (flat_map lines_of ended ++ map (line_of 0) pieces, rest).

(** ** The splitter gives those lines *)

Definition plain (x : Timed) : Prop := snd x ≠ LF /\ snd x ≠ CR.

Lemma longest_pos : (0 < N.to_nat LONGEST)%nat.
Proof. unfold LONGEST. lia. Qed.

Lemma unify_plain p l : Forall plain p -> unify_ends (p ++ l) = p ++ unify_ends l.
Proof.
  induction 1 as [|[t a] p [_ Hcr] _ IH]; [done|]. simpl. rewrite decide_False by done. by rewrite IH.
Qed.

Lemma split_plain p l ended rest :
  Forall plain p -> split_ends l = (ended, rest) ->
  split_ends (p ++ l) = match ended with [] => ([], p ++ rest) | (line, u) :: ended => ((p ++ line, u) :: ended, rest) end.
Proof.
  intros Hp Hl. induction Hp as [|[t a] p [Hlf _] _ IH]; simpl; [rewrite Hl; by destruct ended as [|[? ?]]|].
  rewrite IH. destruct ended as [|[line u] ended]; by rewrite decide_False.
Qed.

Lemma cut_go_short fuel n l : (length l < n)%nat -> cut_go fuel n l = ([], l).
Proof. intros Hl. destruct fuel; [done|]. simpl. by rewrite decide_False by lia. Qed.

Lemma cut_go_fuel fuel fuel' n l : (0 < n)%nat -> (length l <= fuel)%nat -> (length l <= fuel')%nat -> cut_go fuel n l = cut_go fuel' n l.
Proof.
  intros Hn. revert fuel' l. induction fuel as [|fuel IH]; intros [|fuel'] l H1 H2; simpl; try done.
  - by rewrite decide_False by lia.
  - by rewrite decide_False by lia.
  - case_decide; [|done]. rewrite (IH fuel'); [done| |]; rewrite length_drop; lia.
Qed.

Lemma cut_app_full p l : length p = N.to_nat LONGEST -> cut (p ++ l) = (p :: (cut l).1, (cut l).2).
Proof.
  intros Hp. pose proof longest_pos as Hpos. unfold cut. rewrite length_app. destruct (length p + length l)%nat as [|fuel] eqn:E; [lia|].
  cbn [cut_go]. rewrite decide_True by (rewrite length_app; lia).
  rewrite take_app_length', drop_app_length' by done. rewrite (cut_go_fuel fuel (length l)) by lia. by destruct (cut_go _ _ l).
Qed.

Lemma cut_short p : (length p < N.to_nat LONGEST)%nat -> cut p = ([], p).
Proof. apply cut_go_short. Qed.

(** What is split off the front of a stream *)
Definition add_line (line : Line) (r : list Line * list Timed) : list Line * list Timed := (line :: r.1, r.2).

Lemma stream_short p : Forall plain p -> (length p < N.to_nat LONGEST)%nat -> stream_lines p = ([], p).
Proof.
  intros Hp Hl. unfold stream_lines. rewrite <- (app_nil_r p), unify_plain by done. simpl.
  rewrite (split_plain p [] [] []) by done. rewrite app_nil_r. by rewrite cut_short.
Qed.

Lemma stream_end p t l : Forall plain p -> (length p < N.to_nat LONGEST)%nat -> stream_lines (p ++ (t, LF) :: l) = add_line (line_of t p) (stream_lines l).
Proof.
  intros Hp Hl. unfold stream_lines. rewrite unify_plain by done. change (unify_ends ((t, LF) :: l)) with ((t, LF) :: unify_ends l).
  destruct (split_ends (unify_ends l)) as [ended rest] eqn:E.
  rewrite (split_plain p ((t, LF) :: unify_ends l) (([], t) :: ended) rest); [|done|simpl; by rewrite E].
  destruct (cut rest) as [pieces rest']. simpl. unfold lines_of at 1. simpl. rewrite app_nil_r, cut_short by done. done.
Qed.

(** A leading LF belongs to the CR before. *)
Definition after_cr (cr : bool) (l : list Timed) : list Timed :=
  match l with (t, a) :: l' => if cr && bool_decide (a = LF) then l' else l | [] => [] end.

Lemma stream_cr p t l : Forall plain p -> (length p < N.to_nat LONGEST)%nat -> stream_lines (p ++ (t, CR) :: l) = add_line (line_of t p) (stream_lines (after_cr true l)).
Proof.
  intros Hp Hl. rewrite <- stream_end by done. unfold stream_lines. rewrite !unify_plain by done.
  assert (unify_ends ((t, CR) :: l) = unify_ends ((t, LF) :: after_cr true l)) as ->; [|done].
  change (unify_ends ((t, LF) :: after_cr true l)) with ((t, LF) :: unify_ends (after_cr true l)). destruct l as [|[u b] l]; [done|].
  change ((t, LF) :: (if decide (b = LF) then unify_ends l else unify_ends ((u, b) :: l)) = (t, LF) :: unify_ends (after_cr true ((u, b) :: l))).
  f_equal. unfold after_cr. simpl andb. case_decide; [by rewrite bool_decide_eq_true_2|by rewrite bool_decide_eq_false_2].
Qed.

Lemma stream_full p l : Forall plain p -> length p = N.to_nat LONGEST -> stream_lines (p ++ l) = add_line (line_of 0 p) (stream_lines l).
Proof.
  intros Hp Hl. pose proof longest_pos. unfold stream_lines. rewrite unify_plain by done. destruct (split_ends (unify_ends l)) as [ended rest] eqn:E.
  rewrite (split_plain p _ ended rest) by done. destruct ended as [|[line u] ended].
  - rewrite cut_app_full by done. destruct (cut rest) as [pieces rest']. done.
  - destruct (cut rest) as [pieces rest']. unfold add_line. simpl. f_equal. unfold lines_of at 1 3. simpl. rewrite cut_app_full by done.
    destruct (cut line) as [ps r]. simpl. f_equal. unfold line_of. destruct p as [|[? ?] p]; [simpl in Hl; lia|done].
Qed.

(** The bytes that a splitter holds *)
Definition holds (p : list Timed) (s : Splitter) : Prop :=
  sp_partial s = match p with [] => None | _ => Some (line_of 0 p) end /\ Forall plain p /\ (length p < N.to_nat LONGEST)%nat.

Fixpoint feed_timed (l : list Timed) (s : Splitter) : list Line * Splitter :=
  match l with
  | [] => ([], s)
  | (t, byte) :: l => let '(out, s) := feed_byte t byte s in let '(out', s) := feed_timed l s in (out ++ out', s)
  end.

Lemma holds_line p s t : holds p s -> default (mkLine t []) (sp_partial s) = line_of t p.
Proof. intros (-> & _). by destruct p as [|[? ?] ?]. Qed.

Lemma feed_timed_spec l p s :
  holds p s -> exists s', feed_timed l s = ((stream_lines (p ++ after_cr (sp_after_cr s) l)).1, s') /\ holds (stream_lines (p ++ after_cr (sp_after_cr s) l)).2 s'.
Proof.
  revert p s. induction l as [|[t a] l IH]; intros p s Hp.
  { exists s. simpl. rewrite app_nil_r. pose proof Hp as (_ & Hpl & Hlen). by rewrite stream_short by done. }
  pose proof Hp as (_ & Hpl & Hlen). cbn [feed_timed after_cr]. unfold feed_byte. rewrite (holds_line p s t Hp).
  destruct (sp_after_cr s && bool_decide (a = LF)) eqn:Ecr.
  { destruct (IH p (mkSplitter (sp_partial s) false)) as (s' & Hf & Hh); [exact Hp|]. rewrite Hf. exists s'.
    replace (after_cr _ l) with l in * by by destruct l as [|[? ?] ?]. done. }
  assert (forall cr, holds [] (mkSplitter None cr)) as Hnone by (intros cr; split_and!; [done|constructor|apply longest_pos]).
  assert (after_cr false l = l) as Hff by by destruct l as [|[? ?] ?].
  destruct (decide (a = LF)) as [->|Hlf].
  { rewrite stream_end by done. destruct (IH [] (mkSplitter None false)) as (s' & Hf & Hh); [done|]. cbn [sp_after_cr] in *. rewrite Hff in *. rewrite Hf. by exists s'. }
  destruct (decide (a = CR)) as [->|Hcr].
  { rewrite stream_cr by done. destruct (IH [] (mkSplitter None true)) as (s' & Hf & Hh); [done|]. cbn [sp_after_cr] in *. rewrite Hf. by exists s'. }
  change (p ++ (t, a) :: l) with (p ++ [(t, a)] ++ l). rewrite app_assoc.
  assert (Forall plain (p ++ [(t, a)])) as Hpl' by (apply Forall_app; split; [done|by apply Forall_singleton]).
  assert (mkLine (ln_t (line_of t p)) (ln_bytes (line_of t p) ++ [a]) = line_of 0 (p ++ [(t, a)])) as ->.
  { unfold line_of. simpl. rewrite map_app. by destruct p as [|[? ?] ?]. }
  assert (length (ln_bytes (line_of 0 (p ++ [(t, a)]))) = length (p ++ [(t, a)])) as -> by (unfold line_of; simpl; by rewrite length_map).
  assert (length (p ++ [(t, a)]) = S (length p)) as El by (rewrite length_app; simpl; lia).
  destruct (N.leb_spec LONGEST (N.of_nat (length (p ++ [(t, a)])))) as [Hle|Hlt].
  - rewrite stream_full; [|done|unfold Timed in *; lia]. destruct (IH [] (mkSplitter None false)) as (s' & Hf & Hh); [done|]. cbn [sp_after_cr] in *. rewrite Hff in *. rewrite Hf. by exists s'.
  - destruct (IH (p ++ [(t, a)]) (mkSplitter (Some (line_of 0 (p ++ [(t, a)]))) false)) as (s' & Hf & Hh).
    { split_and!; [by destruct p as [|[? ?] ?]|done|lia]. }
    cbn [sp_after_cr] in *. rewrite Hff in *. rewrite Hf. by exists s'.
Qed.

Lemma feed_is_timed t data s : feed t data s = feed_timed (map (pair t) data) s.
Proof.
  revert s. induction data as [|a data IH]; intros s; [done|]. simpl. destruct (feed_byte t a s) as [out s1]. by rewrite IH.
Qed.

Lemma feed_timed_app l k s : feed_timed (l ++ k) s = let '(out, s1) := feed_timed l s in let '(out', s2) := feed_timed k s1 in (out ++ out', s2).
Proof.
  revert s. induction l as [|[t a] l IH]; intros s; simpl; [by destruct (feed_timed k s)|]. destruct (feed_byte t a s) as [out s1]. rewrite IH.
  destruct (feed_timed l s1) as [out1 s2]. destruct (feed_timed k s2) as [out2 s3]. by rewrite app_assoc.
Qed.

(** Chunks, each at its time, one after another *)
Fixpoint feed_all (chunks : list (Z * list ascii)) (s : Splitter) : list Line * Splitter :=
  match chunks with
  | [] => ([], s)
  | (t, data) :: chunks => let '(out, s) := feed t data s in let '(out', s) := feed_all chunks s in (out ++ out', s)
  end.
Definition stream_of (chunks : list (Z * list ascii)) : list Timed := flat_map (fun '(t, data) => map (pair t) data) chunks.

Lemma feed_all_timed chunks s : feed_all chunks s = feed_timed (stream_of chunks) s.
Proof.
  revert s. induction chunks as [|[t data] chunks IH]; intros s; [done|]. simpl. rewrite feed_timed_app, feed_is_timed.
  destruct (feed_timed (map (pair t) data) s) as [out s1]. by rewrite IH.
Qed.

(** C33 However the bytes of a port arrive in chunks, the lines are those of the whole stream: LF,
    CR LF and a CR alone end a line, a line of 16 KiB is cut, and each line has the time of its
    first byte, or of its end where it has none.  What is partial is the rest, without an end
    and shorter than that. *)
Theorem splitter_exact chunks :
  let '(lines, s) := feed_all chunks splitter_default in
  let '(expected, rest) := stream_lines (stream_of chunks) in
  lines = expected /\ map ln_bytes (option_list (sp_partial s)) = (if decide (rest = []) then [] else [map snd rest]) /\
  Forall plain rest /\ (length rest < N.to_nat LONGEST)%nat.
Proof.
  rewrite feed_all_timed. destruct (feed_timed_spec (stream_of chunks) [] splitter_default) as (s' & Hf & Hh).
  { split_and!; [done|constructor|apply longest_pos]. }
  assert (after_cr (sp_after_cr splitter_default) (stream_of chunks) = stream_of chunks) as E by by destruct (stream_of chunks) as [|[? ?] ?].
  rewrite E in Hf, Hh. simpl in Hf, Hh. rewrite Hf. destruct (stream_lines _) as [expected rest]. simpl in *. destruct Hh as (Hp & Hpl & Hl).
  split_and!; [done| |done|done]. rewrite Hp. case_decide as Hr; [by subst|]. by destruct rest as [|[? ?] ?].
Qed.

(** ** What is shown reads back *)

Definition backslash : ascii := ascii_of_N 92.

Definition lower_hex_value (a : ascii) : option N :=
  let n := N_of_ascii a in
  if ((48 <=? n) && (n <=? 57))%N then Some (n - 48)%N else if ((97 <=? n) && (n <=? 102))%N then Some (n - 87)%N else None.

(** The reverse of [escape] *)
Fixpoint unescape (s : string) : string :=
  match s with
  | EmptyString => ""
  | String a r =>
    if decide (a = backslash) then
      match r with
      | String b r1 =>
        if decide (b = backslash) then String a (unescape r1)
        else if decide (b = "x"%char) then
          match r1 with
          | String h (String l r2) =>
            match lower_hex_value h, lower_hex_value l with
            | Some h, Some l => String (ascii_of_N (h * 16 + l)) (unescape r2)
            | _, _ => String a (unescape r)
            end
          | _ => String a (unescape r)
          end
        else String a (unescape r)
      | EmptyString => String a ""
      end
    else String a (unescape r)
  end.

Lemma lower_hex_read n : (n < 16)%N -> lower_hex_value (lower_hex n) = Some n /\ (N_of_ascii (lower_hex n) < 127)%N /\ (32 <= N_of_ascii (lower_hex n))%N.
Proof.
  intros Hn. assert (forallb (fun n => let n := N.of_nat n in bool_decide (lower_hex_value (lower_hex n) = Some n) && (N_of_ascii (lower_hex n) <? 127)%N
    && (32 <=? N_of_ascii (lower_hex n))%N) (seq 0 16) = true) as Hall by by vm_compute.
  apply forallb_forall with (x := N.to_nat n) in Hall; [|apply in_seq; lia]. rewrite N2Nat.id in Hall.
  apply andb_true_iff in Hall as [[H1%bool_decide_eq_true H2%N.ltb_lt]%andb_true_iff H3%N.leb_le]. done.
Qed.

Lemma byte_halves a : (N_of_ascii a / 16 < 16 /\ N_of_ascii a mod 16 < 16 /\ (N_of_ascii a / 16) * 16 + N_of_ascii a mod 16 = N_of_ascii a)%N.
Proof. pose proof (N_ascii_bounded a). pose proof (N.div_mod (N_of_ascii a) 16). pose proof (N.mod_lt (N_of_ascii a) 16). split_and!; [apply N.Div0.div_lt_upper_bound|..]; lia. Qed.

Lemma unescape_hex a t : unescape (hex_escape a +:+ t) = String a (unescape t).
Proof.
  destruct (byte_halves a) as (Hh & Hl & E). unfold hex_escape. rewrite <- string_app_assoc, !string_app_cons.
  change (unescape (String backslash (String "x"%char (String (lower_hex (N_of_ascii a / 16)) (String (lower_hex (N_of_ascii a mod 16)) t)))) = String a (unescape t)).
  cbn [unescape]. rewrite decide_True by done. destruct (decide ("x"%char = backslash)) as [Ex|_]; [discriminate Ex|]. rewrite decide_True by done.
  rewrite (proj1 (lower_hex_read _ Hh)), (proj1 (lower_hex_read _ Hl)). by rewrite E, ascii_N_embedding.
Qed.

Lemma unescape_hexes b t : unescape (hex_escapes b +:+ t) = b +:+ unescape t.
Proof. induction b as [|a b IH]; [done|]. cbn [hex_escapes]. by rewrite <- string_app_assoc, unescape_hex, IH. Qed.

Lemma unescape_plain c t : Forall (fun a => a ≠ backslash) (string_bytes c) -> unescape (c +:+ t) = c +:+ unescape t.
Proof.
  induction c as [|a c IH]; [done|]. simpl. intros [Ha Hc]%Forall_cons. rewrite !string_app_cons. cbn [unescape]. rewrite decide_False by done. by rewrite IH.
Qed.

Lemma scalar_plain n c : scalar n c -> n ≠ 92%N -> Forall (fun a => a ≠ backslash) (string_bytes c).
Proof.
  intros Hs Hn. destruct (sc_high _ _ Hs) as [[-> Hlt]|[_ Hhigh]].
  - apply Forall_singleton. intros E. apply Hn. apply (f_equal N_of_ascii) in E. rewrite N_ascii_embedding in E by lia. done.
  - eapply Forall_impl; [exact Hhigh|]. intros a Ha -> . simpl in Ha. by vm_compute in Ha.
Qed.

Lemma unescape_char n c t : scalar n c -> unescape (escape_char n +:+ t) = c +:+ unescape t.
Proof.
  intros Hs. unfold escape_char. case_decide as H1.
  { subst n. assert (c = bytes1 backslash) as -> by (rewrite <- (sc_encode _ _ Hs); by vm_compute). done. }
  rewrite (sc_encode _ _ Hs). pose proof (scalar_plain _ _ Hs H1). case_decide; [by apply unescape_plain|].
  destruct (_ || _); [apply unescape_hexes|by apply unescape_plain].
Qed.

Lemma unescape_chars g t : Utf8 g -> unescape (escape_chars (chars g) +:+ t) = g +:+ unescape t.
Proof.
  induction 1 as [|c rest Hc _ IH]; [done|]. destruct (char_scalar _ Hc) as [n Hn]. rewrite (sc_decode _ _ Hn). cbn [escape_chars].
  by rewrite <- !string_app_assoc, (unescape_char n c) , IH.
Qed.

(** ** What is shown is text *)

Definition may_show (c : N) : Prop := is_control c = false \/ c = 9%N \/ c = 27%N.
Definition shown (s : string) : Prop := Utf8 s /\ Forall may_show (chars s).

Lemma shown_app s t : shown s -> shown t -> shown (s +:+ t).
Proof. intros [Hs1 Hs2] [Ht1 Ht2]. split; [by apply utf8_app|]. rewrite utf8_chars_app by done. by apply Forall_app. Qed.

Lemma shown_ascii a : (32 <= N_of_ascii a < 127)%N -> shown (bytes1 a).
Proof.
  intros Ha. split; [apply utf8_ascii, Forall_singleton; lia|]. pose proof (sc_decode _ _ (scalar1 a ltac:(lia)) "") as E. rewrite string_app_nil in E. rewrite E.
  apply Forall_singleton. left. unfold is_control. rewrite (proj2 (N.leb_gt _ 31)), (proj2 (N.leb_gt 127 _)) by lia. done.
Qed.

Lemma shown_nil : shown "".
Proof. split; constructor. Qed.

Lemma shown_hexes b : shown (hex_escapes b).
Proof.
  induction b as [|a b IH]; [apply shown_nil|]. cbn [hex_escapes]. apply shown_app; [|done]. unfold hex_escape.
  destruct (byte_halves a) as (Hh & Hl & _). apply lower_hex_read in Hh as (_ & Hh). apply lower_hex_read in Hl as (_ & Hl).
  apply (shown_app "\x"); [split; [apply utf8_ascii; by repeat constructor|by repeat constructor; left]|].
  apply (shown_app (bytes1 _) (bytes1 _)); apply shown_ascii; lia.
Qed.

Lemma shown_char n c : is_char c -> scalar n c -> shown (escape_char n).
Proof.
  intros Hc Hs. unfold escape_char. case_decide; [apply (shown_app (bytes1 _) (bytes1 _)); by apply shown_ascii|]. rewrite (sc_encode _ _ Hs).
  assert (Utf8 c) as Hu by (rewrite <- (string_app_nil c); constructor; [done|constructor]).
  pose proof (sc_decode _ _ Hs "") as E. rewrite string_app_nil in E.
  assert (may_show n -> shown c) as Hshow by (intros Hn; split; [done|rewrite E; by apply Forall_singleton]).
  case_decide; [apply Hshow; by right|]. destruct (_ || _) eqn:Eb; [apply shown_hexes|]. apply Hshow. left. unfold is_control.
  apply orb_false_iff in Eb as [[E1%N.ltb_ge E2%N.eqb_neq]%orb_false_iff E3%andb_false_iff]. rewrite (proj2 (N.leb_gt _ 31)) by lia.
  destruct (N.leb_spec 127 n); [|done]. simpl. apply N.leb_gt. destruct E3 as [E3%N.leb_gt|E3%N.ltb_ge]; lia.
Qed.

Lemma shown_chars g : Utf8 g -> shown (escape_chars (chars g)).
Proof.
  induction 1 as [|c rest Hc _ IH]; [apply shown_nil|]. destruct (char_scalar _ Hc) as [n Hn]. rewrite (sc_decode _ _ Hn). cbn [escape_chars].
  apply shown_app; [by apply (shown_char n c)|done].
Qed.

Lemma escape_go_spec fuel s : (String.length s <= fuel)%nat -> unescape (escape_go fuel s) = s /\ shown (escape_go fuel s).
Proof.
  revert s. induction fuel as [|fuel IH]; intros s Hl; simpl; [destruct s; [split; [done|apply shown_nil]|simpl in Hl; lia]|].
  unfold str_is_empty. case_bool_decide as He; [subst; split; [done|apply shown_nil]|]. destruct (utf8_split s) as [[good bad] rest] eqn:E.
  destruct (utf8_split_spec _ _ _ _ E) as (Es & Hg & Hr). destruct (IH rest) as [Hu Hs].
  { rewrite Es, !length_string_app in Hl. destruct good as [|? ?], bad as [|? ?]; simpl in *; try lia; rewrite Hr by done; simpl; lia. }
  split; [rewrite unescape_chars, unescape_hexes, Hu by done; done|]. apply shown_app; [by apply shown_chars|]. by apply shown_app; [apply shown_hexes|].
Qed.

Lemma length_of_bytes bytes : String.length (String.string_of_list_ascii bytes) = length bytes.
Proof. induction bytes as [|a bytes IH]; simpl; [done|]. by rewrite IH. Qed.

(** Whatever bytes a port sends, what is shown for them is text without control characters but
    tab and escape, and reads back to the same bytes: no two lines are shown alike. *)
Theorem escape_roundtrip bytes : String.list_ascii_of_string (unescape (escape bytes)) = bytes /\ shown (escape bytes).
Proof.
  unfold escape. destruct (escape_go_spec (length bytes) (String.string_of_list_ascii bytes)) as [Hu Hs]; [by rewrite length_of_bytes|].
  split; [|done]. rewrite Hu. apply String.list_ascii_of_string_of_list_ascii.
Qed.

(** A line of exactly [LONGEST] bytes is followed by an empty one, for its own end. *)
Lemma longest_line_splits t data :
  Forall (fun a => a ≠ LF /\ a ≠ CR) data -> length data = N.to_nat LONGEST ->
  map (fun l => length (ln_bytes l)) (feed t (data ++ [LF]) splitter_default).1 = [N.to_nat LONGEST; 0%nat].
Proof.
  intros Hd Hl. rewrite feed_is_timed, map_app. set (p := map (pair t) data).
  assert (Forall plain p) as Hp by (apply Forall_map; by eapply Forall_impl). assert (length p = N.to_nat LONGEST) as Hlp by (unfold p; by rewrite length_map).
  destruct (feed_timed_spec (p ++ [(t, LF)]) [] splitter_default) as (s' & Hf & _).
  { split_and!; [done|constructor|apply longest_pos]. }
  assert (after_cr (sp_after_cr splitter_default) (p ++ [(t, LF)]) = p ++ [(t, LF)]) as E by (by destruct (p ++ [(t, LF)]) as [|[? ?] ?]).
  rewrite E in Hf. cbn [app] in Hf. cbn [map]. rewrite Hf, stream_full by done.
  pose proof (stream_end [] t [] (List.Forall_nil _) longest_pos) as He. cbn [app] in He. rewrite He. cbn. rewrite length_map. by rewrite Hlp.
Qed.
