(* ===== verification/Patch.v ===== *)
(** * Diffs: [crates/kanna-diff/src/patch.rs]

    The text of [git diff] is read line by line into files, hunks and lines, numbered on both
    sides.  Numbers are [u32]: a sum that overflows is a panic. *)

From S2P Require Import Prelude Text Json Utf8.
From Stdlib Require Import Ascii.

(** ** Data *)

Inductive Status := Modified | Added | Deleted | Renamed.
Definition letter (s : Status) : string := match s with Modified => "M" | Added => "A" | Deleted => "D" | Renamed => "R" end.

Inductive Kind := KContext | KAdded | KRemoved.
#[export] Instance Kind_eq_dec : EqDecision Kind.
Proof. solve_decision. Defined.

Record Line := mkLine { ln_kind : Kind; ln_text : string; ln_old : option N; ln_new : option N }.

Record Hunk := mkHunk { hu_old_start : N; hu_new_start : N; hu_scope : string; hu_lines : list Line }.

(** [as u32] *)
Definition as_u32 (n : N) : N := (n mod 2 ^ 32)%N.
Definition inc_u32 (n : N) : res N := if (n <? u32_max)%N then Ok (n + 1)%N else Panic.
Definition add_u32 (a b : N) : res N := if (a + b <=? u32_max)%N then Ok (a + b)%N else Panic.

Definition old_end (h : Hunk) : res N :=
  add_u32 (hu_old_start h) (as_u32 (N.of_nat (length (retain (fun l => bool_decide (ln_kind l ≠ KAdded)) (hu_lines h))))).

Inductive Fold := LockFile | Generated | Large (lines : N).

(** A comma before each group of three digits from the right *)
Fixpoint thousands_go (digits : string) : string :=
  match digits with
  | EmptyString => ""
  | String c rest =>
    let left_ := String.length rest in
    String c (if (0 <? left_)%nat && (left_ mod 3 =? 0)%nat then "," +:+ thousands_go rest else thousands_go rest)
  end.
Definition thousands (n : N) : string := thousands_go (pretty n).

Definition fold_message (f : Fold) (path : string) : string :=
  let name := last_part "/" path in
  match f with
  | LockFile => name +:+ " is a lock file: not shown."
  | Generated => name +:+ " is generated: not shown."
  | Large lines => thousands lines +:+ " changed lines: not shown."
  end.
Definition fold_name (f : Fold) : string := match f with LockFile => "lock" | Generated => "generated" | Large _ => "large" end.

Record File := mkFile {
  fl_path : string;
  fl_old_path : option string;
  fl_status : Status;
  fl_added : N;
  fl_removed : N;
  fl_binary : bool;
  fl_untracked : bool;
  fl_fold : option Fold;
  fl_hunks : list Hunk }.

Definition set_path (f : File) (x : string) : File := mkFile x (fl_old_path f) (fl_status f) (fl_added f) (fl_removed f) (fl_binary f) (fl_untracked f) (fl_fold f) (fl_hunks f).
Definition set_old_path (f : File) (x : option string) : File := mkFile (fl_path f) x (fl_status f) (fl_added f) (fl_removed f) (fl_binary f) (fl_untracked f) (fl_fold f) (fl_hunks f).
Definition set_status (f : File) (x : Status) : File := mkFile (fl_path f) (fl_old_path f) x (fl_added f) (fl_removed f) (fl_binary f) (fl_untracked f) (fl_fold f) (fl_hunks f).
Definition set_counts (f : File) (x y : N) : File := mkFile (fl_path f) (fl_old_path f) (fl_status f) x y (fl_binary f) (fl_untracked f) (fl_fold f) (fl_hunks f).
Definition set_binary (f : File) (x : bool) : File := mkFile (fl_path f) (fl_old_path f) (fl_status f) (fl_added f) (fl_removed f) x (fl_untracked f) (fl_fold f) (fl_hunks f).
Definition set_untracked (f : File) (x : bool) : File := mkFile (fl_path f) (fl_old_path f) (fl_status f) (fl_added f) (fl_removed f) (fl_binary f) x (fl_fold f) (fl_hunks f).
Definition set_fold (f : File) (x : option Fold) : File := mkFile (fl_path f) (fl_old_path f) (fl_status f) (fl_added f) (fl_removed f) (fl_binary f) (fl_untracked f) x (fl_hunks f).
Definition set_hunks (f : File) (x : list Hunk) : File := mkFile (fl_path f) (fl_old_path f) (fl_status f) (fl_added f) (fl_removed f) (fl_binary f) (fl_untracked f) (fl_fold f) x.

Definition file_new (path : string) (status : Status) : File := mkFile path None status 0 0 false false None [].

Definition opt_u32 (n : option N) : Value := match n with Some n => from_usize n | None => JNull end.
Definition line_to_json (l : Line) : Value :=
  JArray [JString (match ln_kind l with KContext => " " | KAdded => "+" | KRemoved => "-" end); JString (ln_text l); opt_u32 (ln_old l); opt_u32 (ln_new l)].
Definition hunk_to_json (h : Hunk) : Value :=
  obj [("old", from_usize (hu_old_start h)); ("new", from_usize (hu_new_start h)); ("scope", JString (hu_scope h)); ("lines", JArray (map line_to_json (hu_lines h)))].
Definition file_to_json (f : File) : Value :=
  JObject ([("path", JString (fl_path f)); ("status", JString (letter (fl_status f))); ("added", from_usize (fl_added f)); ("removed", from_usize (fl_removed f));
            ("hunks", JArray (map hunk_to_json (fl_hunks f)))]
           ++ match fl_old_path f with Some old => [("oldPath", JString old)] | None => [] end
           ++ (if fl_binary f then [("binary", JBool true)] else [])
           ++ (if fl_untracked f then [("untracked", JBool true)] else [])
           ++ match fl_fold f with Some fold => [("fold", JString (fold_name fold)); ("note", JString (fold_message fold (fl_path f)))] | None => [] end).

(** ** Paths *)

Definition quote_char : ascii := ascii_of_N 34.
Definition backslash : ascii := ascii_of_N 92.

(** [d(1) << 6 | d(2) << 3 | d(3)] on bytes *)
Definition octal (x y z : ascii) : ascii :=
  let d a := ((N_of_ascii a + 208) mod 256)%N in
  ascii_of_N (N.lor (N.lor ((d x * 64) mod 256) ((d y * 8) mod 256)) (d z)).

Fixpoint unquoted (s : string) : string :=
  match s with
  | EmptyString => ""
  | String a r =>
    match r with
    | String n r1 =>
      if decide (a = backslash) then
        if decide (n = "n"%char) then String (ascii_of_N 10) (unquoted r1)
        else if decide (n = "t"%char) then String (ascii_of_N 9) (unquoted r1)
        else match r1 with
             | String y (String z r3) => if between 48 55 n then String (octal n y z) (unquoted r3) else String n (unquoted r1)
             | _ => String n (unquoted r1)
             end
      else String a (unquoted r)
    | EmptyString => String a ""
    end
  end.

Definition quoted (text : string) : bool :=
  (2 <=? String.length text)%nat && starts_with (String quote_char "") text && ends_with (String quote_char "") text.

Definition unquote (text : string) : string :=
  if quoted text then from_utf8_lossy (unquoted (String.substring 1 (String.length text - 2) text)) else text.

(** Up to the quote that closes, and what is after it *)
Fixpoint take_quoted (escaped : bool) (s : string) : string * string :=
  match s with
  | EmptyString => ("", "")
  | String a r =>
    if escaped then let '(part, rest) := take_quoted false r in (String a part, rest)
    else if decide (a = quote_char) then (String a "", r)
    else let '(part, rest) := take_quoted (bool_decide (a = backslash)) r in (String a part, rest)
  end.

(** Up to a space *)
Fixpoint take_word (s : string) : string * string :=
  match s with
  | EmptyString => ("", "")
  | String a r => if decide (a = " "%char) then ("", s) else let '(part, rest) := take_word r in (String a part, rest)
  end.

Fixpoint skip_spaces (s : string) : string :=
  match s with EmptyString => "" | String a r => if decide (a = " "%char) then skip_spaces r else s end.

(** Each turn takes at least a byte. *)
Fixpoint quoted_parts_go (fuel : nat) (text : string) : list string :=
  match fuel with
  | O => []
  | S fuel =>
    match skip_spaces text with
    | EmptyString => []
    | String a r =>
      if decide (a = quote_char) then let '(part, rest) := take_quoted false r in unquote (String a part) :: quoted_parts_go fuel rest
      else let '(part, rest) := take_word (String a r) in part :: quoted_parts_go fuel rest
    end
  end.
Definition quoted_parts (text : string) : list string := quoted_parts_go (String.length text) text.

Definition strip (p prefix : string) : string := default p (strip_prefix prefix p).

Definition header_paths (rest : string) : option string * option string :=
  if starts_with (String quote_char "") rest then
    let parts := quoted_parts rest in ((fun p => strip p "a/") <$> (parts !! 0), (fun p => strip p "b/") <$> (parts !! 1))
  else
    let cs := chars rest in
    let half := ((length cs - 1) / 2)%nat in
    let same := if Nat.odd (length cs) then
                  a ← strip_prefix "a/" (of_chars (take half cs));
                  b ← strip_prefix "b/" (of_chars (drop (half + 1) cs));
                  if decide (a = b) then Some (Some a, Some b) else None
                else None in
    match same with
    | Some paths => paths
    | None => match split_once " b/" rest with
              | Some (a, b) => (Some (strip a "a/"), Some b)
              | None => (Some (strip rest "a/"), None)
              end
    end.

Definition side (rest prefix : string) : option string :=
  if decide (rest = "/dev/null") then None else Some (strip (unquote rest) prefix).

Definition range_start (sign : string) (ranges : string) : option N :=
  r ← List.find (starts_with sign) (split_on " " ranges);
  count ← strip_prefix sign r;
  first ← head (split_on "," count);
  parse_u32 first.

(** The starts of both sides, at least 1, and git's scope *)
Definition hunk_header (line : string) : option (N * N * string) :=
  '(_, rest) ← split_once "@@" line;
  let '(ranges, scope) := default (rest, "") (split_once "@@" rest) in
  old ← range_start "-" ranges;
  new ← range_start "+" ranges;
  Some (N.max old 1, N.max new 1, str_trim scope).

(** ** [parse] *)

Record Reading := mkReading {
  rg_files : list File;
  rg_file : option File;
  rg_hunk : option Hunk;
  rg_old : N;
  rg_new : N }.

Definition set_rg_file (s : Reading) (x : option File) : Reading := mkReading (rg_files s) x (rg_hunk s) (rg_old s) (rg_new s).
Definition set_rg_hunk (s : Reading) (x : option Hunk) : Reading := mkReading (rg_files s) (rg_file s) x (rg_old s) (rg_new s).

Definition push_hunk (f : File) (h : Hunk) : File := set_hunks f (fl_hunks f ++ [h]).
Definition push_line (h : Hunk) (l : Line) : Hunk := mkHunk (hu_old_start h) (hu_new_start h) (hu_scope h) (hu_lines h ++ [l]).

Definition close_hunk (s : Reading) : Reading :=
  match rg_file s, rg_hunk s with
  | Some f, Some h => mkReading (rg_files s) (Some (push_hunk f h)) None (rg_old s) (rg_new s)
  | _, _ => set_rg_hunk s None
  end.

(** The lines that were added and removed *)
Fixpoint count_lines (lines : list Line) (added removed : N) : res (N * N) :=
  match lines with
  | [] => Ok (added, removed)
  | l :: lines =>
    match ln_kind l with
    | KAdded => let? added := inc_u32 added in count_lines lines added removed
    | KRemoved => let? removed := inc_u32 removed in count_lines lines added removed
    | KContext => count_lines lines added removed
    end
  end.

Definition close_file (s : Reading) : res Reading :=
  let s := close_hunk s in
  match rg_file s with
  | None => Ok s
  | Some f =>
    let? '(added, removed) := count_lines (flat_map hu_lines (fl_hunks f)) (fl_added f) (fl_removed f) in
    Ok (mkReading (rg_files s ++ [set_counts f added removed]) None (rg_hunk s) (rg_old s) (rg_new s))
  end.

(** A line of a hunk *)
Definition hunk_line (s : Reading) (h : Hunk) (sign : ascii) (body : string) : option (res Reading) :=
  let put l old new := mkReading (rg_files s) (rg_file s) (Some (push_line h l)) old new in
  if decide (sign = "+"%char) then
    Some (let? new := inc_u32 (rg_new s) in Ok (put (mkLine KAdded body None (Some (rg_new s))) (rg_old s) new))
  else if decide (sign = "-"%char) then
    Some (let? old := inc_u32 (rg_old s) in Ok (put (mkLine KRemoved body (Some (rg_old s)) None) old (rg_new s)))
  else if decide (sign = " "%char) then
    Some (let? old := inc_u32 (rg_old s) in let? new := inc_u32 (rg_new s) in
          Ok (put (mkLine KContext body (Some (rg_old s)) (Some (rg_new s))) old new))
  else None.

(** A line of a file's header *)
Definition file_line (f : File) (line : string) : File :=
  if starts_with "new file mode" line then set_status f Added
  else if starts_with "deleted file mode" line then set_status f Deleted
  else match strip_prefix "rename from " line with
  | Some from => set_status (set_old_path f (Some (unquote from))) Renamed
  | None =>
    match strip_prefix "rename to " line with
    | Some to => set_status (set_path f (unquote to)) Renamed
    | None =>
      match strip_prefix "+++ " line with
      | Some rest => match side rest "b/" with Some path => set_path f path | None => f end
      | None =>
        match strip_prefix "--- " line with
        | Some rest =>
          match side rest "a/" with
          | Some path => if bool_decide (fl_old_path f = None) && negb (bool_decide (path = fl_path f)) then set_old_path f (Some path) else f
          | None => f
          end
        | None => if starts_with "Binary files " line || bool_decide (line = "GIT binary patch") then set_binary f true else f
        end
      end
    end
  end.

Definition header_file (rest : string) : File :=
  let '(a, b) := header_paths rest in
  let f := file_new (default "" (match b with Some _ => b | None => a end)) Modified in
  match a, b with
  | Some a, Some b => if decide (a = b) then f else set_old_path f (Some a)
  | _, _ => f
  end.

Definition hunk_starts (s : Reading) (line : string) : Reading :=
  let s := close_hunk s in
  match hunk_header line with
  | Some (o, n, scope) => mkReading (rg_files s) (rg_file s) (Some (mkHunk o n scope [])) o n
  | None => s
  end.

Definition parse_line (s : Reading) (line : string) : res Reading :=
  match strip_prefix "diff --git " line with
  | Some rest => let? s := close_file s in Ok (set_rg_file s (Some (header_file rest)))
  | None =>
    match rg_file s with
    | None => Ok s
    | Some f =>
      let in_hunk := h ← rg_hunk s; match line with String sign body => hunk_line s h sign body | EmptyString => None end in
      match in_hunk with
      | Some r => r
      | None =>
        if starts_with (String backslash "") line then Ok s
        else if starts_with "@@ " line then Ok (hunk_starts s line)
        else Ok (set_rg_file s (Some (file_line f line)))
      end
    end
  end.

Fixpoint parse_lines (s : Reading) (lines : list string) : res Reading :=
  match lines with [] => Ok s | line :: lines => let? s := parse_line s line in parse_lines s lines end.

Definition newline : ascii := ascii_of_N 10.

Definition reading_default : Reading := mkReading [] None None 0 0.

Definition parse (text : string) : res (list File) :=
  let? s := parse_lines reading_default (split_on newline text) in
  let? s := close_file s in
  Ok (rg_files s).

(** ** [numstat], [fold], [untracked] *)

Record Numstat := mkNumstat { ns_path : string; ns_old_path : option string; ns_added : N; ns_removed : N; ns_binary : bool }.

(** [trim_start_matches('\n')] *)
Fixpoint skip_newlines (s : string) : string :=
  match s with EmptyString => "" | String a r => if decide (a = newline) then skip_newlines r else s end.

Definition tab : string := String (ascii_of_N 9) "".
Definition nul : ascii := ascii_of_N 0.

Fixpoint numstat_fields (fields : list string) : list Numstat :=
  match fields with
  | [] => []
  | head :: fields =>
    match (let line := skip_newlines head in
           if str_is_empty line then None
           else '(a, rest) ← split_once tab line; '(b, path) ← split_once tab rest; Some (a, b, path)) with
    | None => numstat_fields fields
    | Some (a, b, path) =>
      let binary := bool_decide (a = "-") in
      let added := default 0%N (parse_u32 a) in
      let removed := default 0%N (parse_u32 b) in
      if str_is_empty path then
        match fields with
        | from :: to :: fields => mkNumstat to (Some from) added removed binary :: numstat_fields fields
        | _ => []
        end
      else mkNumstat path None added removed binary :: numstat_fields fields
    end
  end.
Definition numstat (text : string) : list Numstat := numstat_fields (split_on nul text).

Definition LARGEST : N := 2000%N.
Definition LOCK_FILES : list string :=
  ["Cargo.lock"; "package-lock.json"; "yarn.lock"; "pnpm-lock.yaml"; "Gemfile.lock"; "poetry.lock"; "go.sum"; "Package.resolved"; "composer.lock"; "bun.lockb"; "flake.lock"].

Definition fold (path : string) (added removed : N) (generated : bool) : res (option Fold) :=
  if contains LOCK_FILES (last_part "/" path) then Ok (Some LockFile)
  else if generated then Ok (Some Generated)
  else
    let? lines := add_u32 added removed in
    if (LARGEST <? lines)%N then Ok (Some (Large lines)) else Ok None.

(** Added lines, from index [i] on *)
Fixpoint number_added (i : N) (texts : list string) : list Line :=
  match texts with [] => [] | t :: texts => mkLine KAdded t None (Some (as_u32 i + 1)%N) :: number_added (i + 1) texts end.

Definition untracked (path : string) (data : string) : File :=
  let file := set_untracked (file_new path Added) true in
  if existsb (fun a => bool_decide (a = nul)) (take (N.to_nat 8192) (string_bytes data)) then set_binary file true
  else
    let text := from_utf8_lossy data in
    let text := default text (strip_suffix (String newline "") text) in
    if str_is_empty text then file
    else
      let lines := number_added 0 (split_on newline text) in
      set_hunks (set_counts file (as_u32 (N.of_nat (length lines))) 0) [mkHunk 0 1 "" lines].
