(* ===== verification/PatchTheorems.v ===== *)
(** * Diffs: what reading them shows

    A diff that is written as git writes it reads back as the same files. *)

From S2P Require Import Prelude Text PipeText Utf8 Patch.
From Stdlib Require Import Ascii.

#[local] Open Scope N_scope.

(** * Reading diffs: what [parse] of [crates/kanna-diff/src/patch.rs] gives *)

(** ** Numbers *)

(** Lines that are numbered one after another on both sides, up to [o'] and [n'] *)
Inductive numbered : N -> N -> list Line -> N -> N -> Prop :=
| numbered_nil o n : numbered o n [] o n
| numbered_added o n text lines o' n' : numbered o (n + 1) lines o' n' -> numbered o n (mkLine KAdded text None (Some n) :: lines) o' n'
| numbered_removed o n text lines o' n' : numbered (o + 1) n lines o' n' -> numbered o n (mkLine KRemoved text (Some o) None :: lines) o' n'
| numbered_context o n text lines o' n' :
    numbered (o + 1) (n + 1) lines o' n' -> numbered o n (mkLine KContext text (Some o) (Some n) :: lines) o' n'.

Lemma numbered_app o n l o1 n1 k o2 n2 : numbered o n l o1 n1 -> numbered o1 n1 k o2 n2 -> numbered o n (l ++ k) o2 n2.
Proof. induction 1; intros; simpl; [done|constructor; auto..]. Qed.

Lemma numbered_le o n l o' n' : numbered o n l o' n' -> o <= o' /\ n <= n'.
Proof. induction 1; lia. Qed.

Definition count_kind (k : Kind) (lines : list Line) : N := N.of_nat (length (retain (fun l => bool_decide (ln_kind l = k)) lines)).

Definition hunk_numbered (h : Hunk) : Prop := 1 <= hu_old_start h /\ 1 <= hu_new_start h /\
  exists o n, numbered (hu_old_start h) (hu_new_start h) (hu_lines h) o n /\ o <= u32_max /\ n <= u32_max.

(** A file that was read *)
Record file_read (f : File) : Prop := {
  fr_hunks : Forall hunk_numbered (fl_hunks f);
  fr_added : fl_added f = count_kind KAdded (flat_map hu_lines (fl_hunks f));
  fr_removed : fl_removed f = count_kind KRemoved (flat_map hu_lines (fl_hunks f));
  fr_untracked : fl_untracked f = false;
  fr_fold : fl_fold f = None }.

(** One that is being read *)
Definition file_open (f : File) : Prop := Forall hunk_numbered (fl_hunks f) /\ fl_added f = 0 /\ fl_removed f = 0 /\ fl_untracked f = false /\ fl_fold f = None.

Record reading_ok (s : Reading) : Prop := {
  ro_files : Forall file_read (rg_files s);
  ro_file : forall f, rg_file s = Some f -> file_open f;
  ro_hunk : forall h, rg_hunk s = Some h -> 1 <= hu_old_start h /\ 1 <= hu_new_start h /\
    numbered (hu_old_start h) (hu_new_start h) (hu_lines h) (rg_old s) (rg_new s) /\ rg_old s <= u32_max /\ rg_new s <= u32_max }.

Lemma inc_u32_Ok n m : inc_u32 n = Ok m -> m = n + 1 /\ m <= u32_max.
Proof. unfold inc_u32. destruct (N.ltb_spec n u32_max); [|done]. intros [= <-]. lia. Qed.

Lemma parse_u32_max s n : parse_u32 s = Some n -> n <= u32_max.
Proof.
  unfold parse_u32, parse_uint. destruct (default s _); [done|]. intros (k & _ & Hk)%bind_Some. destruct (N.leb_spec k u32_max); [|done]. by simplify_eq.
Qed.

Lemma hunk_header_max line o n scope : hunk_header line = Some (o, n, scope) -> 1 <= o <= u32_max /\ 1 <= n <= u32_max.
Proof.
  unfold hunk_header. intros ([a rest] & _ & Hr)%bind_Some. destruct (default _ _) as [ranges sc].
  apply bind_Some in Hr as (old & Ho & Hr). apply bind_Some in Hr as (new & Hn & Hr). simplify_eq.
  assert (forall sign x, range_start sign ranges = Some x -> x <= u32_max) as Hmax.
  { intros sign x (r & _ & Hx)%bind_Some. apply bind_Some in Hx as (c & _ & Hx). apply bind_Some in Hx as (f & _ & Hx). by eapply parse_u32_max. }
  apply Hmax in Ho. apply Hmax in Hn. unfold u32_max in *. lia.
Qed.

(** ** The invariant of reading *)

Lemma close_hunk_ok s : reading_ok s -> reading_ok (close_hunk s) /\ rg_hunk (close_hunk s) = None.
Proof.
  intros [H1 H2 H3]. unfold close_hunk. destruct (rg_file s) as [f|] eqn:Ef; [|by split; [split; simpl; [done|by rewrite Ef|done]|]].
  destruct (rg_hunk s) as [h|] eqn:Eh; [|by split; [split; simpl; [done|by rewrite Ef|done]|]].
  destruct (H3 h eq_refl) as (Ho & Hn & Hnum & Hmo & Hmn). destruct (H2 f eq_refl) as (Hhs & Hrest). split; [|done].
  split; simpl; [done| |done]. intros f' [= <-]. split; [|exact Hrest]. simpl. apply Forall_app. split; [done|]. apply Forall_singleton.
  split_and!; [done|done|]. by exists (rg_old s), (rg_new s).
Qed.

Lemma count_lines_spec lines a r a' r' :
  count_lines lines a r = Ok (a', r') -> a' = a + count_kind KAdded lines /\ r' = r + count_kind KRemoved lines.
Proof.
  revert a r. induction lines as [|l lines IH]; intros a r; simpl; [intros [= <- <-]; unfold count_kind; simpl; lia|].
  unfold count_kind, retain in *. simpl. destruct (ln_kind l); simpl.
  - intros H. apply IH in H. done.
  - destruct (inc_u32 a) as [x| |] eqn:E; simpl; try done. apply inc_u32_Ok in E as [-> _]. intros [-> ->]%IH. lia.
  - destruct (inc_u32 r) as [x| |] eqn:E; simpl; try done. apply inc_u32_Ok in E as [-> _]. intros [-> ->]%IH. lia.
Qed.

Lemma close_file_ok s s' : reading_ok s -> close_file s = Ok s' -> reading_ok s' /\ rg_file s' = None /\ rg_hunk s' = None.
Proof.
  intros Hs. unfold close_file. destruct (close_hunk_ok s Hs) as [Hc Hnone]. destruct (rg_file (close_hunk s)) as [f|] eqn:Ef; [|by intros [= <-]].
  destruct (count_lines _ _ _) as [[a r]| |] eqn:Ec; simpl; try done. intros [= <-]. apply count_lines_spec in Ec as [-> ->].
  destruct Hc as [H1 H2 H3]. destruct (H2 f Ef) as (Hhs & Ha & Hr & Hu & Hf). split; [|done]. split; simpl; [|done|by rewrite Hnone].
  apply Forall_app. split; [done|]. apply Forall_singleton. split; simpl; [done| | |done|done]; rewrite ?Ha, ?Hr; lia.
Qed.

Lemma hunk_line_ok s h sign body s' :
  reading_ok s -> rg_hunk s = Some h -> hunk_line s h sign body = Some (Ok s') -> reading_ok s'.
Proof.
  intros [H1 H2 H3] Eh. destruct (H3 h Eh) as (Ho & Hn & Hnum & Hmo & Hmn). unfold hunk_line.
  assert (forall l o n, o <= u32_max -> n <= u32_max -> numbered (rg_old s) (rg_new s) [l] o n ->
    reading_ok (mkReading (rg_files s) (rg_file s) (Some (push_line h l)) o n)) as Hput.
  { intros l o n Hlo Hln Hl. split; simpl; [done|done|]. intros h' [= <-]. simpl. split_and!; try done. by eapply numbered_app. }
  repeat case_decide; try done.
  - destruct (inc_u32 (rg_new s)) as [x| |] eqn:E; simpl; try done. apply inc_u32_Ok in E as [-> ?]. intros [= <-]. apply Hput; [done|done|]. repeat constructor.
  - destruct (inc_u32 (rg_old s)) as [x| |] eqn:E; simpl; try done. apply inc_u32_Ok in E as [-> ?]. intros [= <-]. apply Hput; [done|done|]. repeat constructor.
  - destruct (inc_u32 (rg_old s)) as [x| |] eqn:E; simpl; try done. apply inc_u32_Ok in E as [-> ?].
    destruct (inc_u32 (rg_new s)) as [y| |] eqn:E; simpl; try done. apply inc_u32_Ok in E as [-> ?]. intros [= <-]. apply Hput; [done|done|]. repeat constructor.
Qed.

Lemma file_line_open f line : file_open f -> file_open (file_line f line).
Proof. intros Hf. unfold file_line. repeat case_match; exact Hf. Qed.

Lemma header_file_open rest : file_open (header_file rest).
Proof. unfold header_file. destruct (header_paths rest) as [a b]. repeat case_match; by repeat constructor. Qed.

Lemma hunk_starts_ok s line : reading_ok s -> reading_ok (hunk_starts s line).
Proof.
  intros Hs. unfold hunk_starts. destruct (close_hunk_ok s Hs) as [Hc _]. destruct (hunk_header line) as [[[o n] scope]|] eqn:E; [|done].
  apply hunk_header_max in E as [Ho Hn]. destruct Hc as [H1 H2 H3]. split; simpl; [done|done|]. intros h [= <-]. simpl. split_and!; try lia. constructor.
Qed.

Lemma set_file_ok s f : reading_ok s -> file_open f -> reading_ok (set_rg_file s (Some f)).
Proof. intros [H1 H2 H3] Hf. split; simpl; [done| |done]. by intros f' [= <-]. Qed.

Lemma parse_line_ok s line s' : reading_ok s -> parse_line s line = Ok s' -> reading_ok s'.
Proof.
  intros Hs. unfold parse_line. destruct (strip_prefix "diff --git " line) as [rest|].
  { destruct (close_file s) as [s1| |] eqn:E; simpl; try done. intros [= <-]. destruct (close_file_ok _ _ Hs E) as (Hs1 & _). apply set_file_ok; [done|apply header_file_open]. }
  destruct (rg_file s) as [f|] eqn:Ef; [|by intros [= <-]].
  destruct (rg_hunk s ≫= _) as [r|] eqn:Eh.
  { intros ->. apply bind_Some in Eh as (h & Hh & Hl). destruct line as [|sign body]; [done|]. by eapply hunk_line_ok. }
  destruct (starts_with _ line); [by intros [= <-]|]. destruct (starts_with _ line); [intros [= <-]; by apply hunk_starts_ok|].
  intros [= <-]. apply set_file_ok; [done|]. apply file_line_open. by apply (ro_file _ Hs).
Qed.

Lemma reading_lines_ok lines s s' : reading_ok s -> parse_lines s lines = Ok s' -> reading_ok s'.
Proof.
  revert s. induction lines as [|line lines IH]; intros s Hs; simpl; [by intros [= <-]|].
  destruct (parse_line s line) as [s1| |] eqn:E; simpl; try done. apply IH. by eapply parse_line_ok.
Qed.

Lemma reading_default_ok : reading_ok reading_default.
Proof. by split; [constructor|..]. Qed.

Lemma parse_ok text files : parse text = Ok files -> Forall file_read files.
Proof.
  unfold parse. destruct (parse_lines _ _) as [s| |] eqn:E; simpl; try done. destruct (close_file s) as [s'| |] eqn:E'; simpl; try done. intros [= <-].
  apply reading_lines_ok in E; [|apply reading_default_ok]. apply (ro_files _ (proj1 (close_file_ok _ _ E E'))).
Qed.


(** ** Paths as git quotes them *)

Lemma rev_app_acc a c : String.rev_app a c = String.rev a +:+ c.
Proof.
  unfold String.rev. revert c. induction a as [|x a IH]; intros c; [done|]. cbn [String.rev_app]. rewrite IH, (IH (String x "")). by rewrite <- string_app_assoc.
Qed.

Lemma rev_append a b : String.rev (a +:+ b) = String.rev b +:+ String.rev a.
Proof.
  rewrite <- rev_app_acc. unfold String.rev. generalize "". induction a as [|x a IH]; intros c; [done|]. apply IH.
Qed.

Lemma rev_rev s : String.rev (String.rev s) = s.
Proof.
  induction s as [|x s IH]; [done|]. change (String x s) with (String x "" +:+ s) at 1. by rewrite !rev_append, IH.
Qed.

Lemma ends_with_exact p s : ends_with p s = true <-> exists x, s = x +:+ p.
Proof.
  unfold ends_with, strip_suffix. rewrite bool_decide_eq_true. split.
  - intros [t (r & Hr%strip_prefix_Some & _)%fmap_Some]. exists (String.rev r). by rewrite <- (rev_rev s), Hr, rev_append, rev_rev.
  - intros [x ->]. rewrite rev_append, strip_prefix_app. by eexists.
Qed.

(** The bytes that make git quote a path; those of other characters than ASCII do unless
    [core.quotePath] is off. *)
Definition must_quote (quote_path : bool) (a : ascii) : bool :=
  let n := N_of_ascii a in (n <? 32) || (n =? 34) || (n =? 92) || (n =? 127) || quote_path && (127 <? n).

Definition octal_digit (n : N) : ascii := ascii_of_N (48 + n mod 8).
Definition octal_digits (n : N) : string := String (octal_digit (n / 64)) (String (octal_digit (n / 8)) (String (octal_digit n) "")).

(** git's escapes, by byte *)
Definition escapes : list (N * string) :=
  [(7, "a"); (8, "b"); (9, "t"); (10, "n"); (11, "v"); (12, "f"); (13, "r"); (34, String quote_char ""); (92, String backslash "")].
Definition escape (a : ascii) : string :=
  match List.find (fun e => fst e =? N_of_ascii a) escapes with Some (_, e) => e | None => octal_digits (N_of_ascii a) end.
Definition quote_byte (quote_path : bool) (a : ascii) : string := if must_quote quote_path a then String backslash (escape a) else String a "".

Fixpoint quote_bytes (quote_path : bool) (s : string) : string :=
  match s with EmptyString => "" | String a s => quote_byte quote_path a +:+ quote_bytes quote_path s end.
Definition git_path (quote_path : bool) (s : string) : string :=
  if existsb (must_quote quote_path) (string_bytes s) then String quote_char (quote_bytes quote_path s +:+ String quote_char "") else s.

(** The bytes whose escape [unquote] reads *)
Definition readable (a : ascii) : Prop := N_of_ascii a ∉ [7; 8; 11; 12; 13].

(** What reading and skipping escapes has to get right of one byte *)
Definition escape_read (a : ascii) (q : string) : bool :=
  match q with
  | String b "" => bool_decide (b = a) && negb (bool_decide (a = backslash)) && negb (bool_decide (a = quote_char))
  | String b (String c "") => bool_decide (b = backslash) &&
      if decide (c = "n"%char) then bool_decide (a = ascii_of_N 10) else if decide (c = "t"%char) then bool_decide (a = ascii_of_N 9) else bool_decide (a = c) && negb (between 48 55 c)
  | String b (String x (String y (String z ""))) => bool_decide (b = backslash) && between 48 55 x && bool_decide (octal x y z = a) && bool_decide (y ≠ backslash) &&
      bool_decide (y ≠ quote_char) && bool_decide (z ≠ backslash) && bool_decide (z ≠ quote_char) && bool_decide (x ≠ "n"%char) && bool_decide (x ≠ "t"%char)
  | _ => false
  end.

Lemma quote_byte_read quote_path a : readable a -> escape_read a (quote_byte quote_path a) = true.
Proof.
  intros Ha. assert (bool_decide (readable a) = true -> escape_read a (quote_byte quote_path a) = true) as H; [|apply H; by apply bool_decide_eq_true].
  clear Ha. destruct a as [[] [] [] [] [] [] [] []], quote_path; (intros _; vm_compute; reflexivity) || (intros H; exfalso; vm_compute in H; discriminate H).
Qed.
Lemma unquoted_plain a r : a ≠ backslash -> unquoted (String a r) = String a (unquoted r).
Proof. intros Ha. destruct r as [|n r]; [done|]. cbn [unquoted]. by rewrite decide_False. Qed.

Lemma unquoted_byte a q r : escape_read a q = true -> unquoted (q +:+ r) = String a (unquoted r).
Proof.
  destruct q as [|b [|c [|d [|e [|]]]]]; cbn [escape_read]; try done.
  - rewrite !andb_true_iff, negb_true_iff, bool_decide_eq_true, bool_decide_eq_false. intros [[-> Hb] _]. by apply unquoted_plain.
  - rewrite andb_true_iff, bool_decide_eq_true. intros [-> Hc]. cbn [String.append unquoted]. change (String backslash (String c "") +:+ r) with (String backslash (String c r)).
    cbn [unquoted]. rewrite decide_True by done. case_decide; [apply bool_decide_eq_true in Hc; by subst|]. case_decide; [apply bool_decide_eq_true in Hc; by subst|].
    apply andb_true_iff in Hc as [->%bool_decide_eq_true Hd%negb_true_iff]. rewrite Hd. by destruct r as [|? [|]].
  - rewrite !andb_true_iff, !bool_decide_eq_true. intros ((((((((-> & Hx) & Ho) & _) & _) & _) & _) & Hn) & Ht).
    change (String backslash (String c (String d (String e ""))) +:+ r) with (String backslash (String c (String d (String e r)))). cbn [unquoted].
    rewrite decide_True by done. rewrite !decide_False by done. by rewrite Hx, Ho.
Qed.

Lemma unquoted_quoted quote_path s : Forall readable (string_bytes s) -> unquoted (quote_bytes quote_path s) = s.
Proof.
  induction s as [|a s IH]; [done|]. intros [Ha Hs]%Forall_cons. cbn [quote_bytes]. rewrite (unquoted_byte a) by by apply quote_byte_read. by rewrite IH.
Qed.

Lemma take_quoted_byte a q r : escape_read a q = true -> take_quoted false (q +:+ r) = let '(part, rest) := take_quoted false r in (q +:+ part, rest).
Proof.
  destruct q as [|b [|c [|d [|e [|]]]]]; cbn [escape_read]; try done.
  - rewrite !andb_true_iff, !negb_true_iff, bool_decide_eq_true, !bool_decide_eq_false. intros [[-> Hb] Hq]. change (String a "" +:+ r) with (String a r).
    cbn [take_quoted]. rewrite decide_False, bool_decide_eq_false_2 by done. by destruct (take_quoted false r).
  - rewrite andb_true_iff, bool_decide_eq_true. intros [-> Hc]. change (String backslash (String c "") +:+ r) with (String backslash (String c r)).
    cbn [take_quoted]. rewrite decide_False by done. rewrite bool_decide_eq_true_2 by done. by destruct (take_quoted false r).
  - rewrite !andb_true_iff, !bool_decide_eq_true. intros ((((((((-> & Hx) & Ho) & H1) & H2) & H3) & H4) & _) & _).
    change (String backslash (String c (String d (String e ""))) +:+ r) with (String backslash (String c (String d (String e r)))).
    cbn [take_quoted]. rewrite decide_False by done. rewrite bool_decide_eq_true_2 by done. rewrite !decide_False by done. rewrite !bool_decide_eq_false_2 by done.
    by destruct (take_quoted false r).
Qed.

Lemma take_quoted_all quote_path s rest : Forall readable (string_bytes s) ->
  take_quoted false (quote_bytes quote_path s +:+ String quote_char rest) = (quote_bytes quote_path s +:+ String quote_char "", rest).
Proof.
  induction s as [|a s IH]; [done|]. intros [Ha Hs]%Forall_cons. cbn [quote_bytes]. rewrite <- string_app_assoc.
  rewrite (take_quoted_byte a) by by apply quote_byte_read. rewrite IH by done. by rewrite <- string_app_assoc.
Qed.

Lemma substring_inside a x b : String.substring 1 (String.length (String a (x +:+ b)) - 1 - String.length b) (String a (x +:+ b)) = x.
Proof.
  cbn [String.length]. replace (S (String.length (x +:+ b)) - 1 - String.length b)%nat with (String.length x) by (rewrite length_string_app; lia).
  cbn [String.substring]. induction x as [|c x IH]; [by destruct b|]. rewrite string_app_cons. cbn [String.length String.substring]. f_equal. exact IH.
Qed.

Lemma unquote_quoted quote_path s : Utf8 s -> Forall readable (string_bytes s) -> unquote (String quote_char (quote_bytes quote_path s +:+ String quote_char "")) = s.
Proof.
  intros Hu Hs. unfold unquote. assert (quoted (String quote_char (quote_bytes quote_path s +:+ String quote_char "")) = true) as ->.
  { unfold quoted. rewrite !andb_true_iff. split_and!; [|done|apply ends_with_exact; by exists (String quote_char (quote_bytes quote_path s))].
    apply Nat.leb_le. cbn [String.length]. rewrite length_string_app. simpl. lia. }
  replace (String.length (String quote_char (quote_bytes quote_path s +:+ String quote_char "")) - 2)%nat
    with (String.length (String quote_char (quote_bytes quote_path s +:+ String quote_char "")) - 1 - String.length (String quote_char ""))%nat by (simpl; lia).
  rewrite substring_inside, unquoted_quoted by done. by apply lossy_valid.
Qed.

(** The bytes of a path that git writes as they are *)
Lemma git_path_plain quote_path s : existsb (must_quote quote_path) (string_bytes s) = false -> git_path quote_path s = s /\ starts_with (String quote_char "") s = false.
Proof.
  intros Hs. unfold git_path. rewrite Hs. split; [done|]. destruct s as [|a s]; [done|]. cbn [string_bytes existsb] in Hs. apply orb_false_iff in Hs as [Ha _].
  unfold starts_with. cbn [strip_prefix]. rewrite decide_False; [done|]. intros <-. by vm_compute in Ha.
Qed.

Lemma unquote_git quote_path s : Utf8 s -> Forall readable (string_bytes s) -> unquote (git_path quote_path s) = s.
Proof.
  intros Hu Hs. destruct (existsb (must_quote quote_path) (string_bytes s)) eqn:E.
  - unfold git_path. rewrite E. by apply unquote_quoted.
  - destruct (git_path_plain _ _ E) as [-> Hq]. unfold unquote, quoted. rewrite Hq. by rewrite andb_false_r.
Qed.

Lemma no_byte_app c s t : no_byte c (s +:+ t) <-> no_byte c s /\ no_byte c t.
Proof. unfold no_byte. by rewrite string_bytes_app, Forall_app. Qed.

Lemma git_path_line quote_path s : no_byte newline (git_path quote_path s).
Proof.
  assert (forall a, no_byte newline (quote_byte quote_path a)) as Ha.
  { intros a. assert (forallb (fun b => negb (bool_decide (b = newline))) (string_bytes (quote_byte quote_path a)) = true) as H
      by (destruct a as [[] [] [] [] [] [] [] []], quote_path; reflexivity).
    rewrite forallb_forall in H. apply Forall_forall. intros b Hb%list_elem_of_In%H. by apply negb_true_iff, bool_decide_eq_false in Hb. }
  unfold git_path. destruct (existsb _ _) eqn:E.
  - constructor; [done|]. apply no_byte_app. split; [|by repeat constructor]. induction s as [|a s IH]; [constructor|]. cbn [quote_bytes]. apply no_byte_app.
    split; [done|]. clear -Ha. induction s as [|b s IH]; [constructor|]. cbn [quote_bytes]. by apply no_byte_app.
  - apply Forall_forall. intros b Hb ->. rewrite <- not_true_iff_false, existsb_exists in E. apply E. exists newline. by rewrite <- list_elem_of_In.
Qed.

(** ** What git says of one file *)

(** A line, and whether the file ends in it without a line end *)
Record GitLine := mkGitLine { gl_kind : Kind; gl_text : string; gl_cut : bool }.

(** The line that a hunk starts at on each side, or the one before where it has none there *)
Record GitHunk := mkGitHunk { gh_old : N; gh_new : N; gh_scope : string; gh_lines : list GitLine }.

Inductive Change := Changed | Created (mode : string) | Gone (mode : string) | Moved (from : string) (similarity : N).
Record GitDiff := mkGitDiff {
  gd_path : string;
  gd_change : Change;
  gd_modes : option (string * string);
  gd_index : option string;
  gd_binary : bool;
  gd_hunks : list GitHunk }.

Definition gd_from (d : GitDiff) : string := match gd_change d with Moved from _ => from | _ => gd_path d end.

(** How git writes it *)
Definition sign (k : Kind) : ascii := match k with KContext => " " | KAdded => "+" | KRemoved => "-" end%char.
Definition render_line (l : GitLine) : list string :=
  String (sign (gl_kind l)) (gl_text l) :: if gl_cut l then [String backslash " No newline at end of file"] else [].

Definition on_side (k : Kind) (lines : list GitLine) : N := N.of_nat (length (retain (fun l => bool_decide (gl_kind l = KContext \/ gl_kind l = k)) lines)).
Definition range (start count : N) : string := pretty start +:+ if count =? 1 then "" else "," +:+ pretty count.
Definition hunk_ranges (h : GitHunk) : string :=
  " -" +:+ range (gh_old h) (on_side KRemoved (gh_lines h)) +:+ " +" +:+ range (gh_new h) (on_side KAdded (gh_lines h)) +:+ " ".
Definition render_hunk (h : GitHunk) : list string :=
  ("@@" +:+ hunk_ranges h +:+ "@@" +:+ if str_is_empty (gh_scope h) then "" else " " +:+ gh_scope h) :: flat_map render_line (gh_lines h).

Section Render.
Context (quote_path : bool).
Abbreviation path := (git_path quote_path).

(** A tab after a path with a space, on the lines that patch(1) reads *)
Definition tabbed (s : string) : string := if existsb (fun a => bool_decide (a = " "%char)) (string_bytes s) then s +:+ tab else s.

Definition render_header (d : GitDiff) : list string :=
  let a := path ("a/" +:+ gd_from d) in
  let b := path ("b/" +:+ gd_path d) in
  ("diff --git " +:+ a +:+ " " +:+ b) ::
  match gd_modes d with Some (x, y) => ["old mode " +:+ x; "new mode " +:+ y] | None => [] end ++
  match gd_change d with
  | Changed => []
  | Created mode => ["new file mode " +:+ mode]
  | Gone mode => ["deleted file mode " +:+ mode]
  | Moved from n => ["similarity index " +:+ pretty n +:+ "%"; "rename from " +:+ path from; "rename to " +:+ path (gd_path d)]
  end ++
  match gd_index d with Some index => ["index " +:+ index] | None => [] end ++
  let a := match gd_change d with Created _ => "/dev/null" | _ => a end in
  let b := match gd_change d with Gone _ => "/dev/null" | _ => b end in
  if gd_binary d then ["Binary files " +:+ a +:+ " and " +:+ b +:+ " differ"]
  else match gd_hunks d with [] => [] | _ => ["--- " +:+ tabbed a; "+++ " +:+ tabbed b] end.

Definition render_file (d : GitDiff) : list string := render_header d ++ flat_map render_hunk (gd_hunks d).
End Render.

(** Each line ends with the byte. *)
Fixpoint ended (c : ascii) (lines : list string) : string := match lines with [] => "" | l :: lines => l +:+ String c (ended c lines) end.
Definition render (quote_path : bool) (diffs : list GitDiff) : string := ended newline (flat_map (render_file quote_path) diffs).

(** What it means: the lines numbered on their sides *)
Fixpoint number_lines (o n : N) (lines : list GitLine) : list Line :=
  match lines with
  | [] => []
  | l :: lines =>
    match gl_kind l with
    | KContext => mkLine KContext (gl_text l) (Some o) (Some n) :: number_lines (o + 1) (n + 1) lines
    | KAdded => mkLine KAdded (gl_text l) None (Some n) :: number_lines o (n + 1) lines
    | KRemoved => mkLine KRemoved (gl_text l) (Some o) None :: number_lines (o + 1) n lines
    end
  end.
Definition hunk_of (h : GitHunk) : Hunk :=
  mkHunk (N.max (gh_old h) 1) (N.max (gh_new h) 1) (gh_scope h) (number_lines (N.max (gh_old h) 1) (N.max (gh_new h) 1) (gh_lines h)).
Definition file_of (d : GitDiff) : File :=
  let lines := flat_map gh_lines (gd_hunks d) in
  let of_kind k := N.of_nat (length (retain (fun l => bool_decide (gl_kind l = k)) lines)) in
  mkFile (gd_path d) (match gd_change d with Moved from _ => Some from | _ => None end)
    (match gd_change d with Changed => Modified | Created _ => Added | Gone _ => Deleted | Moved _ _ => Renamed end)
    (of_kind KAdded) (of_kind KRemoved) (gd_binary d) false None (map hunk_of (gd_hunks d)).

(** A path that can be read: not with the bytes whose escapes are lost *)
Definition path_ok (p : string) : Prop := Utf8 p /\ Forall readable (string_bytes p).

Record hunk_ok (h : GitHunk) : Prop := {
  hk_old : N.max (gh_old h) 1 + on_side KRemoved (gh_lines h) <= u32_max;
  hk_new : N.max (gh_new h) 1 + on_side KAdded (gh_lines h) <= u32_max;
  hk_scope : str_trim (gh_scope h) = gh_scope h;
  hk_scope_line : no_byte newline (gh_scope h);
  hk_texts : Forall (fun l => no_byte newline (gl_text l)) (gh_lines h) }.

Record diff_ok (d : GitDiff) : Prop := {
  dk_small : fl_added (file_of d) <= u32_max /\ fl_removed (file_of d) <= u32_max;
  dk_path : path_ok (gd_path d) /\ path_ok (gd_from d);
  dk_space : gd_hunks d ≠ [] -> no_byte " " (gd_path d) /\ no_byte " " (gd_from d);
  dk_modes : match gd_modes d with Some (x, y) => no_byte newline x /\ no_byte newline y | None => True end;
  dk_mode : match gd_change d with Created mode | Gone mode => no_byte newline mode | _ => True end;
  dk_index : match gd_index d with Some index => no_byte newline index | None => True end;
  dk_binary : gd_binary d = true -> gd_hunks d = [];
  dk_hunks : Forall hunk_ok (gd_hunks d) }.

(** ** Hunks *)

Lemma inc_u32_lt n : n + 1 <= u32_max -> inc_u32 n = Ok (n + 1).
Proof. intros Hn. unfold inc_u32. by rewrite (proj2 (N.ltb_lt _ _)) by lia. Qed.

Definition push_lines (h : Hunk) (lines : list Line) : Hunk := mkHunk (hu_old_start h) (hu_new_start h) (hu_scope h) (hu_lines h ++ lines).

Lemma parse_lines_app s l k : parse_lines s (l ++ k) = res_bind (parse_lines s l) (fun s' => parse_lines s' k).
Proof. revert s. induction l as [|x l IH]; intros s; simpl; [done|]. destruct (parse_line s x); simpl; [apply IH|done|done]. Qed.

(** The line that says that there is no line end changes nothing. *)
Lemma cut_read s : parse_line s (String backslash " No newline at end of file") = Ok s.
Proof. unfold parse_line. simpl. destruct (rg_file s); [|done]. by destruct (rg_hunk s). Qed.

Lemma on_side_in k l lines : gl_kind l = KContext \/ gl_kind l = k -> on_side k (l :: lines) = 1 + on_side k lines.
Proof. intros Hl. unfold on_side, retain. cbn [List.filter]. rewrite bool_decide_eq_true_2 by done. cbn [length]. lia. Qed.

Lemma on_side_out k l lines : ~ (gl_kind l = KContext \/ gl_kind l = k) -> on_side k (l :: lines) = on_side k lines.
Proof. intros Hl. unfold on_side, retain. cbn [List.filter]. by rewrite bool_decide_eq_false_2. Qed.

Lemma lines_read files f h o n lines :
  o + on_side KRemoved lines <= u32_max -> n + on_side KAdded lines <= u32_max ->
  parse_lines (mkReading files (Some f) (Some h) o n) (flat_map render_line lines) =
    Ok (mkReading files (Some f) (Some (push_lines h (number_lines o n lines))) (o + on_side KRemoved lines) (n + on_side KAdded lines)).
Proof.
  revert h o n. induction lines as [|[k text cut] lines IH]; intros h o n Ho Hn.
  { unfold push_lines, on_side. destruct h. simpl. rewrite app_nil_r. repeat f_equal; lia. }
  change (flat_map render_line (mkGitLine k text cut :: lines)) with (render_line (mkGitLine k text cut) ++ flat_map render_line lines). rewrite parse_lines_app.
  assert (forall s, parse_line (mkReading files (Some f) (Some h) o n) (String (sign k) text) = Ok s ->
    parse_lines (mkReading files (Some f) (Some h) o n) (render_line (mkGitLine k text cut)) = Ok s) as Hl.
  { intros s Hs. unfold render_line. cbn [gl_kind gl_text gl_cut parse_lines]. rewrite Hs. cbn [res_bind]. destruct cut; [|done]. cbn [parse_lines]. by rewrite cut_read. }
  destruct k.
  1: rewrite (on_side_in KRemoved) in * by (by left); rewrite (on_side_in KAdded) in * by (by left).
  2: rewrite (on_side_out KRemoved) in * by naive_solver; rewrite (on_side_in KAdded) in * by (by right).
  3: rewrite (on_side_in KRemoved) in * by (by right); rewrite (on_side_out KAdded) in * by naive_solver.
  all: erewrite Hl; [|unfold parse_line; simpl; rewrite ?inc_u32_lt by lia; simpl; rewrite ?inc_u32_lt by lia; simpl; reflexivity].
  all: cbn [res_bind]; rewrite IH by lia; unfold push_lines, push_line; simpl; by rewrite <- app_assoc, ?N.add_assoc.
Qed.

Lemma digits_no_byte c (n : N) : is_digit c = false -> no_byte c (pretty n).
Proof. intros Hc. eapply Forall_impl; [apply pretty_digits|]. intros a Ha ->. simpl in Ha. congruence. Qed.

Lemma range_no_byte c a b : is_digit c = false -> c ≠ ","%char -> no_byte c (range a b).
Proof.
  intros Hd Hc. unfold range. apply no_byte_app. split; [by apply digits_no_byte|]. destruct (b =? 1); [constructor|]. constructor; [done|by apply digits_no_byte].
Qed.

Lemma ranges_no_byte c h : is_digit c = false -> c ∉ [","; " "; "-"; "+"]%char -> no_byte c (hunk_ranges h).
Proof.
  intros Hd Hc. assert (forall a b, no_byte c (range a b)) as Hr by (intros a b; apply range_no_byte; [done|]; intros ->; apply Hc; left).
  unfold hunk_ranges. do 4 (apply no_byte_app; split; [by apply Hr || (repeat (constructor; [intros <-; apply Hc; set_solver|]); constructor)|]).
  repeat (constructor; [intros <-; apply Hc; set_solver|]). constructor.
Qed.

Lemma trim_after_space s : str_trim (String " " s) = str_trim s.
Proof. done. Qed.

Lemma split_once_here p y : p ≠ "" -> split_once p (p +:+ y) = Some ("", y).
Proof. intros Hp. destruct p as [|a p]; [done|]. apply (split_once_app a p "" y). constructor. Qed.

Lemma range_reads s a b : a <= u32_max ->
  (count ← strip_prefix (String s "") (String s "" +:+ range a b); first ← head (split_on "," count); parse_u32 first) = Some a.
Proof.
  intros Ha. rewrite strip_prefix_app. cbn [mbind option_bind]. unfold range. destruct (b =? 1).
  - rewrite string_app_nil. rewrite split_on_none by by apply digits_no_byte. cbn [head mbind option_bind]. by apply parse_uint_pretty.
  - change (pretty a +:+ "," +:+ pretty b) with (pretty a +:+ String "," (pretty b)). rewrite split_on_app by by apply digits_no_byte.
    cbn [head mbind option_bind]. by apply parse_uint_pretty.
Qed.

Lemma header_reads h : hunk_ok h ->
  hunk_header ("@@" +:+ hunk_ranges h +:+ "@@" +:+ if str_is_empty (gh_scope h) then "" else " " +:+ gh_scope h) = Some (N.max (gh_old h) 1, N.max (gh_new h) 1, gh_scope h).
Proof.
  intros [Ho Hn Hs _ _]. unfold hunk_header. rewrite split_once_here by done. cbn [mbind option_bind].
  assert (no_byte "@" (hunk_ranges h)) as Hat.
  { apply ranges_no_byte; [done|]. apply (bool_decide_unpack _). by vm_compute. }
  set (tail_ := if str_is_empty (gh_scope h) then "" else " " +:+ gh_scope h).
  rewrite (split_once_app "@" "@") by done. cbn [from_option id]. cbv beta iota delta [id].
  assert (str_trim tail_ = gh_scope h) as ->.
  { unfold tail_, str_is_empty. case_bool_decide as E; [by rewrite E|]. change (" " +:+ gh_scope h) with (String " " (gh_scope h)). by rewrite trim_after_space. }
  unfold range_start. assert (split_on " " (hunk_ranges h) =
      [""; String "-" "" +:+ range (gh_old h) (on_side KRemoved (gh_lines h)); String "+" "" +:+ range (gh_new h) (on_side KAdded (gh_lines h)); ""]) as ->.
  { unfold hunk_ranges. set (x := range _ _). set (y := range _ _).
    replace (" -" +:+ x +:+ " +" +:+ y +:+ " ") with ("" +:+ String " " (("-" +:+ x) +:+ String " " (("+" +:+ y) +:+ String " " ""))) by (rewrite <- !string_app_assoc; done).
    assert (no_byte " " ("-" +:+ x) /\ no_byte " " ("+" +:+ y)) as [H1 H2] by (split; (constructor; [done|by apply range_no_byte])).
    rewrite !split_on_app by (done || constructor). by rewrite split_on_none by constructor. }
  assert (forall s x, starts_with (String s "") (String s "" +:+ x) = true) as Hst.
  { intros s x. unfold starts_with. apply bool_decide_eq_true_2. rewrite strip_prefix_app. by eexists. }
  assert (forall x, starts_with "+" (String "-" "" +:+ x) = false) as Hno by done.
  cbn [List.find]. change (starts_with "-" "") with false. change (starts_with "+" "") with false. rewrite !Hst, Hno. cbn iota. cbn [mbind option_bind].
  rewrite (range_reads "-") by lia. rewrite (range_reads "+") by lia. done.
Qed.

(** ** Files *)

(** What is read so far, were it closed *)
Definition open_hunks (s : Reading) : list Hunk := match rg_file s with Some f => fl_hunks f | None => [] end ++ option_list (rg_hunk s).

Lemma close_hunk_file s f : rg_file s = Some f -> rg_file (close_hunk s) = Some (set_hunks f (open_hunks s)) /\ rg_files (close_hunk s) = rg_files s /\ rg_hunk (close_hunk s) = None.
Proof.
  intros Ef. unfold close_hunk, open_hunks. rewrite Ef. destruct (rg_hunk s) as [h|]; [done|]. simpl. rewrite app_nil_r, Ef. by destruct f.
Qed.

Lemma hunk_read h s f : hunk_ok h -> rg_file s = Some f ->
  exists s', parse_lines s (render_hunk h) = Ok s' /\ rg_files s' = rg_files s /\ rg_file s' = Some (set_hunks f (open_hunks s)) /\ rg_hunk s' = Some (hunk_of h).
Proof.
  intros Hh Ef. destruct (close_hunk_file s f Ef) as (Ec & Efs & _). unfold render_hunk. cbn [parse_lines].
  pose proof (header_reads h Hh) as Hheader. set (tail_ := "@@" +:+ if str_is_empty (gh_scope h) then "" else " " +:+ gh_scope h) in *.
  assert (parse_line s ("@@" +:+ hunk_ranges h +:+ tail_) = Ok (hunk_starts s ("@@" +:+ hunk_ranges h +:+ tail_))) as ->.
  { unfold parse_line. change (strip_prefix "diff --git " _) with (@None string). rewrite Ef.
    assert ((h0 ← rg_hunk s; match "@@" +:+ hunk_ranges h +:+ tail_ with String sg body => hunk_line s h0 sg body | EmptyString => None end) = None) as ->
      by by destruct (rg_hunk s).
    done. }
  cbn [res_bind]. unfold hunk_starts. rewrite Hheader. rewrite Ec. destruct Hh as [Ho Hn _ _ _].
  rewrite lines_read by done. eexists. by split_and!.
Qed.

Lemma hunks_read hs s f : Forall hunk_ok hs -> rg_file s = Some f ->
  exists s' g, parse_lines s (flat_map render_hunk hs) = Ok s' /\ rg_files s' = rg_files s /\ rg_file s' = Some g /\
    set_hunks g (open_hunks s') = set_hunks f (open_hunks s ++ map hunk_of hs).
Proof.
  intros Hhs. revert s f. induction Hhs as [|h hs Hh _ IH]; intros s f Ef.
  { exists s, f. by rewrite app_nil_r. }
  change (flat_map render_hunk (h :: hs)) with (render_hunk h ++ flat_map render_hunk hs).
  destruct (hunk_read h s f Hh Ef) as (s1 & H1 & Hf1 & Ef1 & Eh1). rewrite parse_lines_app, H1. simpl.
  destruct (IH s1 _ Ef1) as (s2 & g & H2 & Hf2 & Eg & Hh2). exists s2, g. split_and!; [done|congruence|done|].
  rewrite Hh2. unfold open_hunks. rewrite Ef1, Eh1. simpl. by rewrite <- app_assoc.
Qed.

(** *** The header *)

Lemma side_ok c p : N_of_ascii c < 127 -> readable c -> path_ok p -> path_ok (String c "/" +:+ p).
Proof.
  intros Hc Hr [Hu Hp]. split.
  - apply (utf8_app (String c "/")); [apply utf8_ascii; (constructor; [|by repeat constructor]); lia|done].
  - rewrite string_bytes_app. apply Forall_app. split; [|done]. constructor; [done|]. apply Forall_singleton, (bool_decide_unpack _). by vm_compute.
Qed.

Lemma header_plain p : path_ok p -> header_file ("a/" +:+ p +:+ " b/" +:+ p) = file_new p Modified.
Proof.
  intros (Hu & _). unfold header_file, header_paths. change (starts_with (String quote_char "") ("a/" +:+ p +:+ " b/" +:+ p)) with false. cbn iota.
  assert (Utf8 ("a/" +:+ p)) as Ha by (apply (utf8_app "a/"); [apply utf8_ascii; by repeat constructor|done]).
  assert (Utf8 ("b/" +:+ p)) as Hb by (apply (utf8_app "b/"); [apply utf8_ascii; by repeat constructor|done]).
  assert (chars ("a/" +:+ p +:+ " b/" +:+ p) = chars ("a/" +:+ p) ++ 32%N :: chars ("b/" +:+ p)) as ->.
  { rewrite string_app_assoc, utf8_chars_app by done. done. }
  assert (length (chars ("b/" +:+ p)) = length (chars ("a/" +:+ p))) as El by done.
  set (k := length (chars ("a/" +:+ p))) in *. rewrite length_app. cbn [length]. rewrite El. fold k.
  replace (Nat.odd (k + S k)) with true by (symmetry; apply Nat.odd_spec; exists k; lia).
  replace ((k + S k - 1) / 2)%nat with k by (replace (k + S k - 1)%nat with (k * 2)%nat by lia; by rewrite Nat.div_mul).
  rewrite take_app_length' by done. replace (k + 1)%nat with (length (chars ("a/" +:+ p) ++ [32%N])) by (rewrite length_app; done).
  change (chars ("a/" +:+ p) ++ 32%N :: chars ("b/" +:+ p)) with (chars ("a/" +:+ p) ++ [32%N] ++ chars ("b/" +:+ p)). rewrite app_assoc, drop_app_length.
  rewrite !utf8_of_chars, !strip_prefix_app by done. cbn [mbind option_bind]. rewrite decide_True by done. simpl. by rewrite decide_True.
Qed.

Lemma quoted_parts_one quote_path fuel x rest : Forall readable (string_bytes x) -> Utf8 x ->
  quoted_parts_go (S fuel) (String quote_char (quote_bytes quote_path x +:+ String quote_char rest)) = x :: quoted_parts_go fuel rest.
Proof.
  intros Hx Hu. cbn [quoted_parts_go skip_spaces]. rewrite decide_False by done. rewrite decide_True by done. rewrite take_quoted_all by done. by rewrite unquote_quoted.
Qed.

Lemma quoted_parts_two quote_path x y : Forall readable (string_bytes x) -> Forall readable (string_bytes y) -> Utf8 x -> Utf8 y ->
  quoted_parts (String quote_char (quote_bytes quote_path x +:+ String quote_char "") +:+ " " +:+ String quote_char (quote_bytes quote_path y +:+ String quote_char "")) = [x; y].
Proof.
  intros Hx Hy Hux Huy. set (second := String quote_char (quote_bytes quote_path y +:+ String quote_char "")).
  assert (String quote_char (quote_bytes quote_path x +:+ String quote_char "") +:+ " " +:+ second =
    String quote_char (quote_bytes quote_path x +:+ String quote_char (String " " second))) as -> by (rewrite string_app_cons, <- string_app_assoc; done).
  unfold quoted_parts. assert (exists n, String.length (String quote_char (quote_bytes quote_path x +:+ String quote_char (String " " second))) = S (S n)) as [n ->].
  { cbn [String.length]. rewrite length_string_app. cbn [String.length]. exists (String.length (quote_bytes quote_path x) + S (String.length second))%nat. lia. }
  rewrite quoted_parts_one by done. f_equal. change (quoted_parts_go (S n) second = [y]). unfold second. rewrite quoted_parts_one by done. by destruct n.
Qed.

Lemma header_same quote_path p : path_ok p -> header_file (git_path quote_path ("a/" +:+ p) +:+ " " +:+ git_path quote_path ("b/" +:+ p)) = file_new p Modified.
Proof.
  intros Hp. destruct (existsb (must_quote quote_path) (string_bytes p)) eqn:E.
  - assert (forall c, must_quote quote_path c = false -> existsb (must_quote quote_path) (string_bytes (String c "/" +:+ p)) = true) as Hq.
    { intros c Hc. rewrite string_bytes_app, existsb_app, E. by rewrite orb_true_r. }
    unfold git_path. rewrite (Hq "a"%char), (Hq "b"%char) by by destruct quote_path. unfold header_file, header_paths.
    assert (forall x y, starts_with (String quote_char "") (String quote_char x +:+ y) = true) as -> by done. cbn iota.
    destruct (side_ok "a" p) as [Hua Hra]; [by vm_compute|apply (bool_decide_unpack _); by vm_compute|done|].
    destruct (side_ok "b" p) as [Hub Hrb]; [by vm_compute|apply (bool_decide_unpack _); by vm_compute|done|].
    rewrite quoted_parts_two by done.
    assert (strip ("a/" +:+ p) "a/" = p /\ strip ("b/" +:+ p) "b/" = p) as [E1 E2] by (unfold strip; by rewrite !strip_prefix_app).
    revert E1 E2. generalize ("a/" +:+ p) ("b/" +:+ p). intros x y E1 E2. cbn -[strip]. rewrite E1, E2. cbn. by rewrite decide_True.
  - assert (forall c, must_quote quote_path c = false -> git_path quote_path (String c "/" +:+ p) = String c "/" +:+ p) as Hq.
    { intros c Hc. apply git_path_plain. rewrite string_bytes_app, existsb_app, E. cbn [existsb string_bytes]. rewrite Hc. by destruct quote_path. }
    rewrite (Hq "a"%char), (Hq "b"%char) by by destruct quote_path. rewrite <- string_app_assoc. by apply header_plain.
Qed.

(** Whatever its paths, a header starts a file with nothing read of it. *)
Lemma header_new rest : exists p o, header_file rest = set_old_path (file_new p Modified) o.
Proof. unfold header_file. destruct (header_paths rest) as [a b]. repeat case_match; by eexists _, _. Qed.

(** Between a header and a hunk, lines change the file. *)
Lemma plain_line s f line : rg_file s = Some f -> rg_hunk s = None -> strip_prefix "diff --git " line = None ->
  starts_with (String backslash "") line = false -> starts_with "@@ " line = false -> parse_line s line = Ok (set_rg_file s (Some (file_line f line))).
Proof. intros Ef Eh H1 H2 H3. unfold parse_line. rewrite H1, Ef, Eh. simpl. by rewrite H2, H3. Qed.

Definition header_line (line : string) : Prop :=
  strip_prefix "diff --git " line = None /\ starts_with (String backslash "") line = false /\ starts_with "@@ " line = false.

Lemma header_lines s f lines : rg_file s = Some f -> rg_hunk s = None -> Forall header_line lines ->
  parse_lines s lines = Ok (set_rg_file s (Some (foldl file_line f lines))).
Proof.
  intros Ef Eh Hl. revert s f Ef Eh. induction Hl as [|line lines (H1 & H2 & H3) _ IH]; intros s f Ef Eh; simpl.
  { destruct s. simpl in *. by subst. }
  rewrite (plain_line s f) by done. simpl. by rewrite (IH (set_rg_file s (Some (file_line f line))) (file_line f line)).
Qed.

Lemma tabbed_plain s : no_byte " " s -> tabbed s = s.
Proof.
  intros Hs. unfold tabbed. assert (existsb (fun a => bool_decide (a = " "%char)) (string_bytes s) = false) as ->; [|done].
  apply not_true_iff_false. rewrite existsb_exists. intros (a & Ha%list_elem_of_In & ->%bool_decide_eq_true). unfold no_byte in Hs. rewrite Forall_forall in Hs. by apply (Hs _ Ha).
Qed.

Lemma git_path_space quote_path s : no_byte " " s -> no_byte " " (git_path quote_path s).
Proof.
  assert (forall a, a ≠ " "%char -> no_byte " " (quote_byte quote_path a)) as Ha.
  { intros a Hne. assert (bool_decide (a ≠ " "%char) = true -> forallb (fun b => negb (bool_decide (b = " "%char))) (string_bytes (quote_byte quote_path a)) = true) as H.
    { destruct a as [[] [] [] [] [] [] [] []], quote_path; (intros _; vm_compute; reflexivity) || (intros H; exfalso; vm_compute in H; discriminate H). }
    rewrite bool_decide_eq_true, forallb_forall in H. apply Forall_forall. intros b Hb%list_elem_of_In%H; [|done]. by apply negb_true_iff, bool_decide_eq_false in Hb. }
  intros Hs. unfold git_path. destruct (existsb _ _); [|done]. constructor; [done|]. apply no_byte_app. split; [|by repeat constructor].
  induction s as [|a s IH]; [constructor|]. apply Forall_cons in Hs as [H1 H2]. cbn [quote_bytes]. apply no_byte_app. split; [by apply Ha|by apply IH].
Qed.

(** A side of a diff without a space, with its tab and its quotes *)
Lemma side_path quote_path c p : c = "a"%char \/ c = "b"%char -> path_ok p -> no_byte " " p ->
  side (tabbed (git_path quote_path (String c "/" +:+ p))) (String c "/") = Some p.
Proof.
  intros Hc Hp Hs. rewrite tabbed_plain by (apply git_path_space; constructor; [by destruct Hc as [-> | ->]|by constructor]).
  assert (path_ok (String c "/" +:+ p)) as [Hu Hr].
  { apply side_ok; [by destruct Hc as [-> | ->]|destruct Hc as [-> | ->]; apply (bool_decide_unpack _); by vm_compute|done]. }
  unfold side. rewrite decide_False.
  - rewrite unquote_git by done. unfold strip. by rewrite strip_prefix_app.
  - unfold git_path. destruct (existsb _ _); [done|]. destruct Hc as [-> | ->]; done.
Qed.

Lemma line_new f x : file_line f ("+++ " +:+ x) = match side x "b/" with Some path => set_path f path | None => f end.
Proof. done. Qed.

Lemma line_old f x : file_line f ("--- " +:+ x) =
  match side x "a/" with Some path => if bool_decide (fl_old_path f = None) && negb (bool_decide (path = fl_path f)) then set_old_path f (Some path) else f | None => f end.
Proof. done. Qed.

Lemma line_from f x : file_line f ("rename from " +:+ x) = set_status (set_old_path f (Some (unquote x))) Renamed.
Proof. done. Qed.
Lemma line_to f x : file_line f ("rename to " +:+ x) = set_status (set_path f (unquote x)) Renamed.
Proof. done. Qed.
Lemma line_binary f x : file_line f ("Binary files " +:+ x) = set_binary f true.
Proof. done. Qed.
Lemma line_added f x : file_line f ("new file mode " +:+ x) = set_status f Added.
Proof. done. Qed.
Lemma line_deleted f x : file_line f ("deleted file mode " +:+ x) = set_status f Deleted.
Proof. done. Qed.

(** Lines of a header that say nothing that is read *)
Definition ignored_line (line : string) : Prop := forall f, file_line f line = f.

Lemma ignored_lines f lines : Forall ignored_line lines -> foldl file_line f lines = f.
Proof. intros Hl. revert f. induction Hl as [|x l Hx _ IH]; intros f; [done|]. cbn [foldl]. rewrite Hx. apply IH. Qed.

(** A file before its hunks *)
Definition bare (f : File) : File := set_counts (set_hunks f []) 0 0.

Section Files.
Context (quote_path : bool).
Abbreviation path := (git_path quote_path).

Definition header_rest (d : GitDiff) : string := path ("a/" +:+ gd_from d) +:+ " " +:+ path ("b/" +:+ gd_path d).

Lemma header_lines_ok d : Forall header_line (tail (render_header quote_path d)).
Proof.
  unfold render_header. cbn [tail]. repeat (apply Forall_app; split).
  - destruct (gd_modes d) as [[]|]; by repeat constructor.
  - destruct (gd_change d); by repeat constructor.
  - destruct (gd_index d); by repeat constructor.
  - destruct (gd_binary d); [by repeat constructor|]. destruct (gd_hunks d); by repeat constructor.
Qed.

(** The names of a file, and of a new, a gone and a moved one *)
Lemma named_gives d f : diff_ok d -> fl_path f = gd_path d -> fl_old_path f = (match gd_change d with Moved from _ => Some from | _ => None end) ->
  let a := match gd_change d with Created _ => "/dev/null" | _ => path ("a/" +:+ gd_from d) end in
  let b := match gd_change d with Gone _ => "/dev/null" | _ => path ("b/" +:+ gd_path d) end in
  foldl file_line f (if gd_binary d then ["Binary files " +:+ a +:+ " and " +:+ b +:+ " differ"]
    else match gd_hunks d with [] => [] | _ => ["--- " +:+ tabbed a; "+++ " +:+ tabbed b] end) = if gd_binary d then set_binary f true else f.
Proof.
  intros [_ [Hp Ho] Hs _ _ _ _ _] Ef Eo a b. destruct (gd_binary d); [done|]. destruct (gd_hunks d) as [|h hs]; [done|].
  destruct Hs as [Hsp Hso]; [done|]. cbn [foldl].
  assert (file_line f ("--- " +:+ tabbed a) = f) as ->.
  { rewrite line_old. unfold a, gd_from in *. destruct (gd_change d); [| done| |];
      (rewrite side_path by (done || by left)); rewrite Eo, ?Ef; [..|done]; rewrite (bool_decide_eq_true_2 (gd_path d = gd_path d)) by done; by rewrite andb_false_r. }
  rewrite line_new. unfold b. destruct (gd_change d); [| | done|];
    (rewrite side_path by (done || by right)); unfold set_path; rewrite <- Ef; by destruct f.
Qed.

Lemma header_gives d : diff_ok d -> foldl file_line (header_file (header_rest d)) (tail (render_header quote_path d)) = bare (file_of d).
Proof.
  intros Hd. unfold render_header. cbn [tail]. rewrite !foldl_app.
  rewrite (ignored_lines _ (match gd_modes d with Some (x, y) => _ | None => _ end)) by (destruct (gd_modes d) as [[]|]; by repeat constructor).
  rewrite (ignored_lines _ (match gd_index d with Some index => _ | None => _ end)) by (destruct (gd_index d); by repeat constructor).
  pose proof (dk_path _ Hd) as [Hp Ho].
  assert (foldl file_line (header_file (header_rest d)) (match gd_change d with
      | Changed => [] | Created mode => ["new file mode " +:+ mode] | Gone mode => ["deleted file mode " +:+ mode]
      | Moved from n => ["similarity index " +:+ pretty n +:+ "%"; "rename from " +:+ path from; "rename to " +:+ path (gd_path d)] end)
    = set_binary (bare (file_of d)) false) as ->.
  { unfold header_rest, file_of, gd_from in *. destruct (gd_change d) as [|mode|mode|from n].
    1-3: rewrite header_same by done; cbn [foldl]; rewrite ?line_added, ?line_deleted; reflexivity.
    destruct (header_new (path ("a/" +:+ from) +:+ " " +:+ path ("b/" +:+ gd_path d))) as (p & o & ->). cbn [foldl].
    change (file_line ?f ("similarity index " +:+ ?x)) with f. rewrite line_from, line_to. destruct Hp, Ho. by rewrite !unquote_git. }
  rewrite named_gives by done. unfold file_of, bare. by destruct (gd_binary d).
Qed.

(** *** Whole files *)

Lemma count_lines_runs lines a r :
  a + count_kind KAdded lines <= u32_max -> r + count_kind KRemoved lines <= u32_max ->
  count_lines lines a r = Ok (a + count_kind KAdded lines, r + count_kind KRemoved lines).
Proof.
  revert a r. induction lines as [|l lines IH]; intros a r; [unfold count_kind; simpl; intros; do 2 f_equal; lia|].
  unfold count_kind, retain in *. simpl. destruct (ln_kind l); simpl; intros Ha Hr.
  - by apply IH.
  - rewrite inc_u32_lt by lia. simpl. rewrite IH by lia. do 2 f_equal. lia.
  - rewrite inc_u32_lt by lia. simpl. rewrite IH by lia. do 2 f_equal. lia.
Qed.

Lemma kinds_numbered o n lines : map ln_kind (number_lines o n lines) = map gl_kind lines.
Proof. revert o n. induction lines as [|[[] text cut] lines IH]; intros o n; [done|..]; cbn [number_lines map gl_kind ln_kind]; by rewrite IH. Qed.

Lemma count_numbered k (hs : list GitHunk) :
  count_kind k (flat_map hu_lines (map hunk_of hs)) = N.of_nat (length (retain (fun l => bool_decide (gl_kind l = k)) (flat_map gh_lines hs))).
Proof.
  assert (forall (l : list Line) (m : list GitLine), map ln_kind l = map gl_kind m ->
    length (retain (fun x => bool_decide (ln_kind x = k)) l) = length (retain (fun x => bool_decide (gl_kind x = k)) m)) as Hlen.
  { intros l. induction l as [|x l IH]; intros [|y m]; try done. cbn [map]. intros [= Ex El]. unfold retain in *. cbn [List.filter]. rewrite Ex.
    destruct (bool_decide _); cbn [length]; by rewrite (IH m). }
  unfold count_kind. f_equal. apply Hlen. induction hs as [|h hs IH]; [done|]. cbn [map flat_map]. rewrite !map_app, IH. f_equal. apply kinds_numbered.
Qed.

(** What was read is [files], were the file closed here. *)
Definition closes (s : Reading) (files : list File) : Prop := exists s', close_file s = Ok s' /\ rg_files s' = files /\ rg_hunk s' = None.

Lemma file_reads d s files : diff_ok d -> closes s files -> exists s', parse_lines s (render_file quote_path d) = Ok s' /\ closes s' (files ++ [file_of d]).
Proof.
  intros Hd (s0 & Hc & Hfiles & Hh). unfold render_file. rewrite parse_lines_app.
  change (render_header quote_path d) with (("diff --git " +:+ header_rest d) :: tail (render_header quote_path d)). cbn [parse_lines].
  assert (parse_line s ("diff --git " +:+ header_rest d) = Ok (set_rg_file s0 (Some (header_file (header_rest d))))) as ->.
  { unfold parse_line. rewrite strip_prefix_app, Hc. done. }
  cbn [res_bind]. rewrite (header_lines _ (header_file (header_rest d))); [|done|done|apply header_lines_ok]. rewrite header_gives by done. cbn [res_bind].
  set (s1 := set_rg_file _ _). destruct (hunks_read (gd_hunks d) s1 (bare (file_of d))) as (s2 & g & Hr & Hfs & Eg & Eh); [apply Hd|done|].
  rewrite Hr. exists s2. split; [done|]. unfold closes, close_file. destruct (close_hunk_file s2 g Eg) as (Ec & Ecf & Ech). rewrite Ec, Ecf, Ech.
  assert (open_hunks s1 = []) as E1 by (unfold open_hunks; simpl; by rewrite Hh). rewrite Eh, E1. simpl.
  destruct (dk_small _ Hd) as [Hsa Hsr]. simpl in Hsa, Hsr. rewrite <- count_numbered in Hsa, Hsr. rewrite count_lines_runs by (simpl; lia). simpl. eexists. split; [done|].
  simpl. split; [|done]. rewrite Hfs. unfold s1. simpl. rewrite Hfiles. f_equal. f_equal. unfold file_of. rewrite !count_numbered. done.
Qed.

Lemma files_read ds s files : Forall diff_ok ds -> closes s files ->
  exists s', parse_lines s (flat_map (render_file quote_path) ds) = Ok s' /\ closes s' (files ++ map file_of ds).
Proof.
  intros Hds. revert s files. induction Hds as [|d ds Hd _ IH]; intros s files Hc; [exists s; by rewrite app_nil_r|].
  change (flat_map (render_file quote_path) (d :: ds)) with (render_file quote_path d ++ flat_map (render_file quote_path) ds). rewrite parse_lines_app.
  destruct (file_reads d s files Hd Hc) as (s1 & H1 & Hc1). rewrite H1. cbn [res_bind]. destruct (IH s1 _ Hc1) as (s2 & H2 & Hc2).
  exists s2. split; [done|]. by rewrite <- app_assoc in Hc2.
Qed.

End Files.

Lemma empty_line s : parse_line s "" = Ok s.
Proof. unfold parse_line. simpl. destruct (rg_file s) as [f|] eqn:E; [|done]. destruct (rg_hunk s) eqn:Eh; destruct s; simpl in *; by subst. Qed.

Lemma split_lines c lines : Forall (no_byte c) lines -> split_on c (ended c lines) = lines ++ [""].
Proof. induction 1 as [|l lines Hl _ IH]; [done|]. cbn [ended]. by rewrite split_on_app, IH. Qed.

Lemma tabbed_line s : no_byte newline s -> no_byte newline (tabbed s).
Proof. intros Hs. unfold tabbed. destruct (existsb _ _); [|done]. apply no_byte_app. split; [done|by repeat constructor]. Qed.

Lemma render_file_lines quote_path d : diff_ok d -> Forall (no_byte newline) (render_file quote_path d).
Proof.
  intros [_ _ _ Hm Hc Hi _ Hhs]. pose proof (git_path_line quote_path) as Hg.
  assert (forall x s, no_byte newline x -> no_byte newline s -> no_byte newline (x +:+ s)) as Happ by (intros; by apply no_byte_app).
  assert (no_byte newline "/dev/null") as Hnull by by repeat constructor.
  apply Forall_app. split; [unfold render_header; constructor|].
  - apply Happ; [by repeat constructor|]. apply Happ; [done|]. apply Happ; [by repeat constructor|done].
  - assert (forall x, no_byte newline x -> Forall (no_byte newline) [x]) as H1 by (intros; by apply Forall_singleton).
    assert (forall x y, no_byte newline x -> no_byte newline y -> Forall (no_byte newline) [x; y]) as H2 by (intros; constructor; [done|by apply H1]).
    repeat (apply Forall_app; split).
    + destruct (gd_modes d) as [[x y]|]; [|constructor]. destruct Hm. apply H2; (apply Happ; [by repeat constructor|done]).
    + destruct (gd_change d) as [|mode|mode|from n]; [constructor|apply H1, Happ; [by repeat constructor|done]..|].
      constructor; [|apply H2; (apply Happ; [by repeat constructor|done])]. apply Happ; [by repeat constructor|]. apply Happ; [by apply digits_no_byte|by repeat constructor].
    + destruct (gd_index d); [|constructor]. apply H1, Happ; [by repeat constructor|done].
    + set (a := match gd_change d with Created _ => _ | _ => _ end). set (b := match gd_change d with Gone _ => _ | _ => _ end).
      assert (no_byte newline a) as Ha by (unfold a; by destruct (gd_change d)). assert (no_byte newline b) as Hb by (unfold b; by destruct (gd_change d)).
      destruct (gd_binary d).
      * apply H1, Happ; [by repeat constructor|]. apply Happ; [done|]. apply Happ; [by repeat constructor|]. apply Happ; [done|by repeat constructor].
      * destruct (gd_hunks d); [constructor|]. apply H2; (apply Happ; [by repeat constructor|by apply tabbed_line]).
  - apply Forall_forall. intros l (h & Hin%list_elem_of_In & Hl%list_elem_of_In)%list_elem_of_In%in_flat_map.
    rewrite Forall_forall in Hhs. destruct (Hhs h Hin) as [_ _ _ Hs Ht]. unfold render_hunk in Hl. apply elem_of_cons in Hl as [->|Hl].
    + apply Happ; [by repeat constructor|]. apply Happ; [apply ranges_no_byte; [done|]; apply (bool_decide_unpack _); by vm_compute|].
      apply Happ; [by repeat constructor|]. destruct (str_is_empty _); [constructor|]. apply Happ; [by repeat constructor|done].
    + apply list_elem_of_In, in_flat_map in Hl as (x & Hx%list_elem_of_In & Hl%list_elem_of_In). rewrite Forall_forall in Ht. unfold render_line in Hl.
      apply elem_of_cons in Hl as [->|Hl]; [constructor; [by destruct (gl_kind x)|by apply Ht]|]. destruct (gl_cut x); [|by apply elem_of_nil in Hl].
      apply list_elem_of_singleton in Hl as ->. by repeat constructor.
Qed.

(** ** The theorems *)

(** C34 What git says of changed, new, deleted, moved and binary files reads back from what it writes:
    the paths, which git quotes where it has to, with [core.quotePath] on and off; modes, index
    lines and the likeness of moved files are passed over; a hunk starts where git says, at least
    at line 1, has git's scope, and its lines have their kind, their text and their numbers on
    both sides, whether or not the file ends in a line end.  Paths are UTF-8 without the bytes 7,
    8, 11, 12 and 13, whose escapes are read as letters, and where there are hunks without
    spaces, since git puts a tab after such a path and the tab is read as part of it; the scope
    has no white space at its ends, and line numbers fit 32 bits. *)
Theorem diff_reads_back quote_path diffs : Forall diff_ok diffs -> parse (render quote_path diffs) = Ok (map file_of diffs).
Proof.
  intros Hds. unfold parse, render. rewrite split_lines.
  - destruct (files_read quote_path diffs reading_default [] Hds) as (s & Hr & s' & Hc & Hfiles & _); [by eexists|]. rewrite parse_lines_app, Hr. cbn [res_bind parse_lines].
    rewrite empty_line. cbn [res_bind]. rewrite Hc. cbn [res_bind]. by rewrite Hfiles.
  - apply Forall_forall. intros l (d & Hin%list_elem_of_In & Hl%list_elem_of_In)%list_elem_of_In%in_flat_map.
    rewrite Forall_forall in Hds. pose proof (render_file_lines quote_path d (Hds d Hin)) as Hall. rewrite Forall_forall in Hall. by apply Hall.
Qed.

(** C35 Whatever the text, what is read of it is sound: the lines of each hunk are numbered one
    after another from its starts, on the sides they are on and no other, within [u32], and a
    file's counts are those of its lines. *)
Theorem parsed_numbers text files :
  parse text = Ok files ->
  Forall (fun f => Forall hunk_numbered (fl_hunks f) /\ fl_added f = count_kind KAdded (flat_map hu_lines (fl_hunks f)) /\
                   fl_removed f = count_kind KRemoved (flat_map hu_lines (fl_hunks f))) files.
Proof. intros Hp. eapply Forall_impl; [by eapply parse_ok|]. by intros f [H1 H2 H3 _ _]. Qed.

(** ** On concrete input *)

(** [caf\303\251 "x"] is moved and changed at its end, an empty file is new. *)
Definition accented : string := "caf" +:+ String (ascii_of_N 195) (String (ascii_of_N 169) (String quote_char "x")).
Definition sample_diffs : list GitDiff :=
  [mkGitDiff accented (Moved "docs/old.md" 90) (Some ("100644", "100755")) (Some "1111111..2222222") false
     [mkGitHunk 18 18 "fn main() {" [mkGitLine KContext "  a" false; mkGitLine KRemoved "- b" true; mkGitLine KAdded "+c" true]];
   mkGitDiff "a b" (Created "100644") None (Some "0000000..e69de29") false [];
   mkGitDiff "new" (Created "100644") None (Some "0000000..3333333") false [mkGitHunk 0 1 "" [mkGitLine KAdded "x" false]]].

Lemma path_ok_at p : utf8_split p = (p, "", "") -> bool_decide (Forall readable (string_bytes p)) = true -> path_ok p.
Proof. intros Hu Hr. split; [by apply utf8_split_spec in Hu as (_ & ? & _)|by apply bool_decide_eq_true in Hr]. Qed.

Lemma sample_diffs_ok : Forall diff_ok sample_diffs.
Proof.
  assert (forall p, p ∈ [accented; "docs/old.md"; "a b"; "new"] -> path_ok p) as Hp.
  { intros p Hp. repeat (apply elem_of_cons in Hp as [->|Hp]; [apply path_ok_at; vm_compute; reflexivity|]). by apply elem_of_nil in Hp. }
  assert (forall h, h ∈ flat_map gd_hunks sample_diffs -> hunk_ok h) as Hh.
  { intros h Hh. repeat (apply elem_of_cons in Hh as [->|Hh]; [split; try (by vm_compute); apply (bool_decide_unpack _); vm_compute; reflexivity|]). by apply elem_of_nil in Hh. }
  unfold sample_diffs. constructor; [|constructor; [|constructor; [|constructor]]]; split; try done;
    try (split; apply Hp; set_solver); try (apply Forall_singleton, Hh; cbn; set_solver); try (apply (bool_decide_unpack _); vm_compute; reflexivity).
Qed.

(** With [core.quotePath] on and off *)
Lemma diff_reads_back_witness :
  git_path true ("b/" +:+ accented) = in_quotes ("b/caf\303\251\" +:+ String quote_char "x") /\
  parse (render true sample_diffs) = Ok (map file_of sample_diffs) /\ parse (render false sample_diffs) = Ok (map file_of sample_diffs).
Proof. split; [vm_compute; reflexivity|]. split; [apply (diff_reads_back true)|apply (diff_reads_back false)]; exact sample_diffs_ok. Defined.

Definition sample_patch : string := ended newline ["diff --git a/x b/x"; "--- a/x"; "+++ b/x"; "@@ -3 +3,2 @@ f"; " one"; "+two"; "junk"; "+three"].
Lemma parsed_numbers_witness :
  (map (fun f => (fl_path f, fl_added f, fl_removed f)) <$> res_ok (parse sample_patch)) = Some [("x", 2, 0)] /\
  exists files, parse sample_patch = Ok files /\ Forall (fun f => Forall hunk_numbered (fl_hunks f)) files.
Proof.
  split; [by vm_compute|]. destruct (parse sample_patch) as [files| |] eqn:E; [|by vm_compute in E..]. exists files. split; [done|].
  eapply Forall_impl; [exact (parsed_numbers _ _ E)|]. by intros f [Hf _].
Defined.

(** The escapes that git writes for a carriage return, a bell and others are read as their letter. *)
Example carriage_return_lost : unquote (in_quotes "a\rb") = "arb".
Proof. by vm_compute. Qed.

(** What git writes of the moved file *)
Example as_git_writes :
  let b := in_quotes ("b/caf\303\251\" +:+ String quote_char "x") in
  let to := in_quotes ("caf\303\251\" +:+ String quote_char "x") in
  option_map (render_file true) (head sample_diffs) =
    Some ["diff --git a/docs/old.md " +:+ b; "old mode 100644"; "new mode 100755"; "similarity index 90%"; "rename from docs/old.md"; "rename to " +:+ to;
          "index 1111111..2222222"; "--- a/docs/old.md"; "+++ " +:+ b; "@@ -18,2 +18,2 @@ fn main() {"; "   a"; "-- b"; "\ No newline at end of file";
          "++c"; "\ No newline at end of file"].
Proof. vm_compute. reflexivity. Qed.

(** git puts a tab after a path with a space, and it is read as part of the path: the file is not the
    one that [git diff --numstat] names. *)
Example space_gets_tab :
  let d := mkGitDiff "a b" Changed None None false [mkGitHunk 1 1 "" [mkGitLine KRemoved "x" false; mkGitLine KAdded "y" false]] in
  map (fun f => (fl_path f, fl_old_path f)) <$> res_ok (parse (render true [d])) = Some [("a b" +:+ tab, Some ("a b" +:+ tab))].
Proof. by vm_compute. Qed.
