(* ===== verification/Diffs.v ===== *)
(** * Loading a diff: [crates/kanna-diff/src/lib.rs]

    A diff is git's list of changed files ([--numstat]), each with what its patch says, and
    then the files git does not track.  Git and the disk are the class [Git]. *)

From S2P Require Import Prelude Text PipeText Json Pipe Utf8 Patch PatchTheorems.
From Stdlib Require Import Ascii.

#[local] Open Scope N_scope.

(** The text that [git] prints in a folder, or its error; a run with input on its standard
    input; the bytes of the file of a path in a folder *)
Class Git := {
  git_text : list string -> string -> string + string;
  git_input : list string -> string -> string -> string + string;
  read_file : string -> string -> option string }.

Record Diff := mkDiff {
  df_folder : string;
  df_args : list string;
  df_top : string;
  df_git_dir : string;
  df_common_dir : string;
  df_files : list File;
  df_error : option string }.

Definition FORMAT : list string := ["--no-color"; "--no-ext-diff"; "--no-textconv"; "--src-prefix=a/"; "--dst-prefix=b/"].

Definition command (d : Diff) : string := join " " ("git diff" :: df_args d).

(** [iter().sum()] of [u32] *)
Fixpoint sum_u32 (l : list N) (acc : N) : res N :=
  match l with [] => Ok acc | x :: l => let? acc := add_u32 acc x in sum_u32 l acc end.

Definition diff_to_json (d : Diff) : res Value :=
  let? added := sum_u32 (map fl_added (df_files d)) 0 in
  let? removed := sum_u32 (map fl_removed (df_files d)) 0 in
  Ok (obj [("folder", JString (df_folder d)); ("args", JArray (map JString (df_args d))); ("command", JString (command d)); ("top", JString (df_top d));
           ("files", JArray (map file_to_json (df_files d))); ("added", from_usize added); ("removed", from_usize removed); ("error", opt (df_error d))]).

Definition before_dashes (args : list string) : list string :=
  match position (fun a => bool_decide (a = "--")) args with Some i => take i args | None => args end.
Definition pathspecs (args : list string) : list string :=
  match position (fun a => bool_decide (a = "--")) args with Some i => drop (i + 1) args | None => [] end.

Definition diff_args (extra args : list string) : list string := "diff" :: FORMAT ++ extra ++ args.

Section Load.
Context {git : Git}.

(** [Err] of an error that git printed *)
Definition or_error {A} (r : string + A) : outcome string A := match r with inr a => Good a | inl e => Bad e end.
Definition panics {A} (r : res A) : outcome string A := match r with Ok a => Good a | _ => Crash end.

Definition shows_worktree (args : list string) (folder : string) : bool :=
  let options := before_dashes args in
  if existsb (fun a => bool_decide (a = "--staged") || bool_decide (a = "--cached") || bool_decide (a = "--no-index")) options then false
  else match git_text (["rev-parse"; "--revs-only"; "--no-flags"] ++ options) folder with
       | inr out => (length (retain (fun l => negb (str_is_empty l)) (str_lines out)) <=? 1)%nat
       | inl _ => true
       end.

Definition status_of (path : string) (args : list string) (folder : string) : Status :=
  match git_text (diff_args ["--name-status"; "-z"] (before_dashes args) ++ ["--"; ":(top,literal)" +:+ path]) folder with
  | inr out =>
    match head (chars out) with
    | Some c => if decide (c = 65) then Added else if decide (c = 68) then Deleted else if decide (c = 82) then Renamed else Modified
    | None => Modified
    end
  | inl _ => Modified
  end.

(** The paths that [.gitattributes] says are generated: groups of three fields *)
Fixpoint attr_set (fields : list string) : list string :=
  match fields with
  | path :: _ :: value :: fields => if bool_decide (value = "true") || bool_decide (value = "set") then path :: attr_set fields else attr_set fields
  | _ => []
  end.
Definition nul_text : string := String nul "".
Definition generated (paths : list string) (top : string) : outcome string (gset string) :=
  match paths with
  | [] => Good ∅
  | _ => let* out := or_error (git_input ["check-attr"; "-z"; "--stdin"; "linguist-generated"] top (join nul_text paths +:+ nul_text)) in
         Good (list_to_set (attr_set (split_on nul out)))
  end.

(** The paths that git ignores *)
Definition ignored (paths : list string) (top : string) : gset string :=
  match paths with
  | [] => ∅
  | _ => match git_input ["check-ignore"; "-z"; "--stdin"] top (join nul_text paths +:+ nul_text) with
         | inr out => list_to_set (retain (fun p => negb (str_is_empty p)) (split_on nul out))
         | inl _ => ∅
         end
  end.

(** The files that are not shown *)
Fixpoint fold_stats (show gen : gset string) (stats : list Numstat) (folds : gmap string Fold) : outcome string (gmap string Fold) :=
  match stats with
  | [] => Good folds
  | stat :: stats =>
    if negb (ns_binary stat) && negb (bool_decide (ns_path stat ∈ show)) then
      let* f := panics (fold (ns_path stat) (ns_added stat) (ns_removed stat) (bool_decide (ns_path stat ∈ gen))) in
      fold_stats show gen stats (match f with Some f => <[ns_path stat := f]> folds | None => folds end)
    else fold_stats show gen stats folds
  end.

(** What git is asked for, with the files that are not shown left out *)
Definition patch_args (args : list string) (folds : gmap string Fold) : list string :=
  match sorted_keys folds with
  | [] => args
  | keys =>
    let args := if contains args "--" then args else args ++ ["--"] in
    let args := match pathspecs args with [] => args ++ [":(top)"] | _ => args end in
    args ++ map (fun p => ":(top,exclude,literal)" +:+ p) keys
  end.

(** Files by path: of two with one path, the later *)
Definition by_paths (files : list File) : gmap string File := foldl (fun m f => <[fl_path f := f]> m) ∅ files.

Definition stat_file (args : list string) (folder : string) (folds : gmap string Fold) (found : option File) (stat : Numstat) : File :=
  let file := match found with
              | Some file => file
              | None =>
                let file := file_new (ns_path stat) Modified in
                match folds !! ns_path stat with
                | Some f => set_status (set_fold file (Some f)) (status_of (ns_path stat) args folder)
                | None => file
                end
              end in
  let file := set_counts file (ns_added stat) (ns_removed stat) in
  let file := set_binary file (fl_binary file || ns_binary stat) in
  let file := match fl_old_path file with None => set_old_path file (ns_old_path stat) | Some _ => file end in
  match fl_old_path file, fl_status file with
  | Some _, Modified => set_status file Renamed
  | _, _ => file
  end.

Fixpoint stat_files (args : list string) (folder : string) (folds : gmap string Fold) (by_path : gmap string File) (stats : list Numstat) : list File :=
  match stats with
  | [] => []
  | stat :: stats =>
    stat_file args folder folds (by_path !! ns_path stat) stat :: stat_files args folder folds (base.delete (ns_path stat) by_path) stats
  end.

Definition untracked_file (show : gset string) (top path : string) : outcome string File :=
  let file := untracked path (default "" (read_file top path)) in
  if negb (bool_decide (path ∈ show)) && negb (fl_binary file) then
    let* f := panics (fold path (fl_added file) 0 false) in
    match f with Some f => Good (set_hunks (set_fold file (Some f)) []) | None => Good file end
  else Good file.

Fixpoint untracked_files (show : gset string) (top : string) (paths : list string) : outcome string (list File) :=
  match paths with
  | [] => Good []
  | path :: paths => let* file := untracked_file show top path in let* files := untracked_files show top paths in Good (file :: files)
  end.

(** [fill], once the folders are known *)
Definition fill (folder top : string) (args : list string) (show : gset string) : outcome string (list File) :=
  let* out := or_error (git_text (diff_args ["--numstat"; "-z"] args) folder) in
  let stats := numstat out in
  let* gen := generated (map ns_path stats) top in
  let* folds := fold_stats show gen stats ∅ in
  let* out := or_error (git_text (diff_args [] (patch_args args folds)) folder) in
  let* parsed := panics (parse out) in
  let files := stat_files args folder folds (by_paths parsed) stats in
  let* others := (if shows_worktree args folder then
                    let* out := or_error (git_text (["ls-files"; "--others"; "--exclude-standard"; "--full-name"; "-z"; "--"] ++ pathspecs args) folder) in
                    untracked_files show top (retain (fun p => negb (str_is_empty p)) (split_on nul out))
                  else Good []) in
  Good (files ++ others).

(** [load]: an error of git is shown in place of the files. *)
Definition load (folder : string) (args : list string) (show : gset string) : res Diff :=
  match git_text ["rev-parse"; "--path-format=absolute"; "--show-toplevel"; "--git-dir"; "--git-common-dir"] folder with
  | inl e => Ok (mkDiff folder args "" "" "" [] (Some e))
  | inr out =>
    let dirs := str_lines out in
    let dir i := default "" (dirs !! i) in
    let diff := mkDiff folder args (dir 0%nat) (dir 1%nat) (dir 2%nat) in
    match fill folder (dir 0%nat) args show with
    | Good files => Ok (diff files None)
    | Bad e => Ok (diff [] (Some e))
    | Crash => Panic
    end
  end.
End Load.

(** ** What is loaded *)

Lemma outcome_bind_Good {E A B} (r : outcome E A) (k : A -> outcome E B) b : outcome_bind r k = Good b -> exists a, r = Good a /\ k a = Good b.
Proof. destruct r; simpl; [|done..]. eauto. Qed.

Lemma or_error_Good {A} (r : string + A) a : or_error r = Good a -> r = inr a.
Proof. destruct r; simpl; [done|]. by intros [= ->]. Qed.

Lemma by_paths_lookup files p f : by_paths files !! p = Some f -> fl_path f = p /\ f ∈ files.
Proof.
  unfold by_paths. assert (forall m : gmap string File, (forall q g, m !! q = Some g -> fl_path g = q) -> foldl (fun m f => <[fl_path f := f]> m) m files !! p = Some f ->
    fl_path f = p /\ (m !! p = Some f \/ f ∈ files)) as Hgo.
  { induction files as [|x files IH]; intros m Hm; simpl; [intros Hp; split; [by apply Hm|by left]|]. intros Hp.
    destruct (IH (<[fl_path x := x]> m)) as (H1 & H2); [|done|].
    - intros q g. rewrite lookup_insert_Some. intros [[<- <-]|[_ Hq]]; [done|by apply Hm].
    - split; [done|]. destruct H2 as [H2|H2]; [|by right; right]. apply lookup_insert_Some in H2 as [[_ <-]|[_ H2]]; [right; left|by left]. }
  intros Hp. destruct (Hgo ∅) as (H1 & [H2|H2]); [done|done|by rewrite lookup_empty in H2|done].
Qed.

Section LoadFacts.
Context {git : Git}.

(** What a file of the list says of its line of [--numstat] *)
Record shows_stat (files : list File) (stat : Numstat) (f : File) : Prop := {
  sh_path : fl_path f = ns_path stat;
  sh_counts : fl_added f = ns_added stat /\ fl_removed f = ns_removed stat;
  sh_binary : ns_binary stat = true -> fl_binary f = true;
  sh_old : is_Some (ns_old_path stat) -> is_Some (fl_old_path f) /\ fl_status f ≠ Modified;
  sh_hunks : fl_hunks f = [] \/ exists g, g ∈ files /\ fl_path g = ns_path stat /\ fl_hunks f = fl_hunks g }.

Lemma stat_file_shows files args folder folds found stat :
  (forall g, found = Some g -> fl_path g = ns_path stat /\ g ∈ files) -> shows_stat files stat (stat_file args folder folds found stat).
Proof.
  intros Hfound. unfold stat_file. set (f0 := match found with Some file => file | None => _ end).
  assert (fl_path f0 = ns_path stat /\ (fl_hunks f0 = [] \/ exists g, g ∈ files /\ fl_path g = ns_path stat /\ fl_hunks f0 = fl_hunks g)) as [Hp Hh].
  { unfold f0. destruct found as [g|]; [destruct (Hfound g eq_refl); split; [done|right; by exists g]|]. destruct (folds !! _); split; try done; by left. }
  clearbody f0. destruct f0 as [p o st a r b u fo hs]. simpl in *. destruct o as [o|], st, (ns_old_path stat) as [o'|] eqn:Eo; simpl; split; simpl; try done;
    try (intros ->; by rewrite orb_true_r); rewrite Eo; intros [? ?]; by try (split; [eexists|]).
Qed.

Lemma stat_files_show files args folder folds by_path stats :
  (forall p g, by_path !! p = Some g -> fl_path g = p /\ g ∈ files) -> Forall2 (shows_stat files) stats (stat_files args folder folds by_path stats).
Proof.
  revert by_path. induction stats as [|stat stats IH]; intros by_path Hb; simpl; constructor.
  - apply stat_file_shows. intros g Hg. by apply Hb.
  - apply IH. intros p g [_ Hg]%lookup_delete_Some. by apply Hb.
Qed.

Lemma untracked_new path data : fl_untracked (untracked path data) = true /\ fl_status (untracked path data) = Added /\ fl_path (untracked path data) = path.
Proof. unfold untracked. by repeat case_match. Qed.

Lemma untracked_files_new show top paths files :
  untracked_files show top paths = Good files -> Forall2 (fun p f => fl_path f = p /\ fl_untracked f = true /\ fl_status f = Added /\ (fl_fold f = None \/ fl_hunks f = [])) paths files.
Proof.
  revert files. induction paths as [|p paths IH]; intros files; simpl; [intros [= <-]; constructor|].
  intros (f & Hf & (fs & Hfs & [= <-])%outcome_bind_Good)%outcome_bind_Good. constructor; [|by apply IH]. revert Hf. unfold untracked_file.
  pose proof (untracked_new p (default "" (read_file top p))) as (Hu & Hs & Hp). set (u := untracked _ _) in *.
  assert (fl_fold u = None) as Hfold by (unfold u, untracked; by repeat case_match).
  destruct (_ && _); [|intros [= <-]; split_and!; try done; by left].
  intros (fo & _ & H)%outcome_bind_Good. destruct fo; injection H as <-; split_and!; try done; [by right|by left].
Qed.

(** A diff that loads lists the changed files exactly as git counts them, one for each line of
    [--numstat] and in its order, with its counts, binary where git says so and renamed where
    git gives an old path, each with no hunks or with those that its patch has, soundly
    numbered; after them the files that are not tracked, all added, with no hunks where they
    are folded.  Where git fails, its error is shown and no file. *)
Theorem load_exact folder args show d :
  load folder args show = Ok d ->
  (exists e, df_error d = Some e /\ df_files d = []) \/
  (df_error d = None /\ exists out parsed tracked others,
     git_text (diff_args ["--numstat"; "-z"] args) folder = inr out /\
     df_files d = tracked ++ others /\ Forall2 (shows_stat parsed) (numstat out) tracked /\ Forall file_read parsed /\
     Forall (fun f => fl_untracked f = true /\ fl_status f = Added /\ (fl_fold f = None \/ fl_hunks f = [])) others).
Proof.
  unfold load. destruct (git_text _ folder) as [e|dirs]; [intros [= <-]; left; by exists e|].
  destruct (fill folder _ args show) as [files|e|] eqn:Ef; [|intros [= <-]; left; by exists e|done]. intros [= <-]. right. split; [done|].
  unfold fill in Ef. apply outcome_bind_Good in Ef as (out & Hout%or_error_Good & Ef). apply outcome_bind_Good in Ef as (gen & _ & Ef).
  apply outcome_bind_Good in Ef as (folds & _ & Ef). apply outcome_bind_Good in Ef as (text & _ & Ef). apply outcome_bind_Good in Ef as (parsed & Hp & Ef).
  apply outcome_bind_Good in Ef as (others & Ho & [= <-]). unfold panics in Hp. destruct (parse text) as [fs| |] eqn:Epa; [|done..]. injection Hp as ->.
  eexists out, parsed, _, others. split_and!; [done|done| |by eapply parse_ok|].
  - apply stat_files_show. intros p g. apply by_paths_lookup.
  - destruct (shows_worktree args folder); [|injection Ho as <-; constructor]. apply outcome_bind_Good in Ho as (o & _ & Ho%untracked_files_new).
    clear -Ho. induction Ho as [|p f ps fs (_ & Hf) _ IH]; by constructor.
Qed.
End LoadFacts.

(** A repository with one changed file and one that is not tracked *)
Definition nul_join (l : list string) : string := join nul_text l.
Definition sample_git : Git := {|
  git_text args folder :=
    if contains args "--show-toplevel" then inr (join (String newline "") ["/r"; "/r/.git"; "/r/.git"])
    else if contains args "--numstat" then inr (nul_join ["1" +:+ tab +:+ "0" +:+ tab +:+ "x"; ""])
    else if contains args "ls-files" then inr (nul_join ["y"; ""])
    else if contains args "diff" then inr (join (String newline "") ["diff --git a/x b/x"; "--- a/x"; "+++ b/x"; "@@ -3 +3,2 @@ f"; " one"; "+two"; ""])
    else inr "";
  git_input args folder input := inr "";
  read_file folder path := Some "new" |}.

Lemma load_exact_witness :
  exists d, load (git := sample_git) "/r" [] ∅ = Ok d /\ map fl_path (df_files d) = ["x"; "y"] /\
    exists out, git_text (Git := sample_git) (diff_args ["--numstat"; "-z"] []) "/r" = inr out.
Proof.
  destruct (load (git := sample_git) "/r" [] ∅) as [d| |] eqn:E; [|by vm_compute in E..]. exists d. split; [done|].
  destruct (load_exact (git := sample_git) "/r" [] ∅ d E) as [(e & He & _)|(_ & out & _ & _ & _ & Hout & _)].
  - vm_compute in E. by injection E as <-.
  - split; [vm_compute in E; by injection E as <-|]. by exists out.
Defined.
