(* ===== verification/Graph.v ===== *)
(** * The graph of a log: [shape] of [crates/kanna-log/src/graph.rs]

    The line of first parents from the head is the spine; what a merge on it brought in is its
    side, and a long side is folded into its merge unless something else builds on it. *)

From S2P Require Import Prelude Text Json.

Definition FOLD_OVER : nat := 3.

Record Row := mkRow {
  r_hash : string;
  r_parents : list string;
  r_author : string;
  r_time : Z;
  r_refs : list string;
  r_subject : string;
  r_spine : bool;
  r_side : option string;
  r_fold : nat }.

Definition set_spine (r : Row) (x : bool) : Row := mkRow (r_hash r) (r_parents r) (r_author r) (r_time r) (r_refs r) (r_subject r) x (r_side r) (r_fold r).
Definition set_side (r : Row) (x : option string) : Row := mkRow (r_hash r) (r_parents r) (r_author r) (r_time r) (r_refs r) (r_subject r) (r_spine r) x (r_fold r).
Definition set_fold (r : Row) (x : nat) : Row := mkRow (r_hash r) (r_parents r) (r_author r) (r_time r) (r_refs r) (r_subject r) (r_spine r) (r_side r) x.

Definition row_to_json (r : Row) : Value :=
  obj [("hash", JString (r_hash r)); ("parents", JArray (map JString (r_parents r))); ("author", JString (r_author r)); ("time", from_i64 (r_time r));
       ("refs", JArray (map JString (r_refs r))); ("subject", JString (r_subject r)); ("spine", JBool (r_spine r)); ("side", opt (r_side r));
       ("fold", from_usize (N.of_nat (r_fold r)))].

(** Where a hash is: of two rows with one hash, the later *)
Fixpoint index_from (i : nat) (rows : list Row) (at_ : gmap string nat) : gmap string nat :=
  match rows with [] => at_ | r :: rows => index_from (S i) rows (<[r_hash r := i]> at_) end.
Definition index (rows : list Row) : gmap string nat := index_from 0 rows ∅.

Definition parents_of (rows : list Row) (i : nat) : list string := match rows !! i with Some r => r_parents r | None => [] end.
(** The rows of the parents that are in the range *)
Definition parent_rows (rows : list Row) (i : nat) : list nat := omap (fun p => index rows !! p) (parents_of rows i).

(** Each turn adds a row that is not on it yet. *)
Fixpoint spine_go (rows : list Row) (fuel : nat) (next : option string) (spine : list nat) : list nat :=
  match fuel with
  | O => spine
  | S fuel =>
    match next ≫= (fun h => index rows !! h) with
    | None => spine
    | Some i => if contains spine i then spine else spine_go rows fuel (head (parents_of rows i)) (spine ++ [i])
    end
  end.

Definition head_of (rows : list Row) (main : option string) : option string :=
  match (m ← main; if bool_decide (is_Some (index rows !! m)) then Some m else None) with
  | Some m => Some m
  | None => r_hash <$> head rows
  end.
Definition spine_of (rows : list Row) (main : option string) : list nat := spine_go rows (S (length rows)) (head_of rows main) [].

(** The side of a merge: what is reached from its other parents, off the spine and not yet taken.
    The top of the stack is first. *)
Fixpoint side_go (rows : list Row) (spine : list nat) (taken : gmap nat nat) (fuel : nat) (stack side : list nat) : list nat :=
  match fuel with
  | O => side
  | S fuel =>
    match stack with
    | [] => side
    | i :: stack =>
      if contains spine i || bool_decide (is_Some (taken !! i)) || contains side i then side_go rows spine taken fuel stack side
      else side_go rows spine taken fuel (rev (parent_rows rows i) ++ stack) (side ++ [i])
    end
  end.
(** Each row puts its parents on the stack once. *)
Definition side_fuel (rows : list Row) : nat := S (2 * list_sum (map (fun r => length (r_parents r)) rows)).
Definition side_of (rows : list Row) (spine : list nat) (taken : gmap nat nat) (merge : nat) : list nat :=
  side_go rows spine taken (side_fuel rows) (rev (omap (fun p => index rows !! p) (drop 1 (parents_of rows merge)))) [].

Definition take_all (merge : nat) (side : list nat) (taken : gmap nat nat) : gmap nat nat := foldl (fun m i => <[i := merge]> m) taken side.

Fixpoint sides_go (rows : list Row) (spine : list nat) (merges : list nat) (taken : gmap nat nat) : list (nat * list nat) :=
  match merges with
  | [] => []
  | merge :: merges =>
    let side := side_of rows spine taken merge in
    let rest := sides_go rows spine merges (take_all merge side taken) in
    match side with [] => rest | _ => (merge, side) :: rest end
  end.
Definition sides (rows : list Row) (spine : list nat) : list (nat * list nat) := sides_go rows spine (rev spine) ∅.

Definition hidden (folding : list (nat * list nat)) : list nat := flat_map snd folding.

(** Whether nothing that is shown, but the merge, builds on the side *)
Definition keeps_fold (rows : list Row) (folding : list (nat * list nat)) (f : nat * list nat) : bool :=
  negb (existsb (fun i => negb (bool_decide (i = fst f)) && negb (contains (hidden folding) i) && existsb (contains (snd f)) (parent_rows rows i)) (seq 0 (length rows))).

(** Until none is dropped *)
Fixpoint folds_go (rows : list Row) (fuel : nat) (folding : list (nat * list nat)) : list (nat * list nat) :=
  match fuel with
  | O => folding
  | S fuel =>
    let kept := retain (keeps_fold rows folding) folding in
    if decide (length kept = length folding) then kept else folds_go rows fuel kept
  end.

Definition mark_side (hash : string) (rows : list Row) (side : list nat) : list Row := foldl (fun rows i => alter (fun r => set_side r (Some hash)) i rows) rows side.
Definition mark_fold (rows : list Row) (f : nat * list nat) : list Row :=
  let rows := alter (fun r => set_fold r (length (snd f))) (fst f) rows in
  match rows !! fst f with Some r => mark_side (r_hash r) rows (snd f) | None => rows end.
Definition mark_spine (rows : list Row) (spine : list nat) : list Row := foldl (fun rows i => alter (fun r => set_spine r true) i rows) rows spine.

Definition folded (rows : list Row) (main : option string) : list (nat * list nat) :=
  let folding := retain (fun f => FOLD_OVER <? length (snd f))%nat (sides rows (spine_of rows main)) in
  folds_go rows (S (length folding)) folding.

Definition shape (rows : list Row) (main : option string) : list Row :=
  foldl mark_fold (mark_spine rows (spine_of rows main)) (folded rows main).
