(* ===== verification/GraphTheorems.v ===== *)
(** * The graph of a log: what [shape] of [crates/kanna-log/src/graph.rs] shows *)

From stdpp Require Import relations.
From S2P Require Import Prelude Text Graph.

(** ** Where hashes are *)

Lemma index_from_Some i rows at_ h j :
  index_from i rows at_ !! h = Some j -> at_ !! h = Some j \/ exists r, rows !! (j - i)%nat = Some r /\ r_hash r = h /\ (i <= j)%nat.
Proof.
  revert i at_. induction rows as [|r rows IH]; intros i at_; simpl; [by left|]. intros [Hj|(x & Hx & Hh & Hle)]%IH.
  - apply lookup_insert_Some in Hj as [[<- <-]|[_ Hj]]; [|by left]. right. exists r. rewrite Nat.sub_diag. split_and!; [done|done|lia].
  - right. exists x. replace (j - i)%nat with (S (j - S i)) by lia. split_and!; [done|done|lia].
Qed.

Lemma index_Some rows h i : index rows !! h = Some i -> exists r, rows !! i = Some r /\ r_hash r = h.
Proof. intros [Hi|(r & Hr & Hh & _)]%index_from_Some; [by rewrite lookup_empty in Hi|]. exists r. by rewrite Nat.sub_0_r in Hr. Qed.

Lemma index_from_is_Some i rows at_ h : is_Some (at_ !! h) \/ h ∈ map r_hash rows -> is_Some (index_from i rows at_ !! h).
Proof.
  revert i at_. induction rows as [|r rows IH]; intros i at_; simpl; [intros [?|Hh]; [done|by apply elem_of_nil in Hh]|].
  intros [Ha|[->|Hh]%elem_of_cons]; apply IH; [|left; by rewrite lookup_insert_eq|by right].
  left. destruct (decide (r_hash r = h)) as [->|Hne]; [by rewrite lookup_insert_eq|by rewrite lookup_insert_ne].
Qed.

(** Where hashes are unique, a hash has its row. *)
Lemma index_unique rows i r : NoDup (map r_hash rows) -> rows !! i = Some r -> index rows !! r_hash r = Some i.
Proof.
  intros Hnd Hi. destruct (index_from_is_Some 0 rows ∅ (r_hash r)) as [j Hj].
  { right. apply list_elem_of_In, in_map, list_elem_of_In. by eapply list_elem_of_lookup_2. }
  fold (index rows) in Hj. rewrite Hj. f_equal. destruct (index_Some _ _ _ Hj) as (x & Hx & Hh).
  eapply NoDup_lookup; [exact Hnd|..]; rewrite list_lookup_fmap; [rewrite Hx|rewrite Hi]; simpl; by rewrite ?Hh.
Qed.

Lemma index_lt rows h i : index rows !! h = Some i -> (i < length rows)%nat.
Proof. intros (r & Hr & _)%index_Some. by eapply lookup_lt_Some. Qed.

Lemma parent_rows_lt rows i j : j ∈ parent_rows rows i -> (j < length rows)%nat.
Proof. unfold parent_rows. intros (p & _ & Hj)%list_elem_of_omap. by eapply index_lt. Qed.

(** ** The spine *)

(** A list that is the first parents' line from [next], as far as it goes *)
Definition spine_inv (rows : list Row) (next : option string) (spine : list nat) : Prop :=
  NoDup spine /\ Forall (fun i => i < length rows)%nat spine /\
  forall i j, i ∈ spine -> (head (parents_of rows i) ≫= (fun h => index rows !! h)) = Some j -> j ∈ spine \/ (next ≫= (fun h => index rows !! h)) = Some j.

Lemma NoDup_bound (l : list nat) n : NoDup l -> Forall (fun i => i < n)%nat l -> (length l <= n)%nat.
Proof.
  intros Hnd Hl. rewrite <- (length_seq n 0). apply NoDup_incl_length; [by apply NoDup_ListNoDup|].
  intros i Hi. apply in_seq. rewrite Forall_forall in Hl. specialize (Hl i). rewrite list_elem_of_In in Hl. specialize (Hl Hi). lia.
Qed.

Lemma spine_go_spec rows fuel next spine :
  spine_inv rows next spine -> (length rows < fuel + length spine)%nat ->
  let spine' := spine_go rows fuel next spine in
  NoDup spine' /\ Forall (fun i => i < length rows)%nat spine' /\ (forall i, i ∈ spine -> i ∈ spine') /\
  (forall i, (next ≫= (fun h => index rows !! h)) = Some i -> i ∈ spine') /\
  (forall i j, i ∈ spine' -> (head (parents_of rows i) ≫= (fun h => index rows !! h)) = Some j -> j ∈ spine').
Proof.
  revert next spine. induction fuel as [|fuel IH]; intros next spine (Hnd & Hlt & Hcl) Hfuel; cbn zeta; simpl.
  { pose proof (NoDup_bound _ _ Hnd Hlt). lia. }
  destruct (next ≫= _) as [i|] eqn:En; [|split_and!; try done; intros i j Hi Hj; by destruct (Hcl i j Hi Hj)].
  destruct (contains spine i) eqn:Ec.
  { apply contains_true in Ec. split_and!; try done; [intros j [= <-]; done|]. intros a b Ha Hb. destruct (Hcl a b Ha Hb) as [?|[= <-]]; done. }
  apply contains_false in Ec.
  destruct (IH (head (parents_of rows i)) (spine ++ [i])) as (H1 & H2 & H3 & H4 & H5).
  - split_and!.
    + apply NoDup_app. split_and!; [done| |apply NoDup_singleton]. intros x Hx ->%list_elem_of_singleton. done.
    + apply Forall_app. split; [done|]. apply Forall_singleton. apply bind_Some in En as (h & _ & Hh). by eapply index_lt.
    + intros a b [Ha| ->%list_elem_of_singleton]%elem_of_app Hb; [|by right]. left. apply elem_of_app.
      destruct (Hcl a b Ha Hb) as [?|[= <-]]; [by left|right; by apply list_elem_of_singleton].
  - rewrite length_app. simpl. lia.
  - split_and!; [done|done|intros j Hj; apply H3, elem_of_app; by left| |done]. intros j [= <-]. apply H3, elem_of_app. right. by apply list_elem_of_singleton.
Qed.

Lemma spine_of_spec rows main :
  let spine := spine_of rows main in
  NoDup spine /\ Forall (fun i => i < length rows)%nat spine /\
  (forall i, (head_of rows main ≫= (fun h => index rows !! h)) = Some i -> i ∈ spine) /\
  (forall i j, i ∈ spine -> (head (parents_of rows i) ≫= (fun h => index rows !! h)) = Some j -> j ∈ spine).
Proof.
  destruct (spine_go_spec rows (S (length rows)) (head_of rows main) []) as (H1 & H2 & _ & H4 & H5); [|simpl; lia|by split_and!].
  split_and!; [constructor|constructor|]. intros i j Hi. by apply elem_of_nil in Hi.
Qed.

(** ** Sides *)

Section Sides.
Context (rows : list Row) (spine : list nat).

(** A row that a side may have *)
Definition free (taken : gmap nat nat) (i : nat) : Prop := i ∉ spine /\ taken !! i = None /\ (i < length rows)%nat.

Lemma side_go_sound taken fuel stack side :
  NoDup side -> Forall (free taken) side -> Forall (fun i => i < length rows)%nat stack ->
  NoDup (side_go rows spine taken fuel stack side) /\ Forall (free taken) (side_go rows spine taken fuel stack side).
Proof.
  revert stack side. induction fuel as [|fuel IH]; intros stack side Hnd Hf Hs; simpl; [done|]. destruct stack as [|i stack]; [done|].
  apply Forall_cons in Hs as [Hi Hs]. destruct (_ || _) eqn:E; [by apply IH|].
  apply orb_false_iff in E as [[E1%contains_false E2%bool_decide_eq_false]%orb_false_iff E3%contains_false]. apply IH.
  - apply NoDup_app. split_and!; [done| |apply NoDup_singleton]. by intros x Hx ->%list_elem_of_singleton.
  - apply Forall_app. split; [done|]. apply Forall_singleton. split_and!; [done|by apply eq_None_not_Some|done].
  - apply Forall_app. split; [|done]. apply Forall_forall. intros j Hj. rewrite elem_of_rev in Hj. by eapply parent_rows_lt.
Qed.

Lemma side_of_sound taken merge : NoDup (side_of rows spine taken merge) /\ Forall (free taken) (side_of rows spine taken merge).
Proof.
  apply side_go_sound; [constructor|constructor|]. apply Forall_forall. intros j Hj. rewrite elem_of_rev in Hj.
  apply list_elem_of_omap in Hj as (p & _ & Hp). by eapply index_lt.
Qed.

Lemma take_all_lookup merge side taken i : take_all merge side taken !! i = None <-> i ∉ side /\ taken !! i = None.
Proof.
  unfold take_all. revert taken. induction side as [|x side IH]; intros taken; simpl; [split; [split; [apply not_elem_of_nil|done]|by intros [_ ?]]|].
  rewrite IH, lookup_insert_None, not_elem_of_cons. naive_solver.
Qed.

Lemma sides_go_spec merges taken :
  let l := sides_go rows spine merges taken in
  NoDup (flat_map snd l) /\ Forall (free taken) (flat_map snd l) /\ map fst l `sublist_of` merges.
Proof.
  revert taken. induction merges as [|m merges IH]; intros taken; cbn zeta; simpl; [split_and!; constructor|].
  destruct (side_of_sound taken m) as [Hnd Hf]. set (side := side_of rows spine taken m) in *. destruct (IH (take_all m side taken)) as (H1 & H2 & H3).
  assert (Forall (free taken) (flat_map snd (sides_go rows spine merges (take_all m side taken)))) as H2'.
  { eapply Forall_impl; [exact H2|]. intros i (Ha & Hb & Hc). apply take_all_lookup in Hb as [_ Hb]. done. }
  destruct side as [|x side'] eqn:E; [split_and!; [done|done|by apply sublist_cons]|]. rewrite <- E in *. cbn [flat_map snd map fst].
  split_and!; [|by apply Forall_app|by apply sublist_skip]. apply NoDup_app. split_and!; [done| |done].
  intros i Hi Hin. rewrite Forall_forall in H2. destruct (H2 i Hin) as (_ & Hb & _). by apply take_all_lookup in Hb as [Hb _].
Qed.

Lemma sides_spec : NoDup spine -> let l := sides rows spine in
  NoDup (flat_map snd l) /\ Forall (fun i => i ∉ spine /\ (i < length rows)%nat) (flat_map snd l) /\ NoDup (map fst l) /\ Forall (fun m => m ∈ spine) (map fst l).
Proof.
  intros Hsp. destruct (sides_go_spec (rev spine) ∅) as (H1 & H2 & H3). cbn zeta. split_and!; [done| | |].
  - eapply Forall_impl; [exact H2|]. by intros i (Ha & _ & Hc).
  - eapply sublist_NoDup; [|exact H3]. by rewrite <- (Permutation_rev spine).
  - apply Forall_forall. intros m Hm. eapply elem_of_sublist in Hm; [|exact H3]. by rewrite elem_of_rev in Hm.
Qed.

(** *** A side is all of it *)

(** What is reached over rows that a side may have *)
Inductive side_reach (taken : gmap nat nat) (from : list nat) : nat -> Prop :=
| side_first i : i ∈ from -> free taken i -> side_reach taken from i
| side_step i j : side_reach taken from i -> j ∈ parent_rows rows i -> free taken j -> side_reach taken from j.

(** What the stack may still grow by *)
Definition unseen (side : list nat) : nat :=
  list_sum (map (fun i => if contains side i then 0 else length (parents_of rows i))%nat (seq 0 (length rows))).

Lemma length_omap_le {A B} (f : A -> option B) l : (length (omap f l) <= length l)%nat.
Proof. induction l as [|x l IH]; simpl; [done|]. destruct (f x); simpl; [by apply le_n_S|by apply le_S]. Qed.

Lemma list_sum_cons x l : list_sum (x :: l) = (x + list_sum l)%nat.
Proof. done. Qed.

Lemma unseen_take side i : (i < length rows)%nat -> i ∉ side -> (unseen (side ++ [i]) + length (parents_of rows i) <= unseen side)%nat.
Proof.
  intros Hi Hn. unfold unseen. assert (i ∈ seq 0 (length rows)) as Hin by (apply elem_of_seq; lia).
  pose proof (NoDup_seq 0 (length rows)) as Hnd. induction (seq 0 (length rows)) as [|x l IH]; [by apply elem_of_nil in Hin|].
  apply NoDup_cons in Hnd as [Hx Hnd]. cbn [map]. rewrite !list_sum_cons.
  destruct (decide (x = i)) as [->|Hne].
  - rewrite (proj2 (contains_true (side ++ [i]) i)) by (apply elem_of_app; right; by apply list_elem_of_singleton).
    rewrite (proj2 (contains_false side i)) by done.
    assert (list_sum (map (fun i0 => if contains (side ++ [i]) i0 then 0 else length (parents_of rows i0))%nat l) =
            list_sum (map (fun i0 => if contains side i0 then 0 else length (parents_of rows i0))%nat l)) as ->; [|lia].
    f_equal. apply map_ext_in. intros y Hy%list_elem_of_In. destruct (contains side y) eqn:Ey.
    + apply contains_true in Ey. by rewrite (proj2 (contains_true (side ++ [i]) y)) by (apply elem_of_app; by left).
    + apply contains_false in Ey. rewrite (proj2 (contains_false (side ++ [i]) y)); [done|].
      rewrite elem_of_app, list_elem_of_singleton. intros [?| ->]; done.
  - apply elem_of_cons in Hin as [->|Hin]; [done|]. specialize (IH Hin Hnd).
    assert (contains (side ++ [i]) x = contains side x) as ->; [|destruct (contains side x); lia].
    destruct (contains side x) eqn:Ey; [apply contains_true in Ey; apply contains_true, elem_of_app; by left|].
    apply contains_false in Ey. apply contains_false. rewrite elem_of_app, list_elem_of_singleton. by intros [?| ->].
Qed.

Lemma unseen_bound : (unseen [] <= list_sum (map (fun r => length (r_parents r)) rows))%nat.
Proof.
  unfold unseen. assert (forall k l, (list_sum (map (fun i => length (match (l : list Row) !! (i - k)%nat with Some r => r_parents r | None => [] end)) (seq k (length l))) =
    list_sum (map (fun r => length (r_parents r)) l))%nat) as Hgo.
  { intros k l. revert k. induction l as [|r l IH]; intros k; [done|]. cbn [length seq map]. rewrite !list_sum_cons, Nat.sub_diag.
    change ((r :: l) !! 0%nat) with (Some r). cbn iota. f_equal. rewrite <- (IH (S k)). f_equal. apply map_ext_in. intros i Hi%in_seq. by replace (i - k)%nat with (S (i - S k)) by lia. }
  rewrite <- (Hgo 0%nat rows). apply Nat.eq_le_incl. f_equal. apply map_ext. intros i. unfold parents_of. by rewrite Nat.sub_0_r.
Qed.

Definition side_inv (taken : gmap nat nat) (from stack side : list nat) : Prop :=
  Forall (side_reach taken from) side /\ (forall i, i ∈ stack -> free taken i -> side_reach taken from i) /\
  (forall i, i ∈ from -> free taken i -> i ∈ side \/ i ∈ stack) /\
  (forall i j, i ∈ side -> j ∈ parent_rows rows i -> free taken j -> j ∈ side \/ j ∈ stack).

Lemma side_go_complete taken from fuel stack side :
  side_inv taken from stack side -> Forall (fun i => i < length rows)%nat stack -> (length stack + unseen side <= fuel)%nat ->
  side_inv taken from [] (side_go rows spine taken fuel stack side).
Proof.
  revert stack side. induction fuel as [|fuel IH]; intros stack side Hinv Hlt Hfuel; simpl.
  { destruct stack; [done|simpl in Hfuel; lia]. }
  destruct stack as [|i stack]; [done|]. apply Forall_cons in Hlt as [Hi Hlt]. destruct Hinv as (H1 & H2 & H3 & H4).
  destruct (_ || _) eqn:E.
  - assert (forall j, free taken j -> j ∈ side \/ j ∈ i :: stack -> j ∈ side \/ j ∈ stack) as Hskip.
    { intros j (Ha & Hb & _) [Hj|[->|Hj]%elem_of_cons]; [by left| |by right]. left.
      rewrite (proj2 (contains_false spine i)) in E by done. rewrite bool_decide_eq_false_2 in E by (by rewrite Hb; intros [? ?]). by apply contains_true in E. }
    apply IH; [|done|simpl in Hfuel; lia]. split_and!; [done|intros j Hj; apply H2; by right|..].
    + intros j Hj Hf. apply Hskip; [done|]. by apply H3.
    + intros a b Ha Hb Hf. apply Hskip; [done|]. by eapply H4.
  - apply orb_false_iff in E as [[E1%contains_false E2%bool_decide_eq_false]%orb_false_iff E3%contains_false].
    assert (free taken i) as Hfi by (split_and!; [done|by apply eq_None_not_Some|done]).
    assert (side_reach taken from i) as Hri by (apply H2; [left|done]).
    pose proof (unseen_take side i Hi E3) as Hun. pose proof (length_omap_le (fun p => index rows !! p) (parents_of rows i)) as Hle. fold (parent_rows rows i) in Hle.
    assert (forall j, j ∈ rev (parent_rows rows i) ++ stack <-> j ∈ parent_rows rows i \/ j ∈ stack) as Hst.
    { intros j. by rewrite elem_of_app, elem_of_rev. }
    apply IH; [|apply Forall_forall; intros j [Hj|Hj]%Hst; [by eapply parent_rows_lt|by rewrite Forall_forall in Hlt; apply Hlt]
               |rewrite length_app, length_rev; simpl in Hfuel; lia].
    split_and!.
    + apply Forall_app. split; [done|]. by apply Forall_singleton.
    + intros j [Hj|Hj]%Hst Hf; [by eapply side_step|]. apply H2; [by right|done].
    + intros j Hj Hf. rewrite elem_of_app, list_elem_of_singleton, Hst. destruct (H3 j Hj Hf) as [?|[->|?]%elem_of_cons]; auto.
    + intros a b [Ha|Ha]%elem_of_app Hb Hf; rewrite elem_of_app, list_elem_of_singleton, Hst.
      * destruct (H4 a b Ha Hb Hf) as [?|[->|?]%elem_of_cons]; auto.
      * apply list_elem_of_singleton in Ha as ->. auto.
Qed.

Definition merged_rows (merge : nat) : list nat := omap (fun p => index rows !! p) (drop 1 (parents_of rows merge)).

Lemma list_sum_elem l (x : nat) : x ∈ l -> (x <= list_sum l)%nat.
Proof. induction l as [|y l IH]; [by intros ?%elem_of_nil|]. simpl. intros [->|Hx]%elem_of_cons; [lia|]. specialize (IH Hx). lia. Qed.

(** A merge's side is exactly what is reached from its other parents, off the spine, that no older
    merge took. *)
Lemma side_of_exact taken merge i : i ∈ side_of rows spine taken merge <-> side_reach taken (merged_rows merge) i.
Proof.
  destruct (side_go_complete taken (merged_rows merge) (side_fuel rows) (rev (merged_rows merge)) []) as (H1 & _ & H3 & H4).
  - split_and!; [constructor| | |].
    + intros j Hj Hf. rewrite elem_of_rev in Hj. by constructor.
    + intros j Hj _. right. by rewrite elem_of_rev.
    + intros a b Ha. by apply elem_of_nil in Ha.
  - apply Forall_forall. intros j Hj. rewrite elem_of_rev in Hj. apply list_elem_of_omap in Hj as (p & _ & Hp). by eapply index_lt.
  - pose proof unseen_bound as Hub. rewrite length_rev. pose proof (length_omap_le (fun p => index rows !! p) (drop 1 (parents_of rows merge))) as Hle.
    fold (merged_rows merge) in Hle. rewrite length_drop in Hle.
    assert (length (parents_of rows merge) <= list_sum (map (fun r => length (r_parents r)) rows))%nat as Hp.
    { unfold parents_of. destruct (rows !! merge) as [r|] eqn:E; [|simpl; lia]. apply list_sum_elem, list_elem_of_In.
      apply (in_map (fun r => length (r_parents r))), list_elem_of_In. by eapply list_elem_of_lookup_2. }
    unfold side_fuel. lia.
  - fold (side_of rows spine taken merge) in *. split; [intros Hi; by rewrite Forall_forall in H1; apply H1|].
    induction 1 as [j Hj Hf|a b _ IH Hb Hf]; [destruct (H3 j Hj Hf) as [?|Hn]|destruct (H4 a b IH Hb Hf) as [?|Hn]]; try done; by apply elem_of_nil in Hn.
Qed.
End Sides.

(** ** Folds *)

Lemma folds_go_fixed rows fuel folding :
  (length folding < fuel)%nat -> let l := folds_go rows fuel folding in l `sublist_of` folding /\ Forall (fun f => keeps_fold rows l f = true) l.
Proof.
  revert folding. induction fuel as [|fuel IH]; intros folding Hf; cbn zeta; simpl; [lia|].
  pose proof (retain_sublist (keeps_fold rows folding) folding) as Hsub.
  case_decide as Hl.
  - assert (retain (keeps_fold rows folding) folding = folding) as E by by apply retain_full. rewrite E. split; [done|].
    apply Forall_forall. intros f Hin. rewrite <- E in Hin. by apply elem_of_retain in Hin as [Hk _].
  - pose proof (length_retain_le (keeps_fold rows folding) folding) as Hle. destruct (IH (retain (keeps_fold rows folding) folding)) as [H1 H2]; [lia|].
    split; [|done]. by etransitivity.
Qed.

Lemma sublist_flat_map {A B} (f : A -> list B) l k : l `sublist_of` k -> flat_map f l `sublist_of` flat_map f k.
Proof. induction 1 as [|x l k _ IH|x l k _ IH]; simpl; [done|by apply sublist_app|by apply sublist_inserts_l]. Qed.

Record folds_ok (rows : list Row) (main : option string) (folds : list (nat * list nat)) : Prop := {
  fo_disjoint : NoDup (hidden folds);
  fo_off : Forall (fun i => i ∉ spine_of rows main /\ (i < length rows)%nat) (hidden folds);
  fo_merges : NoDup (map fst folds);
  fo_on : Forall (fun m => m ∈ spine_of rows main) (map fst folds);
  fo_long : Forall (fun f => FOLD_OVER < length (snd f))%nat folds;
  fo_closed : forall f i j, f ∈ folds -> (i < length rows)%nat -> i ≠ fst f -> i ∉ hidden folds -> j ∈ parent_rows rows i -> j ∉ snd f }.

Lemma folded_ok rows main : folds_ok rows main (folded rows main).
Proof.
  unfold folded. set (l0 := sides rows (spine_of rows main)). set (l1 := retain _ l0).
  destruct (folds_go_fixed rows (S (length l1)) l1) as [Hsub Hfix]; [lia|]. set (folds := folds_go rows (S (length l1)) l1) in *.
  assert (folds `sublist_of` l0) as Hsub0 by (etransitivity; [exact Hsub|apply retain_sublist]).
  destruct (sides_spec rows (spine_of rows main)) as (H1 & H2 & H3 & H4); [apply spine_of_spec|]. fold l0 in H1, H2, H3, H4.
  pose proof (sublist_flat_map snd _ _ Hsub0) as Hh. split.
  - eapply sublist_NoDup; [exact H1|exact Hh].
  - apply Forall_forall. intros i Hi. rewrite Forall_forall in H2. apply H2. eapply elem_of_sublist; [exact Hi|exact Hh].
  - eapply sublist_NoDup; [exact H3|]. clear -Hsub0. induction Hsub0; simpl; by constructor.
  - apply Forall_forall. intros m Hm. rewrite Forall_forall in H4. apply H4. eapply elem_of_sublist; [exact Hm|]. clear -Hsub0. induction Hsub0; simpl; by constructor.
  - apply Forall_forall. intros f Hin. eapply elem_of_sublist in Hin; [|exact Hsub]. apply elem_of_retain in Hin as [Hlen _]. by apply Nat.ltb_lt.
  - intros f i j Hf Hi Hne Hnh Hj Hin. rewrite Forall_forall in Hfix. specialize (Hfix f Hf). apply negb_true_iff in Hfix.
    apply not_true_iff_false in Hfix. apply Hfix. apply existsb_exists. exists i. split; [apply in_seq; lia|].
    rewrite bool_decide_eq_false_2, (proj2 (contains_false _ i)) by done. simpl. apply existsb_exists. exists j. split; [by apply list_elem_of_In|by apply contains_true].
Qed.

(** ** Marks *)

Lemma alter_each_lookup (f : Row -> Row) (l : list nat) (rows : list Row) i : (forall r, f (f r) = f r) ->
  foldl (fun rows j => alter f j rows) rows l !! i = (if contains l i then f else id) <$> rows !! i.
Proof.
  intros Hf. revert rows. induction l as [|j l IH]; intros rows; simpl; [by destruct (rows !! i)|]. rewrite IH.
  destruct (decide (i = j)) as [->|Hne].
  - rewrite list_lookup_alter_eq. rewrite (proj2 (contains_true (j :: l) j)) by left. destruct (rows !! j); simpl; [|done]. f_equal. by destruct (contains l j); [apply Hf|].
  - rewrite list_lookup_alter_ne by done. destruct (contains l i) eqn:E.
    + apply contains_true in E. by rewrite (proj2 (contains_true (j :: l) i)) by by right.
    + apply contains_false in E. by rewrite (proj2 (contains_false (j :: l) i)) by (apply not_elem_of_cons; done).
Qed.

Lemma mark_spine_lookup rows spine i : mark_spine rows spine !! i = (fun r => if contains spine i then set_spine r true else r) <$> rows !! i.
Proof. unfold mark_spine. rewrite alter_each_lookup by done. by destruct (contains spine i), (rows !! i). Qed.

(** What a fold does to a row *)
Definition marked (rows : list Row) (f : nat * list nat) (i : nat) (r : Row) : Row :=
  let r := if decide (i = fst f) then set_fold r (length (snd f)) else r in
  if contains (snd f) i then set_side r (r_hash <$> rows !! fst f) else r.

Lemma mark_fold_lookup rows f i : (fst f < length rows)%nat -> mark_fold rows f !! i = marked rows f i <$> rows !! i.
Proof.
  intros Hlt. destruct (lookup_lt_is_Some_2 rows (fst f) Hlt) as [m Hm]. unfold mark_fold, marked. rewrite list_lookup_alter_eq, Hm. cbn [fmap option_fmap option_map].
  unfold mark_side. rewrite alter_each_lookup by done. destruct (decide (i = fst f)) as [->|Hne].
  - rewrite list_lookup_alter_eq, Hm. simpl. by destruct (contains (snd f) (fst f)).
  - rewrite list_lookup_alter_ne by done. destruct (rows !! i); simpl; [|done]. by destruct (contains (snd f) i).
Qed.

(** What a row keeps *)
Definition same_commit (r r' : Row) : Prop :=
  r_hash r' = r_hash r /\ r_parents r' = r_parents r /\ r_author r' = r_author r /\ r_time r' = r_time r /\ r_refs r' = r_refs r /\ r_subject r' = r_subject r.

Lemma marked_same rows f i r : same_commit r (marked rows f i r) /\ r_spine (marked rows f i r) = r_spine r.
Proof. unfold marked, same_commit. by destruct (decide _), (contains _ _). Qed.

Lemma length_mark_side h rows side : length (mark_side h rows side) = length rows.
Proof. unfold mark_side. revert rows. induction side as [|i side IH]; intros rows; simpl; [done|]. by rewrite IH, length_alter. Qed.

Lemma length_mark_fold rows f : length (mark_fold rows f) = length rows.
Proof. unfold mark_fold. destruct (alter _ _ _ !! _); rewrite ?length_mark_side; apply length_alter. Qed.

Lemma mark_folds rows folds i r :
  Forall (fun m => m < length rows)%nat (map fst folds) -> NoDup (hidden folds) -> NoDup (map fst folds) -> rows !! i = Some r ->
  exists r', foldl mark_fold rows folds !! i = Some r' /\ same_commit r r' /\ r_spine r' = r_spine r /\
    (i ∉ hidden folds -> r_side r' = r_side r) /\ (forall f, f ∈ folds -> i ∈ snd f -> r_side r' = r_hash <$> rows !! fst f) /\
    (i ∉ map fst folds -> r_fold r' = r_fold r) /\ (forall f, f ∈ folds -> i = fst f -> r_fold r' = length (snd f)).
Proof.
  revert rows r. induction folds as [|f folds IH]; intros rows r Hlt Hh Hm Hr.
  { exists r. simpl. split_and!; try done; intros f Hf; by apply elem_of_nil in Hf. }
  cbn [map] in Hlt, Hm. apply Forall_cons in Hlt as [Hf Hlt]. apply NoDup_cons in Hm as [Hnm Hm]. apply NoDup_app in Hh as (_ & Hdis & Hh).
  assert (mark_fold rows f !! i = Some (marked rows f i r)) as Hr1 by by rewrite mark_fold_lookup, Hr.
  destruct (IH (mark_fold rows f) _ ltac:(by rewrite length_mark_fold) Hh Hm Hr1) as (r' & H1 & H2 & H3 & H4 & H5 & H6 & H7).
  destruct (marked_same rows f i r) as [Hsame Hsp].
  assert (forall j, r_hash <$> mark_fold rows f !! j = r_hash <$> rows !! j) as Hhash.
  { intros j. rewrite mark_fold_lookup by done. destruct (rows !! j) as [x|]; simpl; [|done]. by destruct (marked_same rows f j x) as [(-> & _) _]. }
  exists r'. simpl. split_and!; [done| |congruence|..].
  - unfold same_commit in *. intuition congruence.
  - rewrite elem_of_app. intros Hni. rewrite H4 by tauto. unfold marked. rewrite (proj2 (contains_false (snd f) i)) by tauto. by destruct (decide _).
  - intros g [->|Hg]%elem_of_cons Hi; [|rewrite (H5 g Hg Hi); apply Hhash]. rewrite H4 by by apply Hdis.
    unfold marked. rewrite (proj2 (contains_true (snd f) i)) by done. done.
  - rewrite not_elem_of_cons. intros [Hne Hni]. rewrite H6 by done. unfold marked. rewrite decide_False by done. by destruct (contains _ _).
  - intros g [->|Hg]%elem_of_cons Hi; [|by apply H7]. rewrite H6 by by rewrite Hi. unfold marked. rewrite decide_True by done. by destruct (contains _ _).
Qed.

(** ** The theorem *)

Definition fresh_row (r : Row) : Prop := r_spine r = false /\ r_side r = None /\ r_fold r = 0%nat.

Lemma length_mark_spine rows spine : length (mark_spine rows spine) = length rows.
Proof. unfold mark_spine. revert rows. induction spine as [|i spine IH]; intros rows; simpl; [done|]. by rewrite IH, length_alter. Qed.

Lemma length_shape rows main : length (shape rows main) = length rows.
Proof.
  unfold shape. rewrite <- (length_mark_spine rows (spine_of rows main)). generalize (mark_spine rows (spine_of rows main)). intros l.
  generalize (folded rows main). intros folds. revert l. induction folds as [|f folds IH]; intros l; simpl; [done|]. by rewrite IH, length_mark_fold.
Qed.

(** A row of the shape, by what was folded *)
Lemma shape_lookup rows main i r : Forall fresh_row rows -> rows !! i = Some r ->
  exists r', shape rows main !! i = Some r' /\ same_commit r r' /\ r_spine r' = contains (spine_of rows main) i /\
    (i ∉ hidden (folded rows main) -> r_side r' = None) /\ (forall f, f ∈ folded rows main -> i ∈ snd f -> r_side r' = r_hash <$> rows !! fst f) /\
    (forall f, f ∈ folded rows main -> i = fst f -> r_fold r' = length (snd f)).
Proof.
  intros Hfresh Hr. destruct (folded_ok rows main) as [Hd Hoff Hm Hon _ _]. unfold shape.
  rewrite Forall_forall in Hfresh. destruct (Hfresh r (list_elem_of_lookup_2 _ _ _ Hr)) as (Hsp & Hsd & _).
  set (rows1 := mark_spine rows (spine_of rows main)).
  assert (forall j, rows1 !! j = (fun r => if contains (spine_of rows main) j then set_spine r true else r) <$> rows !! j) as Hl by (intros; apply mark_spine_lookup).
  destruct (mark_folds rows1 (folded rows main) i (if contains (spine_of rows main) i then set_spine r true else r)) as (r' & H1 & H2 & H3 & H4 & H5 & _ & H7).
  - unfold rows1. rewrite length_mark_spine. destruct (spine_of_spec rows main) as (_ & Hlt & _). rewrite Forall_forall in Hlt.
    apply Forall_forall. intros m Hin. apply Hlt. by rewrite Forall_forall in Hon; apply Hon.
  - done.
  - done.
  - by rewrite Hl, Hr.
  - exists r'. split_and!; [done|by destruct (contains (spine_of rows main) i)|rewrite H3; by destruct (contains (spine_of rows main) i)| | |done].
    + intros Hni. rewrite H4 by done. by destruct (contains (spine_of rows main) i).
    + intros f Hf Hi. rewrite (H5 f Hf Hi), Hl. destruct (rows !! fst f); simpl; [|done]. by destruct (contains (spine_of rows main) (fst f)).
Qed.

Lemma elem_of_hidden folds i : i ∈ hidden folds <-> exists f, f ∈ folds /\ i ∈ snd f.
Proof. unfold hidden. rewrite list_elem_of_In, in_flat_map. setoid_rewrite list_elem_of_In. done. Qed.

(** A row of the shape is one of the rows. *)
Lemma shape_from rows main i r' : shape rows main !! i = Some r' -> exists r, rows !! i = Some r.
Proof. intros Hi. apply lookup_lt_is_Some_2. rewrite <- (length_shape rows main). by eapply lookup_lt_Some. Qed.

(** The rows that have a side are those of the fold. *)
Lemma shape_side rows main i r h : NoDup (map r_hash rows) -> Forall fresh_row rows -> shape rows main !! i = Some r -> r_side r = Some h ->
  exists f, f ∈ folded rows main /\ i ∈ snd f /\ r_hash <$> rows !! fst f = Some h.
Proof.
  intros Hnd Hfresh Hi Hs. destruct (shape_from _ _ _ _ Hi) as [r0 Hr0]. destruct (shape_lookup rows main i r0 Hfresh Hr0) as (r' & E & _ & _ & Hno & Hyes & _).
  assert (r' = r) as -> by congruence. destruct (decide (i ∈ hidden (folded rows main))) as [(f & Hf & Hin)%elem_of_hidden|Hni].
  - exists f. split_and!; [done|done|]. by rewrite <- (Hyes f Hf Hin).
  - specialize (Hno Hni). congruence.
Qed.

Lemma fold_unique rows main f g i : f ∈ folded rows main -> g ∈ folded rows main -> fst f = fst g \/ i ∈ snd f /\ i ∈ snd g -> f = g.
Proof.
  intros Hf Hg Hor. destruct (folded_ok rows main) as [Hd _ Hm _ _ _].
  revert Hf Hg Hd Hm. generalize (folded rows main). intros folds Hf Hg Hd Hm. induction folds as [|x folds IH]; [by apply elem_of_nil in Hf|].
  apply NoDup_app in Hd as (_ & Hdis & Hd). cbn [map] in Hm. apply NoDup_cons in Hm as [Hnm Hm].
  assert (forall y, y ∈ folds -> ¬ (fst x = fst y \/ i ∈ snd x /\ i ∈ snd y)) as Hno.
  { intros y Hy [E|[Hx1 Hy1]]; [apply Hnm; rewrite E; by apply list_elem_of_In, in_map, list_elem_of_In|]. apply (Hdis i Hx1), elem_of_hidden. by exists y. }
  apply elem_of_cons in Hf as [->|Hf], Hg as [->|Hg]; [done| | |by apply IH].
  - by destruct (Hno g Hg).
  - destruct (Hno f Hf). destruct Hor as [E|[H1 H2]]; [by left|by right].
Qed.

Lemma hash_unique rows i j r r' : NoDup (map r_hash rows) -> rows !! i = Some r -> rows !! j = Some r' -> r_hash r = r_hash r' -> i = j.
Proof.
  intros Hnd Hi Hj E. eapply NoDup_lookup; [exact Hnd|..]; rewrite list_lookup_fmap; [rewrite Hi|rewrite Hj]; simpl; by rewrite ?E.
Qed.

Lemma same_commit_hash r r' : same_commit r r' -> r_hash r' = r_hash r.
Proof. by intros [? _]. Qed.

Section Shape.
Context (rows : list Row) (main : option string) (Hnd : NoDup (map r_hash rows)) (Hfresh : Forall fresh_row rows).

(** A row that is folded is off the spine, and its merge shows how many it folds. *)
Lemma folded_row i r h : shape rows main !! i = Some r -> r_side r = Some h ->
  r_spine r = false /\ exists j m s, shape rows main !! j = Some m /\ r_hash m = h /\ r_spine m = true /\ r_side m = None /\
    r_fold m = length s /\ (FOLD_OVER < length s)%nat /\ NoDup s /\ forall k, k ∈ s <-> exists x, shape rows main !! k = Some x /\ r_side x = Some h.
Proof.
  intros Hi Hs. destruct (shape_side rows main i r h Hnd Hfresh Hi Hs) as (f & Hf & Hin & Hh). destruct (folded_ok rows main) as [Hd Hoff Hm Hon Hlong _].
  rewrite Forall_forall in Hoff, Hon. rewrite Forall_forall in Hlong. destruct (Hoff i) as [Hoi _]; [apply elem_of_hidden; by exists f|].
  destruct (shape_from _ _ _ _ Hi) as [r0 Hr0]. destruct (shape_lookup rows main i r0 Hfresh Hr0) as (r1 & E1 & _ & Hsp & _).
  assert (r1 = r) as -> by congruence. rewrite Hsp, (proj2 (contains_false _ i)) by done. split; [done|].
  destruct (rows !! fst f) as [m0|] eqn:Em; [|done]. destruct (shape_lookup rows main (fst f) m0 Hfresh Em) as (m & E2 & Hsame & Hmsp & Hmno & _ & Hmf).
  assert (fst f ∈ spine_of rows main) as Hmon by (apply Hon, list_elem_of_In, in_map, list_elem_of_In, Hf).
  exists (fst f), m, (snd f). split_and!; [done| | | |by apply Hmf|by apply Hlong| |].
  - rewrite (same_commit_hash _ _ Hsame). simpl in Hh. congruence.
  - rewrite Hmsp. by apply contains_true.
  - apply Hmno. intros Hhid. destruct (Hoff _ Hhid). done.
  - clear -Hd Hf. revert Hd Hf. generalize (folded rows main). intros l Hd Hf. induction l as [|x l IH]; [by apply elem_of_nil in Hf|].
    apply NoDup_app in Hd as (Hx & _ & Hd). apply elem_of_cons in Hf as [->|Hf]; [done|by apply IH].
  - intros k. split.
    + intros Hk. destruct (Hoff k) as [_ Hlt]; [apply elem_of_hidden; by exists f|]. destruct (lookup_lt_is_Some_2 rows k Hlt) as [x0 Hx0].
      destruct (shape_lookup rows main k x0 Hfresh Hx0) as (x & Ex & _ & _ & _ & Hyes & _). exists x. split; [done|]. by rewrite (Hyes f Hf Hk), Em.
    + intros (x & Hx & Hxs). destruct (shape_side rows main k x h Hnd Hfresh Hx Hxs) as (g & Hg & Hk & Hgh).
      destruct (rows !! fst g) as [m1|] eqn:Em1; [|done]. simpl in Hh, Hgh. assert (fst g = fst f) as Ef by (eapply hash_unique; [done|done|done|congruence]).
      by rewrite (fold_unique rows main f g k Hf Hg) by by left.
Qed.

(** Nothing that is shown leads into a fold, but its merge. *)
Lemma shown_row i r p k x : shape rows main !! i = Some r -> r_side r = None -> p ∈ r_parents r -> shape rows main !! k = Some x -> r_hash x = p ->
  r_side x = None \/ r_side x = Some (r_hash r).
Proof.
  intros Hi Hs Hp Hk Hx. destruct (r_side x) as [h|] eqn:Ex; [right|by left]. destruct (shape_side rows main k x h Hnd Hfresh Hk Ex) as (f & Hf & Hin & Hh).
  destruct (folded_ok rows main) as [_ _ _ _ _ Hclosed]. destruct (shape_from _ _ _ _ Hi) as [r0 Hr0]. destruct (shape_from _ _ _ _ Hk) as [x0 Hx0].
  destruct (shape_lookup rows main i r0 Hfresh Hr0) as (r1 & E1 & Hsame & _ & _ & Hyes & _). assert (r1 = r) as -> by congruence.
  destruct (shape_lookup rows main k x0 Hfresh Hx0) as (x1 & E2 & Hsamex & _). assert (x1 = x) as -> by congruence.
  assert (k ∈ parent_rows rows i) as Hpk.
  { unfold parent_rows, parents_of. rewrite Hr0. apply list_elem_of_omap. exists p. destruct Hsame as (_ & Ep & _). rewrite <- Ep. split; [done|].
    rewrite <- Hx, (same_commit_hash _ _ Hsamex). by apply index_unique. }
  destruct (decide (i = fst f)) as [->|Hne].
  - rewrite Hr0 in Hh. simpl in Hh. by rewrite (same_commit_hash _ _ Hsame).
  - exfalso. apply (Hclosed f i k); [done|by eapply lookup_lt_Some|done| |done|done]. intros (g & Hg & Hig)%elem_of_hidden.
    rewrite (Hyes g Hg Hig) in Hs. destruct (folded_ok rows main) as [_ _ _ Hon _ _]. rewrite Forall_forall in Hon.
    destruct (spine_of_spec rows main) as (_ & Hlt & _). rewrite Forall_forall in Hlt.
    destruct (lookup_lt_is_Some_2 rows (fst g)) as [m Em]; [apply Hlt, Hon, list_elem_of_In, in_map, list_elem_of_In, Hg|]. by rewrite Em in Hs.
Qed.

Lemma spine_row i r p k x : shape rows main !! i = Some r -> r_spine r = true -> head (r_parents r) = Some p -> shape rows main !! k = Some x -> r_hash x = p -> r_spine x = true.
Proof.
  intros Hi Hs Hp Hk Hx. destruct (shape_from _ _ _ _ Hi) as [r0 Hr0]. destruct (shape_from _ _ _ _ Hk) as [x0 Hx0].
  destruct (shape_lookup rows main i r0 Hfresh Hr0) as (r1 & E1 & Hsame & Hsp & _). assert (r1 = r) as -> by congruence.
  destruct (shape_lookup rows main k x0 Hfresh Hx0) as (x1 & E2 & Hsamex & Hspx & _). assert (x1 = x) as -> by congruence.
  rewrite Hspx. apply contains_true. destruct (spine_of_spec rows main) as (_ & _ & _ & Hcl). apply (Hcl i k); [apply contains_true; congruence|].
  unfold parents_of. rewrite Hr0. destruct Hsame as (_ & <- & _). rewrite Hp. simpl. rewrite <- Hx, (same_commit_hash _ _ Hsamex). by apply index_unique.
Qed.
End Shape.

(** [shape] folds only what can be hidden: commits stay as they are; a commit that is folded is
    off the spine and its merge, which is on it and shown, counts exactly the commits it folds,
    more than three; no commit that is shown has a folded parent but the merge itself; and the
    spine follows first parents as far as the range goes. *)
Theorem shape_folds rows main :
  NoDup (map r_hash rows) -> Forall fresh_row rows ->
  let rows' := shape rows main in
  Forall2 same_commit rows rows' /\
  forall i r, rows' !! i = Some r ->
    (forall h, r_side r = Some h -> r_spine r = false /\
       exists j m s, rows' !! j = Some m /\ r_hash m = h /\ r_spine m = true /\ r_side m = None /\
         r_fold m = length s /\ (FOLD_OVER < length s)%nat /\ NoDup s /\ forall k, k ∈ s <-> exists x, rows' !! k = Some x /\ r_side x = Some h) /\
    (r_side r = None -> forall p k x, p ∈ r_parents r -> rows' !! k = Some x -> r_hash x = p -> r_side x = None \/ r_side x = Some (r_hash r)) /\
    (r_spine r = true -> forall p k x, head (r_parents r) = Some p -> rows' !! k = Some x -> r_hash x = p -> r_spine x = true).
Proof.
  intros Hnd Hfresh rows'. split.
  - apply Forall2_same_length_lookup. split; [by unfold rows'; rewrite length_shape|]. intros i r r' Hr Hr'.
    destruct (shape_lookup rows main i r Hfresh Hr) as (x & Ex & Hsame & _). unfold rows' in Hr'. by assert (x = r') as -> by congruence.
  - intros i r Hi. split_and!.
    + intros h Hs. by apply (folded_row rows main Hnd Hfresh i r).
    + intros Hs p k x. by apply (shown_row rows main Hnd Hfresh i r).
    + intros Hs p k x. by apply (spine_row rows main Hnd Hfresh i r).
Qed.

(** A merge of four commits, of which nothing else is built on *)
Definition sample_row (hash : string) (parents : list string) : Row := mkRow hash parents "" 0 [] "" false None 0.
Definition sample_log : list Row :=
  [sample_row "m3" ["m2"; "a4"]; sample_row "a4" ["a3"; "m2"]; sample_row "a3" ["a2"]; sample_row "m2" ["m1"]; sample_row "a2" ["a1"];
   sample_row "a1" ["m1"]; sample_row "m1" ["m0"]; sample_row "m0" []].

Lemma shape_folds_witness :
  map r_fold (shape sample_log (Some "m3")) = [4; 0; 0; 0; 0; 0; 0; 0]%nat /\
  map r_side (shape sample_log (Some "m3")) = [None; Some "m3"; Some "m3"; None; Some "m3"; Some "m3"; None; None] /\
  Forall2 same_commit sample_log (shape sample_log (Some "m3")).
Proof.
  split; [by vm_compute|]. split; [by vm_compute|]. apply (shape_folds sample_log (Some "m3")).
  - vm_compute. repeat (constructor; [set_solver|]). constructor.
  - by repeat constructor.
Defined.
