(* ===== verification/Log.v ===== *)
(** * The log of a repository: [crates/kanna-log/src/lib.rs]

    What [git log] prints is read into rows and shaped ([Graph]); tasks are labels on them.  Git
    and folders are the class [LogWorld]. *)

From stdpp Require Import relations.
From S2P Require Import Prelude Text Json Pipe Schedule Patch Diffs Graph GraphTheorems.
From Stdlib Require Import Ascii.

(** The text that git prints in a folder, or its error; whether a path is a folder; the file
    [kanna-base] of a git directory; [fs::canonicalize], the path itself where it fails *)
Class LogWorld := {
  lw_text : list string -> string -> string + string;
  lw_is_dir : string -> bool;
  lw_base : string -> option string;
  lw_canonical : string -> string }.

Definition LIMIT : nat := N.to_nat 2000.

Record TaskRef := mkTaskRef {
  tr_id : string;
  tr_name : option string;
  tr_place : string;
  tr_repo : string;
  tr_worktree : option string;
  tr_branch : option string;
  tr_tip : option string }.

Record Label := mkLabel {
  lb_id : string;
  lb_name : string;
  lb_place : string;
  lb_branch : string;
  lb_tip : string;
  lb_ahead : N;
  lb_behind : N;
  lb_merged : bool }.

Definition label_to_json (l : Label) : Value :=
  obj [("id", JString (lb_id l)); ("name", JString (lb_name l)); ("place", JString (lb_place l)); ("branch", JString (lb_branch l)); ("tip", JString (lb_tip l));
       ("ahead", from_usize (lb_ahead l)); ("behind", from_usize (lb_behind l)); ("merged", JBool (lb_merged l))].

Record Repo := mkRepo { rp_top : string; rp_git_dir : string; rp_common_dir : string; rp_checkout : option string; rp_main : string }.

Record Log := mkLog {
  lg_folder : string;
  lg_args : list string;
  lg_top : string;
  lg_git_dir : string;
  lg_common_dir : string;
  lg_main : string;
  lg_range : list string;
  lg_rows : list Row;
  lg_tasks : list Label;
  lg_more : bool;
  lg_error : option string }.

Definition log_command (l : Log) : string := join " " ("git log" :: lg_range l).

Definition log_to_json (l : Log) : Value :=
  obj [("folder", JString (lg_folder l)); ("args", JArray (map JString (lg_args l))); ("top", JString (lg_top l)); ("main", JString (lg_main l));
       ("range", JArray (map JString (lg_range l))); ("command", JString (log_command l)); ("rows", JArray (map row_to_json (lg_rows l)));
       ("tasks", JArray (map label_to_json (lg_tasks l))); ("more", JBool (lg_more l)); ("error", opt (lg_error l))].

(** [splitn] on a byte *)
Fixpoint splitn (n : nat) (c : ascii) (s : string) : list string :=
  match n with
  | S (S _ as m) => match split_once (String c "") s with Some (a, b) => a :: splitn m c b | None => [s] end
  | _ => [s]
  end.

(** [split] on a text *)
Fixpoint split_text_go (fuel : nat) (p s : string) : list string :=
  match fuel with
  | O => [s]
  | S fuel => match split_once p s with Some (a, b) => a :: split_text_go fuel p b | None => [s] end
  end.
Definition split_text (p s : string) : list string := split_text_go (String.length s) p s.

Definition unit_separator : ascii := ascii_of_N 31.

Definition read_refs (refs : string) : list string :=
  retain (fun r => negb (str_is_empty r))
    (flat_map (fun r => match strip_prefix "HEAD -> " r with Some branch => ["HEAD"; branch] | None => [r] end) (split_text ", " refs)).

Definition read_row (record : string) : option Row :=
  match splitn 6 unit_separator record with
  | [hash; parents; author; time; refs; subject] =>
    Some (mkRow hash (Pipe.split_whitespace parents) author (default 0%Z (parse_i64 time)) (read_refs refs) subject false None 0)
  | _ => None
  end.

Definition log_parse (out : string) : list Row :=
  omap read_row (retain (fun r => negb (str_is_empty r)) (map skip_newlines (split_on nul out))).

(** [Vec::dedup] *)
Fixpoint dedup_adjacent (l : list string) : list string :=
  match l with
  | x :: (y :: _ as rest) => if decide (x = y) then dedup_adjacent rest else x :: dedup_adjacent rest
  | _ => l
  end.

(** The hashes that are reached from the tip of main: the top of the stack is first. *)
Fixpoint main_go (rows : list Row) (fuel : nat) (stack : list string) (in_main : gset string) : gset string :=
  match fuel with
  | O => in_main
  | S fuel =>
    match stack with
    | [] => in_main
    | hash :: stack =>
      match index rows !! hash with
      | Some i => if decide (hash ∈ in_main) then main_go rows fuel stack in_main
                  else main_go rows fuel (rev (parents_of rows i) ++ stack) ({[hash]} ∪ in_main)
      | None => main_go rows fuel stack in_main
      end
    end
  end.
(** Each row puts its parents on the stack once. *)
Definition main_fuel (rows : list Row) : nat := 2 + list_sum (map (fun r => length (r_parents r)) rows).
Definition in_main (rows : list Row) (main : option string) : gset string := main_go rows (main_fuel rows) (option_list main) ∅.

Section Load.
Context {world : LogWorld}.

Definition line (args : list string) (folder : string) : option string :=
  match lw_text args folder with inr t => let t := str_trim t in if str_is_empty t then None else Some t | inl _ => None end.

Definition checkout_of (common_dir : string) : option string :=
  n ← path_file_name common_dir;
  p ← (if bool_decide (n = ".git") then path_parent common_dir else None);
  if lw_is_dir p then Some p else None.

Definition main_of (checkout : option string) (folder : string) : string :=
  match checkout ≫= line ["symbolic-ref"; "--quiet"; "--short"; "HEAD"] with
  | Some main => main
  | None => default "HEAD" (List.find (fun b => bool_decide (is_Some (line ["rev-parse"; "--verify"; "--quiet"; "refs/heads/" +:+ b] folder))) ["main"; "master"])
  end.

Definition repo_find (folder : string) : string + Repo :=
  match lw_text ["rev-parse"; "--path-format=absolute"; "--show-toplevel"; "--git-dir"; "--git-common-dir"] folder with
  | inl e => inl e
  | inr out =>
    let dirs := str_lines out in
    let dir i := default "" (dirs !! i) in
    let checkout := checkout_of (dir 2%nat) in
    inr (mkRepo (dir 0%nat) (dir 1%nat) (dir 2%nat) checkout (main_of checkout folder))
  end.

Definition linked (repo : Repo) : bool := negb (bool_decide (lw_canonical (rp_git_dir repo) = lw_canonical (rp_common_dir repo))).
Definition owns (repo : Repo) (folder : string) : bool :=
  match rp_checkout repo with Some c => bool_decide (lw_canonical c = lw_canonical folder) | None => false end.

Definition parse_u64 (s : string) : option N := parse_uint (2 ^ 64 - 1) s.

Definition label (task : TaskRef) (folder main : string) : option Label :=
  worktree ← (w ← tr_worktree task; if lw_is_dir w then Some w else None);
  branch ← line ["branch"; "--show-current"] worktree;
  tip ← line ["rev-parse"; "--verify"; "--quiet"; "HEAD"] worktree;
  let base := dir ← line ["rev-parse"; "--path-format=absolute"; "--git-dir"] worktree; str_trim <$> lw_base dir in
  if bool_decide (base = Some tip) then None
  else
    counts ← line ["rev-list"; "--left-right"; "--count"; main +:+ "..." +:+ tip] folder;
    let counts := map (fun n => default 0%N (parse_u64 n)) (Pipe.split_whitespace counts) in
    let behind := default 0%N (counts !! 0%nat) in
    let ahead := default 0%N (counts !! 1%nat) in
    Some (mkLabel (tr_id task) (default (tr_id task) (tr_name task)) (tr_place task) branch tip ahead behind (bool_decide (ahead = 0%N))).

Definition labels (repo : Repo) (tasks : list TaskRef) : list Label :=
  omap (fun t => label t (rp_top repo) (rp_main repo)) (retain (fun t => negb (bool_decide (tr_place t = "done")) && owns repo (tr_repo t)) tasks).

Definition done_label (rows : list Row) (main : option string) (t : TaskRef) : option Label :=
  branch ← tr_branch t;
  tip ← tr_tip t;
  if bool_decide (is_Some (index rows !! tip))
  then Some (mkLabel (tr_id t) (default (tr_id t) (tr_name t)) (tr_place t) branch tip 0 0 (bool_decide (tip ∈ in_main rows main)))
  else None.

Definition done_labels (repo : Repo) (rows : list Row) (main : option string) (tasks : list TaskRef) : list Label :=
  omap (done_label rows main) (retain (fun t => bool_decide (tr_place t = "done") && owns repo (tr_repo t)) tasks).

Definition log_range (repo : Repo) (args : list string) (ls : list Label) : list string :=
  let range := before_dashes args in
  if forallb (starts_with "-") range then
    let more := if linked repo then ["HEAD"]
                else retain (fun b => negb (bool_decide (b = rp_main repo)))
                       (map lb_branch (retain (fun l => negb (bool_decide (lb_place l = "done")) && negb (lb_merged l)) ls)) in
    dedup_adjacent (range ++ more ++ [rp_main repo])
  else range.

Definition log_query (range paths : list string) : list string :=
  ["-c"; "log.showSignature=false"; "log"; "--no-color"; "--topo-order"; "-z"; "--format=%H%x1f%P%x1f%an%x1f%at%x1f%D%x1f%s";
   "--decorate-refs-exclude=refs/remotes/*/HEAD"; "--max-count=" +:+ pretty (N.of_nat (LIMIT + 1))] ++ range ++ ["--"] ++ paths.

Definition main_tip (main folder : string) : option string :=
  line ["rev-parse"; "--verify"; "--quiet"; main +:+ "^{commit}"] folder.

(** [fill]: the log as far as it came, and the error *)
Definition log_fill (log : Log) (tasks : list TaskRef) : Log * option string :=
  match repo_find (lg_folder log) with
  | inl e => (log, Some e)
  | inr repo =>
    let ls := labels repo tasks in
    let range := log_range repo (lg_args log) ls in
    let filled := mkLog (lg_folder log) (lg_args log) (rp_top repo) (rp_git_dir repo) (rp_common_dir repo) (rp_main repo) range in
    match lw_text (log_query range (pathspecs (lg_args log))) (lg_folder log) with
    | inl e => (filled (lg_rows log) (lg_tasks log) (lg_more log) (lg_error log), Some e)
    | inr out =>
      let rows := log_parse out in
      let tip := main_tip (rp_main repo) (lg_folder log) in
      let shaped := shape (take LIMIT rows) tip in
      (filled shaped (ls ++ done_labels repo shaped tip tasks) (LIMIT <? length rows)%nat (lg_error log), None)
    end
  end.

Definition log_new (folder : string) (args : list string) : Log := mkLog folder args "" "" "" "" [] [] [] false None.

Definition log_load (folder : string) (args : list string) (tasks : list TaskRef) : Log :=
  match log_fill (log_new folder args) tasks with
  | (l, None) => l
  | (l, Some e) => mkLog (lg_folder l) (lg_args l) (lg_top l) (lg_git_dir l) (lg_common_dir l) (lg_main l) (lg_range l) [] [] (lg_more l) (Some e)
  end.
End Load.

(** ** What is shown *)

(** What is reached from a tip over parents in the range *)
Inductive reached (rows : list Row) (tip : option string) : string -> Prop :=
| reached_tip h : tip = Some h -> is_Some (index rows !! h) -> reached rows tip h
| reached_parent h i p : reached rows tip h -> index rows !! h = Some i -> p ∈ parents_of rows i -> is_Some (index rows !! p) -> reached rows tip p.

(** The parents of the rows that were not reached yet *)
Definition left_weight (seen : gset string) (rows : list Row) : nat :=
  list_sum (map (fun r => if bool_decide (r_hash r ∈ seen) then 0%nat else length (r_parents r)) rows).

Lemma left_weight_mono h seen rows : (left_weight ({[h]} ∪ seen) rows <= left_weight seen rows)%nat.
Proof.
  unfold left_weight. induction rows as [|r rows IH]; simpl; [done|]. repeat case_bool_decide; set_solver || lia.
Qed.

Lemma left_weight_drop seen rows i r :
  rows !! i = Some r -> r_hash r ∉ seen -> (length (r_parents r) + left_weight ({[r_hash r]} ∪ seen) rows <= left_weight seen rows)%nat.
Proof.
  unfold left_weight. revert i. induction rows as [|x rows IH]; intros [|i]; simpl; try done.
  - intros [= ->] Hr. rewrite (bool_decide_eq_true_2 (r_hash r ∈ {[r_hash r]} ∪ seen)) by set_solver. rewrite (bool_decide_eq_false_2 (_ ∈ seen)) by done.
    pose proof (left_weight_mono (r_hash r) seen rows) as Hm. unfold left_weight in Hm. lia.
  - intros Hi Hr. specialize (IH i Hi Hr). repeat case_bool_decide; set_solver || lia.
Qed.

Lemma main_go_spec rows tip fuel stack seen :
  (length stack + left_weight seen rows < fuel)%nat ->
  set_Forall (reached rows tip) seen ->
  (forall h, h ∈ stack -> is_Some (index rows !! h) -> reached rows tip h) ->
  (forall h i p, h ∈ seen -> index rows !! h = Some i -> p ∈ parents_of rows i -> is_Some (index rows !! p) -> p ∈ seen \/ p ∈ stack) ->
  let out := main_go rows fuel stack seen in
  set_Forall (reached rows tip) out /\ seen ⊆ out /\ (forall h, h ∈ stack -> is_Some (index rows !! h) -> h ∈ out) /\
  (forall h i p, h ∈ out -> index rows !! h = Some i -> p ∈ parents_of rows i -> is_Some (index rows !! p) -> p ∈ out).
Proof.
  revert stack seen. induction fuel as [|fuel IH]; intros stack seen Hfuel Hs Hst Hcl; cbn zeta; [lia|]. simpl.
  destruct stack as [|h stack].
  { split_and!; [done|done|set_solver|]. intros h i p Hh Hi Hp Hx. destruct (Hcl h i p Hh Hi Hp Hx); set_solver. }
  destruct (index rows !! h) as [i|] eqn:Ei; [destruct (decide (h ∈ seen)) as [Hh|Hh]|].
  - destruct (IH stack seen) as (H1 & H2 & H3 & H4); [simpl in Hfuel; lia|done|set_solver| |].
    + intros a j p Ha Hj Hp Hx. destruct (Hcl a j p Ha Hj Hp Hx) as [?|[->|?]%elem_of_cons]; set_solver.
    + split_and!; [done|done| |done]. intros a [->|Ha]%elem_of_cons Hx; [set_solver|by apply H3].
  - destruct (index_Some _ _ _ Ei) as (r & Hr & <-). assert (parents_of rows i = r_parents r) as Hp by (unfold parents_of; by rewrite Hr).
    pose proof (left_weight_drop seen rows i r Hr Hh) as Hw. assert (reached rows tip (r_hash r)) as Hre by (apply Hst; [left|by eexists]).
    destruct (IH (rev (parents_of rows i) ++ stack) ({[r_hash r]} ∪ seen)) as (H1 & H2 & H3 & H4).
    + rewrite length_app, length_rev, Hp. simpl in Hfuel. lia.
    + apply set_Forall_union; [by apply set_Forall_singleton|done].
    + intros a Ha Hx. rewrite elem_of_app, elem_of_rev in Ha. destruct Ha as [Ha|Ha]; [by apply (reached_parent _ _ (r_hash r) i)|apply Hst; [by right|done]].
    + intros a j p [->%elem_of_singleton|Ha]%elem_of_union Hj Hpa Hx.
      * right. apply elem_of_app. left. apply elem_of_rev. congruence.
      * destruct (Hcl a j p Ha Hj Hpa Hx) as [?|[->|?]%elem_of_cons]; [set_solver|set_solver|]. right. apply elem_of_app. by right.
    + split_and!; [done|set_solver| |done]. intros a [->|Ha]%elem_of_cons Hx; [set_solver|]. apply H3; [|done]. apply elem_of_app. by right.
  - destruct (IH stack seen) as (H1 & H2 & H3 & H4); [simpl in Hfuel; lia|done|set_solver| |].
    + intros a j p Ha Hj Hp Hx. destruct (Hcl a j p Ha Hj Hp Hx) as [?|[->|?]%elem_of_cons]; [by left| |by right]. rewrite Ei in Hx. by destruct Hx.
    + split_and!; [done|done| |done]. intros a [->|Ha]%elem_of_cons Hx; [rewrite Ei in Hx; by destruct Hx|by apply H3].
Qed.

Lemma in_main_exact rows tip h : h ∈ in_main rows tip <-> reached rows tip h.
Proof.
  destruct (main_go_spec rows tip (main_fuel rows) (option_list tip) ∅) as (H1 & _ & H3 & H4).
  - unfold main_fuel, left_weight. assert (length (option_list tip) <= 1)%nat by (by destruct tip; simpl; lia).
    rewrite (map_ext_in _ (fun r => length (r_parents r))); [lia|]. intros r _. by rewrite bool_decide_eq_false_2 by set_solver.
  - by apply set_Forall_empty.
  - intros a Ha Hx. apply reached_tip; [|done]. destruct tip as [t|]; simpl in Ha; [|by apply elem_of_nil in Ha]. by apply list_elem_of_singleton in Ha as ->.
  - intros a i p Ha. set_solver.
  - split; [apply H1|]. induction 1 as [a -> Hx|a i p _ IH Hi Hp Hx]; [apply H3; [by apply list_elem_of_singleton|done]|by eapply H4].
Qed.

Lemma log_parse_fresh out : Forall fresh_row (log_parse out).
Proof.
  apply Forall_forall. intros r (record & _ & Hr)%list_elem_of_omap. unfold read_row in Hr. repeat case_match; simplify_eq. by split_and!.
Qed.

Section LoadFacts.
Context {world : LogWorld}.

Lemma labels_open repo tasks l : l ∈ labels repo tasks -> lb_place l ≠ "done" /\ (lb_merged l = true <-> lb_ahead l = 0%N).
Proof.
  unfold labels. intros (t & [[Hp%negb_true_iff _]%andb_true_iff _]%elem_of_retain & Hl)%list_elem_of_omap.
  unfold label in Hl. repeat (apply bind_Some in Hl as (? & ? & Hl)). case_bool_decide; [done|]. apply bind_Some in Hl as (? & ? & Hl). injection Hl as <-.
  cbn [lb_place lb_merged lb_ahead]. split; [by apply bool_decide_eq_false in Hp|apply bool_decide_eq_true].
Qed.

Lemma done_labels_closed repo rows tip tasks l :
  l ∈ done_labels repo rows tip tasks -> lb_place l = "done" /\ is_Some (index rows !! lb_tip l) /\ (lb_merged l = true <-> reached rows tip (lb_tip l)).
Proof.
  unfold done_labels. intros (t & [[Hp%bool_decide_eq_true _]%andb_true_iff _]%elem_of_retain & Hl)%list_elem_of_omap.
  unfold done_label in Hl. repeat (apply bind_Some in Hl as (? & ? & Hl)). case_bool_decide; [|done]. injection Hl as <-.
  cbn [lb_place lb_tip lb_merged]. split_and!; [done|done|]. by rewrite bool_decide_eq_true, in_main_exact.
Qed.

(** The log that is shown is git's: at most 2,000 rows, with whether there are more, the commits
    as git gives them; a task that is done is labelled where its tip is in the range, as merged
    exactly when the tip is reached from that of main over parents in the range, and one that
    goes on as merged exactly when it is ahead by nothing.  With an error there are no rows and
    no labels. *)
Theorem log_exact folder args tasks :
  let log := log_load folder args tasks in
  (is_Some (lg_error log) /\ lg_rows log = [] /\ lg_tasks log = []) \/
  (lg_error log = None /\ exists out, lw_text (log_query (lg_range log) (pathspecs args)) folder = inr out /\
    Forall2 same_commit (take LIMIT (log_parse out)) (lg_rows log) /\ (length (lg_rows log) <= LIMIT)%nat /\
    (lg_more log = true <-> (LIMIT < length (log_parse out))%nat) /\
    forall l, l ∈ lg_tasks log ->
      if decide (lb_place l = "done")
      then is_Some (index (lg_rows log) !! lb_tip l) /\ (lb_merged l = true <-> reached (lg_rows log) (main_tip (lg_main log) folder) (lb_tip l))
      else (lb_merged l = true <-> lb_ahead l = 0%N)).
Proof.
  unfold log_load, log_fill. cbn [lg_folder lg_args log_new lg_rows lg_tasks lg_more lg_error].
  destruct (repo_find folder) as [e|repo]; [left; by split_and!; [eexists|..]|].
  destruct (lw_text (log_query _ _) folder) as [e|out] eqn:Eo; [left; by split_and!; [eexists|..]|]. right. split; [done|]. exists out.
  cbn [lg_range lg_rows lg_more lg_tasks lg_main]. set (rows := take LIMIT (log_parse out)). split_and!; [done| | |apply Nat.ltb_lt|].
  - apply Forall2_same_length_lookup. split; [by rewrite length_shape|]. intros i r r' Hr Hr'.
    destruct (shape_lookup rows (main_tip (rp_main repo) folder) i r) as (x & Ex & Hsame & _); [apply Forall_take, log_parse_fresh|done|]. by assert (x = r') as -> by congruence.
  - rewrite length_shape. unfold rows. rewrite length_take. lia.
  - intros l [[Hp Hl]%labels_open|(Hp & Hl)%done_labels_closed]%elem_of_app; [by rewrite decide_False|by rewrite decide_True].
Qed.
End LoadFacts.

(** A repository of two commits, and a task that was merged *)
Definition sample_world : LogWorld := {|
  lw_text args folder :=
    if contains args "log" then inr (join (String nul "") (map (join (String unit_separator "")) [["c2"; "c1"; "an"; "7"; "HEAD -> main, tag"; "two"]; ["c1"; ""; "an"; "5"; ""; "one"]]))
    else if contains args "--show-toplevel" then inr (join (String newline "") ["/r"; "/r/.git"; "/r/.git"])
    else if contains args "symbolic-ref" then inr (String.append "main" (String newline ""))
    else if contains args "main^{commit}" then inr "c2" else inl "no";
  lw_is_dir folder := bool_decide (folder = "/r");
  lw_base dir := None;
  lw_canonical path := path |}.
Definition sample_task : TaskRef := mkTaskRef "t1" None "done" "/r" None (Some "t1") (Some "c1").

Example sample_shown :
  let log := log_load (world := sample_world) "/r" [] [sample_task] in
  lg_error log = None /\ lg_range log = ["main"] /\ map r_refs (lg_rows log) = [["HEAD"; "main"; "tag"]; []] /\ map lb_merged (lg_tasks log) = [true].
Proof. by vm_compute. Qed.
