(* ===== verification/Commit.v ===== *)
(** * A commit and what it changed: [commit] and [changes] of [crates/kanna-log/src/lib.rs] *)

From S2P Require Import Prelude Text PipeText Json Pipe Schedule Utf8 Patch PatchTheorems Diffs Log.
From Stdlib Require Import Ascii.

Record Changed := mkChanged {
  ch_path : string;
  ch_old_path : option string;
  ch_status : string;
  ch_added : option N;
  ch_removed : option N }.

Definition set_lines (c : Changed) (n : option N * option N) : Changed := mkChanged (ch_path c) (ch_old_path c) (ch_status c) (fst n) (snd n).

Definition first_letter (status : string) : string := match chars status with c :: _ => encode_char c | [] => "M" end.

(** The fields of [--name-status -z]: a status, and a path, or two of them *)
Fixpoint read_names (fields : list string) : list Changed :=
  match fields with
  | [] => []
  | status :: fields =>
    let letter := first_letter status in
    if bool_decide (letter = "R") || bool_decide (letter = "C") then
      match fields with
      | old :: path :: fields => mkChanged path (Some old) letter None None :: read_names fields
      | [old] => [mkChanged "" (Some old) letter None None]
      | [] => [mkChanged "" None letter None None]
      end
    else
      match fields with
      | path :: fields => mkChanged path None letter None None :: read_names fields
      | [] => [mkChanged "" None letter None None]
      end
  end.

(** The fields of [--numstat -z] *)
Fixpoint read_counts (fields : list string) (counts : gmap string (option N * option N)) : gmap string (option N * option N) :=
  match fields with
  | [] => counts
  | field :: fields =>
    match splitn 3 (ascii_of_N 9) field with
    | [added; removed; path] =>
      let n := (parse_u64 added, parse_u64 removed) in
      if str_is_empty path then
        match fields with
        | _ :: path :: fields => read_counts fields (<[path := n]> counts)
        | _ => <["" := n]> counts
        end
      else read_counts fields (<[path := n]> counts)
    | _ => read_counts fields counts
    end
  end.

Definition with_counts (counts : gmap string (option N * option N)) (c : Changed) : Changed :=
  match counts !! ch_path c with Some n => set_lines c n | None => c end.

Definition changed_to_json (c : Changed) : Value :=
  obj [("path", JString (ch_path c)); ("old", Json.opt (ch_old_path c)); ("status", JString (ch_status c)); ("added", opt_u32 (ch_added c)); ("removed", opt_u32 (ch_removed c))].

Definition show_args (what hash : string) : list string := ["show"; "--no-color"; "--format="; "-z"; "--diff-merges=first-parent"; "-M"; what; hash].

Definition is_hexdigit (a : ascii) : bool := is_digit a || between 97 102 a || between 65 70 a.

Section Commit.
Context {world : LogWorld}.

Definition changes (folder hash : string) : string + list Changed :=
  match lw_text (show_args "--name-status" hash) folder with
  | inl e => inl e
  | inr names =>
    let files := read_names (map skip_newlines (retain (fun f => negb (str_is_empty f)) (split_on nul names))) in
    match lw_text (show_args "--numstat" hash) folder with
    | inl e => inl e
    | inr stats => inr (map (with_counts (read_counts (map skip_newlines (split_on nul stats)) ∅)) files)
    end
  end.

(** [debug] is [{:?}] of a text, which goes by the tables of Unicode. *)
Definition commit (debug : string -> string) (folder hash : string) : string + Value :=
  if str_is_empty hash || negb (forallb is_hexdigit (string_bytes hash)) then inl (debug hash +:+ " isn't a commit hash")
  else
    match lw_text ["show"; "--no-color"; "-s"; "--format=%H%x1f%P%x1f%an%x1f%ae%x1f%at%x1f%B"; hash] folder with
    | inl e => inl e
    | inr head =>
      match splitn 6 unit_separator head with
      | [full; parents; author; email; time; message] =>
        match changes folder full with
        | inl e => inl e
        | inr files =>
          inr (obj [("hash", JString full); ("parents", JArray (map JString (Pipe.split_whitespace parents))); ("author", JString author); ("email", JString email);
                    ("time", from_i64 (default 0%Z (parse_i64 time))); ("message", JString (str_trim_end message)); ("files", JArray (map changed_to_json files))])
        end
      | _ => inl ("git show " +:+ hash +:+ " said something unexpected")
      end
    end.
End Commit.

(** ** What git writes reads back *)

Definition two_paths (c : Changed) : bool := bool_decide (ch_status c = "R") || bool_decide (ch_status c = "C").
Definition old_fields (c : Changed) : list string := option_list (ch_old_path c).

(** With the similarity of a rename, such as [R90] *)
Definition name_fields (score : string) (c : Changed) : list string := (ch_status c +:+ (if two_paths c then score else "")) :: old_fields c ++ [ch_path c].

Definition count_text (n : option N) : string := match n with Some n => pretty n | None => "-" end.
Definition count_fields (c : Changed) : list string :=
  let counts := count_text (ch_added c) +:+ tab +:+ count_text (ch_removed c) +:+ tab in
  match ch_old_path c with Some old => [counts; old; ch_path c] | None => [counts +:+ ch_path c] end.

Definition field_ok (s : string) : Prop := s ≠ "" /\ no_byte nul s /\ starts_with (String newline "") s = false.

Record changed_ok (c : Changed) : Prop := {
  co_status : ch_status c ∈ ["A"; "C"; "D"; "M"; "R"; "T"];
  co_path : field_ok (ch_path c);
  co_old : if two_paths c then exists old, ch_old_path c = Some old /\ field_ok old else ch_old_path c = None;
  co_counts : forall n, ch_added c = Some n \/ ch_removed c = Some n -> (n <= 2 ^ 64 - 1)%N }.

Lemma skip_newlines_not s : starts_with (String newline "") s = false -> skip_newlines s = s.
Proof.
  destruct s as [|a s]; [done|]. unfold starts_with. cbn [strip_prefix skip_newlines]. intros H%bool_decide_eq_false.
  destruct (decide (a = newline)) as [->|Hn]; [|done]. destruct H. rewrite decide_True by done. by eexists.
Qed.

Lemma fields_kept fields : Forall field_ok fields -> map skip_newlines (retain (fun f => negb (str_is_empty f)) fields) = fields.
Proof.
  induction 1 as [|f fields (Hn & _ & Hs) _ IH]; [done|]. simpl. unfold str_is_empty at 1.
  destruct (decide (f = "")) as [->|_]; [done|]. rewrite bool_decide_eq_false_2 by done. simpl. by rewrite skip_newlines_not, IH.
Qed.

Lemma name_fields_ok score c : no_byte nul score -> changed_ok c -> Forall field_ok (name_fields score c).
Proof.
  intros Hsc [Hs Hp Ho _]. constructor; [|apply Forall_app; split; [|by apply Forall_singleton]].
  - assert (no_byte nul (if two_paths c then score else "")) as Hx by (by destruct (two_paths c); [|constructor]).
    clear Hp Ho. unfold field_ok. rewrite no_byte_app. clear Hsc. set (x := if two_paths c then _ else _) in *. clearbody x.
    repeat (apply elem_of_cons in Hs as [->|Hs]); [split_and!; [done|by repeat constructor|done|done]..|by apply elem_of_nil in Hs].
  - unfold old_fields. destruct (two_paths c); [destruct Ho as (old & -> & Ho); by apply Forall_singleton|rewrite Ho; constructor].
Qed.

Lemma first_letter_is c x : changed_ok c -> first_letter (ch_status c +:+ x) = ch_status c.
Proof. intros [Hs _ _ _]. repeat (apply elem_of_cons in Hs as [->|Hs]); try done. by apply elem_of_nil in Hs. Qed.

Definition unlined (c : Changed) : Changed := set_lines c (None, None).

Lemma names_read score cs : Forall changed_ok cs -> read_names (flat_map (name_fields score) cs) = map unlined cs.
Proof.
  induction 1 as [|c cs Hc _ IH]; [done|]. cbn [flat_map]. unfold name_fields at 1. cbn [app]. cbn [read_names]. rewrite first_letter_is by done.
  fold (two_paths c). pose proof (co_old c Hc) as Ho. unfold old_fields. cbn [map]. rewrite <- IH. unfold unlined, set_lines. destruct (two_paths c).
  - by destruct Ho as (old & -> & _).
  - by rewrite Ho.
Qed.

Lemma count_reads n : (forall m, n = Some m -> (m <= 2 ^ 64 - 1)%N) -> parse_u64 (count_text n) = n.
Proof. intros Hn. destruct n as [n|]; [|done]. by apply parse_uint_pretty, Hn. Qed.

Lemma count_text_tab n : no_byte (ascii_of_N 9) (count_text n).
Proof. destruct n; [by apply digits_no_byte|by repeat constructor]. Qed.

Lemma splitn_counts a r p : splitn 3 (ascii_of_N 9) ((count_text a +:+ tab +:+ count_text r +:+ tab) +:+ p) = [count_text a; count_text r; p].
Proof.
  replace ((count_text a +:+ tab +:+ count_text r +:+ tab) +:+ p) with (count_text a +:+ String (ascii_of_N 9) "" +:+ (count_text r +:+ String (ascii_of_N 9) "" +:+ p))
    by (unfold tab; rewrite <- !string_app_assoc; done).
  cbn [splitn]. rewrite split_once_app by apply count_text_tab. rewrite split_once_app by apply count_text_tab. done.
Qed.

Lemma counts_not_newline a r p : starts_with (String newline "") ((count_text a +:+ tab +:+ count_text r +:+ tab) +:+ p) = false.
Proof.
  destruct a as [n|]; [|done]. unfold count_text at 1. pose proof (pretty_digits n) as Hd. destruct (pretty n) as [|x s]; [done|].
  apply Forall_cons in Hd as [Hx _]. unfold starts_with. apply bool_decide_eq_false. intros [rest H]. simpl in H.
  destruct (decide (newline = x)) as [<-|_]; done.
Qed.

Lemma count_fields_fixed c : changed_ok c -> map skip_newlines (count_fields c) = count_fields c.
Proof.
  intros [_ (_ & _ & Hp) Ho _]. unfold count_fields. destruct (ch_old_path c) as [old|].
  - cbn [map]. destruct (two_paths c); [|done]. destruct Ho as (o & [= <-] & (_ & _ & Ho)). rewrite !skip_newlines_not; try done.
    rewrite <- (string_app_nil (count_text (ch_added c) +:+ _)). apply counts_not_newline.
  - cbn [map]. rewrite skip_newlines_not; [done|apply counts_not_newline].
Qed.

(** The counts of a list, the later first where a path is twice *)
Definition counts_of (cs : list Changed) (counts : gmap string (option N * option N)) : gmap string (option N * option N) :=
  foldl (fun m c => <[ch_path c := (ch_added c, ch_removed c)]> m) counts cs.

Lemma counts_read cs counts : Forall changed_ok cs -> read_counts (flat_map count_fields cs ++ [""]) counts = counts_of cs counts.
Proof.
  intros Hcs. revert counts. induction Hcs as [|c cs Hc _ IH]; intros counts; [done|]. cbn [flat_map]. rewrite <- app_assoc. unfold count_fields at 1.
  assert ((parse_u64 (count_text (ch_added c)), parse_u64 (count_text (ch_removed c))) = (ch_added c, ch_removed c)) as Hn.
  { rewrite !count_reads; [done|..]; intros m Hm; apply (co_counts c Hc); [by right|by left]. }
  destruct (co_path c Hc) as (Hne & _). destruct (ch_old_path c) as [old|]; cbn [app read_counts].
  - rewrite <- (string_app_nil (count_text (ch_added c) +:+ _)), splitn_counts, Hn. cbn [str_is_empty]. apply IH.
  - rewrite splitn_counts, Hn. unfold str_is_empty. rewrite bool_decide_eq_false_2 by done. apply IH.
Qed.

Lemma counts_of_lookup cs counts c : NoDup (map ch_path cs) -> c ∈ cs -> counts_of cs counts !! ch_path c = Some (ch_added c, ch_removed c).
Proof.
  revert counts. induction cs as [|x cs IH]; intros counts Hnd Hc; [by apply elem_of_nil in Hc|]. cbn [map] in Hnd. apply NoDup_cons in Hnd as [Hx Hnd].
  change (counts_of (x :: cs) counts) with (counts_of cs (<[ch_path x := (ch_added x, ch_removed x)]> counts)). apply elem_of_cons in Hc as [->|Hc]; [|by apply IH]. clear IH Hnd.
  assert (forall m : gmap string (option N * option N), counts_of cs m !! ch_path x = m !! ch_path x) as ->; [|by rewrite lookup_insert_eq].
  induction cs as [|y cs IH]; intros m; [done|]. cbn [map] in Hx. apply not_elem_of_cons in Hx as [Hxy Hx]. 
  change (counts_of (y :: cs) m) with (counts_of cs (<[ch_path y := (ch_added y, ch_removed y)]> m)). rewrite IH by done. by rewrite lookup_insert_ne.
Qed.

Lemma count_fields_nul c : changed_ok c -> Forall (no_byte nul) (count_fields c).
Proof.
  intros [_ (_ & Hp & _) Ho _]. assert (forall n, no_byte nul (count_text n)) as Hn by (intros [n|]; [by apply digits_no_byte|by repeat constructor]).
  assert (no_byte nul tab) as Ht by by repeat constructor.
  unfold count_fields. destruct (ch_old_path c) as [old|]; repeat constructor; rewrite ?no_byte_app; try done.
  destruct (two_paths c); [|done]. by destruct Ho as (o & [= <-] & (_ & Ho & _)).
Qed.

Lemma counts_attach cs counts : NoDup (map ch_path cs) -> map (with_counts (counts_of cs counts)) (map unlined cs) = cs.
Proof.
  intros Hnd. rewrite map_map. rewrite <- (map_id cs) at 2. apply map_ext_in. intros c Hc%list_elem_of_In. unfold with_counts.
  cbn [unlined set_lines ch_path]. rewrite counts_of_lookup by done. by destruct c.
Qed.

Section CommitFacts.
Context {world : LogWorld}.

(** What a commit changed reads back: where git writes the names and the counts of some files with
    distinct paths, renames and copies with the path they had, files it does not count with [-],
    those files are what [changes] gives, in their order. *)
Theorem changes_read_back folder hash score cs :
  no_byte nul score -> Forall changed_ok cs -> NoDup (map ch_path cs) ->
  lw_text (show_args "--name-status" hash) folder = inr (ended nul (flat_map (name_fields score) cs)) ->
  lw_text (show_args "--numstat" hash) folder = inr (ended nul (flat_map count_fields cs)) ->
  changes folder hash = inr cs.
Proof.
  intros Hscore Hcs Hnd Hnames Hstats. unfold changes. rewrite Hnames, Hstats.
  assert (Forall field_ok (flat_map (name_fields score) cs)) as Hf by (apply Forall_flat_map; eapply Forall_impl; [exact Hcs|]; intros; by apply name_fields_ok).
  rewrite (split_lines nul (flat_map (name_fields score) cs)) by (eapply Forall_impl; [exact Hf|]; intros ? (_ & ? & _); done).
  rewrite (split_lines nul (flat_map count_fields cs)) by (apply Forall_flat_map; eapply Forall_impl; [exact Hcs|]; intros; by apply count_fields_nul).
  rewrite retain_app. cbn [retain]. rewrite app_nil_r, fields_kept, names_read by done. rewrite map_app. cbn [map].
  assert (map skip_newlines (flat_map count_fields cs) = flat_map count_fields cs) as ->.
  { clear -Hcs. induction Hcs as [|c cs Hc _ IH]; [done|]. cbn [flat_map]. by rewrite map_app, count_fields_fixed, IH. }
  cbn [skip_newlines]. by rewrite counts_read, counts_attach.
Qed.
End CommitFacts.

(** A commit that renamed a picture and changed a text *)
Definition sample_changes : list Changed := [mkChanged "b.png" (Some "a.png") "R" None None; mkChanged "x y" None "M" (Some 12%N) (Some 3%N)].
Definition commit_world : LogWorld := {|
  lw_text args folder :=
    inr (if contains args "--name-status" then ended nul ["R90"; "a.png"; "b.png"; "M"; "x y"] else ended nul ["-" +:+ tab +:+ "-" +:+ tab; "a.png"; "b.png"; "12" +:+ tab +:+ "3" +:+ tab +:+ "x y"]);
  lw_is_dir folder := false;
  lw_base dir := None;
  lw_canonical path := path |}.

Lemma sample_changes_ok : Forall changed_ok sample_changes.
Proof.
  apply Forall_cons; split; [|apply Forall_singleton]; split; cbn.
  - by repeat constructor.
  - split_and!; [done|by repeat constructor|done].
  - eexists. split; [done|]. split_and!; [done|by repeat constructor|done].
  - by intros n [?|?].
  - by repeat constructor.
  - split_and!; [done|by repeat constructor|done].
  - done.
  - by intros n [[= <-]|[= <-]].
Qed.

Lemma changes_read_back_witness : changes (world := commit_world) "/r" "c0de" = inr sample_changes.
Proof.
  apply (changes_read_back (world := commit_world) "/r" "c0de" "90" sample_changes); [by repeat constructor|exact sample_changes_ok| |reflexivity|reflexivity].
  by apply (bool_decide_unpack _).
Defined.
