(* ===== verification/Frame.v ===== *)
(** * Frames between a host and a guest: [crates/kanna-guest/src/frame.rs]

    A frame is the length of a header in four bytes, the header as JSON, and a payload whose size
    the header gives.  The bytes of JSON are the class [JsonBytes], as in [serde_json]; a reader
    is the bytes that are left. *)

From S2P Require Import Prelude Text F64 PipeText Json Utf8 Patch PatchTheorems.
From Stdlib Require Import Ascii ZifyN SpecFloat.

#[local] Open Scope N_scope.
#[local] Ltac Zify.zify_post_hook ::= Z.div_mod_to_equations.

Inductive ErrorKind := InvalidData | UnexpectedEof | PermissionDenied | Other.
Record IoError := mkIo { io_kind : ErrorKind; io_message : string }.
Definition io := outcome IoError.

(** [serde_json::to_vec] and [from_slice], which fails with a message *)
Class JsonBytes := {
  to_vec : Value -> string;
  from_slice : string -> string + Value }.

(** ** Values that travel

    With each key of an object once, and of the floats those that are [kept]: serde_json reads a float
    back to the last bit only with its feature float_roundtrip, which the crates do not enable, so
    whether one comes back is asked of its own text.  A map that was read may have its fields in
    another order. *)

Inductive travels (kept : f64 -> Prop) : Value -> Prop :=
| travels_null : travels kept JNull
| travels_bool b : travels kept (JBool b)
| travels_pos n : n < 2 ^ 64 -> travels kept (JNumber (PosInt n))
| travels_neg z : (- 2 ^ 63 <= z < 0)%Z -> travels kept (JNumber (NegInt z))
| travels_float f : kept f -> travels kept (JNumber (Float f))
| travels_string s : travels kept (JString s)
| travels_array l : (forall v, v ∈ l -> travels kept v) -> travels kept (JArray l)
| travels_object m : NoDup (map fst m) -> (forall k v, map_get m k = Some v -> travels kept v) -> travels kept (JObject m).

Inductive same_value : Value -> Value -> Prop :=
| same_refl v : same_value v v
| same_array l k : Forall2 same_value l k -> same_value (JArray l) (JArray k)
| same_object m n : (forall key, option_Forall2 same_value (map_get m key) (map_get n key)) -> same_value (JObject m) (JObject n).

(** A float that is read from its text as it was *)
Definition float_back `{JsonBytes} (f : f64) : Prop := from_slice (to_vec (JNumber (Float f))) = inr (JNumber (Float f)).

Class JsonBytesLaws `{JsonBytes} : Prop :=
  from_to_vec v : travels float_back v -> exists w, from_slice (to_vec v) = inr w /\ same_value v w.

(** ** [frame.rs] *)

Definition MAX_HEADER : N := N.shiftl 64 10.
Definition MAX_PAYLOAD : N := N.shiftl 4 30.

Record Frame := mkFrame { fr_header : Value; fr_size : N }.

Definition frame_str (f : Frame) (key : string) : option string := string_of (fr_header f) key.
Definition frame_op (f : Frame) : string := default "" (frame_str f "op").

Definition bad (message : string) : IoError := mkIo InvalidData message.

(** [u32::to_be_bytes] and [from_be_bytes] *)
Definition to_be_bytes (n : N) : string :=
  String (ascii_of_N (n / 16777216 mod 256)) (String (ascii_of_N (n / 65536 mod 256)) (String (ascii_of_N (n / 256 mod 256)) (String (ascii_of_N (n mod 256)) ""))).
Definition from_be_bytes (a b c d : ascii) : N := ((N_of_ascii a * 256 + N_of_ascii b) * 256 + N_of_ascii c) * 256 + N_of_ascii d.

Section Wire.
Context {json : JsonBytes}.

Definition sized (header : Value) (size : N) : Value :=
  match header with JObject m => JObject (map_insert m "size" (JNumber (PosInt size))) | _ => header end.

(** The bytes that are written *)
Definition write_header (header : Value) (size : N) : io string :=
  let encoded := to_vec (sized header size) in
  if MAX_HEADER <? N.of_nat (String.length encoded) then Bad (bad "frame header too large")
  else Good (to_be_bytes (N.of_nat (String.length encoded)) +:+ encoded).

Definition send (header : Value) (payload : string) : io string :=
  let* header := write_header header (N.of_nat (String.length payload)) in Good (header +:+ payload).

(** The bytes that were written, and the error *)
Definition send_reader (header : Value) (size : N) (from : string) : string * option IoError :=
  match write_header header size with
  | Good h =>
    let copied := String.substring 0 (N.to_nat size) from in
    (h +:+ copied, if N.of_nat (String.length copied) =? size then None else Some (mkIo UnexpectedEof "file shrank while it was sent"))
  | Bad e => ("", Some e)
  | Crash => ("", None)
  end.

(** [read_exact]: some bytes, and those that are left *)
Definition read_exact (n : N) (input : string) : io (string * string) :=
  if N.of_nat (String.length input) <? n then Bad (mkIo UnexpectedEof "failed to fill whole buffer")
  else Good (String.substring 0 (N.to_nat n) input, String.substring (N.to_nat n) (String.length input - N.to_nat n) input).

Definition frame_size (header : Value) : io N :=
  match default JNull (get header "size") with
  | JNull => Good 0
  | size => good_or (as_u64 size) (bad "frame size isn't a number")
  end.

Definition read_header (max_payload : N) (input : string) : io (Frame * string) :=
  let* '(length, input) := read_exact 4 input in
  let length := match length with String a (String b (String c (String d _))) => from_be_bytes a b c d | _ => 0 end in
  if MAX_HEADER <? length then Bad (bad "frame header too large")
  else
    let* '(encoded, input) := read_exact length input in
    match from_slice encoded with
    | inl e => Bad (bad ("frame header isn't JSON: " +:+ e))
    | inr header =>
      if negb (is_object header) then Bad (bad "frame header isn't an object")
      else
        let* size := frame_size header in
        if max_payload <? size then Bad (bad ("frame payload of " +:+ pretty size +:+ " bytes is over the " +:+ pretty max_payload +:+ " allowed"))
        else Good (mkFrame header size, input)
    end.

Definition read_payload (frame : Frame) (input : string) : io (string * string) := read_exact (fr_size frame) input.

Definition read (max_payload : N) (input : string) : io (Frame * string * string) :=
  let* '(frame, input) := read_header max_payload input in
  let* '(payload, input) := read_payload frame input in
  Good (frame, payload, input).

(** What is left once a payload was skipped *)
Definition skip (frame : Frame) (input : string) : io string :=
  let n := N.min (fr_size frame) (N.of_nat (String.length input)) in
  if n =? fr_size frame then Good (String.substring (N.to_nat n) (String.length input - N.to_nat n) input)
  else Bad (mkIo UnexpectedEof "frame cut short").

(** ** Frames in a row *)

Fixpoint send_all (frames : list (Value * string)) : io string :=
  match frames with
  | [] => Good ""
  | (header, payload) :: frames => let* a := send header payload in let* b := send_all frames in Good (a +:+ b)
  end.

Fixpoint read_all (n : nat) (max_payload : N) (input : string) : io (list (Frame * string) * string) :=
  match n with
  | O => Good ([], input)
  | S n =>
    let* '(frame, payload, input) := read max_payload input in
    let* '(frames, input) := read_all n max_payload input in
    Good ((frame, payload) :: frames, input)
  end.
End Wire.

(** ** What is sent reads back *)

Lemma substring_head s t : String.substring 0 (String.length s) (s +:+ t) = s.
Proof. induction s as [|a s IH]; simpl; [by destruct t|by rewrite IH]. Qed.

Lemma substring_all s n : (String.length s <= n)%nat -> String.substring 0 n s = s.
Proof. revert n. induction s as [|a s IH]; intros [|n] Hn; simpl in *; try done; try lia. rewrite IH by lia. done. Qed.

Lemma substring_rest s t : String.substring (String.length s) (String.length t) (s +:+ t) = t.
Proof. induction s as [|a s IH]; simpl; [by apply substring_all|done]. Qed.

Lemma read_exact_app n s t : N.of_nat (String.length s) = n -> read_exact n (s +:+ t) = Good (s, t).
Proof.
  intros <-. unfold read_exact. rewrite length_string_app. rewrite (proj2 (N.ltb_ge _ _)) by lia.
  rewrite Nat2N.id. replace (String.length s + String.length t - String.length s)%nat with (String.length t) by lia. by rewrite substring_head, substring_rest.
Qed.

Lemma to_be_length n : String.length (to_be_bytes n) = 4%nat.
Proof. done. Qed.

Lemma be_bytes n : n < 2 ^ 32 -> match to_be_bytes n with String a (String b (String c (String d _))) => from_be_bytes a b c d | _ => 0 end = n.
Proof. intros Hn. unfold to_be_bytes, from_be_bytes. rewrite !N_ascii_embedding by lia. lia. Qed.

Lemma map_insert_NoDup m k v : NoDup (map fst m) -> NoDup (map fst (map_insert m k v)).
Proof.
  induction m as [|[x w] m IH]; simpl; [intros _; apply NoDup_singleton|]. intros [Hx Hm]%NoDup_cons. case_decide as E; simpl; [by constructor|].
  constructor; [|by apply IH]. clear -Hx E. induction m as [|[y u] m IH]; simpl in *; [set_solver|]. case_decide; simpl; set_solver.
Qed.

Lemma sized_travels kept m size : travels kept (JObject m) -> size < 2 ^ 64 -> travels kept (sized (JObject m) size).
Proof.
  intros Hm Hs. inversion Hm as [| | | | | | |? Hnd Hv]; subst. constructor; [by apply map_insert_NoDup|]. intros k v.
  destruct (decide ("size" = k)) as [<-|Hk]; [|rewrite map_get_insert_ne by done; apply Hv]. rewrite map_get_insert. intros [= <-]. by constructor.
Qed.

Lemma same_size m w size : same_value (sized (JObject m) size) w -> is_object w = true /\ frame_size w = Good size.
Proof.
  cbn [sized]. intros Hw. inversion Hw as [| |? n Hn]; subst; (split; [done|]); unfold frame_size, get; [by rewrite map_get_insert|].
  specialize (Hn "size"). rewrite map_get_insert in Hn. inversion Hn as [? x Hx|]; subst. inversion Hx; subst. done.
Qed.

Section ReadBack.
Context `{laws : JsonBytesLaws}.

Definition sent_as (sent : Value * string) (got : Frame * string) : Prop :=
  same_value (sized (fst sent) (fr_size (fst got))) (fr_header (fst got)) /\ fr_size (fst got) = N.of_nat (String.length (snd sent)) /\ snd got = snd sent.

Definition sendable (max : N) (frame : Value * string) : Prop :=
  (exists m, fst frame = JObject m) /\ travels float_back (fst frame) /\ N.of_nat (String.length (snd frame)) <= max.

Lemma send_reads max header payload wire rest :
  max < 2 ^ 64 -> sendable max (header, payload) -> send header payload = Good wire ->
  exists frame, read max (wire +:+ rest) = Good (frame, payload, rest) /\ sent_as (header, payload) (frame, payload).
Proof.
  intros Hmax ([m Hm] & Ht & Hp) Hs. simpl in *. subst header. set (size := N.of_nat (String.length payload)) in *.
  unfold send in Hs. fold size in Hs. unfold write_header in Hs. set (encoded := to_vec (sized (JObject m) size)) in *.
  destruct (MAX_HEADER <? _) eqn:El; [done|]. apply N.ltb_ge in El.
  assert (wire = (to_be_bytes (N.of_nat (String.length encoded)) +:+ encoded) +:+ payload) as -> by (cbn [outcome_bind] in Hs; congruence). clear Hs.
  destruct (from_to_vec (sized (JObject m) size)) as (w & Hw & Hsame); [apply sized_travels; [done|lia]|].
  destruct (same_size _ _ _ Hsame) as [Ho Hsize]. exists (mkFrame w size). split; [|by split_and!].
  unfold read, read_header. rewrite <- !string_app_assoc, read_exact_app by done. cbn [outcome_bind].
  rewrite be_bytes by (unfold MAX_HEADER in El; vm_compute N.shiftl in El; lia).
  rewrite (proj2 (N.ltb_ge _ _)) by done. rewrite read_exact_app by done. cbn [outcome_bind].
  fold encoded in Hw. rewrite Hw, Ho. cbn [negb]. rewrite Hsize. cbn [outcome_bind]. rewrite (proj2 (N.ltb_ge _ _)) by done.
  cbn [outcome_bind]. unfold read_payload. cbn [fr_size]. by rewrite read_exact_app.
Qed.

(** Frames read back as they were sent: whatever frames are sent one after the other, with headers
    that are objects and payloads within what the reader allows, reading as many gives each
    header, with the size of its payload, and each payload, in their order, and leaves what
    came after them. *)
Theorem frames_read_back max frames wire rest :
  max < 2 ^ 64 -> Forall (sendable max) frames -> send_all frames = Good wire ->
  exists got, read_all (length frames) max (wire +:+ rest) = Good (got, rest) /\ Forall2 sent_as frames got.
Proof.
  intros Hmax Hf. revert wire. induction Hf as [|[header payload] frames Hx _ IH]; intros wire; cbn [send_all].
  { intros [= <-]. exists []. by split; [|constructor]. }
  destruct (send header payload) as [a| |] eqn:Ea; [|done..]. destruct (send_all frames) as [b| |]; [|done..]. intros [= <-].
  destruct (send_reads max header payload a (b +:+ rest) Hmax Hx Ea) as (frame & Hr & Hsent). destruct (IH b eq_refl) as (got & Hg & Hall).
  exists ((frame, payload) :: got). split; [|by constructor]. cbn [length read_all]. by rewrite <- string_app_assoc, Hr; cbn [outcome_bind]; rewrite Hg.
Qed.
End ReadBack.

(** ** A codec that keeps the laws

    A tag, a number or a length, and what follows; it stands for JSON in the examples. *)

Section Codec.
Definition numbered (tag : ascii) (n : N) : string := String tag (pretty n) +:+ ";".
Definition enc_string (s : string) : string := numbered "s" (N.of_nat (String.length s)) +:+ s.

(** A float is its sign, its significand and its exponent *)
Definition sign_value (s : bool) : Value := JNumber (PosInt (if s then 1 else 0)).
Definition exp_value (e : Z) : Value := JNumber (if (0 <=? e)%Z then PosInt (Z.to_N e) else NegInt e).
Definition enc_float (s : bool) (m : N) (e : Z) : string :=
  numbered "d" 3 +:+ numbered "p" (if s then 1 else 0) +:+ numbered "p" m +:+
  (if (0 <=? e)%Z then numbered "p" (Z.to_N e) else numbered "n" (Z.to_N (- e))) +:+ "".
Definition float_of (l : list Value) : Value :=
  match l with
  | [JNumber (PosInt s); JNumber (PosInt m); JNumber e] =>
    let e := match e with PosInt e => Z.of_N e | NegInt e => e | Float _ => 0%Z end in
    JNumber (Float (match m with 0 => S754_zero (s =? 1) | N.pos m => S754_finite (s =? 1) m e end))
  | _ => JNull
  end.

Fixpoint enc (v : Value) : string :=
  match v with
  | JNull => "z"
  | JBool b => if b then "t" else "f"
  | JNumber (PosInt n) => numbered "p" n
  | JNumber (NegInt z) => numbered "n" (Z.to_N (- z))
  | JNumber (Float (S754_zero s)) => enc_float s 0 0
  | JNumber (Float (S754_finite s m e)) => enc_float s (N.pos m) e
  | JNumber (Float _) => "z"
  | JString s => enc_string s
  | JArray l => numbered "a" (N.of_nat (length l)) +:+ foldr (fun v s => enc v +:+ s) "" l
  | JObject m => numbered "o" (N.of_nat (2 * length m)) +:+ foldr (fun '(k, v) s => enc_string k +:+ enc v +:+ s) "" m
  end.

Definition dec_number (s : string) : option (N * string) := '(a, b) ← split_once ";" s; n ← parse_digits 0 a; Some (n, b).

Fixpoint dec_many (dec : string -> option (Value * string)) (n : nat) (s : string) : option (list Value * string) :=
  match n with
  | O => Some ([], s)
  | S n => '(v, s) ← dec s; '(l, s) ← dec_many dec n s; Some (v :: l, s)
  end.

Fixpoint pairs (l : list Value) : Map :=
  match l with JString k :: v :: l => (k, v) :: pairs l | _ => [] end.

Definition dec_tag (dec : string -> option (Value * string)) (tag : ascii) (s : string) : option (Value * string) :=
  '(n, s) ← dec_number s;
  if decide (tag = "p"%char) then Some (JNumber (PosInt n), s)
  else if decide (tag = "n"%char) then Some (JNumber (NegInt (- Z.of_N n)), s)
  else if decide (tag = "s"%char) then Some (JString (String.substring 0 (N.to_nat n) s), String.substring (N.to_nat n) (String.length s - N.to_nat n) s)
  else '(l, s) ← dec_many dec (N.to_nat n) s; Some (if decide (tag = "a"%char) then JArray l else if decide (tag = "d"%char) then float_of l else JObject (pairs l), s).

Fixpoint dec (fuel : nat) (s : string) : option (Value * string) :=
  match fuel, s with
  | S fuel, String tag s =>
    if decide (tag = "z"%char) then Some (JNull, s)
    else if decide (tag = "t"%char) then Some (JBool true, s)
    else if decide (tag = "f"%char) then Some (JBool false, s)
    else dec_tag (dec fuel) tag s
  | _, _ => None
  end.

Lemma dec_numbered tag n rest :
  numbered tag n +:+ rest = String tag (pretty n +:+ String ";" rest) /\ dec_number (pretty n +:+ String ";" rest) = Some (n, rest).
Proof.
  unfold numbered. split; [by rewrite <- string_app_assoc|]. unfold dec_number. rewrite (split_once_app ";" "" (pretty n) rest) by by apply digits_no_byte.
  cbn [mbind option_bind]. by rewrite parse_digits_pretty.
Qed.

Definition decodes (v : Value) : Prop := forall fuel rest, (String.length (enc v) <= fuel)%nat -> dec fuel (enc v +:+ rest) = Some (v, rest).

Lemma dec_many_all fuel l rest :
  (forall v, v ∈ l -> decodes v /\ (String.length (enc v) <= fuel)%nat) ->
  dec_many (dec fuel) (length l) (foldr (fun v s => enc v +:+ s) "" l +:+ rest) = Some (l, rest).
Proof.
  induction l as [|v l IH]; intros Hl; [done|]. cbn [foldr length dec_many]. destruct (Hl v) as [Hv Hf]; [left|]. rewrite <- string_app_assoc, Hv by done.
  cbn [mbind option_bind]. rewrite IH; [done|]. intros w Hw. apply Hl. by right.
Qed.

Lemma enc_member v l : v ∈ l -> (String.length (enc v) <= String.length (foldr (fun v s => enc v +:+ s) "" l))%nat.
Proof.
  induction l as [|x l IH]; [intros H; by apply elem_of_nil in H|]. cbn [foldr]. rewrite length_string_app. intros [->|Hv]%elem_of_cons; [lia|].
  specialize (IH Hv). lia.
Qed.

Definition flat (m : Map) : list Value := flat_map (fun '(k, v) => [JString k; v]) m.

Lemma enc_flat m : foldr (fun '(k, v) s => enc_string k +:+ enc v +:+ s) "" m = foldr (fun v s => enc v +:+ s) "" (flat m).
Proof. induction m as [|[k v] m IH]; [done|]. cbn [foldr flat flat_map app]. by rewrite IH. Qed.

Lemma pairs_flat m : pairs (flat m) = m.
Proof. induction m as [|[k v] m IH]; [done|]. change (pairs (flat ((k, v) :: m))) with ((k, v) :: pairs (flat m)). by rewrite IH. Qed.

Lemma numbered_length tag n : (0 < String.length (numbered tag n))%nat.
Proof. simpl. lia. Qed.

Lemma string_decodes s : decodes (JString s).
Proof.
  intros [|fuel] rest Hf; [simpl in Hf; lia|]. cbn [enc]. unfold enc_string. rewrite <- string_app_assoc.
  destruct (dec_numbered "s" (N.of_nat (String.length s)) (s +:+ rest)) as [-> Hn]. cbn [dec]. rewrite !decide_False by done. unfold dec_tag. rewrite Hn.
  cbn [mbind option_bind]. rewrite decide_False by done. rewrite decide_False by done. rewrite decide_True by done. rewrite Nat2N.id, length_string_app, substring_head.
  replace (String.length s + String.length rest - String.length s)%nat with (String.length rest) by lia. by rewrite substring_rest.
Qed.

Lemma list_decodes fuel tag l rest : tag = "a"%char \/ tag = "d"%char \/ tag = "o"%char -> (forall v, v ∈ l -> decodes v) ->
  (String.length (numbered tag (N.of_nat (length l)) +:+ foldr (fun v s => enc v +:+ s) "" l) <= fuel)%nat ->
  dec fuel ((numbered tag (N.of_nat (length l)) +:+ foldr (fun v s => enc v +:+ s) "" l) +:+ rest) =
  Some (if decide (tag = "a"%char) then JArray l else if decide (tag = "d"%char) then float_of l else JObject (pairs l), rest).
Proof.
  intros Htag Hl Hf. rewrite length_string_app in Hf. pose proof (numbered_length tag (N.of_nat (length l))) as Hp. destruct fuel as [|fuel]; [lia|].
  rewrite <- string_app_assoc. destruct (dec_numbered tag (N.of_nat (length l)) (foldr (fun v s => enc v +:+ s) "" l +:+ rest)) as [-> Hn].
  cbn [dec]. rewrite !decide_False by (by destruct Htag as [-> | [-> | ->]]). unfold dec_tag. rewrite Hn. cbn [mbind option_bind].
  rewrite (decide_False (P := tag = "p"%char)), (decide_False (P := tag = "n"%char)), (decide_False (P := tag = "s"%char)) by (by destruct Htag as [-> | [-> | ->]]).
  rewrite Nat2N.id, dec_many_all; [done|]. intros v Hv. split; [by apply Hl|]. pose proof (enc_member v l Hv). lia.
Qed.

Lemma map_get_member m k v : NoDup (map fst m) -> (k, v) ∈ m -> map_get m k = Some v.
Proof.
  induction m as [|[x y] m IH]; cbn [map fst map_get]; [intros _ H; by apply elem_of_nil in H|]. intros [Hx Hnd]%NoDup_cons [[= <- <-]|Hin]%elem_of_cons.
  - by rewrite decide_True.
  - rewrite decide_False; [by apply IH|]. intros ->. apply Hx. apply list_elem_of_In, in_map_iff. exists (k, v). by rewrite <- list_elem_of_In.
Qed.

Lemma pos_decodes n : decodes (JNumber (PosInt n)).
Proof.
  intros [|fuel] rest Hf; [simpl in Hf; lia|]. cbn [enc]. destruct (dec_numbered "p" n rest) as [-> Hd]. cbn [dec]. rewrite !decide_False by done.
  unfold dec_tag. rewrite Hd. done.
Qed.

Lemma neg_decodes z : (z < 0)%Z -> decodes (JNumber (NegInt z)).
Proof.
  intros Hz [|fuel] rest Hf; [simpl in Hf; lia|]. cbn [enc]. destruct (dec_numbered "n" (Z.to_N (- z)) rest) as [-> Hd]. cbn [dec]. rewrite !decide_False by done.
  unfold dec_tag. rewrite Hd. cbn [mbind option_bind]. rewrite decide_False, decide_True by done. do 4 f_equal. lia.
Qed.

Lemma float_decodes f : is_finite f = true -> decodes (JNumber (Float f)).
Proof.
  assert (forall s m e, let l := [sign_value s; JNumber (PosInt m); exp_value e] in enc_float s m e = numbered "d" (N.of_nat (length l)) +:+ foldr (fun v s => enc v +:+ s) "" l) as Henc.
  { intros s m e. unfold enc_float, exp_value. by destruct (0 <=? e)%Z. }
  assert (forall s m e rest fuel, (String.length (enc_float s m e) <= fuel)%nat ->
    dec fuel (enc_float s m e +:+ rest) = Some (float_of [sign_value s; JNumber (PosInt m); exp_value e], rest)) as Hdec.
  { intros s m e rest fuel. rewrite Henc. intros Hf. rewrite list_decodes; [done|by right; left| |done]. intros v Hv.
    repeat (apply elem_of_cons in Hv as [->|Hv]); [apply pos_decodes..| |by apply elem_of_nil in Hv].
    unfold exp_value. destruct (0 <=? e)%Z eqn:Ee; [apply pos_decodes|apply neg_decodes; by apply Z.leb_gt]. }
  destruct f as [s| | |s m e]; [|done..|]; intros _ fuel rest Hf; cbn [enc] in *; rewrite Hdec by done; [by destruct s|].
  unfold exp_value. destruct (0 <=? e)%Z eqn:Ee; [|by destruct s]. apply Z.leb_le in Ee. cbn. rewrite Z2N.id by done. by destruct s.
Qed.

Lemma travels_decodes kept v : (forall f, kept f -> is_finite f = true) -> travels kept v -> decodes v.
Proof.
  intros Hkept. induction 1 as [|b|n Hn|z Hz|f Hf|s|l _ IH|m Hnd _ IH].
  - intros [|fuel] rest Hf; [simpl in Hf; lia|done].
  - intros [|fuel] rest Hf; [destruct b; simpl in Hf; lia|by destruct b].
  - apply pos_decodes.
  - apply neg_decodes. lia.
  - by apply float_decodes, Hkept.
  - apply string_decodes.
  - intros fuel rest Hf. cbn [enc] in *. rewrite list_decodes; [by rewrite decide_True|by left|done|done].
  - intros fuel rest Hf. cbn [enc] in *. rewrite enc_flat in *.
    assert (2 * length m = length (flat m))%nat as Hlen by (clear; induction m as [|[k v] m IH]; cbn [flat flat_map app length] in *; [done|unfold flat in IH; lia]).
    rewrite Hlen in *. rewrite list_decodes; [by rewrite !decide_False, pairs_flat|by right; right| |done].
    intros v (kv & Hin%list_elem_of_In & Hv)%list_elem_of_In%in_flat_map. destruct kv as [k w]. destruct Hv as [<-|[<-|[]]]; [apply string_decodes|].
    apply (IH k w). by apply map_get_member.
Qed.

#[export] Instance codec : JsonBytes := {|
  to_vec := enc;
  from_slice s := match dec (String.length s) s with Some (v, _) => inr v | None => inl "" end |}.

#[export] Instance codec_laws : JsonBytesLaws.
Proof.
  intros v Hv. exists v. cbn [to_vec from_slice codec]. rewrite <- (string_app_nil (enc v)) at 2. rewrite (travels_decodes float_back) by (done || by intros []). by split; [|constructor].
Qed.
End Codec.

Lemma op_sendable op payload max : N.of_nat (String.length payload) <= max -> sendable max (obj [("op", JString op)], payload).
Proof.
  intros Hp. split_and!; [by eexists| |done]. constructor; [apply NoDup_singleton|]. intros k v. cbn [map_get]. case_decide; [|done].
  intros [= <-]. constructor.
Qed.

Lemma frames_read_back_witness :
  exists got, (let* wire := send_all [(obj [("op", JString "out")], "hello"); (obj [("op", JString "done")], "")] in read_all 2 10 (wire +:+ "more")) = Good (got, "more") /\
    map snd got = ["hello"; ""].
Proof.
  set (frames := [(obj [("op", JString "out")], "hello"); (obj [("op", JString "done")], "")]).
  destruct (send_all frames) as [wire| |] eqn:E; [|by vm_compute in E..].
  destruct (frames_read_back 10 frames wire "more") as (got & Hr & Hgot); [done| |done|].
  - apply Forall_cons. split; [by apply op_sendable|]. apply Forall_cons. split; [by apply op_sendable|constructor].
  - exists got. split; [exact Hr|]. clear E Hr. inversion Hgot as [|? [f p] ? ? (_ & _ & Hp) H2]; subst. inversion H2 as [|? [g q] ? ? (_ & _ & Hq) H3]; subst.
    inversion H3; subst. simpl in *. by subst.
Defined.
