(* ===== verification/Manifest.v ===== *)
(** * The manifest of a folder: [crates/kanna-guest/src/manifest.rs]

    The files and links of a folder, as they are sent to a guest.  [capture] reads them from a
    disk ([Folder]); SHA-256 is a parameter of it. *)

From S2P Require Import Prelude Text PipeText Json ScheduleFacts Utf8 Patch PatchTheorems Lines Frame.
From Stdlib Require Import Ascii.

#[local] Open Scope N_scope.

Definition SKIPPED : list string := ["target"; ".build"; "node_modules"; "DerivedData"].

Inductive Kind := File (hash : string) (size : N) (exec : bool) | Link (target : string).
Record Entry := mkEntry { en_path : string; en_kind : Kind }.

Definition entry_to_json (e : Entry) : Value :=
  match en_kind e with
  | File hash size exec => obj [("p", JString (en_path e)); ("h", JString hash); ("n", JNumber (PosInt size)); ("x", JBool exec)]
  | Link target => obj [("p", JString (en_path e)); ("l", JString target)]
  end.

Definition is_hash (text : string) : bool :=
  (String.length text =? 64)%nat && forallb (fun b => is_digit b || between 97 102 b) (string_bytes text).

Definition has_byte (c : ascii) (s : string) : bool := existsb (fun b => bool_decide (b = c)) (string_bytes s).

Definition plain_relative (path : string) : bool :=
  negb (str_is_empty path) && (String.length path <=? N.to_nat 4096)%nat && negb (has_byte nul path) && negb (has_byte backslash path)
  && forallb (fun c => match c with Normal _ => true | _ => false end) (components path) && negb (ends_with "/" path).

Section Manifest.
(** [{:?}] of a text, which goes by the tables of Unicode *)
Context (debug : string -> string).

Definition safe_relative (path : string) : io unit :=
  if plain_relative path then Good () else Bad (bad (debug path +:+ " isn't a plain relative path")).

Definition entry_from_json (value : Value) : io Entry :=
  let* path := good_or (string_of value "p") (bad "a manifest entry has no path") in
  let* _ := safe_relative path in
  let neither := Bad (bad ("manifest entry " +:+ path +:+ " is neither a file nor a link")) in
  let* kind := match string_of value "h", string_of value "l" with
               | Some hash, None =>
                 if is_hash hash then Good (File hash (default 0 (v ← get value "n"; as_u64 v)) (default false (v ← get value "x"; as_bool v))) else neither
               | None, Some target =>
                 if negb (str_is_empty target) && negb (has_byte nul target) && (String.length target <=? N.to_nat 4096)%nat then Good (Link target) else neither
               | _, _ => neither
               end in
  Good (mkEntry path kind).

Fixpoint collect (values : list Value) : io (list Entry) :=
  match values with
  | [] => Good []
  | v :: values => let* e := entry_from_json v in let* es := collect values in Good (e :: es)
  end.

Definition is_link (e : Entry) : bool := match en_kind e with Link _ => true | _ => false end.

(** The parents of a path, and the first that is a link *)
Fixpoint under_link (links : gset string) (prefix : string) (parents : list string) : option string :=
  match parents with
  | [] => None
  | part :: parents =>
    let prefix := (if str_is_empty prefix then "" else prefix +:+ "/") +:+ part in
    if decide (prefix ∈ links) then Some prefix else under_link links prefix parents
  end.

Definition parents_of (path : string) : list string := removelast (split_on "/" path).

Fixpoint check_entries (links seen : gset string) (entries : list Entry) : io unit :=
  match entries with
  | [] => Good ()
  | e :: entries =>
    if decide (en_path e ∈ seen) then Bad (bad (en_path e +:+ " is in the manifest twice"))
    else match under_link links "" (parents_of (en_path e)) with
         | Some prefix => Bad (bad (en_path e +:+ " lies under the link " +:+ prefix))
         | None => check_entries links ({[en_path e]} ∪ seen) entries
         end
  end.

Context {json : JsonBytes}.

Definition encode (entries : list Entry) : string := to_vec (JArray (map entry_to_json entries)).

Definition decode (bytes : string) : io (list Entry) :=
  match from_slice bytes with
  | inl e => Bad (bad ("manifest isn't JSON: " +:+ e))
  | inr list =>
    let* values := good_or (as_array list) (bad "manifest isn't a list") in
    let* entries := collect values in
    let* _ := check_entries (list_to_set (map en_path (retain is_link entries))) ∅ entries in
    Good entries
  end.

Definition skipped (path : string) : bool :=
  starts_with ".kanna/build/" path || existsb (contains SKIPPED) (split_on "/" path).

Fixpoint hex (bytes : string) : string :=
  match bytes with EmptyString => "" | String b bytes => String (lower_hex (N_of_ascii b / 16)) (String (lower_hex (N_of_ascii b mod 16)) (hex bytes)) end.

(** What is at a path of the folder: a link, a file with its bytes and whether it may run, a file
    that is gone when it is opened, something else, or an error of the disk *)
Inductive Found := FoundLink (target : string) | FoundFile (data : string) (exec : bool) | FoundGone | FoundOther | FoundError (e : IoError).
Context (digest : string -> string) (found : string -> option Found).

(** The entries in the order they are listed, and the copies under their digests *)
Fixpoint capture_go (listed : list string) (seen : gset string) (copies : gmap string string) : io (list Entry * gmap string string) :=
  match listed with
  | [] => Good ([], copies)
  | path :: listed =>
    if skipped path || negb (plain_relative path) || bool_decide (path ∈ seen) then capture_go listed seen copies
    else
      let seen := {[path]} ∪ seen in
      match found path with
      | Some (FoundLink target) =>
        let* '(entries, copies) := capture_go listed seen copies in
        Good (mkEntry path (Link target) :: entries, copies)
      | Some (FoundFile data exec) =>
        let hash := hex (digest data) in
        let* '(entries, copies) := capture_go listed seen (<[hash := data]> copies) in
        Good (mkEntry path (File hash (N.of_nat (String.length data)) exec) :: entries, copies)
      | Some (FoundError e) => Bad e
      | _ => capture_go listed seen copies
      end
  end.

(** [sort_by], which is stable *)
Fixpoint insert_entry (e : Entry) (l : list Entry) : list Entry :=
  match l with [] => [e] | x :: l => if string_le (en_path e) (en_path x) then e :: x :: l else x :: insert_entry e l end.
Definition sort_entries (l : list Entry) : list Entry := foldr insert_entry [] l.

Definition capture (listed : list string) : io (list Entry * gmap string string) :=
  let* '(entries, copies) := capture_go listed ∅ ∅ in Good (sort_entries entries, copies).
End Manifest.

(** ** Paths and the links they pass *)

Lemma split_on_cat c x y : split_on c (x +:+ String c y) = split_on c x ++ split_on c y.
Proof.
  unfold split_on. induction x as [|a x IH]; [simpl; by rewrite bool_decide_eq_true_2|]. rewrite string_app_cons. cbn [split_bytes].
  destruct (bool_decide (c = a)); [by rewrite IH|]. rewrite IH. destruct (split_bytes _ x) eqn:E; [|done]. exfalso. by eapply split_on_nonempty.
Qed.

Lemma join_cons sep x l : l ≠ [] -> join sep (x :: l) = x +:+ sep +:+ join sep l.
Proof. by destruct l. Qed.

Lemma join_split c s : join (String c "") (split_on c s) = s.
Proof.
  unfold split_on. induction s as [|a s IH]; [done|]. cbn [split_bytes]. pose proof (split_on_nonempty c s) as Hne. unfold split_on in Hne.
  case_bool_decide as Ec; [subst a; rewrite join_cons by done; by rewrite IH|].
  destruct (split_bytes _ s) as [|part parts]; [done|]. destruct parts; simpl in *; by rewrite <- IH.
Qed.

Lemma join_app sep l k : l ≠ [] -> k ≠ [] -> join sep (l ++ k) = join sep l +:+ sep +:+ join sep k.
Proof.
  intros Hl Hk. induction l as [|x l IH]; [done|]. destruct l as [|y l]; [cbn [app]; by rewrite (join_cons sep x k)|].
  change ((x :: y :: l) ++ k) with (x :: ((y :: l) ++ k)). rewrite !join_cons by done. rewrite IH by done. by rewrite !string_app_assoc.
Qed.

(** The parent that [under_link] makes of some parts *)
Definition next_prefix (prefix part : string) : string := (if str_is_empty prefix then "" else prefix +:+ "/") +:+ part.

Lemma prefixes_join x l : x ≠ "" -> foldl next_prefix x l = join "/" (x :: l).
Proof.
  revert x. induction l as [|y l IH]; intros x Hx; [done|]. simpl foldl. unfold next_prefix at 2. unfold str_is_empty. rewrite bool_decide_eq_false_2 by done.
  rewrite IH by (by destruct x). destruct l as [|z l]; [by rewrite <- string_app_assoc|].
  rewrite (join_cons _ (_ +:+ _)), !(join_cons _ x), (join_cons _ y) by done. by rewrite !string_app_assoc.
Qed.

Lemma under_link_None links prefix parents :
  under_link links prefix parents = None <-> forall k, (0 < k <= length parents)%nat -> foldl next_prefix prefix (take k parents) ∉ links.
Proof.
  revert prefix. induction parents as [|p ps IH]; intros prefix; cbn [under_link length]; [split; [intros _ k; lia|done]|].
  fold (next_prefix prefix p). case_decide as Hin.
  - split; [done|]. intros H. exfalso. by apply (H 1%nat); [lia|].
  - rewrite IH. split; intros H k Hk; [destruct k as [|[|k]]; [lia|done|apply (H (S k)); simpl in *; lia]|apply (H (S k)); lia].
Qed.

Lemma plain_first path : plain_relative path = true -> exists x l, split_on "/" path = x :: l /\ x ≠ "".
Proof.
  unfold plain_relative. intros Hp. repeat (apply andb_true_iff in Hp as [Hp ?]). pose proof (split_on_nonempty "/" path) as Hne.
  destruct path as [|a path]; [done|]. destruct (decide (a = "/"%char)) as [->|Ha]; [done|].
  unfold split_on in *. cbn [split_bytes] in *. rewrite bool_decide_eq_false_2 in * by done.
  destruct (split_bytes _ path); eexists _, _; by split.
Qed.

Lemma under_link_exact links path : plain_relative path = true ->
  under_link links "" (parents_of path) = None <-> forall l, l ∈ links -> starts_with (l +:+ "/") path = false.
Proof.
  intros Hp. destruct (plain_first path Hp) as (x & parts & Hsplit & Hx). rewrite under_link_None.
  assert (forall k, (0 < k <= length (parents_of path))%nat -> foldl next_prefix "" (take k (parents_of path)) = join "/" (take k (split_on "/" path))) as Hacc.
  { intros k Hk. unfold parents_of in *. rewrite Hsplit in *. rewrite removelast_firstn_len in *. rewrite length_take in Hk. rewrite take_take.
    replace (k `min` pred (length (x :: parts)))%nat with k by lia. destruct k as [|k]; [lia|]. simpl take. cbn [foldl].
    change (next_prefix "" x) with x. by apply prefixes_join. }
  assert (length (parents_of path) = pred (length (split_on "/" path))) as Hlen by (unfold parents_of; rewrite removelast_firstn_len, length_take; lia).
  split.
  - intros H l Hl. apply bool_decide_eq_false. intros [rest Hrest%strip_prefix_Some]. rewrite <- string_app_assoc in Hrest. change ("/" +:+ rest) with (String "/" rest) in Hrest.
    pose proof (split_on_cat "/" l rest) as Hcat. rewrite <- Hrest in Hcat. pose proof (split_on_nonempty "/" l) as Hne. pose proof (split_on_nonempty "/" rest) as Hne'.
    set (n := length (split_on "/" l)). assert (0 < n)%nat by (unfold n; by destruct (split_on "/" l); simpl; [|lia]).
    assert (n < length (split_on "/" path))%nat by (rewrite Hcat, length_app; destruct (split_on "/" rest); simpl; [done|lia]).
    apply (H n); [lia|]. rewrite Hacc by lia. unfold n. by rewrite Hcat, take_app_length, join_split.
  - intros H k Hk Hin. rewrite Hacc in Hin by done. specialize (H _ Hin). apply bool_decide_eq_false in H. apply H. clear H.
    exists (join "/" (drop k (split_on "/" path))). rewrite <- (join_split "/" path) at 2. rewrite <- (take_drop k (split_on "/" path)) at 2.
    rewrite join_app, string_app_assoc; [by apply strip_prefix_app|..].
    + rewrite Hsplit. destruct k; [lia|done].
    + intros Hd%(f_equal length). rewrite length_drop in Hd. simpl in Hd. lia.
Qed.


(** ** What is decoded

    What a manifest may hold, said without the checks of the code *)

(** A path below the folder: not empty, at most 4096 bytes, without NUL and backslash, not from the
    root, no [..] among its parts, not from [.], and not ended by a slash *)
Record plain_path (path : string) : Prop := {
  pp_some : path ≠ "";
  pp_long : (String.length path <= N.to_nat 4096)%nat;
  pp_nul : nul ∉ string_bytes path;
  pp_backslash : backslash ∉ string_bytes path;
  pp_below : forall x, path ≠ "/" +:+ x;
  pp_ended : forall x, path ≠ x +:+ "/";
  pp_here : head (split_on "/" path) ≠ Some ".";
  pp_up : ".." ∉ split_on "/" path }.

(** Sixty-four hexadecimal digits, in lower case *)
Definition hash_text (hash : string) : Prop :=
  String.length hash = 64%nat /\ Forall (fun b => b ∈ string_bytes "0123456789abcdef") (string_bytes hash).

Definition target_text (target : string) : Prop :=
  target ≠ "" /\ nul ∉ string_bytes target /\ (String.length target <= N.to_nat 4096)%nat.

Definition entry_ok (e : Entry) : Prop :=
  plain_path (en_path e) /\ match en_kind e with File hash _ _ => hash_text hash | Link target => target_text target end.

Lemma has_byte_exact c s : has_byte c s = false <-> c ∉ string_bytes s.
Proof.
  unfold has_byte. rewrite <- not_true_iff_false, existsb_exists. setoid_rewrite bool_decide_eq_true. setoid_rewrite <- list_elem_of_In. naive_solver.
Qed.

Definition is_normal (c : Component) : bool := match c with Normal _ => true | _ => false end.

Lemma parts_normal parts : forallb is_normal (omap part_component parts) = true <-> ".." ∉ parts.
Proof.
  induction parts as [|x parts IH]; [split; [intros _; apply not_elem_of_nil|done]|]. cbn [omap list_omap]. rewrite not_elem_of_cons.
  assert (part_component x = Some ParentDir <-> x = "..") as Hx by (unfold part_component, str_is_empty; repeat case_bool_decide; naive_solver).
  destruct (part_component x) as [[| | |s]|] eqn:E; cbn [forallb is_normal]; rewrite ?andb_true_l, ?IH; [..|naive_solver|naive_solver].
  - unfold part_component, str_is_empty in E. repeat case_bool_decide; done.
  - unfold part_component, str_is_empty in E. repeat case_bool_decide; done.
  - split; [done|]. intros [H _]. naive_solver.
Qed.

Lemma components_normal path : path ≠ "" -> starts_with "/" path = false ->
  forallb is_normal (components path) = true <-> head (split_on "/" path) ≠ Some "." /\ ".." ∉ split_on "/" path.
Proof.
  intros Hne Hs. unfold components. destruct (split_on "/" path) as [|x rest]; [split; [intros _; split; [done|apply not_elem_of_nil]|done]|].
  rewrite Hs. cbn [head]. case_bool_decide as Hx; [subst; split; [done|]; by intros [H _]|]. rewrite <- parts_normal.
  assert (omap part_component (x :: rest) = option_list (part_component x) ++ omap part_component rest) as -> by (cbn; by destruct (part_component x)).
  split; [|tauto]. intros H. split; [congruence|done].
Qed.

Lemma plain_exact path : plain_relative path = true <-> plain_path path.
Proof.
  unfold plain_relative. fold is_normal. rewrite !andb_true_iff, !negb_true_iff, Nat.leb_le, !has_byte_exact. unfold str_is_empty. rewrite bool_decide_eq_false.
  assert (starts_with "/" path = false <-> forall x, path ≠ "/" +:+ x) as Hs.
  { unfold starts_with. rewrite bool_decide_eq_false. split.
    - intros H x ->. apply H. rewrite strip_prefix_app. by eexists.
    - intros H [x Hx%strip_prefix_Some]. by apply (H x). }
  assert (ends_with "/" path = false <-> forall x, path ≠ x +:+ "/") as He by (rewrite <- not_true_iff_false, ends_with_exact; naive_solver).
  rewrite He. split.
  - intros (((((H1 & H2) & H3) & H4) & H5) & H6). assert (starts_with "/" path = false) as Hbelow.
    { apply not_true_iff_false. intros Ht. revert H5. unfold components. rewrite Ht. by destruct (split_on "/" path) eqn:E; [by apply split_on_nonempty in E|]. }
    apply components_normal in H5 as [H5 H7]; [|done|done]. split; try done. by apply Hs.
  - intros [H1 H2 H3 H4 H5 H6 H7 H8]. split_and!; try done. apply components_normal; [done|by apply Hs|done].
Qed.

Lemma hash_exact hash : is_hash hash = true <-> hash_text hash.
Proof.
  unfold is_hash, hash_text. rewrite andb_true_iff, Nat.eqb_eq, forallb_forall, Forall_forall. setoid_rewrite <- list_elem_of_In.
  assert (forall b, is_digit b || between 97 102 b = true <-> b ∈ string_bytes "0123456789abcdef") as Hb.
  { intros b. rewrite <- (bool_decide_eq_true (b ∈ _)).
    assert (is_digit b || between 97 102 b = bool_decide (b ∈ string_bytes "0123456789abcdef")) as ->; [|done].
    destruct b as [[] [] [] [] [] [] [] []]; by vm_compute. }
  by setoid_rewrite Hb.
Qed.

Lemma target_exact target : negb (str_is_empty target) && negb (has_byte nul target) && (String.length target <=? N.to_nat 4096)%nat = true <-> target_text target.
Proof.
  unfold str_is_empty, target_text. rewrite !andb_true_iff, !negb_true_iff, Nat.leb_le, has_byte_exact, bool_decide_eq_false. tauto.
Qed.

(** Each path once, and none below that of a link *)
Definition apart (entries : list Entry) : Prop :=
  NoDup (map en_path entries) /\ forall e l, e ∈ entries -> l ∈ entries -> is_link l = true -> starts_with (en_path l +:+ "/") (en_path e) = false.

Lemma entry_from_json_ok debug v e : entry_from_json debug v = Good e -> entry_ok e.
Proof.
  unfold entry_from_json, safe_relative. destruct (string_of v "p") as [path|]; simpl; [|done]. destruct (plain_relative path) eqn:Ep; simpl; [|done].
  destruct (string_of v "h") as [h|], (string_of v "l") as [t|]; simpl; try done.
  - destruct (is_hash h) eqn:Eh; simpl; [|done]. intros [= <-]. split; [by apply plain_exact|by apply hash_exact].
  - destruct (_ && _) eqn:Et; simpl; [|done]. intros [= <-]. split; [by apply plain_exact|by apply target_exact].
Qed.

Lemma collect_ok debug vs es : collect debug vs = Good es -> Forall entry_ok es.
Proof.
  revert es. induction vs as [|v vs IH]; intros es; simpl; [intros [= <-]; constructor|].
  destruct (entry_from_json debug v) as [e| |] eqn:Ee; simpl; [|done..]. destruct (collect debug vs) as [rest| |]; simpl; [|done..].
  intros [= <-]. constructor; [by eapply entry_from_json_ok|by apply IH].
Qed.

Lemma check_entries_exact links seen es : Forall entry_ok es ->
  check_entries links seen es = Good () <->
  NoDup (map en_path es) /\ (forall e, e ∈ es -> en_path e ∉ seen) /\ (forall e l, e ∈ es -> l ∈ links -> starts_with (l +:+ "/") (en_path e) = false).
Proof.
  intros Hok. revert seen. induction Hok as [|e es [Hp%plain_exact _] _ IH]; intros seen; cbn [check_entries map].
  { split; [intros _; split_and!; [constructor|intros e He; by apply elem_of_nil in He|intros e l He; by apply elem_of_nil in He]|done]. }
  case_decide as Hs; [split; [done|]; intros (_ & H & _); exfalso; apply (H e); [left|done]|].
  pose proof (under_link_exact links (en_path e) Hp) as Hu. destruct (under_link _ _ _) as [prefix|].
  { split; [done|]. intros (_ & _ & H). assert (Some prefix = None) by (apply Hu; intros l Hl; apply H; [left|done]). done. }
  rewrite IH, NoDup_cons. assert (en_path e ∈ map en_path es <-> exists x, x ∈ es /\ en_path x = en_path e) as Hin.
  { rewrite list_elem_of_In, in_map_iff. setoid_rewrite <- list_elem_of_In. naive_solver. }
  rewrite Hin. setoid_rewrite elem_of_cons. setoid_rewrite not_elem_of_union. setoid_rewrite elem_of_singleton. clear Hin. split.
  - intros (H1 & H2 & H3). split_and!; [|done|..].
    + intros (x & Hx & Ex). by destruct (H2 x Hx).
    + intros x [->|Hx]; [done|by destruct (H2 x Hx)].
    + intros x l [->|Hx] Hl; [by apply Hu|by apply H3].
  - intros ((H1 & H1') & H2 & H3). split_and!; [done|..].
    + intros x Hx. split; [intros Ex; apply H1; by exists x|apply H2; by right].
    + intros x l Hx. apply H3. by right.
Qed.

Lemma links_of es l : l ∈ (list_to_set (map en_path (retain is_link es)) : gset string) <-> exists x, x ∈ es /\ is_link x = true /\ en_path x = l.
Proof.
  rewrite elem_of_list_to_set, list_elem_of_In, in_map_iff. setoid_rewrite <- list_elem_of_In. setoid_rewrite elem_of_retain. naive_solver.
Qed.

Lemma entries_apart es : Forall entry_ok es -> check_entries (list_to_set (map en_path (retain is_link es))) ∅ es = Good () <-> apart es.
Proof.
  intros Hok. rewrite check_entries_exact by done. unfold apart. setoid_rewrite links_of. split.
  - intros (H1 & _ & H3). split; [done|]. intros e l He Hl Hlink. apply H3; [done|]. by exists l.
  - intros [H1 H3]. split_and!; [done|set_solver|]. intros e l He (x & Hx & Hlink & <-). by apply H3.
Qed.

Lemma decoded_ok debug `{JsonBytes} bytes es : decode debug bytes = Good es -> Forall entry_ok es /\ apart es.
Proof.
  unfold decode. destruct (from_slice bytes) as [|list]; [done|]. destruct (as_array list) as [vs|]; simpl; [|done].
  destruct (collect debug vs) as [got| |] eqn:Ec; simpl; [|done..]. destruct (check_entries _ _ got) as [[]| |] eqn:Ek; simpl; [|done..].
  intros [= <-]. apply collect_ok in Ec. split; [done|]. by apply entries_apart.
Qed.

(** ** What is captured decodes *)

Lemma same_string v w key : same_value v w -> string_of v key = string_of w key.
Proof.
  intros Hs. inversion Hs as [|l k Hl|m n Hm]; subst; [done|done|]. unfold string_of, get. specialize (Hm key).
  inversion Hm as [x y Hxy E1 E2|E1 E2]; simpl; [|done]. inversion Hxy; subst; done.
Qed.

Lemma same_number v w key : same_value v w -> (x ← get v key; as_u64 x) = (x ← get w key; as_u64 x).
Proof.
  intros Hs. inversion Hs as [|l k Hl|m n Hm]; subst; [done|done|]. unfold get. specialize (Hm key).
  inversion Hm as [x y Hxy E1 E2|E1 E2]; simpl; [|done]. inversion Hxy; subst; done.
Qed.

Lemma same_bool v w key : same_value v w -> (x ← get v key; as_bool x) = (x ← get w key; as_bool x).
Proof.
  intros Hs. inversion Hs as [|l k Hl|m n Hm]; subst; [done|done|]. unfold get. specialize (Hm key).
  inversion Hm as [x y Hxy E1 E2|E1 E2]; simpl; [|done]. inversion Hxy; subst; done.
Qed.

Lemma entry_reads debug e w : entry_ok e -> same_value (entry_to_json e) w -> entry_from_json debug w = Good e.
Proof.
  intros [Hp%plain_exact Hk] Hw. unfold entry_from_json, safe_relative.
  rewrite <- !(same_string _ _ _ Hw), <- (same_number _ _ _ Hw), <- (same_bool _ _ _ Hw). clear Hw w. destruct e as [path kind]. cbn [en_path en_kind] in Hp, Hk.
  assert (string_of (entry_to_json (mkEntry path kind)) "p" = Some path) as -> by (by destruct kind).
  cbn [good_or outcome_bind]. rewrite Hp. cbn [outcome_bind]. destruct kind as [hash size exec|target].
  - change (string_of _ "h") with (Some hash). change (string_of _ "l") with (@None string). cbv beta iota. apply hash_exact in Hk. by rewrite Hk.
  - change (string_of _ "h") with (@None string). change (string_of _ "l") with (Some target). cbv beta iota. apply target_exact in Hk. by rewrite Hk.
Qed.

Definition small (e : Entry) : Prop := match en_kind e with File _ size _ => size < 2 ^ 64 | Link _ => True end.

Lemma entry_travels kept e : small e -> travels kept (entry_to_json e).
Proof.
  destruct e as [path [hash size exec|target]]; simpl; intros Hs; constructor.
  1,3: apply (bool_decide_unpack _); by vm_compute.
  all: intros k v; cbn [map_get]; repeat case_decide; intros [= <-]; by constructor.
Qed.

Lemma entries_travel debug `{JsonBytesLaws} es : Forall entry_ok es -> Forall small es -> apart es -> decode debug (encode es) = Good es.
Proof.
  intros Hok Hsmall Hapart. unfold decode, encode. destruct (from_to_vec (JArray (map entry_to_json es))) as (w & -> & Hw).
  { constructor. intros v (e & <- & He%list_elem_of_In)%list_elem_of_In%in_map_iff. apply entry_travels. rewrite Forall_forall in Hsmall. by apply Hsmall. }
  assert (exists vs, w = JArray vs /\ Forall2 same_value (map entry_to_json es) vs) as (vs & -> & Hvs).
  { inversion Hw as [|? k Hk|]; subst; eexists; (split; [done|]); [|done]. apply Forall_Forall2_diag, Forall_true. constructor. }
  cbn [as_array good_or outcome_bind]. assert (collect debug vs = Good es) as ->.
  { clear -Hok Hvs. revert vs Hvs. induction Hok as [|e es He _ IH]; intros vs Hvs; inversion Hvs as [|? v ? vs' Hv Hrest]; subst; [done|].
    cbn [collect]. rewrite (entry_reads _ _ _ He Hv). cbn [outcome_bind]. by rewrite (IH _ Hrest). }
  cbn [outcome_bind]. by rewrite (proj2 (entries_apart es Hok) Hapart).
Qed.

(** C36 Exactly the manifests with plain paths decode.  In one that decodes each path is relative:
    not empty, at most 4096 bytes, without NUL and backslash, from neither the root nor [.], with no
    part [..] and no slash at its end.  Each file has a digest of 64 hexadecimal digits in lower
    case, each link a target of 1 to 4096 bytes without NUL.  No path is there twice, and none
    begins with the path of a link and a slash.  Entries that are so, with sizes below 2^64, decode
    from their encoding as they are.  Paths are compared as texts: a link at [a/./l] does not keep
    [a/l/x] out. *)
Theorem decode_safe debug `{JsonBytesLaws} :
  (forall bytes es, decode debug bytes = Good es -> Forall entry_ok es /\ apart es) /\
  (forall es, Forall entry_ok es -> apart es -> Forall small es -> decode debug (encode es) = Good es).
Proof. split; [intros bytes es; apply decoded_ok|]. intros es ???. by apply entries_travel. Qed.

Lemma hex_is_hash bytes : String.length bytes = 32%nat -> is_hash (hex bytes) = true.
Proof.
  intros Hl. unfold is_hash. apply andb_true_iff. split.
  - apply Nat.eqb_eq. assert (String.length (hex bytes) = 2 * String.length bytes)%nat as ->; [|lia]. clear Hl. induction bytes as [|b bytes IH]; simpl; [done|]. rewrite IH. lia.
  - clear Hl. assert (forall n, n < 16 -> is_digit (lower_hex n) || between 97 102 (lower_hex n) = true) as Hhex.
    { intros n Hn. assert (n ∈ map N.of_nat (seq 0 16)) as Hin by (apply list_elem_of_In, in_map_iff; exists (N.to_nat n); rewrite in_seq; lia).
      revert n Hn Hin. intros n _. revert n. apply Forall_forall. by repeat constructor. }
    induction bytes as [|b bytes IH]; [done|]. cbn [hex string_bytes forallb]. pose proof (N_ascii_bounded b) as Hb.
    rewrite !Hhex, IH; [done|..]; [apply N.mod_lt; lia|apply N.Div0.div_lt_upper_bound; lia].
Qed.

Lemma sort_entries_perm l : sort_entries l ≡ₚ l.
Proof.
  induction l as [|e l IH]; [done|]. change (insert_entry e (sort_entries l) ≡ₚ e :: l). rewrite <- IH at 2. generalize (sort_entries l). clear IH. intros k.
  induction k as [|x k IH]; simpl; [done|]. destruct (string_le _ _); [done|]. rewrite IH. constructor.
Qed.

Lemma apart_perm es es' : es ≡ₚ es' -> apart es -> apart es'.
Proof.
  intros Hp [Hnd Ha]. split; [by rewrite <- Hp|]. intros e l He Hl. apply Ha; by rewrite Hp.
Qed.

Section Captured.
Context (digest : string -> string) (found : string -> option Found).

(** What a disk and SHA-256 give: digests of 32 bytes, files below 2^64 bytes, and links with a
    target, of at most 4096 bytes as a text *)
Record folder_ok : Prop := {
  fo_digest data : String.length (digest data) = 32%nat;
  fo_size path data exec : found path = Some (FoundFile data exec) -> N.of_nat (String.length data) < 2 ^ 64;
  fo_target path target : found path = Some (FoundLink target) -> target_text target }.

(** A path of which an entry is made *)
Definition kept_path (path : string) : Prop :=
  plain_path path /\ skipped path = false /\ ((exists data exec, found path = Some (FoundFile data exec)) \/ exists target, found path = Some (FoundLink target)).

(** A path that begins with a link of the folder and a slash *)
Definition past_link (paths : list string) (path : string) : Prop :=
  exists link target rest, link ∈ paths /\ found link = Some (FoundLink target) /\ path = link +:+ "/" +:+ rest.

(** What an entry says of the folder and of the copies *)
Definition captured (copies : gmap string string) (e : Entry) : Prop :=
  plain_path (en_path e) /\ skipped (en_path e) = false /\
  match en_kind e with
  | File hash size exec => exists data, found (en_path e) = Some (FoundFile data exec) /\ hash = hex (digest data) /\ size = N.of_nat (String.length data) /\
                             exists copy, copies !! hash = Some copy /\ hex (digest copy) = hash
  | Link target => found (en_path e) = Some (FoundLink target)
  end.

Definition copies_ok (copies : gmap string string) : Prop := map_Forall (fun hash data => hex (digest data) = hash) copies.

Lemma capture_go_spec listed seen copies es copies' :
  capture_go digest found listed seen copies = Good (es, copies') -> copies_ok copies ->
  copies_ok copies' /\ dom copies ⊆ dom copies' /\ Forall (captured copies') es /\ NoDup (map en_path es) /\
  (forall e, e ∈ es -> en_path e ∉ seen /\ en_path e ∈ listed) /\
  (forall path, path ∈ listed -> path ∉ seen -> kept_path path -> path ∈ map en_path es).
Proof.
  revert seen copies es. induction listed as [|path listed IH]; intros seen copies es; cbn [capture_go].
  { intros [= <- <-] Hc. split_and!; [done|done|constructor|constructor|..]; [intros e He|intros path He]; by apply elem_of_nil in He. }
  destruct (_ || _) eqn:Eskip.
  { intros H Hc. destruct (IH _ _ _ H Hc) as (H1 & H2 & H3 & H4 & H5 & H6).
    split_and!; try done; [intros e He; destruct (H5 e He); split; [done|by right]|].
    intros p [->|Hp]%elem_of_cons Hn Hk; [|by apply H6]. destruct Hk as (Hplain%plain_exact & Hskip & _).
    rewrite Hplain, Hskip, bool_decide_eq_false_2 in Eskip by done. done. }
  apply orb_false_iff in Eskip as [[Es Ep%negb_false_iff%plain_exact]%orb_false_iff Hseen%bool_decide_eq_false].
  assert (forall es, (forall e, e ∈ es -> en_path e ∉ {[path]} ∪ seen /\ en_path e ∈ listed) ->
     path ∉ map en_path es /\ forall e, e ∈ es -> en_path e ∉ seen /\ en_path e ∈ path :: listed) as Hrest.
  { intros rest H. split; [intros (e & Ee & He%list_elem_of_In)%list_elem_of_In%in_map_iff; destruct (H e He); set_solver|].
    intros e He. destruct (H e He). split; [set_solver|by right]. }
  assert (forall es, (path ∈ map en_path es \/ ~ kept_path path) -> (forall p, p ∈ listed -> p ∉ {[path]} ∪ seen -> kept_path p -> p ∈ map en_path es) ->
     forall p, p ∈ path :: listed -> p ∉ seen -> kept_path p -> p ∈ map en_path es) as Hall.
  { intros all Hpath H p Hp Hn Hk. destruct (decide (p = path)) as [->|]; [by destruct Hpath|]. apply H; [set_solver|set_solver|done]. }
  assert (forall e rest, en_path e = path -> (forall p, p ∈ listed -> p ∉ {[path]} ∪ seen -> kept_path p -> p ∈ map en_path rest) ->
     forall p, p ∈ path :: listed -> p ∉ seen -> kept_path p -> p ∈ map en_path (e :: rest)) as Hcons.
  { intros e rest He H. apply Hall; cbn [map]; rewrite He; [left; left|]. intros p Hp Hn Hk. right. by apply H. }
  assert (~ kept_path path -> capture_go digest found listed ({[path]} ∪ seen) copies = Good (es, copies') -> copies_ok copies ->
     copies_ok copies' /\ dom copies ⊆ dom copies' /\ Forall (captured copies') es /\ NoDup (map en_path es) /\
     (forall e, e ∈ es -> en_path e ∉ seen /\ en_path e ∈ path :: listed) /\
     (forall p, p ∈ path :: listed -> p ∉ seen -> kept_path p -> p ∈ map en_path es)) as Hpass.
  { intros Hno H Hc. destruct (IH _ _ _ H Hc) as (H1 & H2 & H3 & H4 & H5 & H6). split_and!; try done; [by apply Hrest|]. apply Hall; [by right|done]. }
  destruct (found path) as [[target|data exec| | |err]|] eqn:Ef; cbn [outcome_bind]; try done.
  2: set (hash := hex (digest data)).
  1,2: clear Hpass; destruct (capture_go _ _ listed _ _) as [[rest c]| |] eqn:Eg; cbn [outcome_bind]; [|done..]; intros [= <- <-] Hc.
  - destruct (IH _ _ _ Eg Hc) as (H1 & H2 & H3 & H4 & H5 & H6). destruct (Hrest rest H5) as [Hn Hr].
    split_and!; [done|done|by constructor|by constructor| |by apply Hcons]. intros e [->|He]%elem_of_cons; [split; [done|left]|by apply Hr].
  - destruct (IH _ _ _ Eg) as (H1 & H2 & H3 & H4 & H5 & H6); [by apply map_Forall_insert_2|]. destruct (Hrest rest H5) as [Hn Hr].
    assert (exists copy, c !! hash = Some copy) as [copy Hcopy] by (apply elem_of_dom, H2; rewrite dom_insert; set_solver).
    split_and!; [done|rewrite dom_insert in H2; set_solver| |by constructor| |by apply Hcons].
    + constructor; [|done]. split_and!; [done|done|]. exists data. split_and!; [done|done|done|]. exists copy. split; [done|]. by apply (H1 hash).
    + intros e [->|He]%elem_of_cons; [split; [done|left]|by apply Hr].
  - by apply Hpass; intros (_ & _ & [(? & ? & ?)|(? & ?)]); congruence.
  - by apply Hpass; intros (_ & _ & [(? & ? & ?)|(? & ?)]); congruence.
  - by apply Hpass; intros (_ & _ & [(? & ? & ?)|(? & ?)]); congruence.
Qed.

Lemma captured_ok copies e : folder_ok -> captured copies e -> entry_ok e /\ small e.
Proof.
  intros [Hd Hsz Ht] (Hp & _ & Hk). unfold entry_ok, small. destruct (en_kind e) as [hash size exec|target].
  - destruct Hk as (data & Hf & -> & -> & _). split_and!; [done|by apply hash_exact, hex_is_hash|by eapply Hsz].
  - split_and!; [done|by eapply Ht|done].
Qed.

Lemma captured_link copies e : captured copies e -> is_link e = true <-> exists target, found (en_path e) = Some (FoundLink target).
Proof.
  intros (_ & _ & Hk). unfold is_link. destruct (en_kind e) as [h n x|target]; [|split; [by eauto|done]].
  destruct Hk as (data & Hf & _). split; [done|]. intros [target ?]. congruence.
Qed.

(** What is captured lies apart where none of its paths is past a link. *)
Lemma captured_apart copies es : Forall (captured copies) es -> NoDup (map en_path es) ->
  apart es <-> forall e, e ∈ es -> ~ past_link (map en_path es) (en_path e).
Proof.
  intros Hc Hnd. rewrite Forall_forall in Hc. split.
  - intros [_ Ha] e He (link & target & rest & Hl & Hf & Hpath). apply list_elem_of_In, in_map_iff in Hl as (l & <- & Hl%list_elem_of_In).
    assert (is_link l = true) as Hlink by (apply (captured_link copies); [by apply Hc|by eauto]).
    specialize (Ha e l He Hl Hlink). revert Ha. rewrite Hpath. unfold starts_with. rewrite string_app_assoc, strip_prefix_app. by rewrite bool_decide_eq_true_2 by done.
  - intros H. split; [done|]. intros e l He Hl Hlink. apply (captured_link copies) in Hlink as [target Hf]; [|by apply Hc].
    apply bool_decide_eq_false. intros [rest Hrest%strip_prefix_Some]. apply (H e He). exists (en_path l), target, rest.
    split_and!; [apply list_elem_of_In, in_map_iff; exists l; by rewrite <- list_elem_of_In|done|by rewrite string_app_assoc].
Qed.

End Captured.

(** ** Runs *)

(** A folder with a file in a folder, a link, and what is skipped *)
Definition sample_digest (data : string) : string := String (ascii_of_nat (String.length data)) "0123456789abcdefghijklmnopqrstu".
Definition sample_found (path : string) : option Found :=
  if decide (path = "src/a") then Some (FoundFile "let a" false) else if decide (path = "link") then Some (FoundLink "src/a") else None.

Lemma sample_folder : folder_ok sample_digest sample_found.
Proof.
  split.
  - done.
  - intros path data exec. unfold sample_found. repeat case_decide; intros [= <- <-]; done.
  - intros path target. unfold sample_found. repeat case_decide; intros [= <-]. by apply target_exact.
Qed.


Lemma decode_safe_witness :
  let es := [mkEntry "a" (Link "b"); mkEntry "c/d" (Link "../a")] in
  decode (fun s => s) (encode es) = Good es /\ apart es.
Proof.
  assert (decode (fun s => s) (encode [mkEntry "a" (Link "b"); mkEntry "c/d" (Link "../a")]) = Good [mkEntry "a" (Link "b"); mkEntry "c/d" (Link "../a")]) as E
    by (vm_compute; reflexivity).
  split; [exact E|]. apply (proj1 (decode_safe (fun s => s)) _ _ E).
Defined.

(** The disk follows a link on the way to a file, so a folder that git has files of and that a link
    has taken the place of is captured as a link and as files past it, and the manifest is refused. *)
Example capture_past_link :
  let found path := if decide (path = "d") then Some (FoundLink "e") else if decide (path = "d/x") then Some (FoundFile "x" false) else None in
  exists es copies, capture sample_digest found ["d/x"; "d"] = Good (es, copies) /\ map en_path es = ["d"; "d/x"] /\
    decode (fun s => s) (encode es) = Bad (bad "d/x lies under the link d").
Proof. eexists _, _. split; [vm_compute; reflexivity|]. split; vm_compute; reflexivity. Qed.

(** [components] leaves out [.], so a path may name a link in another way: this manifest decodes,
    though [a/l/passwd] lies under the link at [a/l]. *)
Example passes_a_link :
  let es := [mkEntry "a/./l" (Link "/etc"); mkEntry "a/l/passwd" (File (hex "0123456789abcdef0123456789abcdef") 0 false)] in
  decode (fun s => s) (encode es) = Good es /\ components "a/./l" = components "a/l".
Proof. split; [vm_compute; reflexivity|reflexivity]. Qed.
