(* ===== verification/Intake.v ===== *)
(** * What a guest returns: [crates/kanna-guest/src/intake.rs]

    Files, folders and links that a guest sends are put into a new folder beside their
    destination, and renamed to it when all came.  The kernel's calls on folders are the class
    [Disk]; a folder that is open is its path under the base. *)

From S2P Require Import Prelude Text Json Schedule Patch Frame Manifest.
From Stdlib Require Import Ascii.

#[local] Open Scope N_scope.

(** ** The disk *)

Inductive Node := NDir | NFile (data : string) (exec : bool) | NLink (target : string).
Inductive OsError := AlreadyExists | OsFailed (message : string).

(** [canon]: names that are the same file have the same.  [node] does not follow links; [opens] is
    why [openat] of a folder refuses, with [O_NOFOLLOW], [create_at] with [O_EXCL].  A write, and the removal
    of a folder, may fail midway. *)
Class Disk := {
  disk : Type;
  canon : string -> string;
  node : disk -> list string -> option Node;
  opens : disk -> list string -> string -> option string;
  mkdir_at : disk -> list string -> string -> OsError + disk;
  create_at : disk -> list string -> string -> bool -> string + disk;
  write_all : disk -> list string -> string -> option IoError * disk;
  symlink_at : disk -> list string -> string -> string -> string + disk;
  rename_paths : disk -> list string -> list string -> IoError + disk;
  remove_all : disk -> list string -> option IoError * disk;
  read_dir : disk -> list string -> IoError + list string }.

(** Code that changes a state and may fail *)
Definition iact (S A : Type) : Type := S -> io A * S.
Definition iret {S A} (a : A) : iact S A := fun s => (Good a, s).
Definition ilift {S A} (r : io A) : iact S A := fun s => (r, s).
Definition ibind {S A B} (m : iact S A) (k : A -> iact S B) : iact S B :=
  fun s => match m s with (Good a, s) => k a s | (Bad e, s) => (Bad e, s) | (Crash, s) => (Crash, s) end.
Notation "'let@' x := m 'in' k" := (ibind m (fun x => k)) (at level 10, x name, m at level 100, k at level 200) : kanna_scope.

(** ** [intake.rs] *)

Definition MAX_FILE : N := N.shiftl 4 30.
Definition MAX_TOTAL : N := N.shiftl 16 30.
Definition MAX_FILES : N := 200000.
Definition MAX_COMPONENT : nat := 255.

Definition rejected (message : string) : IoError := mkIo PermissionDenied message.

Record Intake := mkIntake {
  it_folder : list string;
  it_staging : string;
  it_name : string;
  it_files : gset string;
  it_dirs : gset string;
  it_total : N;
  it_single : bool }.

Definition it_root (it : Intake) : list string := it_folder it ++ [it_staging it].
Definition it_dest (it : Intake) : list string := it_folder it ++ [it_name it].
Definition set_files (it : Intake) (x : gset string) : Intake := mkIntake (it_folder it) (it_staging it) (it_name it) x (it_dirs it) (it_total it) (it_single it).
Definition set_dirs (it : Intake) (x : gset string) : Intake := mkIntake (it_folder it) (it_staging it) (it_name it) (it_files it) x (it_total it) (it_single it).
Definition set_total (it : Intake) (x : N) : Intake := mkIntake (it_folder it) (it_staging it) (it_name it) (it_files it) (it_dirs it) x (it_single it).

Section Intake.
Context `{Lowercase} {the_disk : Disk} (debug : string -> string) (digest : string -> string).

Definition bad_part (part : string) : bool :=
  str_is_empty part || bool_decide (part = ".") || bool_decide (part = "..") || (MAX_COMPONENT <? String.length part)%nat || existsb is_control (chars part).

Definition parts (rel : string) : io (list string) :=
  if str_is_empty rel || (N.to_nat 4096 <? String.length rel)%nat || has_byte nul rel || has_byte backslash rel || starts_with "/" rel
  then Bad (rejected (debug rel +:+ " isn't a plain relative path"))
  else if existsb bad_part (split_on "/" rel) then Bad (rejected (debug rel +:+ " has a component that isn't allowed"))
  else Good (split_on "/" rel).

(** [Failed] of [mkdirat] is [last_os_error]. *)
Definition open_dir_at (dir : list string) (name : string) (create : bool) : iact disk (list string) := fun d =>
  if has_byte nul name then (Bad (rejected "NUL in a name"), d)
  else
    let go d := match opens d dir name with
                | None => (Good (dir ++ [name]), d)
                | Some e => (Bad (rejected (name +:+ " isn't a folder: " +:+ e)), d)
                end in
    if create then match mkdir_at d dir name with
                   | inr d => go d
                   | inl AlreadyExists => go d
                   | inl (OsFailed e) => (Bad (mkIo Other e), d)
                   end
    else go d.

(** Each step from a folder that is open *)
Fixpoint open_steps (dir : list string) (steps : list string) (create : bool) : iact disk (list string) :=
  match steps with
  | [] => iret dir
  | step :: steps => let@ dir := open_dir_at dir step create in open_steps dir steps create
  end.

(** [Intake::new]; the base is open, and [staging] is a random name. *)
Definition intake_new (rel : string) (single : bool) (staging : string) : iact disk Intake :=
  let@ steps := ilift (parts rel) in
  let@ parent := open_steps [] (removelast steps) true in
  let@ root := open_dir_at parent staging true in
  iret (mkIntake parent staging (default "" (last steps)) ∅ ∅ 0 single).

(** The parents of a path among the folders, in lower case; the first that is a file stops it. *)
Fixpoint claim_parents (files dirs : gset string) (prefix : string) (parents : list string) : option string * gset string :=
  match parents with
  | [] => (None, dirs)
  | part :: parents =>
    let prefix := if str_is_empty prefix then lowercase part else prefix +:+ "/" +:+ lowercase part in
    if decide (prefix ∈ files) then (Some prefix, dirs) else claim_parents files ({[prefix]} ∪ dirs) prefix parents
  end.

Definition claim (rel : string) (dir : bool) : iact Intake (list string) := fun it =>
  match parts rel with
  | Good ps =>
    let folded := lowercase rel in
    let '(file, dirs) := claim_parents (it_files it) (it_dirs it) "" (removelast ps) in
    let it := set_dirs it dirs in
    match file with
    | Some prefix => (Bad (rejected (rel +:+ " lies under the file " +:+ prefix)), it)
    | None =>
      if bool_decide (folded ∈ it_files it) || negb dir && bool_decide (folded ∈ it_dirs it)
      then (Bad (rejected (rel +:+ " collides with another returned file")), it)
      else if MAX_FILES <? N.of_nat (size (it_files it) + size (it_dirs it) + length ps)
      then (Bad (rejected "too many returned files"), it)
      else (Good ps, if dir then set_dirs it ({[folded]} ∪ it_dirs it) else set_files it ({[folded]} ∪ it_files it))
    end
  | Bad e => (Bad e, it)
  | Crash => (Crash, it)
  end.

(** On the state of an intake and the disk *)
Definition on_intake {A} (m : iact Intake A) : iact (Intake * disk) A := fun '(it, d) => let '(r, it) := m it in (r, (it, d)).
Definition on_disk {A} (m : Intake -> iact disk A) : iact (Intake * disk) A := fun '(it, d) => let '(r, d) := m it d in (r, (it, d)).

(** The folder that a path is in *)
Definition parent (ps : list string) : iact (Intake * disk) (list string) := on_disk (fun it => open_steps (it_root it) (removelast ps) true).

Definition last_name (ps : list string) : string := default "" (last ps).

Definition dir (rel : string) : iact (Intake * disk) unit :=
  let@ ps := on_intake (claim rel true) in
  let@ p := parent ps in
  let@ _ := on_disk (fun _ => open_dir_at p (last_name ps) true) in
  iret ().

(** What the connection gives: its bytes, and the error after them, if not its end *)
Record Incoming := mkIncoming { in_bytes : string; in_error : option IoError }.

(** The bytes go into the file as they are read, until there are enough of them; an error is met only
    where there are fewer. *)
Definition write_file (path : list string) (rel : string) (size : N) (sha : string) (from : Incoming) : iact disk unit := fun d =>
  let data := String.substring 0 (N.to_nat size) (in_bytes from) in
  match write_all d path data, (if N.of_nat (String.length data) <? size then in_error from else None) with
  | (Some e, d), _ => (Bad e, d)
  | (None, d), Some e => (Bad e, d)
  | (None, d), None =>
    if negb (N.of_nat (String.length data) =? size) then (Bad (mkIo UnexpectedEof (rel +:+ " was cut short")), d)
    else if negb (bool_decide (hex (digest data) = sha)) then (Bad (rejected (rel +:+ " doesn't match its checksum")), d)
    else (Good (), d)
  end.

Definition create_file (path : list string) (name rel : string) (exec : bool) : iact disk unit := fun d =>
  match create_at d path name exec with
  | inr d => (Good (), d)
  | inl e => (Bad (rejected ("can't write " +:+ rel +:+ ": " +:+ e)), d)
  end.

Definition file (rel : string) (exec : bool) (size : N) (sha : string) (from : Incoming) : iact (Intake * disk) unit := fun s =>
  if (MAX_FILE <? size) || (MAX_TOTAL <? it_total (fst s) + size) then (Bad (rejected (rel +:+ " is over the size allowed")), s)
  else
    (let@ ps := on_intake (claim rel false) in
     let@ p := parent ps in
     let@ _ := on_disk (fun _ => create_file p (last_name ps) rel exec) in
     let@ _ := on_disk (fun _ => write_file (p ++ [last_name ps]) rel size sha from) in
     on_intake (fun it => (Good (), set_total it (it_total it + size)))) s.

(** How many [..] a target begins with; [None]: one comes after a name. *)
Fixpoint climbs (up : nat) (named : bool) (target : list string) : option nat :=
  match target with
  | [] => Some up
  | part :: target =>
    if str_is_empty part || bool_decide (part = ".") then climbs up named target
    else if decide (part = "..") then if named then None else climbs (S up) named target
    else climbs up true target
  end.

Definition make_link (path : list string) (name rel target : string) : iact disk unit := fun d =>
  if has_byte nul name || has_byte nul target then (Bad (rejected "NUL in a name"), d)
  else match symlink_at d path name target with
       | inr d => (Good (), d)
       | inl e => (Bad (rejected ("can't link " +:+ rel +:+ ": " +:+ e)), d)
       end.

Definition link (rel target : string) : iact (Intake * disk) unit := fun s =>
  if str_is_empty target || has_byte nul target || (N.to_nat 4096 <? String.length target)%nat || starts_with "/" target
  then (Bad (rejected (rel +:+ " links to " +:+ debug target +:+ ", which isn't a relative path")), s)
  else if it_single (fst s) then (Bad (rejected (rel +:+ " is a link, not a file")), s)
  else match climbs 0 false (split_on "/" target) with
       | None => (Bad (rejected (rel +:+ " links to " +:+ debug target +:+ ", which climbs after a name")), s)
       | Some up =>
         if (length (split_on "/" rel) <=? up)%nat then (Bad (rejected (rel +:+ " links to " +:+ debug target +:+ ", outside what was returned")), s)
         else (let@ ps := on_intake (claim rel false) in
               let@ p := parent ps in
               on_disk (fun _ => make_link p (last_name ps) rel target)) s
       end.

(** What is removed without looking at the result *)
Definition abandon (it : Intake) (d : disk) : disk := (remove_all d (it_root it)).2.

(** What stands at the destination goes: it is renamed, and removed under the other name. *)
Definition clear_dest (it : Intake) (old : string) : iact disk unit := fun d =>
  match rename_paths d (it_dest it) (it_folder it ++ [old]) with
  | inl e => (Bad e, d)
  | inr d => match remove_all d (it_folder it ++ [old]) with (Some e, d) => (Bad e, d) | (None, d) => (Good (), d) end
  end.

Definition put_in_place (it : Intake) (source : list string) : iact disk (list string) := fun d =>
  match rename_paths d source (it_dest it) with
  | inl e => (Bad e, d)
  | inr d => (Good (it_dest it), if it_single it then abandon it d else d)
  end.

(** The folder that came, or the only file in it *)
Definition source_of (it : Intake) : iact disk (list string) := fun d =>
  if it_single it then
    match read_dir d (it_root it) with
    | inl e => (Bad e, d)
    | inr [one] => (Good (it_root it ++ [one]), d)
    | inr _ => (Bad (rejected "expected exactly one returned file"), abandon it d)
    end
  else (Good (it_root it), d).

Definition finish (it : Intake) (replace : bool) (old : string) : iact disk (list string) :=
  let@ source := source_of it in
  let@ _ := (fun d => match node d (it_dest it) with
                      | None => (Good (), d)
                      | Some _ =>
                        if replace then clear_dest it old d
                        else (Bad (rejected (join "/" (it_dest it) +:+ " is already there and kanna build didn't put it there; not replacing it")), abandon it d)
                      end) in
  put_in_place it source.
End Intake.
