(* ===== verification/IntakeTheorems.v ===== *)
(** * What a guest returns stays in its folder

    Whatever a guest sends, only the intake's own folder changes, and no path in it leads out of
    it over the links that were made. *)

From S2P Require Import Prelude Text PipeText Json Schedule ScheduleFacts Patch Frame Manifest Intake.
From Stdlib Require Import Ascii.

#[local] Open Scope N_scope.

(** Paths of the same file *)
Definition same_path `{Disk} (p q : list string) : Prop := map canon p = map canon q.
#[export] Instance same_path_dec `{Disk} p q : Decision (same_path p q) := decide (map canon p = map canon q).

(** [q] is [p] or lies under it. *)
Definition under `{Disk} (p q : list string) : Prop := same_path (take (length p) q) p.
#[export] Instance under_dec `{Disk} p q : Decision (under p q) := decide (same_path (take (length p) q) p).

(** A path that is a folder itself, not a link to one; the base is the empty path. *)
Definition folder `{Disk} (d : disk) (dir : list string) : Prop := dir = [] \/ node d dir = Some NDir.

(** What the kernel's calls do, where they succeed, in a real folder: nothing is said of a path that
    leads over a link, where they change what the link leads to. *)
Class DiskLaws `{Disk} : Prop := {
  opens_dir d dir name : folder d dir -> opens d dir name = None -> node d (dir ++ [name]) = Some NDir;
  mkdir_new d dir name d' : folder d dir -> mkdir_at d dir name = inr d' ->
    forall q, node d' q = if decide (same_path q (dir ++ [name])) then Some NDir else node d q;
  create_new d dir name exec d' : folder d dir -> create_at d dir name exec = inr d' ->
    forall q, node d' q = if decide (same_path q (dir ++ [name])) then Some (NFile "" exec) else node d q;
  write_data d path data e d' old exec : node d path = Some (NFile old exec) -> write_all d path data = (e, d') ->
    (exists got, node d' path = Some (NFile got exec)) /\ forall q, ~ same_path q path -> node d' q = node d q;
  symlink_new d dir name target d' : folder d dir -> symlink_at d dir name target = inr d' ->
    forall q, node d' q = if decide (same_path q (dir ++ [name])) then Some (NLink target) else node d q;
  node_same d p q : same_path p q -> node d p = node d q;
  read_lists d dir names : folder d dir -> read_dir d dir = inr names ->
    NoDup (map canon names) /\ forall q, is_Some (node d (dir ++ [q])) <-> canon q ∈ map canon names;
  rename_moves d from to d' : folder d (removelast from) -> folder d (removelast to) -> rename_paths d from to = inr d' -> ~ under from to -> ~ under to from ->
    forall q, node d' q = if decide (under to q) then node d (from ++ drop (length to) q) else if decide (under from q) then None else node d q;
  remove_only d path e d' : folder d (removelast path) -> remove_all d path = (e, d') -> forall q, ~ under path q -> node d' q = node d q }.

(** ** Walking in a folder *)

(** From a folder under the root, the parts of a path that are left; [None] is outside the root. *)
Inductive walk `{Disk} (d : disk) (root : list string) : list string * list string -> option (list string * list string) -> Prop :=
| walk_skip at_ p rest : p = "" \/ p = "." -> walk d root (at_, p :: rest) (Some (at_, rest))
| walk_up at_ x rest : walk d root (at_ ++ [x], ".." :: rest) (Some (at_, rest))
| walk_out rest : walk d root ([], ".." :: rest) None
| walk_dir at_ p rest : p ≠ "" -> p ≠ "." -> p ≠ ".." -> node d (root ++ at_ ++ [p]) = Some NDir -> walk d root (at_, p :: rest) (Some (at_ ++ [p], rest))
| walk_link at_ p rest t : p ≠ "" -> p ≠ "." -> p ≠ ".." -> node d (root ++ at_ ++ [p]) = Some (NLink t) ->
    walk d root (at_, p :: rest) (if starts_with "/" t then None else Some (at_, split_on "/" t ++ rest)).

Inductive walks `{Disk} (d : disk) (root : list string) : list string * list string -> option (list string * list string) -> Prop :=
| walks_here s : walks d root s (Some s)
| walks_on s s' r : walk d root s (Some s') -> walks d root s' r -> walks d root s r
| walks_out s : walk d root s None -> walks d root s None.

(** Parts that climb at most so far, and only before a name *)
Fixpoint within (depth : nat) (pending : list string) : Prop :=
  match pending with
  | [] => True
  | p :: rest =>
    if decide (p = "" \/ p = ".") then within depth rest
    else if decide (p = "..") then (match depth with O => False | S depth => within depth rest end)
    else ".." ∉ rest
  end.

Lemma within_none depth pending : ".." ∉ pending -> within depth pending.
Proof.
  induction pending as [|p rest IH]; intros Hp; [done|]. apply not_elem_of_cons in Hp as [Hp Hrest]. cbn [within].
  case_decide; [by apply IH|]. by rewrite decide_False.
Qed.

Lemma within_app depth pending rest : within depth pending -> ".." ∉ rest -> within depth (pending ++ rest).
Proof.
  revert depth. induction pending as [|p pending IH]; intros depth Hp Hrest; [by apply within_none|]. cbn [within app] in *.
  case_decide; [by apply IH|]. case_decide; [destruct depth; [done|by apply IH]|]. by apply not_elem_of_app.
Qed.

Lemma within_more depth depth' pending : (depth <= depth')%nat -> within depth pending -> within depth' pending.
Proof.
  revert depth depth'. induction pending as [|p pending IH]; intros depth depth' Hd; [done|]. cbn [within].
  case_decide; [by apply IH|]. case_decide; [|done]. destruct depth, depth'; try done; [lia|]. apply IH. lia.
Qed.

(** What [link] allows: as many as it counted *)
Lemma climbs_named up target n : climbs up true target = Some n -> n = up /\ ".." ∉ target.
Proof.
  induction target as [|p target IH]; cbn [climbs]; [intros [= <-]; split; [done|apply not_elem_of_nil]|].
  destruct (str_is_empty p || bool_decide (p = ".")) eqn:E.
  - intros [-> Hn]%IH. split; [done|]. apply not_elem_of_cons. split; [|done]. intros <-. by vm_compute in E.
  - destruct (decide (p = "..")) as [|Hp]; [done|]. intros [-> Hn]%IH. split; [done|]. apply not_elem_of_cons. by split.
Qed.

Lemma climbs_within target up n : climbs up false target = Some n -> (up <= n)%nat /\ within (n - up) target.
Proof.
  revert up. induction target as [|p target IH]; intros up; cbn [climbs within]; [intros [= <-]; split; [lia|done]|].
  assert (str_is_empty p || bool_decide (p = ".") = bool_decide (p = "" \/ p = ".")) as -> by (unfold str_is_empty; repeat case_bool_decide; naive_solver).
  case_bool_decide as Hskip.
  - intros H. rewrite decide_True by done. by apply IH.
  - rewrite (decide_False (P := p = "" \/ p = ".")) by done. case_decide.
    + intros [Hle Hw]%IH. split; [lia|]. replace (n - up)%nat with (S (n - S up)) by lia. done.
    + intros [-> Hn]%climbs_named. split; [lia|done].
Qed.

(** ** What every call keeps *)

(** From [P], to [Q] of the result, or to [E] where there is none *)
Definition holds {S A} (P : S -> Prop) (m : iact S A) (Q : A -> S -> Prop) (E : S -> Prop) : Prop :=
  forall s, P s -> match m s with (Good a, s') => Q a s' | (_, s') => E s' end.

Lemma holds_bind {S A B} (P : S -> Prop) (m : iact S A) (k : A -> iact S B) Q R E :
  holds P m Q E -> (forall a, holds (Q a) (k a) R E) -> holds P (ibind m k) R E.
Proof.
  intros Hm Hk s Hs. specialize (Hm s Hs). unfold ibind. destruct (m s) as [[a|e|] s']; [|done..]. by apply (Hk a).
Qed.

Lemma holds_ret {S A} (a : A) (Q : A -> S -> Prop) E : holds (Q a) (iret a) Q E.
Proof. by intros s Hs. Qed.

Lemma holds_conseq {S A} (P P' : S -> Prop) (m : iact S A) (Q Q' : A -> S -> Prop) (E : S -> Prop) :
  holds P m Q E -> (forall s, P' s -> P s) -> (forall a s, Q a s -> Q' a s) -> holds P' m Q' E.
Proof. intros Hm HP HQ s Hs. specialize (Hm s (HP s Hs)). destruct (m s) as [[a|e|] s']; [by apply HQ|done..]. Qed.

Section Opening.
Context `{laws : DiskLaws}.

Lemma same_length p q : same_path p q -> length p = length q.
Proof. intros Hp%(f_equal length). by rewrite !length_map in Hp. Qed.

Lemma folder_kept d d' dir name n : (forall q, node d' q = if decide (same_path q (dir ++ [name])) then n else node d q) -> folder d dir -> folder d' dir.
Proof.
  intros Hd [->|Hn]; [by left|]. right. rewrite Hd, decide_False; [done|]. intros Hs%same_length. rewrite length_app in Hs. simpl in Hs. lia.
Qed.

(** A folder that is opened is one, whatever making folders keeps. *)
Lemma open_dir_holds (I : disk -> Prop) dir name create :
  (forall d d', I d -> folder d dir -> mkdir_at d dir name = inr d' -> I d') ->
  holds (fun d => I d /\ folder d dir) (open_dir_at dir name create) (fun p d => p = dir ++ [name] /\ I d /\ folder d p) I.
Proof.
  intros HI d [Hd Hf]. unfold open_dir_at. destruct (has_byte nul name); [done|].
  assert (forall d, I d -> folder d dir -> match (match opens d dir name with
            | None => (Good (dir ++ [name]), d) | Some e => (Bad (rejected (name +:+ " isn't a folder: " +:+ e)), d) end) with
            | (Good p, d') => p = dir ++ [name] /\ I d' /\ folder d' p | (_, d') => I d' end) as Hgo.
  { intros e He Hfe. destruct (opens e _ name) eqn:Eo; [done|]. split_and!; [done|done|]. right. by apply opens_dir. }
  destruct create; [|by apply Hgo]. destruct (mkdir_at d _ name) as [[|e]|d'] eqn:Em; [by apply Hgo|done|].
  apply Hgo; [by eapply HI|]. eapply folder_kept; [by apply (mkdir_new _ _ _ _ Hf Em)|done].
Qed.

Lemma open_steps_holds (I : disk -> Prop) dir steps create :
  (forall d d' q name, I d -> folder d (dir ++ q) -> mkdir_at d (dir ++ q) name = inr d' -> I d') ->
  holds (fun d => I d /\ folder d dir) (open_steps dir steps create) (fun p d => p = dir ++ steps /\ I d /\ folder d p) I.
Proof.
  revert dir. induction steps as [|step steps IH]; intros dir HI; cbn [open_steps].
  { eapply holds_conseq; [apply (holds_ret _ (fun p d => p = dir ++ [] /\ I d /\ folder d p))| |done]. intros d [? ?]. rewrite app_nil_r. by split_and!. }
  eapply holds_bind; [apply (open_dir_holds I); intros d d' H1 H2 H3; apply (HI d d' [] step); by rewrite ?app_nil_r|].
  intros p d (-> & Hd & Hf). specialize (IH (dir ++ [step])). rewrite <- app_assoc in IH. apply IH; [|by split].
  intros e e' q name. rewrite <- app_assoc. apply (HI e e' ([step] ++ q)).
Qed.
End Opening.

Section Confined.
Context `{Lowercase} `{laws : DiskLaws} (debug digest : string -> string) (d0 : disk) (root : list string).

Record confined (d : disk) : Prop := {
  cf_root : node d root = Some NDir;
  cf_links q t : q ≠ [] -> node d (root ++ q) = Some (NLink t) -> starts_with "/" t = false /\ within (pred (length q)) (split_on "/" t);
  cf_kept p : ~ under root p -> node d p = node d0 p }.

Lemma same_under p q : same_path p (root ++ q) -> under root p.
Proof.
  unfold under, same_path. intros Hp%(f_equal (take (length root))). rewrite <- firstn_map, Hp, firstn_map. by rewrite take_app_length.
Qed.

Lemma snoc_some {A} (l : list A) x : l ++ [x] ≠ [].
Proof. by destruct l. Qed.

(** A change at one path under the root, to no link or to a link that may be *)
Lemma confined_at d d' q (x : option Node) :
  confined d -> q ≠ [] -> (forall p, node d' p = if decide (same_path p (root ++ q)) then x else node d p) ->
  (forall t, x = Some (NLink t) -> starts_with "/" t = false /\ within (pred (length q)) (split_on "/" t)) -> confined d'.
Proof.
  intros [Hr Hl Hk] Hq Hd Hx. split.
  - rewrite Hd, decide_False; [done|]. intros Hs%same_length. rewrite length_app in Hs. destruct q; [done|simpl in Hs; lia].
  - intros q' t Hq'. rewrite Hd. case_decide as Hs; [|by apply Hl]. apply same_length in Hs. rewrite !length_app in Hs.
    assert (length q' = length q) as -> by lia. apply Hx.
  - intros p Hp. rewrite Hd, decide_False; [by apply Hk|]. by intros Hs%same_under.
Qed.

Lemma mkdir_confined d d' q name : confined d -> folder d (root ++ q) -> mkdir_at d (root ++ q) name = inr d' -> confined d'.
Proof.
  intros Hd Hf Em. pose proof (mkdir_new _ _ _ _ Hf Em) as Hn. rewrite <- app_assoc in Hn. by eapply (confined_at _ _ _ _ Hd (snoc_some q name) Hn).
Qed.

(** The state of an intake *)
Definition intake_at (n : N) (s : Intake * disk) : Prop := it_root (fst s) = root /\ it_total (fst s) = n /\ confined (snd s).

(** That, with a folder under the root *)
Definition intake_in (n : N) (p : list string) (s : Intake * disk) : Prop := intake_at n s /\ folder (snd s) p.

Lemma claim_keeps rel dir it : it_root (claim debug rel dir it).2 = it_root it /\ it_total (claim debug rel dir it).2 = it_total it /\
  forall ps, (claim debug rel dir it).1 = Good ps -> ps = split_on "/" rel /\ ps ≠ [].
Proof.
  unfold claim, parts. destruct (_ || _); [done|]. destruct (existsb _ _); [done|]. destruct (claim_parents _ _ _ _) as [[prefix|] dirs]; [done|].
  destruct (_ || _); [done|]. destruct (_ <? _); [done|]. destruct dir; cbn [fst snd]; (split_and!; [done|done|]); intros ps [= <-]; (split; [done|apply split_on_nonempty]).
Qed.

Lemma claim_holds n rel dir :
  holds (intake_at n) (on_intake (claim debug rel dir)) (fun ps s => ps = split_on "/" rel /\ ps ≠ [] /\ intake_at n s) (intake_at n).
Proof.
  intros [it d] (Hr & Ht & Hd). unfold on_intake. destruct (claim_keeps rel dir it) as (H1 & H2 & H3). destruct (claim debug rel dir it) as [r it'].
  cbn [fst snd] in *. assert (intake_at n (it', d)) as Hat by (unfold intake_at; cbn [fst snd]; by rewrite H1, H2).
  destruct r as [ps|e|]; [|done..]. by destruct (H3 ps eq_refl).
Qed.

Lemma on_disk_holds {A} n P Q (m : Intake -> iact disk A) : (forall it, it_root it = root -> holds (fun d => confined d /\ P d) (m it) (fun a d => confined d /\ Q a d) confined) ->
  holds (fun s => intake_at n s /\ P (snd s)) (on_disk m) (fun a s => intake_at n s /\ Q a (snd s)) (intake_at n).
Proof.
  intros Hm [it d] [(Hr & Ht & Hd) HP]. unfold on_disk. specialize (Hm it Hr d (conj Hd HP)). destruct (m it d) as [[a|e|] d']; cbn [fst snd] in *; [|done..].
  destruct Hm. by split_and!.
Qed.

Lemma parent_holds n ps : holds (intake_at n) (parent ps) (fun p s => intake_at n s /\ p = root ++ removelast ps /\ folder (snd s) p) (intake_at n).
Proof.
  eapply holds_conseq; [apply (on_disk_holds n (fun _ => True) (fun p d => p = root ++ removelast ps /\ folder d p))|by split|done].
  intros it ->. eapply holds_conseq; [apply (open_steps_holds confined); by intros; eapply mkdir_confined| |].
  - intros d [Hd _]. split; [done|]. right. by apply cf_root.
  - intros p d (-> & ? & ?). by split_and!.
Qed.

Lemma split_last (ps : list string) : ps ≠ [] -> ps = removelast ps ++ [last_name ps].
Proof.
  intros Hps. unfold last_name. destruct ps as [|x ps] using rev_ind; [done|]. by rewrite removelast_last, last_snoc.
Qed.

Lemma dir_holds n rel : holds (intake_at n) (dir debug rel) (fun _ => intake_at n) (intake_at n).
Proof.
  eapply holds_bind; [apply claim_holds|]. intros ps. cbn beta. eapply holds_bind; [eapply holds_conseq; [apply parent_holds|by intros s (_ & _ & ?)|by intros p s]|].
  intros p s (Hs & -> & Hf). revert s Hs Hf. enough (forall q, holds (intake_in n (root ++ q))
    (let@ _ := on_disk (fun _ => open_dir_at (root ++ q) (last_name ps) true) in iret ()) (fun _ => intake_at n) (intake_at n)) as Hq by (intros s Hs Hf; by apply Hq).
  intros q. eapply holds_bind; [apply (on_disk_holds n (fun d => folder d (root ++ q)) (fun _ _ => True))|intros p'; eapply holds_conseq; [apply (holds_ret tt (fun _ => intake_at n))|by intros s [? _]|done]].
  intros _ _. eapply holds_conseq; [apply (open_dir_holds confined); by intros; eapply mkdir_confined|done|by intros ? ? (_ & ? & _)].
Qed.

Lemma create_file_holds q name rel exec :
  holds (fun d => confined d /\ folder d (root ++ q)) (create_file (root ++ q) name rel exec)
    (fun _ d => confined d /\ exists data x, node d ((root ++ q) ++ [name]) = Some (NFile data x)) confined.
Proof.
  intros d [Hd Hf]. unfold create_file. destruct (create_at d _ name exec) as [e|d'] eqn:Ec; [done|].
  pose proof (create_new _ _ _ _ _ Hf Ec) as Hn. split; [|exists "", exec; by rewrite Hn, decide_True].
  rewrite <- app_assoc in Hn. by eapply (confined_at _ _ _ _ Hd (snoc_some q name) Hn).
Qed.

Lemma write_file_holds q rel size sha from : q ≠ [] ->
  holds (fun d => confined d /\ exists data x, node d (root ++ q) = Some (NFile data x)) (write_file digest (root ++ q) rel size sha from) (fun _ d => confined d /\ True) confined.
Proof.
  intros Hq d [Hd (old & x & Hold)]. unfold write_file. destruct (write_all d (root ++ q) _) as [e d'] eqn:Ew.
  destruct (write_data _ _ _ _ _ _ _ Hold Ew) as [[got Hgot] Hw].
  assert (confined d') as Hd'.
  { eapply (confined_at d d' q (Some (NFile got x))); [done..| |done]. intros p. case_decide as Hs; [by rewrite (node_same _ _ _ Hs)|by apply Hw]. }
  repeat case_match; simplify_eq; done.
Qed.

Lemma file_holds n rel exec size sha from : n <= MAX_TOTAL ->
  holds (intake_at n) (file debug digest rel exec size sha from) (fun _ s => intake_at (n + size) s /\ n + size <= MAX_TOTAL) (intake_at n).
Proof.
  intros Hn s0 Hs0. unfold file. destruct (_ || _) eqn:Eo; [done|]. apply orb_false_iff in Eo as [_ Et%N.ltb_ge].
  assert (n + size <= MAX_TOTAL) as Hle by (destruct Hs0 as (_ & <- & _); done). clear Et. revert s0 Hs0.
  change (holds (intake_at n) (let@ ps := on_intake (claim debug rel false) in let@ p := parent ps in
     let@ _ := on_disk (fun _ => create_file p (last_name ps) rel exec) in
     let@ _ := on_disk (fun _ => write_file digest (p ++ [last_name ps]) rel size sha from) in
     on_intake (fun it => (Good (), set_total it (it_total it + size)))) (fun _ s => intake_at (n + size) s /\ n + size <= MAX_TOTAL) (intake_at n)).
  eapply holds_bind; [apply claim_holds|]. intros ps. cbn beta. eapply holds_bind; [eapply holds_conseq; [apply parent_holds|by intros s (_ & _ & ?)|by intros p s]|].
  intros p s (Hs & -> & Hf). revert s Hs Hf. generalize (removelast ps). intros q s Hs Hf.
  eapply (holds_bind (intake_in n (root ++ q))); [| |by split].
  { apply (on_disk_holds n (fun d => folder d (root ++ q)) (fun _ d => exists data x, node d ((root ++ q) ++ [last_name ps]) = Some (NFile data x))). intros _ _. apply create_file_holds. }
  pose proof (snoc_some q (last_name ps)) as Hne. intros u. cbn beta. clear u. rewrite <- app_assoc.
  eapply holds_bind; [apply (on_disk_holds n (fun d => exists data x, node d (root ++ q ++ [last_name ps]) = Some (NFile data x)) (fun _ _ => True)); intros _ _; by apply write_file_holds|].
  intros u [it d] [(H1 & H2 & H3) _]. unfold on_intake. cbn [fst snd] in *. split; [|done]. by split_and!; [|cbn; rewrite H2|].
Qed.

Lemma make_link_holds q name rel target :
  starts_with "/" target = false -> within (length q) (split_on "/" target) ->
  holds (fun d => confined d /\ folder d (root ++ q)) (make_link (root ++ q) name rel target) (fun _ d => confined d /\ True) confined.
Proof.
  intros Hs Hw d [Hd Hf]. unfold make_link. destruct (_ || _); [done|]. destruct (symlink_at d _ name target) as [e|d'] eqn:El; [done|].
  split; [|done]. pose proof (symlink_new _ _ _ _ _ Hf El) as Hn. rewrite <- app_assoc in Hn. eapply (confined_at _ _ _ _ Hd (snoc_some q name) Hn).
  intros t [= <-]. rewrite length_app, Nat.add_1_r. by split.
Qed.

Lemma link_holds n rel target : holds (intake_at n) (link debug rel target) (fun _ => intake_at n) (intake_at n).
Proof.
  intros s0 Hs0. unfold link. destruct (_ || _) eqn:Eo; [done|]. apply orb_false_iff in Eo as [_ Ea].
  destruct (it_single (fst s0)); [done|]. destruct (climbs _ _ _) as [up|] eqn:Ec; [|done].
  destruct (length _ <=? up)%nat eqn:El; [done|]. apply Nat.leb_gt in El. apply climbs_within in Ec as [_ Hw]. rewrite Nat.sub_0_r in Hw.
  revert s0 Hs0. change (holds (intake_at n) (let@ ps := on_intake (claim debug rel false) in let@ p := parent ps in
    on_disk (fun _ => make_link p (last_name ps) rel target)) (fun _ => intake_at n) (intake_at n)).
  eapply holds_bind; [apply claim_holds|]. intros ps s (-> & Hne & Hs). revert s Hs. eapply holds_bind; [apply parent_holds|].
  intros p s (Hs & -> & Hf). revert s Hs Hf.
  enough (holds (intake_in n (root ++ removelast (split_on "/" rel))) (on_disk (fun _ => make_link (root ++ removelast (split_on "/" rel)) (last_name (split_on "/" rel)) rel target))
    (fun _ => intake_at n) (intake_at n)) as Hl by (intros s Hs Hf; by apply Hl).
  eapply holds_conseq; [apply (on_disk_holds n (fun d => folder d (root ++ removelast (split_on "/" rel))) (fun _ _ => True))|done|by intros ? ? [? _]]. intros _ _. apply make_link_holds; [done|].
  eapply within_more; [|exact Hw]. rewrite (split_last _ Hne) in El at 1. rewrite length_app in El. simpl in El. lia.
Qed.
End Confined.

(** ** The theorems *)

Inductive Request := ReqDir (rel : string) | ReqFile (rel : string) (exec : bool) (size : N) (sha : string) (from : Incoming) | ReqLink (rel target : string).

Section Theorems.
Context `{Lowercase} `{laws : DiskLaws} (debug digest : string -> string).

Definition take_request (r : Request) : iact (Intake * disk) unit :=
  match r with
  | ReqDir rel => dir debug rel
  | ReqFile rel exec size sha from => file debug digest rel exec size sha from
  | ReqLink rel target => link debug rel target
  end.

(** Also after one that was refused; with the bytes of the files that were taken *)
Fixpoint take_requests (rs : list Request) (s : Intake * disk) : N * (Intake * disk) :=
  match rs with
  | [] => (0, s)
  | r :: rs =>
    let '(a, s) := take_request r s in
    let '(n, s) := take_requests rs s in
    (match a, r with Good _, ReqFile _ _ size _ _ => size + n | _, _ => n end, s)
  end.

Lemma request_ok d0 root r s : intake_at d0 root (it_total (fst s)) s -> it_total (fst s) <= MAX_TOTAL ->
  let '(a, s') := take_request r s in
  let n := it_total (fst s) + match a, r with Good _, ReqFile _ _ size _ _ => size | _, _ => 0 end in
  intake_at d0 root n s' /\ n <= MAX_TOTAL.
Proof.
  intros Hs Hn. destruct r as [rel|rel exec size sha from|rel target]; cbn [take_request].
  - pose proof (dir_holds debug digest d0 root (it_total s.1) rel s Hs) as Hh. destruct (dir debug rel s) as [[a|e|] s']; rewrite N.add_0_r; by split.
  - pose proof (file_holds debug digest d0 root (it_total s.1) rel exec size sha from Hn s Hs) as Hh.
    destruct (file debug digest rel exec size sha from s) as [[a|e|] s']; [done|rewrite N.add_0_r; by split..].
  - pose proof (link_holds debug digest d0 root (it_total s.1) rel target s Hs) as Hh. destruct (link debug rel target s) as [[a|e|] s']; rewrite N.add_0_r; by split.
Qed.

Lemma requests_ok d0 root rs s : intake_at d0 root (it_total (fst s)) s -> it_total (fst s) <= MAX_TOTAL ->
  let '(n, s') := take_requests rs s in intake_at d0 root (it_total (fst s) + n) s' /\ it_total (fst s) + n <= MAX_TOTAL.
Proof.
  revert s. induction rs as [|r rs IH]; intros s Hs Hn; cbn [take_requests]; [by rewrite N.add_0_r|].
  pose proof (request_ok d0 root r s Hs Hn) as Hr. destruct (take_request r s) as [a s1]. destruct Hr as [H1 H2].
  set (x := match a, r with Good _, ReqFile _ _ size _ _ => size | _, _ => 0 end) in *. pose proof H1 as (_ & Et & _).
  specialize (IH s1). rewrite Et in IH. specialize (IH H1 H2). destruct (take_requests rs s1) as [n s2].
  replace (match a, r with Good _, ReqFile _ _ size _ _ => size + n | _, _ => n end) with (x + n) by (unfold x; repeat case_match; lia).
  by rewrite N.add_assoc.
Qed.

Lemma walk_within d0 root d at_ pending r : confined d0 root d -> within (length at_) pending -> walk d root (at_, pending) r ->
  exists at' pending', r = Some (at', pending') /\ within (length at') pending'.
Proof.
  intros [_ Hl _] Hw Hr. inversion Hr as [a p rest Hp|a x rest|rest|a p rest H1 H2 H3 Hn|a p rest t H1 H2 H3 Hn]; subst; cbn [within] in Hw.
  - rewrite decide_True in Hw by done. eauto.
  - rewrite decide_False in Hw by naive_solver. rewrite decide_True, length_app, Nat.add_1_r in Hw by done. eauto.
  - rewrite decide_False in Hw by naive_solver. by rewrite decide_True in Hw.
  - rewrite !decide_False in Hw by naive_solver. eexists _, _. split; [done|]. by apply within_none.
  - rewrite !decide_False in Hw by naive_solver. destruct (Hl (at_ ++ [p]) t) as [Ha Hin]; [by destruct at_|done|]. rewrite Ha.
    eexists _, _. split; [done|]. rewrite length_app, Nat.add_1_r in Hin. by apply within_app.
Qed.

Lemma walks_within d0 root d s r : confined d0 root d -> walks d root s r -> within (length (fst s)) (snd s) -> r ≠ None.
Proof.
  intros Hc. induction 1 as [s|[a p] [a' p'] r Hw _ IH|[a p] Hw]; intros Hin; [done|..].
  - destruct (walk_within d0 root d a p _ Hc Hin Hw) as (? & ? & [= <- <-] & H'). by apply IH.
  - by destruct (walk_within d0 root d a p _ Hc Hin Hw) as (? & ? & ? & _).
Qed.

(** Opening folders makes no links. *)
Definition no_new_link (d0 d : disk) : Prop := forall p t, node d p = Some (NLink t) -> node d0 p = Some (NLink t).

Lemma mkdir_no_link d0 d d' dir name : no_new_link d0 d -> folder d dir -> mkdir_at d dir name = inr d' -> no_new_link d0 d'.
Proof. intros Hd Hf Em p t. rewrite (mkdir_new _ _ _ _ Hf Em). case_decide; [done|apply Hd]. Qed.

Lemma new_holds d0 rel single staging :
  holds (no_new_link d0) (intake_new debug rel single staging)
    (fun it d => it_total it = 0 /\ it_single it = single /\ node d (it_root it) = Some NDir /\ no_new_link d0 d) (no_new_link d0).
Proof.
  eapply (holds_bind _ _ _ (fun _ => no_new_link d0)); [intros d Hd; by destruct (ilift _ d) as [[]] eqn:E; injection E as _ <-|].
  intros steps. cbn beta. eapply holds_bind; [eapply holds_conseq; [apply (open_steps_holds (no_new_link d0)); intros; by eapply mkdir_no_link| |done]|].
  { intros d Hd. split; [done|]. by left. }
  intros p. cbn beta. eapply holds_bind; [eapply holds_conseq; [apply (open_dir_holds (no_new_link d0)); intros; by eapply mkdir_no_link| |done]|].
  { by intros d (_ & ? & ?). }
  intros q d (-> & Hd & [Hf|Hf]); [by destruct p|]. by split_and!.
Qed.

(** C38 Whatever a guest sends to an intake whose folder holds no links when it is made, in whatever order
    and also after what was refused or broke off: only that folder changes, and it stays a folder;
    no path in it without [..] leads out of it over the links that were made, however they are
    chained; the files that are taken have at most 16 GiB together.  Of a file that is refused
    midway, what came stays there and is not counted.  The kernel is relied on for what it does in
    a real folder only, not where a path leads over a link. *)
Theorem intake_confined rel single staging d it d1 rs :
  intake_new debug rel single staging d = (Good it, d1) -> (forall q t, node d (it_root it ++ q) ≠ Some (NLink t)) ->
  let '(bytes, (it', d')) := take_requests rs (it, d1) in
  bytes <= MAX_TOTAL /\ node d' (it_root it) = Some NDir /\ (forall p, ~ under (it_root it) p -> node d' p = node d1 p) /\
  forall at_ path, ".." ∉ path -> ~ walks d' (it_root it) (at_, path) None.
Proof.
  intros Hnew Hfresh. pose proof (new_holds d rel single staging d) as Hh. rewrite Hnew in Hh. destruct Hh as (Ht & _ & Hr & Hl); [by intros p t|].
  pose proof (requests_ok d1 (it_root it) rs (it, d1)) as Hok. cbn [fst] in Hok. rewrite Ht in Hok.
  destruct (take_requests rs (it, d1)) as [bytes [it' d']]. destruct Hok as [(_ & _ & Hc) Hle]; [|done|].
  - split_and!; [done|done|]. split; [done| |done]. intros q t _ Hn. by destruct (Hfresh q t (Hl _ _ Hn)).
  - split_and!; [done|by apply cf_root in Hc|by apply cf_kept|]. intros at_ path Hp Hw. by apply (walks_within _ _ _ _ _ Hc Hw); [apply within_none|].
Qed.
End Theorems.

(** ** In place *)

Section Finish.
Context `{laws : DiskLaws}.

Lemma under_app p x q : under (p ++ x) q -> under p q.
Proof.
  unfold under, same_path. intros Hq%(f_equal (take (length p))). rewrite !firstn_map, take_take, take_app_length, length_app in Hq.
  by replace (length p `min` (length p + length x))%nat with (length p) in Hq by lia.
Qed.

Lemma under_self p q : under p (p ++ q).
Proof. unfold under. by rewrite take_app_length. Qed.

Lemma siblings folder a b x : canon a ≠ canon b -> ~ under (folder ++ [b]) (folder ++ [a] ++ x).
Proof.
  unfold under, same_path. rewrite length_app, app_assoc. replace (length folder + length [b])%nat with (length (folder ++ [a])) by (by rewrite !length_app).
  rewrite take_app_length, !map_app. intros Hab [_ [= E]]%app_inj_2; [done|done].
Qed.

(** The names of an intake's folder, of its destination and of what was there are three. *)
Definition apart_names (it : Intake) (old : string) : Prop :=
  canon (it_staging it) ≠ canon (it_name it) /\ canon old ≠ canon (it_name it) /\ canon old ≠ canon (it_staging it).

(** The intake's folder is there, in a folder. *)
Definition in_place (it : Intake) (d : disk) : Prop := folder d (it_folder it) /\ node d (it_root it) = Some NDir.

(** What came: the folder itself, or where one file was to come, the only one in it *)
Definition came (it : Intake) (d : disk) (x : list string) : Prop :=
  if it_single it then exists one, x = [one] /\ forall name, is_Some (node d (it_root it ++ [name])) <-> canon name = canon one else x = [].

Lemma not_in_itself dir name : ~ under (dir ++ [name]) dir.
Proof. unfold under. intros Hs%same_length. rewrite length_take, length_app in Hs. simpl in Hs. lia. Qed.

Lemma folder_same d d' dir : node d' dir = node d dir -> folder d dir -> folder d' dir.
Proof. intros E [->|Hf]; [by left|right; by rewrite E]. Qed.

(** Below one name of a folder, and not below another *)
Lemma other_name it a b x : canon a ≠ canon b -> ~ under (it_folder it ++ [b]) ((it_folder it ++ [a]) ++ x).
Proof. rewrite <- app_assoc. apply siblings. Qed.

Lemma other_name' it a b : canon a ≠ canon b -> ~ under (it_folder it ++ [b]) (it_folder it ++ [a]).
Proof. intros Hab. pose proof (other_name it a b [] Hab) as Ho. by rewrite app_nil_r in Ho. Qed.

Lemma source_came it d source d' : in_place it d -> source_of it d = (Good source, d') -> d' = d /\ exists x, source = it_root it ++ x /\ came it d x.
Proof.
  intros [Hf Hr]. unfold source_of, came. destruct (it_single it); [|intros [= <- <-]; split; [done|exists []; by rewrite app_nil_r]].
  destruct (read_dir d (it_root it)) as [|[|one [|]]] eqn:E; try done. intros [= <- <-]. split; [done|]. exists [one]. split; [done|]. exists one. split; [done|].
  apply read_lists in E as [_ E]; [|by right]. intros name. rewrite E. cbn [map]. by rewrite list_elem_of_singleton.
Qed.

Lemma came_folder it d x : in_place it d -> came it d x -> folder d (removelast (it_root it ++ x)).
Proof.
  intros [Hf Hr]. unfold came. destruct (it_single it).
  - intros (one & -> & _). rewrite removelast_last. by right.
  - intros ->. unfold it_root. by rewrite app_nil_r, removelast_last.
Qed.

Lemma abandon_kept it d p : folder d (it_folder it) -> ~ under (it_root it) p -> node (abandon it d) p = node d p.
Proof.
  intros Hf. unfold abandon. destruct (remove_all d (it_root it)) as [e d'] eqn:Er. intros Hp. apply (remove_only _ _ _ _) with (q := p) in Er; [done| |done]. unfold it_root. by rewrite removelast_last.
Qed.

Lemma source_kept it d r d' p : folder d (it_folder it) -> source_of it d = (r, d') -> ~ under (it_root it) p -> node d' p = node d p.
Proof.
  intros Hf. unfold source_of. destruct (it_single it); [|by intros [= _ <-]].
  destruct (read_dir d (it_root it)) as [|[|one [|]]]; intros [= _ <-]; try done; by apply abandon_kept.
Qed.

(** Where the old one was renamed, nothing is left at the destination, nor elsewhere changed. *)
Lemma clear_exact it old d r d' : apart_names it old -> folder d (it_folder it) -> clear_dest it old d = (r, d') ->
  match r with Good _ => forall q, node d' (it_dest it ++ q) = None | Bad _ => d' = d \/ forall q, node d' (it_dest it ++ q) = None | Crash => False end /\
  forall p, ~ under (it_dest it) p -> ~ under (it_folder it ++ [old]) p -> node d' p = node d p.
Proof.
  intros (Hne & Hold & Holds) Hf Hc. unfold clear_dest in Hc. destruct (rename_paths d _ _) as [e|d2] eqn:Er; [injection Hc as <- <-; split; [by left|done]|].
  pose proof (rename_moves d (it_dest it) (it_folder it ++ [old]) d2) as Hm. unfold it_dest in Hm at 1. rewrite !removelast_last in Hm.
  specialize (Hm Hf Hf Er (other_name' _ _ _ Hold)). specialize (Hm (other_name' _ (it_name it) old ltac:(done))).
  assert (forall q, node d2 (it_dest it ++ q) = None) as Hgone.
  { intros q. rewrite Hm, decide_False, decide_True; [done|apply under_self|]. by apply other_name. }
  assert (forall p, ~ under (it_dest it) p -> ~ under (it_folder it ++ [old]) p -> node d2 p = node d p) as Hkept by (intros p H1 H2; by rewrite Hm, !decide_False).
  destruct (remove_all d2 _) as [e d3] eqn:Em. assert (d3 = d') as <- by (by destruct e; injection Hc as _ <-).
  pose proof (remove_only d2 (it_folder it ++ [old]) e d3) as Ho. rewrite removelast_last in Ho.
  specialize (Ho (folder_same _ _ _ (Hkept _ (not_in_itself _ _) (not_in_itself _ _)) Hf) Em).
  assert (forall q, node d3 (it_dest it ++ q) = None) as Hgone' by (intros q; rewrite Ho; [done|by apply other_name]).
  split; [destruct e; injection Hc as <-; [by right|done]|]. intros p H1 H2. rewrite Ho by done. by apply Hkept.
Qed.

Lemma place_exact it x d r d' : canon (it_staging it) ≠ canon (it_name it) -> folder d (it_folder it) -> folder d (removelast (it_root it ++ x)) ->
  put_in_place it (it_root it ++ x) d = (r, d') ->
  match r with Good path => path = it_dest it /\ forall q, node d' (it_dest it ++ q) = node d (it_root it ++ x ++ q) | Bad _ => d' = d | Crash => False end /\
  forall p, ~ under (it_root it) p -> ~ under (it_dest it) p -> node d' p = node d p.
Proof.
  intros Hne Hf Hx Hp. assert (canon (it_name it) ≠ canon (it_staging it)) as Hne' by done. unfold put_in_place in Hp.
  destruct (rename_paths d _ _) as [e|d2] eqn:Er; [by injection Hp as <- <-|]. injection Hp as <- <-.
  pose proof (rename_moves d (it_root it ++ x) (it_dest it) d2 Hx) as Hm. unfold it_dest in Hm at 1. rewrite removelast_last in Hm. specialize (Hm Hf Er).
  assert (forall y, ~ under (it_root it) (it_dest it ++ y)) as Hout by (intros y; by apply other_name).
  specialize (Hm ltac:(intros Hu%under_app; specialize (Hout []); by rewrite app_nil_r in Hout) (other_name _ _ _ _ Hne)).
  assert (forall p, ~ under (it_root it) p -> ~ under (it_dest it) p -> node d2 p = node d p) as Hkept.
  { intros p H1 H2. rewrite Hm, !decide_False; [done|by intros Hu%under_app|done]. }
  assert (forall p, ~ under (it_root it) p -> node (if it_single it then abandon it d2 else d2) p = node d2 p) as Hab.
  { intros p Hr. destruct (it_single it); [|done]. apply abandon_kept; [|done]. eapply folder_same; [|exact Hf]. apply Hkept; apply not_in_itself. }
  split; [split; [done|]|intros p H1 H2; rewrite Hab by done; by apply Hkept].
  intros q. rewrite Hab by done. rewrite Hm, decide_True by apply under_self. by rewrite drop_app_length, <- app_assoc.
Qed.

(** C39 An intake whose folder is there, and whose own name, destination and the name for what is
    replaced are three, comes to its destination or is refused.  Where it comes there, what is
    there is what came, moved as it is: the folder, or where one file was to come, the only thing
    in the folder; and nothing was there before, unless it may be replaced.  Where it fails, the
    destination is as it was, but for one case: what was there was to be replaced, and then it may
    be gone.  Nothing else changes than the intake's own folder, the destination and, where
    something is replaced, the name that the old one gets. *)
Theorem finish_exact it replace old d r d' :
  finish it replace old d = (r, d') -> apart_names it old -> in_place it d ->
  (forall p, ~ under (it_root it) p -> ~ under (it_dest it) p ->
     (replace = true -> is_Some (node d (it_dest it)) -> ~ under (it_folder it ++ [old]) p) -> node d' p = node d p) /\
  match r with
  | Good path => path = it_dest it /\ (replace = true \/ node d (it_dest it) = None) /\
      exists x, came it d x /\ forall q, node d' (it_dest it ++ q) = node d (it_root it ++ x ++ q)
  | Bad _ => (forall q, node d' (it_dest it ++ q) = node d (it_dest it ++ q)) \/
      replace = true /\ is_Some (node d (it_dest it)) /\ forall q, node d' (it_dest it ++ q) = None
  | Crash => False
  end.
Proof.
  intros Hfin Hnames Hin. pose proof Hnames as (Hne & Hold & Holds). pose proof Hin as [Hf Hr]. unfold finish, ibind in Hfin.
  assert (forall q, ~ under (it_root it) (it_dest it ++ q)) as Hout by (intros q; by apply other_name).
  destruct (source_of it d) as [[source|e|] d1] eqn:Es.
  2: injection Hfin as <- <-; split; [intros; by eapply source_kept|left; intros q; by eapply source_kept].
  2: unfold source_of in Es; repeat case_match; done.
  destruct (source_came _ _ _ _ Hin Es) as (-> & x & -> & Hx). clear Es. pose proof (came_folder _ _ _ Hin Hx) as Hxf.
  destruct (node d (it_dest it)) as [there|] eqn:En; [destruct replace|].
  - destruct (clear_dest it old d) as [u d2] eqn:Ec. destruct (clear_exact _ _ _ _ _ Hnames Hf Ec) as [Hu Hkept].
    destruct u as [u|e|]; [|injection Hfin as <- <-|done].
    + assert (forall p, ~ under (it_dest it) p -> ~ under (it_folder it ++ [old]) p -> folder d p -> folder d2 p) as Hff by (intros p H1 H2; apply folder_same; by apply Hkept).
      assert (folder d2 (it_folder it)) as Hf2 by (apply Hff; [apply not_in_itself..|done]).
      assert (forall q, node d2 (it_root it ++ q) = node d (it_root it ++ q)) as Hroot by (intros q; apply Hkept; by apply other_name).
      assert (folder d2 (removelast (it_root it ++ x))) as Hxf2.
      { unfold came in Hx. destruct (it_single it); [destruct Hx as (one & -> & _)|subst x].
        - rewrite removelast_last in *. right. specialize (Hroot []). rewrite app_nil_r in Hroot. by rewrite Hroot.
        - unfold it_root. by rewrite app_nil_r, removelast_last. }
      destruct (place_exact _ _ _ _ _ Hne Hf2 Hxf2 Hfin) as [Hres Hp]. split.
      * intros p H1 H2 H3. rewrite Hp by done. by apply Hkept, H3.
      * destruct r as [path|e|]; [|subst d2; right; by split_and!|done]. destruct Hres as [-> Hq]. split_and!; [done|by left|].
        exists x. split; [done|]. intros q. by rewrite Hq, Hroot.
    + split; [intros p _ H2 H3; by apply Hkept, H3|]. destruct Hu as [->|Hu]; [by left|right; by split_and!].
  - injection Hfin as <- <-. split; [intros; by apply abandon_kept|left; intros q; by apply abandon_kept].
  - destruct (place_exact _ _ _ _ _ Hne Hf Hxf Hfin) as [Hres Hp]. split; [intros; by apply Hp|].
    destruct r as [path|e|]; [|left; by subst d'|done]. destruct Hres as [-> Hq]. split_and!; [done|by right|]. by exists x.
Qed.
End Finish.

(** ** A disk in memory

    Names that differ in the case of letters are the same. *)

Module Memory.
Definition mem : Type := list (list string * Node).

Fixpoint lower_name (s : string) : string := match s with EmptyString => "" | String a s => String (lower_ascii a) (lower_name s) end.
Abbreviation key := (map lower_name).

Fixpoint look (d : mem) (k : list string) : option Node := match d with [] => None | (x, n) :: d => if decide (x = k) then Some n else look d k end.

Fixpoint strip_path (p k : list string) : option (list string) :=
  match p, k with [], _ => Some k | x :: p, y :: k => if decide (x = y) then strip_path p k else None | _, _ => None end.

Definition put (d : mem) (p : list string) (n : Node) : mem := (key p, n) :: d.
Definition outside (p : list string) (d : mem) : mem := retain (fun '(k, _) => bool_decide (strip_path (key p) k = None)) d.
Definition moved (from to k : list string) : list string := match strip_path (key from) k with Some r => key to ++ r | None => k end.

(** Each name once, in lower case *)
Definition listed (dir : list string) (d : mem) : list string :=
  remove_dups (omap (fun '(k, _) => match strip_path dir k with Some [x] => if decide (lower_name x = x) then Some x else None | _ => None end) d).

#[export] Instance memory : Disk := {|
  disk := mem;
  canon := lower_name;
  node d p := look d (key p);
  opens d dir name := match look d (key (dir ++ [name])) with Some NDir => None | _ => Some "not a folder" end;
  mkdir_at d dir name := match look d (key (dir ++ [name])) with Some _ => inl AlreadyExists | None => inr (put d (dir ++ [name]) NDir) end;
  create_at d dir name exec := match look d (key (dir ++ [name])) with Some _ => inl "exists" | None => inr (put d (dir ++ [name]) (NFile "" exec)) end;
  write_all d path data := match look d (key path) with Some (NFile _ exec) => (None, put d path (NFile data exec)) | _ => (Some (mkIo Other "not a file"), d) end;
  symlink_at d dir name target := match look d (key (dir ++ [name])) with Some _ => inl "exists" | None => inr (put d (dir ++ [name]) (NLink target)) end;
  rename_paths d from to := match look d (key from) with None => inl (mkIo Other "not there") | Some _ => inr (map (fun '(k, n) => (moved from to k, n)) (outside to d)) end;
  remove_all d path := (None, outside path d);
  read_dir d path := inr (listed (key path) d) |}.

Lemma strip_path_Some p k r : strip_path p k = Some r <-> k = p ++ r.
Proof.
  revert k. induction p as [|x p IH]; intros k; cbn [strip_path app]; [split; [by intros [= ->]|by intros ->]|].
  destruct k as [|y k]; [done|]. case_decide as E; [subst; rewrite IH; split; [by intros ->|by intros [= ->]]|]. split; [done|]. by intros [= ? _].
Qed.

Lemma strip_path_under p q : under p q <-> exists r, strip_path (key p) (key q) = Some r.
Proof.
  unfold under, same_path. cbn [canon memory]. rewrite <- firstn_map. setoid_rewrite strip_path_Some. split.
  - intros E. exists (drop (length p) (key q)). rewrite <- E at 1. by rewrite take_drop.
  - intros [r E]. rewrite E. rewrite <- (length_map lower_name p). by rewrite take_app_length.
Qed.

Lemma look_put d p n q : look (put d p n) (key q) = if decide (same_path q p) then Some n else look d (key q).
Proof. cbn [put look]. unfold same_path. cbn [canon memory]. destruct (decide (key p = key q)), (decide (key q = key p)); congruence. Qed.

Lemma look_outside p d k : strip_path (key p) k = None -> look (outside p d) k = look d k.
Proof.
  intros Hk. unfold outside, retain. induction d as [|[x n] d IH]; [done|]. cbn [List.filter look]. case_bool_decide as E; cbn [look]; [by rewrite IH|].
  rewrite decide_False; [done|]. intros ->. done.
Qed.

(** Where two paths are apart, none is before the other. *)
Lemma strip_apart p q r : strip_path p q = None -> strip_path q p = None -> strip_path p (q ++ r) = None.
Proof.
  revert q. induction p as [|x p IH]; intros q; [done|]. destruct q as [|y q]; [done|]. cbn [strip_path app]. repeat case_decide; try done. apply IH.
Qed.

Lemma look_moved from to d k : strip_path (key to) (key from) = None -> strip_path (key from) (key to) = None ->
  look (map (fun '(k, n) => (moved from to k, n)) (outside to d)) k =
  match strip_path (key to) k with Some r => look d (key from ++ r) | None => match strip_path (key from) k with Some _ => None | None => look d k end end.
Proof.
  intros H1 H2. unfold outside, retain. induction d as [|[x n] d IH]; [by repeat case_match|].
  cbn [List.filter]. case_bool_decide as Eto; cbn [map look]; rewrite IH; clear IH; unfold moved.
  - destruct (strip_path (key from) x) as [r|] eqn:Ef.
    + apply strip_path_Some in Ef as ->. destruct (strip_path (key to) k) as [r'|] eqn:Ek.
      * apply strip_path_Some in Ek as ->. destruct (decide (r = r')) as [->|Hr]; [by rewrite !decide_True|]. rewrite !decide_False; [done|..]; by intros ?%app_inv_head.
      * rewrite decide_False; [|intros <-; rewrite (proj2 (strip_path_Some _ _ r)) in Ek by done; done].
        destruct (strip_path (key from) k) eqn:Ek'; [done|]. rewrite decide_False; [done|]. intros <-. by rewrite (proj2 (strip_path_Some _ _ r)) in Ek'.
    + destruct (strip_path (key to) k) as [r'|] eqn:Ek.
      * rewrite !decide_False; [done| |intros ->; congruence]. intros ->. by rewrite (proj2 (strip_path_Some _ _ r')) in Ef.
      * destruct (decide (x = k)) as [->|]; [by rewrite Ef|done].
  - destruct (strip_path (key to) k) as [r'|] eqn:Ek.
    + rewrite decide_False; [done|]. intros ->. apply Eto. by apply strip_apart.
    + destruct (strip_path (key from) k); [done|]. rewrite decide_False; [done|]. intros ->. done.
Qed.

Lemma lower_twice s : lower_name (lower_name s) = lower_name s.
Proof.
  induction s as [|a s IH]; [done|]. cbn [lower_name]. rewrite IH. f_equal. destruct a as [[] [] [] [] [] [] [] []]; reflexivity.
Qed.

Lemma look_in d k : is_Some (look d k) <-> exists n, (k, n) ∈ d.
Proof.
  induction d as [|[x n] d IH]; cbn [look]; [split; [by intros [? ?]|intros [n Hn]; by apply elem_of_nil in Hn]|].
  setoid_rewrite elem_of_cons. case_decide as E; [subst; split; [intros _; exists n; by left|by eexists]|]. rewrite IH. naive_solver.
Qed.

Lemma listed_in dir d x : x ∈ listed dir d <-> lower_name x = x /\ exists n, (dir ++ [x], n) ∈ d.
Proof.
  unfold listed. rewrite elem_of_remove_dups, list_elem_of_omap. split.
  - intros ([k n] & Hin & E). destruct (strip_path dir k) as [[|y [|]]|] eqn:Es; try done. case_decide; [|done]. injection E as ->.
    split; [done|]. exists n. by apply strip_path_Some in Es as <-.
  - intros [Hx [n Hn]]. exists (dir ++ [x], n). split; [done|]. rewrite (proj2 (strip_path_Some dir _ [x])) by done. by rewrite decide_True.
Qed.

Lemma listed_names dir d : map lower_name (listed dir d) = listed dir d.
Proof.
  assert (Forall (fun x => lower_name x = x) (listed dir d)) as Hf by (apply Forall_forall; by intros x [? _]%listed_in).
  induction Hf as [|x l Hx _ IH]; [done|]. cbn [map]. by rewrite Hx, IH.
Qed.

#[export] Instance memory_laws : DiskLaws.
Proof.
  split.
  - intros d dir name _. cbn. by destruct (look d _) as [[]|].
  - intros d dir name d' _. cbn [mkdir_at node memory]. destruct (look d _); [done|]. intros [= <-] q. apply look_put.
  - intros d dir name exec d' _. cbn [create_at node memory]. destruct (look d _); [done|]. intros [= <-] q. apply look_put.
  - intros d path data e d' old exec. cbn [write_all node memory]. intros ->. intros [= <- <-].
    split; [exists data; by rewrite look_put, decide_True|]. intros q Hq. by rewrite look_put, decide_False.
  - intros d dir name target d' _. cbn [symlink_at node memory]. destruct (look d _); [done|]. intros [= <-] q. apply look_put.
  - intros d p q Hs. unfold same_path in Hs. cbn [node canon memory] in *. by rewrite Hs.
  - intros d dir names _. cbn [read_dir node canon memory]. intros [= <-]. rewrite listed_names. split; [apply NoDup_remove_dups|].
    intros q. rewrite look_in, listed_in, lower_twice, map_app. naive_solver.
  - intros d from to d' _ _. cbn [rename_paths node memory]. destruct (look d (key from)); [|done]. intros [= <-] Hft Htf q.
    rewrite strip_path_under in Hft, Htf. rewrite look_moved; [|apply eq_None_not_Some; intros [r Hr]; apply Htf; by exists r|apply eq_None_not_Some; intros [r Hr]; apply Hft; by exists r].
    destruct (strip_path (key to) (key q)) as [r|] eqn:Eq.
    + rewrite decide_True by (apply strip_path_under; by eexists). apply strip_path_Some in Eq. f_equal. rewrite map_app. f_equal.
      rewrite <- skipn_map, Eq. rewrite <- (length_map lower_name to). by rewrite drop_app_length.
    + rewrite decide_False by (rewrite strip_path_under, Eq; by intros [? ?]). destruct (strip_path (key from) (key q)) eqn:Ef;
        [rewrite decide_True by (apply strip_path_under; by eexists)|rewrite decide_False by (rewrite strip_path_under, Ef; by intros [? ?])]; done.
  - intros d path e d' _. cbn [remove_all node memory]. intros [= <- <-] q Hq. apply look_outside. destruct (strip_path _ _) eqn:E; [|done].
    destruct Hq. apply strip_path_under. by eexists.
Qed.
End Memory.

(** ** Runs *)

Import Memory.

Definition plain_lower : Lowercase := fun s => s.
Definition no_debug (s : string) : string := s.
Definition sample_requests : list Request :=
  [ReqDir "Contents"; ReqFile "Contents/x" true 1 (hex (sample_digest "x")) (mkIncoming "xyz" None); ReqLink "Contents/up" ".."; ReqLink "out" "../x";
   ReqLink "here" "."; ReqLink "escape" "here/.."; ReqFile "HERE" false 0 "" (mkIncoming "" None); ReqFile "contents/X" false 1 (hex (sample_digest "y")) (mkIncoming "y" None);
   ReqFile "broken" false 9 "" (mkIncoming "bro" (Some (mkIo Other "reset")))].
Definition sample_state : io Intake * mem := intake_new (the_disk := memory) no_debug "out/App" false ".new" [].
Definition sample_intake : Intake := match fst sample_state with Good it => it | _ => mkIntake [] "" "" ∅ ∅ 0 false end.
Definition sample_taken : N * (Intake * mem) := take_requests (H := plain_lower) (H0 := memory) no_debug sample_digest sample_requests (sample_intake, snd sample_state).
Definition sample_after : Intake * mem := snd sample_taken.
Definition sample_root : list string := ["out"; ".new"].

Lemma sample_new : sample_state = (Good sample_intake, snd sample_state).
Proof.
  unfold sample_intake. assert (match fst sample_state with Good _ => true | _ => false end = true) as Hg by (vm_compute; reflexivity).
  by destruct sample_state as [[]].
Qed.

Lemma intake_confined_witness :
  map (fun q => look (snd sample_after) (sample_root ++ q)) [["contents"]; ["contents"; "x"]; ["contents"; "up"]; ["out"]; ["here"]; ["escape"]; ["broken"]] =
    [Some NDir; Some (NFile "x" true); Some (NLink ".."); None; Some (NLink "."); None; Some (NFile "bro" false)] /\ fst sample_taken = 1 /\
  ~ walks (H := memory) (snd sample_after) sample_root ([], ["here"; "Contents"; "up"; "here"]) None.
Proof.
  split; [vm_compute; reflexivity|]. split; [vm_compute; reflexivity|].
  pose proof (intake_confined (H := plain_lower) (H0 := memory) no_debug sample_digest "out/App" false ".new" [] sample_intake (snd sample_state) sample_requests) as Hc.
  specialize (Hc sample_new). assert (it_root sample_intake = sample_root) as Hr by (vm_compute; reflexivity). rewrite Hr in Hc.
  unfold sample_after, sample_taken. destruct (take_requests _ _ _ _) as [bytes [it' d']]. destruct Hc as (_ & _ & _ & Hw); [by intros q t|]. apply Hw.
  intros Hin. repeat (apply elem_of_cons in Hin as [?|Hin]; [done|]). by apply elem_of_nil in Hin.
Defined.

Definition sample_finished : io (list string) * mem := finish (the_disk := memory) sample_intake false ".old" (snd sample_after).

Lemma sample_in_place : in_place (H := memory) sample_intake (snd sample_after).
Proof. split; [right|]; vm_compute; reflexivity. Qed.

Lemma finish_exact_witness :
  fst sample_finished = Good ["out"; "App"] /\
  forall q, node (Disk := memory) (snd sample_finished) (["out"; "App"] ++ q) = node (Disk := memory) (snd sample_after) (["out"; ".new"] ++ q).
Proof.
  assert (fst sample_finished = Good ["out"; "App"]) as E by (vm_compute; reflexivity). split; [exact E|].
  destruct (finish_exact (H := memory) sample_intake false ".old" (snd sample_after) (fst sample_finished) (snd sample_finished)) as [_ H2].
  - unfold sample_finished. by destruct (finish _ _ _ _).
  - split_and!; by vm_compute.
  - exact sample_in_place.
  - rewrite E in H2. destruct H2 as (_ & _ & x & Hx & H4). assert (it_single sample_intake = false) as Hs by (vm_compute; reflexivity).
    unfold came in Hx. rewrite Hs in Hx. rewrite Hx in H4. assert (it_dest sample_intake = ["out"; "App"]) as Hd by (vm_compute; reflexivity).
    assert (it_root sample_intake = ["out"; ".new"]) as Hr by (vm_compute; reflexivity). by rewrite Hd, Hr in H4.
Defined.

(** Where one file was to come and two did, neither does. *)
Example two_files :
  let run := (let@ it := intake_new (the_disk := memory) no_debug "out.txt" true ".new" in
    fun d => let '(_, (it, d)) := take_requests (H := plain_lower) (H0 := memory) no_debug sample_digest
      (map (fun name => ReqFile name false 1 (hex (sample_digest "x")) (mkIncoming "x" None)) ["a"; "b"]) (it, d) in
    finish (the_disk := memory) it true ".old" d) in
  run [] = (Bad (rejected "expected exactly one returned file"), []).
Proof. vm_compute. reflexivity. Qed.
