(* ===== verification/Pair.v ===== *)
(** * Pairing two machines: [crates/kanna-net/src/pair.rs]

    A machine offers a code; with it, two machines agree on a key (SPAKE2) that proves what each
    said of itself, and the one that offered hands its log over.  SPAKE2, HKDF and HMAC are the
    class [Pake]; an [Instant] is a number of nanoseconds. *)

From S2P Require Import Prelude Text PipeText Json PeerLog PeerFacts PeerMerge PeerEntry PeerTheorems.
From Stdlib Require Import Ascii.

#[local] Open Scope N_scope.

Inductive Role := RoleA | RoleB.
#[export] Instance Role_eq_dec : EqDecision Role.
Proof. solve_decision. Defined.

Definition role_name (r : Role) : string := match r with RoleA => "A" | RoleB => "B" end.
Definition other (r : Role) : Role := match r with RoleA => RoleB | RoleB => RoleA end.

(** [pake_start role code id_a id_b random]: the state and the message to the other *)
Class Pake := {
  pake : Type;
  pake_start : Role -> string -> string -> string -> string -> pake * string;
  pake_finish : pake -> string -> option string;
  hkdf : string -> string -> string;
  hmac : string -> string -> string }.

(** With one code and the same identities, both come to the same key. *)
Class PakeLaws `{Pake} : Prop :=
  pake_agrees code a b ra rb :
    let '(pa, ma) := pake_start RoleA code a b ra in
    let '(pb, mb) := pake_start RoleB code a b rb in
    exists key, pake_finish pa mb = Some key /\ pake_finish pb ma = Some key.

(** ** Offers *)

Definition OFFER_LIFETIME : Z := (300 * 1000000000)%Z.
Definition ATTEMPTS : N := 3.

Record Offer := mkOffer { of_code : string; of_session : string; of_expires : Z; of_attempts : N; of_used : bool }.

(** [{number:06}] *)
Fixpoint zeros (n : nat) : string := match n with O => "" | S n => String "0" (zeros n) end.
Definition pad6 (n : N) : string := zeros (6 - String.length (pretty n)) +:+ pretty n.

Definition le_u32 (bytes : list ascii) : N := foldr (fun a n => N_of_ascii a + 256 * n) 0 (take 4 bytes).

Definition offer_new (now : Z) (bytes : list ascii) : Offer :=
  mkOffer (pad6 (le_u32 bytes mod 1000000)) (hex_of (String.string_of_list_ascii (drop 4 bytes))) (now + OFFER_LIFETIME) 0 false.
Definition offer_for_phone (now : Z) (bytes : list ascii) : Offer :=
  mkOffer (hex_of (String.string_of_list_ascii (take 16 bytes))) (hex_of (String.string_of_list_ascii (drop 16 bytes))) (now + OFFER_LIFETIME) 0 false.

Definition begin (now : Z) (o : Offer) : outcome Refused unit * Offer :=
  if of_used o then (refused "code_used", o)
  else if (of_expires o <=? now)%Z then (refused "code_expired", o)
  else if ATTEMPTS <=? of_attempts o then (refused "rate_limited", o)
  else (Good tt, mkOffer (of_code o) (of_session o) (of_expires o) (of_attempts o + 1) (of_used o)).

(** ** Parties *)

Definition hello_a (descriptor anchor : Value) : Value := obj [("domain", JString DOMAIN); ("device", descriptor); ("anchor", anchor)].
Definition hello_b (descriptor : Value) (session : string) : Value := obj [("domain", JString DOMAIN); ("device", descriptor); ("session", JString session)].

(** Every byte is looked at. *)
Definition same_text (a b : string) : bool :=
  (String.length a =? String.length b)%nat &&
  (foldl (fun d xy => N.lor d (N.lxor (N_of_ascii (fst xy)) (N_of_ascii (snd xy)))) 0 (zip (string_bytes a) (string_bytes b)) =? 0).

Section Party.
Context {crypto : Crypto} {order : HashOrder} {pakes : Pake}.

Definition derive (shared label : string) : string := hkdf shared (DOMAIN +:+ "/pairing/" +:+ label).
Definition tag (shared label message : string) : string := hex_of (hmac (derive shared label) message).

Record Party := mkParty {
  pt_role : Role;
  pt_hello_a : Value;
  pt_hello_b : Value;
  pt_pake : option pake;
  pt_outbound : string;
  pt_shared : string;
  pt_transcript : string }.

Definition party_new (role : Role) (code : string) (ha hb : Value) (random : string) : Party :=
  let '(p, outbound) := pake_start role code (canonical ha) (canonical hb) random in
  mkParty role ha hb (Some p) outbound "" "".

(** What both said and sent *)
Definition transcript (ha hb : Value) (message_a message_b : string) : string :=
  canonical (obj [("domain", JString DOMAIN); ("a", ha); ("b", hb); ("message_a", JString message_a); ("message_b", JString message_b)]).

Definition party_finish (p : Party) (secret : Secret) (incoming : string) : outcome Refused Value * Party :=
  let taken := mkParty (pt_role p) (pt_hello_a p) (pt_hello_b p) None (pt_outbound p) (pt_shared p) (pt_transcript p) in
  match pt_pake p with
  | None => (refused "bad_pake_message", taken)
  | Some state =>
    match pake_finish state incoming with
    | None => (refused "bad_pake_message", taken)
    | Some shared =>
      let '(a, b) := match pt_role p with RoleA => (hex_of (pt_outbound p), hex_of incoming) | RoleB => (hex_of incoming, hex_of (pt_outbound p)) end in
      let text := transcript (pt_hello_a p) (pt_hello_b p) a b in
      (Good (obj [("mac", JString (tag shared ("confirm-" +:+ role_name (pt_role p)) text)); ("signature", JString (sign secret text))]),
       mkParty (pt_role p) (pt_hello_a p) (pt_hello_b p) None (pt_outbound p) shared text)
    end
  end.

Definition hello_of (p : Party) (r : Role) : Value := match r with RoleB => pt_hello_b p | RoleA => pt_hello_a p end.

Definition confirm (p : Party) (proof : Value) : outcome Refused unit :=
  let from := other (pt_role p) in
  let expected := tag (pt_shared p) ("confirm-" +:+ role_name from) (pt_transcript p) in
  if negb (same_text (str_at proof "mac") expected) then refused "pake_confirmation_failed"
  else verify (str_at (idx (hello_of p from) "device") "key") (str_at proof "signature") (pt_transcript p).

Definition seal (p : Party) (payload : Value) : Value :=
  obj [("payload", payload); ("mac", JString (tag (pt_shared p) "handoff" (canonical payload)))].

(** A log that does not settle, and one whose view panics, are a [Crash]. *)
Definition open (p : Party) (wire : Value) (own_key : string) : outcome Refused Log :=
  if negb (same_text (str_at wire "mac") (tag (pt_shared p) "handoff" (canonical (idx wire "payload")))) then refused "handoff_tampered"
  else
    let anchor := idx (pt_hello_a p) "anchor" in
    if negb (value_eq (idx (idx wire "payload") "anchor") anchor) then refused "wrong_log"
    else match sync (log_new anchor) (idx wire "payload") with
         | Some (Good _, log) =>
           let* view := no_panic (log_view log) in
           if negb (bool_decide (str_at (idx (pt_hello_a p) "device") "key" ∈ trusted view)) || negb (bool_decide (own_key ∈ trusted view))
           then refused "untrusted_endpoint" else Good log
         | Some (Bad e, _) => Bad e
         | _ => Crash
         end.
End Party.

Definition pake_hex (bytes : string) : string := hex_of bytes.
Definition pake_bytes (value : Value) : outcome Refused string := good_or (t ← as_str value; unhex t) (mkRefused "bad_pake_message").

(** ** Offers are few, short and used once *)

Inductive OfferEvent := Begin (now : Z) | Use.

Fixpoint offer_run (o : Offer) (events : list OfferEvent) : list bool * Offer :=
  match events with
  | [] => ([], o)
  | Begin now :: events =>
    let '(r, o) := begin now o in
    let '(rs, o) := offer_run o events in
    (match r with Good _ => true | _ => false end :: rs, o)
  | Use :: events =>
    let '(rs, o) := offer_run (mkOffer (of_code o) (of_session o) (of_expires o) (of_attempts o) true) events in (false :: rs, o)
  end.

Definition begun (rs : list bool) : N := N.of_nat (length (retain id rs)).

Lemma offer_run_spec o events :
  let rs := fst (offer_run o events) in
  length rs = length events /\ (begun rs <= ATTEMPTS - of_attempts o) /\ (of_used o = true -> begun rs = 0) /\
  (forall i, rs !! i = Some true -> exists now, events !! i = Some (Begin now) /\ (now < of_expires o)%Z /\ forall j, (j < i)%nat -> events !! j ≠ Some Use).
Proof.
  revert o. induction events as [|[now|] events IH]; intros o; cbn [offer_run]; [split_and!; [done|unfold begun; simpl; lia|done|done]|..].
  - unfold begin. destruct (of_used o) eqn:Eu; [|destruct (of_expires o <=? now)%Z eqn:Ee; [|destruct (ATTEMPTS <=? of_attempts o) eqn:Ea]].
    4: specialize (IH (mkOffer (of_code o) (of_session o) (of_expires o) (of_attempts o + 1) false)).
    1-3: specialize (IH o).
    all: destruct (offer_run _ events) as [rs o'] eqn:Er; cbn [fst length] in *; destruct IH as (H1 & H2 & H3 & H4).
    1-3: (split_and!; [by rewrite H1|exact H2|first [done|intros _; by apply H3]|]); intros [|i] Hi; [done|]; destruct (H4 i Hi) as (t & Ht & Hlt & Hj); exists t; (split_and!; [done|done|]);
      intros [|j] Hji; [done|]; apply Hj; lia.
    apply N.leb_gt in Ea. apply Z.leb_gt in Ee. split_and!; [by rewrite H1| |done|].
    + unfold begun in *. cbn [of_attempts] in H2. simpl. lia.
    + intros [|i] Hi; [exists now; split_and!; [done|done|intros j Hj; lia]|]. destruct (H4 i Hi) as (t & Ht & Hlt & Hj). exists t. split_and!; [done|done|].
      intros [|j] Hji; [done|]. apply Hj. lia.
  - specialize (IH (mkOffer (of_code o) (of_session o) (of_expires o) (of_attempts o) true)). destruct (offer_run _ events) as [rs o'] eqn:Er. cbn [fst length] in *.
    destruct IH as (H1 & H2 & H3 & H4). specialize (H3 eq_refl). split_and!; [by rewrite H1|exact H2|done|].
    intros [|i] Hi; [done|]. exfalso. unfold begun in H3. assert (true ∈ retain id rs) as Hin by (apply elem_of_retain; split; [done|]; by eapply list_elem_of_lookup_2).
    destruct (retain id rs); [by apply elem_of_nil in Hin|done].
Qed.

(** A code lets at most three attempts begin, whatever is tried and whenever: each begins before the
    offer expires, 300 seconds after it was made, and none after the code was used. *)
Theorem offer_limits now bytes events :
  let rs := fst (offer_run (offer_new now bytes) events) in
  begun rs <= 3 /\
  forall i, rs !! i = Some true -> exists t, events !! i = Some (Begin t) /\ (t < now + OFFER_LIFETIME)%Z /\ forall j, (j < i)%nat -> events !! j ≠ Some Use.
Proof. destruct (offer_run_spec (offer_new now bytes) events) as (_ & H2 & _ & H4). by split. Qed.

(** ** The comparison that looks at every byte *)

Lemma lor_fold_zero d l : foldl (fun d (xy : ascii * ascii) => N.lor d (N.lxor (N_of_ascii (fst xy)) (N_of_ascii (snd xy)))) d l = 0 <-> d = 0 /\ Forall (fun xy => fst xy = snd xy) l.
Proof.
  revert d. induction l as [|[x y] l IH]; intros d; cbn [foldl]; [split; [by intros ->|by intros [-> _]]|]. rewrite IH, N.lor_eq_0_iff, N.lxor_eq_0_iff, Forall_cons.
  cbn [fst snd]. split; [|naive_solver]. intros [[-> E] Hl]. split_and!; [done| |done]. by rewrite <- (ascii_N_embedding x), E, ascii_N_embedding.
Qed.

Lemma same_text_exact a b : same_text a b = true <-> a = b.
Proof.
  unfold same_text. rewrite andb_true_iff, Nat.eqb_eq, N.eqb_eq, lor_fold_zero. split.
  - revert b. induction a as [|x a IH]; intros [|y b]; cbn [String.length string_bytes zip zip_with]; [done| | |]; try (by intros [? _]).
    intros [[= Hl] [_ [Hxy Hr]%Forall_cons]]. simpl in Hxy. subst y. f_equal. by apply IH.
  - intros <-. split_and!; [done|done|]. induction a as [|x a IH]; cbn; by constructor.
Qed.

Section Agree.
Context `{CryptoLaws} `{PakeLaws} {order : HashOrder}.

(** What a settled log exports, a new log takes, and comes to the same. *)
Lemma handed_over `{!HashLaw order} phone goal :
  log_ok goal -> ready goal = [] -> roles_agree phone (lg_anchor goal) (entries goal) -> value_eq (lg_anchor goal) (lg_anchor goal) = true ->
  exists n, sync (log_new (lg_anchor goal)) (export goal) = Some (Good n, goal).
Proof.
  intros Hok Hset Hroles Heq. unfold sync. change (idx (export goal) "anchor") with (lg_anchor goal). cbn [lg_anchor log_new]. rewrite Heq. cbn [negb].
  change (default [] (as_array (idx (export goal) "entries"))) with (entries goal).
  assert (towards goal (log_new (lg_anchor goal))) as Ht by (split; [apply log_new_ok|done|apply map_subseteq_spec; intros id e; by rewrite known_new]).
  destruct (merge_good order phone goal Hok Hset Hroles (log_new (lg_anchor goal)) (entries goal) Ht) as (n & l' & E & Hm & Ht').
  { intros e [id Hid]%elem_of_entries; [|done]. by destruct (lo_checked _ Hok _ _ Hid) as [<- _]. }
  exists n. rewrite E. do 2 f_equal. apply settled_eq; [apply Ht'|done|apply Hm|done|apply Ht'|].
  apply map_eq. intros id. apply option_eq. intros e. split; [intros Hl; by eapply lookup_weaken; [|apply (to_known _ _ Ht')]|]. intros Hid.
  destruct (lo_checked _ Hok _ _ Hid) as [-> _]. destruct (me_taken _ _ _ Hm e) as [e' He']; [apply elem_of_entries; [done|]; by eexists|].
  pose proof (lookup_weaken _ _ _ _ He' (to_known _ _ Ht')) as He''. congruence.
Qed.

(** C40 Two machines with one code that hear each other, each with its own key in what it says of
    itself, pair: both finish, each confirms the proof of the other, and the log that the first
    seals is the log that the second opens.  The first has come by its log through its own
    operations, with no entry left that could be taken; the log trusts both keys; its anchor is
    equal to itself; and its additions of a key agree on whether it is a phone, since otherwise
    the order in which the second machine visits its sets may decide whether it takes them. *)
Theorem pairing_agrees `{!HashLaw order} phone code da db session sa sb ra rb log v :
  str_at da "key" = public sa -> str_at db "key" = public sb ->
  reached log -> ready log = [] -> roles_agree phone (lg_anchor log) (entries log) -> value_eq (lg_anchor log) (lg_anchor log) = true ->
  log_view log = Some v -> public sa ∈ trusted v -> public sb ∈ trusted v ->
  let ha := hello_a da (lg_anchor log) in let hb := hello_b db session in
  let a := party_new RoleA code ha hb ra in let b := party_new RoleB code ha hb rb in
  exists proof_a a' proof_b b',
    party_finish a sa (pt_outbound b) = (Good proof_a, a') /\ party_finish b sb (pt_outbound a) = (Good proof_b, b') /\
    confirm a' proof_b = Good tt /\ confirm b' proof_a = Good tt /\ open b' (seal a' (export log)) (public sb) = Good log.
Proof.
  intros Ha Hb Hlog%reached_ok Hset Hroles Heq Hv Hta Htb. cbn zeta. set (ha := hello_a da (lg_anchor log)). set (hb := hello_b db session).
  pose proof (pake_agrees code (canonical ha) (canonical hb) ra rb) as Hagree. unfold party_new.
  destruct (pake_start RoleA code _ _ ra) as [pa ma]. destruct (pake_start RoleB code _ _ rb) as [pb mb]. destruct Hagree as (key & Hka & Hkb).
  unfold party_finish. cbn [pt_pake pt_role pt_outbound pt_hello_a pt_hello_b]. rewrite Hka, Hkb.
  eexists _, _, _, _. split; [reflexivity|]. split; [reflexivity|]. set (text := transcript ha hb _ _). split_and!.
  - unfold confirm. cbn [pt_role other pt_shared pt_transcript hello_of pt_hello_b]. change (str_at (obj _) "mac") with (tag key ("confirm-" +:+ role_name RoleB) text).
    rewrite (proj2 (same_text_exact _ _)) by done. cbn [negb]. change (idx hb "device") with db. rewrite Hb.
    change (str_at (obj _) "signature") with (sign sb text). apply verify_sign.
  - unfold confirm. cbn [pt_role other pt_shared pt_transcript hello_of pt_hello_a]. change (str_at (obj _) "mac") with (tag key ("confirm-" +:+ role_name RoleA) text).
    rewrite (proj2 (same_text_exact _ _)) by done. cbn [negb]. change (idx ha "device") with da. rewrite Ha.
    change (str_at (obj _) "signature") with (sign sa text). apply verify_sign.
  - unfold open, seal. cbn [pt_shared pt_hello_a]. change (idx (obj [("payload", export log); _]) "payload") with (export log).
    change (str_at (obj _) "mac") with (tag key "handoff" (canonical (export log))). rewrite (proj2 (same_text_exact _ _)) by done. cbn [negb].
    change (idx ha "anchor") with (lg_anchor log). change (idx (export log) "anchor") with (lg_anchor log). rewrite Heq. cbn [negb].
    destruct (handed_over phone log Hlog Hset Hroles Heq) as [n ->]. rewrite Hv. cbn [no_panic outcome_bind]. change (idx ha "device") with da. rewrite Ha.
    by rewrite !bool_decide_eq_true_2.
Qed.

(** A log that is opened was sealed with the key that was agreed on: its payload has the tag of that
    key, it is a log of the anchor the other showed, made of entries that were all allowed, and
    it trusts both the other machine and this one. *)
Theorem opened_sound `{!HashLaw order} p wire own log :
  open p wire own = Good log ->
  str_at wire "mac" = tag (pt_shared p) "handoff" (canonical (idx wire "payload")) /\
  lg_anchor log = idx (pt_hello_a p) "anchor" /\ reached log /\
  exists v, log_view log = Some v /\ str_at (idx (pt_hello_a p) "device") "key" ∈ trusted v /\ own ∈ trusted v.
Proof.
  unfold open. destruct (same_text _ _) eqn:Es; cbn [negb]; [|done]. apply same_text_exact in Es. destruct (value_eq _ _) eqn:Ee; cbn [negb]; [|done].
  set (anchor := idx (pt_hello_a p) "anchor") in *. unfold sync. destruct (negb _); [done|]. set (es := default [] _).
  destruct (merge (log_new anchor) es) as [[[n|e|] l]|] eqn:Em; [|done..]. destruct (log_view l) as [v|] eqn:Ev; cbn [no_panic outcome_bind]; [|done].
  destruct (_ || _) eqn:Et; [done|]. intros [= <-]. apply orb_false_iff in Et as [Hx%negb_false_iff%bool_decide_eq_true Hy%negb_false_iff%bool_decide_eq_true].
  split_and!; [done| | |by exists v].
  - destruct (later_spec (log_new anchor) l (log_new_ok anchor)) as (_ & Ha & _); [|exact Ha]. by eapply later_merge; [..|exact Em]; [|apply later_same].
  - by eapply reached_merge; [..|exact Em]; [|apply reached_new].
Qed.
End Agree.

(** ** At the sample *)

Import Sample.

(** Not cryptography: the key is what both were given. *)
Definition toy_pake : Pake := {|
  pake := string;
  pake_start role code a b random := (code +:+ a +:+ b, role_name role +:+ random);
  pake_finish state message := Some (bytes_le 8 (checksum state));
  hkdf shared label := shared +:+ label;
  hmac key message := bytes_le 8 (checksum (key +:+ message)) |}.

Lemma toy_laws : PakeLaws (H := toy_pake).
Proof. intros code a b ra rb. by eexists. Qed.

Lemma log3_roles : roles_agree no_phone (lg_anchor log3) (entries log3).
Proof.
  split; [vm_compute; reflexivity|]. assert (entries log3 = [e2; e3; e1]) as Hp by (vm_compute; reflexivity).
  intros e He. rewrite Hp, !elem_of_cons, elem_of_nil in He. destruct He as [->|[->|[->|[]]]]; vm_compute; done.
Qed.

Definition device_b : Value := descriptor "b" "linux-vm".
Definition party_a : Party (pakes := toy_pake) := party_new (pakes := toy_pake) RoleA "123456" (hello_a mbp (lg_anchor log3)) (hello_b device_b "s") "x".
Definition party_b : Party (pakes := toy_pake) := party_new (pakes := toy_pake) RoleB "123456" (hello_a mbp (lg_anchor log3)) (hello_b device_b "s") "y".

Lemma pairing_agrees_witness :
  exists proof a' b', party_finish (pakes := toy_pake) party_a ("a"%char : @Secret crypto) (pt_outbound party_b) = (Good proof, a') /\
    open (order := forwards) (pakes := toy_pake) b' (Pair.seal (pakes := toy_pake) a' (export log3)) key_b = Good log3.
Proof.
  destruct (pairing_agrees (H := crypto) (H1 := toy_pake) (H2 := toy_laws) (order := forwards) no_phone "123456" mbp device_b "s" ("a"%char : @Secret crypto) ("b"%char : @Secret crypto) "x" "y" log3 view3)
    as (proof & a' & ? & b' & Hf & _ & _ & _ & Ho); [reflexivity|reflexivity|exact log3_reached|vm_compute; reflexivity|exact log3_roles|vm_compute; reflexivity|exact log3_view|..].
  - apply has_true. vm_compute. reflexivity.
  - apply has_true. vm_compute. reflexivity.
  - exists proof, a', b'. split; [exact Hf|exact Ho].
Defined.

Definition opener : Party (pakes := toy_pake) := mkParty (pakes := toy_pake) RoleB (hello_a mbp (lg_anchor log3)) (hello_b device_b "s") None "" "k" "".

Lemma opened_sound_witness : exists v, log_view log3 = Some v /\ key_a ∈ trusted v /\ key_b ∈ trusted v.
Proof.
  destruct (opened_sound (H := crypto) (H1 := toy_pake) (order := forwards) opener (Pair.seal (pakes := toy_pake) opener (export log3)) key_b log3) as (_ & _ & _ & H);
    [vm_compute; reflexivity|exact H].
Defined.
