(* ===== verification/Replica.v ===== *)
(** * The replicated Shelf: [crates/kanna-daemon/src/replica.rs]

    Each machine keeps what all of them know of their tasks: operations on the fields of a task's
    record, named by a hybrid logical clock, of which the latest wins; and, for the tasks it was
    given, its authority to start them.  A machine is its [Replica], in memory, and its [Db].
    [Fault] is how a transaction of SQLite ends; [wall] is the clock of the machine, read once
    for each operation that is made. *)

From stdpp Require Import sorting.
From S2P Require Import Prelude Text F64 Json Pipe Schedule Runs PeerLog.

#[local] Open Scope Z_scope.

Definition MAX_OPS : nat := 2000.
Definition RUN : string := "run.".

Definition i64_max : Z := 2 ^ 63 - 1.
(** [a + 1] of an [i64], which panics past the largest *)
Definition succ_i64 (a : Z) : option Z := if decide (a = i64_max) then None else Some (a + 1).

(** ** [Hlc] *)

Record Hlc := mkHlc { h_ms : Z; h_n : Z; h_device : string }.

(** [Ord for (i64, i64)] and the derived [Ord for Hlc] *)
Definition pair_le (a b : Z * Z) : bool := (a.1 <? b.1) || ((a.1 =? b.1) && (a.2 <=? b.2)).
Definition pair_max (a b : Z * Z) : Z * Z := if pair_le a b then b else a.
Definition hlc_le (a b : Hlc) : bool :=
  (h_ms a <? h_ms b) || ((h_ms a =? h_ms b) && ((h_n a <? h_n b) || ((h_n a =? h_n b) && string_le (h_device a) (h_device b)))).
Definition h_time (h : Hlc) : Z * Z := (h_ms h, h_n h).

Definition hlc_text (h : Hlc) : string := pretty (h_ms h) +:+ "." +:+ pretty (h_n h) +:+ "." +:+ h_device h.
Definition hlc_parse (text : string) : option Hlc :=
  '(first, rest) ← split_once "." text;
  ms ← parse_i64 first;
  '(second, device) ← split_once "." rest;
  n ← parse_i64 second;
  Some (mkHlc ms n device).

(** ** [Op] *)

Record Op := mkOp { op_at : Hlc; op_task : string; op_birth : string; op_field : string; op_value : Value }.

Definition op_to_value (o : Op) : Value :=
  obj [("device", JString (h_device (op_at o))); ("ms", from_i64 (h_ms (op_at o))); ("n", from_i64 (h_n (op_at o)));
       ("task", JString (op_task o)); ("birth", JString (op_birth o)); ("field", JString (op_field o)); ("value", op_value o)].

(** A text that is there and not empty *)
Definition some_text (value : Value) (key : string) : option string :=
  s ← string_of value key; if str_is_empty s then None else Some s.

Definition op_from_value (value : Value) : option Op :=
  ms ← (v ← get value "ms"; value_as_i64 v);
  n ← (v ← get value "n"; value_as_i64 v);
  device ← some_text value "device";
  task ← some_text value "task";
  birth ← some_text value "birth";
  field ← some_text value "field";
  Some (mkOp (mkHlc ms n device) task birth field (default JNull (get value "value"))).

Definition ops_of (value : Value) : list Op := match as_array value with Some ops => omap op_from_value ops | None => [] end.
Definition ops_value (ops : list Op) : Value := JArray (map op_to_value ops).

(** ** [Record] *)

Record Rec := mkRec { rc_task : string; rc_birth : string; rc_fields : gmap string (Hlc * Value) }.

Definition rec_default : Rec := mkRec "" "" ∅.
Definition rec_get (r : Rec) (field : string) : Value := match rc_fields r !! field with Some (_, value) => value | None => JNull end.
Definition rec_text (r : Rec) (field : string) : option string :=
  s ← as_str (rec_get r field); if str_is_empty s then None else Some s.
Definition rec_list (r : Rec) (field : string) : list string :=
  match as_array (rec_get r field) with Some items => omap as_str items | None => [] end.
Definition rec_runs (r : Rec) : list string := omap (strip_prefix RUN) (sorted_keys (rc_fields r)).
Definition keys_after (r : Rec) (prefix : string) : list string :=
  omap (strip_prefix prefix) (retain (fun field => negb (is_null (rec_get r field))) (sorted_keys (rc_fields r))).
Definition rec_born (r : Rec) : Hlc := default (mkHlc 0 0 (rc_birth r)) (hlc_parse (rc_birth r)).
Definition rec_to_value (r : Rec) : Value :=
  JObject (foldl (fun m field => map_insert m field (rec_get r field)) [("task", JString (rc_task r)); ("birth", JString (rc_birth r))] (sorted_keys (rc_fields r))).

Definition rec_see (r : Rec) (o : Op) : bool * Rec :=
  match rc_fields r !! op_field o with
  | Some (at_, _) => if hlc_le (op_at o) at_ then (false, r) else (true, mkRec (rc_task r) (rc_birth r) (<[op_field o := (op_at o, op_value o)]> (rc_fields r)))
  | None => (true, mkRec (rc_task r) (rc_birth r) (<[op_field o := (op_at o, op_value o)]> (rc_fields r)))
  end.

(** ** [Permit], [Authority], [Grant] and [Roster] *)

Inductive Permit := PReady | PRunning | PSent | PAcked.
Definition permit_as_str (p : Permit) : string :=
  match p with PReady => "ready" | PRunning => "running" | PSent => "sent" | PAcked => "acked" end.
Definition permit_parse (text : string) : Permit :=
  if decide (text = "ready") then PReady else if decide (text = "running") then PRunning else if decide (text = "sent") then PSent else PAcked.

Record Authority := mkAuthority { au_epoch : Z; au_permit : Permit; au_to : option string }.
Record Grant := mkGrant { gr_task : string; gr_birth : string; gr_epoch : Z; gr_to : string }.
Record Peer := mkPeer { peer_key : string; peer_name : string }.
Record Roster := mkRoster { ro_me : Peer; ro_peers : list Peer }.

Definition name_of (r : Roster) (key : string) : string :=
  match List.find (fun p => bool_decide (peer_key p = key)) (ro_me r :: ro_peers r) with
  | Some p => peer_name p
  | None => of_chars (take 10 (chars key))
  end.

Definition authority_value (a : Authority) : Map :=
  [("epoch", from_i64 (au_epoch a)); ("permit", JString (permit_as_str (au_permit a))); ("to", opt (au_to a))].

(** ** The tables of kanna.db *)

(** A row of [record_ops], whose key is [(device, ms, n)] *)
Record OpRow := mkOpRow { or_task : string; or_birth : string; or_field : string; or_value : string }.
(** A row of [authority], whose key is [(task, birth)] *)
Record AuthRow := mkAuthRow { ar_epoch : Z; ar_permit : string; ar_recipient : option string }.
(** The tables, and [hlc] of the table [meta] *)
Record Db := mkDb { db_ops : gmap (string * (Z * Z)) OpRow; db_hlc : option string; db_authority : gmap (string * string) AuthRow }.

Definition db_new : Db := mkDb ∅ None ∅.

(** JSON as it is kept in the database: [Value::to_string] and [serde_json::from_str] *)
Class JsonText := { to_text : Value -> string; from_text : string -> option Value }.

(** How a transaction ends: it commits, it does not begin, or it is rolled back after what it did *)
Inductive Fault := Fine | Before (why : string) | Within (why : string).

(** [serde_json::from_value::<(i64, i64)>] *)
Definition pair_of (value : Value) : option (Z * Z) :=
  match value with JArray [a; b] => x ← value_as_i64 a; y ← value_as_i64 b; Some (x, y) | _ => None end.
Definition pair_value (p : Z * Z) : Value := JArray [from_i64 p.1; from_i64 p.2].

Section Tables.
Context `{JsonText}.

Definition op_row (row : (string * (Z * Z)) * OpRow) : Op :=
  let '((device, (ms, n)), r) := row in
  mkOp (mkHlc ms n device) (or_task r) (or_birth r) (or_field r) (default JNull (from_text (or_value r))).

Definition op_key (o : Op) : string * (Z * Z) := (h_device (op_at o), h_time (op_at o)).
Definition row_of (o : Op) : OpRow := mkOpRow (op_task o) (op_birth o) (op_field o) (to_text (op_value o)).

(** [insert or ignore into record_ops]: how many rows it adds *)
Definition insert_op (o : Op) (db : Db) : nat * Db :=
  match db_ops db !! op_key o with
  | Some _ => (0%nat, db)
  | None => (1%nat, mkDb (<[op_key o := row_of o]> (db_ops db)) (db_hlc db) (db_authority db))
  end.

Definition set_hlc (clock : Z * Z) (db : Db) : Db := mkDb (db_ops db) (Some (to_text (pair_value clock))) (db_authority db).

Definition authority (db : Db) (task birth : string) : option Authority :=
  (fun r => mkAuthority (ar_epoch r) (permit_parse (ar_permit r)) (ar_recipient r)) <$> db_authority db !! (task, birth).
Definition set_authority (task birth : string) (held : Authority) (db : Db) : Db :=
  mkDb (db_ops db) (db_hlc db) (<[(task, birth) := mkAuthRow (au_epoch held) (permit_as_str (au_permit held)) (au_to held)]> (db_authority db)).
End Tables.

(** ** [Replica] *)

Record Replica := mkReplica {
  rp_me : string;
  rp_clock : Z * Z;
  rp_seen : gmap string (Z * Z);
  rp_records : gmap (string * string) Rec }.

Definition replica_empty : Replica := mkReplica "" (0, 0) ∅ ∅.
Definition set_device (device : string) (r : Replica) : Replica := mkReplica device (rp_clock r) (rp_seen r) (rp_records r).
Definition set_clock (clock : Z * Z) (r : Replica) : Replica := mkReplica (rp_me r) clock (rp_seen r) (rp_records r).

Definition tick (wall : Z) (r : Replica) : option (Hlc * Replica) :=
  let ms := Z.max wall (rp_clock r).1 in
  n ← (if decide (ms = (rp_clock r).1) then succ_i64 (rp_clock r).2 else Some 0);
  Some (mkHlc ms n (rp_me r), set_clock (ms, n) r).

Definition project (o : Op) (r : Replica) : bool * Replica :=
  let time := h_time (op_at o) in
  let seen := pair_max (default time (rp_seen r !! h_device (op_at o))) time in
  let record := default (mkRec (op_task o) (op_birth o) ∅) (rp_records r !! (op_task o, op_birth o)) in
  let '(fresh, record) := rec_see record o in
  (fresh, mkReplica (rp_me r) (pair_max (rp_clock r) time) (<[h_device (op_at o) := seen]> (rp_seen r)) (<[(op_task o, op_birth o) := record]> (rp_records r))).

Fixpoint applied (ops : list Op) (r : Replica) : nat * Replica :=
  match ops with
  | [] => (0%nat, r)
  | o :: ops =>
    let '(fresh, r) := project o r in
    let '(n, r) := applied ops r in
    ((if fresh then S n else n), r)
  end.

Definition record_of (r : Replica) (task birth : string) : option Rec := rp_records r !! (task, birth).
(** The records of a task, in the order of their births *)
Definition births (r : Replica) (task : string) : list Rec :=
  omap (fun birth => rp_records r !! (task, birth)) (sort_strings (map snd (retain (fun k => bool_decide (k.1 = task)) (map fst (map_to_list (rp_records r)))))).
Definition open_task (r : Replica) (task : string) : bool :=
  existsb (fun record => match rec_text record "state" with Some s => negb (bool_decide (s = "done")) | None => false end) (births r task).

(** The fields whose values change *)
Definition moves (current : Rec) (field : string * Value) : bool :=
  match rc_fields current !! field.1 with Some (_, v) => negb (value_eq v field.2) | None => true end.

(** The wall clock is read for each operation, here by how many are left to make. *)
Fixpoint stage_go (wall : nat -> Z) (task birth : string) (fields : list (string * Value)) (r : Replica) : option (list Op * Replica) :=
  match fields with
  | [] => Some ([], r)
  | (field, value) :: fields =>
    '(at_, r) ← tick (wall (length fields)) r;
    '(ops, r) ← stage_go wall task birth fields r;
    Some (mkOp at_ task birth field value :: ops, r)
  end.
Definition stage (wall : nat -> Z) (task birth : string) (fields : list (string * Value)) (r : Replica) : option (list Op * Replica) :=
  let current := default rec_default (record_of r task birth) in
  stage_go wall task birth (retain (moves current) fields) r.

(** [Replica::open], [Replica::commit] and [ops_after] over the tables *)
Section Store.
Context `{JsonText} {order : HashOrder}.

Definition db_op_list (db : Db) : list Op := map op_row (map_to_list (db_ops db)).

Definition replica_open (db : Db) : Replica :=
  let clock := default (0, 0) (text ← db_hlc db; v ← from_text text; pair_of v) in
  (applied (db_op_list db) (set_clock clock replica_empty)).2.

Fixpoint insert_ops (ops : list Op) (db : Db) : nat * Db :=
  match ops with
  | [] => (0%nat, db)
  | o :: ops => let '(n, db) := insert_op o db in let '(m, db) := insert_ops ops db in ((n + m)%nat, db)
  end.
Definition commit (ops : list Op) (r : Replica) (db : Db) : nat * Db :=
  let '(added, db) := insert_ops ops db in (added, set_hlc (rp_clock r) db).

Definition op_le (a b : Op) : Prop := hlc_le (op_at a) (op_at b) = true.
#[global] Instance op_le_dec a b : Decision (op_le a b) := decide (_ = true).
Definition sorted_ops : list Op -> list Op := merge_sort op_le.

(** [Value::Object] of a [HashMap], in the order in which it is visited *)
Definition vector (r : Replica) : Value :=
  JObject (omap (fun device => (fun p => (device, pair_value p)) <$> rp_seen r !! device) (hash_iter (dom (rp_seen r)))).

(** Where the other machine has got to with a device; [(i64::MIN, i64::MIN)] with one it has not seen *)
Definition known_of (vector : Value) (device : string) : Z * Z :=
  default (- 2 ^ 63, - 2 ^ 63) (v ← get vector device; pair_of v).
(** [select .. where device = ?1 and (ms > ?2 or (ms = ?2 and n > ?3)) order by ms, n] *)
Definition device_ops (db : Db) (device : string) (after : Z * Z) : list Op :=
  sorted_ops (retain (fun o => bool_decide (h_device (op_at o) = device) && negb (pair_le (h_time (op_at o)) after)) (db_op_list db)).

Fixpoint ops_after_go (db : Db) (vector : Value) (devices : list string) (out : list Op) : list Op :=
  match devices with
  | [] => out
  | device :: devices =>
    let out := out ++ take (MAX_OPS - length out) (device_ops db device (known_of vector device)) in
    if decide (MAX_OPS <= length out)%nat then out else ops_after_go db vector devices out
  end.
Definition ops_after (r : Replica) (db : Db) (vector : Value) : list Op := ops_after_go db vector (hash_iter (dom (rp_seen r))) [].
End Store.

(** ** Operations that save *)

(** An operation ends with a value, an error or a panic, and leaves the machine *)
Definition Machine : Type := Replica * Db.
Definition saving (A : Type) : Type := Machine -> outcome string A * Machine.

Section Saving.
Context `{JsonText}.

(** Commits operations that were staged, and projects them *)
Definition keep_ops (fault : Fault) (ops : list Op) (also : Db -> Db) (r : Replica) (db : Db) : outcome string nat * Machine :=
  match fault with
  | Fine => (Good (applied ops r).1, ((applied ops r).2, (commit ops r (also db)).2))
  | Before why | Within why => (Bad why, (r, db))
  end.

Definition write (wall : nat -> Z) (fault : Fault) (task birth : string) (fields : list (string * Value)) : saving nat := fun '(r, db) =>
  match stage wall task birth fields r with
  | None => (Crash, (r, db))
  | Some ([], r) => (Good 0%nat, (r, db))
  | Some (ops, r) => keep_ops fault ops id r db
  end.

Definition seen_clock (ops : list Op) (clock : Z * Z) : Z * Z := foldl (fun c o => pair_max c (h_time (op_at o))) clock ops.

Definition apply_ops (fault : Fault) (ops : list Op) : saving nat := fun '(r, db) =>
  let sorted := sorted_ops ops in
  let moved := set_clock (seen_clock sorted (rp_clock r)) r in
  match fault with
  | Fine => let '(added, db) := commit sorted moved db in (Good added, ((applied sorted moved).2, db))
  | Before why => (Bad why, (r, db))
  | Within why => (Bad why, (moved, db))
  end.

(** A transaction that only writes the table [authority] *)
Definition keep_authority (fault : Fault) (task birth : string) (held : Authority) : saving unit := fun '(r, db) =>
  match fault with
  | Fine => (Good tt, (r, set_authority task birth held db))
  | Before why | Within why => (Bad why, (r, db))
  end.

Definition hold (fault : Fault) (task birth : string) (permit : Permit) : saving unit := fun '(r, db) =>
  keep_authority fault task birth (mkAuthority (match authority db task birth with Some a => au_epoch a | None => 0 end) permit None) (r, db).

(** [first] is how the transaction that reads ends *)
Definition start (first fault : Fault) (task birth : string) : saving unit := fun '(r, db) =>
  match first with
  | Before why | Within why => (Bad why, (r, db))
  | Fine =>
    match authority db task birth with
    | Some (mkAuthority _ PReady _) => hold fault task birth PRunning (r, db)
    | Some (mkAuthority _ PRunning _) => (Good tt, (r, db))
    | Some (mkAuthority _ _ to) => (Bad ("it was given to " +:+ default "another machine" to), (r, db))
    | None => (Bad "this machine was never given it", (r, db))
    end
  end.

(** The end of [grant], [hand], [reclaim], [take] and [receive]: the owner is written, and the authority with it *)
Definition own (wall : nat -> Z) (fault : Fault) (task birth : string) (fields : list (string * Value)) (held : Authority) : saving unit := fun '(r, db) =>
  match stage wall task birth fields r with
  | None => (Crash, (r, db))
  | Some (ops, r) =>
    let '(result, m) := keep_ops fault ops (set_authority task birth held) r db in
    (outcome_bind result (fun _ => Good tt), m)
  end.

Definition grant (wall : nat -> Z) (first fault : Fault) (task birth to : string) : saving Grant := fun '(r, db) =>
  match first with
  | Before why | Within why => (Bad why, (r, db))
  | Fine =>
    match authority db task birth with
    | Some (mkAuthority epoch PReady _) =>
      match succ_i64 epoch with
      | None => (Crash, (r, db))
      | Some epoch =>
        let '(result, m) := own wall fault task birth [("owner", JString to)] (mkAuthority epoch PSent (Some to)) (r, db) in
        (outcome_bind result (fun _ => Good (mkGrant task birth epoch to)), m)
      end
    | Some (mkAuthority _ PRunning _) => (Bad "started", (r, db))
    | Some (mkAuthority _ _ to) => (Bad ("given to " +:+ default "" to), (r, db))
    | None => (Bad "not_owner", (r, db))
    end
  end.

Definition hand (wall : nat -> Z) (first fault : Fault) (task birth to : string) : saving Z := fun '(r, db) =>
  match first with
  | Before why | Within why => (Bad why, (r, db))
  | Fine =>
    match authority db task birth with
    | Some (mkAuthority epoch (PReady | PRunning) _) =>
      match succ_i64 epoch with
      | None => (Crash, (r, db))
      | Some epoch =>
        let '(result, m) := own wall fault task birth [("owner", JString to)] (mkAuthority epoch PSent (Some to)) (r, db) in
        (outcome_bind result (fun _ => Good epoch), m)
      end
    | Some (mkAuthority _ _ to) => (Bad ("it was given to " +:+ default "another machine" to), (r, db))
    | None => (Bad "this machine was never given it", (r, db))
    end
  end.

Definition reclaim (wall : nat -> Z) (fault : Fault) (task birth : string) (epoch : Z) : saving unit := fun '(r, db) =>
  own wall fault task birth [("owner", JString (rp_me r))] (mkAuthority epoch PRunning None) (r, db).

(** [wall_at] is the time that is written, read before the operations are staged *)
Definition take_from (wall : nat -> Z) (wall_at : Z) (fault : Fault) (task birth from : string) : saving unit := fun '(r, db) =>
  match stage wall task birth [("owner", JString (rp_me r)); (RUN +:+ rp_me r, obj [("from", JString from); ("at", from_i64 wall_at)])] r with
  | None => (Crash, (r, db))
  | Some (ops, r) =>
    match fault with
    | Before why => (Bad why, (r, db))
    | Fine | Within _ =>
      match succ_i64 (match authority db task birth with Some a => au_epoch a | None => 0 end) with
      | None => (Crash, (r, db))
      | Some epoch =>
        let '(result, m) := keep_ops fault ops (set_authority task birth (mkAuthority epoch PReady None)) r db in
        (outcome_bind result (fun _ => Good tt), m)
      end
    end
  end.

Definition ran (wall : nat -> Z) (wall_at : Z) (fault : Fault) (task birth : string) : saving nat := fun '(r, db) =>
  let field := RUN +:+ rp_me r in
  if match record_of r task birth with Some record => negb (is_null (rec_get record field)) | None => false end
  then (Good 0%nat, (r, db))
  else write wall fault task birth [(field, obj [("at", from_i64 wall_at)])] (r, db).

Definition receive (wall : nat -> Z) (first fault : Fault) (task birth : string) (epoch : Z) : saving bool := fun '(r, db) =>
  match first with
  | Before why | Within why => (Bad why, (r, db))
  | Fine =>
    if match authority db task birth with Some a => epoch <=? au_epoch a | None => false end then (Good false, (r, db))
    else
      let '(result, m) := own wall fault task birth [("owner", JString (rp_me r))] (mkAuthority epoch PReady None) (r, db) in
      (outcome_bind result (fun _ => Good true), m)
  end.

Definition acked (fault : Fault) (task birth : string) (epoch : Z) : saving unit := fun '(r, db) =>
  match authority db task birth with
  | Some (mkAuthority e PSent to) =>
    if e =? epoch then keep_authority fault task birth (mkAuthority e PAcked to) (r, db)
    else (match fault with Fine => Good tt | Before why | Within why => Bad why end, (r, db))
  | _ => (match fault with Fine => Good tt | Before why | Within why => Bad why end, (r, db))
  end.

(** ** What runs inside another transaction, and what is read *)

Definition yielded (task birth to : string) (db : Db) : Db :=
  set_authority task birth (mkAuthority (match authority db task birth with Some a => au_epoch a | None => 0 end) PAcked (Some to)) db.
Definition hold_unless_held (task birth : string) (permit : Permit) (db : Db) : Db :=
  match authority db task birth with Some _ => db | None => set_authority task birth (mkAuthority 0 permit None) db end.

Definition outbox (db : Db) : list Grant :=
  omap (fun '((task, birth), r) => if decide (ar_permit r = "sent") then Some (mkGrant task birth (ar_epoch r) (default "" (ar_recipient r))) else None)
    (map_to_list (db_authority db)).
Definition held (db : Db) : list (string * string * Authority) :=
  map (fun '((task, birth), r) => (task, birth, mkAuthority (ar_epoch r) (permit_parse (ar_permit r)) (ar_recipient r))) (map_to_list (db_authority db)).
End Saving.
