(* ===== verification/ReplicaFacts.v ===== *)
(** * The replicated Shelf: what a replica keeps

    The orders of times and clocks; [projects], what a replica is of the operations it has seen;
    the table of operations; and what every operation of a machine does to them ([local_step]). *)

From Stdlib Require Import Ascii.
From stdpp Require Import sorting.
From S2P Require Import Prelude Text F64 Json Pipe PipeText Schedule ScheduleFacts Runs RunDoc PeerLog PeerMerge Utf8 Patch PatchTheorems Frame Replica.

#[local] Open Scope Z_scope.

(** ** Orders *)

Lemma string_le_refl s : string_le s s = true.
Proof. induction s as [|a s IH]; simpl; [done|]. by rewrite Nat.eqb_refl, IH, orb_true_r. Qed.

Lemma string_le_antisym s t : string_le s t = true -> string_le t s = true -> s = t.
Proof.
  revert t. induction s as [|a s IH]; intros [|b t]; simpl; [done..|]. rewrite !orb_true_iff, !andb_true_iff, !Nat.ltb_lt, !Nat.eqb_eq.
  intros [|[E Hs]] [|[? Ht]]; [lia..|]. f_equal; [|auto]. by rewrite <- (Ascii.ascii_nat_embedding a), E, Ascii.ascii_nat_embedding.
Qed.

Lemma string_le_trans s t u : string_le s t = true -> string_le t u = true -> string_le s u = true.
Proof.
  revert t u. induction s as [|a s IH]; intros [|b t] [|c u]; simpl; [done..|]. rewrite !orb_true_iff, !andb_true_iff, !Nat.ltb_lt, !Nat.eqb_eq.
  intros [|[E Hs]] [|[? Ht]]; [left; lia..|]. right. split; [lia|eauto].
Qed.

Lemma string_le_total s t : string_le s t = true \/ string_le t s = true.
Proof.
  revert t. induction s as [|a s IH]; intros [|b t]; simpl; [auto..|]. rewrite !orb_true_iff, !andb_true_iff, !Nat.ltb_lt, !Nat.eqb_eq.
  destruct (IH t) as [E|E]; rewrite E; lia.
Qed.

(** Times, as propositions for [lia] *)
Definition before (a b : Z * Z) : Prop := a.1 < b.1 \/ (a.1 = b.1 /\ a.2 <= b.2).
Definition strictly (a b : Z * Z) : Prop := a.1 < b.1 \/ (a.1 = b.1 /\ a.2 < b.2).

Lemma pair_le_spec a b : pair_le a b = true <-> before a b.
Proof. unfold pair_le, before. rewrite orb_true_iff, andb_true_iff, Z.ltb_lt, Z.eqb_eq, Z.leb_le. lia. Qed.

Ltac times := repeat match goal with
  | p : (Z * Z)%type |- _ => destruct p
  end; unfold before, strictly in *; simpl in *; try lia.

#[export] Instance before_po : PreOrder before.
Proof. split; [intros a; times|intros a b c; times]. Qed.
Lemma before_antisym a b : before a b -> before b a -> a = b.
Proof. intros. times. f_equal; lia. Qed.
Lemma not_before a b : ~ before a b <-> strictly b a.
Proof. times. Qed.
Lemma strictly_before a b : strictly a b -> before a b.
Proof. times. Qed.
Lemma strictly_trans a b c : strictly a b -> before b c -> strictly a c.
Proof. times. Qed.
Lemma before_strictly a b c : before a b -> strictly b c -> strictly a c.
Proof. times. Qed.
Lemma strictly_irrefl a b : strictly a b -> before b a -> False.
Proof. times. Qed.

Lemma pair_max_spec a b : before a (pair_max a b) /\ before b (pair_max a b) /\ (pair_max a b = a \/ pair_max a b = b).
Proof. unfold pair_max. destruct (pair_le a b) eqn:E; [apply pair_le_spec in E|apply not_true_iff_false in E; rewrite pair_le_spec, not_before in E]; split_and!; auto; times. Qed.
Lemma pair_max_least a b c : before a c -> before b c -> before (pair_max a b) c.
Proof. unfold pair_max. by destruct (pair_le a b). Qed.

Lemma hlc_le_spec a b : hlc_le a b = true <-> strictly (h_time a) (h_time b) \/ (h_time a = h_time b /\ string_le (h_device a) (h_device b) = true).
Proof.
  unfold hlc_le, h_time, strictly. simpl. rewrite !orb_true_iff, !andb_true_iff, !orb_true_iff, !andb_true_iff, !Z.ltb_lt, !Z.eqb_eq.
  split; [intros [|(-> & [|[-> ?]])]; auto|intros [[|[-> ?]]|[[= -> ->] ?]]; auto 8].
Qed.

Lemma hlc_eq a b : h_time a = h_time b -> h_device a = h_device b -> a = b.
Proof. destruct a, b. unfold h_time. simpl. congruence. Qed.
Lemma hlc_le_refl a : hlc_le a a = true.
Proof. apply hlc_le_spec. right. by rewrite string_le_refl. Qed.
Lemma hlc_le_antisym a b : hlc_le a b = true -> hlc_le b a = true -> a = b.
Proof.
  rewrite !hlc_le_spec. intros [Ha|[Ea Ha]] [Hb|[Eb Hb]]; try (exfalso; revert Ha Hb; try rewrite Ea; try rewrite Eb; times; fail).
  apply hlc_eq; [done|by apply string_le_antisym].
Qed.
Lemma hlc_le_trans a b c : hlc_le a b = true -> hlc_le b c = true -> hlc_le a c = true.
Proof.
  rewrite !hlc_le_spec. intros [Ha|[Ea Ha]] [Hb|[Eb Hb]].
  - left. eapply strictly_trans; [done|]. by apply strictly_before.
  - left. by rewrite <- Eb.
  - left. by rewrite Ea.
  - right. split; [congruence|by eapply string_le_trans].
Qed.
Lemma hlc_le_total a b : hlc_le a b = true \/ hlc_le b a = true.
Proof.
  rewrite !hlc_le_spec. destruct (string_le_total (h_device a) (h_device b)); destruct (decide (h_time a = h_time b)) as [E|E]; try rewrite E; auto;
    destruct (h_time a) as [x y], (h_time b) as [z w]; unfold strictly; simpl in *;
    (assert (x ≠ z \/ y ≠ w) by (destruct (decide (x = z)), (decide (y = w)); [congruence|auto..])); lia.
Qed.
Lemma hlc_le_before a b : hlc_le a b = true -> before (h_time a) (h_time b).
Proof. rewrite hlc_le_spec. intros [?%strictly_before|[-> _]]; done. Qed.
Lemma hlc_same_device a b : h_device a = h_device b -> before (h_time a) (h_time b) -> hlc_le a b = true.
Proof.
  intros E Hb. rewrite hlc_le_spec. destruct (decide (h_time a = h_time b)) as [Et|Et]; [right; by rewrite E, string_le_refl|left].
  apply not_before. intros Hb'. apply Et. by apply before_antisym.
Qed.

(** ** What a replica is of the operations it has seen *)

Definition about (o : Op) : string * string := (op_task o, op_birth o).
Definition device_of (o : Op) : string := h_device (op_at o).
Definition time_of (o : Op) : Z * Z := h_time (op_at o).

(** The value of a field is that of the latest operation on it *)
Definition latest (known : Op -> Prop) (k : string * string) (f : string) (e : option (Hlc * Value)) : Prop :=
  match e with
  | Some (a, v) =>
    (exists o, known o /\ about o = k /\ op_field o = f /\ op_at o = a /\ op_value o = v) /\
    (forall o, known o -> about o = k -> op_field o = f -> hlc_le (op_at o) a = true)
  | None => forall o, known o -> about o = k -> op_field o ≠ f
  end.

Definition record_is (known : Op -> Prop) (k : string * string) (e : option Rec) : Prop :=
  match e with
  | Some rec => (exists o, known o /\ about o = k) /\ (rc_task rec, rc_birth rec) = k /\ forall f, latest known k f (rc_fields rec !! f)
  | None => forall o, known o -> about o ≠ k
  end.

Definition seen_is (known : Op -> Prop) (d : string) (e : option (Z * Z)) : Prop :=
  match e with
  | Some t => (exists o, known o /\ device_of o = d /\ time_of o = t) /\ forall o, known o -> device_of o = d -> before (time_of o) t
  | None => forall o, known o -> device_of o ≠ d
  end.

Record projects (known : Op -> Prop) (r : Replica) : Prop := {
  pj_records k : record_is known k (rp_records r !! k);
  pj_seen d : seen_is known d (rp_seen r !! d);
  pj_clock o : known o -> before (time_of o) (rp_clock r) }.

Lemma latest_see known k f e o (e' := if decide (f = op_field o) then
    match e with Some (a, v) => if hlc_le (op_at o) a then Some (a, v) else Some (op_at o, op_value o) | None => Some (op_at o, op_value o) end else e) :
  about o = k -> latest known k f e -> latest (fun x => known x \/ x = o) k f e'.
Proof.
  intros Ho He. subst e'. case_decide as Ef.
  - destruct e as [[a v]|]; [destruct (hlc_le (op_at o) a) eqn:El|].
    + destruct He as [(x & ? & ?) Hmax]. split; [by exists x; auto|]. intros y [Hy| ->] ? ?; [auto|done].
    + destruct He as [_ Hmax]. split; [by exists o; auto 6|]. intros y [Hy| ->] ? ?; [|apply hlc_le_refl].
      destruct (hlc_le_total (op_at o) a) as [?|Ha]; [congruence|]. by eapply hlc_le_trans; [apply Hmax|].
    + split; [by exists o; auto 6|]. intros y [Hy| ->] ? ?; [by destruct (He y)|apply hlc_le_refl].
  - destruct e as [[a v]|]; simpl in *.
    + destruct He as [(x & ? & ?) Hmax]. split; [by exists x; auto|]. intros y [Hy| ->] ? ?; [auto|done].
    + intros y [Hy| ->] ?; [auto|done].
Qed.

Lemma rec_see_is known k e o :
  about o = k -> record_is known k e ->
  record_is (fun x => known x \/ x = o) k (Some (rec_see (default (mkRec (op_task o) (op_birth o) ∅) e) o).2).
Proof.
  intros Ho He. set (base := default _ e).
  assert ((rc_task base, rc_birth base) = k /\ forall f, latest known k f (rc_fields base !! f)) as [Hk Hb].
  { destruct e as [rec|]; simpl in *; [by destruct He as (_ & ? & ?)|]. split; [done|]. intros f. simpl. rewrite lookup_empty. simpl. intros x Hx Ha.
    by destruct (He x). }
  assert (forall f, latest (fun x => known x \/ x = o) k f (rc_fields (rec_see base o).2 !! f)) as Hf.
  { intros f. pose proof (latest_see known k f _ o Ho (Hb f)) as Hl. cbv zeta in Hl. eapply eq_ind; [exact Hl|].
    f_equal. unfold rec_see. case_decide as Ef; [subst f|].
    - destruct (rc_fields base !! op_field o) as [[a v]|] eqn:E; [destruct (hlc_le (op_at o) a)|]; simpl; [by rewrite E|by rewrite lookup_insert_eq..].
    - destruct (rc_fields base !! op_field o) as [[a v]|] eqn:E; [destruct (hlc_le (op_at o) a)|]; simpl; [done|by rewrite lookup_insert_ne..]. }
  split_and!; [by exists o; auto| |done]. unfold rec_see. repeat case_match; done.
Qed.

Lemma record_is_other known k e o : about o ≠ k -> record_is known k e -> record_is (fun x => known x \/ x = o) k e.
Proof.
  intros Ho. destruct e as [rec|]; simpl.
  - intros ((x & ? & ?) & ? & Hf). split_and!; [by exists x; auto|done|]. intros f. specialize (Hf f). destruct (rc_fields rec !! f) as [[a v]|]; simpl in *.
    + destruct Hf as [(y & ? & ?) Hmax]. split; [by exists y; auto|]. intros z [Hz| ->]; [auto|done].
    + intros z [Hz| ->]; [auto|done].
  - intros Hn x [Hx| ->]; auto.
Qed.

Lemma seen_is_add known d e o :
  seen_is known d e ->
  seen_is (fun x => known x \/ x = o) d (if decide (device_of o = d) then Some (pair_max (default (time_of o) e) (time_of o)) else e).
Proof.
  intros He. case_decide as Ed.
  - destruct (pair_max_spec (default (time_of o) e) (time_of o)) as (H1 & H2 & H3). split.
    + destruct H3 as [E|E]; rewrite E; [|by exists o; auto]. destruct e as [t|]; simpl in *; [|by exists o; auto].
      destruct He as [(x & ? & ?) _]. by exists x; auto.
    + intros x [Hx| ->] Hd; [|done]. destruct e as [t|]; simpl in *; [|by destruct (He x)]. destruct He as [_ Hm]. etrans; [by apply Hm|done].
  - destruct e as [t|]; simpl in *.
    + destruct He as [(x & ? & ?) Hm]. split; [by exists x; auto|]. intros y [Hy| ->]; [auto|done].
    + intros y [Hy| ->]; auto.
Qed.

Lemma project_projects known o r : projects known r -> projects (fun x => known x \/ x = o) (project o r).2.
Proof.
  intros [Hr Hs Hc]. unfold project. destruct (rec_see _ o) as [fresh rec] eqn:E. split; simpl.
  - intros k. destruct (decide (about o = k)) as [<-|Hk]; unfold about in *.
    + rewrite lookup_insert_eq. pose proof (rec_see_is known _ _ o eq_refl (Hr (about o))) as H. unfold about in H. by rewrite E in H.
    + rewrite lookup_insert_ne by done. by apply record_is_other.
  - intros d. pose proof (seen_is_add known d _ o (Hs d)) as H. case_decide as Ed; unfold device_of in *.
    + subst d. by rewrite lookup_insert_eq.
    + by rewrite lookup_insert_ne.
  - intros x Hx. destruct (pair_max_spec (rp_clock r) (h_time (op_at o))) as (H1 & H2 & _).
    destruct Hx as [Hx| ->]; [|done]. etrans; [by apply Hc|done].
Qed.

Lemma latest_ext known known' k f e : (forall o, known o <-> known' o) -> latest known k f e -> latest known' k f e.
Proof.
  intros E. destruct e as [[a v]|]; simpl.
  - intros [(x & ? & ?) Hm]. split; [exists x; by rewrite <- E|]. intros o Ho. apply Hm. by apply E.
  - intros Hn o Ho. apply Hn. by apply E.
Qed.

Lemma projects_ext known known' r : (forall o, known o <-> known' o) -> projects known r -> projects known' r.
Proof.
  intros E [Hr Hs Hc]. split.
  - intros k. specialize (Hr k). destruct (_ !! k) as [rec|]; simpl in *.
    + destruct Hr as ((x & ? & ?) & ? & Hf). split_and!; [exists x; by rewrite <- E|done|]. intros f. by eapply latest_ext.
    + intros o Ho. apply Hr. by apply E.
  - intros d. specialize (Hs d). destruct (_ !! d) as [t|]; simpl in *.
    + destruct Hs as [(x & ? & ?) Hm]. split; [exists x; by rewrite <- E|]. intros o Ho. apply Hm. by apply E.
    + intros o Ho. apply Hs. by apply E.
  - intros o Ho. apply Hc. by apply E.
Qed.

Lemma applied_projects known ops r : projects known r -> projects (fun x => known x \/ x ∈ ops) (applied ops r).2.
Proof.
  revert known r. induction ops as [|o ops IH]; intros known r Hp; simpl.
  - eapply projects_ext; [|done]. intros x. split; [auto|]. by intros [|?%elem_of_nil].
  - apply (project_projects _ o) in Hp. destruct (project o r) as [fresh r']. apply IH in Hp. simpl in Hp. destruct (applied ops r') as [n r''].
    eapply projects_ext; [|apply Hp]. intros x. rewrite elem_of_cons. simpl. tauto.
Qed.

(** One operation for each time of a device *)
Definition functional (known : Op -> Prop) : Prop := forall o o', known o -> known o' -> op_at o = op_at o' -> o = o'.

Lemma projects_unique known r r' : functional known -> projects known r -> projects known r' -> rp_records r = rp_records r' /\ rp_seen r = rp_seen r'.
Proof.
  intros Hfun [Hr Hs _] [Hr' Hs' _]. split; apply map_eq.
  - intros k. specialize (Hr k). specialize (Hr' k). destruct (rp_records r !! k) as [rec|], (rp_records r' !! k) as [rec'|]; simpl in *; [|..|done].
    2: by destruct Hr as [(o & ? & ?) _], (Hr' o). 2: by destruct Hr' as [(o & ? & ?) _], (Hr o).
    destruct Hr as (_ & Hk & Hf), Hr' as (_ & Hk' & Hf'). f_equal. destruct rec as [t b fs], rec' as [t' b' fs']; simpl in *. assert (fs = fs') as ->; [|congruence].
    apply map_eq. intros f. specialize (Hf f). specialize (Hf' f). destruct (fs !! f) as [[a v]|], (fs' !! f) as [[a' v']|]; simpl in *; [|..|done].
    2: by destruct Hf as [(o & ? & ? & ? & _) _], (Hf' o). 2: by destruct Hf' as [(o & ? & ? & ? & _) _], (Hf o).
    destruct Hf as [(o & ? & ? & ? & Ea & Ev) Hm], Hf' as [(o' & ? & ? & ? & Ea' & Ev') Hm'].
    assert (a = a') as E by (apply hlc_le_antisym; [rewrite <- Ea; auto|rewrite <- Ea'; auto]). assert (o = o') by (apply Hfun; congruence). congruence.
  - intros d. specialize (Hs d). specialize (Hs' d). destruct (rp_seen r !! d), (rp_seen r' !! d); simpl in *; [|..|done].
    2: by destruct Hs as [(o & ? & ? & _) _], (Hs' o). 2: by destruct Hs' as [(o & ? & ? & _) _], (Hs o).
    destruct Hs as [(o & ? & ? & Eo) Hm], Hs' as [(o' & ? & ? & Eo') Hm']. f_equal. apply before_antisym; [rewrite <- Eo|rewrite <- Eo']; auto.
Qed.

(** ** A clock's text *)

Lemma pretty_i64 z : - 2 ^ 63 <= z < 2 ^ 63 -> parse_i64 (pretty z) = Some z /\ no_byte "."%char (pretty z).
Proof.
  intros Hz. destruct (decide (0 <= z)) as [Hp|Hp].
  - split; [apply parse_i64_pretty; lia|]. rewrite pretty_Z_N by done. by apply digits_no_byte.
  - assert (pretty z = "-" +:+ pretty (Z.to_N (- z))) as E by (destruct z; [lia|lia|done]). rewrite E. split; [|apply no_byte_app; split; [by repeat constructor|by apply digits_no_byte]].
    unfold parse_i64. rewrite strip_prefix_app. destruct (pretty (Z.to_N (- z))) eqn:Ep; [by destruct (pretty_N_head (Z.to_N (- z))) as (a & s & Ea & _); rewrite Ep in Ea|].
    rewrite <- Ep, parse_digits_pretty. cbn [mbind option_bind]. destruct (_ <=? _)%N eqn:El; [f_equal; lia|]. apply N.leb_gt in El. lia.
Qed.

(** A birth names its device and its time *)
Lemma hlc_back h : - 2 ^ 63 <= h_ms h < 2 ^ 63 -> - 2 ^ 63 <= h_n h < 2 ^ 63 -> hlc_parse (hlc_text h) = Some h.
Proof.
  intros Hm Hn. destruct (pretty_i64 _ Hm) as [Em Dm], (pretty_i64 _ Hn) as [En Dn]. unfold hlc_parse, hlc_text.
  rewrite (split_once_app "."%char "" (pretty (h_ms h))) by done. cbn [mbind option_bind]. rewrite Em. cbn [mbind option_bind].
  rewrite (split_once_app "."%char "" (pretty (h_n h))) by done. cbn [mbind option_bind]. rewrite En. by destruct h.
Qed.

(** ** Operations on the wire and in the table *)

Definition in_i64 (z : Z) : Prop := - 2 ^ 63 <= z < 2 ^ 63.
Definition clock_ok (c : Z * Z) : Prop := before (0, 0) c /\ in_i64 c.1 /\ in_i64 c.2.

(** A float that the database gives back as it was *)
Definition text_keeps `{JsonText} (f : f64) : Prop := from_text (to_text (JNumber (Float f))) = Some (JNumber (Float f)).

(** An operation that machines make *)
Record op_fits `{JsonText} (o : Op) : Prop := {
  fit_time : strictly (0, 0) (time_of o);
  fit_ms : in_i64 (h_ms (op_at o));
  fit_n : in_i64 (h_n (op_at o));
  fit_device : h_device (op_at o) ≠ "";
  fit_task : op_task o ≠ "";
  fit_birth : op_birth o ≠ "";
  fit_field : op_field o ≠ "";
  fit_value : travels text_keeps (op_value o) }.

Lemma some_text_Some value key s : string_of value key = Some s -> s ≠ "" -> some_text value key = Some s.
Proof. unfold some_text. intros -> Hs. simpl. unfold str_is_empty. by rewrite bool_decide_false. Qed.

Lemma op_wire `{JsonText} o : op_fits o -> op_from_value (op_to_value o) = Some o.
Proof.
  intros [_ Hms Hn Hd Ht Hb Hf _]. unfold op_from_value.
  change (get (op_to_value o) "ms") with (Some (from_i64 (h_ms (op_at o)))). change (get (op_to_value o) "n") with (Some (from_i64 (h_n (op_at o)))). cbn [mbind option_bind].
  rewrite !i64_back by done. cbn [mbind option_bind].
  rewrite (some_text_Some _ "device" (h_device (op_at o))), (some_text_Some _ "task" (op_task o)), (some_text_Some _ "birth" (op_birth o)), (some_text_Some _ "field" (op_field o)) by done.
  cbn [mbind option_bind]. by destruct o as [[]].
Qed.

Lemma ops_wire `{JsonText} ops : (forall o, o ∈ ops -> op_fits o) -> ops_of (ops_value ops) = ops.
Proof.
  unfold ops_of, ops_value. simpl. induction ops as [|o ops IH]; intros Hf; simpl; [done|].
  rewrite op_wire by (apply Hf; left). f_equal. apply IH. intros x Hx. apply Hf. by right.
Qed.

Lemma pair_back p : in_i64 p.1 -> in_i64 p.2 -> pair_of (pair_value p) = Some p.
Proof. intros. unfold pair_of, pair_value. rewrite !i64_back by done. by destruct p. Qed.

Lemma pair_travels kept p : in_i64 p.1 -> in_i64 p.2 -> travels kept (pair_value p).
Proof.
  intros H1 H2. constructor. unfold in_i64 in *. intros v Hv.
  apply elem_of_cons in Hv as [->|Hv]; [|apply list_elem_of_singleton in Hv as ->]; unfold from_i64; destruct (0 <=? _) eqn:E;
    try (apply Z.leb_le in E); try (apply Z.leb_gt in E); constructor; lia.
Qed.

Class JsonTextLaws `{JsonText} : Prop := text_back v : travels text_keeps v -> from_text (to_text v) = Some v.

Section Table.
Context `{JsonTextLaws}.

Definition rows_ok (db : Db) : Prop := forall key row, db_ops db !! key = Some row -> exists o, op_fits o /\ op_key o = key /\ row_of o = row.
Definition knows (db : Db) (o : Op) : Prop := o ∈ db_op_list db.

Lemma op_row_back o : op_fits o -> op_row (op_key o, row_of o) = o.
Proof. intros Ho. unfold op_row, op_key, row_of, h_time. simpl. rewrite text_back by apply Ho. by destruct o as [[]]. Qed.

Lemma knows_spec db o : rows_ok db -> knows db o <-> op_fits o /\ db_ops db !! op_key o = Some (row_of o).
Proof.
  intros Hdb. unfold knows, db_op_list. rewrite list_elem_of_fmap. split.
  - intros ([key row] & -> & Hr%elem_of_map_to_list). destruct (Hdb _ _ Hr) as (o & Ho & <- & <-). by rewrite op_row_back.
  - intros [Ho Hl]. exists (op_key o, row_of o). rewrite op_row_back by done. split; [done|]. by apply elem_of_map_to_list.
Qed.

Lemma op_key_at o o' : op_key o = op_key o' <-> op_at o = op_at o'.
Proof. unfold op_key, h_time. destruct o as [[]], o' as [[]]. simpl. naive_solver. Qed.

Lemma knows_functional db : rows_ok db -> functional (knows db).
Proof.
  intros Hdb o o' [Ho E]%knows_spec [Ho' E']%knows_spec Ha; [|done..]. apply op_key_at in Ha. rewrite <- (op_row_back o), <- (op_row_back o') by done. congruence.
Qed.

Lemma insert_op_spec o db :
  rows_ok db -> op_fits o -> functional (fun x => knows db x \/ x = o) ->
  let db' := (insert_op o db).2 in
  rows_ok db' /\ db_hlc db' = db_hlc db /\ db_authority db' = db_authority db /\ forall x, knows db' x <-> knows db x \/ x = o.
Proof.
  intros Hdb Ho Hfun. unfold insert_op. destruct (db_ops db !! op_key o) as [row|] eqn:E; simpl.
  - assert (knows db o) as Hk.
    { destruct (Hdb _ _ E) as (o' & Ho' & Hk' & <-). assert (knows db o') as Hk by (apply knows_spec; [done|by rewrite Hk']).
      rewrite (Hfun o o'); auto. by apply op_key_at. }
    split_and!; [done..|]. intros x. split; [auto|]. by intros [| ->].
  - set (db' := mkDb _ _ _). assert (rows_ok db') as Hdb'.
    { intros key row. simpl. rewrite lookup_insert_Some. intros [[<- <-]|[_ Hr]]; [by exists o|by apply Hdb]. }
    split_and!; [done..|]. intros x. rewrite !knows_spec by done. simpl. destruct (decide (op_key o = op_key x)) as [Ek|Ek].
    + rewrite <- Ek, lookup_insert_eq, E. split; [|intros [[_ ?]| ->]; done].
      intros [Hx Er%(inj Some)]. right. etrans; [symmetry; by apply op_row_back|]. rewrite <- Ek, <- Er. by apply op_row_back.
    + rewrite lookup_insert_ne by done. split; [tauto|]. intros [|[= ->]]; done.
Qed.

Lemma functional_sub known known' : (forall o, known o -> known' o) -> functional known' -> functional known.
Proof. intros Hs Hf o o' Ho Ho'. apply Hf; auto. Qed.

Lemma insert_ops_spec ops db :
  rows_ok db -> (forall o, o ∈ ops -> op_fits o) -> functional (fun x => knows db x \/ x ∈ ops) ->
  let db' := (insert_ops ops db).2 in
  rows_ok db' /\ db_hlc db' = db_hlc db /\ db_authority db' = db_authority db /\ forall x, knows db' x <-> knows db x \/ x ∈ ops.
Proof.
  revert db. induction ops as [|o ops IH]; intros db Hdb Ho Hfun; simpl.
  { split_and!; [done..|]. intros x. split; [auto|]. by intros [|?%elem_of_nil]. }
  destruct (insert_op_spec o db) as (Hdb1 & Hh1 & Ha1 & Hk1); [done|apply Ho; left| |].
  { eapply functional_sub, Hfun. intros x [| ->]; [auto|right; left]. }
  destruct (insert_op o db) as [n db1]. destruct (IH db1) as (Hdb2 & Hh2 & Ha2 & Hk2); [done|intros; apply Ho; by right| |].
  { eapply functional_sub, Hfun. intros x. simpl in Hk1. rewrite Hk1, elem_of_cons. tauto. }
  destruct (insert_ops ops db1) as [m db2]. simpl in *. split_and!; [done|congruence..|]. intros x. rewrite Hk2, Hk1, elem_of_cons. tauto.
Qed.

(** ** Machines *)

Definition saved_clock (db : Db) : Z * Z := default (0, 0) (text ← db_hlc db; v ← from_text text; pair_of v).

Record good (m : Machine) : Prop := {
  gd_rows : rows_ok m.2;
  gd_projects : projects (knows m.2) m.1;
  gd_clock : clock_ok (rp_clock m.1);
  gd_saved : clock_ok (saved_clock m.2) }.

Lemma saved_set_hlc c db : in_i64 c.1 -> in_i64 c.2 -> saved_clock (set_hlc c db) = c.
Proof. intros. unfold saved_clock, set_hlc. cbn [db_hlc mbind option_bind]. rewrite text_back by by apply pair_travels. cbn [mbind option_bind]. by rewrite pair_back. Qed.

Lemma clock_ok_max a b : clock_ok a -> in_i64 b.1 -> in_i64 b.2 -> clock_ok (pair_max a b).
Proof.
  intros (Hz & H1 & H2) ? ?. destruct (pair_max_spec a b) as (Ha & _ & Hor). split; [by etrans|]. by destruct Hor as [-> | ->].
Qed.

Lemma applied_me ops r : rp_me (applied ops r).2 = rp_me r.
Proof.
  revert r. induction ops as [|o ops IH]; intros r; simpl; [done|]. destruct (project o r) as [fresh r'] eqn:E.
  assert (rp_me r' = rp_me r) as <- by (revert E; unfold project; destruct (rec_see _ _); by intros [= _ <-]).
  rewrite <- (IH r'). by destruct (applied ops r').
Qed.

Lemma applied_clock ops r : rp_clock (applied ops r).2 = seen_clock ops (rp_clock r).
Proof.
  revert r. induction ops as [|o ops IH]; intros r; simpl; [done|]. destruct (project o r) as [fresh r'] eqn:E.
  assert (rp_clock r' = pair_max (rp_clock r) (h_time (op_at o))) as Hc by (revert E; unfold project; destruct (rec_see _ _); by intros [= _ <-]).
  rewrite <- Hc, <- (IH r'). by destruct (applied ops r').
Qed.

Lemma seen_clock_ok ops c : clock_ok c -> (forall o, o ∈ ops -> op_fits o) -> clock_ok (seen_clock ops c) /\ before c (seen_clock ops c).
Proof.
  revert c. induction ops as [|o ops IH]; intros c Hc Ho; simpl; [done|].
  assert (clock_ok (pair_max c (h_time (op_at o)))) as Hm by (apply clock_ok_max; [done|apply fit_ms|apply fit_n]; apply Ho; left).
  destruct (IH _ Hm) as [? Hb]; [intros; apply Ho; by right|]. split; [done|]. etrans; [apply (pair_max_spec c (h_time (op_at o)))|exact Hb].
Qed.

Lemma projects_none c me : projects (fun _ => False) (mkReplica me c ∅ ∅).
Proof. split; cbn [rp_records rp_seen]; [intros k; rewrite lookup_empty; by intros ? []|intros d; rewrite lookup_empty; by intros ? []|by intros ? []]. Qed.

Lemma projects_device known d r : projects known r -> projects known (set_device d r).
Proof. by intros [? ? ?]. Qed.

Lemma open_projects db : projects (knows db) (replica_open db).
Proof.
  eapply projects_ext; [|apply applied_projects, projects_none]. intros o. unfold knows. simpl. tauto.
Qed.

(** A restart leaves what a machine knows as it was *)
Lemma good_reopen d m :
  good m -> let r := set_device d (replica_open m.2) in
  good (r, m.2) /\ rp_records r = rp_records m.1 /\ rp_seen r = rp_seen m.1.
Proof.
  intros [Hr Hp Hc Hs]. simpl. pose proof (projects_device _ d _ (open_projects m.2)) as Hp'.
  destruct (projects_unique _ _ _ (knows_functional _ Hr) Hp' Hp) as [E1 E2]. split_and!; [|done..]. split; [done|done| |done].
  simpl. unfold replica_open. rewrite applied_clock. apply seen_clock_ok; [done|]. intros o Ho. by apply knows_spec in Ho as [? _].
Qed.
End Table.

(** ** What a machine makes itself *)

Section Local.
Context `{JsonTextLaws}.

(** What a write is given: names that are not empty, values that travel, their floats among those that
    the database gives back, and a clock of 64 bits *)
Record sane (me : string) (wall : nat -> Z) (task birth : string) (fields : list (string * Value)) : Prop := {
  sn_me : me ≠ "";
  sn_wall i : in_i64 (wall i);
  sn_task : task ≠ "";
  sn_birth : birth ≠ "";
  sn_fields f v : (f, v) ∈ fields -> f ≠ "" /\ travels text_keeps v }.

Lemma tick_spec wall r at_ r' :
  tick wall r = Some (at_, r') -> in_i64 wall -> clock_ok (rp_clock r) ->
  h_device at_ = rp_me r /\ r' = set_clock (h_time at_) r /\ strictly (rp_clock r) (h_time at_) /\ clock_ok (h_time at_).
Proof.
  unfold tick, clock_ok, in_i64. intros E Hw (Hz & H1 & H2). apply bind_Some in E as (n & En & [= <- <-]). simpl. unfold h_time. simpl.
  assert (strictly (rp_clock r) (Z.max wall (rp_clock r).1, n) /\ - 2 ^ 63 <= n < 2 ^ 63) as [Hs Hn].
  { case_decide as Ed; [unfold succ_i64, i64_max in En; case_decide; [done|]|]; injection En as <-; unfold strictly; simpl; lia. }
  split; [done|]. split; [done|]. split; [done|]. split; [apply strictly_before; by eapply before_strictly|]. simpl. lia.
Qed.

Lemma stage_go_spec wall task birth fields r ops r' :
  stage_go wall task birth fields r = Some (ops, r') -> sane (rp_me r) wall task birth fields -> clock_ok (rp_clock r) ->
  exists c, r' = set_clock c r /\ clock_ok c /\ before (rp_clock r) c /\
    (forall o, o ∈ ops -> op_fits o /\ device_of o = rp_me r /\ strictly (rp_clock r) (time_of o) /\ before (time_of o) c) /\
    functional (fun o => o ∈ ops).
Proof.
  revert r ops. induction fields as [|[field value] fields IH]; intros r ops E Hs Hc; simpl in E.
  { injection E as <- <-. exists (rp_clock r). split_and!; [by destruct r|done|done|by intros o ?%elem_of_nil|by intros o o' ?%elem_of_nil]. }
  apply bind_Some in E as ([at_ r1] & Et & E). apply bind_Some in E as ([rest r2] & Er & [= <- <-]).
  destruct (tick_spec _ _ _ _ Et (sn_wall _ _ _ _ _ Hs _) Hc) as (Hd & -> & Hlt & Hok).
  destruct (IH _ _ Er) as (c & -> & Hco & Hle & Hops & Hfun); [|done|].
  { destruct Hs as [? ? ? ? Hf]. split; [done..|]. intros f v Hv. apply Hf. by right. }
  simpl in Hle, Hops. assert (op_fits (mkOp at_ task birth field value)) as Hfit.
  { destruct Hs as [? ? ? ? Hf]. destruct (Hf field value) as [? ?]; [left|]. destruct Hok as (Hz & ? & ?). split; simpl; try done; [|by rewrite Hd].
    eapply before_strictly; [|apply Hlt]. apply Hc. }
  exists c. split_and!; [done|done|by etrans; [apply strictly_before|]| |].
  - intros o [-> |Ho]%elem_of_cons; [by split_and!|]. destruct (Hops o Ho) as (? & ? & ? & ?). split_and!; [done..| |done].
    eapply strictly_trans; [done|]. by apply strictly_before.
  - intros o o' [-> |Ho]%elem_of_cons [-> |Ho']%elem_of_cons Ha; [done|..|by apply Hfun].
    + destruct (Hops o' Ho') as (_ & _ & Hl & _). unfold time_of in Hl. simpl in Ha. rewrite <- Ha in Hl. by destruct (strictly_irrefl _ _ Hl).
    + destruct (Hops o Ho) as (_ & _ & Hl & _). unfold time_of in Hl. simpl in Ha. rewrite Ha in Hl. by destruct (strictly_irrefl _ _ Hl).
Qed.

Lemma sane_retain me wall task birth fields p : sane me wall task birth fields -> sane me wall task birth (retain p fields).
Proof. intros [? ? ? ? Hf]. split; [done..|]. intros f v Hv. apply Hf. unfold retain in Hv. rewrite list_elem_of_In, filter_In, <- list_elem_of_In in Hv. tauto. Qed.

(** What becomes of a machine by its own doing: it makes operations, later than all it knows *)
Record local_step (m : Machine) (ops : list Op) (m' : Machine) : Prop := {
  ls_me : rp_me m'.1 = rp_me m.1;
  ls_new o : o ∈ ops -> device_of o = rp_me m.1 /\ strictly (rp_clock m.1) (time_of o);
  ls_known o : knows m'.2 o <-> knows m.2 o \/ o ∈ ops;
  ls_good : good m' }.

(** A change that leaves the operations and the clock alone *)
Definition leaves_ops (also : Db -> Db) : Prop := forall db, db_ops (also db) = db_ops db /\ db_hlc (also db) = db_hlc db.

Lemma rows_ok_ops db db' : db_ops db' = db_ops db -> rows_ok db -> rows_ok db'.
Proof. intros E Hr key row. rewrite E. apply Hr. Qed.
Lemma knows_ops db db' o : db_ops db' = db_ops db -> knows db' o <-> knows db o.
Proof. unfold knows, db_op_list. by intros ->. Qed.

Lemma local_none m m' :
  good m -> rp_me m'.1 = rp_me m.1 -> rp_records m'.1 = rp_records m.1 -> rp_seen m'.1 = rp_seen m.1 -> clock_ok (rp_clock m'.1) ->
  before (rp_clock m.1) (rp_clock m'.1) -> db_ops m'.2 = db_ops m.2 -> db_hlc m'.2 = db_hlc m.2 -> local_step m [] m'.
Proof.
  intros [Hr [Hp1 Hp2 Hp3] Hc Hs] Hme Hre Hse Hc' Hle Ho Hh. split; [done|by intros o ?%elem_of_nil| |].
  - intros o. rewrite knows_ops by done. split; [auto|]. by intros [|?%elem_of_nil].
  - split; [by eapply rows_ok_ops| |done|unfold saved_clock; by rewrite Hh].
    apply (projects_ext (knows m.2)); [intros o; symmetry; by apply knows_ops|]. split; [by rewrite Hre|by rewrite Hse|].
    intros o Hk. etrans; [by apply Hp3|done].
Qed.

Lemma local_refl m : good m -> local_step m [] m.
Proof. intros Hm. apply local_none; try done. apply Hm. Qed.

Lemma keep_ops_local wall task birth fields r db ops r' fault also :
  good (r, db) -> sane (rp_me r) wall task birth fields -> stage wall task birth fields r = Some (ops, r') -> leaves_ops also ->
  exists made, local_step (r, db) made (keep_ops fault ops also r' db).2 /\ (fault = Fine -> made = ops).
Proof.
  intros Hg Hs Est Hal. pose proof Hg as [Hr Hp Hc Hsv]. unfold stage in Est. apply stage_go_spec in Est as (c & -> & Hco & Hle & Hops & Hfun); [|by apply sane_retain|done]. simpl in Hops, Hle.
  destruct fault; simpl; [|exists []; split; [by apply local_none|done]..].
  destruct (Hal db) as [Ho Hh].
  assert (functional (fun x => knows (also db) x \/ x ∈ ops)) as Hall.
  { assert (forall x y, knows db x -> y ∈ ops -> op_at x = op_at y -> False) as Hno.
    { intros x y Hx Hy Ha. destruct (Hops y Hy) as (_ & _ & Hl & _). pose proof (pj_clock _ _ Hp x Hx) as Hb. simpl in Hb. unfold time_of in *.
      rewrite Ha in Hb. by destruct (strictly_irrefl _ _ Hl). }
    intros x y. rewrite !(knows_ops db (also db)) by done. intros [Hx|Hx] [Hy|Hy] Ha; [by apply (knows_functional db)|by destruct (Hno x y)|by destruct (Hno y x)|by apply Hfun]. }
  destruct (insert_ops_spec ops (also db)) as (Hr' & Hh' & _ & Hk'); [by eapply rows_ok_ops|intros o Hx; by apply Hops|done|].
  exists ops. split; [|done]. unfold commit. destruct (insert_ops ops (also db)) as [n db'] eqn:Ei. simpl in *.
  assert (forall o, knows (set_hlc c db') o <-> knows db o \/ o ∈ ops) as Hkn.
  { intros o. rewrite (knows_ops db'), Hk', (knows_ops db) by done. done. }
  split; simpl.
  - by rewrite applied_me.
  - intros o Hx. by destruct (Hops o Hx) as (_ & ? & ? & _).
  - done.
  - destruct Hco as (Hz & H1 & H2). split; simpl; [by eapply rows_ok_ops| | |by rewrite saved_set_hlc].
    + eapply projects_ext; [|apply (applied_projects (knows db))]; [intros o; by rewrite Hkn|].
      destruct Hp as [Hp1 Hp2 Hp3]. split; [done..|]. intros o Hx. simpl. etrans; [by apply Hp3|done].
    + rewrite applied_clock. apply seen_clock_ok; [done|]. intros o Hx. by apply Hops.
Qed.

Lemma leaves_id : leaves_ops id.
Proof. done. Qed.
Lemma leaves_authority task birth held : leaves_ops (set_authority task birth held).
Proof. done. Qed.
Lemma leaves_hold task birth permit : leaves_ops (hold_unless_held task birth permit).
Proof. intros db. unfold hold_unless_held. by destruct (authority db task birth). Qed.

(** ** Each operation is such a step *)

Lemma write_local wall fault task birth fields m :
  good m -> sane (rp_me m.1) wall task birth fields -> exists made, local_step m made (write wall fault task birth fields m).2.
Proof.
  destruct m as [r db]. simpl. intros Hm Hs. destruct (stage wall task birth fields r) as [[[|o ops] r']|] eqn:E; simpl.
  - destruct (keep_ops_local _ _ _ _ _ _ _ _ (Before "") id Hm Hs E leaves_id) as (made & Hl & _). by exists made.
  - destruct (keep_ops_local _ _ _ _ _ _ _ _ fault id Hm Hs E leaves_id) as (made & Hl & _). by exists made.
  - exists []. by apply local_refl.
Qed.

Lemma own_local wall fault task birth fields held m :
  good m -> sane (rp_me m.1) wall task birth fields -> exists made, local_step m made (own wall fault task birth fields held m).2.
Proof.
  destruct m as [r db]. simpl. intros Hm Hs. destruct (stage wall task birth fields r) as [[ops r']|] eqn:E; simpl.
  - destruct (keep_ops_local _ _ _ _ _ _ _ _ fault _ Hm Hs E (leaves_authority task birth held)) as (made & Hl & _). exists made.
    by destruct (keep_ops _ _ _ _ _).
  - exists []. by apply local_refl.
Qed.

Lemma authority_local m task birth held : good m -> local_step m [] (m.1, set_authority task birth held m.2).
Proof. intros Hm. apply local_none; try done. apply Hm. Qed.

Lemma keep_authority_local fault task birth held m : good m -> local_step m [] (keep_authority fault task birth held m).2.
Proof. destruct m as [r db]. intros Hm. destruct fault; simpl; [by apply (authority_local (r, db))|by apply local_refl..]. Qed.
End Local.

(** ** What comes from other machines *)

(** The order in which the devices of a [HashMap] are visited: each once *)
Class DeviceOrder (order : HashOrder) : Prop := {
  order_all s x : x ∈ order s <-> x ∈ s;
  order_once s : NoDup (order s) }.

Section Remote.
Context `{JsonTextLaws} {order : HashOrder} `{!DeviceOrder order}.

Lemma sorted_ops_perm ops : sorted_ops ops ≡ₚ ops.
Proof. apply merge_sort_Permutation. Qed.
Lemma elem_of_sorted_ops o ops : o ∈ sorted_ops ops <-> o ∈ ops.
Proof. by rewrite sorted_ops_perm. Qed.

#[local] Instance op_le_trans : Transitive op_le.
Proof. intros a b c. apply hlc_le_trans. Qed.
#[local] Instance op_le_total : Total op_le.
Proof. intros a b. apply hlc_le_total. Qed.
Lemma sorted_ops_sorted ops : StronglySorted op_le (sorted_ops ops).
Proof. apply StronglySorted_merge_sort; apply _. Qed.

(** What is applied is known, and nothing else; a transaction that fails leaves all but the clock *)
Lemma apply_ops_spec fault ops m :
  good m -> (forall o, o ∈ ops -> op_fits o) -> functional (fun x => knows m.2 x \/ x ∈ ops) ->
  let m' := (apply_ops fault ops m).2 in
  good m' /\ rp_me m'.1 = rp_me m.1 /\ db_authority m'.2 = db_authority m.2 /\
  (forall o, knows m'.2 o <-> knows m.2 o \/ (fault = Fine /\ o ∈ ops)) /\
  (fault ≠ Fine -> rp_records m'.1 = rp_records m.1 /\ rp_seen m'.1 = rp_seen m.1).
Proof.
  destruct m as [r db]. intros Hg Hf Hfun. pose proof Hg as [Hr Hp Hc Hs]. unfold apply_ops. set (sorted := sorted_ops ops).
  assert (forall o, o ∈ sorted -> op_fits o) as Hf' by (intros o; unfold sorted; rewrite elem_of_sorted_ops; apply Hf).
  destruct (seen_clock_ok sorted _ Hc Hf') as [Hco Hle]. simpl in *. destruct fault as [|why|why]; simpl.
  - destruct (insert_ops_spec sorted db) as (Hr' & _ & Ha & Hk); [done|done|eapply functional_sub, Hfun; intros x; unfold sorted; by rewrite elem_of_sorted_ops|].
    unfold commit. destruct (insert_ops sorted db) as [added db'] eqn:E. simpl in *.
    assert (forall o, knows (set_hlc (seen_clock sorted (rp_clock r)) db') o <-> knows db o \/ o ∈ ops) as Hkn.
    { intros o. rewrite (knows_ops db'), Hk by done. unfold sorted. by rewrite elem_of_sorted_ops. }
    split_and!; [|by rewrite applied_me|done|intros o; rewrite Hkn; split; [intros [|]; auto|intros [|[_ ?]]; auto]|done].
    destruct Hco as (Hz & H1 & H2). split; simpl; [by eapply rows_ok_ops| | |by rewrite saved_set_hlc].
    + eapply projects_ext; [|apply (applied_projects (knows db))]; [intros o; rewrite Hkn; unfold sorted; by rewrite elem_of_sorted_ops|].
      destruct Hp as [Hp1 Hp2 Hp3]. split; [done..|]. intros o Hx. simpl. etrans; [by apply Hp3|done].
    + rewrite applied_clock. by apply seen_clock_ok.
  - split_and!; [done..|intros o; split; [auto|by intros [|[? _]]]|done].
  - split_and!; [|done|done|intros o; split; [auto|by intros [|[? _]]]|done]. destruct Hp as [Hp1 Hp2 Hp3]. split; [done| |done|done]. split; [done..|].
    intros o Hx. simpl. etrans; [by apply Hp3|done].
Qed.

(** ** The vector *)

Lemma map_get_devices (f : string -> option Value) devices d :
  map_get (omap (fun x => (fun v => (x, v)) <$> f x) devices) d = if decide (d ∈ devices) then f d else None.
Proof.
  induction devices as [|x devices IH]; [done|]. cbn [omap list_omap]. fold (omap (M := list) (fun x => (fun v => (x, v)) <$> f x) devices).
  destruct (f x) as [v|] eqn:E; cbn [fmap option_fmap option_map map_get].
  - destruct (decide (x = d)) as [->|Hne]; [by rewrite decide_True by left|]. rewrite IH. repeat case_decide; set_solver.
  - rewrite IH. destruct (decide (x = d)) as [->|Hne]; [|repeat case_decide; set_solver]. rewrite E. by repeat case_decide.
Qed.

Lemma known_of_vector m d :
  good m -> known_of (vector m.1) d = default (- 2 ^ 63, - 2 ^ 63) (rp_seen m.1 !! d).
Proof.
  intros [Hr Hp _ _]. unfold known_of, vector. cbn [get].
  assert (map_get (omap (fun device => (fun p => (device, pair_value p)) <$> rp_seen m.1 !! device) (hash_iter (dom (rp_seen m.1)))) d
          = pair_value <$> rp_seen m.1 !! d) as ->.
  { etrans; [|etrans; [apply (map_get_devices (fun x => pair_value <$> rp_seen m.1 !! x) (hash_iter (dom (rp_seen m.1))) d)|]].
    - f_equal. apply list_omap_ext, Forall_Forall2_diag, Forall_forall. intros x _. by destruct (rp_seen m.1 !! x).
    - case_decide as Hd; [done|]. unfold hash_iter in Hd. rewrite order_all, not_elem_of_dom in Hd. by rewrite Hd. }
  pose proof (pj_seen _ _ Hp d) as Hs. destruct (rp_seen m.1 !! d) as [t|]; [|done]. cbn [fmap option_fmap option_map mbind option_bind].
  destruct Hs as [(o & Ho & _ & <-) _]. apply knows_spec in Ho as [[_ H1 H2] _]; [|done]. by rewrite pair_back.
Qed.

(** ** The operations that another machine has not seen *)

Lemma elem_of_device_ops db d t o : o ∈ device_ops db d t <-> knows db o /\ device_of o = d /\ ~ before (time_of o) t.
Proof.
  unfold device_ops. rewrite elem_of_sorted_ops. unfold retain. rewrite list_elem_of_In, filter_In, <- list_elem_of_In. fold (knows db o).
  rewrite andb_true_iff, bool_decide_eq_true, negb_true_iff, <- not_true_iff_false, pair_le_spec. done.
Qed.

Lemma NoDup_device_ops db d t : rows_ok db -> NoDup (device_ops db d t).
Proof.
  intros Hdb. unfold device_ops. rewrite sorted_ops_perm. unfold retain. apply NoDup_ListNoDup, List.NoDup_filter, NoDup_ListNoDup. unfold db_op_list.
  apply (NoDup_fmap_2_strong op_row); [|apply NoDup_map_to_list].
  intros [k1 r1] [k2 r2] H1%elem_of_map_to_list H2%elem_of_map_to_list E. destruct (Hdb _ _ H1) as (o1 & F1 & <- & <-), (Hdb _ _ H2) as (o2 & F2 & <- & <-).
  rewrite !op_row_back in E by done. by subst.
Qed.

(** The first of them have no gap *)
Lemma device_ops_prefix db d t n o o' :
  rows_ok db -> o' ∈ firstn n (device_ops db d t) -> o ∈ device_ops db d t -> before (time_of o) (time_of o') -> o ∈ firstn n (device_ops db d t).
Proof.
  intros Hdb Ho' Ho Hb. pose proof (elem_of_device_ops db d t) as He. pose proof (sorted_ops_sorted (retain (fun o => bool_decide (h_device (op_at o) = d) && negb (pair_le (h_time (op_at o)) t)) (db_op_list db))) as Hsort.
  fold (device_ops db d t) in Hsort. rewrite <- (firstn_skipn n (device_ops db d t)) in Ho, Hsort, He. apply elem_of_app in Ho as [|Ho]; [done|].
  assert (op_le o' o) as Hle by (by eapply StronglySorted_app_1_elem_of).
  destruct (proj1 (He o')) as (Hk' & Hd' & _); [apply elem_of_app; by left|]. destruct (proj1 (He o)) as (Hk & Hd & _); [apply elem_of_app; by right|].
  assert (o = o') as ->; [|done]. apply (knows_functional db); [done..|]. apply hlc_le_antisym; [apply hlc_same_device; [unfold device_of in *; congruence|done]|done].
Qed.

(** The operations of a device are sent without a gap after what the vector says *)
Definition gapless (db : Db) (v : Value) (out : list Op) : Prop :=
  (forall o, o ∈ out -> knows db o /\ ~ before (time_of o) (known_of v (device_of o))) /\
  forall o o', o' ∈ out -> knows db o -> device_of o = device_of o' -> before (time_of o) (time_of o') -> before (time_of o) (known_of v (device_of o)) \/ o ∈ out.

Lemma before_dec a b : before a b \/ ~ before a b.
Proof. unfold before. lia. Qed.

Lemma gapless_app db v out d n : rows_ok db -> gapless db v out -> gapless db v (out ++ firstn n (device_ops db d (known_of v d))).
Proof.
  intros Hdb [Hin Hg]. split.
  - intros o [Ho|Ho]%elem_of_app; [auto|]. assert (o ∈ device_ops db d (known_of v d)) as (? & <- & ?)%elem_of_device_ops by (rewrite <- (firstn_skipn n); apply elem_of_app; by left). done.
  - intros o o' [Ho|Ho]%elem_of_app Hk Hd Hb; [destruct (Hg o o') as [|]; auto; right; apply elem_of_app; by left|].
    destruct (before_dec (time_of o) (known_of v (device_of o))) as [|Hn]; [by left|right]. apply elem_of_app. right.
    assert (o' ∈ device_ops db d (known_of v d)) as (? & Hd' & ?)%elem_of_device_ops by (rewrite <- (firstn_skipn n); apply elem_of_app; by left).
    eapply device_ops_prefix; [done|done| |done]. apply elem_of_device_ops. rewrite Hd, Hd' in Hn. by rewrite Hd, Hd'.
Qed.

Lemma ops_after_go_spec db v devices out :
  rows_ok db -> gapless db v out -> NoDup out -> NoDup devices -> (forall o, o ∈ out -> device_of o ∉ devices) ->
  let all := ops_after_go db v devices out in
  gapless db v all /\ NoDup all /\ (forall o, o ∈ out -> o ∈ all) /\
  ((length all < MAX_OPS)%nat -> forall d o, d ∈ devices -> o ∈ device_ops db d (known_of v d) -> o ∈ all).
Proof.
  intros Hdb. revert out. induction devices as [|d devices IH]; intros out Hg Hn Hd Hnew; cbn [ops_after_go].
  { split_and!; [done..|]. by intros _ d o ?%elem_of_nil. }
  set (out' := out ++ firstn (MAX_OPS - length out) (device_ops db d (known_of v d))).
  apply NoDup_cons in Hd as [Hd Hds].
  assert (gapless db v out') as Hg' by by apply gapless_app.
  assert (forall o, o ∈ firstn (MAX_OPS - length out) (device_ops db d (known_of v d)) -> device_of o = d) as Hdev.
  { intros o Ho. assert (o ∈ device_ops db d (known_of v d)) as (? & ? & ?)%elem_of_device_ops by (rewrite <- (firstn_skipn (MAX_OPS - length out)); apply elem_of_app; by left). done. }
  assert (NoDup out') as Hn'.
  { apply NoDup_app. split_and!; [done| |].
    - intros o Ho Ho'. apply (Hnew o Ho). rewrite (Hdev o Ho'). left.
    - pose proof (NoDup_device_ops db d (known_of v d) Hdb) as Hnd. rewrite <- (firstn_skipn (MAX_OPS - length out) (device_ops db d (known_of v d))) in Hnd. apply NoDup_app in Hnd as (? & _ & _). done. }
  case_decide as Hlen; fold out' in Hlen |- *.
  { split_and!; [done..|intros; apply elem_of_app; by left|lia]. }
  destruct (IH out' Hg' Hn' Hds) as (H1 & H2 & H3 & H4).
  { intros o [Ho|Ho]%elem_of_app; [|by rewrite (Hdev o Ho)]. intros Hx. apply (Hnew o Ho). by right. }
  split_and!; [done|done|intros o Ho; apply H3, elem_of_app; by left|].
  intros Hl d' o [-> |Hd']%elem_of_cons Ho; [|by eapply H4]. apply H3, elem_of_app. right. rewrite take_ge; [done|].
  unfold out' in Hlen. rewrite length_app, length_take in Hlen. lia.
Qed.

Lemma ops_after_spec r db v :
  rows_ok db -> projects (knows db) r ->
  let all := ops_after r db v in
  gapless db v all /\ NoDup all /\ ((length all < MAX_OPS)%nat -> forall o, knows db o -> before (time_of o) (known_of v (device_of o)) \/ o ∈ all).
Proof.
  intros Hdb Hp. destruct (ops_after_go_spec db v (hash_iter (dom (rp_seen r))) []) as (H1 & H2 & _ & H4); [done|split; [by intros ? ?%elem_of_nil|by intros ? ? ?%elem_of_nil]|constructor|apply order_once|by intros ? ?%elem_of_nil|].
  split_and!; [done..|]. intros Hl o Ho. destruct (before_dec (time_of o) (known_of v (device_of o))) as [|Hn]; [by left|right].
  eapply (H4 Hl (device_of o)); [|by apply elem_of_device_ops]. unfold hash_iter. rewrite order_all, elem_of_dom.
  pose proof (pj_seen _ _ Hp (device_of o)) as Hs. destruct (rp_seen r !! device_of o); [by eexists|]. by destruct (Hs o).
Qed.
End Remote.
