(* ===== verification/ReplicaTheorems.v ===== *)
(** * The replicated Shelf: machines that send each other operations and grants

    [net_step] is one step of a network: a machine acts, asks for operations, answers, is given
    what was sent, or starts again.  What was sent is never taken back, so a message may be lost,
    late or given twice.  [shelf_inv] holds wherever steps lead. *)

From stdpp Require Import sorting.
From S2P Require Import Prelude Text F64 Json Pipe PipeText Schedule ScheduleFacts Runs RunDoc PeerLog PeerMerge Frame Replica ReplicaFacts.

#[local] Open Scope Z_scope.

(** ** The network *)

(** The machines by their devices; the vectors that machines asked with; the operations that were
    sent, and to whom; the grants that were given *)
Record Net := mkNet {
  nt_machines : gmap string Machine;
  nt_asks : list (string * Value);
  nt_sent : list (string * Value);
  nt_grants : list Grant }.

Definition set_machine (d : string) (m : Machine) (net : Net) : Net :=
  mkNet (<[d := m]> (nt_machines net)) (nt_asks net) (nt_sent net) (nt_grants net).
Definition add_grants (gs : list Grant) (net : Net) : Net :=
  mkNet (nt_machines net) (nt_asks net) (nt_sent net) (gs ++ nt_grants net).
Definition given {A} (result : outcome string A) (grant : A -> Grant) : list Grant :=
  match result with Good a => [grant a] | _ => [] end.

Section Network.
Context `{JsonText} {order : HashOrder}.

(** No machine has a row or a grant for a task that is being made *)
Definition unborn (net : Net) (task birth : string) : Prop :=
  (forall d m, nt_machines net !! d = Some m -> authority m.2 task birth = None) /\
  (forall g, g ∈ nt_grants net -> (gr_task g, gr_birth g) ≠ (task, birth)).

Definition stored_permit (permit : option Permit) (task birth : string) (db : Db) : Db :=
  match permit with Some p => hold_unless_held task birth p db | None => db end.

(** The machine that made a task, which the task's birth names: [mint_from] writes its clock's time there
    and [join] the time the task was made, each with the machine's own device *)
Definition made_on (birth : string) : option string := h_device <$> hlc_parse birth.

(** What a machine does itself, and the grants it gives.  While the network is [calm], no task is
    taken from a machine that is away, yielded or taken back, and a machine that has no row for a
    task saves it with a permit only when it made the task itself. *)
Inductive acts (calm : bool) (net : Net) (d : string) (m : Machine) : Machine -> list Grant -> Prop :=
| act_write wall fault task birth fields :
    sane (rp_me m.1) wall task birth fields -> acts calm net d m (write wall fault task birth fields m).2 []
| act_store wall fault task birth fields permit ops r :
    sane (rp_me m.1) wall task birth fields -> stage wall task birth fields m.1 = Some (ops, r) ->
    (calm = true -> is_Some (authority m.2 task birth) \/ made_on birth = Some d) ->
    acts calm net d m (keep_ops fault ops (stored_permit permit task birth) r m.2).2 []
| act_start first fault task birth : acts calm net d m (start first fault task birth m).2 []
| act_grant wall first fault task birth to result m' :
    sane (rp_me m.1) wall task birth [] -> grant wall first fault task birth to m = (result, m') ->
    acts calm net d m m' (given result id)
| act_hand wall first fault task birth to result m' :
    sane (rp_me m.1) wall task birth [] -> hand wall first fault task birth to m = (result, m') ->
    acts calm net d m m' (given result (fun epoch => mkGrant task birth epoch to))
| act_receive wall first fault g :
    g ∈ nt_grants net -> gr_to g = d -> sane (rp_me m.1) wall (gr_task g) (gr_birth g) [] ->
    acts calm net d m (receive wall first fault (gr_task g) (gr_birth g) (gr_epoch g) m).2 []
| act_ran wall at_ fault task birth :
    sane (rp_me m.1) wall task birth [] -> in_i64 at_ -> acts calm net d m (ran wall at_ fault task birth m).2 []
| act_acked fault task birth epoch : acts calm net d m (acked fault task birth epoch m).2 []
| act_take wall at_ fault task birth from :
    calm = false -> sane (rp_me m.1) wall task birth [] -> in_i64 at_ -> acts calm net d m (take_from wall at_ fault task birth from m).2 []
| act_reclaim wall fault task birth epoch :
    calm = false -> sane (rp_me m.1) wall task birth [] -> acts calm net d m (reclaim wall fault task birth epoch m).2 []
| act_yielded task birth to : calm = false -> acts calm net d m (m.1, yielded task birth to m.2) []
| act_hold fault task birth permit : calm = false -> acts calm net d m (hold fault task birth permit m).2 [].

Inductive net_step (calm : bool) (net : Net) : Net -> Prop :=
| st_act d m m' gs :
    nt_machines net !! d = Some m -> acts calm net d m m' gs -> net_step calm net (add_grants gs (set_machine d m' net))
| st_ask d m :
    nt_machines net !! d = Some m ->
    net_step calm net (mkNet (nt_machines net) ((d, vector m.1) :: nt_asks net) (nt_sent net) (nt_grants net))
| st_answer d m to v :
    nt_machines net !! d = Some m -> (to, v) ∈ nt_asks net ->
    net_step calm net (mkNet (nt_machines net) (nt_asks net) ((to, ops_value (ops_after m.1 m.2 v)) :: nt_sent net) (nt_grants net))
| st_given d m v fault :
    nt_machines net !! d = Some m -> (d, v) ∈ nt_sent net -> net_step calm net (set_machine d (apply_ops fault (ops_of v) m).2 net)
| st_restart d m :
    nt_machines net !! d = Some m -> net_step calm net (set_machine d (set_device d (replica_open m.2), m.2) net).

Definition machine_new (d : string) : Machine := (set_device d (replica_open db_new), db_new).
Definition net_new (devices : list string) : Net := mkNet (list_to_map (map (fun d => (d, machine_new d)) devices)) [] [] [].

(** Where steps lead from machines that know nothing *)
Inductive reaches (calm : bool) : Net -> Prop :=
| reach_new devices : "" ∉ devices -> reaches calm (net_new devices)
| reach_step net net' : reaches calm net -> net_step calm net net' -> reaches calm net'.
End Network.

(** ** What holds wherever steps lead *)

Section Invariant.
Context `{JsonTextLaws} {order : HashOrder} `{!DeviceOrder order}.

(** The machine that made an operation knows it *)
Definition owner_knows (net : Net) (o : Op) : Prop := exists m, nt_machines net !! device_of o = Some m /\ knows m.2 o.

Record shelf_inv (net : Net) : Prop := {
  si_machine d m : nt_machines net !! d = Some m -> d ≠ "" /\ rp_me m.1 = d /\ good m;
  si_owned d m o : nt_machines net !! d = Some m -> knows m.2 o -> owner_knows net o;
  (** a machine that knows an operation knows the earlier ones of the same device *)
  si_closed d m o o' : nt_machines net !! d = Some m -> owner_knows net o -> knows m.2 o' ->
    device_of o = device_of o' -> before (time_of o) (time_of o') -> knows m.2 o;
  si_asks to v : (to, v) ∈ nt_asks net -> exists m, nt_machines net !! to = Some m /\
    forall d, known_of v d = (- 2 ^ 63, - 2 ^ 63) \/ exists o, knows m.2 o /\ device_of o = d /\ time_of o = known_of v d;
  si_sent to v : (to, v) ∈ nt_sent net -> exists m ops, nt_machines net !! to = Some m /\ v = ops_value ops /\ (forall o, o ∈ ops -> owner_knows net o) /\
    forall o o', o' ∈ ops -> owner_knows net o -> device_of o = device_of o' -> before (time_of o) (time_of o') -> knows m.2 o \/ o ∈ ops }.

Lemma owner_fits net o : shelf_inv net -> owner_knows net o -> op_fits o.
Proof. intros Hi (m & Hm & Hk). destruct (si_machine _ Hi _ _ Hm) as (_ & _ & [Hr _ _ _]). by apply knows_spec in Hk as [? _]. Qed.

Lemma owner_functional net : shelf_inv net -> functional (owner_knows net).
Proof.
  intros Hi o o' (m & Hm & Hk) (m' & Hm' & Hk') Ha. assert (device_of o = device_of o') as E by (unfold device_of; by rewrite Ha). rewrite <- E in Hm'.
  simplify_eq. destruct (si_machine _ Hi _ _ Hm) as (_ & _ & [Hr _ _ _]). by apply (knows_functional m.2).
Qed.

(** One machine comes to know more: what it makes, later than all it knows, or what others made,
    without a gap *)
Lemma inv_change net d m m' (more : Op -> Prop) :
  shelf_inv net -> nt_machines net !! d = Some m -> good m' -> rp_me m'.1 = d ->
  (forall o, knows m'.2 o <-> knows m.2 o \/ more o) ->
  (forall o, more o -> (device_of o = d /\ strictly (rp_clock m.1) (time_of o)) \/
    (owner_knows net o /\ forall x, owner_knows net x -> device_of x = device_of o -> before (time_of x) (time_of o) -> knows m.2 x \/ more x)) ->
  shelf_inv (set_machine d m' net).
Proof.
  intros Hi Hm Hg Hme Hk Hmore. pose proof Hi as [Hma Hown Hcl Hask Hsent]. destruct (Hma _ _ Hm) as (Hd & Hmme & Hgm).
  assert (forall o, knows m.2 o -> device_of o = d -> before (time_of o) (rp_clock m.1)) as Hclock by (intros o Ho _; by apply (pj_clock _ _ (gd_projects _ Hgm))).
  assert (forall o, owner_knows net o -> owner_knows (set_machine d m' net) o) as Hup.
  { intros o (x & Hx & Ho). destruct (decide (device_of o = d)) as [E|E].
    - exists m'. simpl. rewrite E, lookup_insert_eq. rewrite E, Hm in Hx. simplify_eq. split; [done|]. apply Hk. by left.
    - exists x. simpl. by rewrite lookup_insert_ne. }
  assert (forall o, owner_knows (set_machine d m' net) o -> owner_knows net o \/ (device_of o = d /\ strictly (rp_clock m.1) (time_of o) /\ more o)) as Hdown.
  { intros o (x & Hx & Ho). simpl in Hx. apply lookup_insert_Some in Hx as [[Ed <-]|[_ Hx]]; [|left; by exists x].
    apply Hk in Ho as [Ho|Ho]; [left; by eapply Hown|]. destruct (Hmore o Ho) as [[? ?]|[? _]]; auto. }
  assert (forall x o, owner_knows net x -> device_of x = d -> strictly (rp_clock m.1) (time_of o) -> before (time_of o) (time_of x) -> False) as Hlate.
  { intros x o (y & Hy & Hx) E Hs Hb. rewrite E, Hm in Hy. simplify_eq. eapply strictly_irrefl; [exact Hs|]. etrans; [exact Hb|]. by apply Hclock. }
  split; simpl.
  - intros e x Hx. apply lookup_insert_Some in Hx as [[<- <-]|[_ Hx]]; [done|by apply Hma].
  - intros e x o Hx Ho. apply lookup_insert_Some in Hx as [[<- <-]|[_ Hx]]; [|by eapply Hup, Hown]. apply Hk in Ho as [Ho|Ho]; [by eapply Hup, Hown|].
    destruct (Hmore o Ho) as [[Ed _]|[? _]]; [|by apply Hup]. exists m'. simpl. rewrite Ed, lookup_insert_eq. split; [done|]. apply Hk. by right.
  - intros e x o o' Hx Ho Ho' Ed Hb. apply lookup_insert_Some in Hx as [[<- <-]|[_ Hx]].
    + apply Hk. destruct (Hdown o Ho) as [Ho1|(_ & _ & ?)]; [|by right]. apply Hk in Ho' as [Ho'|Ho']; [left; by eapply Hcl|].
      destruct (Hmore o' Ho') as [[E _]|[_ Hc]]; [|by apply Hc]. left. destruct Ho1 as (y & Hy & ?). rewrite Ed, E, Hm in Hy. by simplify_eq.
    + destruct (Hdown o Ho) as [Ho1|(E & Hs & _)]; [by eapply Hcl|]. exfalso. eapply (Hlate o' o); [by eapply Hown|congruence|done|done].
  - intros to v Hv. destruct (Hask to v Hv) as (x & Hx & Hkn). destruct (decide (to = d)) as [->|Hne].
    + exists m'. rewrite lookup_insert_eq. split; [done|]. intros e. rewrite Hm in Hx. simplify_eq. destruct (Hkn e) as [|(o & ? & ?)]; [by left|right].
      exists o. rewrite Hk. auto.
    + exists x. by rewrite lookup_insert_ne.
  - intros to v Hv. destruct (Hsent to v Hv) as (x & ops & Hx & -> & Ho & Hcov).
    assert (forall o o', o' ∈ ops -> owner_knows (set_machine d m' net) o -> device_of o = device_of o' -> before (time_of o) (time_of o') -> knows x.2 o \/ o ∈ ops) as Hcov'.
    { intros o o' Ho' Hoo Ed Hb. destruct (Hdown o Hoo) as [?|(E & Hs & _)]; [by eapply Hcov|]. exfalso. eapply (Hlate o' o); [by apply Ho|congruence|done|done]. }
    destruct (decide (to = d)) as [->|Hne].
    + exists m', ops. rewrite lookup_insert_eq. rewrite Hm in Hx. simplify_eq. split_and!; [done..|by auto|]. intros o o' ? ? ? ?. rewrite Hk. destruct (Hcov' o o'); auto.
    + exists x, ops. rewrite lookup_insert_ne by done. split_and!; [done..|by auto|done].
Qed.

(** *** Every step keeps it *)

Lemma sane_fields me wall task birth fields :
  sane me wall task birth [] -> (forall f v, (f, v) ∈ fields -> f ≠ "" /\ travels text_keeps v) -> sane me wall task birth fields.
Proof. by intros [? ? ? ? _]. Qed.

Lemma sane_owner me wall task birth s : sane me wall task birth [] -> sane me wall task birth [("owner", JString s)].
Proof. intros Hs. apply (sane_fields _ _ _ _ _ Hs). intros f v [= -> ->]%list_elem_of_singleton. split; [done|constructor]. Qed.

Lemma travels_i64 kept z : in_i64 z -> travels kept (from_i64 z).
Proof. intros Hz. unfold from_i64, in_i64 in *. destruct (0 <=? z) eqn:E; [apply Z.leb_le in E|apply Z.leb_gt in E]; constructor; lia. Qed.

Lemma travels_at kept z : in_i64 z -> travels kept (obj [("at", from_i64 z)]).
Proof.
  intros Hz. constructor; [apply NoDup_singleton|]. intros k v. simpl. case_decide; [|done]. intros [= <-]. by apply travels_i64.
Qed.

Lemma travels_from_at kept s z : in_i64 z -> travels kept (obj [("from", JString s); ("at", from_i64 z)]).
Proof.
  intros Hz. constructor; [apply NoDup_cons; split; [by rewrite list_elem_of_singleton|apply NoDup_singleton]|].
  intros k v. simpl. case_decide; [intros [= <-]; constructor|]. case_decide; [|done]. intros [= <-]. by apply travels_i64.
Qed.

Lemma leaves_stored permit task birth : leaves_ops (stored_permit permit task birth).
Proof. destruct permit; [apply leaves_hold|done]. Qed.

Lemma outcome_snd {A B} (f : A -> outcome string B) (p : outcome string A * Machine) : (let '(result, m) := p in (outcome_bind result f, m)).2 = p.2.
Proof. by destruct p. Qed.

Lemma acts_local calm net d m m' gs : good m -> acts calm net d m m' gs -> exists made, local_step m made m'.
Proof.
  intros Hg Ha. assert (exists made, local_step m made m) as Hsame by (exists []; by apply local_refl).
  assert (forall fault task birth held, exists made, local_step m made (keep_authority fault task birth held m).2) as Hkeep
    by (intros; exists []; by apply keep_authority_local).
  destruct m as [r db]. destruct Ha.
  - by apply write_local.
  - destruct (keep_ops_local wall task birth fields r db ops r0 fault (stored_permit permit task birth)) as (made & Hl & _); [done..|apply leaves_stored|]. by exists made.
  - unfold start. destruct first; simpl; [|done..]. destruct (authority db task birth) as [[e [] to]|]; simpl; try done. by apply (Hkeep fault task birth (mkAuthority _ PRunning None)).
  - unfold grant in *. destruct first; [|by simplify_eq..]. destruct (authority db task birth) as [[e [] to']|]; try by simplify_eq.
    destruct (succ_i64 e) as [e'|]; [|by simplify_eq]. apply (f_equal snd) in H2. rewrite outcome_snd in H2. cbn [snd] in H2. subst m'. by apply own_local; [|apply sane_owner].
  - unfold hand in *. destruct first; [|by simplify_eq..]. destruct (authority db task birth) as [[e [] to']|]; try by simplify_eq.
    all: destruct (succ_i64 e) as [e'|]; [|by simplify_eq]; apply (f_equal snd) in H2; rewrite outcome_snd in H2; cbn [snd] in H2; subst m'; by apply own_local; [|apply sane_owner].
  - unfold receive. destruct first; [|done..]. case_match; [done|]. rewrite outcome_snd. by apply own_local; [|apply sane_owner].
  - unfold ran. case_match; [done|]. apply write_local; [done|]. apply (sane_fields _ _ _ _ _ H1). intros f v [= -> ->]%list_elem_of_singleton. split; [done|by apply travels_at].
  - unfold acked. destruct (authority db task birth) as [[e [] to']|]; simpl; try done. case_match; [|done]. by apply (Hkeep fault task birth (mkAuthority _ PAcked to')).
  - assert (sane (rp_me r) wall task birth [("owner", JString (rp_me r)); (RUN +:+ rp_me r, obj [("from", JString from); ("at", from_i64 at_)])]) as Hs.
    { apply (sane_fields _ _ _ _ _ H2). intros f v [[= -> ->]|[= -> ->]%list_elem_of_singleton]%elem_of_cons; (split; [done|]); [constructor|by apply travels_from_at]. }
    unfold take_from. destruct (stage _ _ _ _ r) as [[ops r']|] eqn:E; [|done].
    destruct (keep_ops_local _ _ _ _ r db ops r' (Before "") id Hg Hs E leaves_id) as (made0 & Hl0 & _). simpl in Hl0.
    destruct fault; [|by exists made0|]; (destruct (succ_i64 _) as [e|]; [|by exists made0]); rewrite outcome_snd;
      match goal with |- exists _, local_step _ _ (keep_ops ?f _ (set_authority _ _ ?h) _ _).2 =>
        destruct (keep_ops_local _ _ _ _ r db ops r' f _ Hg Hs E (leaves_authority task birth h)) as (made & Hl & _); by exists made end.
  - unfold reclaim. by apply own_local; [|apply sane_owner].
  - exists []. by apply (authority_local (r, db)).
  - unfold hold. apply Hkeep.
Qed.

Lemma inv_same net net' : nt_machines net' = nt_machines net -> nt_asks net' = nt_asks net -> nt_sent net' = nt_sent net -> shelf_inv net -> shelf_inv net'.
Proof.
  intros E1 E2 E3 [H1 H2 H3 H4 H5]. assert (forall o, owner_knows net' o <-> owner_knows net o) as Eo by (intros o; unfold owner_knows; by rewrite E1).
  split; rewrite ?E1, ?E2, ?E3; [done|intros; rewrite Eo; eauto|intros d m o o' ?; rewrite Eo; eauto|done|].
  intros to v Hv. destruct (H5 to v Hv) as (m & ops & ? & ? & Ho & Hc). exists m, ops. split_and!; [done..|intros; rewrite Eo; auto|]. intros o o' ?. rewrite Eo. eauto.
Qed.

Lemma inv_new devices : "" ∉ devices -> shelf_inv (net_new devices).
Proof.
  intros Hne. assert (forall d m, nt_machines (net_new devices) !! d = Some m -> d ∈ devices /\ m = machine_new d) as Hl.
  { intros d m Hm%elem_of_list_to_map_2. apply list_elem_of_fmap in Hm as (x & [= <- <-] & ?). done. }
  assert (forall d o, ~ knows (machine_new d).2 o) as Hno.
  { intros d o. unfold knows, db_op_list. simpl. rewrite map_to_list_empty. apply not_elem_of_nil. }
  split; simpl.
  - intros d m Hm. destruct (Hl d m Hm) as [Hd ->]. split_and!; [by intros ->|done|]. split; simpl.
    + intros key row Hx. cbn in Hx. by rewrite lookup_empty in Hx.
    + apply projects_device, open_projects.
    + unfold replica_open. rewrite applied_clock. unfold db_op_list. simpl. rewrite map_to_list_empty. by split_and!; unfold before, in_i64; simpl; try lia.
    + by split_and!; unfold before, in_i64; simpl; try lia.
  - intros d m o Hm Ho. destruct (Hl d m Hm) as [_ ->]. by destruct (Hno d o).
  - intros d m o o' Hm _ Ho. destruct (Hl d m Hm) as [_ ->]. by destruct (Hno d o').
  - by intros to v ?%elem_of_nil.
  - by intros to v ?%elem_of_nil.
Qed.

Lemma inv_ask net d m :
  shelf_inv net -> nt_machines net !! d = Some m -> shelf_inv (mkNet (nt_machines net) ((d, vector m.1) :: nt_asks net) (nt_sent net) (nt_grants net)).
Proof.
  intros Hi Hm. pose proof Hi as [H1 H2 H3 H4 H5]. split; simpl; [done|done|done| |done].
  intros to v [[= -> ->]|Hv]%elem_of_cons; [|by apply H4]. exists m. split; [done|]. intros e. destruct (H1 _ _ Hm) as (_ & _ & Hg).
  rewrite (known_of_vector m e Hg). pose proof (pj_seen _ _ (gd_projects _ Hg) e) as Hs. destruct (rp_seen m.1 !! e) as [t|]; [|by left]. right. by destruct Hs as [? _].
Qed.

Lemma known_is net to v m o :
  shelf_inv net -> (to, v) ∈ nt_asks net -> nt_machines net !! to = Some m -> owner_knows net o -> before (time_of o) (known_of v (device_of o)) -> knows m.2 o.
Proof.
  intros Hi Hv Hm Ho Hb. destruct (si_asks _ Hi _ _ Hv) as (x & Hx & Hk). injection (eq_trans (eq_sym Hm) Hx) as <-. clear Hx.
  destruct (Hk (device_of o)) as [E|(o' & Ho' & Ed & E)].
  - rewrite E in Hb. pose proof (fit_time _ (owner_fits _ _ Hi Ho)) as Hs. exfalso. eapply strictly_irrefl; [exact Hs|]. etrans; [exact Hb|]. unfold before. simpl. lia.
  - rewrite <- E in Hb. by eapply (si_closed _ Hi).
Qed.

Lemma inv_answer net d m to v :
  shelf_inv net -> nt_machines net !! d = Some m -> (to, v) ∈ nt_asks net ->
  shelf_inv (mkNet (nt_machines net) (nt_asks net) ((to, ops_value (ops_after m.1 m.2 v)) :: nt_sent net) (nt_grants net)).
Proof.
  intros Hi Hm Hv. pose proof Hi as [H1 H2 H3 H4 H5]. split; simpl; [done|done|done|done|].
  intros to' v' [[= -> ->]|Hv']%elem_of_cons; [|by apply H5]. destruct (H4 _ _ Hv) as (x & Hx & _). exists x, (ops_after m.1 m.2 v).
  destruct (H1 _ _ Hm) as (_ & _ & [Hr Hp _ _]). destruct (ops_after_spec m.1 m.2 v Hr Hp) as ([Hin Hgap] & _ & _).
  split_and!; [done|done|intros o Ho; eapply H2; [exact Hm|by apply Hin]|].
  intros o o' Ho' Ho Ed Hb. destruct (Hgap o o') as [Hk|]; [done|eapply H3; [exact Hm|done|by apply Hin|done|done]|done|done| |by right].
  left. by eapply (known_is net).
Qed.

Lemma inv_given net d m v fault :
  shelf_inv net -> nt_machines net !! d = Some m -> (d, v) ∈ nt_sent net -> shelf_inv (set_machine d (apply_ops fault (ops_of v) m).2 net).
Proof.
  intros Hi Hm Hv. destruct (si_sent _ Hi _ _ Hv) as (x & ops & Hx & -> & Ho & Hc). injection (eq_trans (eq_sym Hm) Hx) as <-. clear Hx.
  destruct (si_machine _ Hi _ _ Hm) as (Hd & Hme & Hg). rewrite ops_wire by (intros o Hx; by eapply owner_fits, Ho).
  destruct (apply_ops_spec fault ops m) as (Hg' & Hme' & _ & Hk & _); [done|intros o Hx; by eapply owner_fits, Ho| |].
  { eapply functional_sub, (owner_functional net Hi). intros o [Hx|Hx]; [by eapply (si_owned _ Hi)|auto]. }
  eapply (inv_change net d m _ (fun o => fault = Fine /\ o ∈ ops)); [done|done|done|congruence|done|].
  intros o [Hf Hx]. right. split; [auto|]. intros y Hy Ed Hb. destruct (Hc y o); auto.
Qed.

Lemma inv_step calm net net' : shelf_inv net -> net_step calm net net' -> shelf_inv net'.
Proof.
  intros Hi Hst. destruct Hst as [d m m' gs Hm Ha|d m Hm|d m to v Hm Hv|d m v fault Hm Hv|d m Hm].
  - apply (inv_same (set_machine d m' net)); [done..|]. destruct (si_machine _ Hi _ _ Hm) as (Hd & Hme & Hg). destruct (acts_local _ _ _ _ _ _ Hg Ha) as (made & [Hl1 Hl2 Hl3 Hl4]).
    eapply (inv_change net d m m' (fun o => o ∈ made)); [done|done|done|congruence|done|]. intros o Ho. left. destruct (Hl2 o Ho) as [E ?]. by rewrite E.
  - by apply inv_ask.
  - by eapply inv_answer.
  - by apply inv_given.
  - destruct (si_machine _ Hi _ _ Hm) as (Hd & Hme & Hg). destruct (good_reopen d m Hg) as (Hg' & _ & _).
    eapply (inv_change net d m _ (fun _ => False)); [done..|intros o; simpl; tauto|done].
Qed.

Lemma reaches_inv calm net : reaches calm net -> shelf_inv net.
Proof. induction 1; [by apply inv_new|by eapply inv_step]. Qed.
End Invariant.

(** ** Who may start a task *)

Section Token.
Context `{JsonText} {order : HashOrder}.

Definition may_start (a : Authority) : Prop := au_permit a = PReady \/ au_permit a = PRunning.

Lemma permit_back p : permit_parse (permit_as_str p) = p.
Proof. by destruct p. Qed.

Lemma authority_set task birth held db t b :
  authority (set_authority task birth held db) t b = if decide ((task, birth) = (t, b)) then Some held else authority db t b.
Proof.
  unfold authority. simpl. case_decide as E; [|by rewrite lookup_insert_ne]. rewrite E, lookup_insert_eq. simpl. rewrite permit_back. by destruct held.
Qed.

Lemma authority_same db db' t b : db_authority db' = db_authority db -> authority db' t b = authority db t b.
Proof. unfold authority. by intros ->. Qed.

Lemma insert_ops_authority ops db : db_authority (insert_ops ops db).2 = db_authority db.
Proof.
  revert db. induction ops as [|o ops IH]; intros db; simpl; [done|]. destruct (insert_op o db) as [n db'] eqn:E. specialize (IH db').
  assert (db_authority db' = db_authority db) as <- by (revert E; unfold insert_op; case_match; by intros [= _ <-]). by destruct (insert_ops ops db').
Qed.

Lemma keep_ops_authority fault ops also r db :
  db_authority (keep_ops fault ops also r db).2.2 = match fault with Fine => db_authority (also db) | _ => db_authority db end.
Proof.
  destruct fault; simpl; [|done..]. unfold commit. rewrite <- (insert_ops_authority ops (also db)). by destruct (insert_ops ops (also db)).
Qed.

(** What an act may do to the authority for a task *)
Inductive shift (net : Net) (d task birth : string) : option Authority -> option Authority -> list Grant -> Prop :=
| shift_none a : shift net d task birth a a []
| shift_born a : unborn net task birth -> made_on birth = Some d -> au_epoch a = 0 -> shift net d task birth None (Some a) []
| shift_same a a' : au_epoch a' = au_epoch a -> (may_start a' -> may_start a) -> shift net d task birth (Some a) (Some a') []
| shift_give a to : may_start a -> shift net d task birth (Some a) (Some (mkAuthority (au_epoch a + 1) PSent (Some to))) [mkGrant task birth (au_epoch a + 1) to]
| shift_take a epoch :
    mkGrant task birth epoch d ∈ nt_grants net -> (forall x, a = Some x -> au_epoch x < epoch) ->
    shift net d task birth a (Some (mkAuthority epoch PReady None)) [].

(** What an act does for a task: it moves the authority for one task, and gives its grants for that *)
Definition shifts (net : Net) (d : string) (m m' : Machine) (gs : list Grant) : Prop :=
  forall t b, shift net d t b (authority m.2 t b) (authority m'.2 t b) (retain (fun g => bool_decide ((gr_task g, gr_birth g) = (t, b))) gs).

Lemma shifts_same net d m m' : db_authority m'.2 = db_authority m.2 -> shifts net d m m' [].
Proof. intros E t b. rewrite (authority_same m.2 m'.2) by done. constructor. Qed.

Lemma shifts_one net d m m' gs task birth held :
  db_authority m'.2 = db_authority (set_authority task birth held m.2) ->
  (forall g, g ∈ gs -> (gr_task g, gr_birth g) = (task, birth)) ->
  shift net d task birth (authority m.2 task birth) (Some held) gs -> shifts net d m m' gs.
Proof.
  intros E Hgs Hs t b. rewrite (authority_same _ _ t b E), authority_set. case_decide as Etb.
  - injection Etb as <- <-. assert (retain (fun g => bool_decide ((gr_task g, gr_birth g) = (task, birth))) gs = gs) as ->; [|done].
    clear Hs. induction gs as [|g gs IH]; [done|]. unfold retain in *. simpl. rewrite bool_decide_true by (apply Hgs; left). f_equal. apply IH. intros. apply Hgs. by right.
  - assert (retain (fun g => bool_decide ((gr_task g, gr_birth g) = (t, b))) gs = []) as ->; [|constructor].
    clear Hs. induction gs as [|g gs IH]; [done|]. unfold retain in *. simpl. rewrite bool_decide_false by (rewrite Hgs by left; done). apply IH. intros. apply Hgs. by right.
Qed.

Lemma keep_authority_shifts net d fault task birth held m a :
  authority m.2 task birth = Some a -> au_epoch held = au_epoch a -> (may_start held -> may_start a) ->
  shifts net d m (keep_authority fault task birth held m).2 [].
Proof.
  destruct m as [r db]. intros Ha He Hp. destruct fault; simpl; [|by apply shifts_same..]. eapply shifts_one; [done|by intros g ?%elem_of_nil|]. simpl in *. rewrite Ha.
  by constructor.
Qed.

(** The end of [own]: nothing is changed, or the authority is written *)
Lemma own_authority wall fault task birth fields held m result m' :
  own wall fault task birth fields held m = (result, m') ->
  (result = Good tt /\ db_authority m'.2 = db_authority (set_authority task birth held m.2)) \/ (result ≠ Good tt /\ db_authority m'.2 = db_authority m.2).
Proof.
  destruct m as [r db]. unfold own. destruct (stage _ _ _ _ r) as [[ops r']|]; [|intros [= <- <-]; by right].
  pose proof (keep_ops_authority fault ops (set_authority task birth held) r' db) as Hk. destruct fault; simpl in *; intros [= <- <-]; [left|right..]; done.
Qed.

Lemma succ_i64_Some a b : succ_i64 a = Some b -> b = a + 1.
Proof. unfold succ_i64. case_decide; by intros [= <-]. Qed.

(** Giving a task away: the end of [grant] and of [hand] *)
Lemma give_shifts net d wall fault task birth to epoch a {A} (f : unit -> A) (g : A -> Grant) m result m' :
  authority m.2 task birth = Some a -> may_start a -> epoch = au_epoch a + 1 -> g (f tt) = mkGrant task birth epoch to ->
  (let '(result, m) := own wall fault task birth [("owner", JString to)] (mkAuthority epoch PSent (Some to)) m in (outcome_bind result (fun u => Good (f u)), m)) = (result, m') ->
  shifts net d m m' (given result g).
Proof.
  intros Ha Hm -> Hg. destruct (own _ _ _ _ _ _ m) as [res m1] eqn:E. intros [= <- <-]. apply own_authority in E as [[-> E]|[Hr E]].
  - simpl. rewrite Hg. eapply shifts_one; [exact E|by intros g' ->%list_elem_of_singleton|]. rewrite Ha. by constructor.
  - destruct res as [[]| |]; [done|by apply shifts_same..].
Qed.

Lemma write_authority wall fault task birth fields m : db_authority (write wall fault task birth fields m).2.2 = db_authority m.2.
Proof.
  destruct m as [r db]. unfold write. destruct (stage _ _ _ _ r) as [[[|o ops] r']|]; [done| |done]. rewrite keep_ops_authority. by destruct fault.
Qed.

Definition row (net : Net) (task birth d : string) : option Authority :=
  (nt_machines net !! d : option Machine) ≫= (fun m : Machine => authority (snd m) task birth).
Definition for_task (task birth : string) (g : Grant) : Prop := (gr_task g, gr_birth g) = (task, birth).

(** A task that any machine has a row or a grant for has a row where it was made *)
Definition home_inv (net : Net) : Prop := forall task birth,
  (exists d a, row net task birth d = Some a) \/ (exists g, g ∈ nt_grants net /\ for_task task birth g) ->
  exists d a, made_on birth = Some d /\ row net task birth d = Some a.

Lemma home_unborn net d (m : Machine) task birth :
  home_inv net -> nt_machines net !! d = Some m -> made_on birth = Some d -> authority m.2 task birth = None -> unborn net task birth.
Proof.
  intros Hh Hm Hb Hn.
  assert (~ exists e a, made_on birth = Some e /\ row net task birth e = Some a) as Hno.
  { intros (e & a & He & Ha). assert (e = d) as -> by congruence. unfold row in Ha. rewrite Hm in Ha. simpl in Ha. congruence. }
  split.
  - intros e m' Hm'. destruct (authority m'.2 task birth) as [a|] eqn:E; [|done]. destruct Hno. apply Hh. left. exists e, a. unfold row. change (prod Replica Db) with Machine in Hm'. by rewrite Hm'.
  - intros g Hg Hf. destruct Hno. apply Hh. right. by exists g.
Qed.

Lemma acts_shifts net d (m m' : Machine) gs : home_inv net -> nt_machines net !! d = Some m -> acts true net d m m' gs -> shifts net d m m' gs.
Proof.
  intros Hh Hnm Ha. destruct m as [r db]. destruct Ha; try done.
  - apply shifts_same, write_authority.
  - destruct (authority db task birth) as [a|] eqn:Ea.
    + apply shifts_same. rewrite keep_ops_authority. destruct fault; [|done..]. destruct permit; [|done]. simpl. unfold hold_unless_held. by rewrite Ea.
    + destruct (H2 eq_refl) as [[? Hs]|Hmade]; [simpl in Hs; congruence|]. pose proof (home_unborn net d (r, db) task birth Hh Hnm Hmade Ea) as Hun. destruct fault as [| |]; [|by apply shifts_same; rewrite keep_ops_authority..].
      destruct permit as [p|]; [|by apply shifts_same; rewrite keep_ops_authority].
      eapply (shifts_one _ _ _ _ _ task birth (mkAuthority 0 p None)); [rewrite keep_ops_authority; simpl; unfold hold_unless_held; by rewrite Ea|by intros g ?%elem_of_nil|].
      simpl. rewrite Ea. by constructor.
  - unfold start. destruct first; [|by apply shifts_same..]. destruct (authority db task birth) as [[e [] to]|] eqn:Ea; try by apply shifts_same.
    unfold hold. rewrite Ea. eapply keep_authority_shifts; [exact Ea|done|]. intros _. by left.
  - unfold grant in *. destruct first; [|by simplify_eq; apply shifts_same..]. destruct (authority db task birth) as [[e [] to']|] eqn:Ea; try by simplify_eq; apply shifts_same.
    destruct (succ_i64 e) as [e'|] eqn:Es; [|by simplify_eq; apply shifts_same].
    eapply (give_shifts net d wall fault task birth to e' _ (fun _ => mkGrant task birth e' to)); [exact Ea|by left|by apply succ_i64_Some|done|exact H1].
  - unfold hand in *. destruct first; [|by simplify_eq; apply shifts_same..]. destruct (authority db task birth) as [[e [] to']|] eqn:Ea; try by simplify_eq; apply shifts_same.
    all: destruct (succ_i64 e) as [e'|] eqn:Es; [|by simplify_eq; apply shifts_same];
      eapply (give_shifts net d wall fault task birth to e' _ (fun _ => e')); [exact Ea| |by apply succ_i64_Some|done|exact H1]; [by left + by right..].
  - unfold receive. destruct first; [|by apply shifts_same..]. destruct (match authority db _ _ with Some _ => _ | None => _ end) eqn:Ed; [by apply shifts_same|].
    rewrite outcome_snd. destruct (own _ _ _ _ _ _ (r, db)) as [res m1] eqn:E. apply own_authority in E as [[-> E]|[_ E]]; [|by apply shifts_same].
    eapply shifts_one; [exact E|by intros g' ?%elem_of_nil|]. constructor; [destruct g; by simplify_eq/=|]. intros x Hx. simpl in Hx. rewrite Hx in Ed. apply Z.leb_gt in Ed. lia.
  - unfold ran. case_match; [by apply shifts_same|]. apply shifts_same, write_authority.
  - unfold acked. destruct (authority db task birth) as [[e [] to']|] eqn:Ea; try by apply shifts_same. case_match; [|by apply shifts_same].
    eapply keep_authority_shifts; [exact Ea|done|]. by intros [|].
Qed.

(** A grant that its machine would take *)
Definition pending (net : Net) (task birth : string) (g : Grant) : Prop :=
  g ∈ nt_grants net /\ for_task task birth g /\ forall a, row net task birth (gr_to g) = Some a -> au_epoch a < gr_epoch g.

(** The authority for a task is at one machine or on its way to one, at the highest epoch *)
Record token_inv (net : Net) (task birth : string) (top : Z) : Prop := {
  tk_row d a : row net task birth d = Some a -> au_epoch a <= top;
  tk_grant g : g ∈ nt_grants net -> for_task task birth g -> gr_epoch g <= top;
  tk_holder d a : row net task birth d = Some a -> may_start a -> au_epoch a = top;
  tk_one d d' a a' : row net task birth d = Some a -> may_start a -> row net task birth d' = Some a' -> may_start a' -> d = d';
  tk_pending g d a : pending net task birth g -> row net task birth d = Some a -> ~ may_start a;
  tk_top g : pending net task birth g -> gr_epoch g = top;
  tk_to g g' : pending net task birth g -> pending net task birth g' -> gr_to g = gr_to g' }.

Lemma not_may_sent e to : ~ may_start (mkAuthority e PSent to).
Proof. by intros [|]. Qed.

Lemma token_ext net net' task birth top :
  token_inv net task birth top ->
  (forall e a', row net' task birth e = Some a' -> exists a, row net task birth e = Some a /\ au_epoch a' = au_epoch a /\ (may_start a' -> may_start a)) ->
  (forall e a, row net task birth e = Some a -> exists a', row net' task birth e = Some a' /\ au_epoch a' = au_epoch a) ->
  (forall g, for_task task birth g -> g ∈ nt_grants net' -> g ∈ nt_grants net) ->
  token_inv net' task birth top.
Proof.
  intros [Hr Hgr Hh Ho Hp Ht Hto] Hd Hu Hg.
  assert (forall g, pending net' task birth g -> pending net task birth g) as Hpend.
  { intros g (Hin & Hf & Hlow). split_and!; [auto..|]. intros a Ha. destruct (Hu _ _ Ha) as (a' & Ha' & <-). auto. }
  split.
  - intros e a' Ha'. destruct (Hd _ _ Ha') as (a & ? & -> & _). eauto.
  - auto.
  - intros e a' Ha' Hm. destruct (Hd _ _ Ha') as (a & ? & -> & ?). eauto.
  - intros d d' a a' Ha Hm Ha' Hm'. destruct (Hd _ _ Ha) as (x & ? & _ & ?), (Hd _ _ Ha') as (y & ? & _ & ?). eauto.
  - intros g d a Hpg Ha Hm. destruct (Hd _ _ Ha) as (x & ? & _ & ?). eapply Hp; eauto.
  - auto.
  - auto.
Qed.

Lemma token_give net net' task birth top d a to :
  token_inv net task birth top -> row net task birth d = Some a -> may_start a ->
  (forall e, row net' task birth e = if decide (e = d) then Some (mkAuthority (au_epoch a + 1) PSent (Some to)) else row net task birth e) ->
  (forall g, for_task task birth g -> g ∈ nt_grants net' -> g = mkGrant task birth (au_epoch a + 1) to \/ g ∈ nt_grants net) ->
  token_inv net' task birth (top + 1).
Proof.
  intros [Hr Hgr Hh Ho Hp Ht Hto] Ha Hm Hrow Hg. pose proof (Hh _ _ Ha Hm) as Etop.
  assert (forall e x, row net' task birth e = Some x -> may_start x -> False) as Hnone.
  { intros e x. rewrite Hrow. case_decide as Ee; [intros [= <-]; apply not_may_sent|]. intros Hx Hmx. apply Ee. eapply Ho; eauto. }
  assert (forall g, pending net' task birth g -> g = mkGrant task birth (au_epoch a + 1) to) as Hpend.
  { intros g (Hin & Hf & Hlow). destruct (Hg g Hf Hin) as [|Hold]; [done|]. exfalso. eapply (Hp g); [|exact Ha|exact Hm]. split_and!; [done..|].
    intros x Hx. pose proof (Hgr g Hold Hf) as Hle. rewrite Hrow in Hlow. case_decide as Ee; [|auto]. specialize (Hlow _ eq_refl). simpl in Hlow. lia. }
  split.
  - intros e x. rewrite Hrow. case_decide; [intros [= <-]; simpl; lia|]. intros Hx%Hr. lia.
  - intros g Hin Hf. destruct (Hg g Hf Hin) as [->|Hold]; simpl; [lia|]. pose proof (Hgr g Hold Hf). lia.
  - intros e x Hx Hmx. by destruct (Hnone e x).
  - intros e e' x x' Hx Hmx. by destruct (Hnone e x).
  - intros g e x _ Hx Hmx. by destruct (Hnone e x).
  - intros g ->%Hpend. simpl. lia.
  - by intros g g' ->%Hpend ->%Hpend.
Qed.

Lemma token_take net net' task birth top d epoch :
  token_inv net task birth top -> pending net task birth (mkGrant task birth epoch d) ->
  (forall e, row net' task birth e = if decide (e = d) then Some (mkAuthority epoch PReady None) else row net task birth e) ->
  (forall g, for_task task birth g -> g ∈ nt_grants net' -> g ∈ nt_grants net) ->
  token_inv net' task birth top.
Proof.
  intros [Hr Hgr Hh Ho Hp Ht Hto] Hpg Hrow Hg. pose proof (Ht _ Hpg) as Etop. simpl in Etop.
  assert (forall e x, row net' task birth e = Some x -> may_start x -> e = d /\ au_epoch x = top) as Hone.
  { intros e x. rewrite Hrow. case_decide as Ee; [intros [= <-]; done|]. intros Hx Hmx. by destruct (Hp _ _ _ Hpg Hx). }
  assert (forall g, pending net' task birth g -> False) as Hnone.
  { intros g (Hin & Hf & Hlow). pose proof (Hgr g (Hg g Hf Hin) Hf) as Hle. assert (pending net task birth g) as Hold.
    { split_and!; [auto..|]. intros x Hx. destruct (decide (gr_to g = d)) as [E|E]; [|apply Hlow; by rewrite Hrow, decide_False].
      specialize (Hlow (mkAuthority epoch PReady None)). rewrite Hrow, decide_True in Hlow by done. specialize (Hlow eq_refl). simpl in Hlow. lia. }
    pose proof (Hto _ _ Hold Hpg) as E. simpl in E. specialize (Hlow (mkAuthority epoch PReady None)). rewrite Hrow, decide_True in Hlow by done. specialize (Hlow eq_refl). simpl in Hlow. lia. }
  split.
  - intros e x. rewrite Hrow. case_decide; [intros [= <-]; simpl; lia|eauto].
  - auto.
  - intros e x Hx Hmx. by destruct (Hone e x).
  - intros e e' x x' Hx Hmx Hx' Hmx'. destruct (Hone e x), (Hone e' x'); [done..|congruence].
  - intros g e x Hpg'. by destruct (Hnone g).
  - intros g Hpg'. by destruct (Hnone g).
  - intros g g' Hpg'. by destruct (Hnone g).
Qed.

Lemma token_born net net' task birth d a :
  unborn net task birth -> au_epoch a = 0 ->
  (forall e, row net' task birth e = if decide (e = d) then Some a else row net task birth e) ->
  (forall g, for_task task birth g -> g ∈ nt_grants net' -> g ∈ nt_grants net) ->
  token_inv net' task birth 0.
Proof.
  intros [Hno Hng] He Hrow Hg. assert (forall e x, row net' task birth e = Some x -> e = d /\ x = a) as Hone.
  { intros e x. rewrite Hrow. case_decide; [by intros [= <-]|]. unfold row. destruct (nt_machines net !! e) as [m|] eqn:E; simpl; [|done]. by rewrite (Hno e m E). }
  assert (forall g, g ∈ nt_grants net' -> for_task task birth g -> False) as Hnone by (intros g Hin Hf; by apply (Hng g); auto).
  split.
  - intros e x Hx. destruct (Hone e x Hx) as [_ ->]. lia.
  - intros g Hin Hf. by destruct (Hnone g).
  - intros e x Hx _. by destruct (Hone e x Hx) as [_ ->].
  - intros e e' x x' Hx _ Hx' _. destruct (Hone e x Hx), (Hone e' x' Hx'). congruence.
  - intros g e x (Hin & Hf & _). by destruct (Hnone g).
  - intros g (Hin & Hf & _). by destruct (Hnone g).
  - intros g g' (Hin & Hf & _). by destruct (Hnone g).
Qed.

Lemma retain_for task birth gs g :
  for_task task birth g -> g ∈ gs -> g ∈ retain (fun g => bool_decide ((gr_task g, gr_birth g) = (task, birth))) gs.
Proof. intros Hf Hg. unfold retain. rewrite list_elem_of_In, filter_In, <- list_elem_of_In. split; [done|]. by rewrite bool_decide_true. Qed.

Lemma token_act net d (m m' : Machine) gs task birth top :
  nt_machines net !! d = Some m -> shifts net d m m' gs -> token_inv net task birth top ->
  exists top', token_inv (add_grants gs (set_machine d m' net)) task birth top'.
Proof.
  intros Hm Hs Hi. specialize (Hs task birth). set (net' := add_grants _ _).
  assert (row net task birth d = authority m.2 task birth) as Hd by (unfold row; by rewrite Hm).
  assert (forall e, row net' task birth e = if decide (e = d) then authority m'.2 task birth else row net task birth e) as Hrow.
  { intros e. unfold row. simpl. case_decide as Ee; [by rewrite Ee, lookup_insert_eq|by rewrite lookup_insert_ne]. }
  assert (forall g, for_task task birth g -> g ∈ nt_grants net' -> g ∈ retain (fun g => bool_decide ((gr_task g, gr_birth g) = (task, birth))) gs \/ g ∈ nt_grants net) as Hg.
  { intros g Hf [Hin|Hin]%elem_of_app; [left; by apply retain_for|by right]. }
  assert (forall g, retain (fun g => bool_decide ((gr_task g, gr_birth g) = (task, birth))) gs = [] -> for_task task birth g -> g ∈ nt_grants net' -> g ∈ nt_grants net) as Hg0.
  { intros g E Hf Hin. destruct (Hg g Hf Hin) as [Hx|]; [|done]. rewrite E in Hx. by apply elem_of_nil in Hx. }
  rewrite <- Hd in Hs. destruct (row net task birth d) as [a|] eqn:Ea.
  - remember (Some a) as a0 eqn:Ea0. remember (authority m'.2 task birth) as a1 eqn:Ea1. remember (retain _ gs) as gs' eqn:Egs. destruct Hs; simplify_eq.
    + exists top. eapply token_ext; [exact Hi| | |by auto]; intros e x; rewrite Hrow; case_decide; intros; simplify_eq; eauto.
    + exists top. eapply token_ext; [exact Hi| | |by auto]; intros e x; rewrite Hrow; case_decide; intros; simplify_eq; eauto.
    + exists (top + 1). eapply token_give; [exact Hi|exact Ea|done|done|]. intros g Hf Hin. destruct (Hg g Hf Hin) as [->%list_elem_of_singleton|]; auto.
    + exists top. eapply (token_take net); [exact Hi| |done|by auto]. split_and!; [done..|]. simpl. intros x. rewrite Ea. auto.
  - remember None as a0 eqn:Ea0 in Hs. remember (authority m'.2 task birth) as a1 eqn:Ea1. remember (retain _ gs) as gs' eqn:Egs. destruct Hs; simplify_eq.
    + exists top. eapply token_ext; [exact Hi| | |by auto]; intros e x; rewrite Hrow; case_decide; intros; simplify_eq; eauto.
    + exists 0. eapply token_born; [done|done|done|by auto].
    + exists top. eapply (token_take net); [exact Hi| |done|by auto]. split_and!; [done..|]. simpl. intros x. by rewrite Ea.
Qed.

Lemma home_act net d (m m' : Machine) gs :
  nt_machines net !! d = Some m -> shifts net d m m' gs -> home_inv net -> home_inv (add_grants gs (set_machine d m' net)).
Proof.
  intros Hm Hs Hh task birth Hany. specialize (Hs task birth). set (net' := add_grants _ _) in *.
  assert (row net task birth d = authority m.2 task birth) as Hd by (unfold row; by rewrite Hm).
  assert (forall e, row net' task birth e = if decide (e = d) then authority m'.2 task birth else row net task birth e) as Hrow.
  { intros e. unfold row. simpl. case_decide as Ee; [by rewrite Ee, lookup_insert_eq|by rewrite lookup_insert_ne]. }
  assert (is_Some (authority m.2 task birth) -> is_Some (authority m'.2 task birth)) as Hup by (destruct Hs; done || by eexists).
  assert ((exists e a, made_on birth = Some e /\ row net task birth e = Some a) -> exists e a, made_on birth = Some e /\ row net' task birth e = Some a) as Hkeep.
  { intros (e & a & He & Ha). exists e. rewrite Hrow. case_decide as Ee; [|by exists a]. subst e. rewrite Hd in Ha.
    destruct Hup as [a' Ha']; [by exists a|]. by exists a'. }
  assert (authority m.2 task birth = authority m'.2 task birth \/ is_Some (authority m.2 task birth) \/ (made_on birth = Some d /\ is_Some (authority m'.2 task birth)) \/
    exists g, g ∈ nt_grants net /\ for_task task birth g) as Hcase.
  { destruct Hs; [by left|right; right; left; by split|by right; left|by right; left|right; right; right; by eexists]. }
  assert (forall g, g ∈ gs -> for_task task birth g -> is_Some (authority m.2 task birth)) as Hgiven.
  { intros g Hg Hf. apply (retain_for _ _ _ _ Hf) in Hg. revert Hg. destruct Hs; [by intros ?%elem_of_nil..|by eexists|by intros ?%elem_of_nil]. }
  destruct Hany as [(e & a & Ha)|(g & [Hg|Hg]%elem_of_app & Hf)].
  - rewrite Hrow in Ha. case_decide as Ee; [|apply Hkeep, Hh; left; eauto]. destruct Hcase as [E|[[x Hx]|[[Hb [x Hx]]|Hg]]].
    + apply Hkeep, Hh. left. exists d, a. congruence.
    + apply Hkeep, Hh. left. exists d, x. congruence.
    + exists d, x. split; [done|]. by rewrite Hrow, decide_True.
    + apply Hkeep, Hh. by right.
  - destruct (Hgiven g Hg Hf) as [x Hx]. apply Hkeep, Hh. left. exists d, x. congruence.
  - apply Hkeep, Hh. right. by exists g.
Qed.

(** What a machine is told, and a restart, move no authority *)
Lemma told_shifts net d (m : Machine) fault ops : shifts net d m (apply_ops fault ops m).2 [].
Proof.
  apply shifts_same. destruct m as [r db]. unfold apply_ops. destruct fault; simpl; [|done..].
  unfold commit. rewrite <- (insert_ops_authority (sorted_ops ops) db). by destruct (insert_ops _ db).
Qed.

Lemma home_step net net' : home_inv net -> net_step true net net' -> home_inv net'.
Proof.
  intros Hh Hst. destruct Hst as [d m m' gs Hm Ha|d m Hm|d m to v Hm Hv|d m v fault Hm Hv|d m Hm]; [|done..| |].
  - by eapply home_act; [|apply acts_shifts|].
  - by apply (home_act net d m _ []); [|apply told_shifts|].
  - by apply (home_act net d m _ []); [|apply shifts_same|].
Qed.

Lemma token_step net net' task birth top :
  home_inv net -> token_inv net task birth top -> net_step true net net' -> exists top', token_inv net' task birth top'.
Proof.
  intros Hh Hi Hst. destruct Hst as [d m m' gs Hm Ha|d m Hm|d m to v Hm Hv|d m v fault Hm Hv|d m Hm].
  - eapply token_act; [exact Hm|by apply acts_shifts|done].
  - exists top. eapply token_ext; [exact Hi|..]; eauto.
  - exists top. eapply token_ext; [exact Hi|..]; eauto.
  - apply (token_act net d m _ [] task birth top Hm); [|done]. apply told_shifts.
  - apply (token_act net d m _ [] task birth top Hm); [|done]. by apply shifts_same.
Qed.

Lemma new_row devices task birth d : row (net_new devices) task birth d = None.
Proof.
  unfold row. destruct (nt_machines (net_new devices) !! d) as [m|] eqn:E; simpl; [|done]. apply elem_of_list_to_map_2, list_elem_of_fmap in E as (x & [= <- ->] & _).
  unfold authority. simpl. by rewrite lookup_empty.
Qed.

Lemma reaches_home net : reaches true net -> home_inv net.
Proof.
  induction 1 as [devices _|net net' _ IH Hst]; [|by eapply home_step].
  intros task birth [(d & a & Ha)|(g & Hg & _)]; [by rewrite new_row in Ha|by apply elem_of_nil in Hg].
Qed.

Lemma reaches_token net task birth : reaches true net -> exists top, token_inv net task birth top.
Proof.
  induction 1 as [devices _|net net' Hr [top IH] Hst]; [|by eapply token_step; [apply reaches_home|..]]. exists 0.
  pose proof (new_row devices task birth) as Hn.
  split; try (intros *; rewrite Hn; done).
  - by intros g ?%elem_of_nil.
  - by intros g [?%elem_of_nil _].
  - by intros g g' [?%elem_of_nil _].
Qed.
End Token.

(** ** Machines that sync *)

Section Sync.
Context `{JsonTextLaws} {order : HashOrder} `{!DeviceOrder order}.

(** [b] asks [a], and is given what [a] answers *)
Definition pull (a b : Machine) : Machine := (apply_ops Fine (ops_of (ops_value (ops_after a.1 a.2 (vector b.1)))) b).2.

Lemma inv_fewer net asks sent :
  (forall x, x ∈ asks -> x ∈ nt_asks net) -> (forall x, x ∈ sent -> x ∈ nt_sent net) -> shelf_inv net -> shelf_inv (mkNet (nt_machines net) asks sent (nt_grants net)).
Proof. intros Ha Hs [H1 H2 H3 H4 H5]. split; simpl; [done..|intros to v Hv; by apply H4, Ha|intros to v Hv; by apply H5, Hs]. Qed.

Lemma pull_inv net d1 d2 m1 m2 :
  shelf_inv net -> nt_machines net !! d1 = Some m1 -> nt_machines net !! d2 = Some m2 -> shelf_inv (set_machine d2 (pull m1 m2) net).
Proof.
  intros Hi H1 H2. pose proof (inv_ask _ _ _ Hi H2) as Hi1. pose proof (inv_answer _ d1 m1 d2 (vector m2.1) Hi1 H1 ltac:(left)) as Hi2.
  pose proof (inv_given _ d2 m2 _ Fine Hi2 H2 ltac:(left)) as Hi3. eapply (inv_fewer _ (nt_asks net) (nt_sent net)) in Hi3; [exact Hi3|by right..].
Qed.

Lemma pull_spec net d1 d2 m1 m2 (ops := ops_after m1.1 m1.2 (vector m2.1)) :
  shelf_inv net -> nt_machines net !! d1 = Some m1 -> nt_machines net !! d2 = Some m2 ->
  NoDup ops /\ (forall o, o ∈ ops -> knows m1.2 o /\ ~ knows m2.2 o) /\ (forall o, knows (pull m1 m2).2 o <-> knows m2.2 o \/ o ∈ ops) /\
  ((length ops < MAX_OPS)%nat -> forall o, knows m1.2 o -> knows (pull m1 m2).2 o).
Proof.
  intros Hi Hm1 Hm2. destruct (si_machine _ Hi _ _ Hm1) as (_ & _ & [Hr1 Hp1 _ _]), (si_machine _ Hi _ _ Hm2) as (_ & _ & Hg2).
  destruct (ops_after_spec m1.1 m1.2 (vector m2.1) Hr1 Hp1) as ([Hin _] & Hnd & Hall). fold ops in Hin, Hnd, Hall.
  assert (forall o, o ∈ ops -> owner_knows net o) as Ho by (intros o Hx; eapply (si_owned _ Hi); [exact Hm1|by apply Hin]).
  assert (forall o, knows (pull m1 m2).2 o <-> knows m2.2 o \/ o ∈ ops) as Hk.
  { unfold pull. fold ops. rewrite ops_wire by (intros o Hx; by eapply owner_fits, Ho). intros o.
    destruct (apply_ops_spec Fine ops m2) as (_ & _ & _ & Hk & _); [done|intros x Hx; by eapply owner_fits, Ho| |rewrite Hk; split; [intros [|[_ ?]]; auto|intros [|]; auto]].
    eapply functional_sub, (owner_functional net Hi). intros x [Hx|Hx]; [by eapply (si_owned _ Hi)|auto]. }
  split_and!; [done| |done|].
  - intros o Hx. destruct (Hin o Hx) as [? Hn]. split; [done|]. intros Hk2. apply Hn. rewrite known_of_vector by done.
    pose proof (pj_seen _ _ (gd_projects _ Hg2) (device_of o)) as Hs. destruct (rp_seen m2.1 !! device_of o); [by apply Hs|by destruct (Hs o)].
  - intros Hl o Hx. apply Hk. destruct (Hall Hl o Hx) as [Hb|]; [left|by right]. eapply (known_is _ d2 (vector m2.1)); [by apply (inv_ask net d2 m2)|left|done| |done].
    destruct (si_owned _ Hi _ _ _ Hm1 Hx) as (x & Hx1 & Hx2). by exists x.
Qed.

Lemma pulls_spec n net d1 d2 m1 m2 :
  shelf_inv net -> d1 ≠ d2 -> nt_machines net !! d1 = Some m1 -> nt_machines net !! d2 = Some m2 ->
  let m := Nat.iter n (pull m1) m2 in
  shelf_inv (set_machine d2 m net) /\ (forall o, knows m.2 o -> knows m1.2 o \/ knows m2.2 o) /\ (forall o, knows m2.2 o -> knows m.2 o) /\
  ((forall o, knows m1.2 o -> knows m.2 o) \/
   exists ops, NoDup ops /\ (n * MAX_OPS <= length ops)%nat /\ forall o, o ∈ ops -> knows m1.2 o /\ knows m.2 o).
Proof.
  intros Hi Hd Hm1 Hm2. induction n as [|n (Hin & Hsub & Hsup & Hcase)].
  { split_and!; [|auto|auto|right; exists []; split_and!; [constructor|simpl; lia|by intros o ?%elem_of_nil]].
    apply (inv_same net); [|done..]. cbn. by rewrite insert_id. }
  change (Nat.iter (S n) (pull m1) m2) with (pull m1 (Nat.iter n (pull m1) m2)). set (m := Nat.iter n (pull m1) m2) in *. cbv zeta.
  assert (nt_machines (set_machine d2 m net) !! d1 = Some m1) as H1 by (simpl; by rewrite lookup_insert_ne).
  assert (nt_machines (set_machine d2 m net) !! d2 = Some m) as H2 by (simpl; by rewrite lookup_insert_eq).
  destruct (pull_spec _ _ _ _ _ Hin H1 H2) as (Hnd & Hops & Hk & Hall). split_and!.
  - pose proof (pull_inv _ _ _ _ _ Hin H1 H2) as Hp. eapply inv_same; [| | |exact Hp]; [|done..]. simpl. by rewrite insert_insert_eq.
  - intros o [Ho|Ho]%Hk; [auto|left; by apply Hops].
  - intros o Ho. apply Hk. left. auto.
  - destruct Hcase as [Hc|(ops & Hn & Hl & Ho)]; [left; intros o Hx; apply Hk; auto|].
    destruct (decide (length (ops_after m1.1 m1.2 (vector m.1)) < MAX_OPS)%nat) as [Hlt|Hge]; [left; by apply Hall|right].
    exists (ops ++ ops_after m1.1 m1.2 (vector m.1)). split_and!.
    + apply NoDup_app. split_and!; [done| |done]. intros o Hx Hx'. destruct (Hops o Hx') as [_ Hno]. by apply Hno, Ho.
    + rewrite length_app. lia.
    + intros o [Hx|Hx]%elem_of_app; rewrite Hk; [destruct (Ho o Hx); auto|destruct (Hops o Hx); auto].
Qed.

(** A machine that asks often enough knows all that the other one did *)
Lemma pulls_catch_up n net d1 d2 m1 m2 :
  shelf_inv net -> d1 ≠ d2 -> nt_machines net !! d1 = Some m1 -> nt_machines net !! d2 = Some m2 -> (length (db_op_list m1.2) < n * MAX_OPS)%nat ->
  let m := Nat.iter n (pull m1) m2 in shelf_inv (set_machine d2 m net) /\ forall o, knows m.2 o <-> knows m1.2 o \/ knows m2.2 o.
Proof.
  intros Hi Hd Hm1 Hm2 Hn. destruct (pulls_spec n net d1 d2 m1 m2 Hi Hd Hm1 Hm2) as (Hin & Hsub & Hsup & [Hc|(ops & Hnd & Hl & Ho)]); [split; [done|]|].
  - intros o. split; [auto|]. intros [|]; auto.
  - exfalso. assert (length ops <= length (db_op_list m1.2))%nat; [|lia]. apply submseteq_length, NoDup_submseteq; [done|]. intros o Hx. by apply Ho.
Qed.
End Sync.

(** ** Properties *)

Section Theorems.
Context `{JsonTextLaws} {order : HashOrder} `{!DeviceOrder order}.

(** C11 Machines with the same vector have the same records: wherever steps of the network lead,
    whatever was lost, given twice or late, and whichever transactions failed, two machines that
    have seen the operations of each device up to the same times know the same operations and
    show every task the same.  The fractional numbers in what machines write are such as read back from
    their JSON text, which is all that is asked of the values. *)
Theorem same_vector_same_records calm net d1 d2 m1 m2 :
  reaches calm net -> nt_machines net !! d1 = Some m1 -> nt_machines net !! d2 = Some m2 -> rp_seen m1.1 = rp_seen m2.1 ->
  rp_records m1.1 = rp_records m2.1 /\ forall o, knows m1.2 o <-> knows m2.2 o.
Proof.
  intros Hi%reaches_inv Hm1 Hm2 Hs. destruct (si_machine _ Hi _ _ Hm1) as (_ & _ & [Hr1 Hp1 _ _]), (si_machine _ Hi _ _ Hm2) as (_ & _ & [Hr2 Hp2 _ _]).
  assert (forall d d' m m' o, nt_machines net !! d = Some m -> nt_machines net !! d' = Some m' -> projects (knows m.2) m.1 -> projects (knows m'.2) m'.1 ->
    rp_seen m.1 = rp_seen m'.1 -> knows m.2 o -> knows m'.2 o) as Hsub.
  { intros d d' m m' o Hm Hm' Hp Hp' E Ho. pose proof (pj_seen _ _ Hp (device_of o)) as Hd. pose proof (pj_seen _ _ Hp' (device_of o)) as Hd'. rewrite <- E in Hd'.
    destruct (rp_seen m.1 !! device_of o) as [t|]; [|by destruct (Hd o)]. destruct Hd as [_ Hmax], Hd' as [(o' & Ho' & Ed & <-) _].
    apply (si_closed _ Hi d' m' o o' Hm' (si_owned _ Hi d m o Hm Ho) Ho'); [done|by apply Hmax]. }
  assert (forall o, knows m1.2 o <-> knows m2.2 o) as Hk by (intros o; split; [by eapply (Hsub d1 d2)|by eapply (Hsub d2 d1)]).
  split; [|done]. eapply (projects_unique (knows m1.2)); [by apply knows_functional|done|]. eapply projects_ext; [|exact Hp2]. intros o. by rewrite Hk.
Qed.

(** C12 Two machines that sync agree: once the second has asked the first often enough, one answer
    being at most 2000 operations, and the first the second, each knows what either did, and
    nothing else, and their records are the same.  As before, the fractional numbers in what machines
    write read back from their JSON text. *)
Theorem synced_agree calm net d1 d2 m1 m2 n k (b := Nat.iter n (pull m1) m2) (a := Nat.iter k (pull b) m1) :
  reaches calm net -> d1 ≠ d2 -> nt_machines net !! d1 = Some m1 -> nt_machines net !! d2 = Some m2 ->
  (length (db_op_list m1.2) < n * MAX_OPS)%nat -> (length (db_op_list b.2) < k * MAX_OPS)%nat ->
  rp_records a.1 = rp_records b.1 /\ (forall o, knows a.2 o <-> knows m1.2 o \/ knows m2.2 o) /\ (forall o, knows b.2 o <-> knows m1.2 o \/ knows m2.2 o).
Proof.
  intros Hi%reaches_inv Hd Hm1 Hm2 Hn Hk. destruct (pulls_catch_up n net d1 d2 m1 m2 Hi Hd Hm1 Hm2 Hn) as [Hi1 Hb]. fold b in Hi1, Hb.
  destruct (pulls_catch_up k (set_machine d2 b net) d2 d1 b m1) as [Hi2 Ha]; [done|done|simpl; by rewrite lookup_insert_eq|simpl; by rewrite lookup_insert_ne|done|]. fold a in Hi2, Ha.
  assert (forall o, knows a.2 o <-> knows b.2 o) as Hab by (intros o; rewrite Ha, Hb; tauto).
  split_and!; [|intros o; rewrite Hab; apply Hb|done].
  destruct (si_machine _ Hi2 d1 a) as (_ & _ & [Hra Hpa _ _]); [simpl; by rewrite lookup_insert_eq|].
  destruct (si_machine _ Hi2 d2 b) as (_ & _ & [Hrb Hpb _ _]); [simpl; by rewrite lookup_insert_ne, lookup_insert_eq|].
  eapply (projects_unique (knows a.2)); [by apply knows_functional|done|]. eapply projects_ext; [|exact Hpb]. intros o. by rewrite Hab.
Qed.

(** C10 At most one machine may start a task.  While no task is taken from a machine that is away, yielded
    or taken back, and a machine without a row for a task gives itself the permit only where it made
    the task, as the birth that it wrote says, [start] succeeds on at most one machine,
    however the grants travel, are lost or given twice, and whichever transactions fail. *)
Theorem one_machine_starts net task birth d1 d2 m1 m2 m1' m2' :
  reaches true net -> nt_machines net !! d1 = Some m1 -> nt_machines net !! d2 = Some m2 ->
  start Fine Fine task birth m1 = (Good tt, m1') -> start Fine Fine task birth m2 = (Good tt, m2') -> d1 = d2.
Proof.
  intros Hr Hm1 Hm2 H1 H2. destruct (reaches_token net task birth Hr) as [top Ht].
  assert (forall d m m', nt_machines net !! d = Some m -> start Fine Fine task birth m = (Good tt, m') -> exists a, row net task birth d = Some a /\ may_start a) as Hmay.
  { intros d [r db] m' Hm Hs. unfold row. rewrite Hm. simpl. unfold start in Hs. destruct (authority db task birth) as [[e [] to]|]; try done; eexists; (split; [done|]); [by left|by right]. }
  destruct (Hmay d1 m1 m1' Hm1 H1) as (a1 & Ha1 & Hs1), (Hmay d2 m2 m2' Hm2 H2) as (a2 & Ha2 & Hs2). by eapply (tk_one _ _ _ _ Ht).
Qed.

(** A restart changes nothing that a machine knows, and the next time it gives is after all it knows *)
Theorem restart_keeps calm net d m (r := set_device d (replica_open m.2)) :
  reaches calm net -> nt_machines net !! d = Some m ->
  rp_records r = rp_records m.1 /\ rp_seen r = rp_seen m.1 /\
  forall wall h r' o, in_i64 wall -> tick wall r = Some (h, r') -> knows m.2 o -> hlc_le h (op_at o) = false.
Proof.
  intros Hi%reaches_inv Hm. destruct (si_machine _ Hi _ _ Hm) as (_ & _ & Hg). destruct (good_reopen d m Hg) as (Hg' & Hr & Hs). fold r in Hg', Hr, Hs.
  split_and!; [done..|]. intros wall h r' o Hw Ht Ho. destruct (tick_spec _ _ _ _ Ht Hw (gd_clock _ Hg')) as (_ & _ & Hl & _).
  apply not_true_iff_false. intros Hle%hlc_le_before. pose proof (pj_clock _ _ (gd_projects _ Hg') o Ho) as Hb. simpl in Hb.
  eapply strictly_irrefl; [exact Hl|]. by etrans.
Qed.
End Theorems.

(** ** A network *)

#[local] Instance text : JsonText := {|
  to_text := enc;
  from_text s := match dec (String.length s) s with Some (v, EmptyString) => Some v | _ => None end |}.
#[local] Instance text_laws : JsonTextLaws.
Proof.
  intros v Hv. simpl. assert (forall f, text_keeps f -> is_finite f = true) as Hk by (by intros []). pose proof (travels_decodes _ v Hk Hv (String.length (enc v)) "" (le_n _)) as E. rewrite string_app_nil in E. by rewrite E.
Qed.
#[local] Instance visited : HashOrder := fun s => elements s.
#[local] Instance visited_laws : DeviceOrder visited.
Proof. split; [intros s x; apply elem_of_elements|intros s; apply NoDup_elements]. Qed.

Definition noon (_ : nat) : Z := 5.
Definition named : list (string * Value) :=
  [("name", JString "Fix it"); ("state", JString "waiting"); ("notes", JArray [obj [("from", JString "b"); ("at", JNumber (Float (f_dec 15 (-1)))); ("text", JString "soon")]])].

Lemma named_sane me task birth : me ≠ "" -> task ≠ "" -> birth ≠ "" -> sane me noon task birth named.
Proof.
  intros. split; [done|intros i; unfold in_i64, noon; lia|done|done|].
  intros f v [[= -> ->]|[[= -> ->]|[[= -> ->]|?%elem_of_nil]%elem_of_cons]%elem_of_cons]%elem_of_cons; [split; [done|constructor]..|done].
  intros v ->%list_elem_of_singleton. constructor; [apply (bool_decide_unpack _); by vm_compute|].
  intros k v. cbn [map_get obj]. repeat case_decide; intros [= <-]; constructor. by vm_compute.
Qed.

(** One machine makes a task, another asks and is told *)
Definition made_a : Machine := (write noon Fine "task-1" "5.0.a" named (machine_new "a")).2.
Definition told_b : Machine := (apply_ops Fine (ops_of (ops_value (ops_after made_a.1 made_a.2 (vector (machine_new "b").1)))) (machine_new "b")).2.
Definition made_net : Net := add_grants [] (set_machine "a" made_a (net_new ["a"; "b"])).
Definition asked_net : Net := mkNet (nt_machines made_net) [("b", vector (machine_new "b").1)] [] [].
Definition sent_net : Net := mkNet (nt_machines made_net) [("b", vector (machine_new "b").1)] [("b", ops_value (ops_after made_a.1 made_a.2 (vector (machine_new "b").1)))] [].
Definition told_net : Net := set_machine "b" told_b sent_net.

Lemma made_reached calm : reaches calm made_net.
Proof. eapply reach_step; [by apply (reach_new calm ["a"; "b"]); set_solver|]. apply (st_act _ _ "a" (machine_new "a")); [done|]. by apply act_write, named_sane. Qed.

Lemma told_reached calm : reaches calm told_net.
Proof.
  eapply reach_step; [eapply reach_step; [eapply reach_step; [apply made_reached|]|]|].
  - apply (st_ask calm made_net "b" (machine_new "b")). done.
  - apply (st_answer calm asked_net "a" made_a "b"); [done|left].
  - apply (st_given calm sent_net "b" (machine_new "b") _ Fine); [done|left].
Qed.

Lemma same_vector_same_records_witness : rp_records made_a.1 = rp_records told_b.1 /\ is_Some (rp_records told_b.1 !! ("task-1", "5.0.a")).
Proof. split; [|by eexists]. apply (same_vector_same_records true told_net "a" "b"); [apply told_reached|done|done|vm_compute; reflexivity]. Defined.

Lemma synced_agree_witness : rp_records (pull (pull made_a (machine_new "b")) made_a).1 = rp_records (pull made_a (machine_new "b")).1.
Proof. apply (synced_agree true made_net "a" "b" made_a (machine_new "b") 1 1); [apply made_reached|done|done|done|..]; apply Nat.ltb_lt; vm_compute; reflexivity. Defined.

Lemma restart_keeps_witness : rp_records (set_device "a" (replica_open made_a.2)) = rp_records made_a.1.
Proof. apply (restart_keeps true made_net "a" made_a); [apply made_reached|done]. Defined.

(** A task is made and granted: only the machine that took it may start it *)
Definition held_a : Machine := (keep_ops Fine [] (stored_permit (Some PReady) "task-1" "5.0.a") made_a.1 made_a.2).2.
Definition given_a : Machine := (grant noon Fine Fine "task-1" "5.0.a" "b" held_a).2.
Definition granted : Grant := mkGrant "task-1" "5.0.a" 1 "b".
Definition taken_b : Machine := (receive noon Fine Fine "task-1" "5.0.a" 1 (machine_new "b")).2.
Definition held_net : Net := add_grants [] (set_machine "a" held_a made_net).
Definition given_net : Net := add_grants [granted] (set_machine "a" given_a held_net).
Definition taken_net : Net := add_grants [] (set_machine "b" taken_b given_net).

Lemma noon_sane me : me ≠ "" -> sane me noon "task-1" "5.0.a" [].
Proof. intros. split; [done|intros i; unfold in_i64, noon; lia|done|done|by intros f v ?%elem_of_nil]. Qed.

Lemma taken_reached : reaches true taken_net.
Proof.
  eapply reach_step; [eapply reach_step; [eapply reach_step; [apply made_reached|]|]|].
  - apply (st_act _ made_net "a" made_a); [done|]. apply (act_store _ _ _ made_a noon Fine "task-1" "5.0.a" [] (Some PReady)); [by apply noon_sane|done|]. by right.
  - apply (st_act _ held_net "a" held_a given_a [granted]); [done|]. by apply (act_grant _ _ _ held_a noon Fine Fine "task-1" "5.0.a" "b" (Good granted)); [apply noon_sane|vm_compute].
  - apply (st_act _ given_net "b" (machine_new "b")); [done|]. apply (act_receive _ given_net "b" (machine_new "b") noon Fine Fine granted); [left|done|by apply noon_sane].
Qed.

Lemma one_machine_starts_witness : start Fine Fine "task-1" "5.0.a" given_a = (Bad "it was given to b", given_a) /\ "b" = "b".
Proof.
  split; [vm_compute; reflexivity|].
  by apply (one_machine_starts taken_net "task-1" "5.0.a" "b" "b" taken_b taken_b (start Fine Fine "task-1" "5.0.a" taken_b).2 (start Fine Fine "task-1" "5.0.a" taken_b).2 taken_reached).
Defined.

(** What the code does where a task is taken from a machine that is away, or taken back *)
Example taken_from_is_doubled :
  let taken := (take_from noon 5 Fine "task-1" "5.0.a" "a" (machine_new "b")).2 in
  (start Fine Fine "task-1" "5.0.a" held_a).1 = Good tt /\ (start Fine Fine "task-1" "5.0.a" taken).1 = Good tt.
Proof. by vm_compute. Qed.

(** An operation at the end of time, from another machine, stops the clock: the next one panics *)
Example last_time_panics :
  tick 5 (apply_ops Fine [mkOp (mkHlc i64_max i64_max "b") "task-1" "5.0.a" "name" JNull] (machine_new "a")).2.1 = None.
Proof. by vm_compute. Qed.
