(* ===== verification/Stacks.v ===== *)
(** * Tasks that are built on others: [crates/kanna-daemon/src/stacks.rs]

    A task is stacked on its bases, other tasks that were ready when it was started.  The daemon
    looks at the heads of their branches ([look]) and settles what follows from what it has seen
    ([settle]): a task whose branch moved is not ready, a base that is in main is dropped, and a
    task is stale when a base moved past it, or is stale itself.  What git and the disk answer is
    the class [Repos]; the state they keep is passed on. *)

From Stdlib Require Import Ascii.
From S2P Require Import Prelude Text F64 Json Utf8.

(** ** Data *)

Record Mark := mkMark { mk_head : string; mk_branch : string; mk_at : f64 }.
Definition mark_to_value (m : Mark) : Value := obj [("head", JString (mk_head m)); ("branch", JString (mk_branch m)); ("at", num (mk_at m))].
Definition mark_from_value (value : option Value) : option Mark :=
  value ← value;
  head ← string_of value "head";
  Some (mkMark head (default "" (string_of value "branch")) (default (f_of_Z 0) (v ← get value "at"; as_f64 v))).

Record Base := mkBase { bs_id : string; bs_branch : string; bs_head : string }.
Definition base_to_value (b : Base) : Value := obj [("id", JString (bs_id b)); ("branch", JString (bs_branch b)); ("head", JString (bs_head b))].
Definition base_list (value : option Value) : list Base :=
  match (v ← value; as_array v) with
  | Some items => omap (fun b => id ← string_of b "id"; head ← string_of b "head"; Some (mkBase id (default "" (string_of b "branch")) head)) items
  | None => []
  end.

(** [ids] of stacks.rs *)
Definition id_list (value : option Value) : list string :=
  match (v ← value; as_array v) with Some items => omap as_str items | None => [] end.

Record Conflict := mkConflict { cf_heads : list string; cf_why : string }.
Definition conflict_to_value (c : Conflict) : Value := obj [("heads", JArray (map JString (cf_heads c))); ("why", JString (cf_why c))].
Definition conflict_from_value (value : option Value) : option Conflict :=
  value ← value;
  heads ← (v ← get value "heads"; as_array v);
  Some (mkConflict (omap as_str heads) (default "" (string_of value "why"))).

(** ** git *)

(** With which code [git] ends and what it prints; whether a folder is there; over a state of the disk *)
Class Repos (W : Type) := {
  git_output : list string -> W -> (string + (option Z * string * string)) * W;
  is_dir : string -> W -> bool * W }.

Section Git.
Context {W : Type} `{!Repos W}.

(** [git] of tasks.rs *)
Definition git (repo : string) (args : list string) (w : W) : (string + string) * W :=
  let '(out, w) := git_output (["-c"; "core.hooksPath=/dev/null"; "-c"; "core.fsmonitor=false"; "-C"; repo] ++ args) w in
  (match out with
   | inl e => inl ("can't run git: " +:+ e)
   | inr (Some 0%Z, stdout, _) => inr (str_trim (from_utf8_lossy stdout))
   | inr (_, _, stderr) => inl (str_trim (from_utf8_lossy stderr))
   end, w).

Definition res_some {A B} (r : A + B) : option B := match r with inr b => Some b | inl _ => None end.

Definition contains_commit (repo ancestor of_ : string) (w : W) : bool * W :=
  let '(r, w) := git repo ["merge-base"; "--is-ancestor"; ancestor; of_] w in (bool_decide (is_Some (res_some r)), w).
Definition in_main (repo head : string) (w : W) : bool * W := contains_commit repo head "HEAD" w.

Inductive Where := InFolder (folder : string) | OnBranch (branch : string).

Definition head (repo : string) (at_ : Where) (w : W) : option string * W :=
  match at_ with
  | InFolder folder =>
    let '(there, w) := is_dir folder w in
    if there then let '(r, w) := git folder ["rev-parse"; "--verify"; "--quiet"; "HEAD"] w in (res_some r, w) else (None, w)
  | OnBranch branch =>
    if str_is_empty branch then (None, w)
    else let '(r, w) := git repo ["rev-parse"; "--verify"; "--quiet"; "refs/heads/" +:+ branch] w in (res_some r, w)
  end.

Definition dirty (folder : string) (w : W) : (string + bool) * W :=
  let '(r, w) := git folder ["status"; "--porcelain"; "--untracked-files=no"] w in
  (match r with inr out => inr (negb (str_is_empty out)) | inl e => inl e end, w).
End Git.

(** ** [look] *)

Record Probe := mkProbe { pb_id : string; pb_repo : string; pb_at : Where; pb_bases : list (Base * Where) }.
Record SeenBase := mkSeenBase { sb_id : string; sb_head : string; sb_merged : bool; sb_contained : bool }.
Record Seen := mkSeen { sn_id : string; sn_head : option string; sn_main : option string; sn_bases : list SeenBase }.

Section Look.
Context {W : Type} `{!Repos W}.

(** [probes.iter().map(..).collect()] into a map: a later probe of an id replaces an earlier one *)
Fixpoint probe_heads (probes : list Probe) (heads : gmap string (option string)) (w : W) : gmap string (option string) * W :=
  match probes with
  | [] => (heads, w)
  | p :: probes => let '(h, w) := head (pb_repo p) (pb_at p) w in probe_heads probes (<[pb_id p := h]> heads) w
  end.

Fixpoint look_bases (repo tip : string) (bases : list (Base * Where)) (heads : gmap string (option string)) (w : W) : list SeenBase * gmap string (option string) * W :=
  match bases with
  | [] => ([], heads, w)
  | (base, at_) :: bases =>
    let '(found, heads, w) :=
      match heads !! bs_id base with
      | Some h => (h, heads, w)
      | None => let '(h, w) := head repo at_ w in (h, <[bs_id base := h]> heads, w)
      end in
    let now := default (bs_head base) found in
    let '(merged, w) := in_main repo now w in
    let '(contained, w) := if merged then (true, w) else contains_commit repo now tip w in
    let '(rest, heads, w) := look_bases repo tip bases heads w in
    (mkSeenBase (bs_id base) now merged contained :: rest, heads, w)
  end.

Definition not_empty (s : string) : option string := if str_is_empty s then None else Some s.

Fixpoint look_go (probes : list Probe) (heads : gmap string (option string)) (w : W) : list Seen * W :=
  match probes with
  | [] => ([], w)
  | p :: probes =>
    let tip := default None (heads !! pb_id p) in
    let '(main, w) := git (pb_repo p) ["branch"; "--show-current"] w in
    let '(bases, heads, w) := match tip with None => ([], heads, w) | Some tip => look_bases (pb_repo p) tip (pb_bases p) heads w end in
    let '(rest, w) := look_go probes heads w in
    (mkSeen (pb_id p) tip (res_some main ≫= not_empty) bases :: rest, w)
  end.
Definition look (probes : list Probe) (w : W) : list Seen * W :=
  let '(heads, w) := probe_heads probes ∅ w in look_go probes heads w.
End Look.

(** ** [moves_a_head]: a change of a file below a repo's git folder that may move a branch *)

Definition component_text (c : Component) : string := match c with RootDir => "/" | CurDir => "." | ParentDir => ".." | Normal s => s end.

Fixpoint strip_components (dir path : list Component) : option (list Component) :=
  match dir, path with
  | [], rest => Some rest
  | d :: dir, p :: path => if decide (d = p) then strip_components dir path else None
  | _, [] => None
  end.

(** [Path::extension]: after the last dot of the file's name, where something is before it *)
Definition extension (path : list Component) : option string :=
  match last path with
  | Some (Normal name) =>
    match rev (split_on "."%char name) with
    | ext :: ((_ :: _) as before) => if str_is_empty (join "." (rev before)) then None else Some ext
    | _ => None
    end
  | _ => None
  end.

Definition moves_a_head (dir path : string) : bool :=
  match strip_components (components dir) (components path) with
  | None => false
  | Some inside =>
    if bool_decide (extension inside = Some "lock") then false
    else match map component_text inside with
         | [one] => bool_decide (one = "HEAD" \/ one = "packed-refs")
         | a :: b :: rest => bool_decide (a = "refs" /\ b = "heads") || (bool_decide (a = "worktrees") && match rest with [c] => bool_decide (c = "HEAD") | _ => false end)
         | [] => false
         end
  end.

(** ** [settle] *)

Record Task := mkTask { tk_id : string; tk_ready : option Mark; tk_bases : list Base; tk_stale : list string }.

Inductive Step :=
| Unready (id : string)
| Merged (id base : string) (main : option string)
| Stale (id : string) (behind waiting : list string).

Definition seen_of (seen : list Seen) (id : string) : option Seen := List.find (fun s => bool_decide (sn_id s = id)) seen.

Definition unready_step (seen : list Seen) (task : Task) : list Step :=
  match tk_ready task, s ← seen_of seen (tk_id task); sn_head s with
  | Some mark, Some head => if bool_decide (head = mk_head mark) then [] else [Unready (tk_id task)]
  | _, _ => []
  end.

(** What the second loop keeps: the steps, the bases a task is behind, and the bases that are merged *)
Record Looked := mkLooked { lk_steps : list Step; lk_behind : gmap string (list string); lk_merged : gset (string * string) }.

Definition look_base (id : string) (main : option string) (l : Looked) (base : SeenBase) : Looked :=
  if sb_merged base then mkLooked (lk_steps l ++ [Merged id (sb_id base) main]) (lk_behind l) ({[(id, sb_id base)]} ∪ lk_merged l)
  else if sb_contained base then l
  else mkLooked (lk_steps l) (<[id := default [] (lk_behind l !! id) ++ [sb_id base]]> (lk_behind l)) (lk_merged l).

Definition is_base (task : Task) (id : string) : bool := existsb (fun b => bool_decide (bs_id b = id)) (tk_bases task).

Definition look_task (seen : list Seen) (l : Looked) (task : Task) : Looked :=
  match seen_of seen (tk_id task) with
  | None => l
  | Some s => foldl (look_base (tk_id task) (sn_main s)) l (retain (fun b => is_base task (sb_id b)) (sn_bases s))
  end.

(** The bases of a task that are stale, and not merged into it *)
Definition waiting_of (l : Looked) (stale : gset string) (task : Task) : list string :=
  map bs_id (retain (fun b => bool_decide ((tk_id task, bs_id b) ∉ lk_merged l) && bool_decide (bs_id b ∈ stale)) (tk_bases task)).

(** One task of one round: whether it grew, what is stale, the steps *)
Definition stale_task (l : Looked) (st : bool * gset string * list Step) (task : Task) : bool * gset string * list Step :=
  let '(grew, stale, steps) := st in
  if bool_decide (tk_id task ∈ stale) then st
  else
    let waiting := waiting_of l stale task in
    let behind := default [] (lk_behind l !! tk_id task) in
    match behind, waiting with
    | [], [] => st
    | _, _ => (true, {[tk_id task]} ∪ stale, steps ++ [Stale (tk_id task) behind waiting])
    end.

(** Rounds until none grows; [None] is a lack of fuel *)
Fixpoint stale_rounds (fuel : nat) (l : Looked) (tasks : list Task) (stale : gset string) (steps : list Step) : option (list Step) :=
  match fuel with
  | O => None
  | S fuel =>
    let '(grew, stale, steps) := foldl (stale_task l) (false, stale, steps) tasks in
    if grew then stale_rounds fuel l tasks stale steps else Some steps
  end.

Definition stale_already (tasks : list Task) : gset string :=
  list_to_set (map tk_id (retain (fun t => negb (bool_decide (tk_stale t = []))) tasks)).

(** Each round but the last makes one more task stale, so the tasks are rounds enough *)
Definition settle (tasks : list Task) (seen : list Seen) : option (list Step) :=
  let l := foldl (look_task seen) (mkLooked (flat_map (unready_step seen) tasks) ∅ ∅) tasks in
  stale_rounds (S (length tasks)) l tasks (stale_already tasks) (lk_steps l).

Example heads_move :
  map (moves_a_head "/r/.git") ["/r/.git/HEAD"; "/r/.git/refs/heads/a/b"; "/r/.git/refs/heads/main.lock"; "/r/.git/worktrees/t/HEAD"; "/r/.git/worktrees/t/index"; "/x/HEAD"; "/r/.git/refs/.lock"]
  = [true; true; false; true; false; false; false].
Proof. reflexivity. Qed.

(** A base moves, and what is stacked on it goes stale down the chain *)
Definition sample_tasks : list Task :=
  let on id := mkBase id "" "" in
  [mkTask "a" (Some (mkMark "a1" "" (f_of_Z 0))) [] []; mkTask "b" (Some (mkMark "b1" "" (f_of_Z 0))) [on "a"] []; mkTask "c" None [on "b"] []].
Definition sample_seen : list Seen :=
  [mkSeen "a" (Some "a2") (Some "main") []; mkSeen "b" (Some "b1") (Some "main") [mkSeenBase "a" "" false false]; mkSeen "c" (Some "c1") (Some "main") [mkSeenBase "b" "" false true]].
Example sample_settles : settle sample_tasks sample_seen = Some [Unready "a"; Stale "b" ["a"] []; Stale "c" [] ["b"]].
Proof. vm_compute. reflexivity. Qed.

(** ** What follows from what was seen *)

Section Exact.
Context (tasks : list Task) (seen : list Seen).

(** A base of a task that was looked at *)
Definition seen_base (t : Task) (b : SeenBase) : Prop := exists s, seen_of seen (tk_id t) = Some s /\ b ∈ sn_bases s /\ is_base t (sb_id b) = true.
Definition behind_base (t : Task) (b : SeenBase) : Prop := seen_base t b /\ sb_merged b = false /\ sb_contained b = false.
Definition merged_into (t : Task) (id : string) : Prop := exists b, seen_base t b /\ sb_merged b = true /\ sb_id b = id.

(** A task is stale if it was, if a base moved past it, or if a base that is not merged is stale *)
Inductive goes_stale : string -> Prop :=
| gs_was t : t ∈ tasks -> tk_stale t ≠ [] -> goes_stale (tk_id t)
| gs_behind t b : t ∈ tasks -> behind_base t b -> goes_stale (tk_id t)
| gs_waits t b : t ∈ tasks -> b ∈ tk_bases t -> ~ merged_into t (bs_id b) -> goes_stale (bs_id b) -> goes_stale (tk_id t).

(** *** The first two loops *)

Definition is_stale_step (s : Step) : bool := match s with Stale _ _ _ => true | _ => false end.

Definition moved_head (t : Task) : Prop := exists mark s h, tk_ready t = Some mark /\ seen_of seen (tk_id t) = Some s /\ sn_head s = Some h /\ h ≠ mk_head mark.

Lemma unready_step_spec t s : s ∈ unready_step seen t <-> s = Unready (tk_id t) /\ moved_head t.
Proof.
  unfold unready_step, moved_head. destruct (tk_ready t) as [mark|]; [|split; [by intros ?%elem_of_nil|naive_solver]].
  destruct (seen_of seen (tk_id t)) as [x|]; simpl; [|split; [by intros ?%elem_of_nil|naive_solver]]. destruct (sn_head x) as [h|] eqn:E; [|split; [by intros ?%elem_of_nil|naive_solver]].
  case_bool_decide; [split; [by intros ?%elem_of_nil|naive_solver]|]. rewrite list_elem_of_singleton. naive_solver.
Qed.

(** The bases that the second loop visits, in its order *)
Definition seen_bases (ts : list Task) : list (string * option string * SeenBase) :=
  flat_map (fun t => match seen_of seen (tk_id t) with
                     | None => []
                     | Some s => map (fun b => (tk_id t, sn_main s, b)) (retain (fun b => is_base t (sb_id b)) (sn_bases s))
                     end) ts.
Definition look_one (l : Looked) (p : string * option string * SeenBase) : Looked := look_base p.1.1 p.1.2 l p.2.

Lemma look_tasks_flat ts l : foldl (look_task seen) l ts = foldl look_one l (seen_bases ts).
Proof.
  revert l. induction ts as [|t ts IH]; intros l; [done|]. cbn [foldl seen_bases flat_map]. rewrite foldl_app, IH. f_equal. unfold look_task.
  destruct (seen_of seen (tk_id t)) as [s|]; [|done]. generalize (retain (fun b => is_base t (sb_id b)) (sn_bases s)). intros bs. revert l. induction bs as [|b bs IHb]; intros l; [done|].
  cbn [foldl map]. apply IHb.
Qed.

Lemma elem_of_seen_bases ts id main b :
  (id, main, b) ∈ seen_bases ts <-> exists t s, t ∈ ts /\ tk_id t = id /\ seen_of seen id = Some s /\ main = sn_main s /\ b ∈ sn_bases s /\ is_base t (sb_id b) = true.
Proof.
  unfold seen_bases. rewrite list_elem_of_In, in_flat_map. split.
  - intros (t & Ht & Hp). rewrite <- list_elem_of_In in Ht. destruct (seen_of seen (tk_id t)) as [s|] eqn:E; [|done].
    apply in_map_iff in Hp as (x & [= <- <- <-] & [Hx Hb]%filter_In). exists t, s. split_and!; [done..|by apply list_elem_of_In|done].
  - intros (t & s & Ht & <- & E & -> & Hb & Hi). exists t. rewrite <- list_elem_of_In, E. split; [done|]. apply in_map_iff. exists b. split; [done|].
    apply filter_In. split; [by apply list_elem_of_In|done].
Qed.

Lemma look_all_spec ps l (l' := foldl look_one l ps) :
  (forall s, s ∈ lk_steps l' <-> s ∈ lk_steps l \/ Exists (fun p => sb_merged p.2 = true /\ s = Merged p.1.1 (sb_id p.2) p.1.2) ps) /\
  (forall id x, x ∈ default [] (lk_behind l' !! id) <->
     x ∈ default [] (lk_behind l !! id) \/ Exists (fun p => sb_merged p.2 = false /\ sb_contained p.2 = false /\ id = p.1.1 /\ x = sb_id p.2) ps) /\
  (forall id x, (id, x) ∈ lk_merged l' <-> (id, x) ∈ lk_merged l \/ Exists (fun p => sb_merged p.2 = true /\ (id, x) = (p.1.1, sb_id p.2)) ps).
Proof.
  subst l'. revert l. induction ps as [|[[id main] b] ps IH]; intros l; cbn [foldl].
  { split_and!; intros; rewrite Exists_nil; tauto. }
  destruct (IH (look_one l (id, main, b))) as (H1 & H2 & H3). unfold look_one, look_base in *. cbn [fst snd] in *.
  split_and!.
  - intros s. rewrite H1, Exists_cons. cbn [fst snd]. destruct (sb_merged b); [|destruct (sb_contained b)]; cbn [lk_steps]; rewrite ?elem_of_app, ?list_elem_of_singleton; intuition congruence.
  - intros i x. rewrite H2, Exists_cons. cbn [fst snd]. destruct (sb_merged b); [|destruct (sb_contained b)]; cbn [lk_behind]; [intuition congruence..|].
    destruct (decide (i = id)) as [->|Hne]; [rewrite lookup_insert_eq; simpl; rewrite elem_of_app, list_elem_of_singleton|rewrite lookup_insert_ne by done]; intuition congruence.
  - intros i x. rewrite H3, Exists_cons. cbn [fst snd]. destruct (sb_merged b); [|destruct (sb_contained b)]; cbn [lk_merged]; rewrite ?elem_of_union, ?elem_of_singleton; intuition congruence.
Qed.

Definition looked : Looked := foldl (look_task seen) (mkLooked (flat_map (unready_step seen) tasks) ∅ ∅) tasks.

Lemma looked_behind id x : x ∈ default [] (lk_behind looked !! id) <-> exists t b, t ∈ tasks /\ tk_id t = id /\ behind_base t b /\ sb_id b = x.
Proof.
  unfold looked. rewrite look_tasks_flat. destruct (look_all_spec (seen_bases tasks) (mkLooked (flat_map (unready_step seen) tasks) ∅ ∅)) as (_ & H & _). rewrite H.
  cbn [lk_behind]. rewrite lookup_empty. simpl. rewrite elem_of_nil, Exists_exists. split.
  - intros [[]|([[i main] b] & Hp & ? & ? & -> & ->)]. apply elem_of_seen_bases in Hp as (t & s & ? & <- & ? & -> & ? & ?). exists t, b. split_and!; [done..| |done]. split_and!; [by exists s|done|done].
  - intros (t & b & Ht & <- & ((s & Hs & Hb & Hi) & ? & ?) & <-). right. exists (tk_id t, sn_main s, b). split; [|done]. apply elem_of_seen_bases. by exists t, s.
Qed.

Lemma looked_merged id x : (id, x) ∈ lk_merged looked <-> exists t, t ∈ tasks /\ tk_id t = id /\ merged_into t x.
Proof.
  unfold looked. rewrite look_tasks_flat. destruct (look_all_spec (seen_bases tasks) (mkLooked (flat_map (unready_step seen) tasks) ∅ ∅)) as (_ & _ & H). rewrite H.
  cbn [lk_merged]. rewrite Exists_exists. split.
  - intros [He|([[i main] b] & Hp & ? & [= -> ->])]; [set_solver|]. apply elem_of_seen_bases in Hp as (t & s & ? & <- & ? & -> & ? & ?). exists t. split_and!; [done..|]. exists b. split_and!; [by exists s|done|done].
  - intros (t & Ht & <- & b & (s & Hs & Hb & Hi) & ? & <-). right. exists (tk_id t, sn_main s, b). split; [|done]. apply elem_of_seen_bases. by exists t, s.
Qed.

Lemma looked_steps s :
  s ∈ lk_steps looked <-> (exists t, t ∈ tasks /\ moved_head t /\ s = Unready (tk_id t)) \/
    exists t b x, t ∈ tasks /\ seen_of seen (tk_id t) = Some x /\ seen_base t b /\ sb_merged b = true /\ s = Merged (tk_id t) (sb_id b) (sn_main x).
Proof.
  unfold looked. rewrite look_tasks_flat. destruct (look_all_spec (seen_bases tasks) (mkLooked (flat_map (unready_step seen) tasks) ∅ ∅)) as (H & _ & _). rewrite H.
  cbn [lk_steps]. rewrite Exists_exists, list_elem_of_In, in_flat_map. split; (intros [Hl|Hr]; [left|right]).
  - destruct Hl as (t & Ht & Hs). rewrite <- list_elem_of_In in Ht. rewrite <- list_elem_of_In in Hs. apply unready_step_spec in Hs as [-> ?]. by exists t.
  - destruct Hr as ([[i main] b] & Hp & Hm & ->). apply elem_of_seen_bases in Hp as (t & x & ? & <- & ? & -> & ? & ?). exists t, b, x. split_and!; [done..|by exists x|done|done].
  - destruct Hl as (t & Ht & Hm & ->). exists t. rewrite <- list_elem_of_In. split; [done|]. apply list_elem_of_In. by apply unready_step_spec.
  - destruct Hr as (t & b & x & Ht & Hx & (y & Hs & Hb & Hi) & Hm & ->). rewrite Hx in Hs. injection Hs as <-. exists (tk_id t, sn_main x, b). split; [|done].
    apply elem_of_seen_bases. by exists t, x.
Qed.

(** A base of a task that is merged into it, by either account *)
Lemma looked_merged_base t b : t ∈ tasks -> b ∈ tk_bases t -> (tk_id t, bs_id b) ∈ lk_merged looked <-> merged_into t (bs_id b).
Proof.
  intros Ht Hb. rewrite looked_merged. split; [|by exists t]. intros (t' & _ & E & x & (s & Hs & Hx & _) & Hm & Ex). exists x. split_and!; [|done|done].
  exists s. rewrite <- E. split_and!; [done..|]. unfold is_base. rewrite existsb_exists. exists b. rewrite <- list_elem_of_In, Ex. by rewrite bool_decide_true.
Qed.

(** *** The rounds *)

Definition stale_ids (steps : list Step) : list string := omap (fun s => match s with Stale id _ _ => Some id | _ => None end) steps.

(** Why a task is said to be stale *)
Definition said_stale (id : string) (behind waiting : list string) : Prop :=
  behind ++ waiting ≠ [] /\
  (forall x, x ∈ behind <-> exists t b, t ∈ tasks /\ tk_id t = id /\ behind_base t b /\ sb_id b = x) /\
  (forall x, x ∈ waiting -> goes_stale x /\ exists t b, t ∈ tasks /\ tk_id t = id /\ b ∈ tk_bases t /\ bs_id b = x /\ ~ merged_into t x).

Record round_inv (stale : gset string) (steps : list Step) : Prop := {
  ri_sound x : x ∈ stale -> goes_stale x;
  ri_already x : x ∈ stale_already tasks -> x ∈ stale;
  ri_once : NoDup (stale_ids steps);
  ri_ids x : x ∈ stale_ids steps <-> x ∈ stale /\ x ∉ stale_already tasks;
  ri_said id behind waiting : Stale id behind waiting ∈ steps -> said_stale id behind waiting;
  ri_rest s : is_stale_step s = false -> s ∈ steps <-> s ∈ lk_steps looked }.

Lemma elem_of_waiting t stale x :
  t ∈ tasks -> x ∈ waiting_of looked stale t <-> exists b, b ∈ tk_bases t /\ bs_id b = x /\ ~ merged_into t x /\ x ∈ stale.
Proof.
  intros Ht. unfold waiting_of. rewrite list_elem_of_fmap. split.
  - intros (b & -> & Hb). unfold retain in Hb. rewrite list_elem_of_In, filter_In, <- list_elem_of_In, andb_true_iff, !bool_decide_eq_true in Hb.
    destruct Hb as (Hb & Hm & Hs). exists b. rewrite looked_merged_base in Hm by done. done.
  - intros (b & Hb & <- & Hm & Hs). exists b. split; [done|]. unfold retain. rewrite list_elem_of_In, filter_In, <- list_elem_of_In, andb_true_iff, !bool_decide_eq_true.
    by rewrite looked_merged_base.
Qed.

Lemma stale_task_round t grew stale steps :
  t ∈ tasks -> round_inv stale steps ->
  let '(grew', stale', steps') := stale_task looked (grew, stale, steps) t in
  round_inv stale' steps' /\ stale ⊆ stale' /\
  ((grew' = grew /\ stale' = stale /\ steps' = steps /\ (tk_id t ∈ stale \/ (default [] (lk_behind looked !! tk_id t) = [] /\ waiting_of looked stale t = []))) \/
   (grew' = true /\ tk_id t ∉ stale /\ tk_id t ∈ stale')).
Proof.
  intros Ht Hi. unfold stale_task. case_bool_decide as Hin; [split_and!; auto 6|].
  set (behind := default [] (lk_behind looked !! tk_id t)). set (waiting := waiting_of looked stale t).
  destruct (decide (behind ++ waiting = [])) as [E|E].
  { apply app_eq_nil in E as [-> ->]. split_and!; auto 8. }
  assert (said_stale (tk_id t) behind waiting) as Hsaid.
  { split_and!; [done|intros x; apply looked_behind|]. intros x (b & Hb & <- & Hm & Hs)%elem_of_waiting; [|done]. split; [by apply (ri_sound _ _ Hi)|by exists t, b]. }
  assert (goes_stale (tk_id t)) as Hgo.
  { destruct behind as [|x behind'] eqn:Eb.
    - destruct waiting as [|x waiting'] eqn:Ew; [done|]. assert (x ∈ waiting) as (b & Hb & <- & Hm & Hs)%elem_of_waiting by (rewrite Ew; left); [|done]. by eapply gs_waits; [| | |apply (ri_sound _ _ Hi)].
    - destruct Hsaid as (_ & Hb & _). destruct (proj1 (Hb x)) as (t' & b & Ht' & <- & Hbb & _); [left|]. by eapply gs_behind. }
  assert (forall A (a b : A), match behind, waiting with [], [] => a | _, _ => b end = b) as Hmatch by (intros; by destruct behind, waiting).
  rewrite Hmatch. destruct Hi as [Hso Hal Hon Hid Hsa Hre].
  assert (stale_ids (steps ++ [Stale (tk_id t) behind waiting]) = stale_ids steps ++ [tk_id t]) as Eids by (unfold stale_ids; by rewrite omap_app).
  split_and!; [|set_solver|right; split_and!; [done|done|set_solver]]. split.
  - intros x [->%elem_of_singleton|]%elem_of_union; auto.
  - set_solver.
  - rewrite Eids. apply NoDup_app. split_and!; [done| |apply NoDup_singleton]. intros x Hx ->%list_elem_of_singleton. by apply Hid in Hx as [? _].
  - intros x. rewrite Eids, elem_of_app, Hid, list_elem_of_singleton. set_solver.
  - intros id be wa [Hx|[= -> -> ->]%list_elem_of_singleton]%elem_of_app; auto.
  - intros s Hs. rewrite elem_of_app, list_elem_of_singleton, Hre by done. split; [|auto]. intros [| ->]; [done|]. done.
Qed.

Lemma round_spec ts grew stale steps :
  (forall t, t ∈ ts -> t ∈ tasks) -> round_inv stale steps ->
  let '(grew', stale', steps') := foldl (stale_task looked) (grew, stale, steps) ts in
  round_inv stale' steps' /\ stale ⊆ stale' /\
  ((grew' = grew /\ stale' = stale /\ steps' = steps /\
    forall t, t ∈ ts -> tk_id t ∈ stale \/ (default [] (lk_behind looked !! tk_id t) = [] /\ waiting_of looked stale t = [])) \/
   (grew' = true /\ exists t, t ∈ ts /\ tk_id t ∉ stale /\ tk_id t ∈ stale')).
Proof.
  revert grew stale steps. induction ts as [|t ts IH]; intros grew stale steps Hts Hi; cbn [foldl].
  { split_and!; [done..|]. left. split_and!; [done..|]. by intros t ?%elem_of_nil. }
  pose proof (stale_task_round t grew stale steps (Hts t ltac:(left)) Hi) as H1. destruct (stale_task looked (grew, stale, steps) t) as [[grew1 stale1] steps1].
  destruct H1 as (Hi1 & Hs1 & Hc1). pose proof (IH grew1 stale1 steps1 (fun x Hx => Hts x (list_elem_of_further _ _ _ Hx)) Hi1) as H2.
  destruct (foldl (stale_task looked) (grew1, stale1, steps1) ts) as [[grew2 stale2] steps2]. destruct H2 as (Hi2 & Hs2 & Hc2).
  split_and!; [done|set_solver|]. destruct Hc1 as [(-> & -> & -> & Hd)|(-> & Hn & Hy)].
  - destruct Hc2 as [(-> & -> & -> & Hall)|(-> & x & Hx & ? & ?)]; [left; split_and!; [done..|]|right; split; [done|exists x; split_and!; [by right|done|done]]].
    by intros x [->|Hx]%elem_of_cons; [|apply Hall].
  - right. split; [by destruct Hc2 as [(-> & _)|[-> _]]|]. exists t. split_and!; [left|done|set_solver].
Qed.

(** Where no round grows, all that follows is stale *)
Lemma closed_stale stale steps :
  round_inv stale steps -> (forall t, t ∈ tasks -> tk_id t ∈ stale \/ (default [] (lk_behind looked !! tk_id t) = [] /\ waiting_of looked stale t = [])) ->
  forall x, goes_stale x -> x ∈ stale.
Proof.
  intros Hi Hc x Hx. induction Hx as [t Ht Hs|t b Ht Hb|t b Ht Hb Hm _ IH].
  - apply (ri_already _ _ Hi). unfold stale_already. apply elem_of_list_to_set, list_elem_of_fmap. exists t. split; [done|]. unfold retain.
    rewrite list_elem_of_In, filter_In, <- list_elem_of_In, negb_true_iff, bool_decide_eq_false. done.
  - destruct (Hc t Ht) as [|[E _]]; [done|]. assert (sb_id b ∈ default [] (lk_behind looked !! tk_id t)) as Hin by (apply looked_behind; by exists t, b).
    rewrite E in Hin. by apply elem_of_nil in Hin.
  - destruct (Hc t Ht) as [|[_ E]]; [done|]. assert (bs_id b ∈ waiting_of looked stale t) as Hin by (apply elem_of_waiting; [done|]; by exists b).
    rewrite E in Hin. by apply elem_of_nil in Hin.
Qed.

Definition fresh_count (stale : gset string) : nat := length (retain (fun t => bool_decide (tk_id t ∉ stale)) tasks).

Lemma fresh_count_less stale stale' t : stale ⊆ stale' -> t ∈ tasks -> tk_id t ∉ stale -> tk_id t ∈ stale' -> (fresh_count stale' < fresh_count stale)%nat.
Proof.
  intros Hsub Ht Hn Hy. unfold fresh_count, retain. clear -Hsub Ht Hn Hy. induction tasks as [|x ts IH]; [by apply elem_of_nil in Ht|].
  assert (length (List.filter (fun t => bool_decide (tk_id t ∉ stale')) ts) <= length (List.filter (fun t => bool_decide (tk_id t ∉ stale)) ts))%nat as Hle.
  { clear -Hsub. induction ts as [|y ts IH]; [done|]. simpl. repeat case_bool_decide; simpl; try lia. set_solver. }
  simpl. apply elem_of_cons in Ht as [<-|Ht].
  - rewrite bool_decide_false, bool_decide_true by auto. simpl. lia.
  - specialize (IH Ht). repeat case_bool_decide; simpl; try lia. set_solver.
Qed.

Lemma stale_rounds_spec fuel stale steps :
  round_inv stale steps -> (fresh_count stale < fuel)%nat ->
  exists stale' steps', stale_rounds fuel looked tasks stale steps = Some steps' /\ round_inv stale' steps' /\ forall x, goes_stale x -> x ∈ stale'.
Proof.
  revert stale steps. induction fuel as [|fuel IH]; intros stale steps Hi Hf; [lia|]. cbn [stale_rounds].
  pose proof (round_spec tasks false stale steps (fun _ H => H) Hi) as H1. destruct (foldl (stale_task looked) (false, stale, steps) tasks) as [[grew stale1] steps1].
  destruct H1 as (Hi1 & Hs1 & [(-> & -> & -> & Hc)|(-> & t & Ht & Hn & Hy)]).
  - exists stale, steps. split_and!; [done..|]. by eapply closed_stale.
  - apply IH; [done|]. pose proof (fresh_count_less _ _ _ Hs1 Ht Hn Hy). lia.
Qed.
End Exact.

Lemma looked_stale_ids tasks seen : stale_ids (lk_steps (looked tasks seen)) = [].
Proof.
  assert (forall l, (forall s, s ∈ l -> is_stale_step s = false) -> stale_ids l = []) as H.
  { intros l. induction l as [|s l IH]; intros Hl; [done|]. cbn. specialize (Hl s ltac:(left)) as Hs. destruct s; [..|done]; apply IH; intros x Hx; apply Hl; by right. }
  apply H. intros s. rewrite looked_steps. by intros [(t & _ & _ & ->)|(t & b & x & _ & _ & _ & _ & ->)].
Qed.

Lemma settle_spec tasks seen :
  exists stale steps, settle tasks seen = Some steps /\ round_inv tasks seen stale steps /\ forall x, x ∈ stale <-> goes_stale tasks seen x.
Proof.
  unfold settle. fold (looked tasks seen).
  assert (round_inv tasks seen (stale_already tasks) (lk_steps (looked tasks seen))) as Hi.
  { split; rewrite ?looked_stale_ids.
    - intros x. unfold stale_already. rewrite elem_of_list_to_set, list_elem_of_fmap. intros (t & -> & Ht). unfold retain in Ht.
      rewrite list_elem_of_In, filter_In, <- list_elem_of_In, negb_true_iff, bool_decide_eq_false in Ht. destruct Ht as [? ?]. by apply gs_was.
    - done.
    - constructor.
    - intros x. rewrite elem_of_nil. tauto.
    - intros id be wa Hs. apply looked_steps in Hs as [(t & _ & _ & ?)|(t & b & x & _ & _ & _ & _ & ?)]; done.
    - done. }
  destruct (stale_rounds_spec tasks seen (S (length tasks)) _ _ Hi) as (stale & steps & E & Hi' & Hall).
  { unfold fresh_count, retain. pose proof (List.filter_length_le (fun t => bool_decide (tk_id t ∉ stale_already tasks)) tasks). lia. }
  exists stale, steps. split_and!; [done..|]. intros x. split; [apply (ri_sound _ _ _ _ Hi')|apply Hall].
Qed.

(** C13 What is settled is what follows from what was seen: the rounds end; a task is said to be
    unready if and only if it was ready and its head moved, a base to be merged if and only if it
    was seen in main, and a task that was not stale yet to be stale if and only if a base moved
    past it or, down any chain of bases that are not merged, is stale; each once, with its bases
    that moved and with some that are stale. *)
Theorem settle_exact tasks seen :
  exists steps, settle tasks seen = Some steps /\
    (forall id, Unready id ∈ steps <-> exists t, t ∈ tasks /\ tk_id t = id /\ moved_head seen t) /\
    (forall id base main, Merged id base main ∈ steps <->
       exists t b s, t ∈ tasks /\ tk_id t = id /\ seen_of seen id = Some s /\ seen_base seen t b /\ sb_merged b = true /\ sb_id b = base /\ sn_main s = main) /\
    (forall id, id ∈ stale_ids steps <-> goes_stale tasks seen id /\ id ∉ stale_already tasks) /\
    NoDup (stale_ids steps) /\
    (forall id behind waiting, Stale id behind waiting ∈ steps -> said_stale tasks seen id behind waiting).
Proof.
  destruct (settle_spec tasks seen) as (stale & steps & E & [Hso Hal Hon Hid Hsa Hre] & Hall). exists steps. split_and!; [done|..|done|done].
  - intros id. rewrite Hre, looked_steps by done. split.
    + intros [(t & ? & ? & [= ->])|(t & b & x & _ & _ & _ & _ & ?)]; [by exists t|done].
    + intros (t & ? & <- & ?). left. by exists t.
  - intros id base main. rewrite Hre, looked_steps by done. split.
    + intros [(t & _ & _ & ?)|(t & b & x & ? & ? & ? & ? & [= -> -> ->])]; [done|by exists t, b, x].
    + intros (t & b & s & ? & <- & ? & ? & ? & <- & <-). right. by exists t, b, s.
  - intros id. by rewrite Hid, Hall.
Qed.
