(* ===== verification/Tasks.v ===== *)
(** * The tasks' stacks and events: [crates/kanna-daemon/src/tasks.rs] and [task_events.rs]

    What tasks hear of main and of the tasks they are built on, and the handlers of [Tasks] that
    mark a task ready, settle what was seen of the branches and tell a task what happened.  The
    state is what those handlers change: the tasks on the Shelf, the running ones, their rows and
    events in kanna.db, the messages that wait, and this machine's part of the replicated Shelf.
    A save that fails is not undone in memory, as in the code; a clock that overflows panics. *)

From Stdlib Require Import Ascii.
From S2P Require Import Prelude Text F64 Json Pipe Schedule Runs PeerLog Utf8 Replica Stacks.

(** ** [task_events.rs] *)

Definition COMMITS_SHOWN : N := 20.

Inductive TaskEvent := MainConflicts | MainMoved | BaseMerged | BaseMoved.
#[export] Instance TaskEvent_eq_dec : EqDecision TaskEvent.
Proof. solve_decision. Defined.

Definition ALL : list TaskEvent := [MainConflicts; MainMoved; BaseMerged; BaseMoved].
Definition event_name (e : TaskEvent) : string :=
  match e with MainConflicts => "main-conflicts" | MainMoved => "main-moved" | BaseMerged => "base-merged" | BaseMoved => "base-moved" end.
Definition event_parse (name : string) : option TaskEvent := List.find (fun e => bool_decide (event_name e = name)) ALL.
Definition event_names : string := join ", " (map event_name ALL).
Definition heard_by_default (e : TaskEvent) : bool := negb (bool_decide (e = MainMoved)).

Record Hears := mkHears { hs_added : list string; hs_dropped : list string }.
Definition hears_default : Hears := mkHears [] [].
Definition hears (h : Hears) (e : TaskEvent) : bool :=
  if heard_by_default e then negb (existsb (fun name => bool_decide (name = event_name e)) (hs_dropped h))
  else existsb (fun name => bool_decide (name = event_name e)) (hs_added h).
Definition hears_set (e : TaskEvent) (on : bool) (h : Hears) : Hears :=
  let name := event_name e in
  let added := retain (fun n => negb (bool_decide (n = name))) (hs_added h) in
  let dropped := retain (fun n => negb (bool_decide (n = name))) (hs_dropped h) in
  if Bool.eqb on (heard_by_default e) then mkHears added dropped
  else if on then mkHears (added ++ [name]) dropped else mkHears added (dropped ++ [name]).
Definition hears_names (h : Hears) : list string := map event_name (retain (hears h) ALL).
Definition hears_to_value (h : Hears) : Value := obj [("added", JArray (map JString (hs_added h))); ("dropped", JArray (map JString (hs_dropped h)))].
Definition hears_from_value (value : option Value) : Hears :=
  mkHears (id_list (v ← value; get v "added")) (id_list (v ← value; get v "dropped")).

Record Sent := mkSent { se_event : string; se_message : Z; se_about : option string; se_at : f64 }.
Definition sent_to_value (s : Sent) : Value :=
  obj [("event", JString (se_event s)); ("message", from_i64 (se_message s)); ("about", opt (se_about s)); ("at", num (se_at s))].
Definition sent_list (value : option Value) : list Sent :=
  match (v ← value; as_array v) with
  | Some items =>
    omap (fun sent => event ← string_of sent "event"; message ← (v ← get sent "message"; value_as_i64 v);
                      Some (mkSent event message (string_of sent "about") (default (f_of_Z 0) (v ← get sent "at"; as_f64 v)))) items
  | None => []
  end.
Definition sent_of (sent : list Sent) (e : TaskEvent) : option Sent := List.find (fun s => bool_decide (se_event s = event_name e)) sent.

Record Main := mkMain { mn_branch : string; mn_head : string }.
#[export] Instance Main_eq_dec : EqDecision Main.
Proof. solve_decision. Defined.
(** [rsplit_once(' ')] *)
Definition main_saved (text : string) : option Main :=
  match rev (split_on " "%char text) with
  | head :: ((_ :: _) as before) => Some (mkMain (join " " (rev before)) head)
  | _ => None
  end.
Definition main_text (m : Main) : string := mn_branch m +:+ " " +:+ mn_head m.

Record TaskProbe := mkTaskProbe { tp_id : string; tp_folder : string; tp_conflicts : bool; tp_commits : bool }.
Record MainProbe := mkMainProbe { mp_repo : string; mp_last : option Main; mp_tasks : list TaskProbe }.
Record SeenTask := mkSeenTask { st_id : string; st_base : string; st_conflicts : list string; st_ahead : N; st_commits : list string }.
Record MainSeen := mkMainSeen { ms_repo : string; ms_main : Main; ms_moved : bool; ms_tasks : list SeenTask }.

Inductive EventStep := Nothing | Tell (about : string) | Over.
#[export] Instance EventStep_eq_dec : EqDecision EventStep.
Proof. solve_decision. Defined.

Definition NL : string := String (ascii_of_nat 10) "".

Definition conflict_step (seen : SeenTask) (told : option Sent) (waiting : bool) : EventStep :=
  let about := s ← told; se_about s in
  match st_conflicts seen with
  | [] => match about with Some _ => Over | None => Nothing end
  | _ =>
    let now := st_base seen +:+ " " +:+ join NL (st_conflicts seen) in
    if waiting || bool_decide (about = Some now) then Nothing else Tell now
  end.

Definition conflict_text (main : string) (files : list string) : string :=
  main +:+ " conflicts with your branch in " +:+ join ", " files +:+ ": merge or rebase " +:+ main +:+ ", rerun your tests, then carry on with what you were doing.".

(** [seen.ahead > seen.commits.len()], which makes the subtraction safe *)
Definition moved_text (main : string) (seen : SeenTask) : string :=
  main +:+ " moved: " +:+ pretty (st_ahead seen) +:+ " commit" +:+ (if decide (st_ahead seen = 1%N) then "" else "s") +:+ " your branch hasn't merged yet."
  +:+ String.concat "" (map (fun commit => NL +:+ commit) (st_commits seen))
  +:+ (let shown := N.of_nat (length (st_commits seen)) in if (shown <? st_ahead seen)%N then NL +:+ "and " +:+ pretty (st_ahead seen - shown)%N +:+ " older" else "").

(** *** [look]: where the main branches are, and what that means for the tasks *)

Section LookMain.
Context {W : Type} `{!Repos W}.
(** [task_scripts::base]: the commit a worktree was made at, as it was recorded *)
Context (recorded_base : string -> W -> option string * W).

Definition main_of (repo : string) (w : W) : option Main * W :=
  let '(branch, w) := git repo ["branch"; "--show-current"] w in
  match res_some branch ≫= not_empty with
  | None => (None, w)
  | Some branch => let '(h, w) := head repo (InFolder repo) w in (mkMain branch <$> h, w)
  end.

(** [task_scripts::merged] *)
Definition is_merged (repo worktree : string) (w : W) : bool * W :=
  let '(there, w) := is_dir worktree w in
  if negb there || bool_decide (components worktree = components repo) then (false, w)
  else
    let '(tip, w) := git worktree ["rev-parse"; "--verify"; "--quiet"; "HEAD"] w in
    match tip with
    | inl _ => (false, w)
    | inr tip =>
      let '(base, w) := recorded_base worktree w in
      let '(moved, w) :=
        match base ≫= not_empty with
        | Some base => (negb (bool_decide (base = tip)), w)
        | None =>
          let '(log, w) := git worktree ["reflog"; "show"; "--format=%gs"; "HEAD"] w in
          (match log with inr log => existsb (starts_with "commit") (str_lines log) | inl _ => false end, w)
        end in
      if moved then contains_commit repo tip "HEAD" w else (false, w)
    end.

(** [Vec::dedup] *)
Fixpoint dedup (l : list string) : list string :=
  match l with
  | x :: ((y :: _) as rest) => if bool_decide (x = y) then dedup rest else x :: dedup rest
  | _ => l
  end.

Definition conflicts (repo main tip : string) (w : W) : (string + list string) * W :=
  let '(out, w) := git_output (["-c"; "core.hooksPath=/dev/null"; "-c"; "core.fsmonitor=false"; "-C"; repo] ++ ["merge-tree"; "--write-tree"; "--name-only"; "--no-messages"; "-z"; main; tip]) w in
  (match out with
   | inl e => inl ("can't run git: " +:+ e)
   | inr (code, stdout, stderr) =>
     if bool_decide (code = Some 0%Z) then inr []
     else if bool_decide (code = Some 1%Z) && negb (str_is_empty stdout)
     then inr (dedup (sort_strings (map from_utf8_lossy (retain (fun f => negb (str_is_empty f)) (drop 1 (split_on (ascii_of_nat 0) stdout))))))
     else inl (str_trim (from_utf8_lossy stderr))
   end, w).

(** What is found of a task's branch; a question that git refuses ends it *)
Definition check_task (repo : string) (main : Main) (task : TaskProbe) (w : W) : option SeenTask * W :=
  let '(branch, w) := git (tp_folder task) ["branch"; "--show-current"] w in
  match res_some branch ≫= not_empty with
  | None => (None, w)
  | Some _ =>
    let '(merged, w) := is_merged repo (tp_folder task) w in
    if merged then (None, w)
    else
      let '(tip, w) := head repo (InFolder (tp_folder task)) w in
      match tip with
      | None => (None, w)
      | Some tip =>
        let '(base, w) := git repo ["merge-base"; mn_head main; tip] w in
        match res_some base with
        | None => (None, w)
        | Some base =>
          let '(files, w) := if tp_conflicts task then conflicts repo (mn_head main) tip w else (inr [], w) in
          match res_some files with
          | None => (None, w)
          | Some files =>
            let since := base +:+ ".." +:+ mn_head main in
            if tp_commits task then
              let '(count, w) := git repo ["rev-list"; "--count"; since] w in
              match res_some count ≫= parse_usize with
              | None => (None, w)
              | Some ahead =>
                let '(shown, w) := git repo ["log"; "-" +:+ pretty COMMITS_SHOWN; "--format=%h %s"; since] w in
                ((fun shown => mkSeenTask (tp_id task) base files ahead (str_lines shown)) <$> res_some shown, w)
              end
            else (Some (mkSeenTask (tp_id task) base files 0 []), w)
          end
        end
      end
  end.

Fixpoint check_tasks (repo : string) (main : Main) (tasks : list TaskProbe) (w : W) : list SeenTask * W :=
  match tasks with
  | [] => ([], w)
  | task :: tasks =>
    let '(seen, w) := check_task repo main task w in
    let '(rest, w) := check_tasks repo main tasks w in
    (option_list seen ++ rest, w)
  end.

Fixpoint look_mains (probes : list MainProbe) (w : W) : list MainSeen * W :=
  match probes with
  | [] => ([], w)
  | probe :: probes =>
    let '(main, w) := main_of (mp_repo probe) w in
    match main with
    | None => look_mains probes w
    | Some main =>
      let moved := match mp_last probe with Some last => bool_decide (mn_branch last = mn_branch main) && negb (bool_decide (mn_head last = mn_head main)) | None => false end in
      let '(tasks, w) := if moved then check_tasks (mp_repo probe) main (mp_tasks probe) w else ([], w) in
      let '(rest, w) := look_mains probes w in
      (mkMainSeen (mp_repo probe) main moved tasks :: rest, w)
    end
  end.
End LookMain.

(** ** [Entry], [Running] and the rows *)

Record Note := mkNote { no_id : option string; no_from : string; no_at : f64; no_text : string }.
Definition notes_value (notes : list Note) : Value :=
  JArray (map (fun n => obj [("id", opt (no_id n)); ("from", JString (no_from n)); ("at", num (no_at n)); ("text", JString (no_text n))]) notes).
Definition notes_list (value : option Value) : list Note :=
  match (v ← value; as_array v) with
  | Some items =>
    omap (fun n => from ← string_of n "from"; text ← string_of n "text";
                   Some (mkNote (string_of n "id") from (default (f_of_Z 0) (v ← get n "at"; as_f64 v)) text)) items
  | None => []
  end.

Record Entry := mkEntry {
  en_id : string; en_name : option string; en_message : option string; en_repo : string; en_by : option string; en_made_at : f64; en_agent : string;
  en_folder : option string; en_session : option string; en_held : option string; en_after : list string; en_stopped : option string;
  en_workspace : option string; en_birth : option string; en_on : list string; en_ready : option Mark; en_bases : list Base; en_stale : list string;
  en_conflict : option Conflict; en_hears : Hears; en_sent : list Sent; en_notes : list Note; en_claim : option string }.

Definition entry_set_stack (ready : option Mark) (bases : list Base) (stale : list string) (e : Entry) : Entry :=
  mkEntry (en_id e) (en_name e) (en_message e) (en_repo e) (en_by e) (en_made_at e) (en_agent e) (en_folder e) (en_session e) (en_held e) (en_after e) (en_stopped e)
    (en_workspace e) (en_birth e) (en_on e) ready bases stale (en_conflict e) (en_hears e) (en_sent e) (en_notes e) (en_claim e).
Definition entry_set_after (after : list string) (e : Entry) : Entry :=
  mkEntry (en_id e) (en_name e) (en_message e) (en_repo e) (en_by e) (en_made_at e) (en_agent e) (en_folder e) (en_session e) (en_held e) after (en_stopped e)
    (en_workspace e) (en_birth e) (en_on e) (en_ready e) (en_bases e) (en_stale e) (en_conflict e) (en_hears e) (en_sent e) (en_notes e) (en_claim e).
Definition entry_set_hears (h : Hears) (e : Entry) : Entry :=
  mkEntry (en_id e) (en_name e) (en_message e) (en_repo e) (en_by e) (en_made_at e) (en_agent e) (en_folder e) (en_session e) (en_held e) (en_after e) (en_stopped e)
    (en_workspace e) (en_birth e) (en_on e) (en_ready e) (en_bases e) (en_stale e) (en_conflict e) h (en_sent e) (en_notes e) (en_claim e).
Definition entry_set_sent (sent : list Sent) (e : Entry) : Entry :=
  mkEntry (en_id e) (en_name e) (en_message e) (en_repo e) (en_by e) (en_made_at e) (en_agent e) (en_folder e) (en_session e) (en_held e) (en_after e) (en_stopped e)
    (en_workspace e) (en_birth e) (en_on e) (en_ready e) (en_bases e) (en_stale e) (en_conflict e) (en_hears e) sent (en_notes e) (en_claim e).

Inductive Place := Shelf | Desk | Done.
#[export] Instance Place_eq_dec : EqDecision Place.
Proof. solve_decision. Defined.
Definition place_as_str (p : Place) : string := match p with Shelf => "shelf" | Desk => "desk" | Done => "done" end.
Definition place_parse (text : string) : option Place := List.find (fun p => bool_decide (place_as_str p = text)) [Shelf; Desk; Done].

Record Running := mkRunning { rn_pane : string; rn_entry : Entry; rn_place : Place }.
Record Row := mkRow { row_id : string; row_repo : string; row_place : Place; row_terminal : option string; row_made_at : f64; row_doc : Value }.

Definition DEFAULT_AGENT : string := "claude".
Definition strings (value : Value) (key : string) : list string := match (v ← get value key; as_array v) with Some items => omap as_str items | None => [] end.
Definition optional {A} (f : A -> Value) (a : option A) : Value := match a with Some a => f a | None => JNull end.

Definition entry_row (e : Entry) (place : Place) (pane : option string) : Row :=
  mkRow (en_id e) (en_repo e) place pane (en_made_at e)
    (obj [("name", opt (en_name e)); ("message", opt (en_message e)); ("by", opt (en_by e)); ("agent", JString (en_agent e)); ("folder", opt (en_folder e));
          ("session", opt (en_session e)); ("after", JArray (map JString (en_after e))); ("stopped", opt (en_stopped e)); ("workspace", opt (en_workspace e));
          ("birth", opt (en_birth e)); ("on", JArray (map JString (en_on e))); ("ready", optional mark_to_value (en_ready e));
          ("bases", JArray (map base_to_value (en_bases e))); ("stale", JArray (map JString (en_stale e))); ("conflict", optional conflict_to_value (en_conflict e));
          ("hears", hears_to_value (en_hears e)); ("sent", JArray (map sent_to_value (en_sent e))); ("notes", notes_value (en_notes e)); ("claim", opt (en_claim e))]).

Definition entry_from_row (row : Row) : Entry :=
  let text key := s ← string_of (row_doc row) key; not_empty s in
  let shelved {A} (o : option A) := if decide (row_place row = Shelf) then o else None in
  mkEntry (row_id row) (text "name") (text "message") (row_repo row) (text "by") (row_made_at row) (default DEFAULT_AGENT (text "agent")) (text "folder") (text "session")
    (shelved (row_terminal row)) (strings (row_doc row) "after") (shelved (text "stopped")) (text "workspace") (text "birth") (strings (row_doc row) "on")
    (mark_from_value (get (row_doc row) "ready")) (base_list (get (row_doc row) "bases")) (id_list (get (row_doc row) "stale"))
    (conflict_from_value (get (row_doc row) "conflict")) (hears_from_value (get (row_doc row) "hears")) (sent_list (get (row_doc row) "sent"))
    (notes_list (get (row_doc row) "notes")) (text "claim").

(** ** [Tasks] *)

Record Change := mkChange { ch_what : string; ch_from : option Place; ch_to : option Place; ch_by : option string; ch_at : option f64; ch_doc : Value }.
(** [Change::new(what).by(..).with(..)] *)
Definition change (what : string) (by_ : option string) (doc : list (string * Value)) : Change := mkChange what None None by_ None (obj doc).

Record Comment := mkComment { co_file : string; co_thread : string }.
Record Message := mkMessage {
  mg_id : Z; mg_recipient : string; mg_repo : string; mg_sender : string; mg_at : f64; mg_delivered : option f64; mg_text : string; mg_mode : option string; mg_comment : option Comment }.

Record Tasks := mkTasks {
  ts_entries : list Entry;
  ts_running : list Running;
  ts_waiting : list Message;
  ts_rows : gmap string Row;
  ts_messages : list Message;
  ts_log : list (string * f64 * Change);
  ts_meta : gmap string string;
  ts_machine : Machine;
  ts_saves : nat }.

(** What the handlers find outside: which project a repo is of, the branch in a worktree, panes by
    name, [json_patch] of SQLite; and, for the saves in their order, how each ends, the clocks,
    and the row a message gets, if it can be saved *)
Class TaskWorld := {
  identity : string -> option string;
  branch_of : string -> option string;
  pane_named : string -> option string;
  patched : Value -> Value -> Value;
  save_fault : nat -> Fault;
  save_wall : nat -> nat -> Z;
  clock_now : nat -> f64;
  message_row : nat -> option Z }.

Definition KANNA : string := "kanna".
Definition PROMPTING : string := "prompting".
Definition TASK : string := "task-".

Definition open_tasks (t : Tasks) : list Entry := ts_entries t ++ map rn_entry (ts_running t).
Definition is_open (t : Tasks) (id : string) : bool :=
  existsb (fun e => bool_decide (en_id e = id)) (ts_entries t) || existsb (fun r => bool_decide (en_id (rn_entry r) = id)) (ts_running t).
Definition find_open (t : Tasks) (id : string) : option Entry := List.find (fun e => bool_decide (en_id e = id)) (open_tasks t).

Definition known (t : Tasks) (id : string) : option Entry :=
  match List.find (fun e => bool_decide (en_id e = id)) (ts_entries t) with
  | Some e => Some e
  | None =>
    match List.find (fun r => bool_decide (en_id (rn_entry r) = id)) (ts_running t) with
    | Some r => Some (rn_entry r)
    | None => entry_from_row <$> ts_rows t !! id
    end
  end.

(** [is_task_id] and [short_id] of db.rs *)
Definition is_task_id (id : string) : bool :=
  match strip_prefix TASK id with
  | Some hex => (String.length hex =? 8)%nat && forallb (fun a => is_digit a || ((97 <=? N_of_ascii a) && (N_of_ascii a <=? 102))%N) (string_bytes hex)
  | None => false
  end.
Definition short_id (id : string) (open : list string) : string :=
  match strip_prefix TASK id with
  | Some hex =>
    if is_task_id id then
      let others := omap (strip_prefix TASK) (retain (fun other => negb (bool_decide (other = id))) open) in
      let same n := existsb (fun other => starts_with (String.substring 0 n hex) other) others in
      let len := default 8%nat (List.find (fun n => negb (same n)) [4; 5; 6; 7]%nat) in
      TASK +:+ String.substring 0 len hex
    else id
  | None => id
  end.
Definition short (t : Tasks) (id : string) : string := short_id id (map en_id (open_tasks t)).

Definition label (t : Tasks) (id : string) : string :=
  let elsewhere := r ← List.head (births (ts_machine t).1 id); rec_text r "name" in
  match (match e ← known t id; en_name e with Some name => Some name | None => elsewhere end) with
  | Some name => short t id +:+ " " +:+ in_quotes name
  | None => short t id
  end.

(** The tasks that a task that has not started waits for *)
Definition waits (t : Tasks) (e : Entry) : list string :=
  match en_folder e with
  | Some _ => []
  | None =>
    retain (fun id =>
      existsb (fun o => bool_decide (en_id o = id) && (negb (bool_decide (is_Some (en_ready o))) || negb (bool_decide (en_stale o = [])))) (open_tasks t)
      || (negb (is_open t id) && open_task (ts_machine t).1 id)) (en_after e)
  end.

Definition stack_of (t : Tasks) (e : Entry) : list Base :=
  omap (fun id => o ← known t id; m ← en_ready o; Some (mkBase (en_id o) (mk_branch m) (mk_head m))) (en_after e).

(** ** Saving *)

Section Saving.
Context `{JsonText} `{Lowercase} {world : TaskWorld}.

Definition set_machine_of (m : Machine) (t : Tasks) : Tasks :=
  mkTasks (ts_entries t) (ts_running t) (ts_waiting t) (ts_rows t) (ts_messages t) (ts_log t) (ts_meta t) m (ts_saves t).
Definition count_save (t : Tasks) : Tasks :=
  mkTasks (ts_entries t) (ts_running t) (ts_waiting t) (ts_rows t) (ts_messages t) (ts_log t) (ts_meta t) (ts_machine t) (S (ts_saves t)).
(** [put_row]: the row, its document patched into the one that is there, and what changed *)
Definition put_row (row : Row) (change : option Change) (t : Tasks) : Tasks :=
  let doc := patched (match ts_rows t !! row_id row with Some old => row_doc old | None => JObject [] end) (row_doc row) in
  mkTasks (ts_entries t) (ts_running t) (ts_waiting t)
    (<[row_id row := mkRow (row_id row) (row_repo row) (row_place row) (row_terminal row) (row_made_at row) doc]> (ts_rows t))
    (ts_messages t) (ts_log t ++ match change with Some c => [(row_id row, default (clock_now (ts_saves t)) (ch_at c), c)] | None => [] end) (ts_meta t) (ts_machine t) (ts_saves t).
Definition set_tasks (entries : list Entry) (running : list Running) (t : Tasks) : Tasks :=
  mkTasks entries running (ts_waiting t) (ts_rows t) (ts_messages t) (ts_log t) (ts_meta t) (ts_machine t) (ts_saves t).

(** [Tasks::stage]: what is written of a task to the replicated Shelf; [None] is a panic of the clock *)
Definition stage_task (wall : nat -> Z) (e : Entry) (place : Place) (r : Replica) : option (option (string * list Op * option Permit) * Replica) :=
  match en_birth e with
  | None => Some (None, r)
  | Some birth =>
    if str_is_empty (rp_me r) then Some (None, r)
    else
      let started := bool_decide (is_Some (en_folder e)) || bool_decide (is_Some (en_held e)) || negb (bool_decide (place = Shelf)) in
      let state := if decide (place = Done) then "done" else if started then "started" else "waiting" in
      let permit := if decide (place = Done) then None else Some (if started then PRunning else PReady) in
      let fields := [("project", opt (identity (en_repo e))); ("name", opt (en_name e)); ("message", opt (en_message e)); ("agent", JString (en_agent e));
                     ("after", JArray (map JString (en_after e))); ("on", JArray (map JString (en_on e))); ("state", JString state); ("owner", JString (rp_me r))] in
      '(ops, r) ← stage wall (en_id e) birth fields r;
      let before field := match record_of r (en_id e) birth with Some record => rec_get record field | None => JNull end in
      let blank v := is_null v || value_eq v (JArray []) in
      let moved := fun p : string * Value => negb (value_eq (before p.1) p.2) && negb (blank (before p.1) && blank p.2) in
      '(more, r) ← stage (fun i => wall (8 + i)%nat) (en_id e) birth (retain moved [("notes", notes_value (en_notes e)); ("claim", opt (en_claim e))]) r;
      Some (Some (birth, ops ++ more, permit), r)
  end.

(** [Tasks::store] *)
Definition store (e : Entry) (place : Place) (pane : option string) (change : option Change) : act Tasks unit := fun t =>
  let fault := save_fault (ts_saves t) in
  let '(r, db) := ts_machine t in
  match stage_task (save_wall (ts_saves t)) e place r with
  | None => (Panic, t)
  | Some (staged, r) =>
    let t := count_save (set_machine_of (r, db) t) in
    match fault with
    | Fine =>
      let t := put_row (entry_row e place pane) change t in
      (Ok tt, match staged with
                | None => t
                | Some (birth, ops, permit) =>
                  set_machine_of (keep_ops Fine ops (fun db => match permit with Some p => hold_unless_held (en_id e) birth p db | None => db end) r db).2 t
                end)
    | Before why | Within why => (Err (mkError "failed" ("couldn't save " +:+ en_id e +:+ ": " +:+ why)), t)
    end
  end.

(** [let _ = ..]: an error is dropped *)
Definition ignored {A} (m : act Tasks A) : act Tasks unit := fun t =>
  match m t with (Panic, t) => (Panic, t) | (_, t) => (Ok tt, t) end.

(** [iter_mut().find(..)]: the first with the id is edited *)
Fixpoint edit_first (id : string) (edit : Entry -> Entry) (l : list Entry) : option (Entry * list Entry) :=
  match l with
  | [] => None
  | e :: l =>
    if decide (en_id e = id) then Some (edit e, edit e :: l)
    else '(found, l) ← edit_first id edit l; Some (found, e :: l)
  end.
Fixpoint edit_running (id : string) (edit : Entry -> Entry) (l : list Running) : option (Running * list Running) :=
  match l with
  | [] => None
  | r :: l =>
    if decide (en_id (rn_entry r) = id)
    then let r := mkRunning (rn_pane r) (edit (rn_entry r)) (rn_place r) in Some (r, r :: l)
    else '(found, l) ← edit_running id edit l; Some (found, r :: l)
  end.

Definition alter (id : string) (c : Change) (edit : Entry -> Entry) : act Tasks (option Entry) := fun t =>
  match edit_first id edit (ts_entries t) with
  | Some (e, entries) => (let! _ := ignored (store e Shelf (en_held e) (Some c)) in act_ret (Some e)) (set_tasks entries (ts_running t) t)
  | None =>
    match edit_running id edit (ts_running t) with
    | Some (r, running) => (let! _ := ignored (store (rn_entry r) (rn_place r) (Some (rn_pane r)) (Some c)) in act_ret (Some (rn_entry r))) (set_tasks (ts_entries t) running t)
    | None => (Ok None, t)
    end
  end.

(** [Tasks::tell]: the row of the message that waits *)
Definition tell (id text : string) : act Tasks (option Z) := fun t =>
  match find_open t id with
  | None => (Ok None, t)
  | Some e =>
    let n := ts_saves t in
    let t := count_save t in
    match message_row n with
    | None => (Ok None, t)
    | Some row =>
      let message := mkMessage row id (en_repo e) KANNA (clock_now n) None text (Some PROMPTING) None in
      (Ok (Some row), mkTasks (ts_entries t) (ts_running t) (ts_waiting t ++ [message]) (ts_rows t) (ts_messages t ++ [message]) (ts_log t) (ts_meta t) (ts_machine t) (ts_saves t))
    end
  end.

(** ** Events *)

Definition emit (id : string) (event : TaskEvent) (text : string) (about : option string) : act Tasks unit := fun t =>
  match find_open t id with
  | None => (Ok tt, t)
  | Some e =>
    if hears (en_hears e) event then
      (let! told := tell id text in
       match told with
       | None => act_ret tt
       | Some message =>
         let! at_ := act_gets (fun t => clock_now (ts_saves t)) in
         let sent := mkSent (event_name event) message about at_ in
         let! _ := alter id (change "event" (Some "daemon") [("event", JString (event_name event)); ("message", from_i64 message)])
                     (fun e => entry_set_sent (retain (fun s => negb (bool_decide (se_event s = se_event sent))) (en_sent e) ++ [sent]) e) in
         act_ret tt
       end) t
    else (Ok tt, t)
  end.

Definition is_waiting (t : Tasks) (message : Z) : bool := existsb (fun m => bool_decide (mg_id m = message)) (ts_waiting t).
Definition hears_conflicts (e : Entry) : bool := bool_decide (en_bases e = []) && hears (en_hears e) MainConflicts.

Definition heard_main (task : SeenTask) (main : string) : act Tasks unit := fun t =>
  match find_open t (st_id task) with
  | None => (Ok tt, t)
  | Some e =>
    let waiting event := fun t => match sent_of (en_sent e) event with Some sent => is_waiting t (se_message sent) | None => false end in
    (let! _ :=
       (if hears_conflicts e then
          match conflict_step task (sent_of (en_sent e) MainConflicts) (waiting MainConflicts t) with
          | Tell about => emit (en_id e) MainConflicts (conflict_text main (st_conflicts task)) (Some about)
          | Over =>
            let! _ := alter (en_id e) (change "conflict over" (Some "daemon") [])
              (fun e => entry_set_sent (map (fun s => if decide (se_event s = event_name MainConflicts) then mkSent (se_event s) (se_message s) None (se_at s) else s) (en_sent e)) e) in
            act_ret tt
          | Nothing => act_ret tt
          end
        else act_ret tt) in
     fun t => if (0 <? st_ahead task)%N && negb (waiting MainMoved t) then emit (en_id e) MainMoved (moved_text main task) None t else (Ok tt, t)) t
  end.

Definition main_key (repo : string) : string := "main:" +:+ repo.
Definition last_main (t : Tasks) (repo : string) : option Main := text ← ts_meta t !! main_key repo; main_saved text.

(** [put_meta], where it does not fail *)
Definition put_meta (key value : string) : act Tasks unit := fun t =>
  match save_fault (ts_saves t) with
  | Fine => (Ok tt, mkTasks (ts_entries t) (ts_running t) (ts_waiting t) (ts_rows t) (ts_messages t) (ts_log t) (<[key := value]> (ts_meta t)) (ts_machine t) (S (ts_saves t)))
  | Before _ | Within _ => (Ok tt, count_save t)
  end.

Fixpoint each {A} (f : A -> act Tasks unit) (l : list A) : act Tasks unit :=
  match l with [] => act_ret tt | x :: l => let! _ := f x in each f l end.

Definition listened (seen : list MainSeen) : act Tasks unit :=
  each (fun repo => fun t =>
    (let! _ := (if decide (last_main t (ms_repo repo) = Some (ms_main repo)) then act_ret tt else put_meta (main_key (ms_repo repo)) (main_text (ms_main repo))) in
     each (fun task => heard_main task (mn_branch (ms_main repo))) (ms_tasks repo)) t) seen.

(** The repos to look at, and the tasks of each *)
Fixpoint add_probe (repo : string) (last : option Main) (task : TaskProbe) (probes : list MainProbe) : list MainProbe :=
  match probes with
  | [] => [mkMainProbe repo last [task]]
  | p :: probes => if decide (mp_repo p = repo) then mkMainProbe (mp_repo p) (mp_last p) (mp_tasks p ++ [task]) :: probes else p :: add_probe repo last task probes
  end.
Definition main_probes (t : Tasks) : list MainProbe :=
  foldl (fun probes e =>
    match en_folder e with
    | None => probes
    | Some folder => add_probe (en_repo e) (last_main t (en_repo e)) (mkTaskProbe (en_id e) folder (hears_conflicts e) (hears (en_hears e) MainMoved)) probes
    end) [] (open_tasks t).

(** ** Stacks *)

Definition where_of (t : Tasks) (b : Base) : Where :=
  match e ← find_open t (bs_id b); en_folder e with
  | Some folder => InFolder folder
  | None => OnBranch (default (bs_branch b) (e ← known t (bs_id b); m ← en_ready e; not_empty (mk_branch m)))
  end.

Definition probes (t : Tasks) : list Probe :=
  omap (fun e => folder ← en_folder e; Some (mkProbe (en_id e) (en_repo e) (InFolder folder) (map (fun b => (b, where_of t b)) (en_bases e))))
    (retain (fun e => bool_decide (is_Some (en_ready e)) || negb (bool_decide (en_bases e = []))) (open_tasks t)).

Definition is_alnum (a : ascii) : bool :=
  let n := N_of_ascii a in (((48 <=? n) && (n <=? 57)) || ((65 <=? n) && (n <=? 90)) || ((97 <=? n) && (n <=? 122)))%N.
Definition is_hex (a : ascii) : bool :=
  let n := N_of_ascii a in (((48 <=? n) && (n <=? 57)) || ((65 <=? n) && (n <=? 70)) || ((97 <=? n) && (n <=? 102)))%N.

Definition branch_name (t : Tasks) (id : string) : string :=
  let e := known t id in
  let ready := e ← e; m ← en_ready e; not_empty (mk_branch m) in
  let found := match ready with Some b => Some b | None => e ← e; f ← en_folder e; branch_of f end in
  match found with
  | Some b => if forallb (fun c => is_alnum c || bool_decide (c ∈ string_bytes "._/-")) (string_bytes b) then b else id
  | None => id
  end.

(** What to merge, as a command: a commit by its hexadecimal name, or a branch *)
Definition merge_target (t : Tasks) (id : string) (seen : option string) : string :=
  let ready := match e ← known t id; en_ready e with Some m => mk_head m | None => "" end in
  let h := match seen with Some h => h | None => ready end in
  if negb (str_is_empty h) && forallb is_hex (string_bytes h) then h else branch_name t id.

Definition seen_head (seen : list Seen) (id base : string) : option string :=
  s ← seen_of seen id; sb_head <$> List.find (fun b => bool_decide (sb_id b = base)) (sn_bases s).

Definition stack_tasks (t : Tasks) : list Task := map (fun e => mkTask (en_id e) (en_ready e) (en_bases e) (en_stale e)) (open_tasks t).

Definition set_ready (ready : option Mark) (e : Entry) : Entry := entry_set_stack ready (en_bases e) (en_stale e) e.
Definition drop_base (base : string) (e : Entry) : Entry := entry_set_stack (en_ready e) (retain (fun b => negb (bool_decide (bs_id b = base))) (en_bases e)) (en_stale e) e.
Definition set_stale (stale : list string) (e : Entry) : Entry := entry_set_stack None (en_bases e) stale e.

Definition merged_text (t : Tasks) (rest : Entry) (base main : string) : string :=
  label t base +:+ "'s work is in " +:+ main +:+ " now: merge " +:+ main +:+ " into your branch (git merge " +:+ main +:+ ")." +:+
  match en_bases rest with
  | [] => " Nothing you build on is outside " +:+ main +:+ " now: you're an ordinary task again, and can merge into " +:+ main +:+ " once you're done."
  | bases => " You still merge after " +:+ join ", " (map (fun b => label t (bs_id b)) bases) +:+ "."
  end.
Definition stale_text (t : Tasks) (seen : list Seen) (id : string) (behind waiting : list string) : string :=
  join " "
    ((match behind with
      | [] => []
      | _ => [join ", " (map (label t) behind) +:+ " moved since this task was built on it, so this task is stale: merge it into your branch (" +:+
              join "; " (map (fun b => "git merge " +:+ merge_target t b (seen_head seen id b)) behind) +:+ "), rerun the tests, then run `kanna task ready set`."]
      end) ++
     (match waiting with
      | [] => []
      | _ => [join ", " (map (label t) waiting) +:+ " is stale, so this task is too: what it builds on moved. Wait for it: you get a message when it's ready again; then merge its branch, rerun the tests and run `kanna task ready set`."]
      end)).

Definition settle_step (seen : list Seen) (step : Step) : act Tasks unit :=
  match step with
  | Unready id => let! _ := alter id (change "unready" (Some "daemon") [("why", JString "moved")]) (set_ready None) in act_ret tt
  | Merged id base main =>
    let! rest := alter id (change "base merged" (Some "daemon") [("base", JString base)]) (drop_base base) in
    match rest with
    | None => act_ret tt
    | Some rest => fun t => emit id BaseMerged (merged_text t rest base (default "main" main)) None t
    end
  | Stale id behind waiting =>
    let! _ := alter id (change "stale" (Some "daemon") [("behind", JArray (map JString (behind ++ waiting)))]) (set_stale (behind ++ waiting)) in
    fun t => emit id BaseMoved (stale_text t seen id behind waiting) None t
  end.

Definition settle_tasks (seen : list Seen) : act Tasks unit := fun t =>
  match settle (stack_tasks t) seen with
  | Some steps => each (settle_step seen) steps t
  | None => (Panic, t)
  end.

(** ** The requests: [resolve], [marking], [marked], [unmark], [subscribe] and [edit]

    A reply is the task's entry, and what else is said of it; how it is described is left out. *)

Definition who (args : Value) : option string := Some (default "user" (by_ ← string_of args "by"; not_empty by_)).
Definition bad (message : string) : KmuxError := mkError "bad_request" message.
Definition not_found (id : string) : KmuxError := mkError "not_found" ("no task " +:+ in_quotes id +:+ " on the Shelf").

Definition task_of (t : Tasks) (pane : string) : option string :=
  match List.find (fun r => bool_decide (rn_pane r = pane)) (ts_running t) with
  | Some r => Some (en_id (rn_entry r))
  | None => en_id <$> List.find (fun e => bool_decide (en_held e = Some pane)) (ts_entries t)
  end.

Definition resolve (t : Tasks) (reference : string) : res (option string) :=
  if is_open t reference then Ok (Some reference)
  else match pane_named reference with
  | Some pane => Ok (task_of t pane)
  | None =>
    let start := lowercase reference in
    let start := default start (strip_prefix TASK start) in
    let starts id := match strip_prefix TASK id with Some hex => starts_with start hex | None => false end in
    let found :=
      if negb (str_is_empty start) && (String.length start <=? 8)%nat && forallb is_hex (string_bytes start)
      then retain (fun e => starts (en_id e)) (open_tasks t) else [] in
    match found with
    | [one] => Ok (Some (en_id one))
    | _ :: _ :: _ =>
      Err (mkError "ambiguous" (reference +:+ " could be " +:+ pretty (N.of_nat (length found)) +:+ " tasks: " +:+ join ", " (map (fun e => label t (en_id e)) found) +:+ "; say more of its ID"))
    | [] =>
      match ts_rows t !! reference with
      | Some row => Ok (Some (row_id row))
      | None =>
        let open r := match rec_text r "state" with Some s => negb (bool_decide (s = "done")) | None => false end in
        let elsewhere := retain (fun id => bool_decide (id = reference) || (negb (str_is_empty start) && starts id))
                           (map (fun p => rc_task p.2) (retain (fun p => open p.2) (map_to_list (rp_records (ts_machine t).1)))) in
        Ok match elsewhere with [one] => Some one | _ => None end
      end
    end
  end.

(** *** Marking a task ready *)

Record Marking := mkMarking { ma_id : string; ma_folder : string; ma_repo : string; ma_bases : list (Base * Where) }.
Record MarkRead := mkMarkRead { mr_dirty : string + bool; mr_head : string + string; mr_branch : string; mr_bases : list (Base * string * bool * bool) }.

Section Read.
Context {W : Type} `{!Repos W}.

Fixpoint read_bases (repo tip : string) (bases : list (Base * Where)) (w : W) : list (Base * string * bool * bool) * W :=
  match bases with
  | [] => ([], w)
  | (base, at_) :: bases =>
    let '(h, w) := head repo at_ w in
    let now := default (bs_head base) h in
    let '(merged, w) := in_main repo now w in
    let '(contained, w) := if merged then (true, w) else contains_commit repo now tip w in
    let '(rest, w) := read_bases repo tip bases w in
    ((base, now, merged, contained) :: rest, w)
  end.

(** [Marking::read] *)
Definition mark_read (m : Marking) (w : W) : MarkRead * W :=
  let '(dirty, w) := dirty (ma_folder m) w in
  let '(h, w) := git (ma_folder m) ["rev-parse"; "HEAD"] w in
  let '(branch, w) := git (ma_folder m) ["branch"; "--show-current"] w in
  let '(bases, w) := read_bases (ma_repo m) (default "" (res_some h)) (ma_bases m) w in
  (mkMarkRead dirty h (default "" (res_some branch)) bases, w).

Definition marking (args : Value) (t : Tasks) (w : W) : res Marking * W :=
  match (let? reference := ok_or (string_of args "task") (bad "say which task") in
         let? found := resolve t reference in
         let? id := ok_or found (not_found reference) in
         ok_or (find_open t id) (mkError "done" (short t id +:+ " is done"))) with
  | Ok e =>
    let '(folder, w) := match en_folder e with None => (None, w) | Some f => let '(there, w) := is_dir f w in (if there then Some f else None, w) end in
    (match folder with
     | Some folder => Ok (mkMarking (en_id e) folder (en_repo e) (map (fun b => (b, where_of t b)) (en_bases e)))
     | None => Err (mkError "not_started" (short t (en_id e) +:+ " hasn't started, so it has no work to be ready"))
     end, w)
  | Err e => (Err e, w)
  | Panic => (Panic, w)
  end.
End Read.

(** The bases a task that is marked has: each is in main, or in its branch and not stale *)
Fixpoint marked_bases (t : Tasks) (bases : list (Base * string * bool * bool)) : res (list Base) :=
  match bases with
  | [] => Ok []
  | (base, now, merged, contained) :: bases =>
    let? kept :=
      (if merged then Ok base
       else if existsb (fun e => bool_decide (en_id e = bs_id base) && negb (bool_decide (en_stale e = []))) (open_tasks t)
       then Err (mkError "stale" (label t (bs_id base) +:+ " is stale itself: it catches up first, and you get a message when it's ready again"))
       else if contained then Ok (mkBase (bs_id base) (branch_name t (bs_id base)) now)
       else Err (mkError "behind" (label t (bs_id base) +:+ " isn't in this branch yet: merge it first (git merge " +:+ now +:+ "), rerun the tests, then mark it ready"))) in
    let? rest := marked_bases t bases in
    Ok (kept :: rest)
  end.

Definition mark_checks (id : string) (read : MarkRead) (t : Tasks) : res (string * list Base) :=
  let unread error := mkError "failed" ("couldn't read " +:+ short t id +:+ "'s worktree: " +:+ error) in
  let? dirty := match mr_dirty read with inl e => Err (unread e) | inr d => Ok d end in
  if dirty then Err (mkError "dirty" (short t id +:+ " has uncommitted changes: commit them first, so the tasks built on it get them"))
  else
    let? h := match mr_head read with inl e => Err (unread e) | inr h => Ok h end in
    if negb (existsb (fun e => bool_decide (en_id e = id)) (open_tasks t)) then Err (mkError "done" (short t id +:+ " is done"))
    else let? bases := marked_bases t (mr_bases read) in Ok (h, bases).

Definition marked (args : Value) (id : string) (read : MarkRead) : act Tasks (Entry * list string) := fun t =>
  match mark_checks id read t with
  | Err e => (Err e, t)
  | Panic => (Panic, t)
  | Ok (h, bases) =>
    let blocked := retain (fun e => negb (bool_decide (is_Some (en_folder e))) && bool_decide (id ∈ waits t e)) (open_tasks t) in
    let mark := mkMark h (mr_branch read) (clock_now (ts_saves t)) in
    (let! found := alter id (change "ready" (who args) [("head", JString h); ("branch", JString (mr_branch read))]) (entry_set_stack (Some mark) bases []) in
     let! e := act_lift (ok_or found (not_found id)) in
     let! behind := act_gets (fun t => map en_id (retain (fun e => negb (bool_decide (en_stale e = [])) && existsb (fun b => bool_decide (bs_id b = id)) (en_bases e)) (open_tasks t))) in
     let! _ := each (fun task t =>
       emit task BaseMoved (label t id +:+ " is ready again: merge it into your branch (git merge " +:+ h +:+ "), rerun the tests, then run `kanna task ready set`.") None t) behind in
     let! freed := act_gets (fun t => map en_id (retain (fun e => bool_decide (waits t e = [])) (omap (fun e => known t (en_id e)) blocked))) in
     act_ret (e, freed)) t
  end.

Definition unmark (args : Value) : act Tasks Entry := fun t =>
  (let! reference := act_lift (ok_or (string_of args "task") (bad "say which task")) in
   let! found := act_lift (resolve t reference) in
   let! id := act_lift (ok_or found (not_found reference)) in
   let! e := act_lift (ok_or (find_open t id) (mkError "done" (short t id +:+ " is done"))) in
   match en_ready e with
   | None => act_ret e
   | Some _ =>
     let! left_ := alter id (change "unready" (who args) [("why", JString "cleared")]) (set_ready None) in
     act_lift (ok_or left_ (not_found reference))
   end) t.

(** *** Subscriptions *)

Definition subscribe (args : Value) (on : bool) : act Tasks (string * TaskEvent * bool * list string) := fun t =>
  (let! reference := act_lift (ok_or (string_of args "task") (bad "say which task")) in
   let! resolved := act_lift (resolve t reference) in
   let! id := act_lift (ok_or (match task_of t reference with Some id => Some id | None => resolved end) (not_found reference)) in
   let! named := act_lift (ok_or (string_of args "event") (bad ("say which event: " +:+ event_names))) in
   let! event := act_lift (ok_or (event_parse named) (bad ("no event " +:+ in_quotes named +:+ ": " +:+ event_names))) in
   let! e := act_lift (ok_or (find_open t id) (mkError "done" (short t id +:+ " is done"))) in
   let changed := negb (Bool.eqb (hears (en_hears e) event) on) in
   let! e :=
     (if changed then
        let! left_ := alter id (change (if on then "subscribed" else "unsubscribed") (who args) [("event", JString (event_name event))]) (fun e => entry_set_hears (hears_set event on (en_hears e)) e) in
        act_lift (ok_or left_ (not_found reference))
      else act_ret e) in
   act_gets (fun t => (short t id, event, changed, hears_names (en_hears e)))) t.

(** *** What a task waits for *)

(** The tasks that a task is told to wait for, here or, by its records, elsewhere *)
Definition after_of (t : Tasks) (id : string) : list string :=
  match List.find (fun e => bool_decide (en_id e = id)) (ts_entries t) with
  | Some e => en_after e
  | None => flat_map (fun r => rec_list r "after") (births (ts_machine t).1 id)
  end.

(** The loop of [waits_for], the last of [todo] first; [None] is a lack of fuel *)
Fixpoint waits_for_go (fuel : nat) (t : Tasks) (target : string) (seen : gset string) (todo : list string) : option bool :=
  match fuel with
  | O => None
  | S fuel =>
    match todo with
    | [] => Some false
    | id :: todo =>
      if bool_decide (id ∈ seen) then waits_for_go fuel t target seen todo
      else
        let after := after_of t id in
        if existsb (fun next => bool_decide (next = target)) after then Some true
        else waits_for_go fuel t target ({[id]} ∪ seen) (rev after ++ todo)
    end
  end.

(** The tasks that can have some: each is looked at once, so that what they wait for and the first one are steps enough *)
Definition waiting_ids (t : Tasks) : list string := remove_dups (map en_id (ts_entries t) ++ map (fun p => p.1.1) (map_to_list (rp_records (ts_machine t).1))).
Definition waits_fuel (t : Tasks) : nat := 2 + sum_list_with (fun id => length (after_of t id)) (waiting_ids t).
Definition waits_for (t : Tasks) (from target : string) : option bool := waits_for_go (waits_fuel t) t target ∅ [from].

Definition open_anywhere (t : Tasks) (id : string) : bool := is_open t id || open_task (ts_machine t).1 id.

Fixpoint blockers_go (t : Tasks) (me : string) (references ids : list string) : res (list string) :=
  match references with
  | [] => Ok ids
  | reference :: references =>
    let? found := resolve t reference in
    let? id := ok_or found (not_found reference) in
    if negb (open_anywhere t id) then Err (bad (short t reference +:+ " is done already, so there's nothing to wait for"))
    else
      let? cycle := (if bool_decide (id = me) then Ok true else unwrap (waits_for t id me)) in
      if cycle then Err (mkError "cycle" (short t reference +:+ " waits for " +:+ short t me +:+ ": they'd wait for each other"))
      else blockers_go t me references (if bool_decide (id ∈ ids) then ids else ids ++ [id])
  end.
Definition blockers (t : Tasks) (args : Value) (me : string) : res (option (list string)) :=
  match get args "after" with
  | None | Some JNull => Ok None
  | Some (JArray items) => let? ids := blockers_go t me (omap as_str items) [] in Ok (Some ids)
  | Some _ => Err (bad "after is a list of tasks")
  end.

(** [*found = entry] *)
Fixpoint replace_entry (e : Entry) (l : list Entry) : list Entry :=
  match l with [] => [] | x :: l => if decide (en_id x = en_id e) then e :: l else x :: replace_entry e l end.

Definition edit (args : Value) : act Tasks Entry := fun t =>
  (let! reference := act_lift (ok_or (string_of args "task") (bad "say which task")) in
   let! e := act_lift (ok_or (List.find (fun e => bool_decide (en_id e = reference)) (ts_entries t)) (mkError "not_found" ("no Shelf task " +:+ in_quotes reference))) in
   let! _ := (if bool_decide (is_Some (en_folder e)) then act_fail (mkError "started" (short t reference +:+ " has started: its branch is made, and nothing holds it back now")) else act_ret tt) in
   let! found := act_lift (blockers t args (en_id e)) in
   let! after := act_lift (ok_or found (bad "say what it waits for: after")) in
   let e := entry_set_after after e in
   let! _ := store e Shelf (en_held e) (Some (change "edited" (who args) [("after", JArray (map JString after))])) in
   fun t => (Ok e, set_tasks (replace_entry e (ts_entries t)) (ts_running t) t)) t.
End Saving.
