(* ===== verification/TaskTheorems.v ===== *)
(** * Tasks: what waits for what, and what is settled

    The loop that looks for a cycle ends and is exact, and a task that is edited closes none; every
    handler keeps a task from being both ready and stale; what is settled stays settled. *)

From Stdlib Require Import Ascii.
From stdpp Require Import relations.
From S2P Require Import Prelude Text F64 Json Pipe Schedule Runs RunDoc PeerLog Utf8 Replica Stacks Tasks.

(** ** Who waits for whom *)

(** A task is told to wait for another, here or in a record *)
Definition waits_on (t : Tasks) (a b : string) : Prop := b ∈ after_of t a.
Definition acyclic (t : Tasks) : Prop := forall id, ~ tc (waits_on t) id id.

Lemma elem_of_births r task x : x ∈ births r task <-> exists birth, rp_records r !! (task, birth) = Some x.
Proof.
  unfold births. rewrite list_elem_of_omap. split; [intros (birth & _ & ?); by exists birth|]. intros (birth & E). exists birth. split; [|done].
  rewrite sort_strings_perm. apply list_elem_of_fmap. exists (task, birth). split; [done|]. unfold retain.
  rewrite list_elem_of_In, filter_In, <- list_elem_of_In. split; [|by apply bool_decide_true]. apply list_elem_of_fmap. exists (task, birth, x). split; [done|]. by apply elem_of_map_to_list.
Qed.

Definition entry_of (t : Tasks) (id : string) : option Entry := List.find (fun e => bool_decide (en_id e = id)) (ts_entries t).

Lemma find_task_Some {A} (key : A -> string) l id x : List.find (fun x => bool_decide (key x = id)) l = Some x -> x ∈ l /\ key x = id.
Proof. intros [? ?%bool_decide_eq_true]%List.find_some. by rewrite list_elem_of_In. Qed.
Lemma find_task_None {A} (key : A -> string) l id x : List.find (fun x => bool_decide (key x = id)) l = None -> x ∈ l -> key x ≠ id.
Proof. rewrite list_elem_of_In. intros H Hx. by apply (List.find_none _ _ H), bool_decide_eq_false in Hx. Qed.

(** A task that waits for some is on the Shelf, or has a record *)
Lemma waits_on_known t a b : waits_on t a b -> a ∈ waiting_ids t.
Proof.
  unfold waits_on, after_of, waiting_ids. rewrite elem_of_remove_dups, elem_of_app. fold (entry_of t a). destruct (entry_of t a) as [e|] eqn:E.
  - intros _. left. apply find_task_Some in E as [? <-]. by apply list_elem_of_fmap_2.
  - rewrite list_elem_of_In, in_flat_map. intros (r & Hr & _). rewrite <- list_elem_of_In in Hr. apply elem_of_births in Hr as [birth Hb]. right.
    apply list_elem_of_fmap. exists (a, birth, r). split; [done|]. by apply elem_of_map_to_list.
Qed.

Section Waiting.
Context (t : Tasks) (from target : string).

(** What is left to look at *)
Definition unlooked (seen : gset string) (ids : list string) : nat := sum_list_with (fun id => if decide (id ∈ seen) then 0%nat else length (after_of t id)) ids.

Lemma unlooked_mono seen id ids : (unlooked ({[id]} ∪ seen) ids <= unlooked seen ids)%nat.
Proof. induction ids as [|x ids IH]; [done|]. cbn [unlooked sum_list_with]. fold (unlooked seen ids) (unlooked ({[id]} ∪ seen) ids). repeat case_decide; try lia. set_solver. Qed.

Lemma unlooked_less seen id ids : id ∉ seen -> id ∈ ids -> (unlooked ({[id]} ∪ seen) ids + length (after_of t id) <= unlooked seen ids)%nat.
Proof.
  intros Hs. induction ids as [|x ids IH]; [by intros ?%elem_of_nil|]. cbn [unlooked sum_list_with]. fold (unlooked seen ids) (unlooked ({[id]} ∪ seen) ids).
  intros [<-|Hx]%elem_of_cons.
  - rewrite decide_True, decide_False by set_solver. pose proof (unlooked_mono seen id ids). lia.
  - specialize (IH Hx). repeat case_decide; try lia. set_solver.
Qed.

Lemma unlooked_look seen id : id ∉ seen -> (unlooked ({[id]} ∪ seen) (waiting_ids t) + length (after_of t id) <= unlooked seen (waiting_ids t))%nat.
Proof.
  intros Hs. destruct (after_of t id) as [|x l] eqn:E; [pose proof (unlooked_mono seen id (waiting_ids t)); simpl; lia|]. rewrite <- E. apply unlooked_less; [done|].
  apply (waits_on_known t id x). unfold waits_on. rewrite E. left.
Qed.

Record looking (seen : gset string) (todo : list string) : Prop := {
  lo_reached x : x ∈ todo -> rtc (waits_on t) from x;
  lo_from : from ∈ seen \/ from ∈ todo;
  lo_closed x y : x ∈ seen -> waits_on t x y -> y ≠ target /\ (y ∈ seen \/ y ∈ todo) }.

Lemma waits_for_go_spec fuel seen todo :
  looking seen todo -> (length todo + unlooked seen (waiting_ids t) < fuel)%nat ->
  exists found, waits_for_go fuel t target seen todo = Some found /\ (found = true <-> tc (waits_on t) from target).
Proof.
  revert seen todo. induction fuel as [|fuel IH]; intros seen todo [Hr Hf Hc] Hm; [lia|]. destruct todo as [|id todo]; simpl.
  - exists false. split; [done|]. split; [done|]. destruct Hf as [Hf|?%elem_of_nil]; [|done]. intros H. exfalso.
    enough (forall x y, tc (waits_on t) x y -> x ∈ seen -> y ≠ target) as Hn by by apply (Hn _ _ H). clear -Hc.
    intros x y H. induction H as [x y H|x y z H _ IH]; intros Hx; destruct (Hc _ _ Hx H) as [? [? | ?%elem_of_nil]]; auto; done.
  - case_bool_decide as Hin.
    + simpl in Hm. apply IH; [|lia]. split; [intros x Hx; apply Hr; by right|set_solver|]. intros x y Hx Hy. destruct (Hc x y Hx Hy) as [? Hy']. split; [done|set_solver].
    + destruct (existsb _ _) eqn:E.
      * exists true. split; [done|]. split; [intros _|done]. apply existsb_exists in E as (y & Hy & ->%bool_decide_eq_true). rewrite <- list_elem_of_In in Hy.
        eapply tc_rtc_l; [apply Hr; left|by apply tc_once].
      * apply IH.
        -- split.
           ++ intros x [Hx|Hx]%elem_of_app; [|apply Hr; by right]. rewrite list_elem_of_In, <- in_rev, <- list_elem_of_In in Hx. eapply rtc_r; [apply Hr; left|done].
           ++ set_solver.
           ++ intros x y [->%elem_of_singleton|Hx]%elem_of_union Hy.
              ** split.
                 { intros ->. enough (existsb (fun next => bool_decide (next = target)) (after_of t id) = true) by congruence. apply existsb_exists. exists target.
                   rewrite <- list_elem_of_In, bool_decide_true; done. }
                 { right. apply elem_of_app. left. by rewrite list_elem_of_In, <- in_rev, <- list_elem_of_In. }
              ** destruct (Hc x y Hx Hy) as [? Hy']. split; [done|set_solver].
        -- pose proof (unlooked_look seen id Hin). rewrite length_app, length_rev. simpl in Hm. lia.
Qed.

(** Whether a task waits for another, down any chain *)
Lemma waits_for_spec : exists found, waits_for t from target = Some found /\ (found = true <-> tc (waits_on t) from target).
Proof.
  apply waits_for_go_spec.
  - split; [intros x ->%list_elem_of_singleton; constructor|right; left|]. intros x y Hx. set_solver.
  - assert (unlooked ∅ (waiting_ids t) <= sum_list_with (fun id => length (after_of t id)) (waiting_ids t))%nat; [|unfold waits_fuel; simpl; lia].
    generalize (waiting_ids t). intros ids. induction ids as [|x ids IH]; [done|]. cbn [unlooked sum_list_with]. fold (unlooked ∅ ids). case_decide; lia.
Qed.
End Waiting.

(** ** Where one task's edges change *)

Section Redirect.
Context (R R' : string -> string -> Prop) (me : string).
Hypothesis same : forall x y, x ≠ me -> R' x y -> R x y.
Hypothesis away : forall y, R' me y -> y ≠ me /\ ~ tc R y me.

Lemma redirect_back y : rtc R' y me -> rtc R y me.
Proof.
  intros H. remember me as z eqn:Ez in H. induction H as [|x y z H _ IH]; [by subst; constructor|]. subst z. destruct (decide (x = me)) as [->|Hx]; [constructor|].
  eapply rtc_l; [by apply same|auto].
Qed.

Lemma redirect_no_loop : ~ tc R' me me.
Proof.
  intros H. inversion H as [? y Hy|? y ? Hy Hr]; subst; destruct (away _ Hy) as [Hn Ht]; [done|].
  apply tc_rtc, redirect_back in Hr. apply rtc_tc in Hr as [->|?]; done.
Qed.

Lemma redirect_path a b : tc R' a b -> tc R a b \/ (rtc R' a me /\ tc R' me b).
Proof.
  intros H. induction H as [a b H|a c b H Hr IH].
  - destruct (decide (a = me)) as [->|Ha]; [right; split; [constructor|by apply tc_once]|left; by apply tc_once, same].
  - destruct (decide (a = me)) as [->|Ha]; [right; split; [constructor|by eapply tc_l]|]. destruct IH as [IH|[IH ?]]; [left; eapply tc_l; [by apply same|done]|right].
    split; [by eapply rtc_l|done].
Qed.

Lemma redirect_acyclic : (forall x, ~ tc R x x) -> forall x, ~ tc R' x x.
Proof. intros Ha x Hx. destruct (redirect_path _ _ Hx) as [H|[Hb Hm]]; [by eapply Ha|]. apply redirect_no_loop. by eapply tc_rtc_r. Qed.
End Redirect.

(** ** What a save leaves alone *)

Lemma stage_records wall task birth fields r ops r' :
  stage wall task birth fields r = Some (ops, r') -> rp_records r' = rp_records r /\ forall o, o ∈ ops -> op_task o = task.
Proof.
  unfold stage. generalize (retain (moves (default rec_default (record_of r task birth))) fields). clear fields. intros fields. revert r ops.
  induction fields as [|[field value] fields IH]; intros r ops E; simpl in E; [injection E as <- <-; split; [done|by intros o ?%elem_of_nil]|].
  apply bind_Some in E as ([at_ r1] & Et & E). apply bind_Some in E as ([rest r2] & Er & [= <- <-]). apply bind_Some in Et as (n & _ & [= <- <-]).
  apply IH in Er as [Er Ho]. split; [done|]. by intros o [->|?]%elem_of_cons; [|apply Ho].
Qed.

Lemma applied_records ops r k : (forall o, o ∈ ops -> op_task o ≠ k.1) -> rp_records (applied ops r).2 !! k = rp_records r !! k.
Proof.
  revert r. induction ops as [|o ops IH]; intros r Ho; [done|]. simpl. unfold project. destruct (rec_see _ o) as [fresh rec].
  match goal with |- context [applied ops ?r1] => specialize (IH r1); destruct (applied ops r1) as [n r2] end. simpl in *.
  rewrite IH by (intros; apply Ho; by right). apply lookup_insert_ne. intros <-. by apply (Ho o (list_elem_of_here _ _)).
Qed.

Section Handlers.
Context `{JsonText} `{Lowercase} {world : TaskWorld}.

Lemma stage_task_records wall e place r staged r' :
  stage_task wall e place r = Some (staged, r') ->
  rp_records r' = rp_records r /\ forall birth ops permit, staged = Some (birth, ops, permit) -> forall o, o ∈ ops -> op_task o = en_id e.
Proof.
  unfold stage_task. destruct (en_birth e) as [birth|]; [|by intros [= <- <-]]. destruct (str_is_empty (rp_me r)); [by intros [= <- <-]|].
  intros E. apply bind_Some in E as ([ops r1] & E1 & E). apply bind_Some in E as ([more r2] & E2 & [= <- <-]).
  apply stage_records in E1 as [E1 H1], E2 as [E2 H2]. split; [by rewrite E2|]. intros ? ? ? [= <- <- <-] o [|]%elem_of_app; auto.
Qed.

(** A save changes no task in memory, and of the records only the task's own *)
Lemma store_frame e place pane c t r t' :
  store e place pane c t = (r, t') ->
  ts_entries t' = ts_entries t /\ ts_running t' = ts_running t /\
  forall k, k.1 ≠ en_id e -> rp_records (ts_machine t').1 !! k = rp_records (ts_machine t).1 !! k.
Proof.
  unfold store. destruct (ts_machine t) as [rep db] eqn:Em. destruct (stage_task _ e place rep) as [[staged rep']|] eqn:Es; [|by intros [= <- <-]; rewrite Em].
  apply stage_task_records in Es as [Er Ho]. destruct (save_fault _); cycle 1; [intros [= <- <-]; simpl; by rewrite Er..|].
  destruct staged as [[[birth ops] permit]|]; intros [= <- <-]; simpl; (split_and!; [done..|]); intros k Hk; [|by rewrite Er].
  rewrite applied_records, Er; [done|]. intros o Hin. rewrite (Ho birth ops permit eq_refl o Hin). done.
Qed.

Lemma waits_on_same t t' x y :
  en_after <$> entry_of t' x = en_after <$> entry_of t x -> (forall birth, rp_records (ts_machine t').1 !! (x, birth) = rp_records (ts_machine t).1 !! (x, birth)) ->
  waits_on t' x y <-> waits_on t x y.
Proof.
  intros Ee Er. unfold waits_on, after_of. fold (entry_of t x) (entry_of t' x). destruct (entry_of t' x), (entry_of t x); try done; [by injection Ee as ->|].
  rewrite !list_elem_of_In, !in_flat_map. setoid_rewrite <- list_elem_of_In. setoid_rewrite elem_of_births. by setoid_rewrite Er.
Qed.

(** *** [blockers]: none of them is the task, or waits for it *)

Definition apart (t : Tasks) (me y : string) : Prop := y ≠ me /\ ~ tc (waits_on t) y me.

Lemma blockers_go_spec t me references ids out :
  blockers_go t me references ids = Ok out -> (forall y, y ∈ ids -> apart t me y) -> forall y, y ∈ out -> apart t me y.
Proof.
  revert ids. induction references as [|reference references IH]; intros ids E Hi; simpl in E; [by injection E as <-|].
  destruct (resolve t reference) as [found| |]; simpl in E; [|done..]. destruct found as [id|]; simpl in E; [|done]. destruct (negb _); [done|].
  case_bool_decide as Hme; simpl in E; [done|]. destruct (waits_for_spec t id me) as (w & Ew & Hw). rewrite Ew in E. simpl in E. destruct w; [done|].
  eapply IH; [done|]. intros y Hy. case_bool_decide as Hin; [auto|]. apply elem_of_app in Hy as [|Hy]; [auto|]. apply list_elem_of_singleton in Hy as ->.
  split; [done|]. intros Ht. by apply Hw in Ht.
Qed.

Lemma blockers_spec t args me ids : blockers t args me = Ok (Some ids) -> forall y, y ∈ ids -> apart t me y.
Proof.
  unfold blockers. destruct (get args "after") as [[| | | |items|]|]; try done. destruct (blockers_go t me _ []) as [out| |] eqn:E; try done. simpl. intros [= <-].
  eapply blockers_go_spec; [done|]. by intros y ?%elem_of_nil.
Qed.

(** *** [edit] *)

Lemma replace_entry_find e l x :
  List.find (fun e => bool_decide (en_id e = x)) (replace_entry e l) =
  (if decide (en_id e = x) then match List.find (fun e => bool_decide (en_id e = x)) l with Some _ => Some e | None => None end else List.find (fun e => bool_decide (en_id e = x)) l).
Proof.
  induction l as [|y l IH]; simpl; [by case_decide|]. destruct (decide (en_id y = en_id e)) as [Ey|Ey]; simpl.
  - rewrite Ey. case_decide; [by rewrite bool_decide_true|by rewrite bool_decide_false].
  - rewrite IH. repeat case_decide; repeat case_bool_decide; congruence.
Qed.

(** What an edit that is not refused does: the task is on the Shelf, and is saved with tasks that do not wait for it *)
Lemma edit_cases args t :
  (edit args t).2 = t \/
  exists e after c, entry_of t (en_id e) = Some e /\ (forall y, y ∈ after -> apart t (en_id e) y) /\
    let e' := entry_set_after after e in
    (edit args t).2 = match store e' Shelf (en_held e') (Some c) t with (Ok _, t') => set_tasks (replace_entry e' (ts_entries t')) (ts_running t') t' | (_, t') => t' end.
Proof.
  unfold edit, act_bind, act_lift, act_fail, act_ret, ok_or. destruct (string_of args "task") as [reference|]; [|auto].
  destruct (List.find _ (ts_entries t)) as [e|] eqn:Ee; [|auto]. apply find_task_Some in Ee as Hid. destruct Hid as [_ Hid].
  case_bool_decide; [auto|]. destruct (blockers t args (en_id e)) as [found| |] eqn:Eb; [|auto..].
  destruct found as [after|]; [|auto]. right. exists e, after, (change "edited" (who args) [("after", JArray (map JString after))]).
  split_and!; [by unfold entry_of; rewrite Hid|by eapply blockers_spec|]. cbn zeta. change (en_held (entry_set_after after e)) with (en_held e).
  by destruct (store _ _ _ _ t) as [[]].
Qed.

(** Edges of a task on the Shelf that are replaced, and records of that task that change *)
Lemma redirected_acyclic t t' e :
  acyclic t -> (forall x, x ≠ en_id e -> entry_of t' x = entry_of t x) ->
  (forall k : string * string, k.1 ≠ en_id e -> rp_records (ts_machine t').1 !! k = rp_records (ts_machine t).1 !! k) ->
  (forall y, waits_on t' (en_id e) y -> apart t (en_id e) y) -> acyclic t'.
Proof.
  intros Ha He Hr Hap. unfold acyclic. apply (redirect_acyclic (waits_on t) _ (en_id e)); [|done|done]. intros x y Hx Hw.
  refine (proj1 (waits_on_same t t' x y _ _) Hw); [by rewrite He|]. intros birth. by apply Hr.
Qed.

Lemma waits_on_entry t e y : entry_of t (en_id e) = Some e -> waits_on t (en_id e) y <-> y ∈ en_after e.
Proof. unfold waits_on, after_of. fold (entry_of t (en_id e)). by intros ->. Qed.

Lemma acyclic_apart t x y : acyclic t -> waits_on t x y -> apart t x y.
Proof. intros Ha Hw. split; [intros ->|intros Ht]; eapply (Ha x); [by apply tc_once|by eapply tc_l]. Qed.

Lemma edit_keeps_acyclic args t : acyclic t -> acyclic (edit args t).2.
Proof.
  intros Ha. destruct (edit_cases args t) as [->|(e & after & c & He & Hap & ->)]; [done|]. cbn zeta. set (e' := entry_set_after after e).
  change (en_held e') with (en_held e). destruct (store e' Shelf (en_held e) (Some c) t) as [r t'] eqn:Es. apply store_frame in Es as (Een & Eru & Erec).
  change (en_id e') with (en_id e) in Erec. destruct r as [a|err|].
  - apply (redirected_acyclic t _ e); [done| |done|].
    + intros x Hne. unfold entry_of. simpl. rewrite replace_entry_find, decide_False, Een by done. done.
    + intros y. change (en_id e) with (en_id e') at 1. rewrite (waits_on_entry _ e'); [apply Hap|]. unfold entry_of in *. simpl. rewrite replace_entry_find, decide_True, Een, He by done. done.
  - apply (redirected_acyclic t _ e); [done|intros; unfold entry_of; by rewrite Een|done|]. intros y. rewrite (waits_on_entry _ e), <- (waits_on_entry t e) by (unfold entry_of in *; congruence).
    by apply acyclic_apart.
  - apply (redirected_acyclic t _ e); [done|intros; unfold entry_of; by rewrite Een|done|]. intros y. rewrite (waits_on_entry _ e), <- (waits_on_entry t e) by (unfold entry_of in *; congruence).
    by apply acyclic_apart.
Qed.

(** ** What a handler does to the open tasks *)

(** The first of them with an ID is edited *)
Fixpoint edit_open (id : string) (f : Entry -> Entry) (l : list Entry) : list Entry :=
  match l with [] => [] | e :: l => if decide (en_id e = id) then f e :: l else e :: edit_open id f l end.

Lemma edit_first_spec id f l rest :
  match edit_first id f l with
  | Some (_, l') => edit_open id f (l ++ rest) = l' ++ rest
  | None => edit_open id f (l ++ rest) = l ++ edit_open id f rest
  end.
Proof.
  induction l as [|e l IH]; [done|]. simpl. destruct (decide (en_id e = id)); [done|].
  destruct (edit_first id f l) as [[found l']|]; simpl; by rewrite IH.
Qed.

Lemma edit_running_spec id f l :
  match edit_running id f l with
  | Some (_, l') => edit_open id f (map rn_entry l) = map rn_entry l'
  | None => edit_open id f (map rn_entry l) = map rn_entry l
  end.
Proof.
  induction l as [|r l IH]; [done|]. simpl. destruct (decide (en_id (rn_entry r) = id)); [done|].
  destruct (edit_running id f l) as [[found l']|]; simpl; by rewrite IH.
Qed.

Lemma store_open e place pane c t : open_tasks (store e place pane c t).2 = open_tasks t.
Proof. destruct (store e place pane c t) as [r t'] eqn:E. apply store_frame in E as (Ee & Er & _). unfold open_tasks. simpl. by rewrite Ee, Er. Qed.

Lemma stored_open {A} e place pane c (a : A) t : open_tasks ((let! _ := ignored (store e place pane c) in act_ret a) t).2 = open_tasks t.
Proof. pose proof (store_open e place pane c t) as E. unfold act_bind, ignored. by destruct (store e place pane c t) as [[]]. Qed.

Lemma alter_open id c f t : open_tasks (alter id c f t).2 = edit_open id f (open_tasks t).
Proof.
  unfold alter. pose proof (edit_first_spec id f (ts_entries t) (map rn_entry (ts_running t))) as H1. unfold open_tasks at 2.
  destruct (edit_first id f (ts_entries t)) as [[e entries]|]; [by rewrite stored_open, H1|].
  pose proof (edit_running_spec id f (ts_running t)) as H2. destruct (edit_running id f (ts_running t)) as [[r running]|]; rewrite H1, H2; [by rewrite stored_open|done].
Qed.

Lemma tell_open id text t : open_tasks (tell id text t).2 = open_tasks t.
Proof. unfold tell. destruct (find_open t id); [|done]. by destruct (message_row (ts_saves t)). Qed.

(** An event changes at most what the task was sent *)
Lemma emit_open id event text about t :
  open_tasks (emit id event text about t).2 = open_tasks t \/
  exists f, open_tasks (emit id event text about t).2 = edit_open id (fun e => entry_set_sent (f (en_sent e)) e) (open_tasks t).
Proof.
  unfold emit, act_bind, act_gets, act_ret. destruct (find_open t id) as [e|]; [|auto]. destruct (hears _ _); [|auto]. pose proof (tell_open id text t) as Et.
  destruct (tell id text t) as [[[message|]| |] t1]; simpl in Et; [|by left..]. right.
  exists (fun sent => retain (fun s => negb (bool_decide (se_event s = event_name event))) sent ++ [mkSent (event_name event) message about (clock_now (ts_saves t1))]).
  rewrite <- Et, <- (alter_open _ (change "event" (Some "daemon") [("event", JString (event_name event)); ("message", from_i64 message)])). cbn [se_event].
  by destruct (alter id _ _ t1) as [[]].
Qed.

(** ** What every open task keeps *)

Definition keeps {A} (P : Entry -> Prop) (m : act Tasks A) : Prop := forall t, Forall P (open_tasks t) -> Forall P (open_tasks (m t).2).

Section Keeps.
Context (P : Entry -> Prop).

Lemma keeps_bind {A B} (m : act Tasks A) (k : A -> act Tasks B) : keeps P m -> (forall a, keeps P (k a)) -> keeps P (act_bind m k).
Proof. intros Hm Hk t Ht. specialize (Hm t Ht). unfold act_bind. destruct (m t) as [[a| |] t']; [by apply Hk|done..]. Qed.
Lemma keeps_ret {A} (a : A) : keeps P (act_ret a).
Proof. by intros t. Qed.
Lemma keeps_lift {A} (r : res A) : keeps P (act_lift r).
Proof. by intros t. Qed.
Lemma keeps_gets {A} (f : Tasks -> A) : keeps P (act_gets f).
Proof. by intros t. Qed.
Lemma keeps_fail {A} e : keeps P (act_fail (A := A) e).
Proof. by intros t. Qed.
Lemma keeps_if {A} (b : bool) (m k : act Tasks A) : keeps P m -> keeps P k -> keeps P (if b then m else k).
Proof. by destruct b. Qed.
Lemma keeps_each {A} (f : A -> act Tasks unit) l : (forall x, keeps P (f x)) -> keeps P (each f l).
Proof. intros Hf. induction l as [|x l IH]; [apply keeps_ret|by apply keeps_bind]. Qed.
Lemma keeps_put_meta key value : keeps P (put_meta key value).
Proof. intros t. unfold put_meta. by destruct (save_fault (ts_saves t)). Qed.
Lemma keeps_store e place pane c : keeps P (store e place pane c).
Proof. intros t. by rewrite store_open. Qed.

Lemma edit_open_Forall id f l : (forall e, P e -> P (f e)) -> Forall P l -> Forall P (edit_open id f l).
Proof. intros Hf. induction 1 as [|e l He Hl IH]; simpl; [constructor|]. case_decide; constructor; auto. Qed.

Lemma keeps_alter id c f : (forall e, P e -> P (f e)) -> keeps P (alter id c f).
Proof. intros Hf t Ht. rewrite alter_open. by apply edit_open_Forall. Qed.

Hypothesis sent : forall e s, P e -> P (entry_set_sent s e).

Lemma keeps_emit id event text about : keeps P (emit id event text about).
Proof. intros t Ht. destruct (emit_open id event text about t) as [->|[f ->]]; [done|]. apply edit_open_Forall; auto. Qed.

Lemma keeps_heard_main task main : keeps P (heard_main task main).
Proof.
  intros t Ht. unfold heard_main. destruct (find_open t (st_id task)) as [e|]; [|done]. refine (keeps_bind _ _ _ _ t Ht).
  - apply keeps_if; [|apply keeps_ret]. destruct (conflict_step _ _ _); [apply keeps_ret|apply keeps_emit|]. apply keeps_bind; [apply keeps_alter; auto|intros; apply keeps_ret].
  - intros _ t1 Ht1. destruct (_ && _); [by apply keeps_emit|done].
Qed.

Lemma keeps_listened seen : keeps P (listened seen).
Proof.
  apply keeps_each. intros repo t Ht. refine (keeps_bind _ _ _ _ t Ht).
  - case_decide; [apply keeps_ret|apply keeps_put_meta].
  - intros _. apply keeps_each. intros task. apply keeps_heard_main.
Qed.
End Keeps.

(** A task that is stale is not ready *)
Definition stack_ok (e : Entry) : Prop := en_stale e ≠ [] -> en_ready e = None.

Lemma keeps_settle seen : keeps stack_ok (settle_tasks seen).
Proof.
  intros t Ht. unfold settle_tasks. destruct (settle (stack_tasks t) seen) as [steps|]; [|done]. refine (keeps_each _ _ _ _ t Ht); clear t Ht.
  intros [id|id base main|id behind waiting]; unfold settle_step; (apply keeps_bind; [by apply keeps_alter|]).
  - intros. apply keeps_ret.
  - intros [rest|]; [|apply keeps_ret]. intros t. by apply keeps_emit.
  - intros _ t. by apply keeps_emit.
Qed.

Lemma keeps_marked args id read : keeps stack_ok (marked args id read).
Proof.
  intros t Ht. unfold marked. destruct (mark_checks id read t) as [[h bases]| |]; [|done..]. refine (keeps_bind _ _ _ _ _ t Ht); [by apply keeps_alter; intros ? _ []|]. intros found.
  apply keeps_bind; [apply keeps_lift|]. intros e. apply keeps_bind; [apply keeps_gets|]. intros behind. apply keeps_bind; [apply keeps_each; intros task t1; by apply keeps_emit|].
  intros _. apply keeps_bind; [apply keeps_gets|]. intros freed. apply keeps_ret.
Qed.

Lemma keeps_unmark args : keeps stack_ok (unmark args).
Proof.
  intros t Ht. unfold unmark. refine (keeps_bind _ _ _ _ _ t Ht); [apply keeps_lift|]. intros reference. apply keeps_bind; [apply keeps_lift|]. intros found.
  apply keeps_bind; [apply keeps_lift|]. intros id. apply keeps_bind; [apply keeps_lift|]. intros e. destruct (en_ready e); [|apply keeps_ret].
  apply keeps_bind; [by apply keeps_alter|]. intros left_. apply keeps_lift.
Qed.

Lemma keeps_subscribe args on : keeps stack_ok (subscribe args on).
Proof.
  intros t Ht. unfold subscribe. refine (keeps_bind _ _ _ _ _ t Ht); [apply keeps_lift|]. intros reference. apply keeps_bind; [apply keeps_lift|]. intros found.
  apply keeps_bind; [apply keeps_lift|]. intros id. apply keeps_bind; [apply keeps_lift|]. intros named. apply keeps_bind; [apply keeps_lift|]. intros event.
  apply keeps_bind; [apply keeps_lift|]. intros e. apply keeps_bind; [|intros; apply keeps_gets]. apply keeps_if; [|apply keeps_ret].
  apply keeps_bind; [by apply keeps_alter|]. intros left_. apply keeps_lift.
Qed.

Lemma replace_entry_Forall (P : Entry -> Prop) e l : P e -> Forall P l -> Forall P (replace_entry e l).
Proof. intros He. induction 1 as [|x l Hx Hl IH]; simpl; [constructor|]. case_decide; by constructor. Qed.

Lemma keeps_edit args : keeps stack_ok (edit args).
Proof.
  intros t Ht. destruct (edit_cases args t) as [->|(e & after & c & He & _ & ->)]; [done|]. cbn zeta. set (e' := entry_set_after after e).
  pose proof (store_open e' Shelf (en_held e') (Some c) t) as Eo. destruct (store e' Shelf (en_held e') (Some c) t) as [r t']. simpl in Eo. rewrite <- Eo in Ht.
  destruct r; [|done..]. unfold open_tasks in *. simpl. apply Forall_app in Ht as [H1 H2]. apply Forall_app. split; [|done]. apply replace_entry_Forall; [|done].
  apply find_task_Some in He as [He _]. assert (e ∈ ts_entries t' ++ map rn_entry (ts_running t')) as Hin by (rewrite Eo; by apply elem_of_app; left).
  rewrite Forall_forall in H1, H2. apply elem_of_app in Hin as [Hin|Hin]; [apply (H1 e Hin)|apply (H2 e Hin)].
Qed.

(** ** What is settled stays settled *)

Definition view (e : Entry) : Task := mkTask (en_id e) (en_ready e) (en_bases e) (en_stale e).

(** What a step does to a task that is seen as [settle] sees it *)
Definition apply_step (s : Step) (k : Task) : Task :=
  match s with
  | Unready id => if decide (tk_id k = id) then mkTask (tk_id k) None (tk_bases k) (tk_stale k) else k
  | Merged id base _ => if decide (tk_id k = id) then mkTask (tk_id k) (tk_ready k) (retain (fun b => negb (bool_decide (bs_id b = base))) (tk_bases k)) (tk_stale k) else k
  | Stale id behind waiting => if decide (tk_id k = id) then mkTask (tk_id k) None (tk_bases k) (behind ++ waiting) else k
  end.

Lemma edit_open_view id f g l :
  (forall e, view (f e) = g (view e)) -> NoDup (map en_id l) -> map view (edit_open id f l) = map (fun k => if decide (tk_id k = id) then g k else k) (map view l).
Proof.
  intros Hf. induction l as [|e l IH]; intros Hn; [done|]. inversion_clear Hn as [|? ? Hx Hl]. cbn [map edit_open view tk_id]. case_decide as E; cbn [map].
  - rewrite Hf. f_equal. rewrite <- (map_id (map view l)) at 1. apply map_ext_in. intros k Hk. rewrite decide_False; [done|]. intros Ek. apply Hx.
    rewrite <- list_elem_of_In in Hk. apply list_elem_of_fmap in Hk as (x & -> & Hin). simpl in Ek. rewrite E, <- Ek. by apply list_elem_of_fmap_2.
  - by rewrite IH.
Qed.

Lemma stack_tasks_view t : stack_tasks t = map view (open_tasks t).
Proof. done. Qed.
Lemma stack_tasks_ids t : map tk_id (stack_tasks t) = map en_id (open_tasks t).
Proof. unfold stack_tasks. by rewrite map_map. Qed.

Lemma emit_stack id event text about t : NoDup (map en_id (open_tasks t)) -> stack_tasks (emit id event text about t).2 = stack_tasks t.
Proof.
  intros Hn. rewrite !stack_tasks_view. destruct (emit_open id event text about t) as [->|[f ->]]; [done|]. rewrite (edit_open_view id _ (fun k => k)) by done.
  rewrite <- (map_id (map view (open_tasks t))) at 2. apply map_ext. intros k. by case_decide.
Qed.

Lemma alter_stack id c f g t :
  (forall e, view (f e) = g (view e)) -> NoDup (map en_id (open_tasks t)) -> stack_tasks (alter id c f t).2 = map (fun k => if decide (tk_id k = id) then g k else k) (stack_tasks t).
Proof. intros Hf Hn. rewrite !stack_tasks_view, alter_open. by apply edit_open_view. Qed.

Lemma apply_step_id s k : tk_id (apply_step s k) = tk_id k.
Proof. destruct s; simpl; by case_decide. Qed.

(** An edit, and an event about it *)
Lemma then_emit_stack {A} (m : act Tasks A) (k : A -> act Tasks unit) t :
  NoDup (map tk_id (stack_tasks (m t).2)) -> (forall a t', stack_tasks t' = stack_tasks (m t).2 -> stack_tasks (k a t').2 = stack_tasks t') ->
  stack_tasks (act_bind m k t).2 = stack_tasks (m t).2.
Proof. intros Hn Hk. unfold act_bind. destruct (m t) as [[a| |] t']; simpl in *; [by apply Hk|done..]. Qed.

Lemma settle_step_stack seen s t : NoDup (map en_id (open_tasks t)) -> stack_tasks (settle_step seen s t).2 = map (apply_step s) (stack_tasks t).
Proof.
  intros Hn. assert (forall l, map tk_id (map (apply_step s) l) = map tk_id l) as Hids by (intros l; rewrite map_map; apply map_ext; intros; apply apply_step_id).
  assert (forall t', stack_tasks t' = map (apply_step s) (stack_tasks t) -> NoDup (map en_id (open_tasks t'))) as Hn'.
  { intros t' E. by rewrite <- stack_tasks_ids, E, Hids, stack_tasks_ids. }
  assert (forall id c f g, (forall e, view (f e) = g (view e)) -> (forall k, (if decide (tk_id k = id) then g k else k) = apply_step s k) ->
            stack_tasks (alter id c f t).2 = map (apply_step s) (stack_tasks t)) as Ha.
  { intros id c f g Hf Hg. rewrite (alter_stack id c f g) by done. by apply map_ext. }
  destruct s as [id|id base main|id behind waiting]; unfold settle_step.
  - rewrite then_emit_stack; [by eapply (Ha id _ _ (fun k => mkTask (tk_id k) None (tk_bases k) (tk_stale k)))| |done].
    rewrite stack_tasks_ids. apply Hn'. by eapply (Ha id _ _ (fun k => mkTask (tk_id k) None (tk_bases k) (tk_stale k))).
  - assert (stack_tasks (alter id (change "base merged" (Some "daemon") [("base", JString base)]) (drop_base base) t).2 = map (apply_step (Merged id base main)) (stack_tasks t)) as E.
    { by eapply (Ha id _ _ (fun k => mkTask (tk_id k) (tk_ready k) (retain (fun b => negb (bool_decide (bs_id b = base))) (tk_bases k)) (tk_stale k))). }
    rewrite then_emit_stack; [done|rewrite stack_tasks_ids; by apply Hn'|]. intros [rest|] t' Et; [|done]. rewrite emit_stack; [done|]. apply Hn'. by rewrite Et.
  - assert (stack_tasks (alter id (change "stale" (Some "daemon") [("behind", JArray (map JString (behind ++ waiting)))]) (set_stale (behind ++ waiting)) t).2
            = map (apply_step (Stale id behind waiting)) (stack_tasks t)) as E.
    { by eapply (Ha id _ _ (fun k => mkTask (tk_id k) None (tk_bases k) (behind ++ waiting))). }
    rewrite then_emit_stack; [done|rewrite stack_tasks_ids; by apply Hn'|]. intros _ t' Et. rewrite emit_stack; [done|]. apply Hn'. by rewrite Et.
Qed.

Definition apply_steps (steps : list Step) (k : Task) : Task := foldl (fun k s => apply_step s k) k steps.

Lemma each_settle_stack seen steps t t' :
  NoDup (map en_id (open_tasks t)) -> each (settle_step seen) steps t = (Ok tt, t') -> stack_tasks t' = map (apply_steps steps) (stack_tasks t).
Proof.
  revert t. induction steps as [|s steps IH]; intros t Hn E; simpl in E.
  { injection E as <-. by rewrite map_id. }
  pose proof (settle_step_stack seen s t Hn) as Es. unfold act_bind in E. destruct (settle_step seen s t) as [[[]| |] t1]; [|done..]. simpl in Es.
  apply IH in E as ->; [by rewrite Es, map_map|]. rewrite <- stack_tasks_ids, Es, map_map. erewrite map_ext; [by rewrite stack_tasks_ids|]. intros; apply apply_step_id.
Qed.
End Handlers.

(** *** Once the steps are taken, nothing follows *)

Lemma apply_steps_id steps k : tk_id (apply_steps steps k) = tk_id k.
Proof. revert k. induction steps as [|s steps IH]; intros k; [done|]. unfold apply_steps. cbn [foldl]. fold (apply_steps steps (apply_step s k)). by rewrite IH, apply_step_id. Qed.

Lemma apply_steps_cons s steps k : apply_steps (s :: steps) k = apply_steps steps (apply_step s k).
Proof. done. Qed.

Lemma apply_steps_bases steps k b :
  b ∈ tk_bases (apply_steps steps k) -> b ∈ tk_bases k /\ forall main, Merged (tk_id k) (bs_id b) main ∉ steps.
Proof.
  revert k. induction steps as [|s steps IH]; intros k; [intros ?; split; [done|by intros main ?%elem_of_nil]|]. rewrite apply_steps_cons. intros [Hb Hm]%IH. rewrite apply_step_id in Hm.
  assert (b ∈ tk_bases k /\ forall main, s ≠ Merged (tk_id k) (bs_id b) main) as [Hk Hs].
  { destruct s as [id|id base main|id behind waiting]; simpl in Hb; case_decide; simpl in Hb; try (split; [done|congruence]).
    unfold retain in Hb. rewrite list_elem_of_In, filter_In, <- list_elem_of_In, negb_true_iff, bool_decide_eq_false in Hb. destruct Hb. split; [done|congruence]. }
  split; [done|]. intros main [E|E]%elem_of_cons; [by apply (Hs main)|by apply (Hm main)].
Qed.

Lemma apply_steps_ready steps k mark : tk_ready (apply_steps steps k) = Some mark -> tk_ready k = Some mark /\ Unready (tk_id k) ∉ steps.
Proof.
  revert k. induction steps as [|s steps IH]; intros k; [intros ?; split; [done|by intros ?%elem_of_nil]|]. rewrite apply_steps_cons. intros [Hr Hu]%IH. rewrite apply_step_id in Hu.
  assert (tk_ready k = Some mark /\ s ≠ Unready (tk_id k)) as [Hk Hs] by (destruct s; simpl in Hr; case_decide; simpl in Hr; split; congruence).
  split; [done|]. by intros [E|E]%elem_of_cons.
Qed.

Lemma apply_steps_stale steps k :
  (forall id behind waiting, Stale id behind waiting ∈ steps -> behind ++ waiting ≠ []) ->
  tk_stale (apply_steps steps k) ≠ [] <-> tk_stale k ≠ [] \/ tk_id k ∈ stale_ids steps.
Proof.
  revert k. induction steps as [|s steps IH]; intros k Hs; [simpl; rewrite elem_of_nil; tauto|]. rewrite apply_steps_cons, IH by (intros id be wa Hx; apply (Hs id); by right).
  rewrite apply_step_id. destruct s as [id|id base main|id behind waiting]; simpl; case_decide as E; simpl; rewrite ?elem_of_cons; try tauto.
  - specialize (Hs id behind waiting (list_elem_of_here _ _)). tauto.
Qed.

Section Again.
Context (tasks : list Task) (seen : list Seen) (steps : list Step).
Hypothesis settled : settle tasks seen = Some steps.

Lemma settled_spec : exists stale, round_inv tasks seen stale steps /\ forall x, x ∈ stale <-> goes_stale tasks seen x.
Proof. destruct (settle_spec tasks seen) as (stale & steps' & E & ? & ?). rewrite settled in E. injection E as <-. by exists stale. Qed.

Lemma merged_step k b : k ∈ tasks -> seen_base seen k b -> sb_merged b = true -> exists main, Merged (tk_id k) (sb_id b) main ∈ steps.
Proof.
  intros Hk Hb Hm. destruct settled_spec as (stale & Hi & _). destruct Hb as (x & Hx & Hin & Hbase). exists (sn_main x). apply (ri_rest _ _ _ _ Hi); [done|].
  apply looked_steps. right. exists k, b, x. split_and!; try done. by exists x.
Qed.

Lemma is_base_after k id : is_base (apply_steps steps k) id = true -> is_base k id = true /\ forall main, Merged (tk_id k) id main ∉ steps.
Proof.
  unfold is_base. rewrite !existsb_exists. intros (b & Hb & E%bool_decide_eq_true). rewrite <- list_elem_of_In in Hb. apply apply_steps_bases in Hb as [Hb Hm]. rewrite E in Hm.
  split; [|done]. exists b. rewrite <- list_elem_of_In. by rewrite bool_decide_true.
Qed.

Lemma seen_base_after k b : seen_base seen (apply_steps steps k) b -> seen_base seen k b /\ forall main, Merged (tk_id k) (sb_id b) main ∉ steps.
Proof. intros (x & Hx & Hin & [Hb Hm]%is_base_after). rewrite apply_steps_id in Hx. split; [by exists x|done]. Qed.

Lemma stale_nonempty id behind waiting : Stale id behind waiting ∈ steps -> behind ++ waiting ≠ [].
Proof. destruct settled_spec as (stale & Hi & _). intros Hs. by apply (ri_said _ _ _ _ Hi) in Hs as [? _]. Qed.

(** All that is stale has been said to be *)
Lemma stale_said x : goes_stale tasks seen x -> x ∈ stale_already tasks \/ x ∈ stale_ids steps.
Proof.
  destruct settled_spec as (stale & Hi & Hall). intros Hx. destruct (decide (x ∈ stale_already tasks)) as [|Hn]; [auto|right]. apply (ri_ids _ _ _ _ Hi). split; [by apply Hall|done].
Qed.

Lemma stale_ids_go x : x ∈ stale_ids steps -> goes_stale tasks seen x.
Proof. destruct settled_spec as (stale & Hi & Hall). intros [Hx _]%(ri_ids _ _ _ _ Hi). by apply Hall. Qed.

Lemma goes_stale_after x : goes_stale (map (apply_steps steps) tasks) seen x -> goes_stale tasks seen x.
Proof.
  induction 1 as [t Ht Hs|t b Ht Hb|t b Ht Hb Hm _ IH]; apply list_elem_of_fmap in Ht as (k & -> & Hk); rewrite apply_steps_id.
  - rewrite apply_steps_stale in Hs by apply stale_nonempty. destruct Hs as [Hs|Hs]; [by apply gs_was|by apply stale_ids_go].
  - destruct Hb as (Hb & ? & ?). apply seen_base_after in Hb as [Hb _]. by eapply gs_behind.
  - apply apply_steps_bases in Hb as [Hb Hn]. eapply gs_waits; [done..| |done]. intros (x & Hx & Hxm & Ex). destruct (merged_step k x Hk Hx Hxm) as [main Hin]. rewrite Ex in Hin. by apply (Hn main).
Qed.

Lemma elem_of_already ts x : x ∈ stale_already ts <-> exists k, k ∈ ts /\ tk_id k = x /\ tk_stale k ≠ [].
Proof.
  unfold stale_already. rewrite elem_of_list_to_set, list_elem_of_fmap. unfold retain. split.
  - intros (k & -> & Hk). rewrite list_elem_of_In, filter_In, <- list_elem_of_In, negb_true_iff, bool_decide_eq_false in Hk. destruct Hk. by exists k.
  - intros (k & Hk & <- & Hs). exists k. by rewrite list_elem_of_In, filter_In, <- list_elem_of_In, negb_true_iff, bool_decide_eq_false.
Qed.

Lemma goes_stale_task x : goes_stale tasks seen x -> exists k, k ∈ tasks /\ tk_id k = x.
Proof. destruct 1; eauto. Qed.

Lemma settle_again : settle (map (apply_steps steps) tasks) seen = Some [].
Proof.
  destruct (settle_spec (map (apply_steps steps) tasks) seen) as (stale & steps' & -> & Hi & Hall). f_equal. apply elem_of_nil_inv. intros s Hs.
  destruct (is_stale_step s) eqn:E.
  - destruct s as [| |id behind waiting]; [done..|]. assert (id ∈ stale_ids steps') as Hid by (unfold stale_ids; apply list_elem_of_omap; by eexists).
    apply (ri_ids _ _ _ _ Hi) in Hid as [Hx Hn]. apply Hall, goes_stale_after in Hx. apply Hn, elem_of_already. destruct (goes_stale_task _ Hx) as (k0 & Hk0 & E0).
    apply stale_said in Hx as [(k & Hk & Ek & Hst)%elem_of_already|Hx]; [exists (apply_steps steps k)|exists (apply_steps steps k0)];
      rewrite apply_steps_id, apply_steps_stale by apply stale_nonempty; (split_and!; [by apply list_elem_of_fmap_2|done|]); [by left|right; by rewrite E0].
  - apply (ri_rest _ _ _ _ Hi) in Hs; [|done]. apply looked_steps in Hs as [(t & Ht & Hm & ->)|(t & b & x & Ht & Hx & Hb & Hm & ->)]; apply list_elem_of_fmap in Ht as (k & -> & Hk).
    + destruct Hm as (mark & y & h & Hr & Hy & Hh & Hne). rewrite apply_steps_id in Hy. apply apply_steps_ready in Hr as [Hr Hu]. apply Hu.
      destruct settled_spec as (st & Hi0 & _). apply (ri_rest _ _ _ _ Hi0); [done|]. apply looked_steps. left. exists k. split_and!; try done. by exists mark, y, h.
    + apply seen_base_after in Hb as [Hb Hn]. destruct (merged_step k b Hk Hb Hm) as [main Hin]. by apply (Hn main).
Qed.
End Again.

(** ** What is saved of a task *)

(** A time that JSON keeps *)
Definition time_kept (f : f64) : Prop := as_f64 (num f) = Some f.
Definition no_empty (s : option string) : Prop := s ≠ Some "".

(** A task as it is kept: no text is empty, and only on the Shelf does it hold a pane or say why it stopped *)
Record entry_fits (e : Entry) (place : Place) (pane : option string) : Prop := {
  ef_texts : Forall no_empty [en_name e; en_message e; en_by e; en_folder e; en_session e; en_stopped e; en_workspace e; en_birth e; en_claim e];
  ef_agent : en_agent e ≠ "";
  ef_held : en_held e = if decide (place = Shelf) then pane else None;
  ef_stopped : place ≠ Shelf -> en_stopped e = None;
  ef_ready mark : en_ready e = Some mark -> time_kept (mk_at mark);
  ef_sent : Forall (fun s => (- 2 ^ 63 <= se_message s < 2 ^ 63)%Z /\ time_kept (se_at s)) (en_sent e);
  ef_notes : Forall (fun n => time_kept (no_at n)) (en_notes e) }.

Lemma omap_map_back {A B} (f : A -> B) (g : B -> option A) l : Forall (fun x => g (f x) = Some x) l -> omap g (map f l) = l.
Proof. induction 1 as [|x l Hx _ IH]; [done|]. simpl. rewrite Hx. f_equal. exact IH. Qed.

Lemma ids_back l : id_list (Some (JArray (map JString l))) = l.
Proof. unfold id_list. simpl. apply omap_map_back, Forall_forall. done. Qed.

Lemma bases_back l : base_list (Some (JArray (map base_to_value l))) = l.
Proof. unfold base_list. simpl. apply omap_map_back, Forall_forall. by intros [] _. Qed.

Lemma mark_back m : (forall mark, m = Some mark -> time_kept (mk_at mark)) -> mark_from_value (Some (optional mark_to_value m)) = m.
Proof.
  intros Hm. destruct m as [m|]; [|done]. specialize (Hm _ eq_refl). transitivity (Some (mkMark (mk_head m) (mk_branch m) (default (f_of_Z 0) (as_f64 (num (mk_at m)))))); [reflexivity|].
  rewrite Hm. by destruct m.
Qed.

Lemma conflict_back c : conflict_from_value (Some (optional conflict_to_value c)) = c.
Proof.
  destruct c as [c|]; [|done]. transitivity (Some (mkConflict (id_list (Some (JArray (map JString (cf_heads c))))) (cf_why c))); [reflexivity|]. rewrite ids_back. by destruct c.
Qed.

Lemma hears_back h : hears_from_value (Some (hears_to_value h)) = h.
Proof.
  transitivity (mkHears (id_list (Some (JArray (map JString (hs_added h))))) (id_list (Some (JArray (map JString (hs_dropped h)))))); [reflexivity|]. rewrite !ids_back. by destruct h.
Qed.

Lemma opt_back s : as_str (opt s) = s.
Proof. by destruct s. Qed.

Lemma sent_back l : Forall (fun s => (- 2 ^ 63 <= se_message s < 2 ^ 63)%Z /\ time_kept (se_at s)) l -> sent_list (Some (JArray (map sent_to_value l))) = l.
Proof.
  intros Hl. apply omap_map_back. eapply Forall_impl; [done|]. intros s [Hm Ht].
  transitivity (message ← value_as_i64 (from_i64 (se_message s)); Some (mkSent (se_event s) message (as_str (opt (se_about s))) (default (f_of_Z 0) (as_f64 (num (se_at s)))))); [reflexivity|].
  rewrite i64_back, opt_back, Ht by done. by destruct s.
Qed.

Lemma notes_back l : Forall (fun n => time_kept (no_at n)) l -> notes_list (Some (notes_value l)) = l.
Proof.
  intros Hl. apply omap_map_back. eapply Forall_impl; [done|]. intros n Ht.
  transitivity (Some (mkNote (as_str (opt (no_id n))) (no_from n) (default (f_of_Z 0) (as_f64 (num (no_at n)))) (no_text n))); [reflexivity|].
  rewrite opt_back, Ht. by destruct n.
Qed.

Lemma text_back s : no_empty s -> (x ← as_str (opt s); not_empty x) = s.
Proof. destruct s as [s|]; [|done]. intros Hs. simpl. unfold not_empty, str_is_empty. rewrite bool_decide_false; [done|]. by intros ->. Qed.

(** ** The theorems *)

(** A task that is saved and read again is the task it was: what it is named and told, what it
    waits for, its mark, its bases and why it is stale, what it hears and was sent, and its notes. *)
Theorem saved_task_reads_back (e : Entry) (place : Place) (pane : option string) : entry_fits e place pane -> entry_from_row (entry_row e place pane) = e.
Proof.
  intros [Ht Ha Hh Hs Hr Hse Hno]. assert (no_empty (Some (en_agent e))) as Ha' by (unfold no_empty; congruence). decompose_Forall_hyps.
  transitivity (
    let text s := x ← as_str (opt s); not_empty x in
    mkEntry (en_id e) (text (en_name e)) (text (en_message e)) (en_repo e) (text (en_by e)) (en_made_at e) (default DEFAULT_AGENT (text (Some (en_agent e))))
      (text (en_folder e)) (text (en_session e)) (if decide (place = Shelf) then pane else None) (id_list (Some (JArray (map JString (en_after e)))))
      (if decide (place = Shelf) then text (en_stopped e) else None) (text (en_workspace e)) (text (en_birth e)) (id_list (Some (JArray (map JString (en_on e)))))
      (mark_from_value (Some (optional mark_to_value (en_ready e)))) (base_list (Some (JArray (map base_to_value (en_bases e))))) (id_list (Some (JArray (map JString (en_stale e)))))
      (conflict_from_value (Some (optional conflict_to_value (en_conflict e)))) (hears_from_value (Some (hears_to_value (en_hears e))))
      (sent_list (Some (JArray (map sent_to_value (en_sent e))))) (notes_list (Some (notes_value (en_notes e)))) (text (en_claim e))); [reflexivity|].
  cbv beta zeta. rewrite !text_back by done.
  rewrite !ids_back, mark_back, bases_back, conflict_back, hears_back, sent_back, notes_back, <- Hh by done.
  assert ((if decide (place = Shelf) then en_stopped e else None) = en_stopped e) as -> by (case_decide; [done|by rewrite Hs]). by destruct e.
Qed.

(** Edges that go down have no cycle *)
Lemma ranked_acyclic (rank : string -> nat) t : (forall a b, waits_on t a b -> (rank b < rank a)%nat) -> acyclic t.
Proof.
  intros Hr id Hc. enough (forall a b, tc (waits_on t) a b -> (rank b < rank a)%nat) as Ht by (specialize (Ht _ _ Hc); lia).
  induction 1 as [a b H|a c b H _ IH]; specialize (Hr _ _ H); lia.
Qed.


(** What is asked of the tasks of a machine *)
Inductive Request :=
| RqSettle (seen : list Seen)
| RqMarked (args : Value) (id : string) (read : MarkRead)
| RqUnmark (args : Value)
| RqSubscribe (args : Value) (on : bool)
| RqListened (seen : list MainSeen)
| RqEdit (args : Value).

Section Theorems.
Context `{JsonText} `{Lowercase} {world : TaskWorld}.

Definition handle (t : Tasks) (request : Request) : Tasks :=
  match request with
  | RqSettle seen => (settle_tasks seen t).2
  | RqMarked args id read => (marked args id read t).2
  | RqUnmark args => (unmark args t).2
  | RqSubscribe args on => (subscribe args on t).2
  | RqListened seen => (listened seen t).2
  | RqEdit args => (edit args t).2
  end.


(** C15 Whatever is asked of the tasks and whatever fails, no open task is stale and ready at
    once: one that goes stale is not ready, and one that is marked ready is not stale. *)
Theorem stale_is_not_ready (requests : list Request) (t : Tasks) : Forall stack_ok (open_tasks t) -> Forall stack_ok (open_tasks (foldl handle t requests)).
Proof.
  revert t. induction requests as [|request requests IH]; intros t Ht; [done|]. apply IH. destruct request; unfold handle.
  - by apply keeps_settle.
  - by apply keeps_marked.
  - by apply keeps_unmark.
  - by apply keeps_subscribe.
  - by apply keeps_listened.
  - by apply keeps_edit.
Qed.

(** C14 Once what was seen of the branches is settled, and each step saved in memory with the events
    it sends, nothing more follows from it: the same look makes no more steps. *)
Theorem settled_stays (seen : list Seen) (t t' : Tasks) :
  NoDup (map en_id (open_tasks t)) -> settle_tasks seen t = (Ok tt, t') -> settle (stack_tasks t') seen = Some [].
Proof.
  intros Hn E. unfold settle_tasks in E. destruct (settle (stack_tasks t) seen) as [steps|] eqn:Es; [|done]. apply each_settle_stack in E as ->; [|done]. by apply settle_again.
Qed.
End Theorems.

(** *** Three tasks *)

Section Sample.
#[local] Instance json : JsonText := {| to_text := fun _ => ""; from_text := fun _ => None |}.
#[local] Instance lower : Lowercase := fun s => s.
#[local] Instance world : TaskWorld := {|
  identity := fun _ => None; branch_of := fun _ => None; pane_named := fun _ => None; patched := fun _ doc => doc;
  save_fault := fun _ => Fine; save_wall := fun n i => Z.of_nat (n + i); clock_now := fun n => f_of_Z (Z.of_nat n); message_row := fun n => Some (Z.of_nat n) |}.

Definition entry (id : string) (folder : option string) (after : list string) (ready : option Mark) (bases : list Base) : Entry :=
  mkEntry id None None "/r" None (f_of_Z 0) "claude" folder None None after None None None [] ready bases [] None hears_default [] [] None.
Definition tasks : Tasks :=
  mkTasks [entry "a" (Some "/r/a") [] (Some (mkMark "a1" "a" (f_of_Z 0))) []; entry "b" (Some "/r/b") ["a"] (Some (mkMark "b1" "b" (f_of_Z 0))) [mkBase "a" "a" "a1"];
           entry "c" None ["b"] None []; entry "d" None [] None []]
    [] [] ∅ [] [] ∅ (replica_empty, db_new) 0.
Definition args (task : string) (after : list string) : Value := obj [("task", JString task); ("after", JArray (map JString after))].
Definition rank (id : string) : nat := if decide (id = "c") then 2 else if decide (id = "b") then 1 else 0.

Lemma tasks_acyclic : acyclic tasks.
Proof.
  apply (ranked_acyclic rank). intros x y. unfold waits_on, after_of. simpl. unfold rank.
  repeat (case_bool_decide; [subst; simpl; rewrite ?list_elem_of_singleton, ?elem_of_nil; intros; subst; try done; simpl; lia|]). by intros ?%elem_of_nil.
Qed.

(** A task is told to wait for one that waits for it in the end: it is refused *)
Example edit_refused : match edit (args "d" ["c"]) tasks with (Ok _, t) => (edit (args "c" ["d"]) t).1 = Err (mkError "cycle" "d waits for c: they'd wait for each other") | _ => False end.
Proof. vm_compute. reflexivity. Qed.


Definition seen : list Seen := [mkSeen "a" (Some "a2") (Some "main") []; mkSeen "b" (Some "b1") (Some "main") [mkSeenBase "a" "a2" false false]].

Lemma tasks_ok : Forall stack_ok (open_tasks tasks).
Proof. repeat constructor; by intros []. Qed.

Lemma stale_is_not_ready_witness : Forall stack_ok (open_tasks (foldl handle tasks [RqSettle seen; RqUnmark (args "b" [])])).
Proof. apply (stale_is_not_ready [RqSettle seen; RqUnmark (args "b" [])] tasks), tasks_ok. Defined.

Definition settled : Tasks := (settle_tasks seen tasks).2.

Example settled_as_said : map (fun k => (tk_id k, bool_decide (is_Some (tk_ready k)), tk_stale k)) (stack_tasks settled) = [("a", false, []); ("b", false, ["a"]); ("c", false, []); ("d", false, [])].
Proof. vm_compute. reflexivity. Qed.

Lemma settled_stays_witness : settle (stack_tasks settled) seen = Some [].
Proof.
  apply (settled_stays seen tasks settled).
  - apply (bool_decide_unpack _). vm_compute. exact I.
  - rewrite (surjective_pairing (settle_tasks seen tasks)). apply (f_equal (fun r => (r, settled))). vm_compute. reflexivity.
Defined.

Definition kept : Entry := entry "b" (Some "/r/b") ["a"] (Some (mkMark "b1" "b" (f_of_Z 7))) [mkBase "a" "a" "a1"].

Lemma saved_task_reads_back_witness : entry_from_row (entry_row kept Shelf None) = kept.
Proof.
  apply (saved_task_reads_back kept Shelf None). split.
  - repeat apply Forall_cons_2; try apply Forall_nil_2; done.
  - done.
  - reflexivity.
  - by intros [].
  - intros mark [= <-]. vm_compute. reflexivity.
  - apply Forall_nil_2.
  - apply Forall_nil_2.
Defined.
End Sample.
