(* ===== verification/Messages.v ===== *)
(** * Messages to agents: [crates/kanna-daemon/src/messages.rs], and turns: [crates/kanna-detect/src/turn.rs]

    When an agent's turn is over, which messages it can be given, how a message is put in an
    envelope that its text cannot close, and the WebSocket to codex's app-server.  A clock's time
    is a number of nanoseconds.  A stream is the bytes that come, the error that ends them, how
    each write ends and what was written. *)

From Stdlib Require Import Ascii.
From S2P Require Import Prelude Text F64 Json Pipe Schedule Runs Utf8 Frame Replica.

(** ** [Status] of [kanna-detect] and [turn.rs] *)

Inductive Status := Working | NeedsYou | Idle.
#[export] Instance Status_eq_dec : EqDecision Status.
Proof. solve_decision. Defined.
Definition status_as_str (s : Status) : string := match s with Working => "working" | NeedsYou => "needs-you" | Idle => "idle" end.
Definition status_parse (name : string) : option Status := List.find (fun s => bool_decide (status_as_str s = name)) [Working; NeedsYou; Idle].

Notation Instant := Z (only parsing).
Definition from_secs (n : Z) : Z := (n * 1000000000)%Z.

Definition TURN_GRACE : Z := from_secs 10.

Inductive Background := BgNone | BgRunning | BgEnded (at_ : Instant).
#[export] Instance Background_eq_dec : EqDecision Background.
Proof. solve_decision. Defined.

Record Turn := mkTurn { tu_worked : bool; tu_quiet : option (Instant * Status); tu_background : Background }.
Definition turn_default : Turn := mkTurn false None BgNone.
Definition underway : Turn := mkTurn true None BgNone.

Definition turn_see (status : option Status) (at_ : Instant) (t : Turn) : Turn :=
  match status with
  | Some Working => underway
  | Some status =>
    if tu_worked t then mkTurn (tu_worked t) (Some (match tu_quiet t with Some (since, _) => since | None => at_ end, status)) (tu_background t)
    else mkTurn (tu_worked t) None (tu_background t)
  | None => mkTurn (tu_worked t) None (tu_background t)
  end.
Definition turn_quiet (t : Turn) (now : Instant) : bool := match tu_quiet t with Some (since, _) => (since <=? now)%Z | None => false end.
(** Whether it starts to run in the background *)
Definition turn_background (running : bool) (at_ : Instant) (t : Turn) : bool * Turn :=
  let before := tu_background t in
  (running && negb (bool_decide (before = BgRunning)),
   mkTurn (tu_worked t) (tu_quiet t) (if running then BgRunning else match before with BgRunning => BgEnded at_ | kept => kept end)).
Definition turn_waiting (t : Turn) : bool := bool_decide (tu_background t = BgRunning).
Definition turn_ended (t : Turn) (now : Instant) : option Status :=
  let free := match tu_background t with BgNone => true | BgRunning => false | BgEnded at_ => (at_ + TURN_GRACE <=? now)%Z end in
  match tu_quiet t with Some (since, status) => if (since <=? now)%Z && free then Some status else None | None => None end.
Definition turn_due (t : Turn) : option Instant :=
  '(since, _) ← tu_quiet t;
  match tu_background t with BgNone => Some since | BgRunning => None | BgEnded at_ => Some (Z.max since (at_ + TURN_GRACE)) end.

(** ** Who a message is from, and when it can be given *)

Definition PLANNER : string := "planner".
Definition USER : string := "user".
Definition SCHEDULE : string := "schedule ".
Definition RUN_PREFIX : string := "run-".
Definition DESK : string := "desk".
Definition PHONE : string := "phone".
Definition FROM_KANNA : string := "kanna".
Definition yours (sender : string) : bool :=
  bool_decide (sender = USER) || bool_decide (sender = DESK) || bool_decide (sender = PHONE) || bool_decide (sender = FROM_KANNA) || starts_with SCHEDULE sender || starts_with RUN_PREFIX sender.

Definition AGAIN : Z := from_secs 3.
Definition UNKNOWN : Z := from_secs 10.
Definition QUEUE_PAGE : N := 200.
Definition REFUSED : string := "codex's app-server refused".
Definition BYPASS : string := "bypass".
Definition MODE_PROMPTING : string := "prompting".
Definition UNPROMPTED : list string :=
  ["--dangerously-skip-permissions"; "--yolo"; "--dangerously-bypass-approvals-and-sandbox"; "--allow-all"; "--allow-all-tools"; "--permission-mode=bypassPermissions"].

Inductive Channel := Claude (socket : string + string) | Codex (socket : string + string) | OtherAgent (agent : string).
Definition channel_socket (c : Channel) : option (string + string) := match c with Claude s | Codex s => Some s | OtherAgent _ => None end.

Record Ready := mkReady { rd_status : option Status; rd_since : Instant }.
Definition ready_new (now : Instant) : Ready := mkReady None now.
Definition ready_see (status : option Status) (now : Instant) (r : Ready) : Ready := if bool_decide (status = rd_status r) then r else mkReady status now.
Definition ready_sent (now : Instant) (r : Ready) : Ready := mkReady (rd_status r) (now + AGAIN)%Z.
Definition ready_at (r : Ready) : option Instant := if bool_decide (rd_status r = Some Idle) then Some (rd_since r) else None.
Definition ready_unknown (r : Ready) : option Instant := match rd_status r with None => Some (rd_since r + UNKNOWN)%Z | Some _ => None end.

Definition mid_turn (channel : Channel) (status : option Status) (attested : bool) : bool :=
  match channel, status with
  | Claude _, None => true
  | Claude _, Some Working => attested
  | Codex _, _ => true
  | _, _ => false
  end.

Definition LF : string := String (ascii_of_nat 10) "".
Definition prompt (messages : list (option string * string)) : string :=
  join (LF +:+ LF) (map (fun m => match m.1 with Some from => "[message from " +:+ from +:+ "] " +:+ str_trim m.2 | None => str_trim m.2 end) messages).

Fixpoint unprompted (args : list string) : bool :=
  match args with
  | [] => false
  | arg :: args =>
    existsb (fun flag => bool_decide (flag = arg)) UNPROMPTED
    || (bool_decide (arg = "--permission-mode") && match args with mode :: _ => bool_decide (mode = "bypassPermissions") | [] => false end)
    || unprompted args
  end.
Definition permissions (argv : list (list string)) : option string :=
  match argv with [] => None | _ => Some (if existsb unprompted argv then BYPASS else MODE_PROMPTING) end.

(** ** The envelope *)

Definition ENVELOPE : string := "cross-session-message".

Definition alnum (c : N) : bool := (((48 <=? c) && (c <=? 57)) || ((65 <=? c) && (c <=? 90)) || ((97 <=? c) && (c <=? 122)))%N.
(** What [tagged] passes over: neither alphanumeric nor one of some *)
Definition passed (but : list N) (c : N) : bool := negb (alnum c) && negb (existsb (fun k => k =? c)%N but).
Definition lower_char (c : N) : N := if ((65 <=? c) && (c <=? 90))%N then (c + 32)%N else c.
(** Whether a character is read as one of the envelope's name *)
Definition spells (a b : N) : bool := if (b =? 45)%N then ((a =? 45) || (a =? 95))%N else (lower_char a =? lower_char b)%N.
Fixpoint spells_all (name word : list N) : bool := match name, word with a :: name, b :: word => spells a b && spells_all name word | _, _ => true end.
Definition spelled (name : list N) : bool := (String.length (of_chars name) =? String.length ENVELOPE)%nat && spells_all name (chars ENVELOPE).
Definition names_on (rest : list N) : bool := match rest with c :: _ => (alnum c || (c =? 95) || (c =? 45))%N | [] => false end.

(** Whether what follows a [<] reads as the end of an envelope *)
Definition tagged (rest : list N) : bool :=
  match drop_while (passed (chars "_-<>/")) rest with
  | c :: rest =>
    if (c =? 47)%N then
      let rest := drop_while (passed (chars "_-<>")) rest in
      let name := take (String.length ENVELOPE) rest in
      spelled name && negb (names_on (drop (length name) rest))
    else false
  | [] => false
  end.

Definition backslashed (rest : list N) : bool := match rest with c :: _ => (c =? 92)%N | [] => false end.
Fixpoint sealed (text : list N) : list N :=
  match text with
  | [] => []
  | c :: rest => if (c =? 60)%N && negb (backslashed rest) && tagged rest then c :: 92%N :: sealed rest else c :: sealed rest
  end.

Definition closing : string := LF +:+ "</" +:+ ENVELOPE +:+ ">".
Definition envelope (text : string) (mode : option string) : string :=
  match mode with
  | None => text
  | Some mode => "<" +:+ ENVELOPE +:+ " from-mode=" +:+ in_quotes mode +:+ ">" +:+ LF +:+ of_chars (sealed (chars text)) +:+ closing
  end.

(** ** The WebSocket to codex's app-server: [Rpc] *)

(** Where bytes come from: those that come, the error once there are no more, how each write ends, and what was written *)
Record Stream := mkStream { sr_input : list ascii; sr_ended : string; sr_writes : list (option string); sr_output : list (list ascii) }.
Definition set_input (input : list ascii) (s : Stream) : Stream := mkStream input (sr_ended s) (sr_writes s) (sr_output s).

(** Sockets by their paths, [subsec_nanos] at each write, and [kanna_build::VERSION] *)
Class MessageWorld := {
  connect : string -> string + Stream;
  nanos : nat -> N;
  version : string }.

Definition wire (S A : Type) : Type := S -> outcome string A * S.
Definition wire_ret {S A} (a : A) : wire S A := fun s => (Good a, s).
Definition wire_fail {S A} (e : string) : wire S A := fun s => (Bad e, s).
Definition wire_bind {S A B} (m : wire S A) (k : A -> wire S B) : wire S B := fun s =>
  match m s with (Good a, s) => k a s | (Bad e, s) => (Bad e, s) | (Crash, s) => (Crash, s) end.
Definition map_bad {S A} (f : string -> string) (m : wire S A) : wire S A := fun s =>
  match m s with (Bad e, s) => (Bad (f e), s) | r => r end.
#[local] Notation "'let^' x := m 'in' k" := (wire_bind m (fun x => k)) (at level 10, x name, m at level 100, k at level 200).

Definition take_bytes (n : N) : wire Stream (list ascii) := fun s =>
  if (n <=? N.of_nat (length (sr_input s)))%N then (Good (take (N.to_nat n) (sr_input s)), set_input (drop (N.to_nat n) (sr_input s)) s)
  else (Bad (sr_ended s), set_input [] s).
Definition write_bytes (bytes : list ascii) : wire Stream unit := fun s =>
  match sr_writes s with
  | Some e :: writes => (Bad e, mkStream (sr_input s) (sr_ended s) writes (sr_output s))
  | None :: writes => (Good tt, mkStream (sr_input s) (sr_ended s) writes (sr_output s ++ [bytes]))
  | [] => (Good tt, mkStream (sr_input s) (sr_ended s) [] (sr_output s ++ [bytes]))
  end.

(** [to_be_bytes] of a number of so many bytes, and [from_be_bytes] *)
Fixpoint be_bytes (k : nat) (n : N) : list ascii := match k with O => [] | S k => be_bytes k (n / 256) ++ [ascii_of_N (n mod 256)] end.
Definition from_be (bytes : list ascii) : N := foldl (fun n a => n * 256 + N_of_ascii a)%N 0%N bytes.

Definition xor_byte (a b : ascii) : ascii :=
  match a, b with
  | Ascii a0 a1 a2 a3 a4 a5 a6 a7, Ascii b0 b1 b2 b3 b4 b5 b6 b7 =>
    Ascii (xorb a0 b0) (xorb a1 b1) (xorb a2 b2) (xorb a3 b3) (xorb a4 b4) (xorb a5 b5) (xorb a6 b6) (xorb a7 b7)
  end.
Definition masked (mask data : list ascii) : list ascii := imap (fun i b => xor_byte b (List.nth (i mod 4) mask zero)) data.

Section Rpc.
Context `{JsonText} {world : MessageWorld}.

(** The length as a frame has it, and whether the data is masked *)
Definition length_bytes (flag n : N) : list ascii :=
  if (n <? 126)%N then [ascii_of_N (N.lor flag n)]
  else if (n <? N.shiftl 1 16)%N then ascii_of_N (N.lor flag 126) :: be_bytes 2 n
  else ascii_of_N (N.lor flag 127) :: be_bytes 8 n.

Definition frame (opcode : N) (data : list ascii) : wire Stream unit := fun s =>
  let mask := be_bytes 4 (N.lor (nanos (length (sr_output s))) 1) in
  write_bytes (ascii_of_N (N.lor 128 opcode) :: length_bytes 128 (N.of_nat (length data)) ++ mask ++ masked mask data) s.

Definition isize_max : N := (2 ^ 63 - 1)%N.

(** A frame's first byte and its data; a length that no [Vec] has panics *)
Definition read_frame : wire Stream (N * list ascii) :=
  let^ head := take_bytes 2 in
  let first := N_of_ascii (List.nth 0 head zero) in
  let second := N_of_ascii (List.nth 1 head zero) in
  let short := N.land second 127 in
  let^ len := (if (short =? 126)%N then let^ n := take_bytes 2 in wire_ret (from_be n)
               else if (short =? 127)%N then let^ n := take_bytes 8 in wire_ret (from_be n)
               else wire_ret short) in
  let is_masked := negb (N.land second 128 =? 0)%N in
  let^ mask := (if is_masked then take_bytes 4 else wire_ret []) in
  if (isize_max <? len)%N then fun s => (Crash, s)
  else
    let^ data := take_bytes len in
    wire_ret (first, if is_masked then masked mask data else data).

(** The loop of [receive]; [None] is a lack of fuel *)
Fixpoint receive_go (fuel : nat) (message : list ascii) (s : Stream) : option (outcome string string * Stream) :=
  match fuel with
  | O => None
  | S fuel =>
    match read_frame s with
    | (Good (first, data), s) =>
      let opcode := N.land first 15 in
      if (opcode =? 8)%N then Some (Bad "it closed the connection", s)
      else if (opcode =? 9)%N then
        match frame 10 data s with
        | (Good _, s) => receive_go fuel message s
        | (Bad e, s) => Some (Bad e, s)
        | (Crash, s) => Some (Crash, s)
        end
      else if (opcode <=? 2)%N then
        let message := message ++ data in
        if negb (N.land first 128 =? 0)%N then Some (Good (from_utf8_lossy (String.string_of_list_ascii message)), s) else receive_go fuel message s
      else receive_go fuel message s
    | (Bad e, s) => Some (Bad e, s)
    | (Crash, s) => Some (Crash, s)
    end
  end.
(** A frame has two bytes, so the bytes are steps enough *)
Definition receive : wire Stream string := fun s => default (Crash, s) (receive_go (S (length (sr_input s))) [] s).

Record Rpc := mkRpc { rpc_stream : Stream; rpc_next : N }.
Definition on_stream {A} (m : wire Stream A) : wire Rpc A := fun r => let '(a, s) := m (rpc_stream r) in (a, mkRpc s (rpc_next r)).

Definition rpc_send (message : Value) : wire Rpc unit := on_stream (frame 1 (String.list_ascii_of_string (to_text message))).

Definition at_key (value : Value) (key : string) : Value := default JNull (get value key).

Fixpoint call_go (fuel : nat) (id : N) (method : string) (r : Rpc) : option (outcome string Value * Rpc) :=
  match fuel with
  | O => None
  | S fuel =>
    match on_stream receive r with
    | (Good text, r) =>
      let reply := default JNull (from_text text) in
      if bool_decide (as_u64 (at_key reply "id") = Some id) then
        Some (match get reply "error" with
              | Some error => Bad (REFUSED +:+ " " +:+ method +:+ ": " +:+ default "no reason given" (as_str (at_key error "message")))
              | None => Good (at_key reply "result")
              end, r)
      else call_go fuel id method r
    | (Bad e, r) => Some (Bad ("codex's app-server, waiting on " +:+ method +:+ ": " +:+ e), r)
    | (Crash, r) => Some (Crash, r)
    end
  end.
Definition call (method : string) (params : Value) : wire Rpc Value := fun r =>
  let r := mkRpc (rpc_stream r) (rpc_next r + 1)%N in
  let id := rpc_next r in
  (let^ _ := map_bad (fun e => "codex's app-server: " +:+ e) (rpc_send (obj [("jsonrpc", JString "2.0"); ("id", JNumber (PosInt id)); ("method", JString method); ("params", params)])) in
   fun r => default (Crash, r) (call_go (S (length (sr_input (rpc_stream r)))) id method r)) r.

Definition CRLF : string := String (ascii_of_nat 13) (String (ascii_of_nat 10) "").
Definition upgrade : string :=
  "GET / HTTP/1.1" +:+ CRLF +:+ "Host: localhost" +:+ CRLF +:+ "Upgrade: websocket" +:+ CRLF +:+ "Connection: Upgrade" +:+ CRLF +:+
  "Sec-WebSocket-Key: a2FubmEta2FubmEta2FubmE=" +:+ CRLF +:+ "Sec-WebSocket-Version: 13" +:+ CRLF +:+ CRLF.

(** Byte by byte, until an empty line *)
Fixpoint read_head (fuel : nat) (head : list ascii) (s : Stream) : option (outcome string (list ascii) * Stream) :=
  if bool_decide (drop (length head - 4) head = String.list_ascii_of_string (CRLF +:+ CRLF)) then Some (Good head, s)
  else match fuel with
  | O => None
  | S fuel =>
    match take_bytes 1 s with
    | (Good bytes, s) => read_head fuel (head ++ bytes) s
    | (Bad e, s) => Some (Bad e, s)
    | (Crash, s) => Some (Crash, s)
    end
  end.

(** [Rpc::open], on a socket that was connected *)
Definition handshake (socket : string) (capabilities : option Value) : wire Rpc unit :=
  let failed e := socket +:+ ": " +:+ e in
  let^ _ := map_bad failed (on_stream (write_bytes (String.list_ascii_of_string upgrade))) in
  let^ head := map_bad failed (on_stream (fun s => default (Crash, s) (read_head (S (length (sr_input s))) [] s))) in
  let head := String.string_of_list_ascii head in
  if starts_with "HTTP/1.1 101" head then
    let^ _ := call "initialize" (obj ([("clientInfo", obj [("name", JString "kanna"); ("version", JString version)])] ++ match capabilities with Some c => [("capabilities", c)] | None => [] end)) in
    map_bad failed (rpc_send (obj [("jsonrpc", JString "2.0"); ("method", JString "initialized")]))
  else wire_fail ("codex's app-server refused the connection: " +:+ default "" (List.head (str_lines (from_utf8_lossy head)))).

(** What is done on a socket; and the socket, where it was connected *)
Definition with_rpc {A} (socket : string) (capabilities : option Value) (m : wire Rpc A) : outcome string A * option Rpc :=
  match connect socket with
  | inl e => (Bad (socket +:+ ": " +:+ e), None)
  | inr s => let '(a, r) := (let^ _ := handshake socket capabilities in m) (mkRpc s 0) in (a, Some r)
  end.

Definition strings_at (value : Value) (f : Value -> option string) : list string := match as_array (at_key value "data") with Some items => omap f items | None => [] end.

(** The first thread that is not ephemeral *)
Fixpoint session_of (ids : list string) : wire Rpc (string * Value) :=
  match ids with
  | [] => wire_fail "codex's app-server has no session loaded"
  | id :: ids =>
    let^ read := call "thread/read" (obj [("threadId", JString id); ("includeTurns", JBool false)]) in
    if bool_decide (as_bool (at_key (at_key read "thread") "ephemeral") = Some true) then session_of ids else wire_ret (id, read)
  end.
Definition codex_session : wire Rpc (string * Value) :=
  let^ loaded := call "thread/loaded/list" (obj []) in session_of (strings_at loaded as_str).

Inductive Posted := Given | Queued (thread submission : string).
Record QueueState := mkQueueState { qs_queued : list string; qs_moved : list string; qs_idle : bool }.

Definition experimental : option Value := Some (obj [("experimentalApi", JBool true)]).

Definition codex_post (socket text : string) (id : Z) (idle : bool) : outcome string Posted * option Rpc :=
  with_rpc socket experimental (
    let^ session := codex_session in
    let thread := session.1 in
    let input := JArray [obj [("type", JString "text"); ("text", JString text)]] in
    fun r =>
    match call "thread/queue/add" (obj [("threadId", JString thread); ("input", input); ("clientUserMessageId", JString ("kanna-" +:+ pretty id))]) r with
    | (Good reply, r) =>
      match as_str (at_key (at_key reply "queuedSubmission") "id") with
      | Some submission => (Good (Queued thread submission), r)
      | None => (Bad "codex's app-server queued it under no ID", r)
      end
    | (Bad why, r) =>
      if idle && starts_with REFUSED why then (let^ _ := call "turn/start" (obj [("threadId", JString thread); ("input", input)]) in wire_ret Given) r
      else (Bad why, r)
    | (Crash, r) => (Crash, r)
    end).

(** Submissions that are queued in other threads are deleted there, whatever the answer *)
Fixpoint delete_moved (session : string) (submissions : list (string * string)) : wire Rpc (list string) :=
  match submissions with
  | [] => wire_ret []
  | (submission, thread) :: submissions =>
    if bool_decide (thread = session) then delete_moved session submissions
    else
      let^ _ := (fun r => match call "thread/queue/delete" (obj [("threadId", JString thread); ("queuedSubmissionId", JString submission)]) r with (Crash, r) => (Crash, r) | (_, r) => (Good tt, r) end) in
      let^ moved := delete_moved session submissions in
      wire_ret (submission :: moved)
  end.

Definition codex_queue (socket : string) (submissions : list (string * string)) (start : bool) : outcome string QueueState * option Rpc :=
  with_rpc socket experimental (
    let^ found := codex_session in
    let session := found.1 in
    let^ moved := delete_moved session submissions in
    let^ listed := call "thread/queue/list" (obj [("threadId", JString session); ("limit", JNumber (PosInt QUEUE_PAGE))]) in
    let queued := strings_at listed (fun item => as_str (at_key item "id")) in
    let idle := bool_decide (as_str (at_key (at_key (at_key found.2 "thread") "status") "type") = Some "idle") in
    let^ _ := (if start && idle && negb (bool_decide (queued = []))
               then fun r => match call "thread/queue/start" (obj [("threadId", JString session)]) r with (Crash, r) => (Crash, r) | (_, r) => (Good tt, r) end
               else wire_ret tt) in
    wire_ret (mkQueueState queued moved idle)).

Definition post (socket text : string) : outcome string unit * option Stream :=
  match connect socket with
  | inl e => (Bad (socket +:+ ": " +:+ e), None)
  | inr s =>
    let line := to_text (obj [("type", JString "user"); ("message", obj [("role", JString "user"); ("content", JString text)])]) in
    let '(r, s) := map_bad (fun e => socket +:+ ": " +:+ e) (write_bytes (String.list_ascii_of_string (line +:+ LF))) s in (r, Some s)
  end.

Definition deliver (channel : Channel) (text : string) (mode : option string) (id : Z) (idle : bool) : outcome string Posted :=
  match channel with
  | Claude (inr socket) => outcome_bind (post socket (envelope text mode)).1 (fun _ => Good Given)
  | Codex (inr socket) => (codex_post socket text id idle).1
  | Claude (inl why) | Codex (inl why) => Bad why
  | OtherAgent agent => Bad (agent +:+ " can't take messages")
  end.

(** The socket of a codex that is attached to an app-server *)
Definition codex_socket (argv : list (list string)) : string + string :=
  let of_args args :=
    at_ ← position (fun a => bool_decide (a = "--remote")) args;
    if existsb (fun a => bool_decide (path_file_name a = Some "codex")) (take at_ args) then a ← args !! S at_; strip_prefix "unix://" a else None in
  match List.head (omap of_args argv) with
  | Some socket => inr socket
  | None => inl "its codex isn't attached to an app-server (codex --remote unix://SOCKET)"
  end.
End Rpc.
