(* ===== verification/MessageTheorems.v ===== *)
(** * Messages to agents: what no text can close, and what is read of frames

    Nothing in an envelope reads as its end but its end; a turn is due exactly when it has ended;
    what is received of a stream of frames is what a reading of the frames says. *)

From Stdlib Require Import Ascii.
From S2P Require Import Prelude Text F64 Json Pipe PipeText Schedule Runs Utf8 Frame Replica Messages.

(** ** Turns *)

(** A turn has ended exactly from when it is due *)
Lemma turn_due_exact t now : is_Some (turn_ended t now) <-> exists due, turn_due t = Some due /\ (due <= now)%Z.
Proof.
  unfold turn_ended, turn_due. destruct t as [worked [[since status]|] []]; simpl.
  all: repeat match goal with |- context [(?a <=? ?b)%Z] => destruct (Z.leb_spec a b) end; simpl; unfold is_Some; split; intros [? ?]; try naive_solver lia.
  all: eexists; (split; [done|]); lia.
Qed.

(** ** The envelope *)

Lemma drop_while_cat {A} (p : A -> bool) l t : drop_while p (l ++ t) = match drop_while p l with [] => drop_while p t | l' => l' ++ t end.
Proof. induction l as [|x l IH]; simpl; [done|]. by destruct (p x). Qed.

Lemma drop_while_suffix {A} (p : A -> bool) l x : x ∈ drop_while p l -> x ∈ l.
Proof. induction l as [|y l IH]; simpl; [done|]. destruct (p y); [|done]. intros ?. right. auto. Qed.

Lemma spells_plain a b : spells a b = true -> b ∈ chars ENVELOPE -> (a < 128 /\ a <> 60 /\ a <> 10)%N.
Proof.
  unfold spells. intros Hs Hb.
  assert (Forall (fun b => b = 45 \/ (97 <= b <= 122))%N (chars ENVELOPE)) as Hall by (apply (bool_decide_unpack _); vm_compute; exact I).
  rewrite Forall_forall in Hall. specialize (Hall b Hb). unfold lower_char in Hs.
  destruct (N.eqb_spec b 45).
  - apply orb_true_iff in Hs as [->%N.eqb_eq | ->%N.eqb_eq]; lia.
  - destruct Hall as [|Hall]; [done|]. apply N.eqb_eq in Hs. destruct (_ && _) eqn:E1 in Hs; destruct ((65 <=? b) && (b <=? 90))%N eqn:E2 in Hs;
      rewrite ?andb_true_iff, ?andb_false_iff, ?N.leb_le, ?N.leb_gt in *; lia.
Qed.

Lemma of_chars_ascii cs : Forall (fun c => c < 128)%N cs -> String.length (of_chars cs) = length cs.
Proof.
  induction 1 as [|c cs Hc _ IH]; [done|]. cbn [of_chars length]. unfold encode_char. destruct (N.ltb_spec c 128); [|lia]. cut (S (String.length (of_chars cs)) = S (length cs)); [done|by rewrite IH].
Qed.

Lemma spells_all_plain name word :
  spells_all name word = true -> (forall b, b ∈ word -> b ∈ chars ENVELOPE) -> (length name <= length word)%nat -> Forall (fun a => a < 128 /\ a <> 60 /\ a <> 10)%N name.
Proof.
  revert word. induction name as [|a name IH]; intros [|b word] Hs Hw Hl; simpl in *; [constructor|constructor|lia|]. apply andb_true_iff in Hs as [Hs Hr].
  constructor; [by apply (spells_plain a b); [|apply Hw; left]|]. apply (IH word); [done|intros; apply Hw; by right|lia].
Qed.

(** A name is read only where all its characters are there, and none of them is a [<] or ends a line *)
Lemma spelled_plain name : (length name <= 21)%nat -> spelled name = true -> length name = 21%nat /\ Forall (fun a => a <> 60 /\ a <> 10)%N name.
Proof.
  intros Hl [Hb Hs]%andb_true_iff. apply spells_all_plain in Hs; [|done|done]. rewrite of_chars_ascii in Hb by (eapply Forall_impl; [done|]; naive_solver).
  apply Nat.eqb_eq in Hb. split; [done|]. eapply Forall_impl; [done|]. naive_solver.
Qed.

(** What ends a stretch without [<]: nothing, a [<], or the end of the envelope *)
Definition stops (t : list N) : Prop := t = [] \/ (exists r, t = 60%N :: r) \/ exists r, t = 10%N :: 60%N :: r.

Lemma stops_passed but t : existsb (fun k => k =? 60)%N but = true -> existsb (fun k => k =? 10)%N but = false -> stops t -> drop_while (passed but) t = [] \/ exists r, drop_while (passed but) t = 60%N :: r.
Proof.
  intros H60 H10 [->|[[r ->]|[r ->]]]; simpl; [by left|right|right]; unfold passed; simpl; rewrite ?H10, ?H60; by eexists.
Qed.

Lemma name_stops r t : Forall (fun c => c <> 60)%N r -> stops t ->
  (spelled (take 21 (r ++ t)) && negb (names_on (drop (length (take 21 (r ++ t))) (r ++ t)))) = (spelled (take 21 r) && negb (names_on (drop (length (take 21 r)) r))).
Proof.
  intros Hr Ht. destruct (decide (21 <= length r)%nat) as [Hl|Hl].
  - rewrite take_app_le by done. f_equal. f_equal. rewrite length_take_le by done. rewrite drop_app_le by done.
    destruct (drop 21 r) as [|c l] eqn:E; [|done]. simpl. destruct Ht as [->|[[x ->]|[x ->]]]; done.
  - assert (forall x, spelled (take 21 (r ++ x)) = true -> length (take 21 (r ++ x)) = 21%nat /\ Forall (fun a => a <> 60 /\ a <> 10)%N (take 21 (r ++ x))) as Hs.
    { intros x. apply spelled_plain. rewrite length_take. lia. }
    destruct (spelled (take 21 (r ++ t))) eqn:E1; [exfalso|].
    + apply Hs in E1 as [El Ef]. destruct Ht as [->|Ht]; [rewrite app_nil_r, length_take in El; lia|].
      rewrite take_app_ge in Ef by lia. apply Forall_app in Ef as [_ Ef]. destruct (21 - length r)%nat eqn:Ek; [lia|].
      destruct Ht as [[x ->]|[x ->]]; simpl in Ef; inversion_clear Ef; naive_solver.
    + destruct (spelled (take 21 r)) eqn:E2; [exfalso|done]. rewrite <- (app_nil_r r) in E2 at 1. apply Hs in E2 as [El _]. rewrite app_nil_r, length_take in El. lia.
Qed.

Lemma tagged_stops p t : Forall (fun c => c <> 60)%N p -> stops t -> tagged (p ++ t) = tagged p.
Proof.
  intros Hp Ht. unfold tagged. change (String.length ENVELOPE) with 21%nat. rewrite drop_while_cat. assert (forall x, x ∈ drop_while (passed (chars "_-<>/")) p -> x <> 60%N) as Hd.
  { rewrite Forall_forall in Hp. intros x Hx. by apply Hp, (drop_while_suffix (passed (chars "_-<>/"))). }
  destruct (drop_while (passed (chars "_-<>/")) p) as [|c r].
  - destruct (stops_passed (chars "_-<>/") t) as [->|[r ->]]; done.
  - cbn [app]. destruct (c =? 47)%N; [|done]. rewrite drop_while_cat. assert (Forall (fun c => c <> 60)%N (drop_while (passed (chars "_-<>")) r)) as Hr.
    { apply Forall_forall. intros x Hx. apply Hd. right. by eapply drop_while_suffix. }
    destruct (drop_while (passed (chars "_-<>")) r) as [|d r'] eqn:E; [|by rewrite name_stops].
    destruct (stops_passed (chars "_-<>") t) as [->|[r' ->]]; [done..|].
    destruct (spelled (take 21 (60%N :: r'))) eqn:Es; [|done]. apply spelled_plain in Es as [_ Ef]; [|rewrite length_take; lia]. simpl in Ef. inversion_clear Ef. naive_solver.
Qed.

Lemma split_angle cs : exists p q, cs = p ++ q /\ Forall (fun c => c <> 60)%N p /\ (q = [] \/ exists r, q = 60%N :: r).
Proof.
  induction cs as [|c cs (p & q & -> & Hp & Hq)]; [exists [], []; auto|]. destruct (decide (c = 60%N)) as [->|Hc].
  - exists [], (60%N :: p ++ q). split_and!; [done|constructor|]. right. by eexists.
  - exists (c :: p), q. split_and!; [done|by constructor|done].
Qed.

Lemma sealed_plain p q : Forall (fun c => c <> 60)%N p -> sealed (p ++ q) = p ++ sealed q.
Proof. induction 1 as [|c p Hc _ IH]; [done|]. cbn [app sealed]. apply N.eqb_neq in Hc as ->. cbn. by rewrite IH. Qed.

Lemma sealed_angle r : exists r', sealed (60%N :: r) = 60%N :: r'.
Proof. cbn [sealed]. destruct (_ && _); by eexists. Qed.

(** What is written after a text reads as the text did *)
Lemma tagged_sealed cs : tagged (sealed cs ++ chars closing) = tagged cs.
Proof.
  destruct (split_angle cs) as (p & q & -> & Hp & Hq). rewrite sealed_plain, <- app_assoc by done. rewrite !tagged_stops; [done|done| |done|].
  - destruct Hq as [->|[r ->]]; [by left|right; left; by eexists].
  - destruct Hq as [->|[r ->]]; [right; right; by eexists|right; left]. destruct (sealed_angle r) as [r' ->]. by eexists.
Qed.

Lemma backslashed_sealed cs t : backslashed cs = true -> backslashed (sealed cs ++ t) = true.
Proof. destruct cs as [|c cs]; [done|]. simpl. by destruct (_ && _). Qed.

Lemma sealed_safe cs pre post : sealed cs = pre ++ 60%N :: post -> backslashed post = true \/ tagged (post ++ chars closing) = false.
Proof.
  revert pre. induction cs as [|c cs IH]; intros pre E; simpl in E; [by destruct pre|]. destruct (_ && tagged cs) eqn:Et.
  - destruct pre as [|x pre]; simpl in E; injection E as -> E.
    + left. by rewrite <- E.
    + destruct pre as [|y pre]; simpl in E; injection E as ? E; [done|]. by eapply IH.
  - destruct pre as [|x pre]; simpl in E; injection E as -> E; [|by eapply IH]. subst post. rewrite tagged_sealed. destruct (tagged cs); [left|by right].
    rewrite N.eqb_refl, andb_true_r in Et. simpl in Et. apply negb_false_iff in Et. rewrite <- (app_nil_r (sealed cs)). by apply backslashed_sealed.
Qed.

Lemma sealed_sublist cs : sublist cs (sealed cs).
Proof. induction cs as [|c cs IH]; [constructor|]. simpl. destruct (_ && _); repeat constructor; done. Qed.

(** *** What reads as the end of an envelope

    After the [<]: a slash, with anything around it but letters, digits, [_], [-], [<] and [>], then the
    name in capitals or not and with [_] for [-], and after it neither a letter, a digit, a [_] nor
    a [-]. *)

Definition letter_or_digit (c : N) : Prop := (48 <= c <= 57 \/ 65 <= c <= 90 \/ 97 <= c <= 122)%N.
Definition in_between (c : N) : Prop := ~ letter_or_digit c /\ c ∉ chars "_-<>".
Definition spelling (a b : N) : Prop := (a = b \/ (97 <= b <= 122 /\ a + 32 = b) \/ (b = 45 /\ a = 95))%N.

Definition ends_envelope (post : list N) : Prop :=
  exists gap gap' name rest, post = gap ++ 47%N :: gap' ++ name ++ rest /\
    Forall (fun c => in_between c /\ c <> 47%N) gap /\ Forall in_between gap' /\
    Forall2 spelling name (chars "cross-session-message") /\
    (forall c, head rest = Some c -> ~ letter_or_digit c /\ c ∉ chars "_-").

Lemma alnum_spec c : alnum c = true <-> letter_or_digit c.
Proof. unfold alnum, letter_or_digit. rewrite !orb_true_iff, !andb_true_iff, !N.leb_le. tauto. Qed.

Lemma alnum_false c : alnum c = false <-> ~ letter_or_digit c.
Proof. rewrite <- alnum_spec. by destruct (alnum c). Qed.

Lemma passed_spec but c : passed but c = true <-> ~ letter_or_digit c /\ c ∉ but.
Proof.
  unfold passed. rewrite andb_true_iff, !negb_true_iff, alnum_false, <- not_true_iff_false, existsb_exists.
  assert ((exists x, In x but /\ (x =? c)%N = true) <-> c ∈ but) as ->; [|done]. rewrite list_elem_of_In. split.
  - by intros (x & Hx & ->%N.eqb_eq).
  - intros Hc. exists c. by rewrite N.eqb_refl.
Qed.

Lemma names_on_spec rest : names_on rest = false <-> forall c, head rest = Some c -> ~ letter_or_digit c /\ c ∉ chars "_-".
Proof.
  destruct rest as [|c rest]; simpl; [by split|]. rewrite !orb_false_iff, alnum_false, !N.eqb_neq. split.
  - intros [[H1 H2] H3] c' [= <-]. split; [done|]. rewrite !elem_of_cons, elem_of_nil. naive_solver.
  - intros Hc. destruct (Hc c eq_refl) as [H1 H2]. rewrite !elem_of_cons, elem_of_nil in H2. naive_solver.
Qed.

Lemma spells_spec a b : b ∈ chars ENVELOPE -> spells a b = true <-> spelling a b.
Proof.
  intros Hb. assert (Forall (fun b => b = 45 \/ (97 <= b <= 122))%N (chars ENVELOPE)) as Hall by (apply (bool_decide_unpack _); vm_compute; exact I).
  rewrite Forall_forall in Hall. specialize (Hall b Hb). unfold spells, spelling, lower_char.
  destruct (N.eqb_spec b 45) as [->|Hne].
  - rewrite orb_true_iff, !N.eqb_eq. lia.
  - rewrite N.eqb_eq. destruct ((65 <=? b) && (b <=? 90))%N eqn:E2; destruct ((65 <=? a) && (a <=? 90))%N eqn:E1;
      rewrite ?andb_true_iff, ?andb_false_iff, ?N.leb_le, ?N.leb_gt in *; lia.
Qed.

Lemma spells_all_spec name word :
  length name = length word -> (forall b, b ∈ word -> b ∈ chars ENVELOPE) -> spells_all name word = true <-> Forall2 spelling name word.
Proof.
  revert word. induction name as [|a name IH]; intros [|b word] Hl Hw; simpl in *; try lia; [by split; [constructor|]|].
  rewrite andb_true_iff, spells_spec, IH, Forall2_cons; [done|lia|intros; apply Hw; by right|apply Hw; left].
Qed.

Lemma spelling_ascii name : Forall2 spelling name (chars ENVELOPE) -> Forall (fun c => c < 128)%N name.
Proof.
  intros Hn. assert (Forall (fun b => b < 128)%N (chars ENVELOPE)) as Hall by (apply (bool_decide_unpack _); vm_compute; exact I).
  eapply Forall2_Forall_l; [exact Hn|]. eapply Forall_impl; [exact Hall|]. intros b Hb a Hs. cbv beta in Hb |- *. unfold spelling in Hs. lia.
Qed.

Lemma spelled_spec name : (length name <= 21)%nat -> spelled name = true <-> Forall2 spelling name (chars ENVELOPE).
Proof.
  intros Hl. split.
  - intros Hs. pose proof (spelled_plain name Hl Hs) as [E _]. apply andb_true_iff in Hs as [_ Hs]. by apply spells_all_spec in Hs.
  - intros Hn. unfold spelled. rewrite of_chars_ascii by by apply spelling_ascii. pose proof (Forall2_length _ _ _ Hn) as E. rewrite E. simpl.
    by apply spells_all_spec.
Qed.

Lemma drop_while_span {A} (p : A -> bool) l : exists pre, l = pre ++ drop_while p l /\ Forall (fun x => p x = true) pre.
Proof.
  induction l as [|x l (pre & E & Hp)]; simpl; [by exists []|]. destruct (p x) eqn:Ex; [|by exists []].
  exists (x :: pre). split; [by rewrite E at 1|by constructor].
Qed.

Lemma tagged_spec post : tagged post = true <-> ends_envelope post.
Proof.
  unfold tagged. change (String.length ENVELOPE) with 21%nat. split.
  - destruct (drop_while_span (passed (chars "_-<>/")) post) as (gap & E & Hgap). destruct (drop_while _ post) as [|c rest]; [done|].
    destruct (N.eqb_spec c 47) as [->|]; [|done]. destruct (drop_while_span (passed (chars "_-<>")) rest) as (gap' & E' & Hgap').
    set (tail := drop_while _ rest) in *. intros [Hs Hn]%andb_true_iff. apply spelled_spec in Hs; [|rewrite length_take; lia].
    apply negb_true_iff in Hn. pose proof (proj1 (names_on_spec _) Hn) as Hnext. exists gap, gap', (take 21 tail), (drop (length (take 21 tail)) tail). split_and!; [| | |done|done].
    + rewrite E, E'. do 2 f_equal. f_equal. rewrite length_take. pose proof (Forall2_length _ _ _ Hs) as El. rewrite length_take in El.
      change (length (chars ENVELOPE)) with 21%nat in El. rewrite El. by rewrite take_drop.
    + eapply Forall_impl; [exact Hgap|]. intros c [H1 H2]%passed_spec. change (chars "_-<>/") with (chars "_-<>" ++ [47%N]) in H2.
      rewrite elem_of_app, list_elem_of_singleton in H2. unfold in_between. tauto.
    + eapply Forall_impl; [exact Hgap'|]. intros c Hc%passed_spec. done.
  - intros (gap & gap' & name & rest & -> & Hgap & Hgap' & Hname & Hrest). change (chars "cross-session-message") with (chars ENVELOPE) in Hname.
    rewrite drop_while_app; [|eapply Forall_impl; [exact Hgap|]; intros c [[H1 H2] H3]; apply passed_spec; split; [done|];
      change (chars "_-<>/") with (chars "_-<>" ++ [47%N]); rewrite elem_of_app, list_elem_of_singleton; tauto].
    change (drop_while (passed (chars "_-<>/")) (47%N :: gap' ++ name ++ rest)) with (47%N :: gap' ++ name ++ rest). cbv iota beta. rewrite N.eqb_refl.
    rewrite drop_while_app by (eapply Forall_impl; [exact Hgap'|]; intros c Hc; by apply passed_spec).
    pose proof (Forall2_length _ _ _ Hname) as El. change (length (chars ENVELOPE)) with 21%nat in El.
    assert (drop_while (passed (chars "_-<>")) (name ++ rest) = name ++ rest) as ->.
    { destruct name as [|a name]; [done|]. inversion Hname as [|? b ? ? Hab]; subst. simpl. destruct (passed _ a) eqn:Ea; [|done]. exfalso.
      apply passed_spec in Ea as [Ha _]. apply Ha. unfold letter_or_digit. unfold spelling in Hab. simplify_eq. lia. }
    rewrite take_app_length' by done. rewrite drop_app_length. apply andb_true_iff. split; [apply spelled_spec; [lia|done]|].
    by apply negb_true_iff, names_on_spec.
Qed.

Lemma sealed_plainly cs : (forall pre post, cs = pre ++ 60%N :: post -> tagged post = false) -> sealed cs = cs.
Proof.
  induction cs as [|c cs IH]; intros Hc; simpl; [done|]. rewrite IH by (intros pre post ->; by apply (Hc (c :: pre))).
  destruct (N.eqb_spec c 60) as [->|]; simpl; [|done]. by rewrite (Hc [] cs eq_refl), andb_false_r.
Qed.

(** C30 Whatever a message says, only the end of its envelope reads as one: after each [<] of the body is a
    backslash, or what does not read as the end of an envelope, in any spelling and with anything in
    between that may be there; nothing of the text is left out, and a text in which nothing reads so is
    the body as it is. *)
Theorem envelope_sealed (text mode : string) :
  exists body, envelope text (Some mode) =
      "<cross-session-message from-mode=" +:+ in_quotes mode +:+ ">" +:+ LF +:+ of_chars body +:+ LF +:+ "</cross-session-message>" /\
    sublist (chars text) body /\
    (forall pre post, body = pre ++ 60%N :: post -> head post = Some 92%N \/ ~ ends_envelope (post ++ chars (LF +:+ "</cross-session-message>"))) /\
    ((forall pre post, chars text = pre ++ 60%N :: post -> ~ ends_envelope post) -> body = chars text).
Proof.
  exists (sealed (chars text)). split_and!; [done|apply sealed_sublist| |].
  - intros pre post E. destruct (sealed_safe _ _ _ E) as [Hb|Ht]; [left|right].
    + destruct post as [|c post]; [done|]. simpl in Hb. by apply N.eqb_eq in Hb as ->.
    + rewrite <- tagged_spec. change (LF +:+ "</cross-session-message>") with closing. by rewrite Ht.
  - intros Hno. apply sealed_plainly. intros pre post E. apply not_true_iff_false. rewrite tagged_spec. by eapply Hno.
Qed.

Example closing_is_tagged : tagged (chars ("/" +:+ ENVELOPE +:+ ">")) = true /\ envelope "a</ Cross_session-MESSAGE >b" (Some "bypass") =
  "<cross-session-message from-mode=" +:+ in_quotes "bypass" +:+ ">" +:+ LF +:+ "a<\/ Cross_session-MESSAGE >b" +:+ closing.
Proof. by vm_compute. Qed.

(** ** Frames *)

Lemma from_be_snoc l a : from_be (l ++ [a]) = (from_be l * 256 + N_of_ascii a)%N.
Proof. unfold from_be. by rewrite foldl_app. Qed.

Lemma be_bytes_length k n : length (be_bytes k n) = k.
Proof. revert n. induction k as [|k IH]; intros n; [done|]. simpl. rewrite length_app, IH. simpl. lia. Qed.

Lemma be_bytes_back k n : (n < 256 ^ N.of_nat k)%N -> from_be (be_bytes k n) = n.
Proof.
  revert n. induction k as [|k IH]; intros n Hn; [simpl in Hn; change (from_be (be_bytes 0 n)) with 0%N; lia|]. cbn [be_bytes]. rewrite from_be_snoc.
  rewrite Nat2N.inj_succ, N.pow_succ_r' in Hn. rewrite IH by (apply N.Div0.div_lt_upper_bound; lia). rewrite N_ascii_embedding by (apply N.mod_lt; lia).
  rewrite N.mul_comm. symmetry. apply N.div_mod. lia.
Qed.

Lemma xor_byte_twice a b : xor_byte (xor_byte a b) b = a.
Proof. destruct a, b. cbn. by rewrite !xorb_assoc, !xorb_nilpotent, !xorb_false_r. Qed.

Lemma masked_length mask data : length (masked mask data) = length data.
Proof. apply length_imap. Qed.

Lemma masked_twice mask data : masked mask (masked mask data) = data.
Proof.
  apply list_eq. intros i. unfold masked. rewrite !list_lookup_imap. destruct (data !! i) as [b|]; [|done]. simpl. by rewrite xor_byte_twice.
Qed.

(** The second byte of a frame: a length below 128, and whether the data is masked *)
Lemma second_byte flag n : (flag = 0 \/ flag = 128)%N -> (n < 128)%N -> (N.land (N.lor flag n) 127 = n /\ N.land (N.lor flag n) 128 = flag /\ N.lor flag n < 256)%N.
Proof.
  intros Hf Hn. assert (Forall (fun k => let n := N.of_nat k in forall flag, flag ∈ [0; 128] -> N.land (N.lor flag n) 127 = n /\ N.land (N.lor flag n) 128 = flag /\ N.lor flag n < 256)%N (seq 0 128)) as Hall.
  { apply (Forall_impl (fun k => Forall (fun flag => N.land (N.lor flag (N.of_nat k)) 127 = N.of_nat k /\ N.land (N.lor flag (N.of_nat k)) 128 = flag /\ N.lor flag (N.of_nat k) < 256)%N [0; 128]%N));
      [apply (bool_decide_unpack _); vm_compute; exact I|]. intros k Hk. by rewrite Forall_forall in Hk. }
  rewrite Forall_forall in Hall. specialize (Hall (N.to_nat n)). rewrite N2Nat.id in Hall. apply Hall; [apply elem_of_seq; lia|]. destruct Hf as [->| ->]; [left|right; left].
Qed.

(** A frame as it is sent: its first byte, its mask if it has one, and its data *)
Record WireFrame := mkWireFrame { wf_first : N; wf_mask : option (list ascii); wf_data : list ascii }.
Definition wf_ok (f : WireFrame) : Prop :=
  (wf_first f < 256)%N /\ (forall mask, wf_mask f = Some mask -> length mask = 4%nat) /\ (N.of_nat (length (wf_data f)) <= isize_max)%N.

Definition wf_flag (f : WireFrame) : N := match wf_mask f with Some _ => 128%N | None => 0%N end.
Definition short_length (n : N) : N := if (n <? 126)%N then n else if (n <? 65536)%N then 126%N else 127%N.
Definition more_length (n : N) : list ascii := if (n <? 126)%N then [] else if (n <? 65536)%N then be_bytes 2 n else be_bytes 8 n.

Lemma length_bytes_split flag n : length_bytes flag n = ascii_of_N (N.lor flag (short_length n)) :: more_length n.
Proof. unfold length_bytes, short_length, more_length. change (N.shiftl 1 16) with 65536%N. by repeat destruct (_ <? _)%N. Qed.

Definition wf_payload (f : WireFrame) : list ascii := match wf_mask f with Some mask => masked mask (wf_data f) | None => wf_data f end.
Definition wf_bytes (f : WireFrame) : list ascii :=
  ascii_of_N (wf_first f) :: length_bytes (wf_flag f) (N.of_nat (length (wf_data f))) ++ default [] (wf_mask f) ++ wf_payload f.

Lemma wf_payload_length f : length (wf_payload f) = length (wf_data f).
Proof. unfold wf_payload. destruct (wf_mask f); [apply masked_length|done]. Qed.

(** *** Reading some bytes of those that are left, or all that came of them *)

Section Reading.
Context `{JsonText} {world : MessageWorld}.

(** The first [k] of some bytes came *)
Definition came (k : nat) (bytes : list ascii) (s : Stream) : Prop := sr_input s = take k bytes.

Lemma take_bytes_came k l rest s :
  came k (l ++ rest) s ->
  (k < length l)%nat /\ (exists s', take_bytes (N.of_nat (length l)) s = (Bad (sr_ended s), s')) \/
  (length l <= k)%nat /\ take_bytes (N.of_nat (length l)) s = (Good l, set_input (take (k - length l) rest) s).
Proof.
  unfold came, take_bytes. intros E. destruct (decide (length l <= k)%nat) as [Hk|Hk]; [right|left]; (split; [lia|]).
  - rewrite E, take_app_ge by done. rewrite Nat2N.id. assert ((N.of_nat (length l) <=? N.of_nat (length (l ++ take (k - length l) rest)))%N = true) as -> by (apply N.leb_le; rewrite length_app; lia).
    rewrite take_app_length, drop_app_length. done.
  - assert ((N.of_nat (length l) <=? N.of_nat (length (sr_input s)))%N = false) as ->; [|by eexists]. apply N.leb_gt. rewrite E, length_take, length_app. lia.
Qed.

(** The length, after the first two bytes *)
Definition read_length (short : N) : wire Stream N :=
  if (short =? 126)%N then wire_bind (take_bytes 2) (fun n => wire_ret (from_be n))
  else if (short =? 127)%N then wire_bind (take_bytes 8) (fun n => wire_ret (from_be n))
  else wire_ret short.

Lemma read_length_came k n rest s :
  (n < 2 ^ 64)%N -> came k (more_length n ++ rest) s ->
  (k < length (more_length n))%nat /\ (exists s', read_length (short_length n) s = (Bad (sr_ended s), s')) \/
  (length (more_length n) <= k)%nat /\ read_length (short_length n) s = (Good n, set_input (take (k - length (more_length n)) rest) s).
Proof.
  intros Hn Hc. unfold read_length, short_length, more_length, wire_bind in *. destruct (N.ltb_spec n 126); [|destruct (N.ltb_spec n 65536)].
  - right. split; [simpl; lia|]. assert ((n =? 126)%N = false) as -> by (apply N.eqb_neq; lia). assert ((n =? 127)%N = false) as -> by (apply N.eqb_neq; lia).
    unfold wire_ret. rewrite Nat.sub_0_r. unfold came in Hc. simpl in Hc. rewrite <- Hc. by destruct s.
  - cbn [N.eqb Pos.eqb]. destruct (take_bytes_came _ _ _ _ Hc) as [[Hk [s' E]]|[Hk E]]; rewrite be_bytes_length in E at 1; change (N.of_nat 2) with 2%N in E; rewrite E; [left|right]; (split; [done|]).
    + by eexists.
    + unfold wire_ret. by rewrite be_bytes_back.
  - cbn [N.eqb Pos.eqb]. destruct (take_bytes_came _ _ _ _ Hc) as [[Hk [s' E]]|[Hk E]]; rewrite be_bytes_length in E at 1; change (N.of_nat 8) with 8%N in E; rewrite E; [left|right]; (split; [done|]).
    + by eexists.
    + unfold wire_ret. by rewrite be_bytes_back.
Qed.

Lemma short_length_small n : (short_length n < 128)%N.
Proof. unfold short_length. destruct (N.ltb_spec n 126); [lia|]. destruct (_ <? _)%N; lia. Qed.

Definition read_mask (is_masked : bool) : wire Stream (list ascii) := if is_masked then take_bytes 4 else wire_ret [].

Lemma read_mask_came k f rest s :
  wf_ok f -> came k (default [] (wf_mask f) ++ rest) s ->
  (k < length (default [] (wf_mask f)))%nat /\ (exists s', read_mask (bool_decide (is_Some (wf_mask f))) s = (Bad (sr_ended s), s')) \/
  (length (default [] (wf_mask f)) <= k)%nat /\ read_mask (bool_decide (is_Some (wf_mask f))) s = (Good (default [] (wf_mask f)), set_input (take (k - length (default [] (wf_mask f))) rest) s).
Proof.
  intros (_ & Hm & _) Hc. destruct (wf_mask f) as [mask|]; simpl in *.
  - destruct (take_bytes_came _ _ _ _ Hc) as [[Hk [s' E]]|[Hk E]]; rewrite (Hm mask eq_refl) in E at 1; change (N.of_nat 4) with 4%N in E; rewrite E; [left|right]; (split; [done|]); by eexists.
  - right. split; [lia|]. unfold wire_ret. rewrite Nat.sub_0_r. unfold came in Hc. rewrite <- Hc. by destruct s.
Qed.

Lemma wire_bind_good {A B} (m : wire Stream A) (k : A -> wire Stream B) s a s' : m s = (Good a, s') -> wire_bind m k s = k a s'.
Proof. unfold wire_bind. by intros ->. Qed.
Lemma wire_bind_bad {A B} (m : wire Stream A) (k : A -> wire Stream B) s e s' : m s = (Bad e, s') -> wire_bind m k s = (Bad e, s').
Proof. unfold wire_bind. by intros ->. Qed.

(** A frame of which all came is read, and one that was cut is an error *)
Lemma read_frame_came k f rest s :
  wf_ok f -> came k (wf_bytes f ++ rest) s ->
  (k < length (wf_bytes f))%nat /\ (exists s', read_frame s = (Bad (sr_ended s), s')) \/
  (length (wf_bytes f) <= k)%nat /\ read_frame s = (Good (wf_first f, wf_data f), set_input (take (k - length (wf_bytes f)) rest) s).
Proof.
  intros Hok Hc. destruct Hok as (Hf & Hm & Hl) eqn:Eok. clear Eok. set (n := N.of_nat (length (wf_data f))) in *. set (second := N.lor (wf_flag f) (short_length n)).
  assert (wf_bytes f = [ascii_of_N (wf_first f); ascii_of_N second] ++ more_length n ++ default [] (wf_mask f) ++ wf_payload f) as Eb by (unfold wf_bytes; by rewrite length_bytes_split).
  destruct (second_byte (wf_flag f) (short_length n)) as (E127 & E128 & E256); [unfold wf_flag; destruct (wf_mask f); auto|apply short_length_small|]. fold second in E127, E128, E256.
  assert ((n < 2 ^ 64)%N) as Hn by (unfold isize_max in Hl; lia).
  rewrite Eb in *. rewrite !length_app in *. cbn [length] in *. rewrite <- !app_assoc in Hc.
  unfold read_frame. destruct (take_bytes_came _ _ _ _ Hc) as [[Hk [s' E]]|[Hk E]]; cbn [length] in *; change (N.of_nat 2) with 2%N in E;
    [left; split; [lia|rewrite (wire_bind_bad _ _ _ _ _ E); by eexists]|rewrite (wire_bind_good _ _ _ _ _ E)]. clear E.
  cbn [List.nth]. rewrite !N_ascii_embedding, E127, E128 by done. fold (read_length (short_length n)). set (s1 := set_input _ s).
  destruct (read_length_came (k - 2) n (default [] (wf_mask f) ++ wf_payload f ++ rest) s1 Hn eq_refl) as [[Hk1 [s' E1]]|[Hk1 E1]];
    [left; split; [lia|rewrite (wire_bind_bad _ _ _ _ _ E1); by eexists]|rewrite (wire_bind_good _ _ _ _ _ E1)]. clear E1. set (s2 := set_input _ s1).
  assert (negb (wf_flag f =? 0)%N = bool_decide (is_Some (wf_mask f))) as -> by (unfold wf_flag; by destruct (wf_mask f)). fold (read_mask (bool_decide (is_Some (wf_mask f)))).
  destruct (read_mask_came (k - 2 - length (more_length n)) f (wf_payload f ++ rest) s2 (conj Hf (conj Hm Hl)) eq_refl) as [[Hk2 [s' E2]]|[Hk2 E2]];
    [left; split; [lia|rewrite (wire_bind_bad _ _ _ _ _ E2); by eexists]|rewrite (wire_bind_good _ _ _ _ _ E2)]. clear E2. set (s3 := set_input _ s2).
  assert ((isize_max <? n)%N = false) as -> by (apply N.ltb_ge; done).
  destruct (take_bytes_came (k - 2 - length (more_length n) - length (default [] (wf_mask f))) (wf_payload f) rest s3 eq_refl) as [[Hk3 [s' E3]]|[Hk3 E3]];
    rewrite (wf_payload_length f) in E3 at 1; fold n in E3; [left; split; [lia|rewrite (wire_bind_bad _ _ _ _ _ E3); by eexists]|rewrite (wire_bind_good _ _ _ _ _ E3); right].
  split; [lia|]. unfold wire_ret. f_equal.
  - f_equal. f_equal. unfold wf_payload. destruct (wf_mask f) as [mask|]; simpl; [apply masked_twice|done].
  - unfold set_input. cbn. f_equal. f_equal. lia.
Qed.

(** *** What frames say *)

(** The pings to answer, and what is heard of some frames with how many of them, if they say it *)
Fixpoint heard (frames : list WireFrame) (message : list ascii) : list (list ascii) * option (outcome string string * nat) :=
  match frames with
  | [] => ([], None)
  | f :: frames =>
    let opcode := N.land (wf_first f) 15 in
    let next message := let '(pings, r) := heard frames message in (pings, (fun p => (p.1, S p.2)) <$> r) in
    if (opcode =? 8)%N then ([], Some (Bad "it closed the connection", 1%nat))
    else if (opcode =? 9)%N then let '(pings, r) := next message in (wf_data f :: pings, r)
    else if (opcode <=? 2)%N then
      if negb (N.land (wf_first f) 128 =? 0)%N then ([], Some (Good (from_utf8_lossy (String.string_of_list_ascii (message ++ wf_data f))), 1%nat)) else next (message ++ wf_data f)
    else next message
  end.

(** The frames of which all bytes are among the first [k] *)
Fixpoint arrived (k : nat) (frames : list WireFrame) : list WireFrame :=
  match frames with
  | [] => []
  | f :: frames => if decide (length (wf_bytes f) <= k)%nat then f :: arrived (k - length (wf_bytes f)) frames else []
  end.

(** The answer to a ping, as the write that it is *)
Definition pong (i : nat) (data : list ascii) : list ascii := wf_bytes (mkWireFrame 138 (Some (be_bytes 4 (N.lor (nanos i) 1))) data).
Fixpoint pongs (i : nat) (pings : list (list ascii)) : list (list ascii) := match pings with [] => [] | data :: pings => pong i data :: pongs (S i) pings end.

Lemma frame_writes opcode data s :
  sr_writes s = [] ->
  frame opcode data s = (Good tt, mkStream (sr_input s) (sr_ended s) [] (sr_output s ++ [wf_bytes (mkWireFrame (N.lor 128 opcode) (Some (be_bytes 4 (N.lor (nanos (length (sr_output s))) 1))) data)])).
Proof. unfold frame, write_bytes. by intros ->. Qed.

Lemma wf_bytes_length f : (2 <= length (wf_bytes f))%nat.
Proof. unfold wf_bytes. rewrite length_bytes_split. simpl. lia. Qed.

Lemma read_nothing s : sr_input s = [] -> exists s', read_frame s = (Bad (sr_ended s), s') /\ sr_output s' = sr_output s.
Proof. intros E. unfold read_frame, wire_bind, take_bytes. rewrite E. simpl. by eexists. Qed.

Lemma read_frame_output s : sr_output (read_frame s).2 = sr_output s.
Proof.
  assert (forall n s, sr_output (take_bytes n s).2 = sr_output s) as Ht by (intros n s0; unfold take_bytes; by destruct (_ <=? _)%N).
  assert (forall A B (m : wire Stream A) (k : A -> wire Stream B), (forall s, sr_output (m s).2 = sr_output s) -> (forall a s, sr_output (k a s).2 = sr_output s) -> forall s, sr_output (wire_bind m k s).2 = sr_output s) as Hb.
  { intros A B m k Hm Hk s0. unfold wire_bind. specialize (Hm s0). destruct (m s0) as [[a| |] s1]; simpl in *; [by rewrite Hk|done..]. }
  unfold read_frame. apply Hb; [apply Ht|]. intros head s0. apply Hb.
  - intros s1. destruct (_ =? 126)%N; [by apply Hb|]. destruct (_ =? 127)%N; [by apply Hb|done].
  - intros len s1. apply Hb; [intros s2; destruct (negb _); [apply Ht|done]|]. intros mask s2. destruct (_ <? _)%N; [done|]. by apply Hb.
Qed.

Lemma receive_go_came frames : forall k message s fuel,
  Forall wf_ok frames -> came k (flat_map wf_bytes frames) s -> sr_writes s = [] -> (length (sr_input s) < fuel)%nat ->
  let '(pings, r) := heard (arrived k frames) message in
  exists s', receive_go fuel message s = Some (match r with Some (result, _) => result | None => Bad (sr_ended s) end, s') /\
    sr_output s' = sr_output s ++ pongs (length (sr_output s)) pings /\
    forall result m, r = Some (result, m) -> sr_input s' = drop (length (flat_map wf_bytes (take m frames))) (sr_input s) /\ sr_writes s' = [].
Proof.
  induction frames as [|f frames IH]; intros k message s fuel Hok Hc Hw Hf; (destruct fuel as [|fuel]; [lia|]); cbn [receive_go].
  { unfold came in Hc. simpl in Hc. rewrite take_nil in Hc. destruct (read_nothing s Hc) as (s' & E & Eo). cbn. rewrite E. exists s'. split_and!; [done|by rewrite Eo, app_nil_r|done]. }
  inversion_clear Hok as [|? ? Hf1 Hfs]. pose proof (read_frame_output s) as Ho. pose proof (wf_bytes_length f) as Hlen.
  destruct (read_frame_came k f (flat_map wf_bytes frames) s Hf1 Hc) as [[Hk [s' E]]|[Hk E]]; rewrite E in *; cbn [arrived]; [rewrite decide_False by lia|rewrite decide_True by lia].
  { cbn. exists s'. split_and!; [done|by rewrite app_nil_r|done]. }
  cbn [snd] in Ho. set (s1 := set_input _ s) in *. cbn [heard]. set (opcode := N.land (wf_first f) 15).
  assert (length (sr_input s1) + length (wf_bytes f) <= length (sr_input s))%nat as Hless.
  { unfold came in Hc. rewrite Hc. subst s1. cbn [sr_input set_input]. cbn [flat_map]. rewrite take_app_ge, length_app by lia. lia. }
  assert (drop (length (wf_bytes f)) (sr_input s) = sr_input s1) as Hdrop.
  { unfold came in Hc. rewrite Hc. subst s1. cbn [sr_input set_input flat_map]. rewrite take_app_ge by lia. apply drop_app_length. }
  assert (forall x y t, sr_input t = sr_input s1 -> sr_input y = drop (length (flat_map wf_bytes (take x frames))) (sr_input t) ->
            sr_input y = drop (length (flat_map wf_bytes (take (S x) (f :: frames)))) (sr_input s)) as Hnext.
  { intros x y t Et Ey. cbn [take flat_map]. rewrite length_app, <- drop_drop, Hdrop, <- Et. exact Ey. }
  destruct (opcode =? 8)%N; [|destruct (opcode =? 9)%N; [|destruct (opcode <=? 2)%N; [destruct (negb _)|]]].
  - exists s1. split_and!; [done|by rewrite app_nil_r|]. intros ? ? [= <- <-]. split; [|done]. cbn [take flat_map]. by rewrite take_0, app_nil_r, Hdrop.
  - rewrite frame_writes by done. set (s2 := mkStream _ _ _ _). specialize (IH (k - length (wf_bytes f))%nat message s2 fuel Hfs eq_refl eq_refl).
    destruct (heard (arrived (k - length (wf_bytes f)) frames) message) as [pings r]. destruct IH as (s' & -> & Eo & Ein); [subst s2; cbn [sr_input]; lia|].
    exists s'. split_and!.
    + by destruct r as [[]|].
    + rewrite Eo. subst s2. cbn [sr_output pongs]. rewrite <- app_assoc, length_app, Nat.add_1_r. done.
    + intros result m. destruct r as [[res m0]|]; [|done]. cbn. intros [= <- <-]. destruct (Ein _ _ eq_refl) as [Ei Ew]. split; [by apply (Hnext m0 s' s2)|done].
  - exists s1. split_and!; [done|by rewrite app_nil_r|]. intros ? ? [= <- <-]. split; [|done]. cbn [take flat_map]. by rewrite take_0, app_nil_r, Hdrop.
  - specialize (IH (k - length (wf_bytes f))%nat (message ++ wf_data f) s1 fuel Hfs eq_refl Hw).
    destruct (heard (arrived (k - length (wf_bytes f)) frames) (message ++ wf_data f)) as [pings r]. destruct IH as (s' & -> & Eo & Ein); [lia|].
    exists s'. split_and!; [by destruct r as [[]|]|done|]. intros result m. destruct r as [[res m0]|]; [|done]. cbn. intros [= <- <-]. destruct (Ein _ _ eq_refl) as [Ei Ew]. split; [by apply (Hnext m0 s' s1)|done].
  - specialize (IH (k - length (wf_bytes f))%nat message s1 fuel Hfs eq_refl Hw).
    destruct (heard (arrived (k - length (wf_bytes f)) frames) message) as [pings r]. destruct IH as (s' & -> & Eo & Ein); [lia|].
    exists s'. split_and!; [by destruct r as [[]|]|done|]. intros result m. destruct r as [[res m0]|]; [|done]. cbn. intros [= <- <-]. destruct (Ein _ _ eq_refl) as [Ei Ew]. split; [by apply (Hnext m0 s' s1)|done].
Qed.

End Reading.

(** *** A message in two frames, and a ping between them *)

Section Sample.
#[local] Instance sample_json : JsonText := {| to_text := fun _ => ""; from_text := fun _ => None |}.
#[local] Instance sample_world : MessageWorld := {| connect := fun _ => inl ""; nanos := fun i => N.of_nat i; version := "1" |}.

Definition sample_frames : list WireFrame :=
  [mkWireFrame 1 None (String.list_ascii_of_string "he"); mkWireFrame 137 None (String.list_ascii_of_string "now"); mkWireFrame 128 (Some (be_bytes 4 77)) (String.list_ascii_of_string "llo")].
Definition sample_stream : Stream := mkStream (flat_map wf_bytes sample_frames) "the end" [] [].

Lemma sample_frames_ok : Forall wf_ok sample_frames.
Proof. repeat apply Forall_cons_2; try apply Forall_nil_2; (split_and!; [done|by intros ? [= <-]|done]). Qed.

Example sample_received : (receive sample_stream).1 = Good "hello" /\ length (sr_output (receive sample_stream).2) = 1%nat.
Proof. by vm_compute. Qed.


(** A length that no [Vec] has *)
Example too_long_panics : (receive (mkStream (List.map ascii_of_N [129; 127; 128; 0; 0; 0; 0; 0; 0; 0]%N) "the end" [] [])).1 = Crash.
Proof. by vm_compute. Qed.
End Sample.
