(* ===== verification/Delivery.v ===== *)
(** * Messages that wait, and how they are handed over: [crates/kanna-daemon/src/tasks.rs]

    A message waits until an agent has taken it.  On a tick those for a pane that is ready are
    handed over together; the post is answered later, and the agent takes them at once, reads them
    when its turn is over, or has them in a queue that is looked at now and then.  The state is what
    [Tasks] keeps of that; what a handler finds outside (the clock, panes and their agents, where
    a message goes) is a [MailEnv]; what it asks for is kept in order. *)

From Stdlib Require Import Ascii.
From stdpp Require Import relations.
From S2P Require Import Prelude Text F64 Json Pipe Schedule Runs PeerLog Utf8 Frame Replica Stacks Tasks Messages.

#[local] Open Scope Z_scope.

#[export] Instance Channel_eq_dec : EqDecision Channel.
Proof. solve_decision. Defined.
#[export] Instance Comment_eq_dec : EqDecision Comment.
Proof. solve_decision. Defined.

(** ** State *)

Record QueuedMail := mkQueuedMail { qd_thread : string; qd_list : list Message }.

(** What was asked for: a post, a look at a queue, a comment to mark as sent, a warning *)
Inductive Asked :=
| AskPost (token : N) (text : string) (mode : option string) (first : Z) (idle : bool)
| AskQueue (pane : string) (mine : list (string * string)) (start : bool)
| AskSent (comment : Comment)
| AskWarn (pane why : string).

Record Mail := mkMail {
  ml_waiting : list Message;
  ml_ready : gmap string Ready;
  ml_warned : gmap string string;
  ml_turns : gmap string Turn;
  ml_delivering : gset string;
  ml_posting : gmap N (string * list Message * Channel);
  ml_unread : gmap string (Channel * list Message);
  ml_queued : gmap string QueuedMail;
  ml_checks : gmap string Instant;
  ml_stalled : gset string;
  ml_next : N;
  ml_taken : list (string * Message);
  ml_asked : list Asked }.

Definition set_waiting v m := mkMail v (ml_ready m) (ml_warned m) (ml_turns m) (ml_delivering m) (ml_posting m) (ml_unread m) (ml_queued m) (ml_checks m) (ml_stalled m) (ml_next m) (ml_taken m) (ml_asked m).
Definition set_ready_of v m := mkMail (ml_waiting m) v (ml_warned m) (ml_turns m) (ml_delivering m) (ml_posting m) (ml_unread m) (ml_queued m) (ml_checks m) (ml_stalled m) (ml_next m) (ml_taken m) (ml_asked m).
Definition set_warned v m := mkMail (ml_waiting m) (ml_ready m) v (ml_turns m) (ml_delivering m) (ml_posting m) (ml_unread m) (ml_queued m) (ml_checks m) (ml_stalled m) (ml_next m) (ml_taken m) (ml_asked m).
Definition set_turns v m := mkMail (ml_waiting m) (ml_ready m) (ml_warned m) v (ml_delivering m) (ml_posting m) (ml_unread m) (ml_queued m) (ml_checks m) (ml_stalled m) (ml_next m) (ml_taken m) (ml_asked m).
Definition set_posting d v m := mkMail (ml_waiting m) (ml_ready m) (ml_warned m) (ml_turns m) d v (ml_unread m) (ml_queued m) (ml_checks m) (ml_stalled m) (ml_next m) (ml_taken m) (ml_asked m).
Definition set_unread v m := mkMail (ml_waiting m) (ml_ready m) (ml_warned m) (ml_turns m) (ml_delivering m) (ml_posting m) v (ml_queued m) (ml_checks m) (ml_stalled m) (ml_next m) (ml_taken m) (ml_asked m).
Definition set_queued v m := mkMail (ml_waiting m) (ml_ready m) (ml_warned m) (ml_turns m) (ml_delivering m) (ml_posting m) (ml_unread m) v (ml_checks m) (ml_stalled m) (ml_next m) (ml_taken m) (ml_asked m).
Definition set_checks v m := mkMail (ml_waiting m) (ml_ready m) (ml_warned m) (ml_turns m) (ml_delivering m) (ml_posting m) (ml_unread m) (ml_queued m) v (ml_stalled m) (ml_next m) (ml_taken m) (ml_asked m).
Definition set_stalled v m := mkMail (ml_waiting m) (ml_ready m) (ml_warned m) (ml_turns m) (ml_delivering m) (ml_posting m) (ml_unread m) (ml_queued m) (ml_checks m) v (ml_next m) (ml_taken m) (ml_asked m).
Definition set_taken v m := mkMail (ml_waiting m) (ml_ready m) (ml_warned m) (ml_turns m) (ml_delivering m) (ml_posting m) (ml_unread m) (ml_queued m) (ml_checks m) (ml_stalled m) (ml_next m) v (ml_asked m).
Definition ask (a : list Asked) m := mkMail (ml_waiting m) (ml_ready m) (ml_warned m) (ml_turns m) (ml_delivering m) (ml_posting m) (ml_unread m) (ml_queued m) (ml_checks m) (ml_stalled m) (ml_next m) (ml_taken m) (ml_asked m ++ a).
Definition set_next v m := mkMail (ml_waiting m) (ml_ready m) (ml_warned m) (ml_turns m) (ml_delivering m) (ml_posting m) (ml_unread m) (ml_queued m) (ml_checks m) (ml_stalled m) v (ml_taken m) (ml_asked m).

Definition mail_new (waiting : list Message) : Mail := mkMail waiting ∅ ∅ ∅ ∅ ∅ ∅ ∅ ∅ ∅ 0 [] [].

(** What a handler finds: [recipient_pane], [channel], [permissions] and [age] of a pane, whether it
    quits or is set up, the status its core pane has, and [label] *)
Record MailEnv := mkEnv {
  me_now : Instant;
  me_recipient : Message -> option string;
  me_channel : string -> option Channel;
  me_permissions : string -> option string;
  me_age : string -> option Z;
  me_busy : string -> bool;
  me_status : string -> option Status;
  me_label : string -> string }.

Definition RETRY : Z := from_secs 5.
Definition PICKUP : Z := from_secs 5.
Definition TURN_TIMEOUT : Z := from_secs 15.
Definition CHECK : Z := from_secs 2.
Definition MAIL_GRACE : Z := from_secs 20.
Definition AGENTS : list string := ["claude"; "codex"].

(** [Some(next.map_or(at, |n| n.min(at)))] *)
Definition sooner (next : option Instant) (at_ : Instant) : option Instant := Some (match next with Some n => Z.min n at_ | None => at_ end).

(** ** Handlers *)

Section Handlers.
Context {order : HashOrder} (env : MailEnv).

(** [mark_sent]: comments that no message waits with any more *)
Definition mark_sent (mails : list Message) (m : Mail) : Mail :=
  ask (omap (fun x => c ← mg_comment x; if existsb (fun w => bool_decide (mg_comment w = Some c)) (ml_waiting m) then None else Some (AskSent c)) mails) m.

(** The messages are marked in kanna.db, their comments as sent, and the pane's task notes each *)
Definition took (pane : string) (mails : list Message) (m : Mail) : Mail :=
  let m := set_waiting (retain (fun x => negb (bool_decide (mg_id x ∈ map mg_id mails))) (ml_waiting m)) m in
  let m := mark_sent mails m in
  set_taken (ml_taken m ++ map (fun x => (pane, x)) mails) m.

Definition undeliverable (channel : Channel) : option string :=
  match channel with
  | OtherAgent agent => Some (agent +:+ " can't take messages: only " +:+ join " and " AGENTS +:+ " can")
  | Claude (inl why) | Codex (inl why) => Some why
  | _ => None
  end.

(** [GRACE.checked_sub(age)], where it is not zero *)
Definition coming_up (pane : string) (channel : Channel) : option Z :=
  match channel with
  | Claude (inl _) | Codex (inl _) => age ← me_age env pane; if age <? MAIL_GRACE then Some (MAIL_GRACE - age) else None
  | _ => None
  end.

Fixpoint all_modes (theirs : option string) (mails : list Message) : option (list string) :=
  match mails with
  | [] => Some []
  | x :: mails => mode ← (if yours (mg_sender x) then theirs else mg_mode x); modes ← all_modes theirs mails; Some (mode :: modes)
  end.
Definition mode_of (pane : string) (mails : list Message) : option string :=
  modes ← all_modes (me_permissions env pane) mails;
  Some (if forallb (fun mode => bool_decide (mode = BYPASS)) modes then BYPASS else MODE_PROMPTING).
Definition attested (pane : string) (mails : list Message) : bool :=
  match me_permissions env pane with Some theirs => bool_decide (mode_of pane mails = Some theirs) | None => false end.

Definition warn (pane why : string) (m : Mail) : Mail :=
  if bool_decide (ml_warned m !! pane = Some why) then m else ask [AskWarn pane why] (set_warned (<[pane := why]> (ml_warned m)) m).
Definition unknown (pane why : string) (at_ : Instant) (next : option Instant) (m : Mail) : option Instant * Mail :=
  if at_ <=? me_now env then (next, warn pane why m) else (sooner next at_, m).

Definition hand_over (pane : string) (mails : list Message) (channel : Channel) (idle : bool) (m : Mail) : Mail :=
  let named who := if is_task_id who then me_label env who else who in
  let text := prompt (map (fun x => (match mg_comment x with None => Some (named (mg_sender x)) | Some _ => None end, mg_text x)) mails) in
  let token := (ml_next m + 1)%N in
  ask [AskPost token text (mode_of pane mails) (match mails with x :: _ => mg_id x | [] => 0 end) idle]
    (set_posting ({[pane]} ∪ ml_delivering m) (<[token := (pane, mails, channel)]> (ml_posting m)) (set_next token m)).

Definition has_id (mails : list Message) (id : Z) : bool := existsb (fun x => mg_id x =? id) mails.
Definition not_posted (pane : string) (mails : list Message) (m : Mail) : list Message :=
  let posted := match ml_unread m !! pane with Some (_, posted) => posted | None => [] end in
  retain (fun x => negb (has_id posted (mg_id x) || existsb (fun q => has_id (qd_list q.2) (mg_id x)) (map_to_list (ml_queued m)))) mails.

(** What a pane's messages are queued as *)
Definition queued_as (mails : list Message) (m : Mail) : list (string * string) :=
  omap (fun submission => q ← ml_queued m !! submission; if existsb (fun x => has_id mails (mg_id x)) (qd_list q) then Some (submission, qd_thread q) else None) (hash_iter (dom (ml_queued m))).

Definition check_queue (pane : string) (channel : Channel) (mails : list Message) (next : option Instant) (m : Mail) : option Instant * Mail :=
  let mine := queued_as mails m in
  match mine with
  | [] => (next, m)
  | _ =>
    match channel with
    | Codex (inr socket) =>
      let at_ := default (me_now env) (ml_checks m !! pane) in
      let next := sooner next (Z.max at_ (me_now env + CHECK)) in
      if me_now env <? at_ then (next, m)
      else (next, ask [AskQueue pane mine (bool_decide (pane ∈ ml_stalled m))] (set_checks (<[pane := me_now env + TURN_TIMEOUT]> (ml_checks m)) m))
    | _ => (next, set_queued (filter (fun q => q.1 ∉ map fst mine) (ml_queued m)) m)
    end
  end.

Definition read_up_pane (m : Mail) (pane : string) : Mail :=
  match ml_unread m !! pane with
  | None => m
  | Some (channel, mails) =>
    if negb (bool_decide (me_channel env pane = Some channel)) then set_unread (delete pane (ml_unread m)) m
    else if bool_decide ((r ← ml_ready m !! pane; rd_status r) = Some Idle) then took pane mails (set_unread (delete pane (ml_unread m)) m)
    else m
  end.
Definition read_up (m : Mail) : Mail := foldl read_up_pane m (hash_iter (dom (ml_unread m))).

(** The messages that wait, by the pane they go to *)
Fixpoint add_mail (pane : string) (x : Message) (by_pane : list (string * list Message)) : list (string * list Message) :=
  match by_pane with
  | [] => [(pane, [x])]
  | (p, mails) :: by_pane => if decide (p = pane) then (p, mails ++ [x]) :: by_pane else (p, mails) :: add_mail pane x by_pane
  end.
Definition mail_by_pane (waiting : list Message) : list (string * list Message) :=
  foldl (fun by_pane x => match me_recipient env x with Some pane => add_mail pane x by_pane | None => by_pane end) [] waiting.

Definition see_first (m : Mail) (pane : string) : Mail :=
  match ml_ready m !! pane with
  | Some _ => m
  | None => set_ready_of (<[pane := ready_see (me_status env pane) (me_now env) (ready_new (me_now env))]> (ml_ready m)) m
  end.

Definition deliver_pane (st : option Instant * Mail) (mail : string * list Message) : option Instant * Mail :=
  let '(next, m) := st in
  let '(pane, mails) := mail in
  if bool_decide (pane ∈ ml_delivering m) || me_busy env pane then st
  else match ml_ready m !! pane with
  | None => st
  | Some ready =>
    match me_channel env pane with
    | None => match ready_unknown ready with Some at_ => unknown pane "its terminal runs no agent Kanna can reach" at_ next m | None => st end
    | Some channel =>
      let '(next, m) := check_queue pane channel mails next m in
      let mails := not_posted pane mails m in
      match mails with
      | [] => (next, m)
      | _ =>
        match ready_at ready with
        | Some at_ =>
          if at_ <=? me_now env then
            match undeliverable channel with
            | Some why =>
              let coming := coming_up pane channel in
              let retry := me_now env + match coming with Some left_ => Z.min left_ RETRY | None => RETRY end in
              (sooner next retry, match coming with None => warn pane why m | Some _ => m end)
            | None => (next, hand_over pane mails channel true m)
            end
          else (sooner next at_, m)
        | None =>
          match undeliverable channel with
          | Some why =>
            match coming_up pane channel with
            | Some left_ => (sooner next (me_now env + Z.min left_ RETRY), m)
            | None => match ready_unknown ready with Some at_ => unknown pane why at_ next m | None => (next, m) end
            end
          | None =>
            if mid_turn channel (rd_status ready) (attested pane mails) then
              if rd_since ready <=? me_now env then (next, hand_over pane mails channel false m) else (sooner next (rd_since ready), m)
            else (next, m)
          end
        end
      end
    end
  end.

(** [Tasks::deliver]: when to look again *)
Definition deliver_mail (m : Mail) : option Instant * Mail :=
  let m := read_up m in
  match ml_waiting m with
  | [] => (None, m)
  | waiting =>
    let by_pane := mail_by_pane waiting in
    foldl deliver_pane (None, foldl see_first m (map fst by_pane)) by_pane
  end.

Definition handed (pane : string) (mails : list Message) (channel : Channel) (result : string + Posted) (m : Mail) : Mail :=
  let m := set_posting (ml_delivering m ∖ {[pane]}) (ml_posting m) m in
  let m := match ml_ready m !! pane with Some ready => set_ready_of (<[pane := ready_sent (me_now env) ready]> (ml_ready m)) m | None => m end in
  match result with
  | inl error => match channel with Codex _ => warn pane error m | _ => m end
  | inr posted =>
    let m := set_warned (delete pane (ml_warned m)) m in
    let status := me_status env pane in
    let m := match ml_turns m !! pane with Some _ => set_turns (<[pane := turn_see status (me_now env + PICKUP) underway]> (ml_turns m)) m | None => m end in
    match posted with
    | Messages.Queued thread submission => set_queued (<[submission := mkQueuedMail thread mails]> (ml_queued m)) m
    | Given =>
      if bool_decide (status = Some Working) then
        set_unread (<[pane := match ml_unread m !! pane with Some (c, posted) => (c, posted ++ mails) | None => (channel, mails) end]> (ml_unread m)) m
      else took pane mails m
    end
  end.

Definition posted (token : N) (result : string + Posted) (m : Mail) : Mail :=
  match ml_posting m !! token with
  | Some (pane, mails, channel) => handed pane mails channel result (set_posting (ml_delivering m) (delete token (ml_posting m)) m)
  | None => m
  end.

Definition check_one (pane : string) (state : QueueState) (m : Mail) (mine : string * string) : Mail :=
  let submission := mine.1 in
  if bool_decide (submission ∈ qs_moved state) then set_queued (delete submission (ml_queued m)) m
  else if bool_decide (submission ∈ qs_queued state) then m
  else match ml_queued m !! submission with
       | Some q => took pane (qd_list q) (set_queued (delete submission (ml_queued m)) m)
       | None => m
       end.
Definition checked (pane : string) (mine : list (string * string)) (state : string + QueueState) (m : Mail) : Mail :=
  let m := set_checks (<[pane := me_now env + CHECK]> (ml_checks m)) m in
  match state with
  | inl _ => m
  | inr state =>
    let m := foldl (check_one pane state) m mine in
    set_stalled (if qs_idle state && negb (bool_decide (qs_queued state = [])) then {[pane]} ∪ ml_stalled m else ml_stalled m ∖ {[pane]}) m
  end.

(** [queue], once the message is saved *)
Definition queue_mail (x : Message) (m : Mail) : Mail := set_waiting (ml_waiting m ++ [x]) m.

(** Of [status], what an agent's status does to whether it is ready and to its turn *)
Definition status_seen (pane : string) (status : option Status) (ended : bool) (m : Mail) : Mail :=
  let now := me_now env in
  let ready := default (ready_new now) (ml_ready m !! pane) in
  let ready := if ended && bool_decide (status = Some Idle) then ready_see (Some Working) now ready else ready in
  let m := set_ready_of (<[pane := ready_see status now ready]> (ml_ready m)) m in
  match ml_turns m !! pane with
  | Some turn => set_turns (<[pane := turn_see status now (if ended then turn_see (Some Working) now turn else turn)]> (ml_turns m)) m
  | None => m
  end.

(** Of [exited], what is forgotten of a pane *)
Definition pane_gone (pane : string) (m : Mail) : Mail :=
  set_warned (delete pane (ml_warned m)) (set_ready_of (delete pane (ml_ready m)) (set_turns (delete pane (ml_turns m)) m)).
End Handlers.

(** ** What becomes of messages *)

Notation ids := (map mg_id).

Section Lists.
Context {K V : Type} `{Countable K} (f : V -> list Message).

(** All that the values of a map hold *)
Definition held_in (m : gmap K V) : list Message := flat_map (fun p => f p.2) (map_to_list m).

Lemma held_in_insert k v m : m !! k = None -> held_in (<[k := v]> m) ≡ₚ f v ++ held_in m.
Proof. intros Hk. unfold held_in. rewrite (map_to_list_insert m k v Hk). done. Qed.

Lemma held_in_delete k v m : m !! k = Some v -> held_in m ≡ₚ f v ++ held_in (delete k m).
Proof. intros Hk. rewrite <- (insert_delete_id m k v Hk) at 1. apply held_in_insert, lookup_delete_eq. Qed.

Lemma held_in_replace k v m : held_in (<[k := v]> m) ≡ₚ f v ++ held_in (delete k m).
Proof. rewrite <- insert_delete_eq. apply held_in_insert, lookup_delete_eq. Qed.

Lemma held_in_sub m m' : m ⊆ m' -> held_in m ⊆+ held_in m'.
Proof.
  intros Hs. apply map_to_list_submseteq in Hs. unfold held_in. induction Hs as [|x l k _ IH|x y l|x l k _ IH|l k j _ IH1 _ IH2]; simpl; [done|by apply submseteq_app|..].
  - rewrite !(assoc_L (++)). apply submseteq_app; [|done]. by rewrite (comm (++)).
  - by apply submseteq_inserts_l.
  - by etrans.
Qed.

Lemma elem_of_held_in x m : x ∈ held_in m <-> exists k v, m !! k = Some v /\ x ∈ f v.
Proof.
  unfold held_in. rewrite list_elem_of_In, in_flat_map. split.
  - intros ([k v] & Hp & Hx). rewrite <- list_elem_of_In in Hp. apply elem_of_map_to_list in Hp. exists k, v. by rewrite list_elem_of_In.
  - intros (k & v & Hp & Hx). exists (k, v). rewrite <- list_elem_of_In. split; [by apply elem_of_map_to_list|by rewrite <- list_elem_of_In].
Qed.
End Lists.

Lemma NoDup_submseteq {A} (l k : list A) : l ⊆+ k -> NoDup k -> NoDup l.
Proof. intros [j ->]%submseteq_Permutation. rewrite NoDup_app. naive_solver. Qed.

Definition post_list (p : string * list Message * Channel) : list Message := p.1.2.
Definition unread_list (p : Channel * list Message) : list Message := p.2.

(** The messages that are being posted, that are unread, or that are queued *)
Definition hands (m : Mail) : list Message := held_in post_list (ml_posting m) ++ held_in unread_list (ml_unread m) ++ held_in qd_list (ml_queued m).

(** What holds between handlers, with some messages in none of these but on their way *)
Definition mail_inv (moving : list Message) (all : list Z) (m : Mail) : Prop :=
  all ≡ₚ ids (ml_waiting m) ++ map (fun p => mg_id p.2) (ml_taken m) /\
  NoDup all /\
  NoDup (ids (moving ++ hands m)) /\
  (forall id, id ∈ ids (moving ++ hands m) -> id ∈ ids (ml_waiting m)) /\
  (forall token p, ml_posting m !! token = Some p -> p.1.1 ∈ ml_delivering m /\ (token <= ml_next m)%N) /\
  (forall token token' p p', ml_posting m !! token = Some p -> ml_posting m !! token' = Some p' -> p.1.1 = p'.1.1 -> token = token').

Lemma mail_inv_hands moving moving' all m m' :
  mail_inv moving all m -> ml_waiting m' = ml_waiting m -> ml_taken m' = ml_taken m -> moving' ++ hands m' ⊆+ moving ++ hands m ->
  (forall token p, ml_posting m' !! token = Some p -> ml_posting m !! token = Some p /\ p.1.1 ∈ ml_delivering m') -> ml_next m' = ml_next m -> mail_inv moving' all m'.
Proof.
  intros (H1 & H2 & H3 & H4 & H5 & H6) Ew Et Hs Hp En. unfold mail_inv. rewrite Ew, Et, En. assert (ids (moving' ++ hands m') ⊆+ ids (moving ++ hands m)) as Hi by (by apply fmap_submseteq).
  split_and!; [done|done|by eapply NoDup_submseteq|..].
  - intros id Hid. apply H4. by eapply elem_of_submseteq.
  - intros token p Hx. destruct (Hp _ _ Hx) as [Hx' Hd]. split; [done|by apply (H5 _ _ Hx')].
  - intros token token' p p' Hx Hy. apply Hp in Hx as [Hx _], Hy as [Hy _]. by eapply H6.
Qed.

Lemma mail_inv_release moving all m : mail_inv moving all m -> mail_inv [] all m.
Proof.
  intros Hi. eapply mail_inv_hands; [done|done|done| |intros token p Hx|done]; [simpl; by apply submseteq_inserts_l|]. split; [done|]. destruct Hi as (_ & _ & _ & _ & H5 & _). by apply (H5 token).
Qed.

(** Messages that are taken wait no more *)
Lemma retain_taken l w : NoDup (ids w) -> NoDup (ids l) -> (forall id, id ∈ ids l -> id ∈ ids w) ->
  ids w ≡ₚ ids (retain (fun x => negb (bool_decide (mg_id x ∈ ids l))) w) ++ ids l.
Proof.
  intros Hw Hl Hs. assert (forall i : Z, i ∈ ids (retain (fun x => negb (bool_decide (mg_id x ∈ ids l))) w) <-> i ∈ ids w /\ i ∉ ids l) as Hr.
  { intros i. clear. generalize (ids l). intros L. rewrite !list_elem_of_fmap. split.
    - intros (x & -> & [Hn Hx]%elem_of_retain). apply negb_true_iff, bool_decide_eq_false in Hn. split; [by exists x|done].
    - intros [(x & -> & Hx) Hn]. exists x. split; [done|]. apply elem_of_retain. split; [|done]. by apply negb_true_iff, bool_decide_eq_false. }
  apply NoDup_Permutation; [done| |].
  - apply NoDup_app. split_and!; [|by intros i [_ ?]%Hr|done]. apply (NoDup_submseteq _ (ids w)); [|done]. refine (fmap_submseteq mg_id _ _ _). apply sublist_submseteq, retain_sublist.
  - intros i. rewrite elem_of_app, Hr. destruct (decide (i ∈ ids l)); naive_solver.
Qed.

Lemma mail_inv_waiting moving all m : mail_inv moving all m -> NoDup (ids (ml_waiting m)).
Proof. intros (H1 & H2 & _). rewrite H1 in H2. by apply NoDup_app in H2 as [? _]. Qed.

Lemma mail_inv_took pane l all m : mail_inv l all m -> mail_inv [] all (took pane l m).
Proof.
  intros Hi. pose proof (mail_inv_waiting _ _ _ Hi) as Hw. destruct Hi as (H1 & H2 & H3 & H4 & H5 & H6). unfold mail_inv. cbn [took mark_sent set_taken set_waiting ask ml_waiting ml_taken ml_posting ml_delivering ml_next].
  change (hands (took pane l m)) with (hands m). rewrite map_app in H3. apply NoDup_app in H3 as (Hl & Hd & Hh).
  assert (forall id, id ∈ ids l -> id ∈ ids (ml_waiting m)) as Hs by (intros id Hid; apply H4; rewrite map_app; apply elem_of_app; by left).
  split_and!; [|done|done| |done|done].
  - rewrite H1, (retain_taken l _ Hw Hl Hs), map_app, map_map. cbn [snd]. rewrite <- !app_assoc. f_equiv. apply Permutation_app_comm.
  - intros id Hid. cbn [app] in Hid. pose proof (H4 id) as Hx. rewrite map_app, elem_of_app in Hx. specialize (Hx (or_intror Hid)).
    rewrite (retain_taken l _ Hw Hl Hs) in Hx. apply elem_of_app in Hx as [|Hx]; [done|]. exfalso. by eapply Hd.
Qed.

(** Messages that leave a list are on their way *)
Lemma mail_inv_pull_unread pane c l all m :
  mail_inv [] all m -> ml_unread m !! pane = Some (c, l) -> mail_inv l all (set_unread (delete pane (ml_unread m)) m).
Proof.
  intros Hi E. eapply mail_inv_hands; [done|done|done| |intros token p Hx; split; [done|]; destruct Hi as (_ & _ & _ & _ & H5 & _); by apply (H5 token)|done].
  unfold hands. cbn [set_unread ml_posting ml_unread ml_queued app]. rewrite (held_in_delete unread_list pane _ _ E). cbn [unread_list snd]. by rewrite <- (app_assoc l), (Permutation_app_swap_app l).
Qed.

Lemma mail_inv_pull_queued submission q all m :
  mail_inv [] all m -> ml_queued m !! submission = Some q -> mail_inv (qd_list q) all (set_queued (delete submission (ml_queued m)) m).
Proof.
  intros Hi E. eapply mail_inv_hands; [done|done|done| |intros token p Hx; split; [done|]; destruct Hi as (_ & _ & _ & _ & H5 & _); by apply (H5 token)|done].
  unfold hands. cbn [set_queued ml_posting ml_unread ml_queued app]. rewrite (held_in_delete qd_list submission _ _ E). by rewrite (Permutation_app_swap_app (qd_list q)), (Permutation_app_swap_app (qd_list q)).
Qed.

Lemma mail_inv_pull_posting token pane l c all m :
  mail_inv [] all m -> ml_posting m !! token = Some (pane, l, c) -> mail_inv l all (set_posting (ml_delivering m ∖ {[pane]}) (delete token (ml_posting m)) m).
Proof.
  intros Hi E. eapply mail_inv_hands; [done|done|done| | |done].
  - unfold hands. cbn [set_posting ml_posting ml_unread ml_queued app]. rewrite (held_in_delete post_list token _ _ E). cbn [post_list fst snd]. by rewrite <- !app_assoc.
  - intros token' p Hx. cbn [set_posting ml_posting ml_delivering] in *. apply lookup_delete_Some in Hx as [Hne Hx]. split; [done|]. destruct Hi as (_ & _ & _ & _ & H5 & H6).
    apply elem_of_difference. split; [by apply (H5 token')|]. intros Ep%elem_of_singleton. apply Hne. by apply (H6 token token' (pane, l, c) p).
Qed.

Lemma held_in_unread_add (pane : string) c l u : exists u', u' = <[pane := match u !! pane with Some (c', posted) => (c', posted ++ l) | None => (c, l) end]> u /\ held_in unread_list u' ≡ₚ l ++ held_in unread_list u.
Proof.
  eexists. split; [done|]. destruct (u !! pane) as [[c' posted]|] eqn:E.
  - rewrite held_in_replace, (held_in_delete unread_list pane _ u E). cbn [unread_list snd]. by rewrite <- app_assoc, (Permutation_app_swap_app posted).
  - by rewrite held_in_insert.
Qed.

Lemma mail_inv_keep_unread pane c l all m :
  mail_inv l all m -> mail_inv [] all (set_unread (<[pane := match ml_unread m !! pane with Some (c', posted) => (c', posted ++ l) | None => (c, l) end]> (ml_unread m)) m).
Proof.
  intros Hi. destruct (held_in_unread_add pane c l (ml_unread m)) as (u' & <- & Hu). eapply mail_inv_hands; [done|done|done| |intros token p Hx; split; [done|]; destruct Hi as (_ & _ & _ & _ & H5 & _); by apply (H5 token)|done].
  unfold hands. cbn [set_unread ml_posting ml_unread ml_queued app]. rewrite Hu. by rewrite <- (app_assoc l), (Permutation_app_swap_app l (held_in post_list (ml_posting m))).
Qed.

Lemma mail_inv_keep_queued submission thread l all m : mail_inv l all m -> mail_inv [] all (set_queued (<[submission := mkQueuedMail thread l]> (ml_queued m)) m).
Proof.
  intros Hi. eapply mail_inv_hands; [done|done|done| |intros token p Hx; split; [done|]; destruct Hi as (_ & _ & _ & _ & H5 & _); by apply (H5 token)|done].
  unfold hands. cbn [set_queued ml_posting ml_unread ml_queued app]. rewrite held_in_replace. cbn [qd_list]. rewrite (Permutation_app_swap_app _ l), (Permutation_app_swap_app _ l).
  do 3 (apply submseteq_app; [done|]). apply held_in_sub, delete_subseteq.
Qed.

(** *** Posts and looks at queues *)

Lemma handed_inv env pane l c result all m : mail_inv l all (set_posting (ml_delivering m ∖ {[pane]}) (ml_posting m) m) -> mail_inv [] all (handed env pane l c result m).
Proof.
  intros Hi. unfold handed. set (m1 := set_posting _ _ m) in *.
  set (m2 := match ml_ready m1 !! pane with Some ready => _ | None => m1 end). assert (mail_inv l all m2) as H2 by (subst m2; by destruct (ml_ready m1 !! pane)). clearbody m2. clear Hi m1.
  destruct result as [error|posted].
  - apply mail_inv_release in H2. destruct c; [done| |done]. unfold warn. by case_bool_decide.
  - set (m3 := set_warned _ m2). set (m4 := match ml_turns m3 !! pane with Some _ => _ | None => m3 end). assert (mail_inv l all m4) as H4 by (subst m4; by destruct (ml_turns m3 !! pane)).
    clearbody m4. destruct posted as [|thread submission]; [|by apply mail_inv_keep_queued]. case_bool_decide; [by apply mail_inv_keep_unread|by apply mail_inv_took].
Qed.

Lemma posted_inv env token result all m : mail_inv [] all m -> mail_inv [] all (posted env token result m).
Proof.
  intros Hi. unfold posted. destruct (ml_posting m !! token) as [[[pane l] c]|] eqn:E; [|done]. apply handed_inv. by apply (mail_inv_pull_posting token pane l c).
Qed.

Lemma check_one_inv pane state mine all m : mail_inv [] all m -> mail_inv [] all (check_one pane state m mine).
Proof.
  intros Hi. unfold check_one. destruct (ml_queued m !! mine.1) as [q|] eqn:E.
  - pose proof (mail_inv_pull_queued _ q _ _ Hi E) as Hq. case_bool_decide; [by apply mail_inv_release in Hq|]. case_bool_decide; [done|]. by apply mail_inv_took.
  - case_bool_decide; [rewrite delete_id by done; by destruct m|]. by case_bool_decide.
Qed.

Lemma checked_inv env pane mine state all m : mail_inv [] all m -> mail_inv [] all (checked env pane mine state m).
Proof.
  intros Hi. unfold checked. destruct state as [e|state]; [done|]. set (m1 := set_checks _ m). assert (mail_inv [] all m1) as H1 by done. clearbody m1. clear Hi.
  assert (mail_inv [] all (foldl (check_one pane state) m1 mine)) as H2; [|done]. revert m1 H1. induction mine as [|x mine IH]; intros m1 H1; [done|]. apply IH. by apply check_one_inv.
Qed.

(** *** Delivery

    A message that an agent has been posted goes nowhere else meanwhile. *)

Definition posted_to (m : Mail) (pane : string) (id : Z) : Prop :=
  (exists token p, ml_posting m !! token = Some p /\ p.1.1 = pane /\ id ∈ ids (post_list p)) \/ exists u, ml_unread m !! pane = Some u /\ id ∈ ids (unread_list u).
Definition steady (env : MailEnv) (m : Mail) : Prop :=
  forall x pane, x ∈ ml_waiting m -> posted_to m pane (mg_id x) -> me_recipient env x = Some pane \/ me_recipient env x = None.

Section Deliver.
Context {order : HashOrder} (env : MailEnv) (all : list Z).

Definition good (m : Mail) : Prop := mail_inv [] all m /\ steady env m.

Lemma read_up_pane_good m pane : good m -> good (read_up_pane env m pane).
Proof.
  intros [Hi Hs]. unfold read_up_pane. destruct (ml_unread m !! pane) as [[c l]|] eqn:E; [|done]. pose proof (mail_inv_pull_unread _ _ _ _ _ Hi E) as Hp.
  set (m1 := set_unread _ m) in *. assert (steady env m1) as Hs1.
  { intros x p Hx [(token & q & Hq)|(u & Hu & Hid)]; apply Hs; [done|by left; exists token, q|done|]. right. cbn in Hu. apply lookup_delete_Some in Hu as [_ Hu]. by exists u. }
  destruct (negb _); [split; [by apply mail_inv_release in Hp|done]|]. case_bool_decide; [|done]. split; [by apply mail_inv_took|].
  intros x p Hx Hp'. apply Hs1; [|done]. cbn in Hx. by apply elem_of_retain in Hx as [_ ?].
Qed.

Lemma foldl_keeps {A B} (P : A -> Prop) (f : A -> B -> A) l a : (forall a b, P a -> P (f a b)) -> P a -> P (foldl f a l).
Proof. intros Hf. revert a. induction l as [|b l IH]; intros a Ha; [done|]. apply IH. by apply Hf. Qed.

Lemma read_up_good m : good m -> good (read_up env m).
Proof. apply foldl_keeps. intros. by apply read_up_pane_good. Qed.

(** The messages of one pane: they wait, they go there, and each is there once *)
Definition mail_for (waiting : list Message) (pane : string) (l : list Message) : Prop :=
  (forall x, x ∈ l -> x ∈ waiting /\ me_recipient env x = Some pane) /\ NoDup (ids l).

Lemma add_mail_elem pane x by_pane p l :
  (p, l) ∈ add_mail pane x by_pane -> (p, l) ∈ by_pane \/ (p = pane /\ (l = [x] \/ exists l', (p, l') ∈ by_pane /\ l = l' ++ [x])).
Proof.
  induction by_pane as [|[q k] by_pane IH]; simpl; [intros [= -> ->]%list_elem_of_singleton; auto|]. case_decide as Eq.
  - intros [[= -> ->]|Hx]%elem_of_cons; [right; split; [done|]; right; exists k; split; [left|done]|left; by right].
  - intros [[= -> ->]|Hx]%elem_of_cons; [left; left|]. destruct (IH Hx) as [?|[-> [?|(l' & ? & ?)]]]; [left; by right|right; auto|right]. split; [done|]. right. exists l'. split; [by right|done].
Qed.

Lemma mail_by_pane_spec waiting pane l : NoDup (ids waiting) -> (pane, l) ∈ mail_by_pane env waiting -> mail_for waiting pane l.
Proof.
  unfold mail_by_pane. intros Hn. revert pane l. induction waiting as [|x waiting IH] using rev_ind; [by intros pane l ?%elem_of_nil|]. intros pane l. rewrite foldl_app. cbn [foldl].
  rewrite map_app in Hn. apply NoDup_app in Hn as (Hw & Hd & _). set (before := foldl _ [] waiting) in *.
  assert (forall p k, (p, k) ∈ before -> mail_for (waiting ++ [x]) p k /\ mg_id x ∉ ids k) as Hb.
  { intros p k Hk. destruct (IH Hw p k Hk) as [Hf Hk']. split; [split; [|done]; intros y Hy; destruct (Hf y Hy); split; [by apply elem_of_app; left|done]|].
    intros Hx. apply list_elem_of_fmap in Hx as (y & Ey & Hy). apply (Hd (mg_id x)); [rewrite Ey; apply list_elem_of_fmap_2; by apply Hf|left]. }
  destruct (me_recipient env x) as [to|] eqn:Er; [|by intros Hx; apply Hb]. intros [Hx|[-> [->|(l' & Hx & ->)]]]%add_mail_elem; [by apply Hb| |].
  - split; [|repeat constructor; by intros ?%elem_of_nil]. intros y ->%list_elem_of_singleton. split; [apply elem_of_app; right; left|done].
  - destruct (Hb _ _ Hx) as [[Hf Hk] Hnx]. split.
    + intros y [Hy|Hy]%elem_of_app; [by apply Hf|]. apply list_elem_of_singleton in Hy as ->. split; [apply elem_of_app; right; left|done].
    + rewrite map_app. apply NoDup_app. split_and!; [done| |repeat constructor; by intros ?%elem_of_nil]. intros i Hi ->%list_elem_of_singleton. done.
Qed.

Lemma same_message m x y : mail_inv [] all m -> x ∈ ml_waiting m -> y ∈ ml_waiting m -> mg_id x = mg_id y -> x = y.
Proof.
  intros Hi%mail_inv_waiting. revert Hi. generalize (ml_waiting m). intros l. induction l as [|z l IH]; intros Hn Hx Hy E; [by apply elem_of_nil in Hx|]. inversion_clear Hn as [|? ? Hz Hl].
  apply elem_of_cons in Hx as [->|Hx], Hy as [->|Hy]; [done|..|by apply IH].
  - destruct Hz. rewrite E. by apply list_elem_of_fmap_2.
  - destruct Hz. rewrite <- E. by apply list_elem_of_fmap_2.
Qed.

Lemma elem_of_hands m id : id ∈ ids (hands m) -> (exists pane, posted_to m pane id) \/ exists q, q ∈ map_to_list (ml_queued m) /\ id ∈ ids (qd_list q.2).
Proof.
  intros (x & -> & [Hx|[Hx|Hx]%elem_of_app]%elem_of_app)%list_elem_of_fmap; apply elem_of_held_in in Hx as (k & v & Hv & Hx).
  - left. exists v.1.1. left. exists k, v. split_and!; [done..|by apply list_elem_of_fmap_2].
  - left. exists k. right. exists v. split; [done|by apply list_elem_of_fmap_2].
  - right. exists (k, v). split; [by apply elem_of_map_to_list|by apply list_elem_of_fmap_2].
Qed.

Lemma has_id_spec l id : has_id l id = true <-> id ∈ ids l.
Proof.
  unfold has_id. rewrite existsb_exists, list_elem_of_fmap. setoid_rewrite <- list_elem_of_In. split.
  - intros (x & Hx & <-%Z.eqb_eq). by exists x.
  - intros (x & -> & Hx). exists x. by rewrite Z.eqb_refl.
Qed.

(** What is left to post of a pane's messages is in no hands *)
Lemma not_posted_free pane l m x : good m -> pane ∉ ml_delivering m -> mail_for (ml_waiting m) pane l -> x ∈ not_posted pane l m -> mg_id x ∉ ids (hands m).
Proof.
  intros [Hi Hs] Hd [Hf _] [Hn Hx]%elem_of_retain Hh. apply negb_true_iff, orb_false_iff in Hn as [Hu Hq]. destruct (Hf x Hx) as [Hw Hr].
  apply elem_of_hands in Hh as [[p Hp]|(q & Hin & Hid)].
  - destruct (Hs x p Hw Hp) as [E|E]; rewrite Hr in E; [injection E as <-|done]. destruct Hp as [(token & v & Hv & Ep & _)|(u & Eu & Hid)].
    + destruct Hi as (_ & _ & _ & _ & H5 & _). apply Hd. rewrite <- Ep. by apply (H5 token).
    + rewrite Eu in Hu. destruct u as [c posted]. apply has_id_spec in Hid. cbn [unread_list snd] in Hid. congruence.
  - enough (existsb (fun q => has_id (qd_list q.2) (mg_id x)) (map_to_list (ml_queued m)) = true) by congruence. apply existsb_exists. exists q. rewrite <- list_elem_of_In. split; [done|by apply has_id_spec].
Qed.

Lemma hand_over_good pane l channel idle m :
  good m -> pane ∉ ml_delivering m -> mail_for (ml_waiting m) pane l -> (forall x, x ∈ l -> mg_id x ∉ ids (hands m)) -> good (hand_over env pane l channel idle m).
Proof.
  intros [Hi Hs] Hd [Hf Hl] Hfree. pose proof Hi as (H1 & H2 & H3 & H4 & H5 & H6). set (token := (ml_next m + 1)%N). unfold hand_over. fold token.
  assert (ml_posting m !! token = None) as Hnew by (destruct (ml_posting m !! token) as [p|] eqn:E; [apply H5 in E as [_ ?]; lia|done]).
  split.
  - unfold mail_inv. cbn [ask set_posting set_next ml_waiting ml_taken ml_posting ml_delivering ml_next]. unfold hands. cbn [ask set_posting set_next ml_posting ml_unread ml_queued app].
    assert (ids (held_in post_list (<[token := (pane, l, channel)]> (ml_posting m)) ++ held_in unread_list (ml_unread m) ++ held_in qd_list (ml_queued m)) ≡ₚ ids l ++ ids (hands m)) as Eh.
    { rewrite <- map_app. apply Permutation_map. rewrite held_in_insert by done. cbn [post_list fst snd]. unfold hands. by rewrite <- app_assoc. }
    split_and!; [done|done|..].
    + rewrite Eh. apply NoDup_app. split_and!; [done| |done]. intros id Hid. apply list_elem_of_fmap in Hid as (x & -> & Hx). by apply Hfree.
    + intros id. rewrite Eh, elem_of_app. intros [Hid|Hid]; [|by apply H4]. apply list_elem_of_fmap in Hid as (x & -> & Hx). apply list_elem_of_fmap_2. by apply Hf.
    + intros t p [[<- <-]|[Hne Hp]]%lookup_insert_Some; [split; [cbn; set_solver|lia]|]. apply H5 in Hp as [? ?]. split; [set_solver|lia].
    + intros t t' p p' [[<- <-]|[Hne Hp]]%lookup_insert_Some [[<- <-]|[Hne' Hp']]%lookup_insert_Some E; cbn in E; [done|..|by eapply H6].
      * exfalso. apply Hd. rewrite E. by apply (H5 t').
      * exfalso. apply Hd. rewrite <- E. by apply (H5 t).
  - intros x p Hx [(t & v & Hv & Ep & Hid)|Hu]; [|by apply Hs; [|right]]. cbn in Hv. apply lookup_insert_Some in Hv as [[<- <-]|[Hne Hv]]; [|by apply Hs; [|left; exists t, v]].
    cbn in Ep, Hid. subst p. apply list_elem_of_fmap in Hid as (y & Ey & Hy). destruct (Hf y Hy) as [Hyw Hyr]. rewrite (same_message m x y Hi Hx Hyw Ey). by left.
Qed.

Lemma check_queue_good pane channel l next m (r := check_queue env pane channel l next m) :
  good m -> good r.2 /\ ml_waiting r.2 = ml_waiting m /\ ml_delivering r.2 = ml_delivering m /\ ml_ready r.2 = ml_ready m.
Proof.
  intros [Hi Hs]. subst r. unfold check_queue. destruct (queued_as l m) as [|q0 mine]; [done|].
  assert (forall Q, Q ⊆ ml_queued m -> good (set_queued Q m)) as Hq.
  { intros Q HQ. split; [|done]. eapply mail_inv_hands; [done|done|done| |intros token p Hx; split; [done|]; destruct Hi as (_ & _ & _ & _ & H5 & _); by apply (H5 token)|done].
    unfold hands. cbn [set_queued ml_posting ml_unread ml_queued app]. do 2 (apply submseteq_app; [done|]). by apply held_in_sub. }
  destruct channel as [s|[e|s]|a]; try (split_and!; [|done..]; apply Hq, map_filter_subseteq). destruct (_ <? _); done.
Qed.

Lemma unknown_good pane why at_ next m : good m -> good (unknown env pane why at_ next m).2 /\ ml_waiting (unknown env pane why at_ next m).2 = ml_waiting m.
Proof. unfold unknown, warn. destruct (_ <=? _); [case_bool_decide|]; done. Qed.

Lemma deliver_pane_good st mail (r := deliver_pane env st mail) :
  good st.2 -> mail_for (ml_waiting st.2) mail.1 mail.2 -> good r.2 /\ ml_waiting r.2 = ml_waiting st.2.
Proof.
  destruct st as [next m], mail as [pane l]. subst r. cbn [fst snd]. intros Hg Hf. unfold deliver_pane.
  destruct (bool_decide _ || _) eqn:Eb; [done|]. apply orb_false_iff in Eb as [Ed%bool_decide_eq_false _]. destruct (ml_ready m !! pane) as [ready|]; [|done].
  destruct (me_channel env pane) as [channel|]; [|destruct (ready_unknown ready); [by apply unknown_good|done]].
  pose proof (check_queue_good pane channel l next m Hg) as (Hg1 & Ew & Edl & _). destruct (check_queue env pane channel l next m) as [next1 m1]. cbn [snd] in *.
  rewrite <- Edl in Ed. rewrite <- Ew in Hf.
  assert (mail_for (ml_waiting m1) pane (not_posted pane l m1)) as Hf1.
  { destruct Hf as [Hf Hn]. split; [intros x [_ Hx]%elem_of_retain; auto|]. apply (NoDup_submseteq _ (ids l)); [|done]. refine (fmap_submseteq mg_id _ _ _). apply sublist_submseteq, retain_sublist. }
  assert (forall idle, good (hand_over env pane (not_posted pane l m1) channel idle m1)) as Hh.
  { intros idle. apply hand_over_good; [done..|]. intros x Hx. by apply (not_posted_free pane l). }
  destruct (not_posted pane l m1) as [|x0 rest]; [done|].
  assert (forall why, good (warn pane why m1) /\ ml_waiting (warn pane why m1) = ml_waiting m1) as Hwarn by (intros why; unfold warn; by case_bool_decide).
  destruct (ready_at ready) as [at_|].
  - destruct (_ <=? _); [|done]. destruct (undeliverable channel) as [why|]; [|split; [apply Hh|done]]. destruct (coming_up env pane channel); [done|]. rewrite <- Ew. apply Hwarn.
  - destruct (undeliverable channel) as [why|].
    + destruct (coming_up env pane channel); [done|]. destruct (ready_unknown ready); [|done]. rewrite <- Ew. by apply unknown_good.
    + destruct (mid_turn _ _ _); [|done]. destruct (_ <=? _); [split; [apply Hh|done]|done].
Qed.

Lemma deliver_mail_good m : good m -> good (deliver_mail env m).2.
Proof.
  intros Hg%read_up_good. unfold deliver_mail. set (m1 := read_up env m) in *. destruct (ml_waiting m1) as [|x0 w0] eqn:Ew; [done|]. rewrite <- Ew.
  assert (Forall (fun mail => mail_for (ml_waiting m1) mail.1 mail.2) (mail_by_pane env (ml_waiting m1))) as Hf.
  { apply Forall_forall. intros [p l] Hpl. apply mail_by_pane_spec; [|done]. destruct Hg as [Hi _]. by apply mail_inv_waiting in Hi. }
  set (m2 := foldl (see_first env) m1 _). assert (good m2 /\ ml_waiting m2 = ml_waiting m1) as [Hg2 Ew2].
  { apply (foldl_keeps (fun a => good a /\ ml_waiting a = ml_waiting m1)); [|done]. intros a b [? ?]. unfold see_first. by destruct (ml_ready a !! b). }
  clearbody m2. assert (Forall (fun mail => mail_for (ml_waiting m2) mail.1 mail.2) (mail_by_pane env (ml_waiting m1))) as Hf2 by (by rewrite Ew2).
  revert Hf2 Hg2. generalize (mail_by_pane env (ml_waiting m1)), (None : option Instant). clear. intros mails next. revert m2 next.
  induction mails as [|mail mails IH]; intros m2 next Hf Hg2; [done|]. inversion_clear Hf as [|? ? H1 H2]. cbn [foldl].
  destruct (deliver_pane_good (next, m2) mail Hg2 H1) as [Hg3 Ew3]. destruct (deliver_pane env (next, m2) mail) as [next3 m3]. cbn [snd] in *. apply IH; [by rewrite Ew3|done].
Qed.
End Deliver.

(** ** What steps lead to *)

Section Steps.
Context {order : HashOrder}.

(** One handler; a new message has an ID that no message had *)
Inductive mail_step : list Z * Mail -> list Z * Mail -> Prop :=
| ms_queue all x m : mg_id x ∉ all -> mail_step (all, m) (all ++ [mg_id x], queue_mail x m)
| ms_deliver all env m : steady env m -> mail_step (all, m) (all, (deliver_mail env m).2)
| ms_posted all env token result m : mail_step (all, m) (all, posted env token result m)
| ms_checked all env pane mine state m : mail_step (all, m) (all, checked env pane mine state m)
| ms_status all env pane status ended m : mail_step (all, m) (all, status_seen env pane status ended m)
| ms_gone all pane m : mail_step (all, m) (all, pane_gone pane m).

Lemma queue_inv x all m : mg_id x ∉ all -> mail_inv [] all m -> mail_inv [] (all ++ [mg_id x]) (queue_mail x m).
Proof.
  intros Hx (H1 & H2 & H3 & H4 & H5 & H6). unfold mail_inv. cbn [queue_mail set_waiting ml_waiting ml_taken ml_posting ml_delivering ml_next]. change (hands (queue_mail x m)) with (hands m).
  split_and!; [| |done| |done|done].
  - rewrite map_app, H1, <- !app_assoc. f_equiv. apply Permutation_app_comm.
  - apply NoDup_app. split_and!; [done| |repeat constructor; by intros ?%elem_of_nil]. intros i Hi ->%list_elem_of_singleton. done.
  - intros id Hid. rewrite map_app. apply elem_of_app. left. by apply H4.
Qed.

Lemma mail_step_inv s s' : mail_step s s' -> mail_inv [] s.1 s.2 -> mail_inv [] s'.1 s'.2.
Proof.
  intros [all x m Hx|all env m Hs|all env token result m|all env pane mine state m|all env pane status ended m|all pane m] Hi; cbn [fst snd] in *.
  - by apply queue_inv.
  - by apply (deliver_mail_good env all m).
  - by apply posted_inv.
  - by apply checked_inv.
  - unfold status_seen. by destruct (ml_turns _ !! pane).
  - done.
Qed.

Lemma mail_new_inv waiting : NoDup (ids waiting) -> mail_inv [] (ids waiting) (mail_new waiting).
Proof.
  intros Hn. unfold mail_inv. assert (hands (mail_new waiting) = []) as -> by (unfold hands, held_in, mail_new; cbn [ml_posting ml_unread ml_queued]; by rewrite !map_to_list_empty).
  cbn [mail_new ml_waiting ml_taken ml_posting map app]. rewrite app_nil_r.
  split_and!; [done|done|constructor|by intros ? ?%elem_of_nil|..]; intros token p; by rewrite lookup_empty.
Qed.

(** C29 In whatever order messages come, agents report, posts are answered and queues are looked at, no
    message is lost and none is taken twice: every message that ever came waits or was taken, once
    in all; and none is in two hands at once, posted, unread or queued.  This needs that a message which
    an agent has been posted goes to no other pane meanwhile. *)
Theorem messages_are_accounted (waiting : list Message) (all : list Z) (m : Mail) :
  NoDup (ids waiting) -> rtc mail_step (ids waiting, mail_new waiting) (all, m) ->
  all ≡ₚ ids (ml_waiting m) ++ map (fun p => mg_id p.2) (ml_taken m) /\ NoDup (ids (ml_waiting m) ++ map (fun p => mg_id p.2) (ml_taken m)) /\
  NoDup (ids (hands m)) /\ forall id, id ∈ ids (hands m) -> id ∈ ids (ml_waiting m).
Proof.
  intros Hn Hr. assert (mail_inv [] all m) as (H1 & H2 & H3 & H4 & _).
  { change (mail_inv [] (all, m).1 (all, m).2). apply mail_new_inv in Hn. change (mail_inv [] (ids waiting, mail_new waiting).1 (ids waiting, mail_new waiting).2) in Hn.
    revert Hn. induction Hr as [|s1 s2 s3 Hs _ IH]; [done|]. intros Hi. apply IH. by eapply mail_step_inv. }
  split_and!; [done| |done|done]. by rewrite <- H1.
Qed.
End Steps.

(** *** A message is handed to an agent that waits, and is taken *)

Section Sample.
#[local] Instance sample_order : HashOrder := elements.

Definition sample_message : Message := mkMessage 7 "task-0000000a" "/r" "user" (f_of_Z 0) None "hello" None None.
Definition sample_env (pane : string) : MailEnv :=
  mkEnv 50 (fun _ => Some pane) (fun _ => Some (Claude (inr "/s"))) (fun _ => Some BYPASS) (fun _ => None) (fun _ => false) (fun _ => Some Idle) (fun id => id).
Definition sample_handed : Mail := (deliver_mail (sample_env "p") (queue_mail sample_message (mail_new []))).2.
Definition sample_taken : Mail := posted (sample_env "p") 1 (inr Given) sample_handed.

Lemma sample_mail_reached : rtc mail_step (ids [], mail_new []) ([7], sample_taken).
Proof.
  eapply rtc_l; [apply (ms_queue [] sample_message); by intros ?%elem_of_nil|]. eapply rtc_l; [apply (ms_deliver _ (sample_env "p"))|].
  - intros x pane _ [(token & p & Hp & _)|(u & Hu & _)]; [|cbn in Hu]; cbn in *; by rewrite lookup_empty in *.
  - apply rtc_once. apply (ms_posted _ (sample_env "p") 1 (inr Given)).
Qed.

Example sample_accounted : map fst (ml_taken sample_taken) = ["p"] /\ ml_waiting sample_taken = [] /\ length (ml_asked sample_taken) = 1%nat.
Proof. by vm_compute. Qed.

Lemma messages_are_accounted_witness :
  [7] ≡ₚ ids (ml_waiting sample_taken) ++ map (fun p => mg_id p.2) (ml_taken sample_taken) /\ NoDup (ids (ml_waiting sample_taken) ++ map (fun p => mg_id p.2) (ml_taken sample_taken)) /\
  NoDup (ids (hands sample_taken)) /\ forall id, id ∈ ids (hands sample_taken) -> id ∈ ids (ml_waiting sample_taken).
Proof. apply (messages_are_accounted [] [7] sample_taken); [constructor|apply sample_mail_reached]. Defined.

(** A message whose task has moved to another pane while it is posted is given there too *)
Example moved_is_given_twice :
  let moved := (deliver_mail (sample_env "q") sample_handed).2 in
  map fst (ml_taken (posted (sample_env "q") 2 (inr Given) (posted (sample_env "p") 1 (inr Given) moved))) = ["p"; "q"].
Proof. by vm_compute. Qed.
End Sample.
